(* ===== verification/_CoqProject ===== *)
-Q . S2P
Prelude.v
CLib.v
Words.v
Dbl.v
DblFacts.v
DblDiv.v
Conv.v
Records.v
Locks.v
FileSys.v
Ipc.v
Channel.v
Server.v
Sched.v
Shared.v
HostStreams.v
Bytecode.v
Correl.v
Dict.v
Voc.v
Login.v
Daemon.v
LineEditor.v
Values.v
Registry.v
BuiltinSupport.v
Vm.v
VmProps.v
VmRuns.v
BasicExpr.v
VmArith.v
BasicExprRun.v
BasicStmt.v
BasicEmit.v
BasicLayout.v
BasicControl.v
BasicSaved.v
BasicIr.v
BasicRun.v
BasicProg.v
Proc.v
ProcRun.v
EnglishQuery.v
EnglishFormat.v
EnglishExec.v
Session.v
TclFiles.v
Help.v
Tcl.v
TclRun.v
Assembler.v
Shell.v
ShellRun.v
Input.v
InputVm.v
InputEd.v
InputProc.v
InputBasic.v
Authority.v
Config.v
Client.v
Modules.v
Boot.v
System.v
DaemonMain.v
VmMain.v
