(* ===== verification/Prelude.v ===== *)
(** * Gemini System: verification library (root)

    Gemini System is a Pick-like environment: files of multi-valued records, a BASIC compiler with a
    bytecode machine, the ENGLISH query language, PROC scripts, and TCL, the shell that ties them together.  It runs
    as one program or as a daemon that consoles connect to.  This library is a shallow
    embedding of its C++ sources, one definition per function wherever a function is more than
    glue, and theorems about them.  The comment above a definition names the file, the
    lines and the function that it translates; paths are those of the repository.

    ** How the code is rendered

    - A call answers an [outcome]: a value, [Throw] of one of the exception classes the program uses, or [Undefined], where
      the C++ standard gives no meaning (signed overflow, an index out of range, a cast that does not fit) or
      where a bound of the model (fuel) is reached.  In Daemon.v it is also what stops the daemon for good from
      one of its threads: a wait that does not end, a data race, [std::terminate].  No theorem has [Undefined] where it speaks of a result: results that
      are stated are [Ok] or [Throw].
    - An object's methods are [proc S A], functions [S -> outcome A * S] over the object's fields: what was changed before a
      throw stays changed.  [try_catch] and [caught] are the [catch] clauses; [zoom] runs a method of a member.
    - An [int] is a [Z] that is wrapped or checked where the code computes with it (CLib.v); [double] is [spec_float] (Dbl.v); [std::string]
      is [string], of 8-bit characters; [std::map] and [std::unordered_map] are stdpp maps, or association lists
      where the order is visible.
    - Threads are sequences of the steps that their mutexes make indivisible: Sched.v and Daemon.v are step
      relations, Channel.v has the windows in which the lock is released.  What the sessions' threads do to the daemon are events, between
      the rounds of its loop and while the loop waits for a thread to end ([Daemon.Wait]: whether it ends is not assumed); an access to a map without a
      lock that overlaps another one is an event of its own, as is an exception that escapes.
    - The host is an argument: which calls on files fail ([HostFs]), the JSON parser's result and the paths that exist ([LoginHost]), what
      [read], [write] and [poll] return (Ipc.v, Channel.v, Server.v), the transcendental functions, the clock and the random
      generator ([Platform]).  Hypotheses about them are hypotheses of the theorems that need them.

    ** The parts

    Foundations.
    - Prelude.v (this file): outcomes, methods, invariants of methods ([preserves]).  CLib.v, Words.v: the C and C++ library.
      Dbl.v, DblFacts.v, DblDiv.v: floating point, and why integers pass through it unharmed.

    Records (src/core/filesystem, locking, conversion, voc, md).
    - Records.v: values, attributes, records.  Locks.v: the lock table.  FileSys.v: the record store with its locks and
      temporary files.  Conv.v: OCONV and ICONV.  Voc.v: the VOC.  Dict.v: dictionaries.

    The machine (src/core/vm, languages).
    - Bytecode.v: instructions, bytecode text, its parser.  Values.v, Registry.v: values and the functions of language modules.
      Vm.v: the machine, every opcode.  VmProps.v, VmRuns.v, VmArith.v: theorems about it.
    - BuiltinSupport.v: the second copy that the source has of the coercions and conversions.  Modules.v: the loader of language
      modules, the modules (modules).  HostStreams.v: the streams on the host's files (src/core/hostfs), which are a part of what the functions of
      modules act on ([Registry.Outside]).  VmMain.v: the standalone machine (src/vm).

    BASIC (src/userland/basic).
    - BasicExpr.v, BasicStmt.v: parsing and code of expressions; parsing of statements.  BasicEmit.v: the emitter with
      its patching, the analyzer, the compiler.  BasicProg.v: the program buffer and BASIC mode.
    - BasicExprRun.v, BasicLayout.v, BasicControl.v, BasicRun.v: the compiler is correct.  BasicSaved.v: what it saves can be
      loaded.  BasicIr.v: the copy of the program that the analyzer makes for the emitter.

    Queries and scripts (src/core/english, src/userland/proc).
    - Correl.v: correlatives.  EnglishQuery.v, EnglishFormat.v, EnglishExec.v: the processor.  Proc.v, ProcRun.v: PROC.

    The shell (src/userland/tcl, assembler, src/core/login, catalog).
    - Login.v: accounts and logging on.  Session.v: a session's state.  TclFiles.v, Help.v, Tcl.v, TclRun.v, Assembler.v, Shell.v: every
      command, the modes, the debuggers, the loop that reads lines.  LineEditor.v: the record editor.
    - ShellRun.v: theorems, and whole sessions that are run with [vm_compute].  Input.v, InputVm.v, InputEd.v,
      InputProc.v, InputBasic.v, Authority.v: what the lines typed can and cannot bring about.

    The daemon (src/core/daemon, src/userland/tcl/GeminiDaemonRunner.cpp).
    - Ipc.v: frames and payloads.  Sched.v: the execution token and the ports.  Channel.v: a session's channel.  Server.v: connections and
      the dispatch of frames, against a record of handlers.  Daemon.v: the handlers, sessions, threads, shutdown.  Shared.v: the older
      runner and the process's lock table.
    - Client.v: the daemon's client, which is the console (src/console).  Config.v: the settings of both.

    Start-up (src/core/boot, src/Main.cpp).
    - Boot.v: the report of a cold start, the service daemon, what the host of sessions tells administrators.  System.v: the single-user program
      from its first line to its exit code.  DaemonMain.v: the daemon's main program, with the socket it listens on (src/daemon).

    How they meet.  A command's PROC scripts, BASIC mode and the editor call back into the shell through records of
    functions ([Proc.ProcHost], [BasicProg.Host]) which Shell.v fills in; the theorems of ProcRun.v and BasicProg.v hold
    for every host; that the shell's own host keeps a program that is saved is in ShellRun.v.  The machine reaches records, language functions and system variables
    through [Vm.Env].  The server calls the daemon through [Server.DaemonIpcHandlers]; what Server.v proves of
    its channels is for all handlers that keep a discipline stated there, which Daemon.v's handlers are shown to keep.
    The shell reaches the daemon through [Tcl.ShellAdminQueries], which Boot.v and System.v fill in.  Client.v's console talks to
    Server.v's dispatch in the bytes of Ipc.v.  System.v runs Login.v and Shell.v under Sched.v's token after Boot.v's cold start.

    ** The theorems

    - Refinement.  The lock table is a map from records to owners, whatever the sequence of operations; compiled BASIC does what a reference
      interpreter of statements does, and its expressions what an evaluator says; the emitter's patching gives the program of a layout
      without patching; scripts do what their tree of loops says; editing sessions are list operations; frames arrive
      once, whole and in order, however reads and writes are cut.
    - Safety and invariants.  Values keep their types in the machine, whatever it runs; a locked record
      is not written by others; one session runs at a time and the token goes round; the daemon never uses the channel of a connection that is
      gone, and has four ways not to come to its end; nothing is served before the handshake; logging on needs the password; LOGOFF leaves nothing behind; who does not know the
      password of SYSPROG, if it has one, cannot stop the daemon or end sessions, whatever they type, from power-on to power-off; a call on a host stream
      touches no other stream; the standalone machine leaves records and locks alone, and the host's files to the functions of its modules.
    - Between programs.  The console passes bytes on unchanged, and it and the daemon agree on who is attached; a program compiled and saved in the
      shell is loaded as it was and runs in the standalone machine as where it was compiled; the report of a cold start says of an account what a
      logon will find; settings have the documented precedence; modules load in the order of their names.
    - Round trips and reports.  Records, bytecode text, I-expressions, dates, frames, BASIC programs, queries, quoted words; the layout of a report,
      and the order of its rows.
    - Errors and bounds.  How the daemon starts and ends, whatever the system calls answer; what a locked record does to a program; what an evaluation error is; integer arithmetic at 32 bits.

    ** Bounds

    Recursion that is not structural takes fuel.  Where the code's recursion ends, a lemma gives fuel that is enough, and the definitions use
    it: [parse_fuel] (Correl.v, BasicExpr.v) and the line's length (BasicStmt.v), the size of the table for Q entries (Voc.v), the number of characters
    left for loops that read lines (LineEditor.v, Shell.v, TclRun.v).  Where it need not end
    (a program, a script, CHAIN, scripts in scripts) the fuel is an argument: theorems hold for
    every value of it, and speak of what happens within it ([VmRuns.for_loop_total] and [ProcRun.structured_scripts] say when
    it suffices).

    ** What is not modelled

    - Text to JSON: nlohmann's parser is [LoginHost.document].  Signal handlers; the options of a socket (not blocking, no SIGPIPE).
    - The Windows branches of the code.
    - Failures to get memory or to start a thread.
    - Messages to the log, and the numbers of bytes the report formatter counts beyond [int].
    - Accessors, setters of streams and hooks, and class declarations that only declare: they have no behaviour of their own.
    - The random engine, the clock, transcendental functions: arguments, as above. *)

From Stdlib Require Import ZArith Lia Ascii NArith.
From Stdlib Require Export ZArith Lia.
From stdpp Require Export base list strings gmap fin_maps sorting.
From stdpp Require Import options.

(** ** Outcomes of C++ code

    A call either returns, throws one of the exception classes the program
    uses, or runs into behaviour the C++ standard leaves undefined (signed
    overflow, a floating value cast to an [int] that cannot hold it, ...). *)
Inductive exn :=
| RuntimeError (what : string)
| FileSystemError (what : string)
| InvalidArgument (what : string)
| OutOfRange (what : string)
| LogicError (what : string)
| ChainRequest (programName : string)
| UserInterrupt.

Inductive outcome (A : Type) :=
| Ok (a : A)
| Throw (e : exn)
| Undefined (why : string).
Arguments Ok {_} _.
Arguments Throw {_} _.
Arguments Undefined {_} _.

#[global] Instance exn_eq_dec : EqDecision exn.
Proof. solve_decision. Defined.

#[global] Instance outcome_eq_dec `{EqDecision A} : EqDecision (outcome A).
Proof. solve_decision. Defined.

#[global] Instance outcome_ret : MRet outcome := @Ok.

#[global] Instance outcome_bind : MBind outcome := λ A B f m,
  match m with
  | Ok a => f a
  | Throw e => Throw e
  | Undefined w => Undefined w
  end.

#[global] Instance outcome_fmap : FMap outcome := λ A B f m,
  match m with
  | Ok a => Ok (f a)
  | Throw e => Throw e
  | Undefined w => Undefined w
  end.

Lemma outcome_bind_ok {A B} (f : A → outcome B) a : Ok a ≫= f = f a.
Proof. done. Qed.

Lemma outcome_bind_inv {A B} (m : outcome A) (f : A → outcome B) b :
  m ≫= f = Ok b → ∃ a, m = Ok a ∧ f a = Ok b.
Proof. destruct m; naive_solver. Qed.

Lemma outcome_fmap_inv {A B} (m : outcome A) (f : A → B) b :
  f <$> m = Ok b → ∃ a, m = Ok a ∧ b = f a.
Proof. destruct m; naive_solver. Qed.

(** ** Stateful code with exceptions

    An object's method changes the object and may throw half-way: the changes
    made before the throw stay, as in C++. *)
Definition proc (S A : Type) : Type := S → outcome A * S.

#[global] Instance proc_ret {S} : MRet (proc S) := λ A a s, (Ok a, s).

#[global] Instance proc_bind {S} : MBind (proc S) := λ A B f m s,
  match m s with
  | (Ok a, s') => f a s'
  | (Throw e, s') => (Throw e, s')
  | (Undefined w, s') => (Undefined w, s')
  end.

Section proc_ops.
Context {S A : Type}.

Definition get : proc S S := λ s, (Ok s, s).
Definition gets (f : S → A) : proc S A := λ s, (Ok (f s), s).
Definition modify (f : S → S) : proc S unit := λ s, (Ok tt, f s).
Definition act (f : S → outcome A * S) : proc S A := f.
Definition throw (e : exn) : proc S A := λ s, (Throw e, s).
Definition lift (m : outcome A) : proc S A := λ s, (m, s).

(** [try_catch m h]: a [catch] clause is a handler that accepts the exception
    (returns [Some]); the other exceptions propagate. *)
Definition try_catch (m : proc S A) (h : exn → option (proc S A)) : proc S A := λ s,
  match m s with
  | (Throw e, s') =>
      match h e with
      | Some k => k s'
      | None => (Throw e, s')
      end
  | r => r
  end.
End proc_ops.

(** [e.what()] of what [catch (const std::exception &)] catches. *)
Definition what (e : exn) : option string :=
  match e with
  | RuntimeError w | FileSystemError w | InvalidArgument w | OutOfRange w | LogicError w => Some w
  | ChainRequest _ | UserInterrupt => None
  end.

Definition caught {S A} (m : proc S A) : proc S (A + string) :=
  try_catch (a ← m; mret (inl a)) (λ e, match what e with Some w => Some (mret (inr w)) | None => None end).

(** Running a method on a sub-object: [zoom get put m]. *)
Definition zoom {S T A} (view : S → T) (set : T → S → S) (m : proc T A) : proc S A := λ s,
  let r := m (view s) in (r.1, set r.2 s).

Lemma proc_bind_ok {S A B} (m : proc S A) (f : A → proc S B) s a s' :
  m s = (Ok a, s') → (m ≫= f) s = f a s'.
Proof. intros H. unfold mbind, proc_bind. by rewrite H. Qed.

Lemma proc_bind_inv {S A B} (m : proc S A) (f : A → proc S B) s b s' :
  (m ≫= f) s = (Ok b, s') → ∃ a s1, m s = (Ok a, s1) ∧ f a s1 = (Ok b, s').
Proof. unfold mbind, proc_bind. destruct (m s) as [[] ?]; naive_solver. Qed.

(** *** Invariants of methods

    [preserves P m]: however [m] ends, [P] holds afterwards if it held before. *)
Section preserves.
Context {S : Type} (P : S → Prop).

Definition preserves {A} (m : proc S A) : Prop := ∀ s, P s → P (m s).2.

Lemma preserves_bind {A B} (m : proc S A) (f : A → proc S B) : preserves m → (∀ a, preserves (f a)) → preserves (m ≫= f).
Proof. intros Hm Hf s Hs. specialize (Hm s Hs). unfold mbind, proc_bind. destruct (m s) as [[a|e|u] s']; [by apply Hf|done..]. Qed.

Lemma preserves_ret {A} (a : A) : preserves (mret a).
Proof. by intros s Hs. Qed.

Lemma preserves_throw {A} x : preserves (throw x : proc S A).
Proof. by intros s Hs. Qed.

Lemma preserves_lift {A} (o : outcome A) : preserves (lift o).
Proof. by intros s Hs. Qed.

Lemma preserves_get : preserves get.
Proof. by intros s Hs. Qed.

Lemma preserves_gets {A} (f : S → A) : preserves (gets f).
Proof. by intros s Hs. Qed.

Lemma preserves_modify f : (∀ s, P s → P (f s)) → preserves (modify f).
Proof. intros Hf s Hs. by apply Hf. Qed.
End preserves.

Create HintDb preserves.
#[export] Hint Resolve preserves_ret preserves_throw preserves_lift preserves_get preserves_gets : preserves.

(** Follows a method's [do]-notation and its case distinctions; what the hints do not
    solve is left. *)
Ltac preserves := repeat first
  [ solve [auto with preserves]
  | match goal with |- preserves _ (_ ≫= _) => apply preserves_bind; [|intros] end
  | case_match ].

(** String concatenation computes on a string that starts with a character. *)
#[global] Arguments String.append !_ _ / : simpl nomatch.

Create HintDb gemini.
Create Rewrite HintDb gemini.
