(* ===== verification/CLib.v ===== *)
(** * The parts of the C and C++ standard libraries that the sources use

    Character classification in the "C" locale, [std::string] helpers,
    [std::getline], the [strtol] family ([std::stoi], [std::stoll],
    [std::stoull]), [std::to_string] and fixed-width integers.  A [std::string]
    is a [string] (a list of 8-bit characters); [std::string::compare] and
    [operator<] order by unsigned character, which is [String.compare]. *)

From Stdlib Require Import Ascii String DecimalString DecimalPos DecimalN DecimalZ DecimalFacts.
From S2P Require Import Prelude.
From stdpp Require Import options.
Local Open Scope Z_scope.

(** ** Machine integers *)
Definition INT_MIN : Z := -2147483648.
Definition INT_MAX : Z := 2147483647.
Definition LLONG_MIN : Z := -9223372036854775808.
Definition LLONG_MAX : Z := 9223372036854775807.
Definition ULLONG_MAX : Z := 18446744073709551615.
Definition UINT32_MAX : Z := 4294967295.

Definition in_int (z : Z) : bool := (INT_MIN <=? z) && (z <=? INT_MAX).
Definition in_llong (z : Z) : bool := (LLONG_MIN <=? z) && (z <=? LLONG_MAX).

(** An [int] expression whose mathematical value does not fit is undefined. *)
Definition int_of (z : Z) : outcome Z :=
  if in_int z then Ok z else Undefined "signed integer overflow".
Definition llong_of (z : Z) : outcome Z :=
  if in_llong z then Ok z else Undefined "signed integer overflow".

(** Conversion to an unsigned type wraps. *)
Definition wrap32 (z : Z) : Z := z mod 2 ^ 32.
Definition wrap64 (z : Z) : Z := z mod 2 ^ 64.

(** [static_cast<int>] of a wider integer. *)
Definition to_int32 (z : Z) : Z := (z + 2 ^ 31) mod 2 ^ 32 - 2 ^ 31.

Lemma in_int_spec z : in_int z = true ↔ INT_MIN ≤ z ≤ INT_MAX.
Proof. unfold in_int, INT_MIN, INT_MAX. rewrite andb_true_iff, !Z.leb_le. done. Qed.

Lemma int_of_ok z z' : int_of z = Ok z' → z' = z ∧ in_int z = true.
Proof. unfold int_of. destruct (in_int z) eqn:E; naive_solver. Qed.

Lemma int_of_id z : in_int z = true → int_of z = Ok z.
Proof. unfold int_of. by intros ->. Qed.

Lemma llong_of_id z : LLONG_MIN ≤ z ≤ LLONG_MAX → llong_of z = Ok z.
Proof.
  intros [??]. unfold llong_of, in_llong.
  by rewrite (proj2 (Z.leb_le LLONG_MIN z)), (proj2 (Z.leb_le z LLONG_MAX)) by done.
Qed.

(** ** Characters ("C" locale) *)
Definition code (c : ascii) : Z := Z.of_N (N_of_ascii c).
Definition chr (z : Z) : ascii := ascii_of_N (Z.to_N z).

Definition isspace (c : ascii) : bool := (code c =? 32) || ((9 <=? code c) && (code c <=? 13)).
Definition isdigit (c : ascii) : bool := (48 <=? code c) && (code c <=? 57).
Definition isupper (c : ascii) : bool := (65 <=? code c) && (code c <=? 90).
Definition islower (c : ascii) : bool := (97 <=? code c) && (code c <=? 122).
Definition isalpha (c : ascii) : bool := isupper c || islower c.
Definition toupper (c : ascii) : ascii := if islower c then chr (code c - 32) else c.
Definition tolower (c : ascii) : ascii := if isupper c then chr (code c + 32) else c.
Definition digit_val (c : ascii) : Z := code c - 48.

Definition NL : ascii := "010"%char.
Definition CR : ascii := "013"%char.
Definition TAB : ascii := "009"%char.
Definition DQUOTE : ascii := "034"%char.
Definition BACKSLASH : ascii := "092"%char.

Lemma code_range c : 0 ≤ code c < 256.
Proof. unfold code. pose proof (N_ascii_bounded c). lia. Qed.

Lemma chr_code c : chr (code c) = c.
Proof. unfold chr, code. rewrite N2Z.id. apply ascii_N_embedding. Qed.

Lemma code_chr z : 0 ≤ z < 256 → code (chr z) = z.
Proof. intros ?. unfold chr, code. rewrite N_ascii_embedding; lia. Qed.

(** Every statement about one character is decided by running over the 256 of
    them; [all_chars] does it inside the kernel's evaluator. *)
Definition all_chars (P : ascii → bool) : bool :=
  forallb (λ n, P (ascii_of_N n)) (map N.of_nat (List.seq 0 256)).

Lemma all_chars_spec P : all_chars P = true → ∀ c, P c = true.
Proof.
  intros H c. unfold all_chars in H. rewrite forallb_forall in H.
  rewrite <- (ascii_N_embedding c). apply H. apply in_map_iff.
  exists (N.to_nat (N_of_ascii c)). pose proof (N_ascii_bounded c).
  split; [lia|]. apply in_seq. lia.
Qed.

Lemma toupper_idemp c : toupper (toupper c) = toupper c.
Proof.
  apply Ascii.eqb_eq. revert c. apply (all_chars_spec (λ c, Ascii.eqb (toupper (toupper c)) (toupper c))).
  by vm_compute.
Qed.

(** ** Strings *)
Fixpoint str_map (f : ascii → ascii) (s : string) : string :=
  match s with
  | "" => ""
  | String c s' => String (f c) (str_map f s')
  end.

Fixpoint str_forall (p : ascii → bool) (s : string) : bool :=
  match s with
  | "" => true
  | String c s' => p c && str_forall p s'
  end.

Definition str_empty (s : string) : bool :=
  match s with "" => true | _ => false end.

Definition str_size (s : string) : Z := Z.of_nat (String.length s).

(** [s.back()], when the string is not empty. *)
Fixpoint str_back (s : string) : option ascii :=
  match s with
  | "" => None
  | String c "" => Some c
  | String _ s' => str_back s'
  end.

Definition str_front (s : string) : option ascii :=
  match s with "" => None | String c _ => Some c end.

(** [s.rfind(prefix, 0) == 0] *)
Fixpoint starts_with (p s : string) : bool :=
  match p, s with
  | "", _ => true
  | String a p', String b s' => Ascii.eqb a b && starts_with p' s'
  | _, _ => false
  end.

Fixpoint str_drop (n : nat) (s : string) : string :=
  match n, s with
  | O, _ => s
  | S n', String _ s' => str_drop n' s'
  | _, "" => ""
  end.

(** [s.find(c)]: the parts before and after the first [c]. *)
Fixpoint str_split_at (c : ascii) (s : string) : option (string * string) :=
  match s with
  | "" => None
  | String a s' =>
      if Ascii.eqb a c then Some ("", s')
      else match str_split_at c s' with
           | Some (l, r) => Some (String a l, r)
           | None => None
           end
  end.

Fixpoint str_contains (c : ascii) (s : string) : bool :=
  match s with
  | "" => false
  | String a s' => Ascii.eqb a c || str_contains c s'
  end.

(** [haystack.find(needle) != npos] *)
Fixpoint str_contains_sub (needle hay : string) : bool :=
  starts_with needle hay ||
  match hay with "" => false | String _ h => str_contains_sub needle h end.

(** Dropping the leading and the trailing characters that satisfy [p]: the
    [find_first_not_of]/[find_last_not_of]/[substr] idiom and the two
    [while]-loops over indices both compute this. *)
Fixpoint ltrim (p : ascii → bool) (s : string) : string :=
  match s with
  | "" => ""
  | String c s' => if p c then ltrim p s' else s
  end.

Fixpoint rtrim (p : ascii → bool) (s : string) : string :=
  match s with
  | "" => ""
  | String c s' =>
      match rtrim p s' with
      | "" => if p c then "" else String c ""
      | r => String c r
      end
  end.

Definition trim_by (p : ascii → bool) (s : string) : string := rtrim p (ltrim p s).

(** One [std::getline]: [None] when the stream is exhausted, else the line
    without its delimiter and the rest of the stream. *)
Fixpoint getline (d : ascii) (s : string) : option (string * string) :=
  match s with
  | "" => None
  | String c s' =>
      if Ascii.eqb c d then Some ("", s')
      else match getline d s' with
           | None => Some (String c "", "")
           | Some (l, r) => Some (String c l, r)
           end
  end.

(** [while (std::getline(in, line, d)) out.push_back(line)] *)
Fixpoint getlines (d : ascii) (s : string) : list string :=
  match s with
  | "" => []
  | String c s' =>
      if Ascii.eqb c d then "" :: getlines d s'
      else match getlines d s' with
           | [] => [String c ""]
           | l :: ls => String c l :: ls
           end
  end.

(** Joining with a one-character separator. *)
Fixpoint str_join (d : ascii) (ls : list string) : string :=
  match ls with
  | [] => ""
  | [l] => l
  | l :: ls' => l +:+ String d (str_join d ls')
  end.

(** ** Decimal numbers *)

(** [std::to_string] and [ostream << int]. *)
Definition to_string (z : Z) : string := NilZero.string_of_int (Z.to_int z).

(** The longest run of digits: its value and the rest. *)
Fixpoint read_digits (s : string) (acc : Z) : Z * string :=
  match s with
  | String c s' => if isdigit c then read_digits s' (acc * 10 + digit_val c) else (acc, s)
  | "" => (acc, "")
  end.

Definition starts_digit (s : string) : bool :=
  match s with String c _ => isdigit c | "" => false end.

Definition read_sign (s : string) : bool * string :=
  match s with
  | String "-" s' => (true, s')
  | String "+" s' => (false, s')
  | _ => (false, s)
  end.

(** [strtol]-style: white space, optional sign, digits.  [None] when no
    conversion is possible. *)
Definition strtol (s : string) : option (Z * string) :=
  let '(neg, s1) := read_sign (ltrim isspace s) in
  if starts_digit s1 then
    let '(n, r) := read_digits s1 0 in
    Some (if neg then - n else n, r)
  else None.

Definition stoi (s : string) : outcome (Z * string) :=
  match strtol s with
  | None => Throw (InvalidArgument "stoi")
  | Some (n, r) => if in_int n then Ok (n, r) else Throw (OutOfRange "stoi")
  end.

Definition stoll (s : string) : outcome (Z * string) :=
  match strtol s with
  | None => Throw (InvalidArgument "stoll")
  | Some (n, r) => if in_llong n then Ok (n, r) else Throw (OutOfRange "stoll")
  end.

(** [strtoull] accepts a minus sign and negates in the unsigned type. *)
Definition stoull (s : string) : outcome (Z * string) :=
  match strtol s with
  | None => Throw (InvalidArgument "stoull")
  | Some (n, r) => if Z.abs n <=? ULLONG_MAX then Ok (wrap64 n, r) else Throw (OutOfRange "stoull")
  end.

(** ** Facts about strings *)
Lemma str_app_nil_l s : "" +:+ s = s.
Proof. done. Qed.

Lemma str_app_cons c s1 s2 : String c s1 +:+ s2 = String c (s1 +:+ s2).
Proof. done. Qed.

Lemma str_app_nil_r s : s +:+ "" = s.
Proof. induction s as [|c s IH]; [done|]. by rewrite str_app_cons, IH. Qed.

Lemma str_app_assoc s1 s2 s3 : (s1 +:+ s2) +:+ s3 = s1 +:+ (s2 +:+ s3).
Proof. induction s1 as [|c s IH]; [done|]. by rewrite !str_app_cons, IH. Qed.

#[export] Hint Rewrite str_app_nil_r str_app_nil_l str_app_assoc str_app_cons : gemini.

Lemma str_forall_app p s1 s2 : str_forall p (s1 +:+ s2) = str_forall p s1 && str_forall p s2.
Proof.
  induction s1 as [|c s IH]; [done|]. rewrite str_app_cons. cbn. by rewrite IH, andb_assoc.
Qed.

Lemma str_forall_impl (p q : ascii → bool) s :
  (∀ c, p c = true → q c = true) → str_forall p s = true → str_forall q s = true.
Proof.
  intros Hpq. induction s as [|c s IH]; cbn; [done|].
  rewrite !andb_true_iff. intros [? ?]. auto.
Qed.

Lemma str_size_nonneg s : 0 ≤ str_size s.
Proof. unfold str_size. lia. Qed.

Lemma str_size_cons c s : str_size (String c s) = 1 + str_size s.
Proof. unfold str_size. cbn [String.length]. lia. Qed.

Lemma str_size_app s1 s2 : str_size (s1 +:+ s2) = str_size s1 + str_size s2.
Proof.
  induction s1 as [|c s IH]; [done|].
  rewrite str_app_cons, !str_size_cons, IH. lia.
Qed.

Lemma str_back_app s c : str_back (s +:+ String c "") = Some c.
Proof.
  induction s as [|a s IH]; [done|]. rewrite str_app_cons. cbn.
  destruct (s +:+ String c "") eqn:E; [by destruct s|done].
Qed.

Lemma ltrim_keep p c s : p c = false → ltrim p (String c s) = String c s.
Proof. intros H. cbn. by rewrite H. Qed.

Lemma rtrim_keep p s c : p c = false → rtrim p (s +:+ String c "") = s +:+ String c "".
Proof.
  intros H. induction s as [|a s IH]; [by cbn; rewrite H|].
  rewrite str_app_cons. cbn. rewrite IH. by destruct (s +:+ String c "") eqn:E; [destruct s|].
Qed.

Lemma rtrim_last p s c : str_back s = Some c → p c = false → rtrim p s = s.
Proof.
  intros Hb Hc. induction s as [|a s IH]; [done|]. cbn in *.
  destruct s as [|b s]; [simplify_eq; by rewrite Hc|]. by rewrite IH.
Qed.

Lemma rtrim_strip p s w : str_forall p w = true → rtrim p (s +:+ w) = rtrim p s.
Proof.
  intros Hw. induction s as [|a s IH]; [|rewrite str_app_cons; cbn; by rewrite IH].
  rewrite str_app_nil_l. induction w as [|c w IHw]; [done|]. cbn in Hw.
  apply andb_true_iff in Hw as [Hc Hw]. specialize (IHw Hw). cbn in IHw |- *. by rewrite IHw, Hc.
Qed.

Lemma trim_by_id p s :
  (∀ c, str_front s = Some c → p c = false) →
  (∀ c, str_back s = Some c → p c = false) → trim_by p s = s.
Proof.
  intros Hf Hb. unfold trim_by. destruct s as [|c s]; [done|].
  rewrite ltrim_keep by (by apply Hf).
  destruct (str_back (String c s)) eqn:E; [|exfalso; clear -E; revert c E; induction s; naive_solver].
  apply rtrim_last with a; auto.
Qed.

Lemma getline_app d l r :
  str_forall (λ c, negb (Ascii.eqb c d)) l = true →
  getline d (l +:+ String d r) = Some (l, r).
Proof.
  induction l as [|c l IH]; rewrite ?str_app_nil_l, ?str_app_cons; cbn.
  - intros _. by rewrite Ascii.eqb_refl.
  - intros [Hc Hl]%andb_true_iff. apply negb_true_iff in Hc. by rewrite Hc, IH.
Qed.

Lemma getlines_cons d l r :
  str_forall (λ c, negb (Ascii.eqb c d)) l = true →
  getlines d (l +:+ String d r) = l :: getlines d r.
Proof.
  induction l as [|c l IH]; rewrite ?str_app_nil_l, ?str_app_cons; cbn.
  - intros _. by rewrite Ascii.eqb_refl.
  - intros [Hc Hl]%andb_true_iff. apply negb_true_iff in Hc. by rewrite Hc, IH.
Qed.

Lemma getlines_last d l :
  str_forall (λ c, negb (Ascii.eqb c d)) l = true → l ≠ "" → getlines d l = [l].
Proof.
  induction l as [|c l IH]; cbn; [done|].
  intros [Hc Hl]%andb_true_iff _. apply negb_true_iff in Hc. rewrite Hc.
  destruct l as [|c' l']; [done|]. by rewrite IH.
Qed.

(** [getline] iterated is [getlines]. *)
Lemma getlines_getline d s :
  getlines d s = match getline d s with
                 | None => []
                 | Some (l, r) => l :: getlines d r
                 end.
Proof.
  induction s as [|c s IH]; [done|]. cbn. destruct (Ascii.eqb c d); [done|].
  rewrite IH. by destruct (getline d s) as [[l r]|].
Qed.

Lemma getline_shorter d s l r : getline d s = Some (l, r) → (String.length r < String.length s)%nat.
Proof.
  revert l r. induction s as [|c s IH]; intros l r; cbn; [done|].
  destruct (Ascii.eqb c d); [intros [= <- <-]; lia|].
  destruct (getline d s) as [[l' r']|].
  - intros [= <- <-]. specialize (IH _ _ eq_refl). lia.
  - intros [= <- <-]. cbn. lia.
Qed.

Lemma str_join_cons d l ls :
  ls ≠ [] → str_join d (l :: ls) = l +:+ String d (str_join d ls).
Proof. by destruct ls. Qed.

(** ** [to_string] and the [strtol] family are inverse *)
Lemma read_digits_acc d : ∀ p rest, starts_digit rest = false →
  read_digits (NilEmpty.string_of_uint d +:+ rest) (Zpos p) = (Zpos (Pos.of_uint_acc d p), rest).
Proof.
  assert (Hbase : ∀ acc rest, starts_digit rest = false → read_digits rest acc = (acc, rest)).
  { intros acc [|c rest] H; cbn in *; [done|]. by rewrite H. }
  induction d; intros p rest Hr; cbn [NilEmpty.string_of_uint];
    [by apply Hbase|..];
    rewrite ?str_app_cons; cbn [read_digits];
    (replace (isdigit _) with true by reflexivity); cbn [Pos.of_uint_acc];
    rewrite <- IHd by done; f_equal;
    match goal with |- _ + digit_val ?c = _ =>
      let v := eval vm_compute in (digit_val c) in replace (digit_val c) with v by reflexivity end; lia.
Qed.

Lemma read_digits_uint d : ∀ rest, starts_digit rest = false →
  read_digits (NilEmpty.string_of_uint d +:+ rest) 0 = (Z.of_N (Pos.of_uint d), rest).
Proof.
  assert (Hbase : ∀ acc rest, starts_digit rest = false → read_digits rest acc = (acc, rest)).
  { intros acc [|c rest] H; cbn in *; [done|]. by rewrite H. }
  induction d; intros rest Hr; cbn [NilEmpty.string_of_uint]; [by apply Hbase|..];
    rewrite ?str_app_cons; cbn [read_digits];
    (replace (isdigit _) with true by reflexivity); cbn [Pos.of_uint Z.of_N].
  1: by apply IHd.
  all: match goal with |- context [0 * 10 + digit_val ?c] =>
      let v := eval vm_compute in (digit_val c) in change (0 * 10 + digit_val c) with v end;
    by apply read_digits_acc.
Qed.

Lemma starts_digit_uint d rest :
  starts_digit (NilZero.string_of_uint d +:+ rest) = true.
Proof. by destruct d. Qed.

Lemma read_digits_nilzero d rest : starts_digit rest = false →
  read_digits (NilZero.string_of_uint d +:+ rest) 0 = (Z.of_N (Pos.of_uint d), rest).
Proof.
  intros Hr. destruct d; try by apply read_digits_uint.
  by apply (read_digits_uint (Decimal.D0 Decimal.Nil)).
Qed.

Lemma isspace_not_digit c : isdigit c = true → isspace c = false.
Proof.
  intros H. assert (negb (isdigit c) || negb (isspace c) = true) as Hc.
  { revert c H. intros c _.
    apply (all_chars_spec (λ c, negb (isdigit c) || negb (isspace c))). by vm_compute. }
  rewrite H in Hc. by apply negb_true_iff.
Qed.

Lemma read_sign_digit s : starts_digit s = true → read_sign s = (false, s).
Proof. destruct s as [|[[][][][][][][][]] s]; by cbn. Qed.

Lemma strtol_to_string z rest :
  starts_digit rest = false → strtol (to_string z +:+ rest) = Some (z, rest).
Proof.
  intros Hr. unfold to_string. pose proof (DecimalZ.of_to z) as Hz.
  destruct (Z.to_int z) as [d|d]; cbn in Hz |- *; unfold strtol.
  - pose proof (starts_digit_uint d rest) as Hs.
    assert (ltrim isspace (NilZero.string_of_uint d +:+ rest) =
            NilZero.string_of_uint d +:+ rest) as ->.
    { destruct (NilZero.string_of_uint d +:+ rest); [done|]. apply ltrim_keep.
      by apply isspace_not_digit. }
    rewrite read_sign_digit, Hs, read_digits_nilzero by done. by rewrite <- Hz.
  - rewrite ltrim_keep by done. cbn [read_sign].
    rewrite starts_digit_uint, read_digits_nilzero by done. rewrite <- Hz.
    unfold Z.of_uint. by rewrite Z.opp_involutive || done.
Qed.

Lemma strtol_to_string' z : strtol (to_string z) = Some (z, "").
Proof. rewrite <- (str_app_nil_r (to_string z)). by apply strtol_to_string. Qed.

Lemma stoi_to_string z : in_int z = true → stoi (to_string z) = Ok (z, "").
Proof. intros H. unfold stoi. by rewrite strtol_to_string', H. Qed.

Lemma to_string_inj z1 z2 : to_string z1 = to_string z2 → z1 = z2.
Proof.
  intros H. pose proof (strtol_to_string' z1) as H1. rewrite H, strtol_to_string' in H1. congruence.
Qed.

(** The characters of a decimal number. *)
Definition is_number_char (c : ascii) : bool := isdigit c || Ascii.eqb c "-".

Lemma to_string_chars z : str_forall is_number_char (to_string z) = true.
Proof.
  assert (Hu : ∀ d, str_forall is_number_char (NilEmpty.string_of_uint d) = true).
  { induction d; cbn; rewrite ?IHd; done. }
  assert (Hz : ∀ d, str_forall is_number_char (NilZero.string_of_uint d) = true).
  { intros d. destruct d; done || apply Hu. }
  unfold to_string. destruct (Z.to_int z) as [d|d]; [apply Hz|]. cbn [NilZero.string_of_int str_forall].
  by rewrite Hz.
Qed.

Lemma to_string_nonempty z : to_string z ≠ "".
Proof. unfold to_string. by destruct (Z.to_int z) as [[]|[]]. Qed.

(** ** Formatted extraction from a string stream

    [iss >> x]: white space is skipped first; [None] is a failed stream (no
    characters of the right kind, or an [int] out of range). *)
Definition extract_int (s : string) : option (Z * string) :=
  match strtol s with
  | Some (n, r) => if in_int n then Some (n, r) else None
  | None => None
  end.

Definition extract_char (s : string) : option (ascii * string) :=
  match ltrim isspace s with
  | String c r => Some (c, r)
  | "" => None
  end.

Fixpoint read_word (s : string) : string * string :=
  match s with
  | "" => ("", "")
  | String c s' =>
      if isspace c then ("", s) else let '(w, r) := read_word s' in (String c w, r)
  end.

Definition extract_word (s : string) : option (string * string) :=
  let '(w, r) := read_word (ltrim isspace s) in
  if str_empty w then None else Some (w, r).

(** ** The calendar of [gmtime] (proleptic Gregorian)

    [civil_from_days n]: year, month and day of the [n]th day after 1970-01-01.
    A 400-year cycle has 146097 days; within it the year, counted from March, is
    recovered from the day of the cycle. *)
Definition civil_of_cycle_day (doe : Z) : Z * Z * Z :=
  let yoe := (doe - doe / 1460 + doe / 36524 - doe / 146096) / 365 in
  let doy := doe - (365 * yoe + yoe / 4 - yoe / 100) in
  let mp := (5 * doy + 2) / 153 in
  let d := doy - (153 * mp + 2) / 5 + 1 in
  let m := if mp <? 10 then mp + 3 else mp - 9 in
  (yoe + (if m <=? 2 then 1 else 0), m, d).

Definition civil_from_days (days : Z) : Z * Z * Z :=
  let z := days + 719468 in
  let '(y, m, d) := civil_of_cycle_day (z mod 146097) in
  (y + 400 * (z / 146097), m, d).

Definition is_leap (y : Z) : bool :=
  (y mod 4 =? 0) && (negb (y mod 100 =? 0) || (y mod 400 =? 0)).

Definition days_in_month (y m : Z) : Z :=
  if (m =? 2) then (if is_leap y then 29 else 28)
  else if (m =? 4) || (m =? 6) || (m =? 9) || (m =? 11) then 30 else 31.

(** The day after. *)
Definition next_civil (ymd : Z * Z * Z) : Z * Z * Z :=
  let '(y, m, d) := ymd in
  if d <? days_in_month y m then (y, m, d + 1)
  else if m <? 12 then (y, m + 1, 1) else (y + 1, 1, 1).

(** ** The order of [std::string] *)
Definition str_leq (a b : string) : Prop := String.leb a b = true.
Definition str_lt (a b : string) : Prop := String.compare a b = Lt.
#[global] Instance str_leq_dec a b : Decision (str_leq a b) := decide (String.leb a b = true).

Lemma ascii_compare_code a b : Ascii.compare a b = Z.compare (code a) (code b).
Proof. unfold code. by rewrite N2Z.inj_compare. Qed.

Lemma str_compare_refl a : String.compare a a = Eq.
Proof.
  induction a as [|c a IH]; [done|]. cbn. by rewrite ascii_compare_code, Z.compare_refl.
Qed.

Lemma str_lt_cons c a d b :
  str_lt (String c a) (String d b) ↔ code c < code d ∨ (c = d ∧ str_lt a b).
Proof.
  unfold str_lt. cbn. rewrite ascii_compare_code.
  destruct (Z.compare_spec (code c) (code d)) as [Heq|?|?].
  - assert (c = d) as -> by (rewrite <- (chr_code c), <- (chr_code d); by rewrite Heq). naive_solver lia.
  - naive_solver.
  - split; [done|]. intros [?|[-> _]]; lia.
Qed.

Lemma str_lt_trans : Transitive str_lt.
Proof.
  intros a b. revert a. induction b as [|d b IH]; intros [|c a] [|e f]; try done.
  rewrite !str_lt_cons. intros [?|[-> H1]] [?|[-> H2]].
  1-3: left; lia. right. split; [done|]. by apply IH.
Qed.

Lemma str_leq_lt a b : str_leq a b ↔ str_lt a b ∨ a = b.
Proof.
  unfold str_leq, str_lt, String.leb. destruct (String.compare a b) eqn:E.
  - apply String.compare_eq_iff in E as ->. naive_solver.
  - naive_solver.
  - split; [done|]. intros [?| ->]; [done|]. by rewrite str_compare_refl in E.
Qed.

Lemma str_lt_irrefl a : ¬ str_lt a a.
Proof. unfold str_lt. by rewrite str_compare_refl. Qed.

#[global] Instance str_leq_trans : Transitive str_leq.
Proof.
  intros a b c. rewrite !str_leq_lt. intros [H1| ->] [H2| ->]; auto. left. by eapply str_lt_trans.
Qed.

#[global] Instance str_leq_total : Total str_leq.
Proof. intros a b. apply String.leb_total. Qed.

(** [std::unique] *)
Fixpoint unique (l : list string) : list string :=
  match l with
  | [] => []
  | x :: l' => match unique l' with
               | [] => [x]
               | y :: u => if String.eqb x y then y :: u else x :: y :: u
               end
  end.

(** [std::sort] and erasing the duplicates. *)
Definition sorted_unique (l : list string) : list string := unique (merge_sort str_leq l).

Lemma elem_of_unique x l : x ∈ unique l ↔ x ∈ l.
Proof.
  induction l as [|a l IH]; [done|]. cbn. rewrite elem_of_cons, <- IH.
  destruct (unique l) as [|y u]; [by rewrite elem_of_cons|].
  destruct (String.eqb_spec a y) as [->|]; rewrite !elem_of_cons; naive_solver.
Qed.

Lemma unique_sorted l : StronglySorted str_leq l → StronglySorted str_lt (unique l).
Proof.
  induction 1 as [|a l Hl IH Ha]; [constructor|]. cbn.
  destruct (unique l) as [|y u] eqn:E; [repeat constructor|].
  destruct (String.eqb_spec a y) as [->|Hne]; [done|]. constructor; [done|].
  inversion_clear IH as [|? ? Hu Hy].
  assert (str_lt a y) as Hay.
  { rewrite Forall_forall in Ha. assert (y ∈ l) as Hyl by (rewrite <- elem_of_unique, E; set_solver).
    apply Ha, str_leq_lt in Hyl as [?|?]; done. }
  constructor; [done|]. eapply Forall_impl; [exact Hy|]. intros z. by apply str_lt_trans.
Qed.

Lemma sorted_unique_spec l :
  StronglySorted str_lt (sorted_unique l) ∧ ∀ x, x ∈ sorted_unique l ↔ x ∈ l.
Proof.
  split; [apply unique_sorted, StronglySorted_merge_sort; apply _|].
  intros x. unfold sorted_unique. rewrite elem_of_unique. by rewrite merge_sort_Permutation.
Qed.
