(* ===== verification/Words.v ===== *)
(** * Words

    How the program cuts a line into words: at white space, with [operator>>].
    Shared by the shells, the editors and the script interpreter. *)

From Stdlib Require Import Ascii String.
From S2P Require Import Prelude CLib.
From stdpp Require Import options.
Local Open Scope Z_scope.

(** [while (iss >> word) words.push_back(word)] *)
Fixpoint words (fuel : nat) (s : string) : list string :=
  match fuel with
  | O => []
  | S fuel' => match extract_word s with Some (w, r) => w :: words fuel' r | None => [] end
  end.

Definition all_words (s : string) : list string := words (S (String.length s)) s.

Definition nonspace (c : ascii) : bool := negb (isspace c).
Definition isword (w : string) : Prop := w ≠ "" ∧ str_forall nonspace w = true.

Lemma read_word_nonspace s w r : read_word s = (w, r) → str_forall nonspace w = true.
Proof.
  revert w r. induction s as [|c s IH]; cbn; intros w r; [by intros [= <- <-]|].
  destruct (isspace c) eqn:Ec; [by intros [= <- <-]|]. destruct (read_word s) as [w' r'] eqn:E.
  intros [= <- <-]. cbn. unfold nonspace at 1. by rewrite Ec, (IH _ _ eq_refl).
Qed.

Lemma words_are_words fuel s : Forall isword (words fuel s).
Proof.
  revert s. induction fuel as [|fuel IH]; intros s; cbn; [constructor|]. unfold extract_word.
  destruct (read_word _) as [w r] eqn:E. destruct (str_empty w) eqn:Ew; constructor; [|apply IH].
  split; [by intros ->|]. by eapply read_word_nonspace.
Qed.

Lemma read_word_join w r : str_forall nonspace w = true → (r = "" ∨ starts_with " " r = true) → read_word (w +:+ r) = (w, r).
Proof.
  intros Hw Hr. induction w as [|c w IH].
  - destruct Hr as [->|Hr]; [done|]. destruct r as [|c r]; [done|]. cbn [starts_with] in Hr. apply andb_true_iff in Hr as [Hr _].
    apply Ascii.eqb_eq in Hr as <-. done.
  - rewrite str_app_cons. cbn in Hw |- *. apply andb_true_iff in Hw as [Hc Hw]. apply negb_true_iff in Hc.
    by rewrite Hc, (IH Hw).
Qed.

Lemma extract_word_join w r : isword w → (r = "" ∨ starts_with " " r = true) → extract_word (w +:+ r) = Some (w, r).
Proof.
  intros [Hne Hw] Hr. unfold extract_word.
  assert (ltrim isspace (w +:+ r) = w +:+ r) as ->.
  { destruct w as [|c w]; [done|]. cbn in Hw. apply andb_true_iff in Hw as [Hc _]. apply negb_true_iff in Hc.
    rewrite str_app_cons. by apply ltrim_keep. }
  rewrite read_word_join by done. by destruct w.
Qed.

Lemma extract_word_blank s : extract_word (String " " s) = extract_word s.
Proof. done. Qed.

Lemma words_join ws : Forall isword ws → ∀ fuel, (String.length (str_join " " ws) < fuel)%nat → words fuel (str_join " " ws) = ws.
Proof.
  induction 1 as [|w ws Hw Hws IH]; intros fuel Hf; [by destruct fuel|].
  destruct fuel as [|fuel]; [lia|]. destruct ws as [|w' ws].
  - pose proof (extract_word_join w "" Hw (or_introl eq_refl)) as E. rewrite str_app_nil_r in E. cbn. rewrite E. f_equal. by destruct fuel.
  - rewrite str_join_cons in * by done. cbn [words].
    rewrite extract_word_join by auto. f_equal.
    assert (String.length w ≠ 0%nat) by (destruct Hw as [? _]; by destruct w).
    pose proof (str_size_app w (String " " (str_join " " (w' :: ws)))) as Hl. unfold str_size in Hl. cbn [String.length] in Hl.
    destruct fuel as [|fuel]; [lia|]. transitivity (words (S fuel) (str_join " " (w' :: ws))); [|apply IH; lia]. cbn [words]. by rewrite extract_word_blank.
Qed.

Lemma all_words_of_join ws : Forall isword ws → all_words (str_join " " ws) = ws.
Proof. intros H. apply words_join; [done|lia]. Qed.

Lemma all_words_are_words s : Forall isword (all_words s).
Proof. apply words_are_words. Qed.

Lemma join_one_line ws : Forall isword ws → str_forall (λ c, negb (Ascii.eqb c NL)) (str_join " " ws) = true.
Proof.
  assert (Hc : ∀ c, nonspace c = true → negb (Ascii.eqb c NL) = true).
  { intros c. unfold nonspace. rewrite !negb_true_iff. intros H. apply Ascii.eqb_neq. by intros ->. }
  induction 1 as [|w ws [_ Hw] Hws IH]; [done|].
  assert (str_forall (λ c, negb (Ascii.eqb c NL)) w = true) by (by eapply str_forall_impl).
  destruct ws as [|w' ws]; [done|]. rewrite str_join_cons by done. rewrite str_forall_app. cbn. cbn in IH. rewrite IH. by rewrite andb_true_r.
Qed.

(** A number is a word. *)
Lemma to_string_digits n : 0 ≤ n → str_forall isdigit (to_string n) = true.
Proof.
  assert (Hu : ∀ d, str_forall isdigit (DecimalString.NilEmpty.string_of_uint d) = true) by (induction d; cbn; done).
  intros Hn. unfold to_string. destruct n as [|p|p]; [done| |lia]. cbn [Z.to_int DecimalString.NilZero.string_of_int].
  unfold DecimalString.NilZero.string_of_uint. by destruct (Pos.to_uint p).
Qed.

Lemma to_string_word n : 0 < n → isword (to_string n).
Proof.
  intros Hn. split; [apply to_string_nonempty|]. eapply str_forall_impl; [|apply (to_string_digits n); lia].
  intros c Hc. unfold nonspace. by rewrite isspace_not_digit.
Qed.
