(* ===== verification/Dbl.v ===== *)
(** * [double]

    IEEE 754 binary64, through the executable [spec_float] of the Standard
    Library: the arithmetic and comparisons the sources use, [std::strtod] and
    [std::stod] (decimal, hexadecimal, infinities and NaN, correctly rounded),
    the casts to and from integers, and stream output with a precision.  A NaN
    has no sign here, so it always prints as [nan]. *)

From Stdlib Require Import Ascii String SpecFloat.
From S2P Require Import Prelude CLib.
From stdpp Require Import options.
Local Open Scope Z_scope.

Abbreviation double := spec_float.

#[global] Instance spec_float_eq_dec : EqDecision spec_float.
Proof. solve_decision. Defined.

Definition prec64 : Z := 53.
Definition emax64 : Z := 1024.

(** ** Arithmetic and comparison *)
Definition d_add : double → double → double := SFadd prec64 emax64.
Definition d_sub : double → double → double := SFsub prec64 emax64.
Definition d_mul : double → double → double := SFmul prec64 emax64.
Definition d_div : double → double → double := SFdiv prec64 emax64.
Definition d_opp : double → double := SFopp.
Definition d_eqb : double → double → bool := SFeqb.
Definition d_ltb : double → double → bool := SFltb.
Definition d_leb : double → double → bool := SFleb.

(** [static_cast<double>(n)] *)
Definition d_of_Z (n : Z) : double := binary_normalize prec64 emax64 n 0 false.
Definition d_zero : double := S754_zero false.

Definition d_is_nan (d : double) : bool := match d with S754_nan => true | _ => false end.
Definition d_is_finite (d : double) : bool :=
  match d with S754_zero _ | S754_finite _ _ _ => true | _ => false end.

(** The integer part of a finite value, towards zero. *)
Definition d_trunc (d : double) : option Z :=
  match d with
  | S754_zero _ => Some 0
  | S754_finite s m e =>
      let a := if 0 <=? e then Z.pos m * 2 ^ e else Z.pos m / 2 ^ (- e) in
      Some (if s then - a else a)
  | _ => None
  end.

(** [d == std::floor(d)] and [std::trunc(d) == d] on a finite value. *)
Definition d_is_integral (d : double) : bool :=
  match d with
  | S754_zero _ => true
  | S754_finite s m e => (0 <=? e) || (Z.pos m mod 2 ^ (- e) =? 0)
  | _ => false
  end.

(** [static_cast<int>(d)] and [static_cast<long long>(d)]: undefined when the
    truncated value does not fit (infinities and NaN included). *)
Definition d_to_int (d : double) : outcome Z :=
  match d_trunc d with
  | Some z => if in_int z then Ok z else Undefined "double out of int range"
  | None => Undefined "double out of int range"
  end.

Definition d_to_llong (d : double) : outcome Z :=
  match d_trunc d with
  | Some z => if in_llong z then Ok z else Undefined "double out of long long range"
  | None => Undefined "double out of long long range"
  end.

(** ** Reading: [std::strtod] *)

(** Magnitude [m * 10^e10], correctly rounded, with the ERANGE flag: overflow to
    infinity, or an inexact result below the normal range.  Exponents beyond
    those of any nonzero finite [double] are clipped first. *)
Definition smallest_normal : double := S754_finite false (2 ^ 52) (-1074).

Fixpoint dec_digits (fuel : nat) (n : Z) : Z :=
  match fuel with
  | O => 0
  | S fuel' => if n =? 0 then 0 else 1 + dec_digits fuel' (n / 10)
  end.

(** Number of decimal digits of [n >= 0]. *)
Definition num_digits (n : Z) : Z := dec_digits (Z.to_nat (Z.log2 n + 2)) n.

Definition exact_value_is (d : double) (num den : Z) : bool :=
  match d with
  | S754_zero _ => num =? 0
  | S754_finite _ m e =>
      if 0 <=? e then Z.pos m * 2 ^ e * den =? num else Z.pos m * den =? num * 2 ^ (- e)
  | _ => false
  end.

Definition round_ratio (num den : Z) : double * bool :=
  match num, den with
  | Zpos n, Zpos k =>
      let d := d_div (S754_finite false n 0) (S754_finite false k 0) in
      (d, negb (d_is_finite d) ||
          (d_ltb d smallest_normal && negb (exact_value_is d num den)))
  | _, _ => (d_zero, false)
  end.

Definition round_dec (m e10 : Z) : double * bool :=
  if m =? 0 then (d_zero, false)
  else if 400 <? num_digits m + e10 then (S754_infinity false, true)
  else if num_digits m + e10 <? -400 then (d_zero, true)
  else if 0 <=? e10 then round_ratio (m * 10 ^ e10) 1
  else round_ratio m (10 ^ (- e10)).

Definition round_bin (m e2 : Z) : double * bool :=
  if m =? 0 then (d_zero, false)
  else if 1200 <? Z.log2 m + e2 then (S754_infinity false, true)
  else if Z.log2 m + e2 <? -1200 then (d_zero, true)
  else if 0 <=? e2 then round_ratio (m * 2 ^ e2) 1
  else round_ratio m (2 ^ (- e2)).

(** Digits in base 10 or 16 with at most one point: value of all digits, number
    of digits after the point, whether any digit was seen, the rest. *)
Definition hex_val (c : ascii) : option Z :=
  if isdigit c then Some (code c - 48)
  else if (97 <=? code c) && (code c <=? 102) then Some (code c - 87)
  else if (65 <=? code c) && (code c <=? 70) then Some (code c - 55)
  else None.

Definition dec_val (c : ascii) : option Z := if isdigit c then Some (code c - 48) else None.

Fixpoint read_mantissa (digit : ascii → option Z) (base : Z) (s : string)
    (acc frac : Z) (seen point : bool) : Z * Z * bool * string :=
  match s with
  | "" => (acc, frac, seen, "")
  | String c s' =>
      match digit c with
      | Some v => read_mantissa digit base s' (acc * base + v) (if point then frac + 1 else frac) true point
      | None =>
          if Ascii.eqb c "." && negb point
          then read_mantissa digit base s' acc frac seen true
          else (acc, frac, seen, s)
      end
  end.

(** An exponent part after the letter [mark]; without digits it is not consumed. *)
Definition read_exponent (mark : ascii) (s : string) : Z * string :=
  match s with
  | String c s1 =>
      if Ascii.eqb (tolower c) mark then
        let '(neg, s2) := read_sign s1 in
        if starts_digit s2 then
          let '(n, r) := read_digits s2 0 in (if neg then - n else n, r)
        else (0, s)
      else (0, s)
  | "" => (0, "")
  end.

(** Case-insensitive prefix. *)
Fixpoint strip_prefix_ic (p s : string) : option string :=
  match p, s with
  | "", _ => Some s
  | String a p', String b s' => if Ascii.eqb a (tolower b) then strip_prefix_ic p' s' else None
  | _, _ => None
  end.

(** The [(chars)] that may follow [nan]. *)
Fixpoint strip_nan_payload (s : string) : option string :=
  match s with
  | String ")" r => Some r
  | String c r => if isalpha c || isdigit c || Ascii.eqb c "_" then strip_nan_payload r else None
  | "" => None
  end.

Definition with_sign (neg : bool) (d : double) : double := if neg then d_opp d else d.

Definition strtod_decimal (neg : bool) (s : string) : option (double * bool * string) :=
  let '(m, frac, seen, r) := read_mantissa dec_val 10 s 0 0 false false in
  if seen then
    let '(e, r') := read_exponent "e" r in
    let '(d, erange) := round_dec m (e - frac) in
    Some (with_sign neg d, erange, r')
  else None.

(** After "0x": at least one hexadecimal digit, else only the "0" is a number. *)
Definition strtod_hex (neg : bool) (s : string) : option (double * bool * string) :=
  match s with
  | String "0" (String x s1) =>
      if Ascii.eqb (tolower x) "x" then
        let '(m, frac, seen, r) := read_mantissa hex_val 16 s1 0 0 false false in
        if seen then
          let '(e, r') := read_exponent "p" r in
          let '(d, erange) := round_bin m (e - 4 * frac) in
          Some (with_sign neg d, erange, r')
        else Some (with_sign neg d_zero, false, String x s1)
      else None
  | _ => None
  end.

(** [strtod]: the value, whether errno is set (ERANGE), the unread rest; [None]
    when nothing could be converted. *)
Definition strtod (s : string) : option (double * bool * string) :=
  let '(neg, s1) := read_sign (ltrim isspace s) in
  match strip_prefix_ic "infinity" s1 with
  | Some r => Some (with_sign neg (S754_infinity false), false, r)
  | None =>
  match strip_prefix_ic "inf" s1 with
  | Some r => Some (with_sign neg (S754_infinity false), false, r)
  | None =>
  match strip_prefix_ic "nan" s1 with
  | Some r =>
      match r with
      | String "(" r1 =>
          match strip_nan_payload r1 with
          | Some r2 => Some (S754_nan, false, r2)
          | None => Some (S754_nan, false, r)
          end
      | _ => Some (S754_nan, false, r)
      end
  | None =>
  match strtod_hex neg s1 with
  | Some x => Some x
  | None => strtod_decimal neg s1
  end end end end.

(** [std::stod]: throws when nothing is converted or errno is ERANGE. *)
Definition stod (s : string) : outcome (double * string) :=
  match strtod s with
  | None => Throw (InvalidArgument "stod")
  | Some (d, erange, r) => if erange then Throw (OutOfRange "stod") else Ok (d, r)
  end.

(** ** Writing: [ostream << double] with precision [P] (the %g format) *)

Fixpoint zeros (n : nat) : string :=
  match n with O => "" | S n' => String "0" (zeros n') end.

Definition pad_left (width : Z) (s : string) : string :=
  zeros (Z.to_nat (width - str_size s)) +:+ s.

Definition div_half_even (n d : Z) : Z :=
  let q := n / d in
  let r := n mod d in
  match Z.compare (2 * r) d with
  | Lt => q
  | Gt => q + 1
  | Eq => if Z.even q then q else q + 1
  end.

(** The decimal exponent of [num/den > 0]: the [X] with 10^X <= num/den < 10^(X+1). *)
Fixpoint find_exp10 (fuel : nat) (num den : Z) (x : Z) : Z :=
  match fuel with
  | O => x
  | S fuel' => if num <? den then find_exp10 fuel' (num * 10) den (x - 1) else x
  end.

Definition exp10_of (num den : Z) : Z :=
  if den <=? num then num_digits (num / den) - 1 else find_exp10 400 num den 0.

(** Numerator and denominator of a finite magnitude. *)
Definition ratio_of (m : positive) (e : Z) : Z * Z :=
  if 0 <=? e then (Z.pos m * 2 ^ e, 1) else (Z.pos m, 2 ^ (- e)).

(** Drops trailing zeros of a fraction, and the point when nothing is left. *)
Definition strip_fraction (digits : string) : string :=
  let f := rtrim (λ c, Ascii.eqb c "0") digits in
  if str_empty f then "" else "." +:+ f.

Definition str_take (n : nat) (s : string) : string := String.substring 0 n s.

Definition format_g (P : Z) (d : double) : string :=
  match d with
  | S754_nan => "nan"
  | S754_infinity s => if s then "-inf" else "inf"
  | S754_zero s => if s then "-0" else "0"
  | S754_finite s m e =>
      let '(num, den) := ratio_of m e in
      let x0 := exp10_of num den in
      let sh := P - 1 - x0 in
      let q0 := if 0 <=? sh then div_half_even (num * 10 ^ sh) den
                else div_half_even num (den * 10 ^ (- sh)) in
      let '(x, q) := if q0 =? 10 ^ P then (x0 + 1, q0 / 10) else (x0, q0) in
      let digits := pad_left P (to_string q) in
      let body :=
        if (-4 <=? x) && (x <? P) then
          if 0 <=? x then
            str_take (Z.to_nat (x + 1)) digits +:+ strip_fraction (str_drop (Z.to_nat (x + 1)) digits)
          else "0" +:+ strip_fraction (zeros (Z.to_nat (- x - 1)) +:+ digits)
        else
          str_take 1 digits +:+ strip_fraction (str_drop 1 digits) +:+ "e" +:+
          (if x <? 0 then "-" else "+") +:+ pad_left 2 (to_string (Z.abs x)) in
      if s then "-" +:+ body else body
  end.
