(* ===== verification/DblFacts.v ===== *)
(** * Exactness of [double] on integers

    The program sends [int] values through [double] (comparison, range tests,
    coercion of numeric strings).  These lemmas show that nothing is lost on the
    way: a positive integer below 2^53 has the normal form with a 53-bit
    mantissa, comparison of normal forms is comparison of integers, reading a
    printed integer gives its normal form, and the integer part of the normal
    form is the integer. *)

From Stdlib Require Import Ascii String SpecFloat ZArith Lia.
From S2P Require Import Prelude CLib Dbl.
From stdpp Require Import options.
Local Open Scope Z_scope.

(** ** Mantissas and shifts *)
Lemma digits2_pos_log2 p : Zpos (digits2_pos p) = Z.log2 (Zpos p) + 1.
Proof.
  induction p as [p IH|p IH|]; cbn [digits2_pos]; [| |done].
  - rewrite Pos2Z.inj_succ, IH, Pos2Z.inj_xI, Z.log2_succ_double by lia. lia.
  - rewrite Pos2Z.inj_succ, IH, Pos2Z.inj_xO, Z.log2_double by lia. lia.
Qed.

Lemma shift_pos_mul n p : Zpos (shift_pos n p) = Zpos p * 2 ^ Zpos n.
Proof.
  rewrite shift_pos_correct, Z.mul_comm. done.
Qed.

(** The number of bits of [p], and its mantissa moved to 53 bits. *)
Definition bits (p : positive) : Z := Z.log2 (Zpos p) + 1.
Definition small (p : positive) : Prop := Zpos p < 2 ^ 53.
Definition dnorm (s : bool) (p : positive) : double :=
  S754_finite s (Z.to_pos (Zpos p * 2 ^ (53 - bits p))) (bits p - 53).

Lemma bits_pos p : 0 < bits p.
Proof. unfold bits. pose proof (Z.log2_nonneg (Zpos p)). lia. Qed.

Lemma bits_small p : small p → bits p <= 53.
Proof.
  unfold small, bits. intros H. apply Z.log2_lt_pow2 in H; lia.
Qed.

Lemma bits_bounds p : 2 ^ (bits p - 1) <= Zpos p < 2 ^ bits p.
Proof.
  unfold bits. pose proof (Z.log2_spec (Zpos p) ltac:(lia)). replace (Z.log2 (Zpos p) + 1 - 1) with (Z.log2 (Zpos p)) by lia. done.
Qed.

Lemma bits_shift p k : 0 <= k → bits (Z.to_pos (Zpos p * 2 ^ k)) = bits p + k.
Proof.
  intros Hk. unfold bits. pose proof (Z.pow_pos_nonneg 2 k).
  rewrite Z2Pos.id by nia. rewrite Z.log2_mul_pow2 by lia. lia.
Qed.

Lemma norm_mantissa p : small p →
  2 ^ 52 <= Zpos p * 2 ^ (53 - bits p) < 2 ^ 53.
Proof.
  intros H. pose proof (bits_small p H). pose proof (bits_bounds p). pose proof (bits_pos p).
  replace (2 ^ 52) with (2 ^ (bits p - 1) * 2 ^ (53 - bits p)) by (rewrite <- Z.pow_add_r by lia; f_equal; lia).
  assert (2 ^ 53 = 2 ^ bits p * 2 ^ (53 - bits p)) as -> by (rewrite <- Z.pow_add_r by lia; f_equal; lia).
  pose proof (Z.pow_pos_nonneg 2 (53 - bits p)). nia.
Qed.

(** ** Rounding an exact value *)
Lemma shr_neg r e k : k <= 0 → shr r e k = (r, e).
Proof. destruct k; [done|lia|done]. Qed.

Lemma fexp64_eq e : -1074 <= e - 53 → fexp prec64 emax64 e = e - 53.
Proof.
  intros He. change (Z.max (e - 53) (3 - 1024 - 53) = e - 53). lia.
Qed.

Lemma Zdigits2_bits p : Zdigits2 (Zpos p) = bits p.
Proof. apply digits2_pos_log2. Qed.

(** A mantissa of 53 bits with an exponent in range is left alone. *)
Lemma round_aux_exact s p e : bits p = 53 → -1074 <= e <= 971 →
  binary_round_aux prec64 emax64 s (Zpos p) e loc_Exact = S754_finite s p e.
Proof.
  intros Hb He. unfold binary_round_aux, shr_fexp. rewrite Zdigits2_bits, Hb.
  assert (fexp prec64 emax64 (53 + e) = e) as Hf.
  { rewrite fexp64_eq; lia. }
  rewrite Hf. rewrite shr_neg by lia. cbn [shr_record_of_loc loc_of_shr_record shr_m round_nearest_even].
  rewrite Zdigits2_bits, Hb, Hf, shr_neg by lia.
  cbn [shr_m shr_record_of_loc].
  assert (Z.leb e (emax64 - prec64) = true) as Hl by (apply Z.leb_le; unfold emax64, prec64; lia).
  exact (f_equal (λ b : bool, if b then S754_finite s p e else S754_infinity s) Hl).
Qed.

Lemma Zdigits2_value p k : 0 <= k → Zdigits2 (Zpos p * 2 ^ k) = bits p + k.
Proof.
  intros Hk. pose proof (Z.pow_pos_nonneg 2 k). rewrite <- bits_shift by done.
  rewrite <- Zdigits2_bits, Z2Pos.id; nia.
Qed.

Lemma shr_1_double m : 0 < m →
  shr_1 (shr_record_of_loc (m * 2) loc_Exact) = shr_record_of_loc m loc_Exact.
Proof. intros Hm. destruct m as [|p|p]; [lia| |lia]. by rewrite Z.mul_comm. Qed.

Lemma iter_pos_nat {A} (f : A → A) p x : SpecFloat.iter_pos f p x = Nat.iter (Pos.to_nat p) f x.
Proof.
  revert x. induction p as [p IH|p IH|]; intros x; cbn [SpecFloat.iter_pos]; [| |done].
  - rewrite !IH, Pos2Nat.inj_xI, Nat.iter_succ_r.
    replace (2 * Pos.to_nat p)%nat with (Pos.to_nat p + Pos.to_nat p)%nat by lia.
    by rewrite Nat.iter_add.
  - rewrite !IH, Pos2Nat.inj_xO.
    replace (2 * Pos.to_nat p)%nat with (Pos.to_nat p + Pos.to_nat p)%nat by lia.
    by rewrite Nat.iter_add.
Qed.

Lemma shr_exact m e j : 0 < m → 0 <= j →
  shr (shr_record_of_loc (m * 2 ^ j) loc_Exact) e j = (shr_record_of_loc m loc_Exact, e + j).
Proof.
  intros Hm Hj. destruct j as [|p|p]; [by rewrite Z.mul_1_r, Z.add_0_r| |lia].
  unfold shr. f_equal. rewrite iter_pos_nat, <- (positive_nat_Z p). clear Hj.
  induction (Pos.to_nat p) as [|k IH]; [by rewrite Z.mul_1_r|].
  rewrite Nat.iter_succ_r, Nat2Z.inj_succ, Z.pow_succ_r by lia.
  replace (m * (2 * 2 ^ Z.of_nat k)) with (m * 2 ^ Z.of_nat k * 2) by lia.
  pose proof (Z.pow_pos_nonneg 2 (Z.of_nat k)). rewrite shr_1_double by nia. done.
Qed.

(** Any representation of [p] by a mantissa of at least 53 bits rounds to the
    normal form of [p]. *)
Lemma round_exact_value s p k : small p → 53 - bits p <= k →
  binary_round_aux prec64 emax64 s (Zpos p * 2 ^ k) (- k) loc_Exact = dnorm s p.
Proof.
  intros H Hk. pose proof (norm_mantissa p H) as [Hm _].
  pose proof (bits_small p H). pose proof (bits_pos p).
  set (j := bits p - 53 + k). set (m := Zpos p * 2 ^ (53 - bits p)) in *.
  assert (Zpos p * 2 ^ k = m * 2 ^ j) as Hpk.
  { unfold m, j. rewrite <- Z.mul_assoc, <- Z.pow_add_r by lia. f_equal. f_equal. lia. }
  assert (0 < Zpos p * 2 ^ k) as Hpos by (pose proof (Z.pow_pos_nonneg 2 k); nia).
  assert (shr_fexp prec64 emax64 (Zpos p * 2 ^ k) (- k) loc_Exact =
          (shr_record_of_loc m loc_Exact, bits p - 53)) as Hs.
  { unfold shr_fexp. rewrite Zdigits2_value, fexp64_eq by lia.
    replace (bits p + k + - k - 53 - - k) with j by lia.
    rewrite Hpk, shr_exact by lia. f_equal. lia. }
  unfold binary_round_aux. rewrite Hs.
  cbn [shr_m shr_record_of_loc loc_of_shr_record round_nearest_even].
  assert (bits (Z.to_pos m) = 53) as Hb.
  { unfold m. rewrite bits_shift by lia. lia. }
  pose proof (round_aux_exact s (Z.to_pos m) (bits p - 53) Hb ltac:(lia)) as Hr.
  unfold binary_round_aux in Hr. rewrite Z2Pos.id in Hr by lia.
  assert (shr_fexp prec64 emax64 m (bits p - 53) loc_Exact =
          (shr_record_of_loc m loc_Exact, bits p - 53)) as Hs2.
  { unfold shr_fexp, m. rewrite Zdigits2_value, fexp64_eq by lia. by rewrite shr_neg by lia. }
  rewrite Hs2 in Hr |- *. cbn [shr_m shr_record_of_loc loc_of_shr_record round_nearest_even] in Hr.
  rewrite Hs2 in Hr. exact Hr.
Qed.

Lemma shl_align_small p : small p →
  shl_align p 0 (fexp prec64 emax64 (Zpos (digits2_pos p) + 0)) =
  (Z.to_pos (Zpos p * 2 ^ (53 - bits p)), bits p - 53).
Proof.
  intros H. pose proof (bits_small p H). pose proof (bits_pos p).
  rewrite digits2_pos_log2. fold (bits p). rewrite fexp64_eq by lia. unfold shl_align.
  change (match bits p + 0 - 53 - 0 with
          | Zneg d => (shift_pos d p, bits p + 0 - 53)
          | _ => (p, 0) end = (Z.to_pos (Zpos p * 2 ^ (53 - bits p)), bits p - 53)).
  replace (bits p + 0 - 53 - 0) with (bits p - 53) by lia.
  replace (bits p + 0 - 53) with (bits p - 53) by lia.
  destruct (bits p - 53) as [|d|d] eqn:E; [|lia|].
  - replace (53 - bits p) with 0 by lia. by rewrite Z.mul_1_r.
  - f_equal. replace (53 - bits p) with (Zpos d) by lia. by rewrite <- shift_pos_mul.
Qed.

Lemma binary_round_small s p : small p → binary_round prec64 emax64 s p 0 = dnorm s p.
Proof.
  intros H. unfold binary_round.
  change (Z.add (Zpos (digits2_pos p)) 0) with (Zpos (digits2_pos p) + 0).
  rewrite shl_align_small by done. pose proof (norm_mantissa p H). pose proof (bits_small p H).
  rewrite Z2Pos.id by lia. rewrite <- (round_exact_value s p (53 - bits p)) by (done || lia).
  f_equal. lia.
Qed.

Lemma d_of_Z_pos p : small p → d_of_Z (Zpos p) = dnorm false p.
Proof. apply binary_round_small. Qed.

Lemma d_of_Z_neg p : small p → d_of_Z (Zneg p) = dnorm true p.
Proof. apply binary_round_small. Qed.

(** ** Comparison *)
Lemma norm_order p q : small p → small q →
  (match Z.compare (bits p - 53) (bits q - 53) with
   | Lt => Lt | Gt => Gt
   | Eq => Pos.compare_cont Eq (Z.to_pos (Zpos p * 2 ^ (53 - bits p)))
                               (Z.to_pos (Zpos q * 2 ^ (53 - bits q)))
   end) = Z.compare (Zpos p) (Zpos q).
Proof.
  intros Hp Hq. pose proof (bits_bounds p). pose proof (bits_bounds q).
  pose proof (bits_pos p). pose proof (bits_pos q).
  destruct (Z.compare_spec (bits p - 53) (bits q - 53)).
  - replace (bits q) with (bits p) by lia.
    change (Pos.compare_cont Eq ?a ?b) with (Z.compare (Zpos a) (Zpos b)).
    pose proof (bits_small p Hp). pose proof (Z.pow_pos_nonneg 2 (53 - bits p)).
    rewrite !Z2Pos.id by nia.
    destruct (Z.compare_spec (Zpos p) (Zpos q)) as [->|?|?];
      [apply Z.compare_refl|apply Z.compare_lt_iff; nia|apply Z.compare_gt_iff; nia].
  - symmetry. apply Z.compare_lt_iff. pose proof (Z.pow_le_mono_r 2 (bits p) (bits q - 1)). lia.
  - symmetry. apply Z.compare_gt_iff. pose proof (Z.pow_le_mono_r 2 (bits q) (bits p - 1)). lia.
Qed.

Lemma exact_range z : -2 ^ 53 < z < 2 ^ 53 →
  match z with Z0 => True | Zpos p | Zneg p => small p end.
Proof. unfold small. destruct z; lia. Qed.

Lemma SFcompare_d_of_Z a b : -2 ^ 53 < a < 2 ^ 53 → -2 ^ 53 < b < 2 ^ 53 →
  SFcompare (d_of_Z a) (d_of_Z b) = Some (Z.compare a b).
Proof.
  intros Ha%exact_range Hb%exact_range.
  destruct a as [|p|p], b as [|q|q]; rewrite ?d_of_Z_pos, ?d_of_Z_neg by done; try done.
  - exact (f_equal Some (norm_order p q Ha Hb)).
  - change (Z.compare (Zneg p) (Zneg q)) with (CompOpp (Z.compare (Zpos p) (Zpos q))).
    rewrite <- norm_order by done.
    change (Some (match Z.compare (bits p - 53) (bits q - 53) with
                  | Eq => CompOpp (Pos.compare_cont Eq (Z.to_pos (Zpos p * 2 ^ (53 - bits p)))
                                     (Z.to_pos (Zpos q * 2 ^ (53 - bits q))))
                  | Lt => Gt | Gt => Lt end) = Some (CompOpp
      (match Z.compare (bits p - 53) (bits q - 53) with
       | Eq => Pos.compare_cont Eq (Z.to_pos (Zpos p * 2 ^ (53 - bits p)))
                                   (Z.to_pos (Zpos q * 2 ^ (53 - bits q)))
       | Lt => Lt | Gt => Gt end))).
    by destruct (Z.compare (bits p - 53) (bits q - 53)).
Qed.

Lemma d_ltb_exact a b : -2 ^ 53 < a < 2 ^ 53 → -2 ^ 53 < b < 2 ^ 53 →
  d_ltb (d_of_Z a) (d_of_Z b) = (a <? b).
Proof. intros. unfold d_ltb, SFltb. rewrite SFcompare_d_of_Z by done. done. Qed.

Lemma d_leb_exact a b : -2 ^ 53 < a < 2 ^ 53 → -2 ^ 53 < b < 2 ^ 53 →
  d_leb (d_of_Z a) (d_of_Z b) = (a <=? b).
Proof. intros. unfold d_leb, SFleb. rewrite SFcompare_d_of_Z by done. done. Qed.

Lemma d_eqb_exact a b : -2 ^ 53 < a < 2 ^ 53 → -2 ^ 53 < b < 2 ^ 53 →
  d_eqb (d_of_Z a) (d_of_Z b) = (a =? b).
Proof.
  intros. unfold d_eqb, SFeqb. rewrite SFcompare_d_of_Z by done.
  rewrite Z.eqb_compare. by destruct (a ?= b).
Qed.

(** ** The integer part *)
Lemma d_trunc_norm s p : small p → d_trunc (dnorm s p) = Some (if s then Zneg p else Zpos p).
Proof.
  intros H. pose proof (norm_mantissa p H). pose proof (bits_small p H). pose proof (bits_pos p).
  unfold dnorm, d_trunc. rewrite Z2Pos.id by lia.
  pose proof (Z.pow_pos_nonneg 2 (53 - bits p)).
  destruct (Z.leb_spec 0 (bits p - 53)).
  - replace (53 - bits p) with 0 by lia. replace (bits p - 53) with 0 by lia.
    rewrite !Z.mul_1_r. by destruct s.
  - replace (- (bits p - 53)) with (53 - bits p) by lia. rewrite Z.div_mul by lia. by destruct s.
Qed.

Lemma d_trunc_of_Z z : -2 ^ 53 < z < 2 ^ 53 → d_trunc (d_of_Z z) = Some z.
Proof.
  intros Hz%exact_range. destruct z; rewrite ?d_of_Z_pos, ?d_of_Z_neg by done; [done|..];
    by rewrite d_trunc_norm.
Qed.

Lemma d_is_integral_of_Z z : -2 ^ 53 < z < 2 ^ 53 → d_is_integral (d_of_Z z) = true.
Proof.
  intros Hz%exact_range. destruct z as [|p|p]; rewrite ?d_of_Z_pos, ?d_of_Z_neg by done; [done|..];
    pose proof (norm_mantissa p Hz); pose proof (bits_small p Hz);
    unfold dnorm, d_is_integral; rewrite Z2Pos.id by lia; apply orb_true_iff; right;
    replace (- (bits p - 53)) with (53 - bits p) by lia; by rewrite Z.mod_mul by lia.
Qed.

Lemma d_to_int_of_Z z : in_int z = true → d_to_int (d_of_Z z) = Ok z.
Proof.
  intros Hz. pose proof Hz as Hr. apply in_int_spec in Hr. unfold INT_MIN, INT_MAX in Hr.
  unfold d_to_int. rewrite d_trunc_of_Z by lia. by rewrite Hz.
Qed.

(** ** Exact division *)
Lemma new_location_exact B : new_location B 0 = loc_Exact.
Proof. unfold new_location. by destruct (IntDef.Z.even B). Qed.

Lemma div_core_exact q m1 e1 m2 e2 k : 0 < m2 → 0 <= e1 - e2 + k →
  Z.min (fexp prec64 emax64 (Zdigits2 m1 + e1 - (Zdigits2 m2 + e2))) (e1 - e2) = - k →
  m1 * 2 ^ (e1 - e2 + k) = q * 2 ^ k * m2 →
  SFdiv_core_binary prec64 emax64 m1 e1 m2 e2 = (q * 2 ^ k, - k, loc_Exact).
Proof.
  intros Hm2 Hs He Hq.
  change (let e' := Z.min (fexp prec64 emax64 (Zdigits2 m1 + e1 - (Zdigits2 m2 + e2))) (e1 - e2) in
          (let '(q, r) := Z.div_eucl
             (match e1 - e2 - e' with
              | Zpos _ => Z.shiftl m1 (e1 - e2 - e') | Z0 => m1 | Zneg _ => Z0 end) m2 in
           (q, e', new_location m2 r)) = (q * 2 ^ k, - k, loc_Exact)).
  cbv zeta. rewrite He. replace (e1 - e2 - - k) with (e1 - e2 + k) by lia.
  assert (match e1 - e2 + k with
          | Zpos _ => Z.shiftl m1 (e1 - e2 + k) | Z0 => m1 | Zneg _ => Z0 end = q * 2 ^ k * m2) as ->.
  { rewrite <- Hq. destruct (e1 - e2 + k) eqn:E; [by rewrite Z.mul_1_r| |lia].
    by rewrite Z.shiftl_mul_pow2 by lia. }
  pose proof (Z_div_mod (q * 2 ^ k * m2) m2 ltac:(lia)) as Hd.
  destruct (Z.div_eucl (q * 2 ^ k * m2) m2) as [q' r]. destruct Hd as [Hd Hr].
  assert (q' = q * 2 ^ k) as ->.
  { apply (Z.div_mod_unique m2 q' (q * 2 ^ k) r 0); lia. }
  assert (r = 0) as -> by lia. by rewrite new_location_exact.
Qed.

Lemma bits_mul p q : bits p + bits q - 1 <= bits (p * q) <= bits p + bits q.
Proof.
  unfold bits. rewrite Pos2Z.inj_mul.
  pose proof (Z.log2_mul_below (Zpos p) (Zpos q)). pose proof (Z.log2_mul_above (Zpos p) (Zpos q)).
  lia.
Qed.

(** Reading the digits of [p] rounds [p/1]. *)
Lemma div_by_one s p : small p →
  d_div (S754_finite s p 0) (S754_finite false 1 0) = dnorm s p.
Proof.
  intros H. pose proof (bits_small p H). pose proof (bits_pos p).
  unfold d_div, SFdiv. rewrite (div_core_exact (Zpos p) _ _ _ _ (54 - bits p)); try lia.
  - rewrite round_exact_value by (done || lia). by destruct s.
  - rewrite !Zdigits2_bits. change (bits 1) with 1. rewrite fexp64_eq by lia. lia.
  - replace (0 - 0 + (54 - bits p)) with (54 - bits p) by lia. lia.
Qed.

(** An integer quotient is computed exactly. *)
Lemma div_multiple s1 s2 q b : small (q * b) →
  d_div (dnorm s1 (q * b)) (dnorm s2 b) = dnorm (xorb s1 s2) q.
Proof.
  intros H. assert (small q ∧ small b) as [Hq Hb]
    by (unfold small in *; rewrite Pos2Z.inj_mul in H; nia).
  pose proof (bits_small _ H). pose proof (bits_mul q b). pose proof (bits_small _ Hb).
  pose proof (bits_pos b). pose proof (bits_pos q).
  pose proof (norm_mantissa _ H). pose proof (norm_mantissa _ Hb).
  assert (∀ p, small p → Zdigits2 (Zpos p * 2 ^ (53 - bits p)) = 53) as Hd.
  { intros p Hp. pose proof (bits_small _ Hp). rewrite Zdigits2_value by lia. lia. }
  unfold dnorm at 1 2, d_div, SFdiv. rewrite !Z2Pos.id by lia.
  rewrite (div_core_exact (Zpos q) _ _ _ _ (53 + bits b - bits (q * b))); try lia.
  - by rewrite round_exact_value by (done || lia).
  - rewrite !Hd by done. rewrite fexp64_eq by lia. lia.
  - replace (bits (q * b) - 53 - (bits b - 53) + (53 + bits b - bits (q * b))) with 53 by lia.
    rewrite Pos2Z.inj_mul.
    replace (Zpos q * Zpos b * 2 ^ (53 - bits (q * b)) * 2 ^ 53)
      with (Zpos q * Zpos b * (2 ^ (53 - bits (q * b)) * 2 ^ 53)) by lia.
    replace (Zpos q * 2 ^ (53 + bits b - bits (q * b)) * (Zpos b * 2 ^ (53 - bits b)))
      with (Zpos q * Zpos b * (2 ^ (53 + bits b - bits (q * b)) * 2 ^ (53 - bits b))) by lia.
    rewrite <- !Z.pow_add_r by lia. f_equal. f_equal. lia.
Qed.

(** ** Reading printed integers *)
Lemma dec_digits_fuel f n : 0 <= dec_digits f n <= Z.of_nat f.
Proof.
  revert n. induction f as [|f IH]; intros n; cbn [dec_digits]; [lia|].
  specialize (IH (n / 10)). destruct (n =? 0); lia.
Qed.

Lemma round_dec_int p : small p → round_dec (Zpos p) 0 = (dnorm false p, false).
Proof.
  intros H. pose proof (bits_small p H) as Hb. pose proof (bits_pos p).
  unfold round_dec. cbn [Z.eqb].
  assert (0 <= num_digits (Zpos p) <= 60) as Hn.
  { unfold num_digits. pose proof (dec_digits_fuel (Z.to_nat (Z.log2 (Zpos p) + 2)) (Zpos p)).
    unfold bits in *. lia. }
  destruct (Z.ltb_spec 400 (num_digits (Zpos p) + 0)), (Z.ltb_spec (num_digits (Zpos p) + 0) (-400)); try lia.
  cbn [Z.leb Z.compare]. rewrite Z.mul_1_r. unfold round_ratio. rewrite div_by_one by done.
  assert (d_ltb (dnorm false p) smallest_normal = false) as ->; [|done].
  unfold d_ltb, SFltb, dnorm, smallest_normal, SFcompare.
  change (IntDef.Z.compare (bits p - 53) (-1074)) with (Z.compare (bits p - 53) (-1074)).
  by replace (bits p - 53 ?= -1074) with Gt by (symmetry; apply Z.compare_gt_iff; lia).
Qed.

Lemma read_mantissa_digits s acc frac seen : str_forall isdigit s = true →
  read_mantissa dec_val 10 s acc frac seen false = ((read_digits s acc).1, frac, seen || negb (str_empty s), "").
Proof.
  revert acc seen. induction s as [|c s IH]; intros acc seen; cbn -[Z.mul];
    [by destruct seen|].
  intros [Hc Hs]%andb_true_iff. unfold dec_val. rewrite Hc. rewrite IH by done.
  unfold digit_val. by rewrite orb_true_r.
Qed.

Lemma uint_digits d : str_forall isdigit (DecimalString.NilZero.string_of_uint d) = true.
Proof.
  assert (∀ d, str_forall isdigit (DecimalString.NilEmpty.string_of_uint d) = true) as Hu.
  { clear d. induction d; cbn; rewrite ?IHd; done. }
  destruct d; done || apply Hu.
Qed.

(** A character test that fails on every digit. *)
Lemma digit_not (p : ascii → bool) c :
  all_chars (λ c, negb (isdigit c) || negb (p c)) = true → isdigit c = true → p c = false.
Proof. intros H Hc. pose proof (all_chars_spec _ H c) as H'. cbn in H'. rewrite Hc in H'. by apply negb_true_iff. Qed.

Lemma strip_prefix_digit a p' c s : isdigit c = true →
  all_chars (λ c, negb (isdigit c) || negb (Ascii.eqb a (tolower c))) = true →
  strip_prefix_ic (String a p') (String c s) = None.
Proof. intros Hc Ha. cbn. by rewrite (digit_not (λ c, Ascii.eqb a (tolower c))). Qed.

Lemma strtod_hex_digits neg s : str_forall isdigit s = true → strtod_hex neg s = None.
Proof.
  destruct s as [|c [|x s]]; [done|by destruct c as [[][][][][][][][]]|]. intros H. cbn in H.
  apply andb_true_iff in H as [Hc [Hx _]%andb_true_iff].
  unfold strtod_hex. rewrite (digit_not (λ c, Ascii.eqb (tolower c) "x") x) by done.
  by destruct c as [[][][][][][][][]].
Qed.

(** [strtod] on the digits of a number, after the sign. *)
Lemma strtod_uint s0 neg s n : read_sign (ltrim isspace s0) = (neg, s) →
  str_forall isdigit s = true → s ≠ "" → read_digits s 0 = (n, "") →
  strtod s0 = let '(d, erange) := round_dec n 0 in Some (with_sign neg d, erange, "").
Proof.
  intros Hsg Hd Hne Hr. unfold strtod. rewrite Hsg.
  pose proof Hd as Hd'. destruct s as [|c s]; [done|]. cbn in Hd.
  apply andb_true_iff in Hd as [Hc Hs].
  rewrite !strip_prefix_digit, strtod_hex_digits by done.
  unfold strtod_decimal. rewrite read_mantissa_digits by done. rewrite Hr. done.
Qed.

Lemma strtod_to_string z : -2 ^ 53 < z < 2 ^ 53 → strtod (to_string z) = Some (d_of_Z z, false, "").
Proof.
  intros Hz. unfold to_string. pose proof (DecimalZ.of_to z) as Ho.
  destruct (Z.to_int z) as [d|d] eqn:Ez; cbn [Z.of_int] in Ho; cbn [DecimalString.NilZero.string_of_int];
    pose proof (uint_digits d) as Hd; pose proof (read_digits_nilzero d "" eq_refl) as Hr;
    rewrite str_app_nil_r in Hr;
    set (s := DecimalString.NilZero.string_of_uint d) in *;
    (assert (s ≠ "") as Hne by (subst s; by destruct d)); clearbody s;
    fold (Z.of_uint d) in Hr.
  - assert (ltrim isspace s = s ∧ read_sign s = (false, s)) as [Hl Hsg].
    { destruct s as [|c s]; [done|]. cbn in Hd. apply andb_true_iff in Hd as [Hc _].
      split; [apply ltrim_keep, isspace_not_digit, Hc|by apply read_sign_digit]. }
    rewrite <- Hl in Hsg at 1. rewrite (strtod_uint s false s _ Hsg Hd Hne Hr).
    unfold Z.of_uint in *. subst z. destruct (Pos.of_uint d) as [|p] eqn:E; [done|].
    change (Z.of_N (N.pos p)) with (Zpos p) in *.
    assert (small p) by (unfold small; lia).
    rewrite round_dec_int, d_of_Z_pos by done. done.
  - rewrite (strtod_uint (String "-" s) true s _ eq_refl Hd Hne Hr).
    unfold Z.of_uint in *. destruct (Pos.of_uint d) as [|p] eqn:E; [by subst z|].
    change (Z.of_N (N.pos p)) with (Zpos p) in *. cbn [Z.opp] in Ho. subst z.
    assert (small p) by (unfold small; lia).
    change (- Zpos p) with (Zneg p). rewrite round_dec_int, d_of_Z_neg by done. done.
Qed.
