(* ===== verification/DblDiv.v ===== *)
(** * Dividing integers in floating point

    The machine's DIV of two [int]s divides two doubles and casts the quotient
    to [int]. [trunc_div] shows that this is the exact truncated quotient: the
    rounded quotient of two integers below 2^32 never reaches the next integer. *)

From Stdlib Require Import SpecFloat Zquot.
From S2P Require Import Prelude CLib Dbl DblFacts.
From stdpp Require Import options.
Local Open Scope Z_scope.

Lemma near_floor_up a b n r P Q : 0 < b → 0 < P → a = b * n + r → 0 <= r < b → b * Q <= a * P < b * (Q + 1) → b < 2 * P →
  (2 * Q + 1) * b <= 2 * (a * P) → n * P <= Q + 1 < (n + 1) * P.
Proof.
  intros Hb HP Ha Hr HQ Hsmall Hup. assert (b * (n * P) <= a * P < b * ((n + 1) * P)) as HaP by (subst a; nia).
  assert (n * P <= Q) by nia. split; [lia|]. assert (Q < (n + 1) * P) by nia. destruct (Z.eq_dec (Q + 1) ((n + 1) * P)) as [E|]; [|lia]. exfalso.
  assert (2 * (P * ((n + 1) * b - a)) <= b) as Hgap.
  { replace (2 * Q + 1) with (2 * ((n + 1) * P) - 1) in Hup by lia. lia. }
  assert (1 <= (n + 1) * b - a) by lia. nia.
Qed.

(** A mantissa [M] for [a/b] with [k] fraction bits, rounded down, or up when the
    remainder is at least one half, has the integer part of [a/b]. *)
Lemma near_floor a b k M : 0 <= a → 0 < b → 0 <= k → b < 2 * 2 ^ k →
  (M = a * 2 ^ k / b ∨ M = a * 2 ^ k / b + 1 ∧ (2 * (a * 2 ^ k / b) + 1) * b <= 2 * (a * 2 ^ k)) → M / 2 ^ k = a / b.
Proof.
  intros Ha Hb Hk Hsmall HM. pose proof (Z.pow_pos_nonneg 2 k ltac:(lia) Hk) as Hp. destruct HM as [->|[-> Hup]].
  - rewrite Z.div_div by lia. apply Z.div_mul_cancel_r; lia.
  - pose proof (Z.div_mod a b ltac:(lia)) as Hdm. pose proof (Z.mod_pos_bound a b Hb) as Hr.
    pose proof (Z.mul_div_le (a * 2 ^ k) b Hb) as Hle. pose proof (Z.mul_succ_div_gt (a * 2 ^ k) b Hb) as Hgt.
    pose proof (near_floor_up a b (a / b) (a mod b) (2 ^ k) (a * 2 ^ k / b) Hb Hp Hdm Hr ltac:(lia) Hsmall Hup).
    symmetry. apply (Z.div_unique_pos _ _ _ (a * 2 ^ k / b + 1 - a / b * 2 ^ k)); lia.
Qed.

(** ** Rounding to the nearest *)

Definition finish (s : bool) (M e : Z) : double :=
  let '(mrs, e') := shr_fexp prec64 emax64 M e loc_Exact in
  match shr_m mrs with
  | Z0 => S754_zero s
  | Zpos m => if Z.leb e' (Z.sub emax64 prec64) then S754_finite s m e' else S754_infinity s
  | _ => S754_nan
  end.

Lemma round_aux_finish s m e l :
  binary_round_aux prec64 emax64 s m e l =
  let '(mrs, e') := shr_fexp prec64 emax64 m e l in finish s (round_nearest_even (shr_m mrs) (loc_of_shr_record mrs)) e'.
Proof. done. Qed.

Lemma digits_of m n : 0 < n → 2 ^ (n - 1) <= m < 2 ^ n → Zdigits2 m = n.
Proof.
  intros Hn Hm. pose proof (Z.pow_pos_nonneg 2 (n - 1)). destruct m as [|p|p]; [lia| |lia]. rewrite Zdigits2_bits. unfold bits.
  rewrite (Z.log2_unique (Zpos p) (n - 1)); [lia|lia|]. by replace (Z.succ (n - 1)) with n by lia.
Qed.

Lemma finish_trunc s M e : 2 ^ 52 <= M <= 2 ^ 53 → -1074 <= e < 0 →
  d_trunc (finish s M e) = Some (if s then - (M / 2 ^ (- e)) else M / 2 ^ (- e)).
Proof.
  intros HM He. unfold finish, shr_fexp. destruct (Z.eq_dec M (2 ^ 53)) as [->|Hne].
  - rewrite (digits_of _ 54) by lia. rewrite fexp64_eq by lia. replace (54 + e - 53 - e) with 1 by lia.
    change (shr (shr_record_of_loc (2 ^ 53) loc_Exact) e 1) with (Build_shr_record (2 ^ 52) false false, e + 1). cbn [shr_m].
    assert (Z.leb (e + 1) (emax64 - prec64) = true) as Hl by (apply Z.leb_le; unfold emax64, prec64; lia).
    change (2 ^ 52) with 4503599627370496. cbn iota. rewrite Hl. unfold d_trunc.
    assert (2 ^ 53 / 2 ^ (- e) = 4503599627370496 / 2 ^ (- (e + 1))) as ->.
    { replace (- e) with (- (e + 1) + 1) by lia. rewrite Z.pow_add_r by lia. change (2 ^ 53) with (4503599627370496 * 2 ^ 1).
      apply Z.div_mul_cancel_r; lia. }
    destruct (Z.leb_spec 0 (e + 1)); [|by destruct s]. replace (e + 1) with 0 by lia. by destruct s.
  - rewrite (digits_of _ 53) by lia. rewrite fexp64_eq by lia. rewrite shr_neg by lia. cbn [shr_m shr_record_of_loc].
    assert (Z.leb e (emax64 - prec64) = true) as Hl by (apply Z.leb_le; unfold emax64, prec64; lia).
    destruct M as [|p|p]; [lia| |lia]. rewrite Hl. unfold d_trunc. rewrite (proj2 (Z.leb_gt 0 e)) by lia. by destruct s.
Qed.

Definition rounds_up (l : location) : bool := match l with loc_Inexact Eq | loc_Inexact Gt => true | _ => false end.

Lemma nearest_cases m l : round_nearest_even m l = m ∨ round_nearest_even m l = m + 1 ∧ rounds_up l = true.
Proof. destruct l as [|[]]; cbn; auto. destruct (Z.even m); auto. Qed.

Lemma loc_of_record m l : shr_m (shr_record_of_loc m l) = m ∧ loc_of_shr_record (shr_record_of_loc m l) = l.
Proof. by destruct l as [|[]]. Qed.

(** One bit too many: it goes into the location. *)
Lemma shr_1_cases m l : 0 < m → shr_m (shr_1 (shr_record_of_loc m l)) = m / 2 ∧
  (rounds_up (loc_of_shr_record (shr_1 (shr_record_of_loc m l))) = true → m = 2 * (m / 2) + 1).
Proof.
  intros Hm. destruct m as [|[p|p|]|p]; try lia; destruct l as [|[]]; cbn -[Z.div Z.mul]; split; try done;
    try (by apply (Z.div_unique_pos (Zpos p~1) 2 (Zpos p) 1); lia); try (by apply (Z.div_unique_pos (Zpos p~0) 2 (Zpos p) 0); lia); intros _.
  all: try (rewrite <- (Z.div_unique_pos (Zpos p~1) 2 (Zpos p) 1); lia).
  all: done.
Qed.

(** A quotient [q] of 53 or 54 bits, with its remainder [r] in the location. *)
Lemma round_quotient s a b q r k : 0 <= a → 0 < b → 1 < k → k < 1000 → b < 2 ^ k → 2 ^ 52 <= q < 2 ^ 54 →
  q = a * 2 ^ k / b → ∀ l, (rounds_up l = true → (2 * q + 1) * b <= 2 * (a * 2 ^ k)) →
  r = binary_round_aux prec64 emax64 s q (- k) l → d_trunc r = Some (if s then - (a / b) else a / b).
Proof.
  intros Ha Hb Hk Hk2 Hbk Hq Hqe l Hup ->. rewrite round_aux_finish. unfold shr_fexp. pose proof (loc_of_record q l) as [Hm Hloc].
  destruct (Z.lt_ge_cases q (2 ^ 53)) as [Hlt|Hge].
  - rewrite (digits_of _ 53) by lia. rewrite fexp64_eq by lia. rewrite shr_neg by lia. rewrite Hm, Hloc.
    assert (round_nearest_even q l / 2 ^ k = a / b) as Hfl.
    { apply near_floor; [lia..|]. rewrite <- Hqe. destruct (nearest_cases q l) as [E|[E Hl]]; [by left|right; split; [done|by apply Hup]]. }
    rewrite finish_trunc, Z.opp_involutive, Hfl; [done| |lia]. destruct (nearest_cases q l) as [->|[-> _]]; lia.
  - rewrite (digits_of _ 54) by lia. rewrite fexp64_eq by lia. replace (54 + - k - 53 - - k) with 1 by lia.
    destruct (shr_1_cases q l ltac:(lia)) as [Hm1 Hup1].
    change (shr (shr_record_of_loc q l) (- k) 1) with (shr_1 (shr_record_of_loc q l), - k + 1). cbv beta iota. rewrite Hm1.
    assert (2 * 2 ^ (k - 1) = 2 ^ k) as Hpow by (rewrite <- Z.pow_succ_r by lia; f_equal; lia).
    assert (q / 2 = a * 2 ^ (k - 1) / b) as Hhalf.
    { rewrite Hqe, Z.div_div, (Z.mul_comm b 2) by lia. replace (a * 2 ^ k) with (2 * (a * 2 ^ (k - 1))) by lia. apply Z.div_mul_cancel_l; lia. }
    assert (2 ^ 52 <= q / 2 < 2 ^ 53) by (split; [apply Z.div_le_lower_bound|apply Z.div_lt_upper_bound]; lia).
    replace (- k + 1) with (- (k - 1)) by lia. set (l' := loc_of_shr_record (shr_1 _)) in *.
    assert (round_nearest_even (q / 2) l' / 2 ^ (k - 1) = a / b) as Hfl.
    { apply near_floor; [lia..|]. rewrite <- Hhalf. destruct (nearest_cases (q / 2) l') as [E|[E Hl]]; [by left|right; split; [done|]].
      rewrite <- (Hup1 Hl). pose proof (Z.mul_div_le (a * 2 ^ k) b Hb) as Hle. rewrite <- Hqe in Hle. replace (2 * (a * 2 ^ (k - 1))) with (a * 2 ^ k) by (rewrite <- Hpow; lia). lia. }
    rewrite finish_trunc, Z.opp_involutive, Hfl; [done| |lia]. destruct (nearest_cases (q / 2) l') as [->|[-> _]]; lia.
Qed.

(** The quotient of the mantissas that division computes. *)
Lemma div_core_quotient a b : let m p := Zpos p * 2 ^ (53 - bits p) in
  small a → small b → bits a - bits b <= 50 →
  let k := 53 + bits b - bits a in let r := Zpos a * 2 ^ k mod Zpos b in
  SFdiv_core_binary prec64 emax64 (m a) (bits a - 53) (m b) (bits b - 53) =
    (Zpos a * 2 ^ k / Zpos b, - k, new_location (m b) (r * 2 ^ (53 - bits b))) ∧
  2 ^ 52 <= Zpos a * 2 ^ k / Zpos b < 2 ^ 54.
Proof.
  intros m Ha Hb Hab k r. pose proof (bits_small _ Ha). pose proof (bits_small _ Hb). pose proof (bits_pos a). pose proof (bits_pos b).
  pose proof (norm_mantissa a Ha) as Hma. pose proof (norm_mantissa b Hb) as Hmb.
  assert (Zdigits2 (m a) = 53 ∧ Zdigits2 (m b) = 53) as [Hda Hdb] by (unfold m; rewrite !Zdigits2_value by lia; lia).
  pose proof (Z.pow_pos_nonneg 2 (53 - bits b) ltac:(lia) ltac:(lia)) as Hs. set (S := 2 ^ (53 - bits b)) in *.
  assert (m a * 2 ^ 53 = Zpos a * 2 ^ k * S) as Hnum.
  { unfold m, S. rewrite <- !Z.mul_assoc, <- !Z.pow_add_r by lia. do 2 f_equal. lia. }
  assert (m b = Zpos b * S) as Hden by done.
  split.
  - unfold SFdiv_core_binary. rewrite Hda, Hdb. replace (53 + (bits a - 53) - (53 + (bits b - 53))) with (bits a - bits b) by lia.
    replace (bits a - 53 - (bits b - 53)) with (bits a - bits b) by lia. rewrite fexp64_eq by lia. rewrite Z.min_l by lia.
    replace (bits a - bits b - (bits a - bits b - 53)) with 53 by lia. cbv beta iota zeta. rewrite Z.shiftl_mul_pow2, Hnum, Hden by lia.
    pose proof (Z_div_mod (Zpos a * 2 ^ k * S) (Zpos b * S) ltac:(lia)) as Hd. destruct (Z.div_eucl _ _) as [q r']. destruct Hd as [Hd Hr'].
    assert (q = Zpos a * 2 ^ k / Zpos b ∧ r' = r * S) as [-> ->].
    { pose proof (Z.div_mod (Zpos a * 2 ^ k) (Zpos b) ltac:(lia)) as Hdm. pose proof (Z.mod_pos_bound (Zpos a * 2 ^ k) (Zpos b) ltac:(lia)) as Hrb. fold r in Hdm, Hrb.
      apply (Z.div_mod_unique (Zpos b * S)); [lia|nia|]. rewrite <- Hd, Hdm at 1. lia. }
    do 2 f_equal. unfold k. lia.
  - assert (Zpos a * 2 ^ k / Zpos b = m a * 2 ^ 53 / m b) as -> by (rewrite Hnum, Hden, Z.div_mul_cancel_r; lia). fold (m a) in Hma. fold S (m b) in Hmb.
    change (Zpos b * S) with (m b) in Hmb. split; [apply Z.div_le_lower_bound|apply Z.div_lt_upper_bound]; lia.
Qed.

Lemma div_small a b s1 s2 : Zpos a < 2 ^ 32 → Zpos b < 2 ^ 32 →
  d_trunc (d_div (dnorm s1 a) (dnorm s2 b)) = Some (if xorb s1 s2 then - (Zpos a / Zpos b) else Zpos a / Zpos b).
Proof.
  intros Ha Hb. assert (∀ p, Zpos p < 2 ^ 32 → small p ∧ bits p <= 32) as Hsm.
  { intros p Hp. unfold small. split; [lia|]. unfold bits. pose proof (Z.log2_lt_pow2 (Zpos p) 32 ltac:(lia)). lia. }
  destruct (Hsm a Ha) as [Hsa Hba]. destruct (Hsm b Hb) as [Hsb Hbb]. pose proof (bits_pos a). pose proof (bits_pos b).
  pose proof (norm_mantissa a Hsa). pose proof (norm_mantissa b Hsb).
  destruct (div_core_quotient a b Hsa Hsb ltac:(lia)) as [Hcore Hq]. set (k := 53 + bits b - bits a) in *. set (r := Zpos a * 2 ^ k mod Zpos b) in *.
  unfold d_div, dnorm, SFdiv. rewrite !Z2Pos.id by lia. rewrite Hcore.
  eapply (round_quotient _ (Zpos a) (Zpos b) _ _ k); [lia..| |done|done| |done]; try (unfold k; lia).
  - pose proof (bits_bounds b). assert (2 ^ bits b <= 2 ^ k) by (apply Z.pow_le_mono_r; unfold k; lia). lia.
  - pose proof (Z.pow_pos_nonneg 2 (53 - bits b) ltac:(lia) ltac:(lia)) as HS. set (S := 2 ^ (53 - bits b)) in *.
    assert (∀ n x, rounds_up (new_location n (x * S)) = true → n = Zpos b * S → Z.even n = true → Zpos b <= 2 * x) as Hloc.
    { intros n x Hup -> He. unfold new_location, new_location_even in Hup. rewrite He in Hup. destruct (Z.eqb_spec (x * S) 0); [done|].
      cbn -[Z.mul Z.compare] in Hup. destruct (Z.compare_spec (2 * (x * S)) (Zpos b * S)); [nia|done|nia]. }
    intros Hup. assert (Zpos b <= 2 * r) as Hr.
    { apply (Hloc _ _ Hup); [done|]. unfold S. replace (53 - bits b) with (1 + (52 - bits b)) by lia. rewrite Z.pow_add_r by lia.
      rewrite Z.even_mul, Z.even_mul. cbn. by rewrite orb_true_r. }
    pose proof (Z.div_mod (Zpos a * 2 ^ k) (Zpos b) ltac:(lia)) as Hdm. fold r in Hdm. lia.
Qed.

(** C cast of the double quotient of two [int]s. *)
Lemma trunc_div x y : -2 ^ 32 < x < 2 ^ 32 → -2 ^ 32 < y < 2 ^ 32 → y ≠ 0 → d_trunc (d_div (d_of_Z x) (d_of_Z y)) = Some (Z.quot x y).
Proof.
  intros Hx Hy Hy0. destruct (Z.eq_dec x 0) as [->|Hx0].
  { destruct y as [|p|p]; [done| |]; rewrite ?d_of_Z_pos, ?d_of_Z_neg by (unfold small; lia); done. }
  assert (∀ z, z ≠ 0 → -2 ^ 32 < z < 2 ^ 32 → ∃ s p, d_of_Z z = dnorm s p ∧ Zpos p < 2 ^ 32 ∧ z = if s : bool then - Zpos p else Zpos p) as Hz.
  { intros [|p|p] H0 Hr; [done| |].
    - exists false, p. rewrite d_of_Z_pos by (unfold small; lia). split_and!; [done|lia|done].
    - exists true, p. rewrite d_of_Z_neg by (unfold small; lia). split_and!; [done|lia|done]. }
  destruct (Hz x Hx0 Hx) as (s1 & a & -> & Ha & ->). destruct (Hz y Hy0 Hy) as (s2 & b & -> & Hb & ->).
  rewrite div_small by done. f_equal. rewrite <- Z.quot_div_nonneg by lia.
  destruct s1, s2; cbn [xorb]; rewrite ?Z.quot_opp_l, ?Z.quot_opp_r by lia; lia.
Qed.
