(* ===== verification/Conv.v ===== *)
(** * Pick conversions: OCONV and ICONV

    [src/core/conversion/PickOconv.cpp] and [PickIconv.cpp]: output and input
    conversion of dates (D), times (MT, MTS), case (MCU, MCL) and scaled decimals
    (MD, MD2). *)

From Stdlib Require Import Ascii String SpecFloat.
From S2P Require Import Prelude CLib Dbl DblFacts.
From stdpp Require Import options.
Local Open Scope Z_scope.

(* src/core/conversion/PickOconv.cpp:15-15 [kPickInternalDateAtUnixEpoch] *)
Definition kPickInternalDateAtUnixEpoch : Z := 732.

(* src/core/conversion/PickOconv.cpp:17-27 [trimmed] *)
Definition trimmed (text : string) : string := trim_by isspace text.

(* src/core/conversion/PickOconv.cpp:29-36 [upperCopy] *)
Definition upperCopy (s : string) : string := str_map toupper s.

(** ** OCONV *)

(* src/core/conversion/PickOconv.cpp:38-53 [coerceStringToInt] *)
Definition coerceStringToInt (s : string) : outcome Z :=
  if str_empty s then Ok 0
  else match strtod s with
       | None => Ok 0
       | Some (n, erange, _) =>
           if erange then Ok 0
           else if d_ltb n (d_of_Z INT_MIN) || d_ltb (d_of_Z INT_MAX) n then Ok 0
           else d_to_int n
       end.

Definition month_names : list string :=
  ["Jan"; "Feb"; "Mar"; "Apr"; "May"; "Jun"; "Jul"; "Aug"; "Sep"; "Oct"; "Nov"; "Dec"].

(** [strftime] with the format [%d %b %Y]. *)
Definition strftime_dbY (ymd : Z * Z * Z) : string :=
  let '(y, m, d) := ymd in
  pad_left 2 (to_string d) +:+ " " +:+ nth (Z.to_nat (m - 1)) month_names "?" +:+ " " +:+ to_string y.

(* src/core/conversion/PickOconv.cpp:55-69 [dateStringFromPickDay] *)
Definition dateStringFromPickDay (day : Z) : string :=
  strftime_dbY (civil_from_days (day - kPickInternalDateAtUnixEpoch)).

(** [%02d] *)
Definition fmt02 (n : Z) : string := pad_left 2 (to_string n).

(* src/core/conversion/PickOconv.cpp:71-86 [timeStringFromSeconds] *)
Definition timeStringFromSeconds (n : Z) (wantSeconds : bool) : string :=
  let n1 := Z.rem n 86400 in
  let n2 := if n1 <? 0 then n1 + 86400 else n1 in
  let h := n2 ÷ 3600 in
  let m := Z.rem (n2 ÷ 60) 60 in
  let s := Z.rem n2 60 in
  if wantSeconds then fmt02 h +:+ ":" +:+ fmt02 m +:+ ":" +:+ fmt02 s
  else fmt02 h +:+ ":" +:+ fmt02 m.

(* src/core/conversion/PickOconv.cpp:88-110 [formatMdScaled] *)
Definition formatMdScaled (intVal : Z) (decimals : Z) : string :=
  if decimals =? 0 then to_string intVal
  else
    let negative := intVal <? 0 in
    let absVal := if negative then wrap64 (wrap64 (- (intVal + 1)) + 1) else wrap64 intVal in
    let divisor := wrap64 (10 ^ decimals) in
    let intPart := absVal / divisor in
    let fracPart := absVal mod divisor in
    (if negative then "-" else "") +:+ to_string intPart +:+ "." +:+
    pad_left decimals (to_string fracPart).

(** [std::toupper]/[std::tolower] on every character. *)
Definition case_map (toUpper : bool) (s : string) : string :=
  str_map (if toUpper then toupper else tolower) s.

(* src/core/conversion/PickOconv.cpp:112-141 [oconvOutputImpl] *)
Definition oconvOutputImpl (value code : string) (builtinErrors : bool) : outcome (option string) :=
  asInt ← coerceStringToInt value;
  if String.eqb code "D" then Ok (Some (dateStringFromPickDay asInt))
  else if String.eqb code "MT" || String.eqb code "MTS"
  then Ok (Some (timeStringFromSeconds asInt (String.eqb code "MTS")))
  else if String.eqb code "MCU" || String.eqb code "MCL"
  then Ok (Some (case_map (String.eqb code "MCU") value))
  else if String.eqb code "MD" || String.eqb code "MD2"
  then Ok (Some (formatMdScaled asInt (if String.eqb code "MD2" then 2 else 0)))
  else if builtinErrors
  then Throw (RuntimeError ("BUILTIN: OCONV unsupported code " +:+ String DQUOTE (code +:+ String DQUOTE "")))
  else Ok None.

(** The result and the [error] text. *)
(* src/core/conversion/PickOconv.cpp:144-155 [oconvOutput] *)
Definition oconvOutput (value codeRaw : string) : outcome (option string * string) :=
  let trimmedCode := trimmed codeRaw in
  let code := upperCopy trimmedCode in
  out ← oconvOutputImpl value code false;
  match out with
  | Some s => Ok (Some s, "")
  | None => Ok (None, "F-type: unsupported conversion code " +:+
                      String DQUOTE (trimmedCode +:+ String DQUOTE ""))
  end.

(* src/core/conversion/PickOconv.cpp:157-163 [oconvOutputBuiltin] *)
Definition oconvOutputBuiltin (value codeRaw : string) : outcome string :=
  let code := upperCopy (trimmed codeRaw) in
  out ← oconvOutputImpl value code true;
  match out with
  | Some s => Ok s
  | None => Throw (RuntimeError ("BUILTIN: OCONV unsupported code " +:+
                                 String DQUOTE (codeRaw +:+ String DQUOTE "")))
  end.

(** ** ICONV *)

(* src/core/conversion/PickIconv.cpp:34-42 [daysFromCivil] *)
Definition daysFromCivil (y m d : Z) : Z :=
  let yAdj := y - (if m <=? 2 then 1 else 0) in
  let era := (if 0 <=? yAdj then yAdj else yAdj - 399) ÷ 400 in
  let yoe := wrap32 (yAdj - era * 400) in
  let doy := (153 * wrap32 (if 2 <? m then m - 3 else m + 9) + 2) / 5 + wrap32 d - 1 in
  let doe := yoe * 365 + yoe / 4 - yoe / 100 + doy in
  era * 146097 + doe - 719468.

Definition month_heads : list string :=
  ["jan"; "feb"; "mar"; "apr"; "may"; "jun"; "jul"; "aug"; "sep"; "oct"; "nov"; "dec"].

(** The loop over [months]: the first index, from [i], whose name is [head]. *)
Fixpoint find_month (head : string) (names : list string) (i : Z) : option Z :=
  match names with
  | [] => None
  | n :: names' => if String.eqb head n then Some i else find_month head names' (i + 1)
  end.

(** [None] is [ok = false]. *)
(* src/core/conversion/PickIconv.cpp:44-82 [pickDayFromDateString] *)
Definition pickDayFromDateString (s : string) : option Z :=
  '(day, r1) ← extract_int s;
  '(monStr, r2) ← extract_word r1;
  '(year, r3) ← extract_int r2;
  match extract_word r3 with
  | Some _ => None
  | None =>
      if (day <? 1) || (31 <? day) || (year <? 1) || (9999 <? year) then None
      else
        let monLower := str_map tolower monStr in
        if 3 <=? str_size monLower then
          monthIdx ← find_month (str_take 3 monLower) month_heads 0;
          Some (daysFromCivil year (monthIdx + 1) day + kPickInternalDateAtUnixEpoch)
        else None
  end.

(* src/core/conversion/PickIconv.cpp:84-116 [secondsFromTimeString] *)
Definition secondsFromTimeString (s : string) (wantSeconds : bool) : option Z :=
  '(h, r1) ← extract_int s;
  '(c1, r2) ← extract_char r1;
  '(m, r3) ← extract_int r2;
  '(sec, r6) ←
    (if wantSeconds then
       '(c2, r4) ← extract_char r3;
       '(sec, r5) ← extract_int r4;
       if negb (Ascii.eqb c1 ":") || negb (Ascii.eqb c2 ":") then None else Some (sec, r5)
     else if negb (Ascii.eqb c1 ":") then None else Some (0, r3));
  match extract_word r6 with
  | Some _ => None
  | None =>
      if (h <? 0) || (23 <? h) || (m <? 0) || (59 <? m) || (sec <? 0) || (59 <? sec) then None
      else Some (h * 3600 + m * 60 + sec)
  end.

(** The digits before the point; [long long] arithmetic. *)
Fixpoint md_int_digits (s : string) (intPart : Z) (sawDigit : bool) : outcome (Z * bool * string) :=
  match s with
  | String c s' =>
      if isdigit c then
        i10 ← llong_of (intPart * 10);
        i ← llong_of (i10 + digit_val c);
        md_int_digits s' i true
      else Ok (intPart, sawDigit, s)
  | "" => Ok (intPart, sawDigit, "")
  end.

(** The digits after the point: at most [decimals] of them count, the next one
    decides the rounding. *)
Fixpoint md_frac_digits (decimals : Z) (s : string) (fracPart fracDigits roundDigit : Z) (sawDigit : bool)
    : Z * Z * Z * bool * string :=
  match s with
  | String c s' =>
      if isdigit c then
        if fracDigits <? decimals
        then md_frac_digits decimals s' (fracPart * 10 + digit_val c) (fracDigits + 1) roundDigit true
        else md_frac_digits decimals s' fracPart fracDigits
               (if roundDigit <? 0 then digit_val c else roundDigit) true
      else (fracPart, fracDigits, roundDigit, sawDigit, s)
  | "" => (fracPart, fracDigits, roundDigit, sawDigit, "")
  end.

(** [Ok None] is [ok = false]. *)
(* src/core/conversion/PickIconv.cpp:118-173 [parseMdScaled] *)
Definition parseMdScaled (s : string) (decimals : Z) : outcome (option Z) :=
  if str_empty s then Ok None
  else
    let '(negative, s1) := read_sign s in
    r ← md_int_digits s1 0 false;
    let '(intPart, saw1, s2) := r in
    let '(fracPart, fracDigits, roundDigit, saw2, s3) :=
      match s2 with
      | String "." s2' => md_frac_digits decimals s2' 0 0 (-1) saw1
      | _ => (0, 0, -1, saw1, s2)
      end in
    if negb (str_empty s3) || negb saw2 then Ok None
    else
      let fracPart' := fracPart * 10 ^ (decimals - fracDigits) in
      let divisor := 10 ^ decimals in
      scaled ← llong_of (intPart * divisor);
      val ← llong_of (scaled + fracPart');
      val1 ← (if 5 <=? roundDigit then llong_of (val + 1) else Ok val);
      Ok (Some (if negative then - val1 else val1)).

Definition iconv_invalid (code : string) : exn :=
  RuntimeError ("BUILTIN: ICONV invalid " +:+ String DQUOTE (code +:+ String DQUOTE " input")).

(* src/core/conversion/PickIconv.cpp:175-227 [iconvOutputImpl] *)
Definition iconvOutputImpl (value code : string) (builtinErrors : bool) : outcome (option string) :=
  let failed := if builtinErrors then Throw (iconv_invalid code) else Ok None in
  if String.eqb code "D" then
    match pickDayFromDateString value with
    | Some day => Ok (Some (to_string day))
    | None => failed
    end
  else if String.eqb code "MT" || String.eqb code "MTS" then
    match secondsFromTimeString value (String.eqb code "MTS") with
    | Some n => Ok (Some (to_string n))
    | None => failed
    end
  else if String.eqb code "MCU" || String.eqb code "MCL" then
    Ok (Some (case_map (String.eqb code "MCU") value))
  else if String.eqb code "MD" || String.eqb code "MD2" then
    n ← parseMdScaled value (if String.eqb code "MD2" then 2 else 0);
    match n with
    | Some n => if in_int n then Ok (Some (to_string n)) else failed
    | None => failed
    end
  else if builtinErrors
  then Throw (RuntimeError ("BUILTIN: ICONV unsupported code " +:+ String DQUOTE (code +:+ String DQUOTE "")))
  else Ok None.

(* src/core/conversion/PickIconv.cpp:230-245 [iconvOutput] *)
Definition iconvOutput (value codeRaw : string) : outcome (option string * string) :=
  let trimmedCode := trimmed codeRaw in
  let code := upperCopy trimmedCode in
  out ← iconvOutputImpl value code false;
  match out with
  | Some s => Ok (Some s, "")
  | None =>
      if bool_decide (code ∈ ["D"; "MT"; "MTS"; "MD"; "MD2"])
      then Ok (None, "I-type: invalid ICONV " +:+ String DQUOTE (trimmedCode +:+ String DQUOTE " input"))
      else Ok (None, "I-type: unsupported conversion code " +:+
                     String DQUOTE (trimmedCode +:+ String DQUOTE ""))
  end.

(* src/core/conversion/PickIconv.cpp:247-253 [iconvOutputBuiltin] *)
Definition iconvOutputBuiltin (value codeRaw : string) : outcome string :=
  let code := upperCopy (trimmed codeRaw) in
  out ← iconvOutputImpl value code true;
  match out with
  | Some s => Ok s
  | None => Throw (RuntimeError ("BUILTIN: ICONV unsupported code " +:+
                                 String DQUOTE (codeRaw +:+ String DQUOTE "")))
  end.

(** ** Calendar arithmetic *)

(** [daysFromCivil] without the unsigned arithmetic, for a year counted from
    March. *)
Definition days_of_march_year (yAdj mp d : Z) : Z :=
  yAdj * 365 + yAdj / 4 - yAdj / 100 + yAdj / 400 + (153 * mp + 2) / 5 + d - 719469.

Lemma daysFromCivil_march y m d : 1 <= m <= 12 → 1 <= d <= 31 →
  daysFromCivil y m d =
  days_of_march_year (y - (if m <=? 2 then 1 else 0)) (if 2 <? m then m - 3 else m + 9) d.
Proof.
  intros Hm Hd. unfold daysFromCivil, days_of_march_year, wrap32. cbv zeta.
  set (yA := y - _). assert ((if 0 <=? yA then yA else yA - 399) ÷ 400 = yA / 400) as ->.
  { destruct (Z.leb_spec 0 yA); Z.to_euclidean_division_equations; lia. }
  set (era := yA / 400). assert (0 <= yA - era * 400 < 400) as Hy.
  { unfold era. Z.to_euclidean_division_equations. lia. }
  clearbody era. rewrite !Z.mod_small by (try destruct (Z.ltb_spec 2 m); lia).
  assert (yA / 4 = era * 100 + (yA - era * 400) / 4) as -> by
    (Z.to_euclidean_division_equations; lia).
  assert (yA / 100 = era * 4 + (yA - era * 400) / 100) as -> by
    (Z.to_euclidean_division_equations; lia).
  lia.
Qed.

(** The parts of a date of the calendar. *)
Lemma civil_from_days_march n :
  ∃ yA mp d, 0 <= mp <= 11 ∧ 1 <= d <= 31 ∧ days_of_march_year yA mp d = n ∧
  civil_from_days n = (yA + (if mp <? 10 then 0 else 1), if mp <? 10 then mp + 3 else mp - 9, d).
Proof.
  unfold civil_from_days, civil_of_cycle_day. cbv zeta.
  set (z := n + 719468). set (era := z / 146097). set (doe := z mod 146097).
  assert (0 <= doe < 146097 ∧ z = 146097 * era + doe) as [Hdoe Hz].
  { unfold doe, era. Z.to_euclidean_division_equations. lia. }
  clearbody doe era.
  set (yoe := (doe - doe / 1460 + doe / 36524 - doe / 146096) / 365).
  set (doy := doe - (365 * yoe + yoe / 4 - yoe / 100)).
  assert (0 <= yoe <= 399 ∧ 0 <= doy <= 365) as [Hy Hdoy].
  { unfold doy, yoe. clear -Hdoe. Z.to_euclidean_division_equations. lia. }
  set (mp := (5 * doy + 2) / 153).
  assert (0 <= mp <= 11 ∧ 0 <= doy - (153 * mp + 2) / 5 <= 30) as [Hmp Hd].
  { unfold mp. clear -Hdoy. Z.to_euclidean_division_equations. lia. }
  exists (yoe + 400 * era), mp, (doy - (153 * mp + 2) / 5 + 1). split; [done|]. split; [lia|]. split.
  - unfold days_of_march_year.
    assert ((yoe + 400 * era) / 4 = 100 * era + yoe / 4) as -> by
      (clearbody yoe; clear; Z.to_euclidean_division_equations; lia).
    assert ((yoe + 400 * era) / 100 = 4 * era + yoe / 100) as -> by
      (clearbody yoe; clear; Z.to_euclidean_division_equations; lia).
    assert ((yoe + 400 * era) / 400 = era) as -> by
      (symmetry; apply Z.div_unique with yoe; lia).
    unfold doy in *. lia.
  - destruct (Z.ltb_spec mp 10).
    + replace (mp + 3 <=? 2) with false by (symmetry; apply Z.leb_gt; lia).
      apply pair_equal_spec; split; [apply pair_equal_spec; split|]; lia.
    + replace (mp - 9 <=? 2) with true by (symmetry; apply Z.leb_le; lia).
      apply pair_equal_spec; split; [apply pair_equal_spec; split|]; lia.
Qed.

Lemma daysFromCivil_civil n y m d : civil_from_days n = (y, m, d) →
  1 <= m <= 12 ∧ 1 <= d <= 31 ∧ daysFromCivil y m d = n.
Proof.
  intros H. destruct (civil_from_days_march n) as (yA & mp & d' & Hmp & Hd & Hn & Hc).
  rewrite H in Hc. injection Hc as -> -> ->.
  assert (1 <= (if mp <? 10 then mp + 3 else mp - 9) <= 12) as Hm by (destruct (Z.ltb_spec mp 10); lia).
  split; [done|]. split; [done|]. rewrite daysFromCivil_march by done. rewrite <- Hn.
  destruct (Z.ltb_spec mp 10).
  - replace (mp + 3 <=? 2) with false by (symmetry; apply Z.leb_gt; lia).
    replace (2 <? mp + 3) with true by (symmetry; apply Z.ltb_lt; lia). f_equal; lia.
  - replace (mp - 9 <=? 2) with true by (symmetry; apply Z.leb_le; lia).
    replace (2 <? mp - 9) with false by (symmetry; apply Z.ltb_ge; lia). f_equal; lia.
Qed.

(** [daysFromCivil] numbers the days of the Gregorian calendar: 1 January
    1970 is day 0, and the day after any date of any year has the next number,
    through month ends, leap days, centuries and years. *)
Theorem daysFromCivil_consecutive y m d :
  1 <= m <= 12 → 1 <= d <= days_in_month y m →
  daysFromCivil 1970 1 1 = 0 ∧
  let '(y', m', d') := next_civil (y, m, d) in daysFromCivil y' m' d' = daysFromCivil y m d + 1.
Proof.
  intros Hm Hd. split; [done|].
  assert (days_in_month y m <= 31) as Hd31 by (unfold days_in_month; repeat case_match; lia).
  unfold next_civil. destruct (Z.ltb_spec d (days_in_month y m)) as [Hlt|Hge].
  { rewrite !daysFromCivil_march by lia. unfold days_of_march_year. lia. }
  assert (d = days_in_month y m) as -> by lia. clear Hd Hge Hd31.
  assert (m = 2 ∨ (1 <= m <= 12 ∧ m ≠ 2)) as [->|[_ Hm2]] by lia.
  - change (2 <? 12) with true. cbn match. rewrite !daysFromCivil_march by (unfold days_in_month; repeat case_match; lia).
    unfold days_of_march_year, days_in_month, is_leap.
    change (2 =? 2) with true. change (2 <=? 2) with true. change (2 <? 2) with false.
    change (2 + 1 <=? 2) with false. change (2 <? 2 + 1) with true. cbn match.
    destruct (Z.eqb_spec (y mod 4) 0), (Z.eqb_spec (y mod 100) 0), (Z.eqb_spec (y mod 400) 0);
      cbn [negb andb orb]; Z.to_euclidean_division_equations; lia.
  - assert (days_in_month y m = if (m =? 4) || (m =? 6) || (m =? 9) || (m =? 11) then 30 else 31) as ->.
    { unfold days_in_month. by rewrite (proj2 (Z.eqb_neq m 2)). }
    assert (m = 1 ∨ m = 3 ∨ m = 4 ∨ m = 5 ∨ m = 6 ∨ m = 7 ∨ m = 8 ∨ m = 9 ∨ m = 10 ∨ m = 11 ∨ m = 12) as Hms by lia.
    clear Hm Hm2. destruct_or! Hms; subst m; cbn [Z.eqb Pos.eqb orb Z.ltb Z.compare Pos.compare Pos.compare_cont];
      rewrite !daysFromCivil_march by lia; unfold days_of_march_year.
    all: repeat match goal with
      | |- context [?a <=? ?b] => first [destruct (Z.leb_spec a b); [|lia]|destruct (Z.leb_spec a b); [lia|]]
      | |- context [?a <? ?b] => first [destruct (Z.ltb_spec a b); [|lia]|destruct (Z.ltb_spec a b); [lia|]]
      end.
    all: Z.to_euclidean_division_equations; lia.
Qed.

Lemma daysFromCivil_consecutive_witness :
  (1 <= 2 <= 12 ∧ 1 <= 29 <= days_in_month 2000 2) ∧ daysFromCivil 2000 3 1 = daysFromCivil 2000 2 29 + 1.
Proof.
  split; [by vm_compute|].
  exact (proj2 (daysFromCivil_consecutive 2000 2 29 ltac:(by vm_compute) ltac:(by vm_compute))).
Defined.

(** ** Reading back zero-padded numbers *)
Lemma read_digits_zeros k s : read_digits (zeros k +:+ s) 0 = read_digits s 0.
Proof. induction k as [|k IH]; [done|]. cbn [zeros]. rewrite str_app_cons. exact IH. Qed.

Lemma to_string_nonneg n rest : 0 <= n → starts_digit rest = false →
  read_digits (to_string n +:+ rest) 0 = (n, rest) ∧ starts_digit (to_string n +:+ rest) = true.
Proof.
  intros Hn Hr. unfold to_string. pose proof (DecimalZ.of_to n) as Ho.
  destruct (Z.to_int n) as [d|d] eqn:E; [|destruct n; cbn in E; lia || done].
  cbn [Z.of_int] in Ho. cbn [DecimalString.NilZero.string_of_int].
  rewrite read_digits_nilzero by done. fold (Z.of_uint d). rewrite Ho. split; [done|].
  apply starts_digit_uint.
Qed.

Lemma pad_left_digits w n rest : 0 <= n → starts_digit rest = false →
  read_digits (pad_left w (to_string n) +:+ rest) 0 = (n, rest) ∧
  starts_digit (pad_left w (to_string n) +:+ rest) = true.
Proof.
  intros Hn Hr. unfold pad_left. rewrite str_app_assoc, read_digits_zeros.
  destruct (to_string_nonneg n rest Hn Hr) as [H1 H2]. split; [done|].
  by destruct (Z.to_nat (w - str_size (to_string n))).
Qed.

Lemma strtol_digits s n rest :
  read_digits s 0 = (n, rest) → starts_digit s = true → strtol s = Some (n, rest).
Proof.
  intros H Hs. unfold strtol.
  assert (ltrim isspace s = s) as ->.
  { destruct s as [|c s]; [done|]. apply ltrim_keep. by apply isspace_not_digit. }
  rewrite read_sign_digit, Hs, H by done. done.
Qed.

Lemma extract_int_pad w n rest : 0 <= n → in_int n = true → starts_digit rest = false →
  extract_int (pad_left w (to_string n) +:+ rest) = Some (n, rest).
Proof.
  intros Hn Hi Hr. destruct (pad_left_digits w n rest Hn Hr) as [H1 H2].
  unfold extract_int. by rewrite (strtol_digits _ _ _ H1 H2), Hi.
Qed.

Lemma coerceStringToInt_to_string z : in_int z = true → coerceStringToInt (to_string z) = Ok z.
Proof.
  intros Hz. pose proof Hz as Hr. apply in_int_spec in Hr. unfold INT_MIN, INT_MAX in Hr.
  unfold coerceStringToInt. assert (str_empty (to_string z) = false) as ->.
  { pose proof (to_string_nonempty z). by destruct (to_string z). }
  rewrite strtod_to_string by lia. unfold INT_MIN, INT_MAX. rewrite !d_ltb_exact by lia.
  replace (z <? -2147483648) with false by (symmetry; apply Z.ltb_ge; lia).
  replace (2147483647 <? z) with false by (symmetry; apply Z.ltb_ge; lia).
  by apply d_to_int_of_Z.
Qed.

(** ** Times *)

Lemma secondsFromTimeString_time h m s : 0 <= h <= 23 → 0 <= m <= 59 → 0 <= s <= 59 →
  secondsFromTimeString (fmt02 h +:+ ":" +:+ fmt02 m +:+ ":" +:+ fmt02 s) true =
    Some (h * 3600 + m * 60 + s) ∧
  secondsFromTimeString (fmt02 h +:+ ":" +:+ fmt02 m) false = Some (h * 3600 + m * 60).
Proof.
  intros Hh Hm Hs.
  assert (∀ n, 0 <= n <= 59 → in_int n = true) as Hin
    by (intros n ?; apply in_int_spec; unfold INT_MIN, INT_MAX; lia).
  assert (∀ n, 0 <= n <= 59 → extract_int (fmt02 n) = Some (n, "")) as Hlast.
  { intros n ?. rewrite <- (str_app_nil_r (fmt02 n)). apply extract_int_pad; [lia|by apply Hin|done]. }
  assert ((h <? 0) || (23 <? h) || (m <? 0) || (59 <? m) = false) as Hhm.
  { rewrite !orb_false_iff, !Z.ltb_ge. lia. }
  assert ((s <? 0) || (59 <? s) = false) as Hss.
  { rewrite !orb_false_iff, !Z.ltb_ge. lia. }
  split; unfold secondsFromTimeString; unfold fmt02 at 1;
    rewrite extract_int_pad by (lia || (apply Hin; lia) || done); cbn [mbind option_bind].
  - change (extract_char (":" +:+ fmt02 m +:+ ":" +:+ fmt02 s)) with
      (Some (":"%char, fmt02 m +:+ ":" +:+ fmt02 s)). cbn [mbind option_bind]. unfold fmt02 at 1.
    rewrite extract_int_pad by (lia || (apply Hin; lia) || done). cbn [mbind option_bind].
    change (extract_char (":" +:+ fmt02 s)) with (Some (":"%char, fmt02 s)). cbn [mbind option_bind].
    rewrite Hlast by done. cbn. rewrite <- (orb_assoc _ (s <? 0)), Hhm, Hss. done.
  - change (extract_char (":" +:+ fmt02 m)) with (Some (":"%char, fmt02 m)). cbn [mbind option_bind].
    rewrite Hlast by lia. cbn. rewrite Hhm. cbn. f_equal. lia.
Qed.

Lemma iconv_time (s : string) (w : bool) (n : Z) : secondsFromTimeString s w = Some n →
  iconvOutput s (if w then "MTS" else "MT") = Ok (Some (to_string n), "").
Proof.
  intros H. unfold iconvOutput, iconvOutputImpl.
  destruct w; [change (upperCopy (trimmed "MTS")) with "MTS"|change (upperCopy (trimmed "MT")) with "MT"];
    cbn [String.eqb Ascii.eqb Bool.eqb orb]; by rewrite H.
Qed.

Lemma oconv_time (n : Z) (w : bool) : in_int n = true →
  oconvOutput (to_string n) (if w then "MTS" else "MT") = Ok (Some (timeStringFromSeconds n w), "").
Proof.
  intros H. unfold oconvOutput, oconvOutputImpl. rewrite coerceStringToInt_to_string by done.
  by destruct w.
Qed.

(** Times: for every [int] n, the MTS text of n reads back as n reduced to
    the seconds of one day (0..86399), and the MT text reads back as the same
    time with its seconds dropped. *)
Theorem time_roundtrip n : in_int n = true →
  let t := n mod 86400 in
  (∃ s, oconvOutput (to_string n) "MTS" = Ok (Some s, "") ∧
        iconvOutput s "MTS" = Ok (Some (to_string t), "")) ∧
  (∃ s, oconvOutput (to_string n) "MT" = Ok (Some s, "") ∧
        iconvOutput s "MT" = Ok (Some (to_string (t - t mod 60)), "")).
Proof.
  intros Hn t.
  assert ((if Z.rem n 86400 <? 0 then Z.rem n 86400 + 86400 else Z.rem n 86400) = t) as Ht.
  { unfold t. clear. destruct (Z.ltb_spec (Z.rem n 86400) 0); Z.to_euclidean_division_equations; lia. }
  assert (0 <= t < 86400) as Hb by (apply Z.mod_pos_bound; lia).
  assert (∀ w : bool, timeStringFromSeconds n w = timeStringFromSeconds t w) as Hw.
  { intros w. unfold timeStringFromSeconds. cbv zeta. rewrite Ht.
    assert ((if Z.rem t 86400 <? 0 then Z.rem t 86400 + 86400 else Z.rem t 86400) = t) as ->; [|done].
    rewrite Z.rem_small by lia. by replace (t <? 0) with false by (symmetry; apply Z.ltb_ge; lia). }
  set (h := t ÷ 3600). set (m := Z.rem (t ÷ 60) 60). set (s := Z.rem t 60).
  assert (0 <= h <= 23 ∧ 0 <= m <= 59 ∧ 0 <= s <= 59 ∧ t = h * 3600 + m * 60 + s ∧ t mod 60 = s ∧
    ∀ w : bool, timeStringFromSeconds t w = if w then fmt02 h +:+ ":" +:+ fmt02 m +:+ ":" +:+ fmt02 s
                                     else fmt02 h +:+ ":" +:+ fmt02 m) as Hall.
  { do 5 (split; [unfold h, m, s; clear -Hb; Z.to_euclidean_division_equations; lia|]).
    intros w. unfold timeStringFromSeconds. cbv zeta. rewrite Z.rem_small by lia.
    by replace (t <? 0) with false by (symmetry; apply Z.ltb_ge; lia). }
  destruct Hall as (Hh & Hm & Hs & Ht' & Htm & Hts). clearbody h m s.
  destruct (secondsFromTimeString_time h m s Hh Hm Hs) as [H1 H2].
  split; eexists.
  - split; [exact (oconv_time n true Hn)|]. rewrite Hw, Hts. cbn match.
    by rewrite (iconv_time _ true _ H1), <- Ht'.
  - split; [exact (oconv_time n false Hn)|]. rewrite Hw, Hts. cbn match.
    rewrite (iconv_time _ false _ H2), Htm. do 4 f_equal. lia.
Qed.

Lemma time_roundtrip_witness :
  in_int (-3661) = true ∧
  ∃ s, oconvOutput (to_string (-3661)) "MTS" = Ok (Some s, "") ∧
       iconvOutput s "MTS" = Ok (Some (to_string ((-3661) mod 86400)), "").
Proof. split; [reflexivity|]. exact (proj1 (time_roundtrip (-3661) eq_refl)). Defined.

(** ** Scaled decimals *)
Lemma read_digits_mono s : ∀ acc n r, 0 <= acc → read_digits s acc = (n, r) → acc <= n.
Proof.
  induction s as [|c s IH]; intros acc n r Hacc; cbn -[Z.mul]; [intros [= <- <-]; lia|].
  destruct (isdigit c) eqn:Hc; [|intros [= <- <-]; lia].
  unfold isdigit in Hc. apply andb_true_iff in Hc as [Hc _]. apply Z.leb_le in Hc.
  unfold digit_val. intros H. specialize (IH (acc * 10 + (code c - 48)) n r ltac:(lia) H). lia.
Qed.

(** The checked digit loop computes what [read_digits] computes. *)
Lemma md_int_digits_read s : ∀ acc saw n r, 0 <= acc → n <= LLONG_MAX → read_digits s acc = (n, r) →
  md_int_digits s acc saw = Ok (n, saw || starts_digit s, r).
Proof.
  induction s as [|c s IH]; intros acc saw n r Hacc Hn; cbn -[Z.mul].
  { intros [= <- <-]. by rewrite orb_false_r. }
  destruct (isdigit c) eqn:Hc; [|intros [= <- <-]; by rewrite orb_false_r].
  unfold isdigit in Hc. apply andb_true_iff in Hc as [Hc _]. apply Z.leb_le in Hc.
  unfold digit_val in *. intros H.
  pose proof (read_digits_mono s (acc * 10 + (code c - 48)) n r ltac:(lia) H) as Hm.
  unfold LLONG_MAX in *.
  do 2 (rewrite llong_of_id by (unfold LLONG_MIN, LLONG_MAX; lia); cbn [mbind outcome_bind]).
  rewrite (IH _ true n r) by (done || lia). cbn. by rewrite orb_true_r.
Qed.

(** The two digits after the point. *)
Lemma md_frac_two f : 0 <= f < 100 →
  md_frac_digits 2 (pad_left 2 (to_string f)) 0 0 (-1) true = (f, 2, -1, true, "").
Proof.
  intros Hf. rewrite <- (Z2Nat.id f) by lia. assert (Z.to_nat f ∈ seq 0 100) as Hin by (apply elem_of_seq; lia).
  generalize dependent (Z.to_nat f). intros n Hin. clear f Hf.
  assert (Forall (λ n, md_frac_digits 2 (pad_left 2 (to_string (Z.of_nat n))) 0 0 (-1) true =
                       (Z.of_nat n, 2, -1, true, "")) (seq 0 100)) as HF
    by (cbn [seq]; repeat constructor).
  rewrite Forall_forall in HF. by apply HF.
Qed.

Lemma str_front_digit s : starts_digit s = true → read_sign s = (false, s) ∧ str_empty s = false.
Proof. intros H. split; [by apply read_sign_digit|by destruct s]. Qed.

(** Parsing sign, digits and optionally a point with two digits. *)
Lemma parseMdScaled_text (neg : bool) a f : 0 <= a <= 21474837 * 100 → 0 <= f < 100 →
  parseMdScaled ((if neg then "-" else "") +:+ to_string a +:+ "." +:+ pad_left 2 (to_string f)) 2 =
    Ok (Some (if neg then - (a * 100 + f) else a * 100 + f)).
Proof.
  intros Ha Hf.
  destruct (to_string_nonneg a ("." +:+ pad_left 2 (to_string f)) ltac:(lia) eq_refl) as [Hr Hs].
  pose proof (str_front_digit _ Hs) as [Hsg He].
  set (body := to_string a +:+ "." +:+ pad_left 2 (to_string f)) in *.
  unfold parseMdScaled.
  assert (str_empty ((if neg then "-" else "") +:+ body) = false) as -> by (destruct neg; done).
  assert (read_sign ((if neg then "-" else "") +:+ body) = (neg, body)) as -> by (destruct neg; done).
  rewrite (md_int_digits_read _ 0 false a _ (Z.le_refl 0) ltac:(unfold LLONG_MAX; lia) Hr), Hs.
  cbn [mbind outcome_bind orb].
  change ("." +:+ pad_left 2 (to_string f)) with (String "." (pad_left 2 (to_string f))). cbv iota beta.
  rewrite md_frac_two by done. cbn [str_empty negb orb].
  change (10 ^ (2 - 2)) with 1. change (10 ^ 2) with 100. rewrite Z.mul_1_r.
  do 2 (rewrite llong_of_id by (unfold LLONG_MIN, LLONG_MAX; lia); cbn [mbind outcome_bind]). done.
Qed.

Lemma iconv_md (s : string) (two : bool) n : in_int n = true →
  parseMdScaled s (if two then 2 else 0) = Ok (Some n) →
  iconvOutput s (if two then "MD2" else "MD") = Ok (Some (to_string n), "").
Proof.
  intros Hi H. unfold iconvOutput, iconvOutputImpl.
  destruct two; [change (upperCopy (trimmed "MD2")) with "MD2"|change (upperCopy (trimmed "MD")) with "MD"];
    cbn [String.eqb Ascii.eqb Bool.eqb orb]; rewrite H; cbn [mbind outcome_bind]; by rewrite Hi.
Qed.

Lemma oconv_md n (two : bool) : in_int n = true →
  oconvOutput (to_string n) (if two then "MD2" else "MD") =
    Ok (Some (formatMdScaled n (if two then 2 else 0)), "").
Proof.
  intros H. unfold oconvOutput, oconvOutputImpl. rewrite coerceStringToInt_to_string by done.
  by destruct two.
Qed.

Lemma parseMdScaled_int n : in_int n = true → parseMdScaled (to_string n) 0 = Ok (Some n).
Proof.
  intros Hn%in_int_spec. unfold INT_MIN, INT_MAX in Hn. unfold parseMdScaled.
  assert (∃ s, str_empty (to_string n) = false ∧ read_sign (to_string n) = (n <? 0, s) ∧
            read_digits s 0 = (Z.abs n, "") ∧ starts_digit s = true) as (s & -> & -> & Hr & Hs).
  { pose proof (to_string_nonempty n) as Hne. destruct (Z.ltb_spec n 0).
    - exists (to_string (- n)). destruct (to_string_nonneg (- n) "" ltac:(lia) eq_refl) as [H1 H2].
      rewrite str_app_nil_r in H1, H2. replace (Z.abs n) with (- n) by lia.
      split; [by destruct (to_string n)|]. split; [|done].
      destruct n as [|p|p]; [lia|lia|]. reflexivity.
    - exists (to_string n). destruct (to_string_nonneg n "" ltac:(lia) eq_refl) as [H1 H2].
      rewrite str_app_nil_r in H1, H2. replace (Z.abs n) with n by lia.
      split; [by destruct (to_string n)|]. split; [|done]. by apply read_sign_digit. }
  rewrite (md_int_digits_read _ 0 false (Z.abs n) _ (Z.le_refl 0) ltac:(unfold LLONG_MAX; lia) Hr), Hs.
  cbn [mbind outcome_bind orb str_empty negb]. change (10 ^ (0 - 0)) with 1. change (10 ^ 0) with 1.
  change (0 * 1) with 0.
  do 2 (rewrite llong_of_id by (unfold LLONG_MIN, LLONG_MAX; lia); cbn [mbind outcome_bind]).
  cbn [mbind outcome_bind Z.leb Z.compare]. destruct (Z.ltb_spec n 0); do 2 f_equal; lia.
Qed.

(** Scaled decimals: for every [int], the text that OCONV prints with MD or
    MD2 (sign, digits, two decimals) is read back by ICONV to the same number;
    INT_MIN included. *)
Theorem md_roundtrip n : in_int n = true →
  ∀ two : bool, ∃ s,
    oconvOutput (to_string n) (if two then "MD2" else "MD") = Ok (Some s, "") ∧
    iconvOutput s (if two then "MD2" else "MD") = Ok (Some (to_string n), "").
Proof.
  intros Hn two. eexists. split; [by apply oconv_md|]. apply iconv_md; [done|].
  destruct two; [|by apply parseMdScaled_int].
  apply in_int_spec in Hn. unfold INT_MIN, INT_MAX in Hn. unfold formatMdScaled.
  change (2 =? 0) with false. cbv zeta iota. change (wrap64 (10 ^ 2)) with 100.
  assert ((if n <? 0 then wrap64 (wrap64 (- (n + 1)) + 1) else wrap64 n) = Z.abs n) as ->.
  { unfold wrap64. destruct (Z.ltb_spec n 0); rewrite !Z.mod_small; rewrite ?Z.mod_small; lia. }
  rewrite parseMdScaled_text by (Z.to_euclidean_division_equations; lia).
  do 2 f_equal. destruct (Z.ltb_spec n 0); Z.to_euclidean_division_equations; lia.
Qed.

Lemma md_roundtrip_witness : in_int (-2147483648) = true ∧
  ∃ s, oconvOutput (to_string (-2147483648)) "MD2" = Ok (Some s, "") ∧
       iconvOutput s "MD2" = Ok (Some (to_string (-2147483648)), "").
Proof. split; [reflexivity|]. exact (md_roundtrip (-2147483648) eq_refl true). Defined.

(** ** Dates *)
Lemma pickDay_text y m d n : 1 <= m <= 12 → 1 <= d <= 31 → 1 <= y <= 9999 → daysFromCivil y m d = n →
  pickDayFromDateString (strftime_dbY (y, m, d)) = Some (n + kPickInternalDateAtUnixEpoch).
Proof.
  intros Hm Hd Hy Hn. unfold strftime_dbY, pickDayFromDateString.
  assert (∀ z, 1 <= z <= 9999 → in_int z = true) as Hin
    by (intros z ?; apply in_int_spec; unfold INT_MIN, INT_MAX; lia).
  rewrite extract_int_pad by (lia || (apply Hin; lia) || done). cbn [mbind option_bind].
  assert (extract_int (" " +:+ to_string y) = Some (y, "")) as Hyear.
  { pose proof (extract_int_pad 0 y "" ltac:(lia) ltac:(by apply Hin) eq_refl) as He.
    unfold pad_left in He. pose proof (str_size_nonneg (to_string y)).
    replace (Z.to_nat (0 - str_size (to_string y))) with 0%nat in He by lia.
    rewrite str_app_nil_r in He. exact He. }
  assert (∃ w, nth (Z.to_nat (m - 1)) month_names "?" = w ∧
     extract_word (" " +:+ w +:+ " " +:+ to_string y) = Some (w, " " +:+ to_string y) ∧
     (3 <=? str_size (str_map tolower w)) = true ∧
     find_month (str_take 3 (str_map tolower w)) month_heads 0 = Some (m - 1))
    as (w & -> & -> & Hlen & Hfind).
  { assert (m = 1 ∨ m = 2 ∨ m = 3 ∨ m = 4 ∨ m = 5 ∨ m = 6 ∨ m = 7 ∨ m = 8 ∨ m = 9 ∨ m = 10 ∨ m = 11 ∨ m = 12)
      as Hms by lia. clear -Hms. destruct_or! Hms; subst m; eexists; (split; [reflexivity|]); done. }
  cbn [mbind option_bind]. rewrite Hyear. cbn [mbind option_bind].
  change (extract_word "") with (@None (string * string)). cbn match.
  assert ((d <? 1) || (31 <? d) || (y <? 1) || (9999 <? y) = false) as ->.
  { rewrite !orb_false_iff, !Z.ltb_ge. lia. }
  rewrite Hlen, Hfind. cbn [mbind option_bind]. replace (m - 1 + 1) with m by lia. by rewrite Hn.
Qed.

(** C26. Dates: for every internal day number whose calendar year is 1 to 9999,
    the text that OCONV prints with D ([dd Mon yyyy]) is read back by ICONV to
    the same day number. *)
Theorem date_roundtrip n : in_int n = true →
  let '(y, _, _) := civil_from_days (n - kPickInternalDateAtUnixEpoch) in
  1 <= y <= 9999 →
  ∃ s, oconvOutput (to_string n) "D" = Ok (Some s, "") ∧
       iconvOutput s "D" = Ok (Some (to_string n), "").
Proof.
  intros Hn. destruct (civil_from_days (n - kPickInternalDateAtUnixEpoch)) as [[y m] d] eqn:E. intros Hy.
  destruct (daysFromCivil_civil _ _ _ _ E) as (Hm & Hd & Hday).
  exists (strftime_dbY (y, m, d)). split.
  - unfold oconvOutput, oconvOutputImpl. rewrite coerceStringToInt_to_string by done.
    cbn [mbind outcome_bind]. change (upperCopy (trimmed "D")) with "D". cbn [String.eqb Ascii.eqb Bool.eqb].
    unfold dateStringFromPickDay. by rewrite E.
  - unfold iconvOutput, iconvOutputImpl. change (upperCopy (trimmed "D")) with "D".
    cbn [String.eqb Ascii.eqb Bool.eqb]. rewrite (pickDay_text _ _ _ _ Hm Hd Hy Hday).
    cbn [mbind outcome_bind]. do 4 f_equal. lia.
Qed.

Lemma date_roundtrip_witness : in_int 20000 = true ∧
  ∃ s, oconvOutput (to_string 20000) "D" = Ok (Some s, "") ∧
       iconvOutput s "D" = Ok (Some (to_string 20000), "").
Proof.
  split; [reflexivity|]. apply (date_roundtrip 20000 eq_refl). split; by vm_compute.
Defined.
