(* ===== verification/Records.v ===== *)
(** * Pick records

    [PickFS::RecordAttribute] (multi-value splitting on the value mark),
    [PickFS::StructuredRecord] (the attribute-indexed view over a record body)
    and [PickFS::Record].  A [std::map<int, RecordAttribute>] is the list of its
    entries in increasing key order. *)

From Stdlib Require Import Ascii String.
From S2P Require Import Prelude CLib.
From stdpp Require Import options.
Local Open Scope Z_scope.

(** ** [std::map<int, A>] *)
Section std_map.
Context {A : Type}.

Fixpoint map_find (k : Z) (m : list (Z * A)) : option A :=
  match m with
  | [] => None
  | (k', a) :: m' => if k =? k' then Some a else map_find k m'
  end.

(** [m[k] = a] *)
Fixpoint map_set (k : Z) (a : A) (m : list (Z * A)) : list (Z * A) :=
  match m with
  | [] => [(k, a)]
  | (k', a') :: m' =>
      if k <? k' then (k, a) :: m
      else if k =? k' then (k, a) :: m'
      else (k', a') :: map_set k a m'
  end.

(** The entries are in strictly increasing key order, above [lo]. *)
Fixpoint map_ordered (lo : Z) (m : list (Z * A)) : Prop :=
  match m with
  | [] => True
  | (k, _) :: m' => lo < k ∧ map_ordered k m'
  end.

(** The entries whose keys count up from [i]. *)
Fixpoint enumerate (i : Z) (l : list A) : list (Z * A) :=
  match l with
  | [] => []
  | a :: l' => (i, a) :: enumerate (i + 1) l'
  end.

Lemma map_find_below lo k m : map_ordered lo m → k ≤ lo → map_find k m = None.
Proof.
  revert lo. induction m as [|[k' a] m IH]; intros lo Hm Hk; [done|].
  cbn in *. destruct Hm as [Hlo Hm]. destruct (Z.eqb_spec k k'); [lia|].
  apply (IH k'); [done|lia].
Qed.

Lemma map_find_set lo k k' a m : map_ordered lo m →
  map_find k' (map_set k a m) = if k' =? k then Some a else map_find k' m.
Proof.
  revert lo. induction m as [|[j b] m IH]; intros lo Hm; cbn in *; [by destruct (k' =? k)|].
  destruct Hm as [Hlo Hm].
  destruct (Z.ltb_spec k j); cbn; [done|].
  destruct (Z.eqb_spec k j) as [->|]; cbn; [by destruct (k' =? j)|].
  rewrite (IH j Hm). destruct (Z.eqb_spec k' j), (Z.eqb_spec k' k); done || lia.
Qed.

Lemma map_set_ordered lo k a m : lo < k → map_ordered lo m → map_ordered lo (map_set k a m).
Proof.
  revert lo. induction m as [|[j b] m IH]; intros lo Hk Hm; cbn in *; [done|].
  destruct Hm as [Hlo Hm].
  destruct (Z.ltb_spec k j); cbn; [done|].
  destruct (Z.eqb_spec k j) as [->|]; cbn; [done|]. split; [done|]. apply IH; [lia|done].
Qed.

Lemma map_ordered_weaken lo lo' m : lo' ≤ lo → map_ordered lo m → map_ordered lo' m.
Proof. destruct m as [|[k a] m]; cbn; [done|]. intros ? [? ?]. split; [lia|done]. Qed.

Lemma enumerate_ordered i l : map_ordered (i - 1) (enumerate i l).
Proof.
  revert i. induction l as [|a l IH]; intros i; cbn; [done|].
  split; [lia|]. replace i with (i + 1 - 1) at 1 by lia. apply IH.
Qed.

Lemma enumerate_snd i l : (enumerate i l).*2 = l.
Proof. revert i. induction l as [|a l IH]; intros i; cbn; [done|]. by rewrite IH. Qed.

Lemma enumerate_app i l1 l2 :
  enumerate i (l1 ++ l2) = enumerate i l1 ++ enumerate (i + Z.of_nat (length l1)) l2.
Proof.
  revert i. induction l1 as [|a l IH]; intros i; cbn [app enumerate length]; [f_equal; lia|].
  rewrite IH. do 3 f_equal. lia.
Qed.

Lemma map_find_enumerate i k l : i ≤ k →
  map_find k (enumerate i l) = l !! Z.to_nat (k - i).
Proof.
  revert i. induction l as [|a l IH]; intros i Hk; cbn [enumerate map_find]; [done|].
  destruct (Z.eqb_spec k i) as [->|]; [by rewrite Z.sub_diag|].
  rewrite IH by lia. replace (Z.to_nat (k - i)) with (S (Z.to_nat (k - (i + 1)))) by lia. done.
Qed.

(** Writing inside the range replaces, writing just past it appends. *)
Lemma map_set_enumerate i k a l : i ≤ k ≤ i + Z.of_nat (length l) →
  map_set k a (enumerate i l) =
    enumerate i (if k =? i + Z.of_nat (length l) then l ++ [a] else <[Z.to_nat (k - i) := a]> l).
Proof.
  revert i. induction l as [|b l IH]; intros i Hk; cbn [enumerate map_set length] in *.
  - assert (k = i) as -> by lia. rewrite Z.add_0_r, Z.eqb_refl. done.
  - destruct (Z.ltb_spec k i); [lia|]. destruct (Z.eqb_spec k i) as [->|].
    + destruct (Z.eqb_spec i (i + Z.of_nat (S (length l)))); [lia|]. by rewrite Z.sub_diag.
    + rewrite IH by lia.
      replace (i + 1 + Z.of_nat (length l)) with (i + Z.of_nat (S (length l))) by lia.
      replace (Z.to_nat (k - i)) with (S (Z.to_nat (k - (i + 1)))) by lia.
      by destruct (k =? _).
Qed.

(** Writing further out leaves a gap. *)
Lemma map_set_beyond i k a l : i + Z.of_nat (length l) ≤ k →
  map_set k a (enumerate i l) = enumerate i l ++ [(k, a)].
Proof.
  revert i. induction l as [|b l IH]; intros i Hk; cbn [enumerate map_set length] in *; [done|].
  destruct (Z.ltb_spec k i); [lia|]. destruct (Z.eqb_spec k i); [lia|].
  rewrite IH by lia. done.
Qed.
End std_map.

(** ** [RecordAttribute] *)

(* src/core/filesystem/RecordAttribute.cpp:5-5 [kValueMark] *)
Definition kValueMark : ascii := "253"%char.

(* src/core/filesystem/RecordAttribute.h:14-36 [RecordAttribute] *)
Record RecordAttribute := mkAttr { raw : string }.

#[global] Instance RecordAttribute_eq_dec : EqDecision RecordAttribute.
Proof. solve_decision. Defined.

(* src/core/filesystem/RecordAttribute.cpp:8-17 [joinValues] *)
Definition joinValues (values : list string) : string := str_join kValueMark values.

(** The loop of [splitValues]: [current] is the value being read. *)
Fixpoint splitValues_loop (current : string) (s : string) : list string :=
  match s with
  | "" => [current]
  | String c s' =>
      if Ascii.eqb c kValueMark then current :: splitValues_loop "" s'
      else splitValues_loop (current +:+ String c "") s'
  end.

(* src/core/filesystem/RecordAttribute.cpp:19-32 [RecordAttribute::splitValues] *)
Definition splitValues (a : RecordAttribute) : list string := splitValues_loop "" (raw a).

(* src/core/filesystem/RecordAttribute.cpp:34-44 [RecordAttribute::valueAt] *)
Definition valueAt (a : RecordAttribute) (valueNo : Z) : string :=
  if valueNo <=? 0 then ""
  else match splitValues a !! Z.to_nat (valueNo - 1) with
       | Some v => v
       | None => ""
       end.

(* src/core/filesystem/RecordAttribute.h:28-28 [RecordAttribute::firstValue] *)
Definition firstValue (a : RecordAttribute) : string := valueAt a 1.

(* src/core/filesystem/RecordAttribute.cpp:46-53 [RecordAttribute::hasValueAt] *)
Definition hasValueAt (a : RecordAttribute) (valueNo : Z) : bool :=
  if valueNo <=? 0 then false
  else (Z.to_nat (valueNo - 1) <? length (splitValues a))%nat.

(** ** [StructuredRecord] *)

(* src/core/filesystem/StructuredRecord.h:14-30 [StructuredRecord] *)
Definition StructuredRecord : Type := list (Z * RecordAttribute).

(* src/core/filesystem/StructuredRecord.cpp:10-12 [StructuredRecord::hasAttribute] *)
Definition hasAttribute (r : StructuredRecord) (attributeNo : Z) : bool :=
  (0 <? attributeNo) && bool_decide (is_Some (map_find attributeNo r)).

(* src/core/filesystem/StructuredRecord.cpp:14-24 [StructuredRecord::attribute] *)
Definition attribute (r : StructuredRecord) (attributeNo : Z) : RecordAttribute :=
  if attributeNo <=? 0 then mkAttr ""
  else match map_find attributeNo r with
       | Some a => a
       | None => mkAttr ""
       end.

(* src/core/filesystem/StructuredRecord.cpp:26-31 [StructuredRecord::setAttribute] *)
Definition setAttribute (r : StructuredRecord) (attributeNo : Z) (a : RecordAttribute)
    : StructuredRecord :=
  if attributeNo <=? 0 then r else map_set attributeNo a r.

(* src/core/filesystem/StructuredRecord.cpp:33-45 [StructuredRecord::toRaw] *)
Definition toRaw (r : StructuredRecord) : string := str_join NL (raw <$> r.*2).

(* src/core/filesystem/StructuredRecord.cpp:47-59 [StructuredRecord::fromRaw] *)
Definition fromRaw (s : string) : StructuredRecord :=
  let lines := getlines NL s in
  let tail := match str_back s with
              | Some c => if Ascii.eqb c NL then [""] else []
              | None => []
              end in
  enumerate 1 (mkAttr <$> (lines ++ tail)).

(** [attributes().rbegin()->first], 0 for an empty record. *)
Definition lastAttributeNo (r : StructuredRecord) : Z :=
  match last r with Some (k, _) => k | None => 0 end.

(* src/core/filesystem/Record.h:13-28 [Record] *)
Record PickRecord := mkRecord {
  name : string;
  value : string;
  structured : StructuredRecord
}.

(* src/core/filesystem/Record.cpp:4-9 [Record::Record(std::string, std::string)] *)
Definition makeRecord (n v : string) : PickRecord :=
  let s := fromRaw v in mkRecord n (toRaw s) s.

(* src/core/filesystem/Record.cpp:11-15 [Record::Record(std::string, StructuredRecord)] *)
Definition makeStructuredRecord (n : string) (s : StructuredRecord) : PickRecord :=
  mkRecord n (toRaw s) s.

(** ** Multi-values *)
Definition no_char (d : ascii) (s : string) : bool := str_forall (λ c, negb (Ascii.eqb c d)) s.

Lemma splitValues_loop_cur cur s : ∃ h t,
  splitValues_loop "" s = h :: t ∧ splitValues_loop cur s = (cur +:+ h) :: t.
Proof.
  revert cur. induction s as [|c s IH]; intros cur; cbn.
  - exists "", []. by rewrite str_app_nil_r.
  - destruct (Ascii.eqb c kValueMark).
    + exists "", (splitValues_loop "" s). by rewrite str_app_nil_r.
    + destruct (IH (String c "")) as (h & t & Hh & Hc).
      destruct (IH (cur +:+ String c "")) as (h' & t' & Hh' & Hc').
      rewrite Hh in Hh'. simplify_eq. exists (String c h'), t'. rewrite Hc, Hc'.
      by rewrite str_app_assoc.
Qed.

Lemma splitValues_loop_nonempty cur s : splitValues_loop cur s ≠ [].
Proof. destruct (splitValues_loop_cur cur s) as (h & t & _ & ->). done. Qed.

Lemma splitValues_loop_word cur w s : no_char kValueMark w = true →
  splitValues_loop cur (w +:+ s) = splitValues_loop (cur +:+ w) s.
Proof.
  revert cur. induction w as [|c w IH]; intros cur; cbn.
  - by rewrite str_app_nil_r.
  - intros [Hc Hw]%andb_true_iff. apply negb_true_iff in Hc. rewrite Hc.
    rewrite IH by done. by rewrite str_app_assoc.
Qed.

Lemma join_splitValues_loop s : joinValues (splitValues_loop "" s) = s.
Proof.
  induction s as [|c s IH]; [done|]. cbn. destruct (Ascii.eqb_spec c kValueMark) as [->|].
  - unfold joinValues in *. rewrite str_join_cons by apply splitValues_loop_nonempty.
    by rewrite IH.
  - destruct (splitValues_loop_cur (String c "") s) as (h & t & Hh & ->).
    rewrite Hh in IH. unfold joinValues in *. destruct t; cbn in *; by rewrite IH.
Qed.

Lemma split_joinValues_cur l : ∀ cur v, Forall (λ v, no_char kValueMark v = true) (v :: l) →
  splitValues_loop cur (joinValues (v :: l)) = (cur +:+ v) :: l.
Proof.
  induction l as [|w l IH]; intros cur v Hl; inversion_clear Hl as [|? ? Hv Hl'].
  - unfold joinValues. cbn [str_join].
    rewrite <- (str_app_nil_r v) at 1. by rewrite splitValues_loop_word.
  - unfold joinValues in *. rewrite str_join_cons by done.
    rewrite splitValues_loop_word by done. cbn [splitValues_loop]. rewrite Ascii.eqb_refl.
    f_equal. by apply IH.
Qed.

Lemma splitValues_joinValues l : l ≠ [] → Forall (λ v, no_char kValueMark v = true) l →
  splitValues (mkAttr (joinValues l)) = l.
Proof. destruct l as [|v l]; [done|]. intros _ Hl. by apply (split_joinValues_cur l ""). Qed.

Lemma splitValues_no_mark s : Forall (λ v, no_char kValueMark v = true) (splitValues_loop "" s).
Proof.
  induction s as [|c s IH]; [by repeat constructor|]. cbn.
  destruct (Ascii.eqb c kValueMark) eqn:E; [by constructor|].
  destruct (splitValues_loop_cur (String c "") s) as (h & t & Hh & ->).
  rewrite Hh in IH. inversion_clear IH. constructor; [|done].
  cbn. by rewrite E.
Qed.

(** ** Record bodies *)

(** The attribute texts that [fromRaw] reads. *)
Definition raw_lines (s : string) : list string :=
  getlines NL s ++ match str_back s with
                   | Some c => if Ascii.eqb c NL then [""] else []
                   | None => []
                   end.

Lemma fromRaw_lines s : fromRaw s = enumerate 1 (mkAttr <$> raw_lines s).
Proof. done. Qed.

Lemma raw_mkAttr (l : list string) : raw <$> (mkAttr <$> l) = l.
Proof. induction l as [|s l IH]; cbn; [done|]. by rewrite IH. Qed.

Lemma mkAttr_raw (l : list RecordAttribute) : mkAttr <$> (raw <$> l) = l.
Proof. induction l as [|[s] l IH]; cbn; [done|]. by rewrite IH. Qed.

Lemma toRaw_enumerate i l : toRaw (enumerate i l) = str_join NL (raw <$> l).
Proof. unfold toRaw. by rewrite enumerate_snd. Qed.

Lemma raw_lines_cons c s : s ≠ "" →
  raw_lines (String c s) =
    if Ascii.eqb c NL then "" :: raw_lines s
    else match raw_lines s with l :: ls => String c l :: ls | [] => [String c ""] end.
Proof.
  intros Hs. unfold raw_lines. cbn [getlines].
  assert (str_back (String c s) = str_back s) as -> by (destruct s; done).
  destruct (Ascii.eqb c NL); [done|].
  by destruct (getlines NL s) eqn:E; [destruct s as [|b s]; [done|cbn in E];
    destruct (Ascii.eqb b NL); [done|destruct (getlines NL s); done]|].
Qed.

Lemma raw_lines_nonempty s : s ≠ "" → raw_lines s ≠ [].
Proof.
  destruct s as [|c s]; [done|]. intros _. unfold raw_lines. cbn.
  destruct (Ascii.eqb c NL); [done|]. by destruct (getlines NL s).
Qed.

Lemma join_raw_lines s : str_join NL (raw_lines s) = s.
Proof.
  induction s as [|c s IH]; [done|].
  destruct (decide (s = "")) as [->|Hs].
  - unfold raw_lines. cbn. by destruct (Ascii.eqb_spec c NL) as [->|].
  - rewrite raw_lines_cons by done. pose proof (raw_lines_nonempty s Hs) as Hne.
    destruct (Ascii.eqb_spec c NL) as [->|].
    + rewrite str_join_cons by done. by rewrite IH.
    + destruct (raw_lines s) as [|l [|l' ls]]; [done|..]; cbn in *; by rewrite IH.
Qed.

Lemma raw_lines_no_newline s : Forall (λ l, no_char NL l = true) (raw_lines s).
Proof.
  induction s as [|c s IH]; [constructor|].
  destruct (decide (s = "")) as [->|Hs].
  - unfold raw_lines. cbn. destruct (Ascii.eqb c NL) eqn:E; repeat constructor. cbn. by rewrite E.
  - rewrite raw_lines_cons by done. destruct (Ascii.eqb c NL) eqn:E; [by constructor|].
    destruct (raw_lines s) as [|l ls]; [repeat constructor; cbn; by rewrite E|].
    inversion_clear IH. constructor; [cbn; by rewrite E|done].
Qed.

Lemma raw_lines_not_blank s : raw_lines s ≠ [""].
Proof.
  destruct (decide (s = "")) as [->|Hs]; [done|]. intros H.
  pose proof (join_raw_lines s) as Hj. rewrite H in Hj. by cbn in Hj.
Qed.

Lemma raw_lines_app_newline l s : no_char NL l = true →
  s ≠ "" → raw_lines (l +:+ String NL s) = l :: raw_lines s.
Proof.
  intros Hl Hs. unfold raw_lines. rewrite getlines_cons by done. cbn [app]. do 2 f_equal.
  assert (str_back (l +:+ String NL s) = str_back s) as ->; [|done].
  induction l as [|c l IH]; cbn; [by destruct s|].
  cbn in Hl. apply andb_true_iff in Hl as [_ Hl]. rewrite IH by done.
  by destruct (l +:+ String NL s) eqn:E; [destruct l|].
Qed.

Lemma raw_lines_join l : Forall (λ l, no_char NL l = true) l → l ≠ [""] →
  raw_lines (str_join NL l) = l.
Proof.
  induction l as [|a l IH]; intros Hl Hne; [done|]. inversion_clear Hl as [|? ? Ha Hl'].
  destruct l as [|b l].
  - cbn. unfold raw_lines. assert (a ≠ "") by (intros ->; done).
    rewrite getlines_last by done. destruct (str_back a) as [c|] eqn:Hb; [|done].
    assert (Ascii.eqb c NL = false) as ->; [|done].
    clear -Ha Hb. induction a as [|d a IH]; [done|]. cbn in *.
    apply andb_true_iff in Ha as [Hd Ha]. destruct a; [|by apply IH].
    simplify_eq. by apply negb_true_iff.
  - rewrite str_join_cons by done.
    destruct (decide (b :: l = [""])) as [Hb|Hb].
    + simplify_eq. cbn [str_join]. unfold raw_lines.
      rewrite getlines_cons by done. by rewrite str_back_app.
    + rewrite raw_lines_app_newline; [by rewrite IH|done|].
      intros He. pose proof (IH Hl' Hb) as Hr. by rewrite He in Hr.
Qed.

(** A structured record that is the image of some text: attributes numbered
    from 1 without gaps, none holding a newline, not just one empty one. *)
Definition canonical (r : StructuredRecord) : Prop := ∃ l,
  Forall (λ l, no_char NL l = true) l ∧ l ≠ [""] ∧ r = enumerate 1 (mkAttr <$> l).

Lemma fromRaw_canonical s : canonical (fromRaw s).
Proof.
  exists (raw_lines s). split_and!; [apply raw_lines_no_newline|apply raw_lines_not_blank|done].
Qed.

Lemma fromRaw_join l : Forall (λ l, no_char NL l = true) l → l ≠ [""] →
  fromRaw (str_join NL l) = enumerate 1 (mkAttr <$> l).
Proof. intros ? ?. by rewrite fromRaw_lines, raw_lines_join. Qed.

Lemma toRaw_fromRaw s : toRaw (fromRaw s) = s.
Proof. rewrite fromRaw_lines, toRaw_enumerate, raw_mkAttr. apply join_raw_lines. Qed.

#[export] Hint Rewrite toRaw_fromRaw : gemini.

Lemma attribute_enumerate k l : 1 ≤ k →
  attribute (enumerate 1 l) k = default (mkAttr "") (l !! Z.to_nat (k - 1)).
Proof.
  intros Hk. unfold attribute. destruct (Z.leb_spec k 0); [lia|].
  rewrite map_find_enumerate by done. by destruct (l !! _).
Qed.

Lemma hasAttribute_enumerate k l :
  hasAttribute (enumerate 1 l) k = bool_decide (1 ≤ k ≤ Z.of_nat (length l)).
Proof.
  unfold hasAttribute. destruct (Z.ltb_spec 0 k); cbn.
  - rewrite map_find_enumerate by lia. apply bool_decide_ext. rewrite lookup_lt_is_Some. lia.
  - rewrite bool_decide_eq_false_2; [done|lia].
Qed.

(** ** Properties *)

(** Storing a text in a [Record] and reading it back gives the same text,
    for every text: empty attributes, trailing newlines and the empty record
    included ([value_ = structured_.toRaw()] never changes the body). *)
Theorem record_text_roundtrip (n s : string) :
  toRaw (fromRaw s) = s ∧ value (makeRecord n s) = s ∧ structured (makeRecord n s) = fromRaw s.
Proof. cbn. by rewrite toRaw_fromRaw. Qed.

(** A structured record survives serialising and parsing exactly when it is
    canonical: its attributes are numbered 1..N without a gap, none contains a
    newline, and it is not one single empty attribute.  A record with a gap (as
    [setAttribute] past the end makes) does not survive. *)
Theorem structured_roundtrip_iff (r : StructuredRecord) : fromRaw (toRaw r) = r ↔ canonical r.
Proof.
  split; [intros <-; apply fromRaw_canonical|].
  intros (l & Hl & Hne & ->). by rewrite toRaw_enumerate, raw_mkAttr, fromRaw_join.
Qed.

(** Splitting an attribute on the value mark and joining are inverse: the
    split values always join to the attribute's text, and joining one or more
    values that contain no mark splits back to them; the values present are
    exactly those numbered 1..N. *)
Theorem multivalue_roundtrip (a : RecordAttribute) (l : list string) (i : Z) :
  l ≠ [] → Forall (λ v, no_char kValueMark v = true) l →
  joinValues (splitValues a) = raw a ∧
  splitValues (mkAttr (joinValues l)) = l ∧
  (hasValueAt (mkAttr (joinValues l)) i = true ↔ 1 ≤ i ≤ Z.of_nat (length l)) ∧
  valueAt (mkAttr (joinValues l)) i = default "" (if 0 <? i then l !! Z.to_nat (i - 1) else None).
Proof.
  intros Hne Hl. unfold hasValueAt, valueAt. rewrite !splitValues_joinValues by done.
  split_and!; [apply join_splitValues_loop|done|..].
  - destruct (Z.leb_spec i 0); [split; [done|lia]|]. rewrite Nat.ltb_lt. lia.
  - destruct (Z.leb_spec i 0), (Z.ltb_spec 0 i); try lia; [done|]. by destruct (l !! _).
Qed.

Lemma multivalue_roundtrip_witness :
  splitValues (mkAttr (joinValues ["a"; ""; "b"])) = ["a"; ""; "b"] ∧
  valueAt (mkAttr (joinValues ["a"; ""; "b"])) 3 = "b".
Proof.
  destruct (multivalue_roundtrip (mkAttr "x") ["a"; ""; "b"] 3) as (_ & H & _ & Hv);
    [done|repeat constructor|]. split; [apply H|apply Hv].
Defined.

(** [setAttribute] keeps the attribute map ordered by number, makes exactly
    the named attribute read back as the new one, leaves every other attribute
    as it was, and ignores attribute numbers below 1. *)
Theorem setAttribute_correct (r : StructuredRecord) (k : Z) (a : RecordAttribute) :
  map_ordered 0 r →
  map_ordered 0 (setAttribute r k a) ∧
  (∀ k', attribute (setAttribute r k a) k' =
     if (0 <? k') && (k' =? k) then a else attribute r k') ∧
  (k ≤ 0 → setAttribute r k a = r).
Proof.
  intros Hr. unfold setAttribute. destruct (Z.leb_spec k 0) as [Hk|Hk].
  - split_and!; [done| |done]. intros k'.
    destruct (Z.ltb_spec 0 k'), (Z.eqb_spec k' k); cbn; done || lia.
  - split_and!; [by apply map_set_ordered| |lia]. intros k'. unfold attribute.
    destruct (Z.leb_spec k' 0), (Z.ltb_spec 0 k'); try lia; [done|]. cbn [andb].
    rewrite (map_find_set 0) by done. by destruct (k' =? k).
Qed.

Lemma setAttribute_correct_witness :
  raw (attribute (setAttribute (fromRaw "x") 4 (mkAttr "y")) 4) = "y".
Proof.
  destruct (setAttribute_correct (fromRaw "x") 4 (mkAttr "y")) as (_ & H & _);
    [vm_compute; done|]. rewrite H. reflexivity.
Defined.
