(* ===== verification/Locks.v ===== *)
(** * Record locks

    [PickCore::Locking::LockTable]: the two-level table of record locks shared by
    the sessions, its operations, and the flat ownership map it implements. *)

From Stdlib Require Import Ascii String.
From S2P Require Import Prelude CLib.
From stdpp Require Import options.
Local Open Scope Z_scope.

(* src/core/locking/LockTypes.h:8-11 [LockType] *)
Inductive LockType := ReadU | WriteU.

(* src/core/locking/LockTypes.h:13-17 [LockEntry] *)
Record LockEntry := mkEntry {
  ownerSessionId : string;
  lockType : LockType;
  acquiredAt : Z
}.

(* src/core/locking/LockTypes.h:19-24 [LockConflict] *)
Record LockConflict := mkConflict {
  c_fileName : string;
  c_recordId : string;
  c_ownerSessionId : string;
  c_lockType : LockType
}.

#[global] Instance LockType_eq_dec : EqDecision LockType.
Proof. solve_decision. Defined.
#[global] Instance LockEntry_eq_dec : EqDecision LockEntry.
Proof. solve_decision. Defined.

(** [LockTable::locks_]: file name -> record id -> entry. *)
Abbreviation LockTable := (gmap string (gmap string LockEntry)).

(* src/core/locking/LockTable.cpp:5-7 [isValidKey] *)
Definition isValidKey (value : string) : bool := negb (str_empty value).

(* src/core/locking/LockTable.cpp:9-20 [fillConflict] *)
Definition fillConflict (fileName recordId : string) (e : LockEntry) : LockConflict :=
  mkConflict fileName recordId (ownerSessionId e) (lockType e).

(* src/core/locking/LockTable.cpp:23-31 [lockTypeLabel] *)
Definition lockTypeLabel (t : LockType) : string :=
  match t with ReadU => "READU" | WriteU => "WRITEU" end.

(* src/core/locking/LockTable.cpp:33-36 [describeLockConflict] *)
Definition describeLockConflict (c : LockConflict) : string :=
  "RECORD LOCKED: " +:+ c_fileName c +:+ " " +:+ c_recordId c +:+ " (owner " +:+
  c_ownerSessionId c +:+ ", " +:+ lockTypeLabel (c_lockType c) +:+ ")".

(** The answer is (acquired, the conflict written to [conflictOut], the table);
    [now] is the clock's reading.  [locks_[fileName]] creates the file's map. *)
(* src/core/locking/LockTable.cpp:38-65 [LockTable::tryAcquire] *)
Definition tryAcquire (sessionId fileName recordId : string) (ty : LockType) (now : Z)
    (locks : LockTable) : bool * option LockConflict * LockTable :=
  if negb (isValidKey sessionId) || negb (isValidKey fileName) || negb (isValidKey recordId)
  then (false, None, locks)
  else
    let fileLocks := default ∅ (locks !! fileName) in
    match fileLocks !! recordId with
    | Some e =>
        if decide (ownerSessionId e = sessionId)
        then (true, None, <[fileName := <[recordId := mkEntry (ownerSessionId e) ty now]> fileLocks]> locks)
        else (false, Some (fillConflict fileName recordId e), <[fileName := fileLocks]> locks)
    | None =>
        (true, None, <[fileName := <[recordId := mkEntry sessionId ty now]> fileLocks]> locks)
    end.

(* src/core/locking/LockTable.cpp:67-89 [LockTable::release] *)
Definition lock_release (sessionId fileName recordId : string) (locks : LockTable) : bool * LockTable :=
  if negb (isValidKey sessionId) || negb (isValidKey fileName) || negb (isValidKey recordId)
  then (false, locks)
  else
    match locks !! fileName with
    | None => (false, locks)
    | Some recs =>
        match recs !! recordId with
        | None => (false, locks)
        | Some e =>
            if decide (ownerSessionId e = sessionId) then
              let recs' := delete recordId recs in
              (true, if decide (recs' = ∅) then delete fileName locks
                     else <[fileName := recs']> locks)
            else (false, locks)
        end
    end.

(* src/core/locking/LockTable.cpp:91-114 [LockTable::releaseAllForSession] *)
Definition releaseAllForSession (sessionId : string) (locks : LockTable) : nat * LockTable :=
  if negb (isValidKey sessionId) then (0%nat, locks)
  else
    (map_fold (λ _ recs removed, (size (filter (λ kv : string * LockEntry, ownerSessionId kv.2 = sessionId) recs) + removed)%nat) 0%nat locks,
     omap (λ recs, let kept := filter (λ kv : string * LockEntry, ownerSessionId kv.2 ≠ sessionId) recs in
                   if decide (kept = ∅) then None else Some kept) locks).

(* src/core/locking/LockTable.cpp:116-129 [LockTable::releaseAllForFile] *)
Definition releaseAllForFile (fileName : string) (locks : LockTable) : nat * LockTable :=
  if negb (isValidKey fileName) then (0%nat, locks)
  else match locks !! fileName with
       | None => (0%nat, locks)
       | Some recs => (size recs, delete fileName locks)
       end.

(* src/core/locking/LockTable.cpp:131-147 [LockTable::lookup] *)
Definition lock_lookup (fileName recordId : string) (locks : LockTable) : option LockEntry :=
  if negb (isValidKey fileName) || negb (isValidKey recordId) then None
  else match locks !! fileName with
       | None => None
       | Some recs => recs !! recordId
       end.

(* src/core/locking/LockTable.cpp:149-151 [LockTable::clearAll] *)
Definition clearAll (locks : LockTable) : LockTable := ∅.

(** ** Operations as data *)
Inductive lock_op :=
| OpAcquire (sid f r : string) (ty : LockType) (now : Z)
| OpRelease (sid f r : string)
| OpReleaseSession (sid : string)
| OpReleaseFile (f : string)
| OpLookup (f r : string)
| OpClear.

Inductive lock_answer :=
| AnsAcquire (ok : bool) (c : option LockConflict)
| AnsBool (ok : bool)
| AnsCount (n : nat)
| AnsEntry (e : option LockEntry)
| AnsUnit.

Definition run_op (op : lock_op) (t : LockTable) : lock_answer * LockTable :=
  match op with
  | OpAcquire sid f r ty now => let '(ok, c, t') := tryAcquire sid f r ty now t in (AnsAcquire ok c, t')
  | OpRelease sid f r => let '(ok, t') := lock_release sid f r t in (AnsBool ok, t')
  | OpReleaseSession sid => let '(n, t') := releaseAllForSession sid t in (AnsCount n, t')
  | OpReleaseFile f => let '(n, t') := releaseAllForFile f t in (AnsCount n, t')
  | OpLookup f r => (AnsEntry (lock_lookup f r t), t)
  | OpClear => (AnsUnit, clearAll t)
  end.

(** ** The specification: who owns which record *)
Abbreviation Owners := (gmap (string * string) LockEntry).

Definition spec_op (op : lock_op) (o : Owners) : lock_answer * Owners :=
  match op with
  | OpAcquire sid f r ty now =>
      if str_empty sid || str_empty f || str_empty r then (AnsAcquire false None, o)
      else match o !! (f, r) with
           | Some e =>
               if decide (ownerSessionId e = sid)
               then (AnsAcquire true None, <[(f, r) := mkEntry sid ty now]> o)
               else (AnsAcquire false (Some (mkConflict f r (ownerSessionId e) (lockType e))), o)
           | None => (AnsAcquire true None, <[(f, r) := mkEntry sid ty now]> o)
           end
  | OpRelease sid f r =>
      match o !! (f, r) with
      | Some e => if decide (ownerSessionId e = sid) then (AnsBool true, delete (f, r) o)
                  else (AnsBool false, o)
      | None => (AnsBool false, o)
      end
  | OpReleaseSession sid =>
      (AnsCount (size (filter (λ kv : (string * string) * LockEntry, ownerSessionId kv.2 = sid) o)),
       filter (λ kv : (string * string) * LockEntry, ownerSessionId kv.2 ≠ sid) o)
  | OpReleaseFile f =>
      (AnsCount (size (filter (λ kv : (string * string) * LockEntry, kv.1.1 = f) o)),
       filter (λ kv : (string * string) * LockEntry, kv.1.1 ≠ f) o)
  | OpLookup f r => (AnsEntry (o !! (f, r)), o)
  | OpClear => (AnsUnit, ∅)
  end.

(** Running a sequence of operations, collecting the answers. *)
Fixpoint run_ops {S} (step : lock_op → S → lock_answer * S) (ops : list lock_op) (s : S)
    : list lock_answer * S :=
  match ops with
  | [] => ([], s)
  | op :: ops' =>
      let '(a, s1) := step op s in
      let '(as', s2) := run_ops step ops' s1 in
      (a :: as', s2)
  end.

(** ** The table's invariant and its relation to the specification *)
Record table_wf (t : LockTable) : Prop := mk_table_wf {
  wf_nonempty : ∀ f recs, t !! f = Some recs → recs ≠ ∅;
  wf_file_key : ∀ f recs, t !! f = Some recs → f ≠ "";
  wf_record_key : ∀ f recs r e, t !! f = Some recs → recs !! r = Some e → r ≠ "" ∧ ownerSessionId e ≠ ""
}.

Definition represents (t : LockTable) (o : Owners) : Prop :=
  ∀ f r, o !! (f, r) = t !! f ≫= λ recs, recs !! r.

Lemma isValidKey_spec s : isValidKey s = negb (str_empty s).
Proof. done. Qed.

Lemma str_empty_spec s : str_empty s = bool_decide (s = "").
Proof. by destruct s. Qed.

Lemma represents_lookup t o f r : represents t o → o !! (f, r) = t !! f ≫= λ recs, recs !! r.
Proof. done. Qed.

Lemma represents_empty : represents ∅ ∅.
Proof. intros f r. by rewrite !lookup_empty. Qed.

Lemma represents_insert t o f r e : represents t o →
  represents (<[f := <[r := e]> (default ∅ (t !! f))]> t) (<[(f, r) := e]> o).
Proof.
  intros H f' r'. destruct (decide (f = f')) as [->|Hf].
  - rewrite lookup_insert_eq. cbn. destruct (decide (r = r')) as [->|Hr].
    + by rewrite !lookup_insert_eq.
    + rewrite !lookup_insert_ne by congruence. rewrite H. by destruct (t !! f').
  - rewrite !lookup_insert_ne by congruence. apply H.
Qed.

Lemma represents_delete t o f r recs : represents t o → t !! f = Some recs →
  represents (if decide (delete r recs = ∅) then delete f t else <[f := delete r recs]> t)
             (delete (f, r) o).
Proof.
  intros H Hf f' r'. destruct (decide (f = f')) as [->|Hne].
  - assert (delete (f', r) o !! (f', r') = delete r recs !! r') as ->.
    { destruct (decide (r = r')) as [->|]; [by rewrite !lookup_delete_eq|].
      rewrite !lookup_delete_ne by congruence. rewrite H, Hf. done. }
    case_decide as Hd; [by rewrite lookup_delete_eq, Hd, lookup_empty|].
    by rewrite lookup_insert_eq.
  - rewrite lookup_delete_ne by congruence. rewrite H.
    case_decide; [by rewrite lookup_delete_ne|by rewrite lookup_insert_ne].
Qed.

Lemma represents_keep (P : string → LockEntry → Prop) `{!∀ r e, Decision (P r e)} t o :
  represents t o →
  represents (omap (λ recs, let kept := filter (λ kv, P kv.1 kv.2) recs in
                            if decide (kept = ∅) then None else Some kept) t)
             (filter (λ kv : (string * string) * LockEntry, P kv.1.2 kv.2) o).
Proof.
  intros Hrep f r. rewrite lookup_omap. apply option_eq. intros e.
  rewrite map_lookup_filter_Some, Hrep. destruct (t !! f) as [recs|] eqn:Hf; cbn; [|naive_solver].
  case_decide as Hd; cbn.
  - split; [|done]. intros [Hr HP]. eapply map_filter_empty_not_lookup in Hd; naive_solver.
  - by rewrite map_lookup_filter_Some.
Qed.

Lemma size_kmap_pair (f : string) (recs : gmap string LockEntry) :
  size (kmap (λ r, (f, r)) recs : Owners) = size recs.
Proof.
  rewrite <- !length_map_to_list, map_to_list_kmap by (intros ???; congruence).
  by rewrite length_fmap.
Qed.

Lemma filter_kmap_pair (P : LockEntry → Prop) `{!∀ e, Decision (P e)} f recs :
  filter (λ kv : (string * string) * LockEntry, P kv.2) (kmap (λ r, (f, r)) recs : Owners) =
  kmap (λ r, (f, r)) (filter (λ kv, P kv.2) recs).
Proof.
  assert (Inj (=) (=) (λ r : string, (f, r))) by (intros ???; congruence).
  apply map_eq. intros [f' r]. apply option_eq. intros e.
  rewrite map_lookup_filter_Some, !lookup_kmap_Some by done.
  setoid_rewrite map_lookup_filter_Some. naive_solver.
Qed.

(** The flat map splits into the entries of one file and the rest. *)
Lemma represents_insert_file t o f recs : t !! f = None → represents (<[f := recs]> t) o →
  ∃ o2, represents t o2 ∧ kmap (λ r, (f, r)) recs ##ₘ o2 ∧ o = kmap (λ r, (f, r)) recs ∪ o2.
Proof.
  intros Hf H. assert (Inj (=) (=) (λ r : string, (f, r))) by (intros ???; congruence).
  exists (filter (λ kv : (string * string) * LockEntry, kv.1.1 ≠ f) o).
  assert (kmap (λ r, (f, r)) recs ##ₘ
          filter (λ kv : (string * string) * LockEntry, kv.1.1 ≠ f) o) as Hdisj.
  { apply map_disjoint_spec. intros [f' r] e1 e2 H1 H2.
    apply lookup_kmap_Some in H1 as (r' & Hr & _); [|done].
    apply map_lookup_filter_Some in H2 as [_ H2]. cbn in H2. congruence. }
  split_and!; [|done|].
  - intros f' r. apply option_eq. intros e. rewrite map_lookup_filter_Some, H. cbn.
    destruct (decide (f' = f)) as [->|Hne]; [rewrite Hf; naive_solver|].
    rewrite lookup_insert_ne by done. naive_solver.
  - apply map_eq. intros [f' r]. apply option_eq. intros e.
    rewrite lookup_union_Some, lookup_kmap_Some, map_lookup_filter_Some, H by done. cbn.
    destruct (decide (f' = f)) as [->|Hne].
    + rewrite lookup_insert_eq. cbn. naive_solver.
    + rewrite lookup_insert_ne by done. naive_solver.
Qed.

Lemma represents_exists t : ∃ o, represents t o.
Proof.
  induction t as [|f recs t Hf [o Ho]] using map_ind; [exists ∅; apply represents_empty|].
  exists (kmap (λ r, (f, r)) recs ∪ o). intros f' r.
  assert (Inj (=) (=) (λ r : string, (f, r))) by (intros ???; congruence).
  destruct (decide (f' = f)) as [->|Hne].
  - rewrite lookup_insert_eq. cbn. destruct (recs !! r) as [e|] eqn:Hr.
    + apply lookup_union_Some_l. by rewrite lookup_kmap.
    + rewrite lookup_union_r by (by rewrite lookup_kmap). by rewrite Ho, Hf.
  - rewrite lookup_insert_ne, <- Ho by done. apply lookup_union_r.
    apply lookup_kmap_None; [done|]. intros ? ?. congruence.
Qed.

(** Counting over the two-level table is counting over the flat map. *)
Lemma represents_count (P : LockEntry → Prop) `{!∀ e, Decision (P e)} t o :
  represents t o →
  map_fold (λ _ recs n, (size (filter (λ kv, P kv.2) recs) + n)%nat) 0%nat t =
  size (filter (λ kv : (string * string) * LockEntry, P kv.2) o).
Proof.
  revert o. induction t as [|f recs t Hf IH] using map_ind; intros o Hrep.
  - assert (o = ∅) as ->.
    { apply map_eq. intros [f r]. by rewrite Hrep, !lookup_empty. }
    by rewrite map_fold_empty, map_filter_empty, map_size_empty.
  - rewrite map_fold_insert_L by (done || intros; lia).
    destruct (represents_insert_file t o f recs Hf Hrep) as (o2 & H2 & Hdisj & ->).
    rewrite (IH o2 H2), map_filter_union, map_size_disj_union by
      (done || by apply map_disjoint_filter).
    by rewrite filter_kmap_pair, size_kmap_pair.
Qed.

(** ** One operation refines its specification *)
Lemma table_wf_empty : table_wf ∅.
Proof. constructor; intros *; by rewrite lookup_empty. Qed.

Lemma table_wf_insert t f r e : table_wf t → f ≠ "" → r ≠ "" → ownerSessionId e ≠ "" →
  table_wf (<[f := <[r := e]> (default ∅ (t !! f))]> t).
Proof.
  intros [H1 H2 H3] Hf Hr He. split; intros f'.
  - intros recs [[<- <-]|[? ?]]%lookup_insert_Some; [apply insert_non_empty|eauto].
  - intros recs [[<- <-]|[? ?]]%lookup_insert_Some; eauto.
  - intros recs r' e' [[<- <-]|[? ?]]%lookup_insert_Some; [|eauto].
    intros [[<- <-]|[? Hl]]%lookup_insert_Some; [done|].
    destruct (t !! f) as [recs|] eqn:E; cbn in Hl; [eauto|by rewrite lookup_empty in Hl].
Qed.

(** Every operation but acquisition only removes entries. *)
Definition sub_table (t' t : LockTable) : Prop :=
  ∀ f recs', t' !! f = Some recs' → recs' ≠ ∅ ∧ ∃ recs, t !! f = Some recs ∧ recs' ⊆ recs.

Lemma table_wf_sub t t' : table_wf t → sub_table t' t → table_wf t'.
Proof.
  intros [H1 H2 H3] Hs. split.
  - intros f recs' Hf. by apply Hs in Hf as [? _].
  - intros f recs' Hf. apply Hs in Hf as (_ & recs & Hf & _). eauto.
  - intros f recs' r e Hf He. apply Hs in Hf as (_ & recs & Hf & Hsub).
    eapply H3; [done|]. by eapply lookup_weaken.
Qed.

Lemma sub_table_delete t f : table_wf t → sub_table (delete f t) t.
Proof.
  intros Hwf f' recs' [? Hf]%lookup_delete_Some. split; [by eapply Hwf|eauto].
Qed.

Lemma sub_table_keep (P : string * LockEntry → Prop) `{!∀ kv, Decision (P kv)} t :
  sub_table (omap (λ recs, let kept := filter P recs in
                           if decide (kept = ∅) then None else Some kept) t) t.
Proof.
  intros f recs' (recs & Hk & Hf)%lookup_omap_Some. cbv zeta in Hk. case_decide; [done|].
  simplify_eq. split; [done|]. exists recs. split; [done|]. apply map_filter_subseteq.
Qed.

Lemma represents_no_empty_key t o f r : table_wf t → represents t o →
  f = "" ∨ r = "" → o !! (f, r) = None.
Proof.
  intros Hwf H Hk. rewrite H. destruct (t !! f) as [recs|] eqn:Hf; [|done]. cbn.
  destruct (recs !! r) as [e|] eqn:Hr; [|done]. exfalso.
  destruct Hk as [->| ->]; [by eapply (wf_file_key t)|by eapply (wf_record_key t) in Hr as [? _]].
Qed.

Lemma represents_no_empty_owner t o f r e : table_wf t → represents t o →
  o !! (f, r) = Some e → ownerSessionId e ≠ "".
Proof.
  intros Hwf H. rewrite H. destruct (t !! f) as [recs|] eqn:Hf; [|done]. cbn.
  intros Hr. by eapply (wf_record_key t) in Hr as [_ ?].
Qed.

Lemma represents_file t o f : represents t o →
  size (filter (λ kv : (string * string) * LockEntry, kv.1.1 = f) o) =
    match t !! f with Some recs => size recs | None => 0%nat end ∧
  represents (delete f t) (filter (λ kv : (string * string) * LockEntry, kv.1.1 ≠ f) o).
Proof.
  intros H. assert (Inj (=) (=) (λ r : string, (f, r))) by (intros ???; congruence). split.
  - destruct (t !! f) as [recs|] eqn:Hf.
    + rewrite <- (size_kmap_pair f recs). f_equal. apply map_eq. intros [f' r].
      apply option_eq. intros e. rewrite map_lookup_filter_Some, lookup_kmap_Some, H by done.
      cbn. split; [intros [He ->]; rewrite Hf in He; naive_solver|].
      intros (r' & [= -> ->] & He). by rewrite Hf.
    + apply map_size_empty_iff, map_empty_filter_2. intros [f' r] e He Heq. cbn in Heq. subst f'.
      by rewrite H, Hf in He.
  - intros f' r. apply option_eq. intros e. rewrite map_lookup_filter_Some, H. cbn.
    destruct (decide (f = f')) as [->|]; [rewrite lookup_delete_eq; naive_solver|].
    rewrite lookup_delete_ne by done. naive_solver.
Qed.

Definition refines_step (op : lock_op) : Prop := ∀ t o, table_wf t → represents t o →
  (run_op op t).1 = (spec_op op o).1 ∧
  table_wf (run_op op t).2 ∧ represents (run_op op t).2 (spec_op op o).2.

Lemma refines_acquire sid f r ty now : refines_step (OpAcquire sid f r ty now).
Proof.
  intros t o Hwf H. cbn. unfold tryAcquire, isValidKey. rewrite !negb_involutive.
  destruct (str_empty sid || str_empty f || str_empty r) eqn:E; [done|].
  rewrite !orb_false_iff, !str_empty_spec, !bool_decide_eq_false in E.
  destruct E as [[Hsid Hf] Hr]. rewrite (represents_lookup t o) by done.
  assert ((t !! f ≫= λ recs, recs !! r) = default ∅ (t !! f) !! r) as ->.
  { destruct (t !! f); [done|]. cbn. by rewrite lookup_empty. }
  assert (∀ e, default ∅ (t !! f) !! r = Some e → t !! f = Some (default ∅ (t !! f))) as Hdef.
  { intros e. destruct (t !! f); [done|]. cbn. by rewrite lookup_empty. }
  destruct (default ∅ (t !! f) !! r) as [e|] eqn:Hl; [case_decide as Hd|]; cbn.
  - subst sid. split_and!; [done|by apply table_wf_insert|by apply represents_insert].
  - rewrite insert_id by eauto. done.
  - split_and!; [done|by apply table_wf_insert|by apply represents_insert].
Qed.

Lemma refines_release sid f r : refines_step (OpRelease sid f r).
Proof.
  intros t o Hwf H. cbn. unfold lock_release, isValidKey. rewrite !negb_involutive.
  destruct (str_empty sid || str_empty f || str_empty r) eqn:E.
  - rewrite !orb_true_iff, !str_empty_spec, !bool_decide_eq_true in E.
    destruct (o !! (f, r)) as [e|] eqn:Ho; [|done]. case_decide as Hd; [|done]. exfalso.
    destruct E as [[E|E]|E].
    + by eapply represents_no_empty_owner in Ho; [subst| |].
    + rewrite (represents_no_empty_key t o) in Ho by eauto. done.
    + rewrite (represents_no_empty_key t o) in Ho by eauto. done.
  - rewrite (represents_lookup t o) by done.
    destruct (t !! f) as [recs|] eqn:Hf; cbn; [|done].
    destruct (recs !! r) as [e|] eqn:Hr; cbn; [|done].
    case_decide; [|done]. split_and!; [done| |by apply represents_delete].
    eapply table_wf_sub; [done|]. intros f' recs'. cbn. case_decide as Hd.
    + intros Hf'. by apply (sub_table_delete t f) in Hf'.
    + intros [[<- <-]|[? Hf']]%lookup_insert_Some; [|split; [by eapply Hwf|eauto]].
      split; [done|]. exists recs. split; [done|]. apply delete_subseteq.
Qed.

Lemma refines_release_session sid : refines_step (OpReleaseSession sid).
Proof.
  intros t o Hwf H. cbn. unfold releaseAllForSession, isValidKey. rewrite negb_involutive.
  destruct (str_empty sid) eqn:E.
  - rewrite str_empty_spec, bool_decide_eq_true in E. subst sid.
    assert (∀ k e, o !! k = Some e → ownerSessionId e ≠ "") as Hne.
    { intros [f r] e. by apply (represents_no_empty_owner t o). }
    assert (filter (λ kv : (string * string) * LockEntry, ownerSessionId kv.2 = "") o = ∅) as ->.
    { apply map_empty_filter_2. intros k e He. by eapply Hne. }
    assert (filter (λ kv : (string * string) * LockEntry, ownerSessionId kv.2 ≠ "") o = o) as ->.
    { apply map_filter_id. intros k e He. by eapply Hne. }
    by rewrite map_size_empty.
  - split_and!.
    + exact (f_equal AnsCount (represents_count (λ e, ownerSessionId e = sid) t o H)).
    + eapply table_wf_sub; [done|]. apply sub_table_keep.
    + exact (represents_keep (λ _ e, ownerSessionId e ≠ sid) t o H).
Qed.

Lemma refines_release_file f : refines_step (OpReleaseFile f).
Proof.
  intros t o Hwf H. destruct (represents_file t o f H) as [Hs Hr]. cbn.
  unfold releaseAllForFile, isValidKey. rewrite negb_involutive, Hs.
  assert (t !! f = None → delete f t = t) as Hid by apply delete_id.
  assert (f = "" → t !! f = None) as He.
  { intros ->. destruct (t !! "") eqn:E; [|done]. by eapply (wf_file_key t) in E. }
  assert (str_empty f = true → f = "") by (by destruct f).
  destruct (str_empty f) eqn:E; [|destruct (t !! f) eqn:Ef]; cbn.
  - rewrite He by auto. rewrite Hid in Hr by auto. done.
  - split_and!; [done| |done]. eapply table_wf_sub; [done|]. by apply sub_table_delete.
  - rewrite Hid in Hr by done. done.
Qed.

Lemma refines_lookup f r : refines_step (OpLookup f r).
Proof.
  intros t o Hwf H. cbn. split; [|done]. f_equal. unfold lock_lookup, isValidKey.
  rewrite !negb_involutive. destruct (str_empty f || str_empty r) eqn:E.
  - rewrite !orb_true_iff, !str_empty_spec, !bool_decide_eq_true in E.
    by rewrite (represents_no_empty_key t o).
  - rewrite H. by destruct (t !! f).
Qed.

Lemma run_op_refines op : refines_step op.
Proof.
  destruct op; [apply refines_acquire|apply refines_release|apply refines_release_session
               |apply refines_release_file|apply refines_lookup|].
  intros t o _ _. cbn. split_and!; [done|apply table_wf_empty|apply represents_empty].
Qed.

Lemma run_ops_refines ops : ∀ t o, table_wf t → represents t o →
  (run_ops run_op ops t).1 = (run_ops spec_op ops o).1 ∧
  table_wf (run_ops run_op ops t).2 ∧ represents (run_ops run_op ops t).2 (run_ops spec_op ops o).2.
Proof.
  induction ops as [|op ops IH]; intros t o Hwf H; [done|]. cbn.
  destruct (run_op_refines op t o Hwf H) as (Ha & Hwf' & H').
  destruct (run_op op t) as [a t1], (spec_op op o) as [b o1]. cbn in *. subst b.
  destruct (IH t1 o1 Hwf' H') as (Has & Hwf2 & H2).
  destruct (run_ops run_op ops t1), (run_ops spec_op ops o1). cbn in *. by subst.
Qed.

(** ** Properties *)

(** C3. The two-level lock table implements the flat map from records to their
    owners: on every sequence of operations from the empty table, each operation
    (acquire, release, release of a whole session or file, lookup, clear) gives
    the answer the flat map gives, conflict reports and removal counts included,
    and the table keeps its shape: no empty per-file map, no empty key or owner. *)
Theorem lock_table_refines_owners (ops : list lock_op) :
  (run_ops run_op ops ∅).1 = (run_ops spec_op ops ∅).1 ∧
  table_wf (run_ops run_op ops ∅).2 ∧
  represents (run_ops run_op ops ∅).2 (run_ops spec_op ops ∅).2.
Proof. apply run_ops_refines; [apply table_wf_empty|apply represents_empty]. Qed.

(** The operations another session [b] may run that leave [a]'s lock on record
    [(f, r)] alone: everything except what [a] itself does, dropping the file's
    locks and clearing the table. *)
Definition leaves_lock (a f r : string) (op : lock_op) : Prop :=
  match op with
  | OpAcquire sid _ _ _ _ => sid ≠ a
  | OpRelease sid _ _ => sid ≠ a
  | OpReleaseSession sid => sid ≠ a
  | OpReleaseFile f' => f' ≠ f
  | OpLookup _ _ => True
  | OpClear => False
  end.

Lemma spec_op_keeps a f r e op o : ownerSessionId e = a → o !! (f, r) = Some e →
  leaves_lock a f r op → (spec_op op o).2 !! (f, r) = Some e.
Proof.
  intros He Ho Hop. destruct op as [sid f' r' ty now|sid f' r'|sid|f'|f' r'|]; cbn in *; try done.
  - destruct (str_empty sid || str_empty f' || str_empty r'); [done|].
    destruct (decide ((f', r') = (f, r))) as [[= -> ->]|Hne].
    + rewrite Ho. rewrite decide_False by congruence. done.
    + destruct (o !! (f', r')); [case_decide|]; cbn; rewrite ?lookup_insert_ne by done; done.
  - destruct (decide ((f', r') = (f, r))) as [[= -> ->]|Hne].
    + rewrite Ho, decide_False by congruence. done.
    + destruct (o !! (f', r')); [case_decide|]; cbn; rewrite ?lookup_delete_ne by done; done.
  - rewrite map_lookup_filter_Some. split; [done|]. cbn. congruence.
  - rewrite map_lookup_filter_Some. split; [done|]. cbn. congruence.
Qed.

Lemma spec_ops_keep a f r e ops o : ownerSessionId e = a → o !! (f, r) = Some e →
  Forall (leaves_lock a f r) ops → (run_ops spec_op ops o).2 !! (f, r) = Some e.
Proof.
  intros He Ho Hops. revert o Ho. induction Hops as [|op ops Hop Hops IH]; intros o Ho; [done|].
  cbn. pose proof (spec_op_keeps a f r e op o He Ho Hop) as H1.
  destruct (spec_op op o) as [x o1]. specialize (IH o1 H1).
  by destruct (run_ops spec_op ops o1).
Qed.

(** Exclusive ownership over time: once session [a] holds a record, whatever
    the other sessions do (acquire, release, end their sessions, drop other
    files' locks), in any order and any number of times, [a] still holds it, and
    another session's attempt to acquire it fails with a conflict naming [a]. *)
Theorem lock_held_until_released (t : LockTable) (a b f r : string) (e : LockEntry)
    (ops : list lock_op) (ty : LockType) (now : Z) :
  table_wf t → lock_lookup f r t = Some e → ownerSessionId e = a → a ≠ b → b ≠ "" →
  Forall (leaves_lock a f r) ops →
  let t' := (run_ops run_op ops t).2 in
  lock_lookup f r t' = Some e ∧
  tryAcquire b f r ty now t' = (false, Some (mkConflict f r a (lockType e)), t').
Proof.
  intros Hwf Hl He Hab Hb Hops. cbv zeta.
  destruct (represents_exists t) as [o Ho].
  assert (f ≠ "" ∧ r ≠ "") as [Hf Hr].
  { unfold lock_lookup, isValidKey in Hl. rewrite !str_empty_spec in Hl.
    repeat case_bool_decide; done. }
  assert (∀ t o, table_wf t → represents t o → lock_lookup f r t = o !! (f, r)) as Hspec.
  { intros t1 o1 H1 H2. pose proof (refines_lookup f r t1 o1 H1 H2) as [[= H3] _]. done. }
  destruct (run_ops_refines ops t o Hwf Ho) as (_ & Hwf' & Ho').
  assert ((run_ops spec_op ops o).2 !! (f, r) = Some e) as Hkept.
  { apply (spec_ops_keep a); [done| |done]. by rewrite <- (Hspec t). }
  split; [by rewrite (Hspec _ _ Hwf' Ho')|].
  rewrite Ho' in Hkept. apply bind_Some in Hkept as (recs & Hrecs & Hre).
  unfold tryAcquire, isValidKey. rewrite !str_empty_spec, !bool_decide_eq_false_2 by done. cbn [negb orb].
  rewrite Hrecs. cbn [default from_option id]. rewrite Hre, decide_False by congruence.
  unfold fillConflict. rewrite He. by rewrite insert_id.
Qed.

Lemma lock_held_until_released_witness :
  let t := (tryAcquire "s1" "CUST" "42" ReadU 0 ∅).2 in
  (tryAcquire "s2" "CUST" "42" WriteU 9
     (run_ops run_op [OpRelease "s2" "CUST" "42"; OpReleaseSession "s2"; OpReleaseFile "ORD"] t).2).1
  = (false, Some (mkConflict "CUST" "42" "s1" ReadU)).
Proof.
  intros t.
  destruct (lock_held_until_released t "s1" "s2" "CUST" "42" (mkEntry "s1" ReadU 0)
    [OpRelease "s2" "CUST" "42"; OpReleaseSession "s2"; OpReleaseFile "ORD"] WriteU 9) as [_ H];
    [|by vm_compute|done|done|done|by repeat constructor|].
  - apply (table_wf_insert ∅ "CUST" "42" (mkEntry "s1" ReadU 0) table_wf_empty); discriminate.
  - rewrite H. reflexivity.
Defined.
