(* ===== verification/FileSys.v ===== *)
(** * The record store

    [PickFS::Catalog] and [PickFS::FileSystem]: Pick files are directories under
    a root, records are files in them whose extension depends on the Pick file.
    The host's file system is modelled as far as the code sees it: the roots and
    their directories with the regular files and other entries in them, and
    which host operations fail (a [HostFs]).  The lock table of [Locks] is shared
    by all [FileSystem] objects; each belongs to one session. *)

From Stdlib Require Import Ascii String.
From S2P Require Import Prelude CLib Records Locks.
From stdpp Require Import options.
Local Open Scope Z_scope.

(** ** The host *)

(** An entry of a Pick file's directory: a regular file, or something else. *)
Inductive entry := EFile (content : string) | EOther.

(** An entry of the root: a directory, or something else. *)
Inductive node := NDir (entries : gmap string entry) | NOther.

(** Root path -> contents; an absent root does not exist. *)
Abbreviation Disk := (gmap string (gmap string node)).

Inductive host_op :=
| HExists (path : string)
| HIsDirectory (path : string)
| HCreateDirectories (path : string)
| HCreateDirectory (path : string)
| HRemoveAll (path : string)
| HRemove (path : string)
| HRename (path : string)
| HIterate (path : string)
| HOpenRead (path : string)
| HOpenWrite (path : string)
| HWrite (path : string).

(** [faults op]: the host reports an error for [op] (an [error_code], or a failed
    stream).  [onDisk path content]: what the file holds after [content] was
    written to the stream and the stream was destroyed; the last flush happens in
    the destructor, which reports nothing.  [readSpecial]: reading something that
    exists but is not a regular file. *)
Record HostFs := mkHost {
  faults : host_op → bool;
  onDisk : string → string → string;
  readSpecial : string → outcome string
}.

(** A host where nothing fails and whatever is written is stored. *)
Record healthy (host : HostFs) : Prop := mk_healthy {
  healthy_faults : ∀ op, faults host op = false;
  healthy_disk : ∀ p c, onDisk host p c = c
}.

Record World := mkWorld {
  disk : Disk;
  locks : LockTable;
  clock : Z
}.

Definition set_disk (d : Disk) (w : World) : World := mkWorld d (locks w) (clock w).
Definition set_locks (t : LockTable) (w : World) : World := mkWorld (disk w) t (clock w).

(** ** [Catalog] *)

(* src/core/filesystem/Catalog.cpp:29-41 [Catalog::isValidName] *)
Definition isValidName (name : string) : bool :=
  if str_empty name then false
  else str_forall (λ c, islower c || isupper c || isdigit c || Ascii.eqb c "_" || Ascii.eqb c "-") name.

(** [root / fileName], as a string. *)
Definition join_path (root name : string) : string := root +:+ "/" +:+ name.

(* src/core/filesystem/Catalog.cpp:14-19 [Catalog::filePath] *)
Definition filePath (root fileName : string) : outcome (string * string) :=
  if isValidName fileName then Ok (root, fileName) else Throw (RuntimeError "Invalid file name").

(** ** [FileSystem] objects and handles *)

(** [hasTable]: [lockTable_ != nullptr]. *)
(* src/core/filesystem/FileSystem.h:107-109 [FileSystem] *)
Record FileSystem := mkFs {
  root : string;
  hasTable : bool;
  lockSessionId : string
}.

(* src/core/filesystem/FileSystem.h:31-40 [FileSystem::FileHandle] *)
Record FileHandle := mkHandle {
  h_name : string;
  directoryPath : string * string;
  recordIds : list string;
  cursorIndex : nat;
  cursorPrimed : bool
}.

(* src/core/filesystem/FileSystem.cpp:23-25 [FileSystem::setRoot] *)
Definition setRoot (fs : FileSystem) (r : string) : FileSystem :=
  mkFs r (hasTable fs) (lockSessionId fs).

(* src/core/filesystem/FileSystem.cpp:27-30 [FileSystem::setLockContext] *)
Definition setLockContext (fs : FileSystem) (table : bool) (sessionId : string) : FileSystem :=
  mkFs (root fs) table sessionId.

(* src/core/filesystem/FileSystem.cpp:32-35 [FileSystem::clearLockContext] *)
Definition clearLockContext (fs : FileSystem) : FileSystem := mkFs (root fs) false "".

(* src/core/filesystem/FileSystem.cpp:37-39 [FileSystem::lockingEnabled] *)
Definition lockingEnabled (fs : FileSystem) : bool := hasTable fs && negb (str_empty (lockSessionId fs)).

(* src/core/filesystem/FileSystem.cpp:395-403 [FileSystem::preferredExtensionForFile] *)
Definition preferredExtensionForFile (fileName : string) : string :=
  if String.eqb fileName "BP" then ".bas"
  else if String.eqb fileName "PROC" || String.eqb fileName "PROCS" then ".proc"
  else ".item".

(* src/core/filesystem/FileSystem.cpp:405-409 [FileSystem::isKnownRecordExtension] *)
Definition isKnownRecordExtension (extension : string) : bool :=
  String.eqb extension ".item" || String.eqb extension ".bas" || String.eqb extension ".proc".

(* src/core/filesystem/FileSystem.cpp:391-393 [FileSystem::isValidRecordName] *)
Definition isValidRecordName (name : string) : bool := isValidName name.

(** [std::filesystem::path::stem] and [extension] of a file name: split at the
    last dot, unless it is the first character. *)
Fixpoint split_last_dot (s : string) : option (string * string) :=
  match s with
  | "" => None
  | String c s' =>
      match split_last_dot s' with
      | Some (l, r) => Some (String c l, r)
      | None => if Ascii.eqb c "." then Some ("", s) else None
      end
  end.

Definition stem_extension (s : string) : string * string :=
  if String.eqb s "." || String.eqb s ".." then (s, "")
  else match split_last_dot s with
       | Some (String c l, r) => (String c l, r)
       | _ => (s, "")
       end.

Section filesystem.
Context (host : HostFs).

(** *** Host calls, on the entries of [directoryPath] *)
Definition dir_node (d : Disk) (dir : string * string) : option node :=
  match d !! dir.1 with Some r => r !! dir.2 | None => None end.

Definition dir_entries (d : Disk) (dir : string * string) : option (gmap string entry) :=
  match dir_node d dir with Some (NDir es) => Some es | _ => None end.

Definition set_entries (dir : string * string) (es : gmap string entry) (d : Disk) : Disk :=
  match d !! dir.1 with
  | Some r => <[dir.1 := <[dir.2 := NDir es]> r]> d
  | None => d
  end.

Definition dir_path (dir : string * string) : string := join_path dir.1 dir.2.

Definition entry_of (w : World) (dir : string * string) (f : string) : option entry :=
  match dir_entries (disk w) dir with Some es => es !! f | None => None end.

(** [std::filesystem::exists(path, ec)]: false, with [ec], when it fails. *)
Definition h_exists (path : string) (there : bool) : bool * bool :=
  if faults host (HExists path) then (false, true) else (there, false).

Definition h_is_directory (path : string) (isdir : bool) : bool * bool :=
  if faults host (HIsDirectory path) then (false, true) else (isdir, false).

(** *** Locks *)

(* src/core/filesystem/FileSystem.cpp:41-55 [FileSystem::assertRecordAccessible] *)
Definition assertRecordAccessible (fs : FileSystem) (fileName recordName : string) : proc World unit :=
  if negb (lockingEnabled fs) then mret tt
  else λ w,
    match lock_lookup fileName recordName (locks w) with
    | None => (Ok tt, w)
    | Some e =>
        if String.eqb (ownerSessionId e) (lockSessionId fs) then (Ok tt, w)
        else (Throw (FileSystemError (describeLockConflict
                (mkConflict fileName recordName (ownerSessionId e) (lockType e)))), w)
    end.

(** A default-constructed [LockConflict], what [tryAcquire] leaves for invalid keys. *)
Definition noConflict : LockConflict := mkConflict "" "" "" ReadU.

(* src/core/filesystem/FileSystem.cpp:57-67 [FileSystem::acquireRecordLock] *)
Definition acquireRecordLock (fs : FileSystem) (fileName recordName : string) (ty : LockType)
    : proc World unit :=
  if negb (lockingEnabled fs) then mret tt
  else λ w,
    let '(ok, c, t) := tryAcquire (lockSessionId fs) fileName recordName ty (clock w) (locks w) in
    let w' := set_locks t w in
    if ok then (Ok tt, w')
    else (Throw (FileSystemError (describeLockConflict (default noConflict c))), w').

(** *** Files *)

(* src/core/filesystem/Catalog.cpp:21-27 [Catalog::ensureRootExists] *)
Definition ensureRootExists (fs : FileSystem) : proc World unit := λ w,
  if faults host (HCreateDirectories (root fs))
  then (Throw (RuntimeError ("Cannot create filesystem directory: " +:+ root fs)), w)
  else (Ok tt, match disk w !! root fs with
               | Some _ => w
               | None => set_disk (<[root fs := ∅]> (disk w)) w
               end).

(* src/core/filesystem/FileSystem.cpp:69-89 [FileSystem::createFile] *)
Definition createFile (fs : FileSystem) (name : string) : proc World unit :=
  if negb (isValidName name) then throw (FileSystemError "Invalid file name")
  else
    path ← lift (filePath (root fs) name);
    ensureRootExists fs;;
    act (λ w,
      let '(exists_, ec) := h_exists (dir_path path) (bool_decide (is_Some (dir_node (disk w) path))) in
      if ec then (Throw (FileSystemError ("Cannot inspect file: " +:+ dir_path path)), w)
      else if exists_ then (Throw (FileSystemError ("File already exists: " +:+ name)), w)
      else if faults host (HCreateDirectory (dir_path path))
      then (Throw (FileSystemError ("Cannot create file: " +:+ name)), w)
      else (Ok tt, set_disk (set_entries path ∅ (disk w)) w)).

(** The checks that [deleteFile] and [openFile] share. *)
Definition inspectFile (name : string) (path : string * string) : proc World unit := λ w,
  let '(exists_, ec) := h_exists (dir_path path) (bool_decide (is_Some (dir_node (disk w) path))) in
  if negb exists_ then
    (Throw (FileSystemError (if ec then "Cannot inspect file: " +:+ name else "File not found: " +:+ name)), w)
  else
    let '(isdir, ec) := h_is_directory (dir_path path) (bool_decide (is_Some (dir_entries (disk w) path))) in
    if negb isdir then
      (Throw (FileSystemError (if ec then "Cannot inspect file: " +:+ name
                               else "Invalid file storage for: " +:+ name)), w)
    else (Ok tt, w).

(* src/core/filesystem/FileSystem.cpp:91-121 [FileSystem::deleteFile] *)
Definition deleteFile (fs : FileSystem) (name : string) : proc World unit :=
  if negb (isValidName name) then throw (FileSystemError "Invalid file name")
  else
    (if hasTable fs then modify (λ w, set_locks (releaseAllForFile name (locks w)).2 w) else mret tt);;
    path ← lift (filePath (root fs) name);
    inspectFile name path;;
    act (λ w,
      if faults host (HRemoveAll (dir_path path))
      then (Throw (FileSystemError ("Cannot delete file: " +:+ name)), w)
      else (Ok tt, set_disk (alter (delete path.2) path.1 (disk w)) w)).

(* src/core/filesystem/FileSystem.cpp:123-142 [FileSystem::openFile] *)
Definition openFile (fs : FileSystem) (name : string) : proc World FileHandle :=
  if negb (isValidName name) then throw (FileSystemError "Invalid file name")
  else
    path ← lift (filePath (root fs) name);
    inspectFile name path;;
    mret (mkHandle name path [] 0 false).

(** *** Records *)

(** The names of the regular files, in the order the host lists them. *)
Definition regular_files (es : gmap string entry) : list string :=
  omap (λ kv : string * entry, match kv.2 with EFile _ => Some kv.1 | EOther => None end) (map_to_list es).

Definition record_name_of (f : string) : option string :=
  let '(st, ext) := stem_extension f in
  if isKnownRecordExtension ext && isValidRecordName st then Some st else None.

(** A directory iterator that cannot be opened is the end iterator: the loop
    body, with its test of [ec], does not run. *)
(* src/core/filesystem/FileSystem.cpp:144-167 [FileSystem::listRecords] *)
Definition listRecords (h : FileHandle) : proc World (list string) := λ w,
  let names :=
    if faults host (HIterate (dir_path (directoryPath h))) then []
    else match dir_entries (disk w) (directoryPath h) with
         | None => []
         | Some es => omap record_name_of (regular_files es)
         end in
  (Ok (sorted_unique names), w).

(** The first existing candidate. *)
Fixpoint first_existing (w : World) (dir : string * string) (recordName : string) (exts : list string)
    : option string :=
  match exts with
  | [] => None
  | ext :: exts' =>
      let f := recordName +:+ ext in
      if (h_exists (join_path (dir_path dir) f) (bool_decide (is_Some (entry_of w dir f)))).1
      then Some f else first_existing w dir recordName exts'
  end.

(* src/core/filesystem/FileSystem.cpp:169-203 [FileSystem::readRecord] *)
Definition readRecord (fs : FileSystem) (h : FileHandle) (recordName : string)
    : proc World (option PickRecord) :=
  if negb (isValidRecordName recordName) then throw (FileSystemError "Invalid record name")
  else
    assertRecordAccessible fs (h_name h) recordName;;
    act (λ w,
      match first_existing w (directoryPath h) recordName
              [preferredExtensionForFile (h_name h); ".item"; ".bas"; ".proc"] with
      | None => (Ok None, w)
      | Some f =>
          let path := join_path (dir_path (directoryPath h)) f in
          if faults host (HOpenRead path)
          then (Throw (FileSystemError ("Cannot open record: " +:+ recordName)), w)
          else match entry_of w (directoryPath h) f with
               | Some (EFile content) => (Ok (Some (makeRecord recordName content)), w)
               | _ => ((λ content, Some (makeRecord recordName content)) <$> readSpecial host path, w)
               end
      end).

(* src/core/filesystem/FileSystem.cpp:411-437 [FileSystem::resolveRecordPath] *)
Definition resolveRecordPath (h : FileHandle) (recordName : string) (w : World) : string :=
  let preferred := preferredExtensionForFile (h_name h) in
  match first_existing w (directoryPath h) recordName [preferred; ".item"; ".bas"; ".proc"] with
  | Some f => f
  | None => recordName +:+ preferred
  end.

(** [std::ofstream out(path, trunc)] and [out.write]: [None] when the stream
    cannot be opened. *)
Definition h_open_write (dir : string * string) (f : string) (w : World) : option (gmap string entry) :=
  if faults host (HOpenWrite (join_path (dir_path dir) f)) then None
  else match dir_entries (disk w) dir with
       | None => None
       | Some es => match es !! f with Some EOther => None | _ => Some es end
       end.

(** [std::filesystem::rename]: fails onto something that is not a file. *)
Definition h_rename (dir : string * string) (from to : string) (w : World) : option World :=
  if faults host (HRename (join_path (dir_path dir) to)) then None
  else match dir_entries (disk w) dir with
       | None => None
       | Some es =>
           match es !! from, es !! to with
           | Some e, (None | Some (EFile _)) =>
               Some (set_disk (set_entries dir (<[to := e]> (delete from es)) (disk w)) w)
           | _, _ => None
           end
       end.

Definition remove_entry (dir : string * string) (f : string) (w : World) : World :=
  match dir_entries (disk w) dir with
  | Some es => set_disk (set_entries dir (delete f es) (disk w)) w
  | None => w
  end.

(* src/core/filesystem/FileSystem.cpp:205-231 [FileSystem::writeRecord] *)
Definition writeRecord (fs : FileSystem) (h : FileHandle) (record : PickRecord) : proc World unit :=
  if negb (isValidRecordName (name record)) then throw (FileSystemError "Invalid record name")
  else
    assertRecordAccessible fs (h_name h) (name record);;
    act (λ w,
      let dir := directoryPath h in
      let path := resolveRecordPath h (name record) w in
      let tempPath := path +:+ ".tmp" in
      let tempFull := join_path (dir_path dir) tempPath in
      match h_open_write dir tempPath w with
      | None => (Throw (FileSystemError ("Cannot write record: " +:+ name record)), w)
      | Some es =>
          let canonicalRaw := toRaw (fromRaw (value record)) in
          let w1 := set_disk (set_entries dir
                      (<[tempPath := EFile (onDisk host tempFull canonicalRaw)]> es) (disk w)) w in
          if faults host (HWrite tempFull)
          then (Throw (FileSystemError ("Cannot write record: " +:+ name record)), w1)
          else match h_rename dir tempPath path w1 with
               | Some w2 => (Ok tt, w2)
               | None =>
                   if faults host (HRemove tempFull)
                   then (Throw (RuntimeError "filesystem error: cannot remove"), w1)
                   else (Throw (FileSystemError ("Cannot finalize record: " +:+ name record)),
                         remove_entry dir tempPath w1)
               end
      end).

(* src/core/filesystem/FileSystem.cpp:233-252 [FileSystem::deleteRecord] *)
Definition deleteRecord (fs : FileSystem) (h : FileHandle) (recordName : string) : proc World unit :=
  if negb (isValidRecordName recordName) then throw (FileSystemError "Invalid record name")
  else
    assertRecordAccessible fs (h_name h) recordName;;
    act (λ w,
      let dir := directoryPath h in
      let path := resolveRecordPath h recordName w in
      if faults host (HRemove (join_path (dir_path dir) path))
      then (Throw (FileSystemError ("Cannot delete record: " +:+ recordName)), w)
      else match entry_of w dir path with
           | None => (Throw (FileSystemError ("Record not found: " +:+ recordName)), w)
           | Some _ =>
               let w1 := remove_entry dir path w in
               (Ok tt, if lockingEnabled fs
                       then set_locks (lock_release (lockSessionId fs) (h_name h) recordName (locks w1)).2 w1
                       else w1)
           end).

(* src/core/filesystem/FileSystem.cpp:254-256 [FileSystem::read] *)
Definition read (fs : FileSystem) (fileName recordName : string) : proc World (option PickRecord) :=
  h ← openFile fs fileName; readRecord fs h recordName.

(* src/core/filesystem/FileSystem.cpp:258-260 [FileSystem::write] *)
Definition write (fs : FileSystem) (fileName : string) (record : PickRecord) : proc World unit :=
  h ← openFile fs fileName; writeRecord fs h record.

(* src/core/filesystem/FileSystem.cpp:262-265 [FileSystem::readU] *)
Definition readU (fs : FileSystem) (fileName recordName : string) : proc World (option PickRecord) :=
  acquireRecordLock fs fileName recordName ReadU;; read fs fileName recordName.

(* src/core/filesystem/FileSystem.cpp:267-270 [FileSystem::writeU] *)
Definition writeU (fs : FileSystem) (fileName : string) (record : PickRecord) : proc World unit :=
  acquireRecordLock fs fileName (name record) WriteU;; write fs fileName record.

(* src/core/filesystem/FileSystem.cpp:272-277 [FileSystem::releaseRecord] *)
Definition releaseRecord (fs : FileSystem) (fileName recordName : string) : proc World bool :=
  if negb (lockingEnabled fs) then mret false
  else λ w,
    let '(ok, t) := lock_release (lockSessionId fs) fileName recordName (locks w) in
    (Ok ok, set_locks t w).

(* src/core/filesystem/FileSystem.cpp:279-307 [FileSystem::listFiles] *)
Definition listFiles (fs : FileSystem) : proc World (list string) := λ w,
  if (h_exists (root fs) (bool_decide (is_Some (disk w !! root fs)))).1 then
    let names :=
      if faults host (HIterate (root fs)) then []
      else match disk w !! root fs with
           | None => []
           | Some r => filter (λ n, isValidName n = true)
               (omap (λ kv : string * node, match kv.2 with NDir _ => Some kv.1 | NOther => None end) (map_to_list r))
           end in
    (Ok (merge_sort str_leq names), w)
  else (Ok [], w).

(* src/core/filesystem/FileSystem.cpp:309-311 [FileSystem::listRecordNames] *)
Definition listRecordNames (fs : FileSystem) (fileName : string) : proc World (list string) :=
  h ← openFile fs fileName; listRecords h.

(* src/core/filesystem/FileSystem.cpp:326-330 [FileSystem::resetReadNextCursor] *)
Definition resetReadNextCursor (h : FileHandle) : FileHandle :=
  mkHandle (h_name h) (directoryPath h) [] 0 false.

(** The handle is an in-out parameter: it comes back with the answer. *)
(* src/core/filesystem/FileSystem.cpp:313-324 [FileSystem::readNextRecord] *)
Definition readNextRecord (h : FileHandle) : proc World (outcome string * FileHandle) :=
  h1 ← (if cursorPrimed h then mret h
        else ids ← listRecords h; mret (mkHandle (h_name h) (directoryPath h) ids 0 true));
  match recordIds h1 !! cursorIndex h1 with
  | None => mret (Throw (FileSystemError "cursor exhausted"), h1)
  | Some r => mret (Ok r, mkHandle (h_name h1) (directoryPath h1) (recordIds h1) (S (cursorIndex h1)) true)
  end.

(* src/core/filesystem/FileSystem.cpp:332-341 [FileSystem::readAttributeValue] *)
Definition readAttributeValue (fs : FileSystem) (fileName recordName : string) (attributeNo : Z)
    : proc World (option string) :=
  rec ← read fs fileName recordName;
  mret ((λ r, raw (attribute (fromRaw (value r)) attributeNo)) <$> rec).

(* src/core/filesystem/FileSystem.cpp:343-353 [FileSystem::readSubvalue] *)
Definition readSubvalue (fs : FileSystem) (fileName recordName : string) (attributeNo valueIndex : Z)
    : proc World (option string) :=
  rec ← read fs fileName recordName;
  mret ((λ r, valueAt (attribute (fromRaw (value r)) attributeNo) valueIndex) <$> rec).

(** The record as it is, or an empty one. *)
Definition existing_structured (rec : option PickRecord) : StructuredRecord :=
  match rec with Some r => fromRaw (value r) | None => [] end.

(* src/core/filesystem/FileSystem.cpp:355-365 [FileSystem::writeAttributeValue] *)
Definition writeAttributeValue (fs : FileSystem) (fileName recordName : string) (attributeNo : Z)
    (v : string) : proc World unit :=
  existing ← read fs fileName recordName;
  let structured := setAttribute (existing_structured existing) attributeNo (mkAttr v) in
  write fs fileName (makeRecord recordName (toRaw structured)).

(** [values.resize(n, "")] when it is shorter, then [values[n - 1] = v]. *)
Definition put_value (values : list string) (n : nat) (v : string) : list string :=
  let values1 := match values with [] => [""] | _ => values end in
  let values2 := values1 ++ replicate (n - length values1) "" in
  <[(n - 1)%nat := v]> values2.

(* src/core/filesystem/FileSystem.cpp:367-389 [FileSystem::writeSubvalue] *)
Definition writeSubvalue (fs : FileSystem) (fileName recordName : string) (attributeNo valueIndex : Z)
    (v : string) : proc World unit :=
  if valueIndex <=? 0 then throw (FileSystemError "Invalid subvalue index")
  else
    existing ← read fs fileName recordName;
    let structured := existing_structured existing in
    let values := put_value (splitValues (attribute structured attributeNo)) (Z.to_nat valueIndex) v in
    let structured' := setAttribute structured attributeNo (mkAttr (joinValues values)) in
    write fs fileName (makeRecord recordName (toRaw structured')).
End filesystem.

(** ** Names, extensions and candidates *)
Definition known_exts : list string := [".item"; ".bas"; ".proc"].

Definition candidates (fileName : string) : list string := preferredExtensionForFile fileName :: known_exts.

Lemma valid_name_no_dot n : isValidName n = true → no_char "." n = true.
Proof.
  unfold isValidName. destruct (str_empty n); [done|]. apply str_forall_impl. intros c Hc.
  revert c Hc. assert (∀ c, negb (islower c || isupper c || isdigit c || Ascii.eqb c "_" || Ascii.eqb c "-")
                            || negb (Ascii.eqb c ".") = true) as H.
  { apply (all_chars_spec (λ c, _)). by vm_compute. }
  intros c Hc. specialize (H c). by rewrite Hc in H.
Qed.

(** A name without a dot is recovered from any file name that continues it with
    a dot. *)
Lemma dot_split_inj n n' s s' : no_char "." n = true → no_char "." n' = true →
  n +:+ String "." s = n' +:+ String "." s' → n = n' ∧ s = s'.
Proof.
  intros Hn Hn' H. pose proof (getline_app "." n s Hn) as H1.
  rewrite H, (getline_app "." n' s' Hn') in H1. by simplify_eq.
Qed.

Lemma preferred_known f : preferredExtensionForFile f ∈ known_exts.
Proof. unfold preferredExtensionForFile, known_exts. repeat case_match; set_solver. Qed.

Lemma candidates_known f ext : ext ∈ candidates f → ext ∈ known_exts.
Proof. unfold candidates. rewrite elem_of_cons. intros [->|?]; [apply preferred_known|done]. Qed.

Lemma known_ext_cases ext : ext ∈ known_exts → ∃ s, ext = String "." s ∧ no_char "." s = true.
Proof.
  unfold known_exts. rewrite !elem_of_cons, elem_of_nil. intros [->|[->|[->|[]]]]; by eexists.
Qed.

(** Record files and temporary files of different records never share a name,
    nor does a record file with a temporary file. *)
Lemma candidate_not_temp r r' ext ext' : no_char "." r = true → no_char "." r' = true →
  ext ∈ known_exts → ext' ∈ known_exts → r' +:+ ext' ≠ (r +:+ ext) +:+ ".tmp".
Proof.
  intros Hr Hr' (s & -> & Hs)%known_ext_cases (s' & -> & Hs')%known_ext_cases.
  rewrite str_app_assoc, str_app_cons. intros [_ ->]%dot_split_inj; [|done..].
  clear -Hs'. induction s as [|c s IH]; cbn in Hs'; [done|].
  apply andb_true_iff in Hs' as [_ ?]. auto.
Qed.

Lemma candidate_inj r r' ext ext' : no_char "." r = true → no_char "." r' = true →
  ext ∈ known_exts → ext' ∈ known_exts → r' +:+ ext' = r +:+ ext → r' = r.
Proof.
  intros Hr Hr' (s & -> & Hs)%known_ext_cases (s' & -> & Hs')%known_ext_cases.
  intros [-> ->]%dot_split_inj; done.
Qed.

(** The entries after a write, at a candidate file. *)
Lemma written_lookup (es : gmap string entry) e r r' ext ext' :
  no_char "." r = true → no_char "." r' = true → ext ∈ known_exts → ext' ∈ known_exts →
  <[r +:+ ext := e]> (delete ((r +:+ ext) +:+ ".tmp") es) !! (r' +:+ ext') =
    if decide (r' +:+ ext' = r +:+ ext) then Some e else es !! (r' +:+ ext').
Proof.
  intros. destruct (decide _) as [->|Hne]; [by rewrite lookup_insert_eq|].
  rewrite lookup_insert_ne, lookup_delete_ne by (done || (intros Heq; symmetry in Heq; by apply candidate_not_temp in Heq)).
  done.
Qed.

(** ** Candidate files *)
(** The first candidate file of a record, on the entries of a directory. *)
Fixpoint pick (es : gmap string entry) (r : string) (exts : list string) : option string :=
  match exts with
  | [] => None
  | ext :: exts' => match es !! (r +:+ ext) with
                    | Some _ => Some (r +:+ ext)
                    | None => pick es r exts'
                    end
  end.

Lemma pick_candidate es r exts f : pick es r exts = Some f → ∃ ext, ext ∈ exts ∧ f = r +:+ ext.
Proof.
  induction exts as [|ext exts IH]; cbn; [done|]. destruct (es !! _).
  - intros [= <-]. exists ext. set_solver.
  - intros (ext' & ? & ->)%IH. exists ext'. set_solver.
Qed.

(** The file that [resolveRecordPath] chooses. *)
Definition target (es : gmap string entry) (f r : string) : string :=
  default (r +:+ preferredExtensionForFile f) (pick es r (candidates f)).

Lemma target_candidate es f r : ∃ ext, ext ∈ candidates f ∧ target es f r = r +:+ ext.
Proof.
  unfold target. destruct (pick es r (candidates f)) eqn:E; [|eexists; split; [apply list_elem_of_here|done]].
  by apply pick_candidate in E.
Qed.

(** Writing the chosen file makes it the one that is read. *)
Lemma pick_ext es es' r exts : (∀ ext, ext ∈ exts → es' !! (r +:+ ext) = es !! (r +:+ ext)) →
  pick es' r exts = pick es r exts.
Proof.
  induction exts as [|ext exts IH]; intros H; [done|]. cbn. rewrite H by set_solver.
  rewrite IH by set_solver. done.
Qed.

Lemma pick_update es es' r exts ext c : ext ∈ exts →
  (∀ x, x ∈ exts → r +:+ x ≠ r +:+ ext → es' !! (r +:+ x) = es !! (r +:+ x)) →
  es' !! (r +:+ ext) = Some c → (pick es r exts = None ∨ pick es r exts = Some (r +:+ ext)) →
  pick es' r exts = Some (r +:+ ext).
Proof.
  intros Hin He Hc. induction exts as [|x exts IH]; [set_solver|]. cbn [pick].
  destruct (decide (r +:+ x = r +:+ ext)) as [->|Hx]; [by rewrite Hc|].
  rewrite (He x) by (done || set_solver).
  destruct (es !! (r +:+ x)) eqn:E; [intros [?|?]; congruence|].
  apply IH; [set_solver|]. intros y ?. apply He. set_solver.
Qed.

Lemma pick_target es es' f r c :
  (∀ ext, ext ∈ known_exts → r +:+ ext ≠ target es f r → es' !! (r +:+ ext) = es !! (r +:+ ext)) →
  es' !! target es f r = Some c → pick es' r (candidates f) = Some (target es f r).
Proof.
  intros He Hc. destruct (target_candidate es f r) as (ext & Hin & Ht). rewrite Ht in *.
  apply (pick_update es _ _ _ _ c); [done| |done|].
  - intros x Hx. apply He. by apply (candidates_known f).
  - unfold target in Ht. destruct (pick es r (candidates f)); [right; cbn in Ht; congruence|by left].
Qed.

(** ** Host facts *)
Section healthy_host.
#[local] Set Default Proof Using "Type*".
Context {host : HostFs} (Hhost : healthy host).

Lemma h_exists_healthy p b : h_exists host p b = (b, false).
Proof. unfold h_exists. by rewrite (healthy_faults host Hhost). Qed.

Lemma h_is_directory_healthy p b : h_is_directory host p b = (b, false).
Proof. unfold h_is_directory. by rewrite (healthy_faults host Hhost). Qed.

Lemma first_existing_pick w dir r exts es : dir_entries (disk w) dir = Some es →
  first_existing host w dir r exts = pick es r exts.
Proof.
  intros Hd. induction exts as [|ext exts IH]; [done|].
  cbn [first_existing pick]. rewrite h_exists_healthy. unfold entry_of. rewrite Hd, IH.
  cbn [fst]. by destruct (es !! _).
Qed.

Lemma resolveRecordPath_target w h r es : dir_entries (disk w) (directoryPath h) = Some es →
  resolveRecordPath host h r w = target es (h_name h) r.
Proof.
  intros Hd. unfold resolveRecordPath, target. rewrite (first_existing_pick _ _ _ _ es Hd).
  by destruct (pick es r _).
Qed.

End healthy_host.

(** ** Disk facts *)
Lemma dir_entries_set dir es es0 d : dir_entries d dir = Some es0 →
  dir_entries (set_entries dir es d) dir = Some es.
Proof.
  unfold dir_entries, dir_node, set_entries. destruct (d !! dir.1) as [rt|] eqn:E; [|done]. intros _.
  by rewrite lookup_insert_eq, lookup_insert_eq.
Qed.

Lemma dir_node_set_other dir dir' es d : dir' ≠ dir →
  dir_node (set_entries dir es d) dir' = dir_node d dir'.
Proof.
  intros Hne. unfold dir_node, set_entries. destruct (d !! dir.1) as [rt|] eqn:E; [|done].
  destruct (decide (dir'.1 = dir.1)) as [H1|H1].
  - rewrite H1, E, lookup_insert_eq. rewrite lookup_insert_ne; [done|].
    intros H2. apply Hne. destruct dir, dir'; cbn in *; congruence.
  - by rewrite lookup_insert_ne.
Qed.

Lemma dir_node_set_is dir dir' es es0 d : dir_entries d dir = Some es0 →
  dir_entries (set_entries dir es d) dir' = (if decide (dir' = dir) then Some es else dir_entries d dir').
Proof.
  intros Hd. destruct (decide (dir' = dir)) as [->|Hne]; [by eapply dir_entries_set|].
  unfold dir_entries. by rewrite dir_node_set_other.
Qed.

(** ** Opening, reading and writing on a healthy host *)
Definition accessible (fs : FileSystem) (f r : string) (w : World) : Prop :=
  lockingEnabled fs = true → ∀ e, lock_lookup f r (locks w) = Some e → ownerSessionId e = lockSessionId fs.

Lemma assert_accessible fs f r w : accessible fs f r w → assertRecordAccessible fs f r w = (Ok tt, w).
Proof.
  unfold accessible, assertRecordAccessible. destruct (lockingEnabled fs); [|done]. cbn [negb]. intros H.
  destruct (lock_lookup f r (locks w)) as [e|]; [|done]. by rewrite (H eq_refl e eq_refl), String.eqb_refl.
Qed.

Lemma assert_locked fs f r w e : lockingEnabled fs = true → lock_lookup f r (locks w) = Some e →
  ownerSessionId e ≠ lockSessionId fs →
  assertRecordAccessible fs f r w =
    (Throw (FileSystemError (describeLockConflict (mkConflict f r (ownerSessionId e) (lockType e)))), w).
Proof.
  unfold assertRecordAccessible. intros Hl He Hne. rewrite Hl. cbn [negb]. rewrite He.
  by rewrite (proj2 (String.eqb_neq _ _)).
Qed.

Definition open_handle (fs : FileSystem) (f : string) : FileHandle := mkHandle f (root fs, f) [] 0 false.

(** What a record's read looks at. *)
Definition same_record_files (dir : string * string) (r : string) (w w' : World) : Prop :=
  (is_Some (dir_node (disk w') dir) ↔ is_Some (dir_node (disk w) dir)) ∧
  (is_Some (dir_entries (disk w') dir) ↔ is_Some (dir_entries (disk w) dir)) ∧
  (isValidName r = true →
   ∀ ext, ext ∈ known_exts → entry_of w' dir (r +:+ ext) = entry_of w dir (r +:+ ext)).

Lemma first_existing_congr host w w' dir r exts : same_record_files dir r w w' →
  isValidName r = true → (∀ x, x ∈ exts → x ∈ known_exts) →
  first_existing host w' dir r exts = first_existing host w dir r exts.
Proof.
  intros (_ & _ & He) Hr Hk. induction exts as [|x exts IH]; [done|]. cbn [first_existing].
  rewrite (He Hr), IH; [done| |]; set_solver.
Qed.

Lemma first_existing_known host w dir r exts f : first_existing host w dir r exts = Some f →
  ∃ ext, ext ∈ exts ∧ f = r +:+ ext.
Proof.
  induction exts as [|x exts IH]; cbn [first_existing]; [done|]. destruct (_.1).
  - intros [= <-]. exists x. set_solver.
  - intros (y & ? & ->)%IH. exists y. set_solver.
Qed.

(** A read is decided by the record's own files and its lock. *)
Lemma read_congr host fs f r w w' : same_record_files (root fs, f) r w w' →
  lock_lookup f r (locks w') = lock_lookup f r (locks w) →
  (read host fs f r w').1 = (read host fs f r w).1.
Proof.
  intros Hs Hl. pose proof Hs as (Hn & Hd & He).
  unfold read, openFile. destruct (isValidName f) eqn:Hf; [|done]. cbn [negb].
  unfold filePath. rewrite Hf. unfold lift, mbind, proc_bind, inspectFile.
  rewrite (bool_decide_ext _ _ Hn), (bool_decide_ext _ _ Hd).
  destruct (h_exists host _ _) as [[] ec]; [|done]. cbn [negb].
  destruct (h_is_directory host _ _) as [[] ec']; [|done]. cbn [negb mret proc_ret].
  unfold readRecord, isValidRecordName. destruct (isValidName r) eqn:Hr; [|done]. cbn [negb].
  unfold mbind, proc_bind.
  assert (∃ o, assertRecordAccessible fs f r w = (o, w) ∧ assertRecordAccessible fs f r w' = (o, w'))
    as (o & Ho & Ho').
  { unfold assertRecordAccessible. destruct (negb _); [by eexists|]. rewrite Hl.
    destruct (lock_lookup f r (locks w)) as [e|]; [|by eexists]. destruct (String.eqb _ _); by eexists. }
  cbn [h_name directoryPath]. rewrite Ho, Ho'. destruct o as [[]| |]; [|done..].
  unfold act. rewrite (first_existing_congr host w w') by (done || apply (candidates_known f)).
  destruct (first_existing host w (root fs, f) r _) as [t|] eqn:Et; [|done].
  destruct (faults host _); [done|].
  apply first_existing_known in Et as (ext & Hext & ->).
  rewrite (He eq_refl) by (by apply (candidates_known f)). by destruct (entry_of w _ _) as [[]|].
Qed.

Section healthy_ops.
Context {host : HostFs} (Hhost : healthy host).
#[local] Set Default Proof Using "Type*".

Lemma openFile_healthy fs f w es : isValidName f = true → dir_entries (disk w) (root fs, f) = Some es →
  openFile host fs f w = (Ok (open_handle fs f), w).
Proof.
  intros Hf Hd. unfold openFile, filePath. rewrite Hf. cbn [negb]. unfold lift, mbind, proc_bind, inspectFile.
  assert (is_Some (dir_node (disk w) (root fs, f))) as Hn.
  { unfold dir_entries in Hd. by destruct (dir_node _ _). }
  rewrite h_exists_healthy, h_is_directory_healthy by done.
  rewrite !bool_decide_eq_true_2 by (done || by rewrite Hd). done.
Qed.

Lemma read_healthy fs f r w es : isValidName f = true → isValidName r = true →
  dir_entries (disk w) (root fs, f) = Some es → accessible fs f r w →
  read host fs f r w =
    (match pick es r (candidates f) with
     | None => Ok None
     | Some t => match es !! t with
                 | Some (EFile c) => Ok (Some (makeRecord r c))
                 | _ => (λ c, Some (makeRecord r c)) <$> readSpecial host (join_path (dir_path (root fs, f)) t)
                 end
     end, w).
Proof.
  intros Hf Hr Hd Ha. unfold read. rewrite (proc_bind_ok _ _ _ _ _ (openFile_healthy fs f w es Hf Hd)).
  unfold readRecord, isValidRecordName. rewrite Hr. cbn [negb].
  rewrite (proc_bind_ok _ _ _ _ _ (assert_accessible _ _ _ _ Ha)). unfold act, open_handle.
  cbn [directoryPath h_name].
  rewrite (first_existing_pick Hhost w _ r _ es Hd). fold known_exts. fold (candidates f).
  destruct (pick es r (candidates f)) as [t|]; [|done].
  rewrite (healthy_faults host Hhost). unfold entry_of. rewrite Hd. by destruct (es !! t) as [[]|].
Qed.

(** A write stores the canonical text under the record's file and takes any
    leftover temporary file away; nothing else changes. *)
Lemma write_healthy fs f rec w es : isValidName f = true → isValidName (name rec) = true →
  dir_entries (disk w) (root fs, f) = Some es → accessible fs f (name rec) w →
  (∀ k, es !! k ≠ Some EOther) →
  ∃ w', write host fs f rec w = (Ok tt, w') ∧ locks w' = locks w ∧
    dir_entries (disk w') (root fs, f) =
      Some (<[target es f (name rec) := EFile (value rec)]> (delete (target es f (name rec) +:+ ".tmp") es)) ∧
    ∀ dir', dir' ≠ (root fs, f) → dir_node (disk w') dir' = dir_node (disk w) dir'.
Proof.
  intros Hf Hr Hd Ha Hreg. set (t := target es f (name rec)). set (tmp := t +:+ ".tmp").
  assert (t ≠ tmp) as Htmp.
  { unfold tmp. destruct (target_candidate es f (name rec)) as (ext & Hin & Heq).
    fold t in Heq. rewrite Heq. apply candidate_not_temp; try (by apply valid_name_no_dot);
      by apply (candidates_known f). }
  unfold write. rewrite (proc_bind_ok _ _ _ _ _ (openFile_healthy fs f w es Hf Hd)).
  unfold writeRecord, isValidRecordName. rewrite Hr. cbn [negb].
  rewrite (proc_bind_ok _ _ _ _ _ (assert_accessible _ _ _ _ Ha)). unfold act, open_handle.
  cbn [directoryPath h_name].
  rewrite (resolveRecordPath_target Hhost w _ _ es) by done. cbn [h_name]. fold t. fold tmp.
  unfold h_open_write. rewrite !(healthy_faults host Hhost), Hd.
  destruct (es !! tmp) as [[]|] eqn:Etmp; [|by destruct (Hreg tmp)|].
  all: rewrite (healthy_disk host Hhost), toRaw_fromRaw; unfold h_rename;
    rewrite (healthy_faults host Hhost); cbn [disk set_disk];
    rewrite (dir_entries_set _ _ es) by done; rewrite lookup_insert_eq, lookup_insert_ne by done;
    destruct (es !! t) as [[]|] eqn:Et; try (by destruct (Hreg t));
    eexists; (split; [reflexivity|]); split; try done; cbn [disk set_disk];
    (split; [|intros dir' Hne; by rewrite !dir_node_set_other]);
    erewrite dir_entries_set by (eapply dir_entries_set; exact Hd); do 2 f_equal; apply delete_insert_eq.
Qed.
End healthy_ops.

(** The records of the file [f] are files, and [r] is not locked by another session. *)
Definition ready (fs : FileSystem) (f r : string) (w : World) : Prop :=
  (∃ es, dir_entries (disk w) (root fs, f) = Some es ∧ ∀ k, es !! k ≠ Some EOther) ∧ accessible fs f r w.

Lemma pick_there es r exts t : pick es r exts = Some t → is_Some (es !! t).
Proof. induction exts as [|ext exts IH]; cbn; [done|]. destruct (es !! (r +:+ ext)) eqn:Ee; [intros [= <-]; by rewrite Ee|done]. Qed.

Lemma read_ready host fs f r w : healthy host → isValidName f = true → isValidName r = true → ready fs f r w →
  ∃ rec, read host fs f r w = (Ok rec, w).
Proof.
  intros Hhost Hf Hr [(es & Hd & Hreg) Ha]. rewrite (read_healthy Hhost fs f r w es) by done.
  destruct (pick es r (candidates f)) as [t|] eqn:Et; [|by eexists]. apply pick_there in Et as [e He]. rewrite He.
  destruct e; [by eexists|by destruct (Hreg t)].
Qed.

(** A write can be read back, and can be repeated. *)
Lemma write_ready host fs f r text w : healthy host → isValidName f = true → isValidName r = true → ready fs f r w →
  ∃ w', write host fs f (makeRecord r text) w = (Ok tt, w') ∧ locks w' = locks w ∧ ready fs f r w' ∧
    read host fs f r w' = (Ok (Some (makeRecord r text)), w').
Proof.
  intros Hhost Hf Hr [(es & Hd & Hreg) Ha].
  destruct (write_healthy Hhost fs f (makeRecord r text) w es Hf Hr Hd Ha Hreg) as (w' & Hw & Hl & Hd' & _).
  exists w'. split; [done|]. split; [done|].
  cbn [name makeRecord value] in Hd'. rewrite toRaw_fromRaw in Hd'. set (t := target es f r) in *.
  destruct (target_candidate es f r) as (ext & Hext & Ht). fold t in Ht.
  assert (accessible fs f r w') as Ha' by (unfold accessible in *; by rewrite Hl).
  split.
  - split; [|done]. eexists. split; [exact Hd'|]. intros k [[_ ?]|[_ Hk]]%lookup_insert_Some; [done|].
    apply lookup_delete_Some in Hk as [_ Hk]. by apply Hreg in Hk.
  - rewrite (read_healthy Hhost fs f r w' _ Hf Hr Hd' Ha'). rewrite (pick_target es _ f r (EFile text)).
    + fold t. by rewrite lookup_insert_eq.
    + intros x Hx Hne. fold t in Hne. rewrite Ht in Hne |- *. pose proof (valid_name_no_dot _ Hr).
      rewrite written_lookup by (try done; by apply (candidates_known f)). by rewrite decide_False.
    + by rewrite lookup_insert_eq.
Qed.

(** ** Properties *)

(** C27. On a healthy host, when the session may use the record, writing it
    succeeds, leaves every lock alone, and reading it back gives the written
    record; every other record of every file, seen through any [FileSystem]
    object, reads exactly as before (whatever temporary or fallback-extension
    files the directory holds). *)
Theorem write_then_read host fs f r text w es : healthy host →
  isValidName f = true → isValidName r = true →
  dir_entries (disk w) (root fs, f) = Some es → (∀ k, es !! k ≠ Some EOther) → accessible fs f r w →
  ∃ w', write host fs f (makeRecord r text) w = (Ok tt, w') ∧ locks w' = locks w ∧
    read host fs f r w' = (Ok (Some (makeRecord r text)), w') ∧
    ∀ fs' f' r', (root fs', f', r') ≠ (root fs, f, r) →
      (read host fs' f' r' w').1 = (read host fs' f' r' w).1.
Proof.
  intros Hhost Hf Hr Hd Hreg Ha.
  destruct (write_healthy Hhost fs f (makeRecord r text) w es Hf Hr Hd Ha Hreg) as (w' & Hw & Hl & Hd' & Hn').
  exists w'. split; [done|]. split; [done|].
  cbn [name makeRecord value] in Hd'. rewrite toRaw_fromRaw in Hd'. set (t := target es f r) in *.
  pose proof (valid_name_no_dot _ Hr) as Hrd.
  assert (∃ ext, ext ∈ known_exts ∧ t = r +:+ ext) as (ext & Hext & Ht).
  { destruct (target_candidate es f r) as (ext & ? & ?). exists ext. split; [by apply (candidates_known f)|done]. }
  split.
  - rewrite (read_healthy Hhost fs f r w' _ Hf Hr Hd') by (unfold accessible in *; by rewrite Hl).
    rewrite (pick_target es _ f r (EFile text)).
    + fold t. by rewrite lookup_insert_eq.
    + intros x Hx Hne. fold t in Hne. rewrite Ht in Hne |- *. rewrite written_lookup by done.
      by rewrite decide_False.
    + by rewrite lookup_insert_eq.
  - intros fs' f' r' Hne. apply read_congr; [|by rewrite Hl].
    destruct (decide ((root fs', f') = (root fs, f))) as [Heq|Hdir].
    + rewrite Heq. split; [|split].
      * unfold dir_entries in Hd, Hd'. destruct (dir_node (disk w')), (dir_node (disk w)); done.
      * rewrite Hd, Hd'. split; by eexists.
      * intros Hr'%valid_name_no_dot x Hx. unfold entry_of. rewrite Hd, Hd'.
        assert (r' ≠ r) as Hrr by (intros ->; apply Hne; congruence).
        rewrite Ht, written_lookup by done. rewrite decide_False; [done|].
        intros Heq'. exact (Hrr (candidate_inj r r' ext x Hrd Hr' Hext Hx Heq')).
    + split; [|split]; unfold entry_of, dir_entries; by rewrite Hn'.
Qed.

(** The concrete store of the witnesses: one Pick file with two records, one of
    them locked by session [A]. *)
Definition ex_host : HostFs := mkHost (λ _, false) (λ _ c, c) (λ _, Ok "").
Definition ex_entries : gmap string entry := <["X.item" := EFile "old"]> (<["Y.bas" := EFile "y"]> ∅).
Definition ex_world : World := mkWorld {["root" := {["F" := NDir ex_entries]}]}
  {["F" := {["X" := mkEntry "A" ReadU 0]}]} 0.
Definition ex_fs (sid : string) : FileSystem := mkFs "root" true sid.

Lemma ex_healthy : healthy ex_host.
Proof. by split. Qed.

Lemma ex_regular k : ex_entries !! k ≠ Some EOther.
Proof.
  unfold ex_entries. destruct (decide (k = "X.item")) as [->|?]; [by rewrite lookup_insert_eq|].
  rewrite lookup_insert_ne by done.
  destruct (decide (k = "Y.bas")) as [->|?]; [by rewrite lookup_insert_eq|]. by rewrite lookup_insert_ne.
Qed.

Lemma write_then_read_witness :
  ∃ w', write ex_host (ex_fs "A") "F" (makeRecord "Y" "new") ex_world = (Ok tt, w') ∧
    read ex_host (ex_fs "A") "F" "Y" w' = (Ok (Some (makeRecord "Y" "new")), w').
Proof.
  destruct (write_then_read ex_host (ex_fs "A") "F" "Y" "new" ex_world ex_entries ex_healthy
    eq_refl eq_refl eq_refl ex_regular) as (w' & H1 & _ & H2 & _);
    [intros _ e He; by vm_compute in He|]. by exists w'.
Defined.

(** *** Locks held by others *)

(** Everything a session can do to one record of a file. *)
Inductive record_op :=
| RRead | RWrite (text : string) | RReadU | RWriteU (text : string) | RDelete
| RReadAttribute (n : Z) | RReadSubvalue (n i : Z)
| RWriteAttribute (n : Z) (v : string) | RWriteSubvalue (n i : Z) (v : string).

Definition run_record_op (host : HostFs) (fs : FileSystem) (f r : string) (op : record_op) : proc World unit :=
  match op with
  | RRead => read host fs f r;; mret tt
  | RWrite t => write host fs f (makeRecord r t)
  | RReadU => readU host fs f r;; mret tt
  | RWriteU t => writeU host fs f (makeRecord r t)
  | RDelete => h ← openFile host fs f; deleteRecord host fs h r
  | RReadAttribute n => readAttributeValue host fs f r n;; mret tt
  | RReadSubvalue n i => readSubvalue host fs f r n i;; mret tt
  | RWriteAttribute n v => writeAttributeValue host fs f r n v
  | RWriteSubvalue n i v => writeSubvalue host fs f r n i v
  end.

(** [m] reports a file-system error and changes nothing. *)
Definition refused {A} (m : proc World A) (w : World) : Prop :=
  ∃ what, m w = (Throw (FileSystemError what), w).

Lemma refused_bind {A B} (m : proc World A) (k : A → proc World B) w : refused m w → refused (m ≫= k) w.
Proof. intros [what H]. exists what. unfold mbind, proc_bind. by rewrite H. Qed.

Lemma open_then_refused {A} host fs f (k : FileHandle → proc World A) w :
  refused (k (open_handle fs f)) w → refused (h ← openFile host fs f; k h) w.
Proof.
  intros Hk. unfold openFile. destruct (isValidName f) eqn:Hf; [|by eexists]. cbn [negb].
  unfold filePath. rewrite Hf. unfold refused, lift, mbind, proc_bind, inspectFile.
  destruct (h_exists host _ _) as [[] ec]; [|by eexists]. cbn [negb].
  destruct (h_is_directory host _ _) as [[] ec']; [|by eexists]. exact Hk.
Qed.

Lemma acquire_locked fs f r w e ty : lockingEnabled fs = true → lock_lookup f r (locks w) = Some e →
  ownerSessionId e ≠ lockSessionId fs →
  acquireRecordLock fs f r ty w =
    (Throw (FileSystemError (describeLockConflict (mkConflict f r (ownerSessionId e) (lockType e)))), w).
Proof.
  intros Hen He Hne. unfold acquireRecordLock, tryAcquire. rewrite Hen. cbn [negb].
  unfold lockingEnabled in Hen. apply andb_true_iff in Hen as [_ Hs]. unfold lock_lookup in He.
  unfold isValidKey in *. rewrite Hs. destruct (str_empty f); [done|]. destruct (str_empty r); [done|].
  cbn [negb orb] in *. destruct (locks w !! f) as [recs|] eqn:Ef; [|done]. cbn [default from_option].
  unfold default, from_option, id. rewrite He, decide_False by done. f_equal.
  destruct w as [d t c]. unfold set_locks. cbn in *. by rewrite (insert_id t f recs Ef).
Qed.

(** On a file that is there, the refusal names the holder of the lock. *)
Section locked_record.
Context (host : HostFs) (Hhost : healthy host) (fs : FileSystem) (f r : string) (w : World) (e : LockEntry).
Context (Hf : isValidName f = true) (Hr : isValidName r = true) (Hd : is_Some (dir_entries (disk w) (root fs, f))).
Context (Hen : lockingEnabled fs = true) (He : lock_lookup f r (locks w) = Some e) (Hne : ownerSessionId e ≠ lockSessionId fs).
#[local] Set Default Proof Using "Type*".

Abbreviation conflict := (FileSystemError (describeLockConflict (mkConflict f r (ownerSessionId e) (lockType e)))).

Lemma read_locked : read host fs f r w = (Throw conflict, w).
Proof.
  destruct Hd as [es Hes]. unfold read. rewrite (proc_bind_ok _ _ _ _ _ (openFile_healthy Hhost fs f w es Hf Hes)).
  unfold readRecord, isValidRecordName. rewrite Hr. cbn [negb h_name open_handle]. unfold mbind, proc_bind.
  by rewrite (assert_locked fs f r w e Hen He Hne).
Qed.

Lemma write_locked t : write host fs f (makeRecord r t) w = (Throw conflict, w).
Proof.
  destruct Hd as [es Hes]. unfold write. rewrite (proc_bind_ok _ _ _ _ _ (openFile_healthy Hhost fs f w es Hf Hes)).
  unfold writeRecord, isValidRecordName. cbn [name makeRecord]. rewrite Hr. cbn [negb h_name open_handle]. unfold mbind, proc_bind.
  by rewrite (assert_locked fs f r w e Hen He Hne).
Qed.

Lemma readU_locked : readU host fs f r w = (Throw conflict, w).
Proof. unfold readU, mbind, proc_bind. by rewrite (acquire_locked fs f r w e ReadU Hen He Hne). Qed.

Lemma writeU_locked t : writeU host fs f (makeRecord r t) w = (Throw conflict, w).
Proof. unfold writeU, mbind, proc_bind. cbn [name makeRecord]. by rewrite (acquire_locked fs f r w e WriteU Hen He Hne). Qed.
End locked_record.

(** C6. While another session holds a record's lock, every operation of a
    session on that record (reading, writing, deleting, locking reads and
    writes, attribute and subvalue access) ends in a [FileSystemError] and
    changes neither the disk nor the lock table. *)
Theorem lock_excludes_others host fs f r w e op :
  lockingEnabled fs = true → lock_lookup f r (locks w) = Some e → ownerSessionId e ≠ lockSessionId fs →
  refused (run_record_op host fs f r op) w.
Proof.
  intros Hen He Hne. pose proof (assert_locked fs f r w e Hen He Hne) as Has.
  assert (Hread : refused (read host fs f r) w).
  { apply open_then_refused. unfold readRecord. destruct (isValidRecordName r); [|by eexists].
    apply refused_bind. by eexists. }
  assert (Hwrite : ∀ t, refused (write host fs f (makeRecord r t)) w).
  { intros t. apply open_then_refused. unfold writeRecord. cbn [name makeRecord].
    destruct (isValidRecordName r); [|by eexists]. apply refused_bind. by eexists. }
  assert (Hacq : ∀ ty, refused (acquireRecordLock fs f r ty) w).
  { intros ty. eexists. by eapply acquire_locked. }
  destruct op; cbn [run_record_op];
    unfold readU, writeU, readAttributeValue, readSubvalue, writeAttributeValue, writeSubvalue.
  - by apply refused_bind.
  - apply Hwrite.
  - apply refused_bind, refused_bind, Hacq.
  - apply refused_bind, Hacq.
  - apply open_then_refused. unfold deleteRecord. destruct (isValidRecordName r); [|by eexists].
    apply refused_bind. by eexists.
  - by apply refused_bind, refused_bind.
  - by apply refused_bind, refused_bind.
  - by apply refused_bind.
  - destruct (i <=? 0); [by eexists|]. by apply refused_bind.
Qed.

Lemma lock_excludes_others_witness : refused (run_record_op ex_host (ex_fs "B") "F" "X" (RWrite "z")) ex_world.
Proof.
  apply (lock_excludes_others ex_host (ex_fs "B") "F" "X" ex_world (mkEntry "A" ReadU 0)); by vm_compute.
Defined.

(** *** READNEXT *)

(** The records of a directory: valid names with a file of a known extension. *)
Definition is_record (es : gmap string entry) (r : string) : Prop :=
  isValidName r = true ∧ ∃ ext c, ext ∈ known_exts ∧ es !! (r +:+ ext) = Some (EFile c).

Lemma split_last_dot_app n s : no_char "." s = true →
  split_last_dot (n +:+ String "." s) = Some (n, String "." s).
Proof.
  intros Hs. induction n as [|c n IH].
  - rewrite str_app_nil_l. cbn. assert (split_last_dot s = None) as ->; [|done].
    induction s as [|c s IH]; [done|]. cbn in *. apply andb_true_iff in Hs as [Hc Hs].
    rewrite IH by done. by destruct (Ascii.eqb c ".").
  - rewrite str_app_cons. cbn. by rewrite IH.
Qed.

Lemma split_last_dot_join s l r : split_last_dot s = Some (l, r) → s = l +:+ r.
Proof.
  revert l r. induction s as [|c s IH]; intros l r; cbn; [done|].
  destruct (split_last_dot s) as [[l' r']|]; [intros [= <- <-]; cbn; by rewrite (IH _ _ eq_refl)|].
  destruct (Ascii.eqb c "."); [by intros [= <- <-]|done].
Qed.

Lemma record_name_of_spec file r :
  record_name_of file = Some r ↔ isValidName r = true ∧ ∃ ext, ext ∈ known_exts ∧ file = r +:+ ext.
Proof.
  unfold record_name_of, isValidRecordName. split.
  - destruct (stem_extension file) as [st ext] eqn:E.
    destruct (isKnownRecordExtension ext) eqn:Hk; [|done]. destruct (isValidName st) eqn:Hv; [|done].
    intros [= <-]. split; [done|]. exists ext. split.
    + unfold isKnownRecordExtension in Hk. unfold known_exts. rewrite !orb_true_iff, !String.eqb_eq in Hk. set_solver.
    + unfold stem_extension in E. destruct (_ || _); [by simplify_eq|].
      destruct (split_last_dot file) as [[[|c l] r]|] eqn:El; simplify_eq; try done.
      by apply split_last_dot_join in El.
  - intros (Hv & ext & Hext & ->). pose proof (valid_name_no_dot _ Hv) as Hd.
    destruct (known_ext_cases ext Hext) as (s & -> & Hs).
    assert (stem_extension (r +:+ String "." s) = (r, String "." s)) as ->.
    { unfold stem_extension. rewrite split_last_dot_app by done.
      destruct r as [|c r]; [done|]. cbn in Hd. apply andb_true_iff in Hd as [Hc _].
      rewrite str_app_cons. cbn [String.eqb]. apply negb_true_iff in Hc. by rewrite Hc. }
    rewrite Hv. unfold known_exts in Hext. rewrite !elem_of_cons, elem_of_nil in Hext.
    by destruct Hext as [->|[->|[->|[]]]].
Qed.

Lemma elem_of_omap_records es r :
  r ∈ omap record_name_of (regular_files es) ↔ is_record es r.
Proof.
  unfold regular_files, is_record. rewrite list_elem_of_omap. split.
  - intros (file & Hin & (Hv & ext & Hext & ->)%record_name_of_spec). split; [done|].
    apply list_elem_of_omap in Hin as ([k e] & Hin%elem_of_map_to_list & He). cbn in He.
    destruct e as [c|]; [|done]. simplify_eq. by exists ext, c.
  - intros (Hv & ext & c & Hext & Hc). exists (r +:+ ext). split; [|by apply record_name_of_spec; eauto].
    apply list_elem_of_omap. exists (r +:+ ext, EFile c). by rewrite elem_of_map_to_list.
Qed.

(** Calling READNEXT on a handle, in the worlds that the calls find. *)
Fixpoint run_readNext (host : HostFs) (h : FileHandle) (ws : list World) : list (outcome string) :=
  match ws with
  | [] => []
  | w :: ws' => match (readNextRecord host h w).1 with
                | Ok (o, h') => o :: run_readNext host h' ws'
                | _ => []
                end
  end.

Lemma run_readNext_primed host h ws : cursorPrimed h = true →
  run_readNext host h ws =
    take (length ws) ((Ok <$> drop (cursorIndex h) (recordIds h)) ++
                      replicate (length ws) (Throw (FileSystemError "cursor exhausted"))).
Proof.
  revert h. induction ws as [|w ws IH]; intros h Hp; [done|].
  cbn [run_readNext length]. unfold readNextRecord. rewrite Hp.
  unfold mret, proc_ret, mbind, proc_bind.
  destruct (recordIds h !! cursorIndex h) as [r|] eqn:E.
  - rewrite (drop_S _ _ _ E). cbn. f_equal. rewrite IH by done. cbn [recordIds cursorIndex].
    rewrite !take_app. f_equal.
    change (Throw (FileSystemError "cursor exhausted") :: replicate (length ws) (Throw (FileSystemError "cursor exhausted")))
      with (replicate (A:=outcome string) (S (length ws)) (Throw (FileSystemError "cursor exhausted"))).
    rewrite !take_replicate. f_equal. lia.
  - apply lookup_ge_None in E. cbn [fst]. rewrite IH by done. rewrite !drop_ge by done. done.
Qed.

(** READNEXT on an opened or reset handle: the calls return the ids of the
    records that are in the directory at the first call, each once, in
    increasing order, and every further call throws "cursor exhausted" --
    whatever other operations do to the disk between the calls. *)
Theorem readNext_enumerates host h w ws es :
  faults host (HIterate (dir_path (directoryPath h))) = false →
  dir_entries (disk w) (directoryPath h) = Some es →
  ∃ ids, StronglySorted str_lt ids ∧ (∀ r, r ∈ ids ↔ is_record es r) ∧
    run_readNext host (resetReadNextCursor h) (w :: ws) =
      take (S (length ws)) ((Ok <$> ids) ++
        replicate (S (length ws)) (Throw (FileSystemError "cursor exhausted"))).
Proof.
  intros Hf Hd. exists (sorted_unique (omap record_name_of (regular_files es))).
  destruct (sorted_unique_spec (omap record_name_of (regular_files es))) as [Hs Hin].
  split; [done|]. split; [intros r; by rewrite Hin, elem_of_omap_records|].
  set (ids := sorted_unique _).
  transitivity (run_readNext host (mkHandle (h_name h) (directoryPath h) ids 0 true) (w :: ws));
    [|by rewrite run_readNext_primed].
  cbn [run_readNext]. unfold readNextRecord, resetReadNextCursor, listRecords, mret, proc_ret, mbind, proc_bind.
  cbn [cursorPrimed directoryPath h_name]. rewrite Hf, Hd. fold ids. cbn [recordIds cursorIndex].
  by destruct (ids !! 0%nat).
Qed.

Lemma readNext_enumerates_witness : ∃ ids, (∀ r, r ∈ ids ↔ is_record ex_entries r) ∧
  run_readNext ex_host (resetReadNextCursor (open_handle (ex_fs "A") "F")) [ex_world; ex_world; ex_world] =
    take 3 ((Ok <$> ids) ++ replicate 3 (Throw (FileSystemError "cursor exhausted"))).
Proof.
  destruct (readNext_enumerates ex_host (open_handle (ex_fs "A") "F") ex_world [ex_world; ex_world] ex_entries
    eq_refl eq_refl) as (ids & _ & H1 & H2). exists ids. split; [exact H1|exact H2].
Defined.

(** *** Attributes and subvalues *)

(** The attributes after writing number [k] of a record with attributes [l]: a
    write past the end does not keep its number, since the body has one line per
    stored attribute. *)
Definition attributes_after (l : list string) (k : Z) (v : string) : list string :=
  if k <=? 0 then l
  else if k <=? Z.of_nat (length l) then <[Z.to_nat (k - 1) := v]> l else l ++ [v].

Lemma toRaw_setAttribute l k v :
  toRaw (setAttribute (enumerate 1 (mkAttr <$> l)) k (mkAttr v)) = str_join NL (attributes_after l k v).
Proof.
  unfold setAttribute, attributes_after. destruct (Z.leb_spec k 0).
  { by rewrite toRaw_enumerate, raw_mkAttr. }
  destruct (Z.leb_spec k (Z.of_nat (length l))).
  - rewrite map_set_enumerate by (rewrite length_fmap; lia). rewrite length_fmap.
    destruct (Z.eqb_spec k (1 + Z.of_nat (length l))); [lia|].
    rewrite toRaw_enumerate, <- list_fmap_insert, raw_mkAttr. done.
  - rewrite map_set_beyond by (rewrite length_fmap; lia).
    unfold toRaw. rewrite fmap_app, enumerate_snd. cbn. by rewrite fmap_app, raw_mkAttr.
Qed.

Lemma attribute_of_join l k : Forall (λ l, no_char NL l = true) l →
  raw (attribute (fromRaw (str_join NL l)) k) = if k <=? 0 then "" else default "" (l !! Z.to_nat (k - 1)).
Proof.
  intros Hl. destruct (Z.leb_spec k 0) as [Hk|Hk].
  { unfold attribute. by rewrite (proj2 (Z.leb_le k 0)). }
  destruct (decide (l = [""])) as [->|Hne].
  - change (fromRaw (str_join NL [""])) with (@nil (Z * RecordAttribute)). unfold attribute.
    rewrite (proj2 (Z.leb_gt k 0)) by lia. cbn.
    by destruct (Z.to_nat (k - 1)).
  - rewrite fromRaw_join, attribute_enumerate, list_lookup_fmap by (done || lia).
    by destruct (l !! _).
Qed.

Lemma attributes_after_no_newline l k v : Forall (λ l, no_char NL l = true) l → no_char NL v = true →
  Forall (λ l, no_char NL l = true) (attributes_after l k v).
Proof.
  intros Hl Hv. unfold attributes_after. destruct (k <=? 0); [done|]. destruct (k <=? _).
  - by apply Forall_insert.
  - apply Forall_app. by split; [|constructor].
Qed.

(** The text a session reads for a record: absent records are empty. *)
Definition record_body (es : gmap string entry) (f r : string) : string :=
  match pick es r (candidates f) ≫= λ t, es !! t with Some (EFile c) => c | _ => "" end.

Lemma existing_body (host : HostFs) fs f r w es : healthy host →
  isValidName f = true → isValidName r = true →
  dir_entries (disk w) (root fs, f) = Some es → (∀ k, es !! k ≠ Some EOther) → accessible fs f r w →
  ∃ rec, read host fs f r w = (Ok rec, w) ∧ existing_structured rec = fromRaw (record_body es f r).
Proof.
  intros Hh Hf Hr Hd Hreg Ha. rewrite (read_healthy Hh fs f r w es) by done. unfold record_body.
  destruct (pick es r (candidates f)) as [t|] eqn:E; [|by eexists].
  cbn [mbind option_bind]. assert (is_Some (es !! t)) as [e He].
  { clear -E. induction (candidates f) as [|x exts IH]; cbn in E; [done|].
    destruct (es !! (r +:+ x)) eqn:Ex; [naive_solver|auto]. }
  rewrite He. destruct e as [c|]; [|by destruct (Hreg t)].
  eexists. split; [done|]. cbn. by rewrite toRaw_fromRaw.
Qed.

(** Replacing one attribute of a record, through the store. *)
Lemma update_attribute (host : HostFs) fs f r k v w es : healthy host →
  isValidName f = true → isValidName r = true →
  dir_entries (disk w) (root fs, f) = Some es → (∀ k, es !! k ≠ Some EOther) → accessible fs f r w →
  let l := raw_lines (record_body es f r) in
  ∃ w', write host fs f (makeRecord r (toRaw (setAttribute (fromRaw (record_body es f r)) k (mkAttr v)))) w
          = (Ok tt, w') ∧
    read host fs f r w' = (Ok (Some (makeRecord r (str_join NL (attributes_after l k v)))), w').
Proof.
  intros Hh Hf Hr Hd Hreg Ha l.
  assert (toRaw (setAttribute (fromRaw (record_body es f r)) k (mkAttr v)) = str_join NL (attributes_after l k v)) as ->
    by (rewrite fromRaw_lines; apply toRaw_setAttribute).
  destruct (write_healthy Hh fs f (makeRecord r (str_join NL (attributes_after l k v))) w es Hf Hr Hd Ha Hreg)
    as (w' & Hw & Hl & Hd' & _).
  exists w'. split; [done|]. cbn [name makeRecord value] in Hd'. rewrite toRaw_fromRaw in Hd'.
  rewrite (read_healthy Hh fs f r w' _ Hf Hr Hd') by (unfold accessible in *; by rewrite Hl).
  destruct (target_candidate es f r) as (ext & Hext%candidates_known & Ht).
  rewrite (pick_target es _ f r (EFile (str_join NL (attributes_after l k v)))).
  - by rewrite lookup_insert_eq.
  - intros x Hx Hne. rewrite Ht in Hne |- *.
    rewrite written_lookup by (done || by apply valid_name_no_dot). by rewrite decide_False.
  - by rewrite lookup_insert_eq.
Qed.

(** Writing attribute [k] of a record (existing or not) with a value that
    holds no newline succeeds, and then reading attribute [j] gives the [j]th of
    the old attributes with the [k]th replaced.  A write past the end, whatever
    its number, becomes the attribute just after the last one. *)
Theorem writeAttributeValue_correct (host : HostFs) fs f r k v w es : healthy host →
  isValidName f = true → isValidName r = true →
  dir_entries (disk w) (root fs, f) = Some es → (∀ k, es !! k ≠ Some EOther) → accessible fs f r w →
  no_char NL v = true →
  ∃ w', writeAttributeValue host fs f r k v w = (Ok tt, w') ∧
    ∀ j, 0 < j → readAttributeValue host fs f r j w' =
      (Ok (Some (default "" (attributes_after (raw_lines (record_body es f r)) k v !! Z.to_nat (j - 1)))), w').
Proof.
  intros Hh Hf Hr Hd Hreg Ha Hv.
  destruct (existing_body host fs f r w es Hh Hf Hr Hd Hreg Ha) as (rec & Hrec & Hs).
  destruct (update_attribute host fs f r k v w es Hh Hf Hr Hd Hreg Ha) as (w' & Hw & Hread).
  exists w'. split.
  - unfold writeAttributeValue. rewrite (proc_bind_ok _ _ _ _ _ Hrec). by rewrite Hs.
  - intros j Hj. unfold readAttributeValue. rewrite (proc_bind_ok _ _ _ _ _ Hread).
    cbn [fmap option_fmap option_map makeRecord value]. unfold mret, proc_ret. rewrite toRaw_fromRaw.
    rewrite attribute_of_join by (apply attributes_after_no_newline; [apply raw_lines_no_newline|done]).
    by rewrite (proj2 (Z.leb_gt j 0)) by lia.
Qed.

(** Attribute 5 of a record that has one attribute is read back as attribute 2. *)
Lemma writeAttributeValue_correct_witness :
  ∃ w', writeAttributeValue ex_host (ex_fs "A") "F" "Y" 5 "v" ex_world = (Ok tt, w') ∧
    readAttributeValue ex_host (ex_fs "A") "F" "Y" 5 w' = (Ok (Some ""), w') ∧
    readAttributeValue ex_host (ex_fs "A") "F" "Y" 2 w' = (Ok (Some "v"), w').
Proof.
  destruct (writeAttributeValue_correct ex_host (ex_fs "A") "F" "Y" 5 "v" ex_world ex_entries ex_healthy
    eq_refl eq_refl eq_refl ex_regular) as (w' & H1 & H2);
    [intros _ e He; by vm_compute in He|reflexivity|]. exists w'. split; [exact H1|].
  split; [exact (H2 5 eq_refl)|exact (H2 2 eq_refl)].
Defined.

Lemma put_value_lookup l n v j : l ≠ [] → (0 < n)%nat → (0 < j)%nat →
  default "" (put_value l n v !! (j - 1)%nat) = if decide (j = n) then v else default "" (l !! (j - 1)%nat).
Proof.
  intros Hl Hn Hj. unfold put_value. destruct l as [|a l]; [done|]. set (l' := a :: l).
  destruct (decide (j = n)) as [->|Hne].
  - rewrite list_lookup_insert_eq; [done|]. rewrite length_app, length_replicate. lia.
  - rewrite list_lookup_insert_ne by lia. destruct (decide (j - 1 < length l')%nat).
    + by rewrite lookup_app_l.
    + rewrite lookup_app_r by lia. rewrite (lookup_ge_None_2 l') by lia.
      destruct (replicate _ _ !! _) eqn:E; [|done]. by apply lookup_replicate in E as [-> _].
Qed.

Lemma no_char_str_join d c l : Ascii.eqb d c = false → Forall (λ v, no_char c v = true) l →
  no_char c (str_join d l) = true.
Proof.
  intros Hd. induction 1 as [|v l Hv Hl IH]; [done|]. destruct l as [|v' l]; [done|].
  rewrite str_join_cons by done. unfold no_char in *. rewrite str_forall_app, Hv. cbn -[str_join]. by rewrite Hd, IH.
Qed.

Lemma splitValues_no_newline s : no_char NL s = true → ∀ cur, no_char NL cur = true →
  Forall (λ v, no_char NL v = true) (splitValues_loop cur s).
Proof.
  induction s as [|c s IH]; cbn; intros Hs cur Hc; [by constructor|].
  apply andb_true_iff in Hs as [H1 H2]. destruct (Ascii.eqb c kValueMark); [constructor; auto|].
  apply IH; [done|]. unfold no_char in *. rewrite str_forall_app, Hc. cbn. by rewrite H1.
Qed.

Lemma put_value_Forall (P : string → Prop) l n v : P "" → P v → Forall P l → Forall P (put_value l n v).
Proof.
  intros H0 Hv Hl. unfold put_value. apply Forall_insert; [|done]. apply Forall_app. split.
  - destruct l; [by constructor|done].
  - by apply Forall_replicate.
Qed.

(** Writing value [i] of attribute [k] (an attribute of the record, or the
    next one) with a text free of value marks and newlines succeeds; then value
    [i] reads back as that text and every other value of the attribute reads as
    before, the values between the old last one and [i] being empty. *)
Theorem writeSubvalue_correct (host : HostFs) fs f r k i v w es : healthy host →
  isValidName f = true → isValidName r = true →
  dir_entries (disk w) (root fs, f) = Some es → (∀ k, es !! k ≠ Some EOther) → accessible fs f r w →
  1 ≤ k ≤ Z.of_nat (length (raw_lines (record_body es f r))) + 1 → 1 ≤ i →
  no_char NL v = true → no_char kValueMark v = true →
  ∃ w', writeSubvalue host fs f r k i v w = (Ok tt, w') ∧
    ∀ j, 1 ≤ j → readSubvalue host fs f r k j w' =
      (Ok (Some (if j =? i then v else valueAt (attribute (fromRaw (record_body es f r)) k) j)), w').
Proof.
  intros Hh Hf Hr Hd Hreg Ha Hk Hi Hv Hm.
  destruct (existing_body host fs f r w es Hh Hf Hr Hd Hreg Ha) as (rec & Hrec & Hs).
  set (old := attribute (fromRaw (record_body es f r)) k).
  set (vals := put_value (splitValues old) (Z.to_nat i) v).
  destruct (update_attribute host fs f r k (joinValues vals) w es Hh Hf Hr Hd Hreg Ha) as (w' & Hw & Hread).
  set (l := raw_lines (record_body es f r)) in *.
  pose proof (raw_lines_no_newline (record_body es f r)) as Hl. fold l in Hl.
  assert (no_char NL (raw old) = true) as Hold.
  { unfold old. rewrite <- (join_raw_lines (record_body es f r)). fold l. rewrite attribute_of_join by done.
    destruct (k <=? 0); [done|]. destruct (l !! Z.to_nat (k - 1)) eqn:E; [|done].
    rewrite Forall_lookup in Hl. by eapply Hl. }
  assert (Forall (λ v, no_char NL v = true) vals) as Hnl
    by (apply put_value_Forall; [done|done|by apply splitValues_no_newline]).
  assert (Forall (λ v, no_char kValueMark v = true) vals) as Hvm
    by (apply put_value_Forall; [done|done|apply splitValues_no_mark]).
  exists w'. split.
  - unfold writeSubvalue. rewrite (proj2 (Z.leb_gt i 0)) by lia. rewrite (proc_bind_ok _ _ _ _ _ Hrec).
    rewrite Hs. exact Hw.
  - intros j Hj. unfold readSubvalue. rewrite (proc_bind_ok _ _ _ _ _ Hread).
    cbn [fmap option_fmap option_map makeRecord value]. unfold mret, proc_ret. rewrite toRaw_fromRaw.
    do 3 f_equal.
    assert (raw (attribute (fromRaw (str_join NL (attributes_after l k (joinValues vals)))) k) = joinValues vals) as Hraw.
    { rewrite attribute_of_join by (apply attributes_after_no_newline; [done|by apply no_char_str_join]).
      rewrite (proj2 (Z.leb_gt k 0)) by lia. unfold attributes_after. rewrite (proj2 (Z.leb_gt k 0)) by lia.
      destruct (Z.leb_spec k (Z.of_nat (length l))).
      - by rewrite list_lookup_insert_eq by lia.
      - rewrite lookup_app_r by lia. by replace (Z.to_nat (k - 1) - length l)%nat with 0%nat by lia. }
    destruct (attribute _ k) as [t] in Hraw |- *. cbn in Hraw. subst t.
    unfold valueAt. rewrite (proj2 (Z.leb_gt j 0)) by lia.
    assert (vals ≠ []) as Hne.
    { intros He. apply (f_equal length) in He. unfold vals, put_value in He.
      rewrite length_insert, length_app in He. destruct (splitValues old); cbn in He; lia. }
    rewrite splitValues_joinValues by done.
    pose proof (put_value_lookup (splitValues old) (Z.to_nat i) v (Z.to_nat j)
      (splitValues_loop_nonempty _ _) ltac:(lia) ltac:(lia)) as Hp.
    fold vals in Hp. replace (Z.to_nat j - 1)%nat with (Z.to_nat (j - 1)) in Hp by lia.
    destruct (Z.eqb_spec j i) as [->|Hji]; [rewrite decide_True in Hp by done|rewrite decide_False in Hp by lia];
      unfold default, from_option, id in Hp; exact Hp.
Qed.

Lemma writeSubvalue_correct_witness :
  ∃ w', writeSubvalue ex_host (ex_fs "A") "F" "Y" 1 3 "v" ex_world = (Ok tt, w') ∧
    readSubvalue ex_host (ex_fs "A") "F" "Y" 1 3 w' = (Ok (Some "v"), w') ∧
    readSubvalue ex_host (ex_fs "A") "F" "Y" 1 1 w' = (Ok (Some "y"), w').
Proof.
  destruct (writeSubvalue_correct ex_host (ex_fs "A") "F" "Y" 1 3 "v" ex_world ex_entries ex_healthy
    eq_refl eq_refl eq_refl ex_regular) as (w' & H1 & H2);
    [intros _ e He; by vm_compute in He|vm_compute; done|done|reflexivity|reflexivity|].
  exists w'. split; [exact H1|]. split; [exact (H2 3 ltac:(done))|exact (H2 1 ltac:(done))].
Defined.
