(* ===== verification/Ipc.v ===== *)
(** * The daemon's wire protocol

    [src/core/daemon/DaemonIpcProtocol.h] and [.cpp]: frames, the payload codecs,
    blocking and non-blocking reading of frames from a stream socket.  A byte is
    a [Z] of 0..255; a socket is the sequence of results that its [read] or
    [write] calls give. *)

From Stdlib Require Import Ascii String.
From S2P Require Import Prelude CLib.
From stdpp Require Import options.
Local Open Scope Z_scope.

Abbreviation bytes := (list Z).

(* src/core/daemon/DaemonIpcProtocol.h:40-40 [kDaemonIpcProtocolVersion] *)
Definition kDaemonIpcProtocolVersion : Z := 1.
(* src/core/daemon/DaemonIpcProtocol.h:41-41 [kDaemonIpcMaxPayloadSize] *)
Definition kDaemonIpcMaxPayloadSize : Z := 65536.
(* src/core/daemon/DaemonIpcProtocol.h:42-42 [kDaemonIpcMaxSessionDataSize] *)
Definition kDaemonIpcMaxSessionDataSize : Z := kDaemonIpcMaxPayloadSize - 4.
(* src/core/daemon/DaemonIpcProtocol.h:43-43 [kDaemonIpcMagic] *)
Definition kDaemonIpcMagic : bytes := [71; 69; 77; 73].

(** The enumerations have a fixed underlying type and are read from the wire by a
    cast, so any value of that type can occur: the named ones are these. *)
Module MessageType.
(* src/core/daemon/DaemonIpcProtocol.h:45-62 [DaemonIpcMessageType] *)
Inductive DaemonIpcMessageType :=
| Handshake | HandshakeAck | Ping | Pong | ShutdownRequest | ShutdownAck | ReserveSession
| ReserveSessionAck | Error | AttachSession | AttachSessionAck | DetachSession | DetachSessionAck
| SessionInput | SessionOutput | SessionDiagnostic.

Definition to_Z (m : DaemonIpcMessageType) : Z :=
  match m with
  | Handshake => 1 | HandshakeAck => 2 | Ping => 3 | Pong => 4 | ShutdownRequest => 5 | ShutdownAck => 6
  | ReserveSession => 7 | ReserveSessionAck => 8 | Error => 9 | AttachSession => 10 | AttachSessionAck => 11
  | DetachSession => 12 | DetachSessionAck => 13 | SessionInput => 14 | SessionOutput => 15
  | SessionDiagnostic => 16
  end.
End MessageType.

Module ErrorCode.
(* src/core/daemon/DaemonIpcProtocol.h:64-72 [DaemonIpcErrorCode] *)
Inductive DaemonIpcErrorCode :=
| UnsupportedVersion | InvalidMessage | SessionTableFull | NotHandshaken | SessionNotFound
| SessionAlreadyBound | NotAttached.

Definition to_Z (c : DaemonIpcErrorCode) : Z :=
  match c with
  | UnsupportedVersion => 1 | InvalidMessage => 2 | SessionTableFull => 3 | NotHandshaken => 4
  | SessionNotFound => 5 | SessionAlreadyBound => 6 | NotAttached => 7
  end.
End ErrorCode.

(* src/core/daemon/DaemonIpcProtocol.h:74-78 [DaemonIpcFrame] *)
Record DaemonIpcFrame := mkFrame { version : Z; ftype : Z; payload : bytes }.

(* src/core/daemon/DaemonIpcProtocol.h:111-116 [DaemonIpcTryReadStatus] *)
Inductive DaemonIpcTryReadStatus := Incomplete | FrameReady | ConnectionClosed | ProtocolError.

(* src/core/daemon/DaemonIpcProtocol.h:118-121 [DaemonIpcTryReadResult] *)
Record DaemonIpcTryReadResult := mkResult { status : DaemonIpcTryReadStatus; frame : option DaemonIpcFrame }.

(** [data[i]] and [data + i] on a buffer whose size the caller has checked. *)
Definition byte_at (i : nat) (data : bytes) : Z := default 0 (data !! i).
Definition size (data : bytes) : Z := Z.of_nat (length data).

(* src/core/daemon/DaemonIpcProtocol.cpp:11-13 [readU16] *)
Definition readU16 (data : bytes) : Z :=
  Z.land (Z.lor (Z.shiftl (byte_at 0 data) 8) (byte_at 1 data)) 65535.

(* src/core/daemon/DaemonIpcProtocol.cpp:15-18 [readU32] *)
Definition readU32 (data : bytes) : Z :=
  Z.lor (Z.lor (Z.lor (wrap32 (Z.shiftl (byte_at 0 data) 24)) (wrap32 (Z.shiftl (byte_at 1 data) 16)))
               (wrap32 (Z.shiftl (byte_at 2 data) 8))) (byte_at 3 data).

(* src/core/daemon/DaemonIpcProtocol.cpp:20-23 [writeU16] *)
Definition writeU16 (v : Z) : bytes := [Z.land (Z.shiftr v 8) 255; Z.land v 255].

(* src/core/daemon/DaemonIpcProtocol.cpp:25-30 [writeU32] *)
Definition writeU32 (v : Z) : bytes :=
  [Z.land (Z.shiftr v 24) 255; Z.land (Z.shiftr v 16) 255; Z.land (Z.shiftr v 8) 255; Z.land v 255].

(* src/core/daemon/DaemonIpcProtocol.cpp:32-35 [magicMatches] *)
Definition magicMatches (magic : bytes) : bool := bool_decide (take 4 magic = kDaemonIpcMagic).

(* src/core/daemon/DaemonIpcProtocol.cpp:37-40 [magicMatchesBuffer] *)
Definition magicMatchesBuffer (b : bytes) : bool :=
  (4 <=? size b) && bool_decide (take 4 b = kDaemonIpcMagic).

(* src/core/daemon/DaemonIpcProtocol.cpp:42-58 [completeFrameLength] *)
Definition completeFrameLength (b : bytes) : option Z :=
  if size b <? 12 then None
  else if negb (magicMatchesBuffer b) then Some 0
  else
    let payloadLen := readU32 (drop 8 b) in
    if kDaemonIpcMaxPayloadSize <? payloadLen then Some 0
    else
      let total := 12 + payloadLen in
      if size b <? total then None else Some total.

(** ** System calls

    What successive [read] calls on a descriptor find: bytes that have arrived
    (a call takes at most as many as it asks for, the rest stays), the end of
    the stream, [EAGAIN], or another error.  Nothing more is the end of the
    stream. *)
Inductive read_event := RData (b : bytes) | REof | RAgain | RError.
Abbreviation fd := (list read_event).

Inductive read_answer := AData (b : bytes) | AEof | AAgain | AError.

Definition sys_read (n : nat) (f : fd) : read_answer * fd :=
  match f with
  | [] => (AEof, [])
  | RData b :: f' =>
      match take n b with
      | [] => (AEof, f')
      | got => (AData got, match drop n b with [] => f' | rest => RData rest :: f' end)
      end
  | REof :: f' => (AEof, f')
  | RAgain :: f' => (AAgain, f')
  | RError :: f' => (AError, f')
  end.

(** The loop: every round takes at least one byte, so [remaining] rounds are
    enough.  [None] is the answer [false]. *)
Fixpoint readExact_loop (rounds : nat) (remaining : nat) (f : fd) : option bytes * fd :=
  match remaining with
  | O => (Some [], f)
  | _ =>
      match rounds with
      | O => (None, f)
      | S rounds' =>
          match sys_read remaining f with
          | (AData got, f') =>
              let '(more, f'') := readExact_loop rounds' (remaining - length got) f' in
              ((λ m, got ++ m) <$> more, f'')
          | (_, f') => (None, f')
          end
      end
  end.

(* src/core/daemon/DaemonIpcProtocol.cpp:61-76 [readExact] *)
Definition readExact (len : nat) (f : fd) : option bytes * fd := readExact_loop len len f.

(** The results of successive [write] calls: how many bytes were taken (zero or
    less is an error).  The answer, and what reached the peer. *)
Fixpoint writeExact_loop (b : bytes) (results : list Z) : bool * bytes :=
  match b, results with
  | [], _ => (true, [])
  | _, [] => (false, [])
  | _, n :: results' =>
      if n <=? 0 then (false, [])
      else
        let '(ok, sent) := writeExact_loop (drop (Z.to_nat n) b) results' in
        (ok, take (Z.to_nat n) b ++ sent)
  end.

(* src/core/daemon/DaemonIpcProtocol.cpp:78-93 [writeExact] *)
Definition writeExact (b : bytes) (results : list Z) : bool * bytes := writeExact_loop b results.

(** ** Frames *)

(* src/core/daemon/DaemonIpcProtocol.cpp:95-104 [encodeDaemonIpcFrame] *)
Definition encodeDaemonIpcFrame (fr : DaemonIpcFrame) : bytes :=
  kDaemonIpcMagic ++ writeU16 (version fr) ++ writeU16 (ftype fr) ++
  writeU32 (wrap32 (size (payload fr))) ++ payload fr.

(** [12 + payloadLen] is computed in 32 bits; with [payloadLen] at most 65536 it
    does not wrap. *)
(* src/core/daemon/DaemonIpcProtocol.cpp:106-124 [decodeDaemonIpcFrame] *)
Definition decodeDaemonIpcFrame (b : bytes) : option DaemonIpcFrame :=
  if size b <? 12 then None
  else if negb (bool_decide (take 4 b = kDaemonIpcMagic)) then None
  else
    let payloadLen := readU32 (drop 8 b) in
    if (kDaemonIpcMaxPayloadSize <? payloadLen) || (size b <? wrap32 (12 + payloadLen)) then None
    else Some (mkFrame (readU16 (drop 4 b)) (readU16 (drop 6 b)) (take (Z.to_nat payloadLen) (drop 12 b))).

(* src/core/daemon/DaemonIpcProtocol.cpp:126-153 [readDaemonIpcFrame] *)
Definition readDaemonIpcFrame (f : fd) : option DaemonIpcFrame * fd :=
  match readExact 4 f with
  | (None, f1) => (None, f1)
  | (Some magic, f1) =>
      if negb (magicMatches magic) then (None, f1)
      else match readExact 8 f1 with
           | (None, f2) => (None, f2)
           | (Some header, f2) =>
               let payloadLen := readU32 (drop 4 header) in
               if kDaemonIpcMaxPayloadSize <? payloadLen then (None, f2)
               else match readExact (Z.to_nat payloadLen) f2 with
                    | (None, f3) => (None, f3)
                    | (Some p, f3) => (Some (mkFrame (readU16 header) (readU16 (drop 2 header)) p), f3)
                    end
           end
  end.

(* src/core/daemon/DaemonIpcProtocol.cpp:155-158 [writeDaemonIpcFrame] *)
Definition writeDaemonIpcFrame (fr : DaemonIpcFrame) (results : list Z) : bool * bytes :=
  writeExact (encodeDaemonIpcFrame fr) results.

(** The reading loop of [tryReadDaemonIpcFrame], 4096 bytes at a time, up to
    [EAGAIN] ([inl]) or a final status ([inr]).  A round takes at least one byte
    or one event. *)
Fixpoint drain (rounds : nat) (f : fd) (buffer : bytes)
    : (bytes + DaemonIpcTryReadStatus * bytes) * fd :=
  match rounds with
  | O => (inr (Incomplete, buffer), f)
  | S rounds' =>
      match sys_read 4096 f with
      | (AEof, f') => (inr (if bool_decide (buffer = []) then ConnectionClosed else ProtocolError, buffer), f')
      | (AAgain, f') => (inl buffer, f')
      | (AError, f') => (inr (ConnectionClosed, buffer), f')
      | (AData got, f') => drain rounds' f' (buffer ++ got)
      end
  end.

Definition event_size (e : read_event) : nat := match e with RData b => S (length b) | _ => 1 end.
Definition drain_rounds (f : fd) : nat := S (sum_list_with event_size f).

(** The result, the buffer and the descriptor after the call. *)
(* src/core/daemon/DaemonIpcProtocol.cpp:160-202 [tryReadDaemonIpcFrame] *)
Definition tryReadDaemonIpcFrame (f : fd) (buffer : bytes) : DaemonIpcTryReadResult * bytes * fd :=
  match drain (drain_rounds f) f buffer with
  | (inr (st, buffer'), f') => (mkResult st None, buffer', f')
  | (inl buffer', f') =>
      match completeFrameLength buffer' with
      | None => (mkResult Incomplete None, buffer', f')
      | Some 0 => (mkResult ProtocolError None, buffer', f')
      | Some n =>
          let frameBytes := take (Z.to_nat n) buffer' in
          let rest := drop (Z.to_nat n) buffer' in
          match decodeDaemonIpcFrame frameBytes with
          | None => (mkResult ProtocolError None, rest, f')
          | Some fr => (mkResult FrameReady (Some fr), rest, f')
          end
      end
  end.

(** ** Payloads

    Text travels as its bytes. *)
Definition string_bytes (s : string) : bytes := code <$> list_ascii_of_string s.
Definition bytes_string (b : bytes) : string := string_of_list_ascii (chr <$> b).

(* src/core/daemon/DaemonIpcProtocol.h:80-82 [DaemonIpcHandshakePayload] *)
Record DaemonIpcHandshakePayload := mkHandshake { clientProtocolVersion : Z }.

(* src/core/daemon/DaemonIpcProtocol.h:84-88 [DaemonIpcHandshakeAckPayload] *)
Record DaemonIpcHandshakeAckPayload := mkHandshakeAck {
  serverProtocolVersion : Z;
  maxSessions : Z;
  buildVersion : string
}.

(* src/core/daemon/DaemonIpcProtocol.h:90-92 [DaemonIpcReserveSessionAckPayload] *)
Record DaemonIpcReserveSessionAckPayload := mkReserveAck { reservedPort : Z }.

(* src/core/daemon/DaemonIpcProtocol.h:94-96 [DaemonIpcAttachSessionPayload] *)
Record DaemonIpcAttachSessionPayload := mkAttach { requestedPort : Z }.

(* src/core/daemon/DaemonIpcProtocol.h:98-100 [DaemonIpcAttachSessionAckPayload] *)
Record DaemonIpcAttachSessionAckPayload := mkAttachAck { attachedPort : Z }.

(* src/core/daemon/DaemonIpcProtocol.h:102-104 [DaemonIpcSessionDataPayload] *)
Record DaemonIpcSessionDataPayload := mkData { data : bytes }.

(* src/core/daemon/DaemonIpcProtocol.h:106-109 [DaemonIpcErrorPayload] *)
Record DaemonIpcErrorPayload := mkError { ecode : Z; message : string }.

(* src/core/daemon/DaemonIpcProtocol.cpp:204-208 [encodeHandshakePayload] *)
Definition encodeHandshakePayload (p : DaemonIpcHandshakePayload) : bytes :=
  writeU16 (clientProtocolVersion p).

(* src/core/daemon/DaemonIpcProtocol.cpp:210-217 [decodeHandshakePayload] *)
Definition decodeHandshakePayload (b : bytes) : option DaemonIpcHandshakePayload :=
  if negb (size b =? 2) then None else Some (mkHandshake (readU16 b)).

(* src/core/daemon/DaemonIpcProtocol.cpp:219-226 [encodeHandshakeAckPayload] *)
Definition encodeHandshakeAckPayload (p : DaemonIpcHandshakeAckPayload) : bytes :=
  let text := string_bytes (buildVersion p) in
  writeU16 (serverProtocolVersion p) ++ writeU16 (maxSessions p) ++ writeU32 (wrap32 (size text)) ++ text.

(* src/core/daemon/DaemonIpcProtocol.cpp:228-241 [decodeHandshakeAckPayload] *)
Definition decodeHandshakeAckPayload (b : bytes) : option DaemonIpcHandshakeAckPayload :=
  if size b <? 8 then None
  else
    let versionLen := readU32 (drop 4 b) in
    if (kDaemonIpcMaxPayloadSize <? versionLen) || negb (size b =? wrap32 (8 + versionLen)) then None
    else Some (mkHandshakeAck (readU16 b) (readU16 (drop 2 b))
                 (bytes_string (take (Z.to_nat versionLen) (drop 8 b)))).

(* src/core/daemon/DaemonIpcProtocol.cpp:243-247 [encodeReserveSessionAckPayload] *)
Definition encodeReserveSessionAckPayload (p : DaemonIpcReserveSessionAckPayload) : bytes := writeU32 (reservedPort p).

(* src/core/daemon/DaemonIpcProtocol.cpp:250-257 [decodeReserveSessionAckPayload] *)
Definition decodeReserveSessionAckPayload (b : bytes) : option DaemonIpcReserveSessionAckPayload :=
  if negb (size b =? 4) then None else Some (mkReserveAck (readU32 b)).

(* src/core/daemon/DaemonIpcProtocol.cpp:259-265 [encodeErrorPayload] *)
Definition encodeErrorPayload (p : DaemonIpcErrorPayload) : bytes :=
  let text := string_bytes (message p) in
  writeU32 (ecode p) ++ writeU32 (wrap32 (size text)) ++ text.

(* src/core/daemon/DaemonIpcProtocol.cpp:267-279 [decodeErrorPayload] *)
Definition decodeErrorPayload (b : bytes) : option DaemonIpcErrorPayload :=
  if size b <? 8 then None
  else
    let messageLen := readU32 (drop 4 b) in
    if (kDaemonIpcMaxPayloadSize <? messageLen) || negb (size b =? wrap32 (8 + messageLen)) then None
    else Some (mkError (readU32 b) (bytes_string (take (Z.to_nat messageLen) (drop 8 b)))).

(* src/core/daemon/DaemonIpcProtocol.cpp:281-285 [encodeAttachSessionPayload] *)
Definition encodeAttachSessionPayload (p : DaemonIpcAttachSessionPayload) : bytes := writeU32 (requestedPort p).

(* src/core/daemon/DaemonIpcProtocol.cpp:287-294 [decodeAttachSessionPayload] *)
Definition decodeAttachSessionPayload (b : bytes) : option DaemonIpcAttachSessionPayload :=
  if negb (size b =? 4) then None else Some (mkAttach (readU32 b)).

(* src/core/daemon/DaemonIpcProtocol.cpp:296-300 [encodeAttachSessionAckPayload] *)
Definition encodeAttachSessionAckPayload (p : DaemonIpcAttachSessionAckPayload) : bytes := writeU32 (attachedPort p).

(* src/core/daemon/DaemonIpcProtocol.cpp:303-310 [decodeAttachSessionAckPayload] *)
Definition decodeAttachSessionAckPayload (b : bytes) : option DaemonIpcAttachSessionAckPayload :=
  if negb (size b =? 4) then None else Some (mkAttachAck (readU32 b)).

(* src/core/daemon/DaemonIpcProtocol.cpp:312-317 [encodeSessionDataPayload] *)
Definition encodeSessionDataPayload (p : DaemonIpcSessionDataPayload) : bytes :=
  writeU32 (wrap32 (size (data p))) ++ data p.

(* src/core/daemon/DaemonIpcProtocol.cpp:319-330 [decodeSessionDataPayload] *)
Definition decodeSessionDataPayload (b : bytes) : option DaemonIpcSessionDataPayload :=
  if size b <? 4 then None
  else
    let dataLen := readU32 b in
    if (kDaemonIpcMaxSessionDataSize <? dataLen) || negb (size b =? wrap32 (4 + dataLen)) then None
    else Some (mkData (take (Z.to_nat dataLen) (drop 4 b))).

(** ** Integers on the wire *)
Definition is_byte (z : Z) : Prop := 0 <= z < 256.

Lemma lor_shift_add a b k : 0 <= k → 0 <= b < 2 ^ k → Z.lor (Z.shiftl a k) b = a * 2 ^ k + b.
Proof.
  intros Hk Hb. set (x := Z.lor (Z.shiftl a k) b).
  assert (x / 2 ^ k = a) as Hd.
  { rewrite <- Z.shiftr_div_pow2 by done. unfold x. rewrite Z.shiftr_lor, Z.shiftr_shiftl_l by lia.
    rewrite Z.sub_diag, Z.shiftl_0_r, Z.shiftr_div_pow2, Z.div_small, Z.lor_0_r by lia. done. }
  assert (x mod 2 ^ k = b) as Hm.
  { rewrite <- Z.land_ones by done. unfold x. rewrite Z.land_lor_distr_l, !Z.land_ones by done.
    rewrite Z.shiftl_mul_pow2, Z.mod_mul, Z.lor_0_l, Z.mod_small by lia. done. }
  rewrite (Z.div_mod x (2 ^ k)) by lia. rewrite Hd, Hm. lia.
Qed.

Lemma land_255 v : Z.land v 255 = v mod 256.
Proof. change 255 with (Z.ones 8). by rewrite Z.land_ones. Qed.

Lemma readU16_value b : Forall is_byte b → (2 <= length b)%nat →
  readU16 b = byte_at 0 b * 256 + byte_at 1 b.
Proof.
  intros Hb Hl. destruct b as [|x [|y b]]; cbn in Hl; try lia.
  inversion_clear Hb as [|? ? Hx Hb']. inversion_clear Hb' as [|? ? Hy _]. unfold is_byte in *.
  unfold readU16, byte_at. cbn [lookup list_lookup default from_option id].
  change (default 0 (Some x)) with x. change (default 0 (Some y)) with y.
  rewrite lor_shift_add by lia. change 65535 with (Z.ones 16). rewrite Z.land_ones by lia.
  apply Z.mod_small. lia.
Qed.

Lemma readU32_value b : Forall is_byte b → (4 <= length b)%nat →
  readU32 b = byte_at 0 b * 2 ^ 24 + byte_at 1 b * 2 ^ 16 + byte_at 2 b * 2 ^ 8 + byte_at 3 b.
Proof.
  intros Hb Hl. destruct b as [|x [|y [|z [|t b]]]]; cbn in Hl; try lia.
  inversion_clear Hb as [|? ? Hx Hb']. inversion_clear Hb' as [|? ? Hy Hb].
  inversion_clear Hb as [|? ? Hz Hb']. inversion_clear Hb' as [|? ? Ht _]. unfold is_byte in *.
  unfold readU32, byte_at, wrap32.
  change (default 0 ((x :: y :: z :: t :: b) !! 0%nat)) with x.
  change (default 0 ((x :: y :: z :: t :: b) !! 1%nat)) with y.
  change (default 0 ((x :: y :: z :: t :: b) !! 2%nat)) with z.
  change (default 0 ((x :: y :: z :: t :: b) !! 3%nat)) with t.
  rewrite !Z.mod_small by (rewrite Z.shiftl_mul_pow2 by lia; lia).
  replace (Z.shiftl x 24) with (Z.shiftl (Z.shiftl x 8) 16) by (by rewrite Z.shiftl_shiftl).
  rewrite <- Z.shiftl_lor.
  replace (Z.shiftl (Z.lor (Z.shiftl x 8) y) 16) with (Z.shiftl (Z.shiftl (Z.lor (Z.shiftl x 8) y) 8) 8)
    by (by rewrite Z.shiftl_shiftl).
  rewrite <- Z.shiftl_lor. rewrite (lor_shift_add x y) by lia. rewrite (lor_shift_add _ z) by lia.
  rewrite lor_shift_add by lia. lia.
Qed.

Lemma writeU16_bytes v : Forall is_byte (writeU16 v).
Proof. unfold writeU16, is_byte. rewrite !land_255. repeat constructor; apply Z.mod_pos_bound; lia. Qed.

Lemma writeU32_bytes v : Forall is_byte (writeU32 v).
Proof. unfold writeU32, is_byte. rewrite !land_255. repeat constructor; apply Z.mod_pos_bound; lia. Qed.

Lemma byte_at_app_l i (b rest : bytes) : (i < length b)%nat → byte_at i (b ++ rest) = byte_at i b.
Proof. intros H. unfold byte_at. by rewrite lookup_app_l. Qed.

Lemma readU16_app b rest : (2 <= length b)%nat → readU16 (b ++ rest) = readU16 b.
Proof. intros H. unfold readU16. by rewrite !byte_at_app_l by lia. Qed.

Lemma readU32_app b rest : (4 <= length b)%nat → readU32 (b ++ rest) = readU32 b.
Proof. intros H. unfold readU32. by rewrite !byte_at_app_l by lia. Qed.

Lemma readU16_writeU16 v rest : 0 <= v < 65536 → readU16 (writeU16 v ++ rest) = v.
Proof.
  intros Hv. rewrite readU16_app by (cbn; lia). rewrite readU16_value by (apply writeU16_bytes || cbn; lia).
  unfold writeU16, byte_at. cbn [lookup list_lookup]. rewrite !land_255, Z.shiftr_div_pow2 by lia.
  change (default 0 (Some ?a)) with a. change (2 ^ 8) with 256. Z.to_euclidean_division_equations. lia.
Qed.

Lemma readU32_writeU32 v rest : 0 <= v < 2 ^ 32 → readU32 (writeU32 v ++ rest) = v.
Proof.
  intros Hv. rewrite readU32_app by (cbn; lia). rewrite readU32_value by (apply writeU32_bytes || cbn; lia).
  unfold writeU32, byte_at. cbn [lookup list_lookup]. rewrite !land_255, !Z.shiftr_div_pow2 by lia.
  change (default 0 (Some ?a)) with a. change (2 ^ 8) with 256. change (2 ^ 16) with 65536.
  change (2 ^ 24) with 16777216. change (2 ^ 32) with 4294967296 in Hv.
  Z.to_euclidean_division_equations. lia.
Qed.

Lemma readU16_range b : Forall is_byte b → (2 <= length b)%nat → 0 <= readU16 b < 65536.
Proof.
  intros Hb Hl. rewrite readU16_value by done.
  assert (∀ i, 0 <= byte_at i b < 256) as Hi.
  { intros i. unfold byte_at. destruct (b !! i) eqn:E; cbn; [|lia].
    rewrite Forall_lookup in Hb. by apply (Hb i). }
  pose proof (Hi 0%nat). pose proof (Hi 1%nat). lia.
Qed.

Lemma readU32_range b : Forall is_byte b → (4 <= length b)%nat → 0 <= readU32 b < 2 ^ 32.
Proof.
  intros Hb Hl. rewrite readU32_value by done.
  assert (∀ i, 0 <= byte_at i b < 256) as Hi.
  { intros i. unfold byte_at. destruct (b !! i) eqn:E; cbn; [|lia].
    rewrite Forall_lookup in Hb. by apply (Hb i). }
  pose proof (Hi 0%nat). pose proof (Hi 1%nat). pose proof (Hi 2%nat). pose proof (Hi 3%nat). lia.
Qed.

Lemma writeU16_readU16 x y : is_byte x → is_byte y → writeU16 (readU16 [x; y]) = [x; y].
Proof.
  intros Hx Hy. assert (Forall is_byte [x; y]) as Hb by (rewrite !Forall_cons; split_and!; done || constructor).
  rewrite readU16_value by (done || cbn; lia). unfold byte_at. cbn [lookup list_lookup].
  change (default 0 (Some ?a)) with a. unfold is_byte in *.
  unfold writeU16. rewrite !land_255, Z.shiftr_div_pow2 by lia. change (2 ^ 8) with 256.
  f_equal; [|f_equal]; Z.to_euclidean_division_equations; lia.
Qed.

Lemma writeU32_readU32 x y z t : is_byte x → is_byte y → is_byte z → is_byte t →
  writeU32 (readU32 [x; y; z; t]) = [x; y; z; t].
Proof.
  intros Hx Hy Hz Ht.
  assert (Forall is_byte [x; y; z; t]) as Hb by (rewrite !Forall_cons; split_and!; done || constructor).
  rewrite readU32_value by (done || cbn; lia). unfold byte_at. cbn [lookup list_lookup].
  change (default 0 (Some ?a)) with a. unfold is_byte in *.
  unfold writeU32. rewrite !land_255, !Z.shiftr_div_pow2 by lia. change (2 ^ 8) with 256.
  change (2 ^ 16) with 65536. change (2 ^ 24) with 16777216.
  f_equal; [|f_equal; [|f_equal; [|f_equal]]]; Z.to_euclidean_division_equations; lia.
Qed.

(** ** Frames *)
Record valid_frame (fr : DaemonIpcFrame) : Prop := mk_valid_frame {
  valid_version : 0 <= version fr < 65536;
  valid_type : 0 <= ftype fr < 65536;
  valid_payload : Forall is_byte (payload fr);
  valid_size : size (payload fr) <= kDaemonIpcMaxPayloadSize
}.

Lemma size_app (a b : bytes) : size (a ++ b) = size a + size b.
Proof. unfold size. rewrite length_app. lia. Qed.

Lemma size_nonneg (a : bytes) : 0 <= size a.
Proof. unfold size. lia. Qed.

(** The header of an encoded frame, and where its parts are. *)
Lemma encode_parts fr rest : valid_frame fr →
  let b := encodeDaemonIpcFrame fr ++ rest in
  take 4 b = kDaemonIpcMagic ∧ readU16 (drop 4 b) = version fr ∧ readU16 (drop 6 b) = ftype fr ∧
  readU32 (drop 8 b) = size (payload fr) ∧ drop 12 b = payload fr ++ rest ∧
  size b = 12 + size (payload fr) + size rest.
Proof.
  intros [Hv Ht _ Hs]. unfold kDaemonIpcMaxPayloadSize in Hs. pose proof (size_nonneg (payload fr)).
  assert (wrap32 (size (payload fr)) = size (payload fr)) as Hw by (apply Z.mod_small; lia).
  cbv zeta. unfold encodeDaemonIpcFrame. rewrite Hw, <- !app_assoc.
  split; [done|]. split; [by apply (readU16_writeU16 (version fr))|].
  split; [by apply (readU16_writeU16 (ftype fr))|].
  split; [apply (readU32_writeU32 (size (payload fr))); lia|].
  split; [done|]. rewrite !size_app. change (size kDaemonIpcMagic) with 4.
  change (size (writeU16 ?v)) with 2. change (size (writeU32 ?v)) with 4. lia.
Qed.

Lemma size_encode fr : valid_frame fr → size (encodeDaemonIpcFrame fr) = 12 + size (payload fr).
Proof.
  intros H. destruct (encode_parts fr [] H) as (_ & _ & _ & _ & _ & Hs).
  rewrite app_nil_r in Hs. change (size []) with 0 in Hs. lia.
Qed.

Lemma take_size_app (a b : bytes) : take (Z.to_nat (size a)) (a ++ b) = a.
Proof. unfold size. by rewrite Nat2Z.id, take_app_length. Qed.

Lemma decode_encode fr rest : valid_frame fr → decodeDaemonIpcFrame (encodeDaemonIpcFrame fr ++ rest) = Some fr.
Proof.
  intros H. destruct (encode_parts fr rest H) as (H1 & H2 & H3 & H4 & H5 & H6).
  pose proof (size_nonneg (payload fr)). pose proof (size_nonneg rest).
  destruct H as [_ _ _ Hs]. unfold kDaemonIpcMaxPayloadSize in Hs.
  unfold decodeDaemonIpcFrame, kDaemonIpcMaxPayloadSize. rewrite H1, H2, H3, H4, H5, H6. rewrite bool_decide_eq_true_2 by done.
  destruct (Z.ltb_spec (12 + size (payload fr) + size rest) 12); [lia|].
  cbn [negb]. unfold wrap32. rewrite Z.mod_small by lia.
  destruct (Z.ltb_spec 65536 (size (payload fr))); [lia|].
  destruct (Z.ltb_spec (12 + size (payload fr) + size rest) (12 + size (payload fr))); [lia|].
  cbn [orb]. rewrite take_size_app. by destruct fr.
Qed.

Lemma firstn_cons_12 (b : bytes) : (12 <= length b)%nat →
  ∃ a0 a1 a2 a3 a4 a5 a6 a7 a8 a9 a10 a11 b', b = a0 :: a1 :: a2 :: a3 :: a4 :: a5 :: a6 :: a7 :: a8 :: a9 :: a10 :: a11 :: b'.
Proof. intros H. do 12 (destruct b as [|? b]; [cbn in H; lia|]). by repeat eexists. Qed.

(** The frame decoder accepts exactly the byte sequences that start with the
    encoding of a frame with a 16-bit version and type and at most 65536 payload
    bytes, and returns that frame: encoding and decoding are inverse, trailing
    bytes are ignored, and everything else is rejected.  In particular a frame
    with a larger payload is encoded but never accepted. *)
Theorem frame_codec (b : bytes) (fr : DaemonIpcFrame) : Forall is_byte b →
  decodeDaemonIpcFrame b = Some fr ↔ valid_frame fr ∧ encodeDaemonIpcFrame fr `prefix_of` b.
Proof.
  intros Hb. split; [|intros [Hv [rest ->]]; by apply decode_encode].
  unfold decodeDaemonIpcFrame, kDaemonIpcMaxPayloadSize. destruct (Z.ltb_spec (size b) 12) as [|Hlen]; [done|].
  destruct (bool_decide (take 4 b = kDaemonIpcMagic)) eqn:Hm; [|done]. cbn [negb].
  apply bool_decide_eq_true_1 in Hm.
  destruct (firstn_cons_12 b ltac:(unfold size in Hlen; lia))
    as (a0 & a1 & a2 & a3 & a4 & a5 & a6 & a7 & a8 & a9 & a10 & a11 & b' & ->).
  rewrite !Forall_cons in Hb. destruct Hb as (?&?&?&?&?&?&?&?&?&?&?&?&Hb').
  cbn [take drop] in *. set (len := readU32 (a8 :: _)).
  assert (readU32 [a8; a9; a10; a11] = len) as Hlen32 by (symmetry; apply (readU32_app [_;_;_;_] b'); cbn; lia).
  assert (0 <= len < 2 ^ 32) as Hrange.
  { rewrite <- Hlen32. apply readU32_range; [|cbn; lia]. rewrite !Forall_cons. split_and!; done || constructor. }
  destruct (Z.ltb_spec 65536 len); [done|]. cbn [orb].
  unfold wrap32. rewrite Z.mod_small by lia.
  destruct (Z.ltb_spec (size (a0 :: a1 :: a2 :: a3 :: a4 :: a5 :: a6 :: a7 :: a8 :: a9 :: a10 :: a11 :: b')) (12 + len))
    as [|Hsz]; [done|].
  change (drop 0 b') with b'. intros [= <-]. assert (len <= size b') as Hlb by (unfold size in *; cbn [length] in Hsz; lia).
  assert (size (take (Z.to_nat len) b') = len) as Hps by (unfold size in *; rewrite length_take; lia).
  assert (readU16 (a4 :: a5 :: a6 :: a7 :: a8 :: a9 :: a10 :: a11 :: b') = readU16 [a4; a5]) as ->
    by (apply (readU16_app [_;_]); cbn; lia).
  assert (readU16 (a6 :: a7 :: a8 :: a9 :: a10 :: a11 :: b') = readU16 [a6; a7]) as ->
    by (apply (readU16_app [_;_]); cbn; lia).
  assert (∀ x y, is_byte x → is_byte y → Forall is_byte [x; y]) as Hpair
    by (intros; rewrite !Forall_cons; split_and!; done || constructor).
  split.
  - split; cbn [version ftype payload]; [apply readU16_range; [by apply Hpair|cbn; lia]..| |].
    + by apply Forall_take.
    + rewrite Hps. unfold kDaemonIpcMaxPayloadSize. lia.
  - exists (drop (Z.to_nat len) b'). unfold encodeDaemonIpcFrame. cbn [version ftype payload]. rewrite Hps.
    unfold wrap32. rewrite Z.mod_small by lia. rewrite <- Hlen32.
    rewrite !writeU16_readU16, writeU32_readU32 by done. rewrite <- Hm. cbn [app]. by rewrite take_drop.
Qed.

Lemma frame_codec_witness :
  Forall is_byte (encodeDaemonIpcFrame (mkFrame 1 3 [7; 8]) ++ [9]) ∧
  decodeDaemonIpcFrame (encodeDaemonIpcFrame (mkFrame 1 3 [7; 8]) ++ [9]) = Some (mkFrame 1 3 [7; 8]).
Proof.
  assert (Forall is_byte (encodeDaemonIpcFrame (mkFrame 1 3 [7; 8]) ++ [9])) as Hb.
  { vm_compute. repeat (apply Forall_cons_2; [by split|]). apply Forall_nil_2. }
  split; [exact Hb|]. apply (frame_codec _ _ Hb). split; [|by eexists].
  split; cbn; unfold kDaemonIpcMaxPayloadSize, size; cbn; try lia.
  repeat (apply Forall_cons_2; [by split|]). apply Forall_nil_2.
Defined.

(** ** Non-blocking reading *)

(** What one poll finds: the chunks that have arrived, then [EAGAIN]. *)
Definition poll (chunks : list bytes) : fd := (RData <$> chunks) ++ [RAgain].

Lemma sys_read_data n b f : (0 < n)%nat → b ≠ [] →
  sys_read n (RData b :: f) = (AData (take n b), match drop n b with [] => f | rest => RData rest :: f end).
Proof. intros Hn Hb. cbn. destruct n as [|n]; [lia|]. by destruct b. Qed.

Lemma drain_rounds_enough chunks tail buffer rounds : Forall (λ c, c ≠ []) chunks →
  (sum_list_with event_size (RData <$> chunks) < rounds)%nat →
  drain rounds ((RData <$> chunks) ++ RAgain :: tail) buffer = (inl (buffer ++ concat chunks), tail).
Proof.
  revert chunks buffer. induction rounds as [|rounds IH]; intros chunks buffer Hne Hr; [lia|].
  destruct chunks as [|c chunks]; [by rewrite app_nil_r|].
  inversion_clear Hne as [|? ? Hc Hne']. cbn [fmap list_fmap app].
  cbn [fmap list_fmap sum_list_with event_size] in Hr. cbn [drain].
  rewrite sys_read_data by (done || lia).
  destruct (drop 4096 c) as [|d rest] eqn:Ed.
  - rewrite IH by (done || lia). f_equal. f_equal. rewrite <- app_assoc. f_equal. cbn.
    by rewrite <- (take_drop 4096 c) at 2; rewrite Ed, app_nil_r.
  - change (RData (d :: rest) :: (RData <$> chunks) ++ RAgain :: tail) with
      ((RData <$> ((d :: rest) :: chunks)) ++ RAgain :: tail).
    rewrite IH.
    + f_equal. f_equal. rewrite <- app_assoc. f_equal. cbn [concat]. rewrite app_assoc. f_equal.
      rewrite <- Ed. apply take_drop.
    + by constructor.
    + cbn [fmap list_fmap sum_list_with event_size]. rewrite <- Ed, length_drop.
      assert (4096 < length c)%nat; [|lia].
      apply (f_equal length) in Ed. rewrite length_drop in Ed. cbn in Ed. lia.
Qed.

Lemma drain_poll chunks buffer : Forall (λ c, c ≠ []) chunks →
  drain (drain_rounds (poll chunks)) (poll chunks) buffer = (inl (buffer ++ concat chunks), []).
Proof.
  intros H. unfold poll. apply drain_rounds_enough; [done|].
  unfold drain_rounds. rewrite sum_list_with_app. lia.
Qed.

Definition stream (frames : list DaemonIpcFrame) : bytes := concat (encodeDaemonIpcFrame <$> frames).

(** One call, when the bytes so far and to come are the stream of [frames]. *)
Lemma tryRead_step chunks buffer rest frames : Forall (λ c, c ≠ []) chunks → Forall valid_frame frames →
  buffer ++ concat chunks ++ rest = stream frames →
  (∃ fr frames', frames = fr :: frames' ∧ ∃ buffer',
     tryReadDaemonIpcFrame (poll chunks) buffer = (mkResult FrameReady (Some fr), buffer', []) ∧
     buffer' ++ rest = stream frames') ∨
  (tryReadDaemonIpcFrame (poll chunks) buffer = (mkResult Incomplete None, buffer ++ concat chunks, []) ∧
   (frames = [] ∨ rest ≠ [])).
Proof.
  intros Hne Hv Hs. unfold tryReadDaemonIpcFrame. rewrite drain_poll by done.
  rewrite app_assoc in Hs. set (buf := buffer ++ concat chunks) in *.
  destruct frames as [|fr frames'].
  { right. cbn in Hs. apply app_nil in Hs as [-> ->]. split; [done|by left]. }
  inversion_clear Hv as [|? ? Hfr Hv']. change (stream (fr :: frames')) with (encodeDaemonIpcFrame fr ++ stream frames') in Hs.
  destruct (encode_parts fr (stream frames') Hfr) as (H1 & _ & _ & H4 & _ & H6). rewrite <- Hs in H1, H4, H6.
  pose proof (size_encode fr Hfr) as Henc. pose proof (size_nonneg (payload fr)).
  rewrite size_app in H6.
  assert (size buf < 12 + size (payload fr) → frames' = frames' ∧ rest ≠ []) as Hrest.
  { intros Hlt. split; [done|]. intros ->. change (size []) with 0 in H6. pose proof (size_nonneg (stream frames')). lia. }
  unfold completeFrameLength. destruct (Z.ltb_spec (size buf) 12) as [Hlt|Hge].
  { right. split; [done|]. right. apply Hrest. lia. }
  assert (magicMatchesBuffer buf = true) as ->.
  { unfold magicMatchesBuffer. rewrite (proj2 (Z.leb_le 4 (size buf))) by lia.
    rewrite take_app_le in H1 by (unfold size in *; lia). by rewrite bool_decide_eq_true_2. }
  assert (readU32 (drop 8 buf) = size (payload fr)) as ->.
  { rewrite <- H4. rewrite drop_app_le by (unfold size in *; lia). symmetry. apply readU32_app.
    rewrite length_drop. unfold size in *. lia. }
  cbn [negb]. destruct Hfr as [Hf1 Hf2 Hf3 Hf4]. unfold kDaemonIpcMaxPayloadSize in *.
  destruct (Z.ltb_spec 65536 (size (payload fr))); [lia|].
  destruct (Z.ltb_spec (size buf) (12 + size (payload fr))) as [Hlt|Hge'].
  { right. split; [done|]. right. by apply Hrest. }
  left. exists fr, frames'. split; [done|]. exists (drop (Z.to_nat (12 + size (payload fr))) buf).
  assert (Z.to_nat (12 + size (payload fr)) = length (encodeDaemonIpcFrame fr)) as Hn by (unfold size in *; lia).
  assert (encodeDaemonIpcFrame fr = take (length (encodeDaemonIpcFrame fr)) buf) as Htake.
  { pose proof (f_equal (take (length (encodeDaemonIpcFrame fr))) Hs) as Ht.
    rewrite take_app_length in Ht. rewrite take_app_le in Ht by (unfold size in *; lia). done. }
  split.
  - destruct (12 + size (payload fr)) eqn:E; [lia| |lia]. rewrite Hn, <- Htake.
    rewrite <- (app_nil_r (encodeDaemonIpcFrame fr)) at 1. rewrite decode_encode by done. done.
  - rewrite Hn. pose proof (f_equal (drop (length (encodeDaemonIpcFrame fr))) Hs) as Hd.
    rewrite drop_app_length in Hd. by rewrite drop_app_le in Hd by (unfold size in *; lia).
Qed.

(** The server's loop: one call per poll. *)
Fixpoint pump (buffer : bytes) (polls : list (list bytes)) : list DaemonIpcTryReadResult * bytes :=
  match polls with
  | [] => ([], buffer)
  | c :: polls' =>
      let '(r, buffer', _) := tryReadDaemonIpcFrame (poll c) buffer in
      let '(rs, b) := pump buffer' polls' in (r :: rs, b)
  end.

Definition quiet (r : DaemonIpcTryReadResult) : Prop :=
  (∃ fr, r = mkResult FrameReady (Some fr)) ∨ r = mkResult Incomplete None.

(** From any point, with [k] quiet polls after the bytes have all arrived. *)
Lemma pump_stream polls k : ∀ buffer frames,
  Forall (Forall (λ c, c ≠ [])) polls → Forall valid_frame frames →
  buffer ++ concat (concat polls) = stream frames → (length frames <= k)%nat →
  let '(rs, b) := pump buffer (polls ++ replicate k []) in
  omap frame rs = frames ∧ b = [] ∧ Forall quiet rs.
Proof.
  induction polls as [|c polls IH]; intros buffer frames Hne Hv Hs Hk.
  - cbn [concat app] in *. rewrite app_nil_r in Hs. revert buffer frames Hv Hs Hk.
    induction k as [|k IH]; intros buffer frames Hv Hs Hk.
    { destruct frames; [|cbn in Hk; lia]. cbn in Hs |- *. by subst. }
    cbn [replicate pump].
    destruct (tryRead_step [] buffer [] frames (Forall_nil_2 _) Hv) as
      [(fr & frames' & -> & buffer' & -> & Hb)|[-> [->|?]]]; [by rewrite app_nil_r| | |done].
    + rewrite app_nil_r in Hb. inversion_clear Hv.
      specialize (IH buffer' frames' ltac:(done) Hb ltac:(cbn in Hk; lia)).
      destruct (pump buffer' (replicate k [])) as [rs b]. destruct IH as (HA & HB & HC).
      split; [by rewrite <- HA|]. split; [done|]. constructor; [left; by eexists|done].
    + cbn in Hs. subst buffer. specialize (IH [] [] ltac:(done) eq_refl ltac:(cbn; lia)).
      cbn [app concat]. destruct (pump [] (replicate k [])) as [rs b]. destruct IH as (HA & HB & HC).
      split; [done|]. split; [done|]. constructor; [by right|done].
  - inversion_clear Hne as [|? ? Hc Hne']. cbn [app pump concat] in *. rewrite concat_app in Hs.
    destruct (tryRead_step c buffer (concat (concat polls)) frames Hc Hv Hs) as
      [(fr & frames' & -> & buffer' & -> & Hb)|[-> _]].
    + inversion_clear Hv. specialize (IH buffer' frames' Hne' ltac:(done) Hb ltac:(cbn in Hk; lia)).
      destruct (pump buffer' _) as [rs b]. destruct IH as (HA & HB & HC).
      split; [by rewrite <- HA|]. split; [done|]. constructor; [left; by eexists|done].
    + rewrite app_assoc in Hs. specialize (IH _ _ Hne' Hv Hs Hk).
      destruct (pump _ (polls ++ _)) as [rs b]. destruct IH as (HA & HB & HC).
      split; [done|]. split; [done|]. constructor; [by right|done].
Qed.

(** C7. Whatever way the bytes of a sequence of valid frames are cut into chunks
    and the chunks spread over polls, the non-blocking reader delivers exactly
    these frames, in order, reports nothing but frames and "incomplete", and
    ends with an empty buffer, once it has been polled as many more times as
    there are frames. *)
Theorem stream_delivery (frames : list DaemonIpcFrame) (polls : list (list bytes)) (k : nat) :
  Forall valid_frame frames → Forall (Forall (λ c, c ≠ [])) polls →
  concat (concat polls) = stream frames → (length frames <= k)%nat →
  let '(rs, b) := pump [] (polls ++ replicate k []) in
  omap frame rs = frames ∧ b = [] ∧ Forall quiet rs.
Proof. intros Hv Hne Hs Hk. by apply pump_stream. Qed.

Lemma ex_frame_valid fr : fr ∈ [mkFrame 1 3 [7]; mkFrame 1 4 []] → valid_frame fr.
Proof.
  rewrite !elem_of_cons, elem_of_nil.
  intros [->|[->|[]]]; split; cbn [version ftype payload]; try (unfold kDaemonIpcMaxPayloadSize, size; cbn; lia);
    rewrite ?Forall_cons, Forall_nil; unfold is_byte; repeat split; lia.
Qed.

Lemma stream_delivery_witness :
  let '(rs, b) := pump [] ([[[71]; [69; 77]]; [[73; 0; 1; 0; 3; 0; 0; 0; 1; 7; 71; 69]];
                            [[77; 73; 0; 1; 0; 4; 0; 0; 0; 0]]] ++ replicate 2 []) in
  omap frame rs = [mkFrame 1 3 [7]; mkFrame 1 4 []] ∧ b = [] ∧ Forall quiet rs.
Proof.
  apply (stream_delivery [mkFrame 1 3 [7]; mkFrame 1 4 []]
    [[[71]; [69; 77]]; [[73; 0; 1; 0; 3; 0; 0; 0; 1; 7; 71; 69]]; [[77; 73; 0; 1; 0; 4; 0; 0; 0; 0]]] 2).
  - apply Forall_forall. exact ex_frame_valid.
  - repeat (apply Forall_cons_2 || apply Forall_nil_2); done.
  - reflexivity.
  - cbn; lia.
Defined.

(** When the peer closes the connection, the call that finds the end of the
    stream returns no frame: "connection closed" if nothing was buffered, else
    "protocol error" -- also when complete frames are waiting in the buffer. *)
Theorem tryRead_at_eof (chunks : list bytes) (f : fd) (buffer : bytes) : Forall (λ c, c ≠ []) chunks →
  (tryReadDaemonIpcFrame ((RData <$> chunks) ++ REof :: f) buffer).1.1 =
    mkResult (if bool_decide (buffer ++ concat chunks = []) then ConnectionClosed else ProtocolError) None.
Proof.
  intros Hne. unfold tryReadDaemonIpcFrame.
  assert (∀ rounds, (sum_list_with event_size (RData <$> chunks) < rounds)%nat →
    drain rounds ((RData <$> chunks) ++ REof :: f) buffer =
      (inr (if bool_decide (buffer ++ concat chunks = []) then ConnectionClosed else ProtocolError,
            buffer ++ concat chunks), f)) as Hd.
  { intros rounds. revert chunks buffer Hne. induction rounds as [|rounds IH]; intros chunks buffer Hne Hr; [lia|].
    destruct chunks as [|c chunks]; [by rewrite app_nil_r|].
    inversion_clear Hne as [|? ? Hc Hne']. cbn [fmap list_fmap app].
    cbn [fmap list_fmap sum_list_with event_size] in Hr. cbn [drain]. rewrite sys_read_data by (done || lia).
    destruct (drop 4096 c) as [|d rest] eqn:Ed.
    - rewrite IH by (done || lia). assert (take 4096 c = c) as -> by (rewrite <- (take_drop 4096 c) at 2; by rewrite Ed, app_nil_r).
      cbn [concat]. by rewrite <- app_assoc.
    - change (RData (d :: rest) :: (RData <$> chunks) ++ REof :: f) with
        ((RData <$> ((d :: rest) :: chunks)) ++ REof :: f).
      rewrite IH; [|by constructor|].
      + cbn [concat]. rewrite <- Ed, <- app_assoc, (app_assoc (take 4096 c)), take_drop. done.
      + cbn [fmap list_fmap sum_list_with event_size]. rewrite <- Ed, length_drop.
        apply (f_equal length) in Ed. rewrite length_drop in Ed. cbn in Ed. lia. }
  rewrite Hd; [done|]. unfold drain_rounds. rewrite sum_list_with_app. lia.
Qed.

(** A complete frame that arrives just before the close is lost. *)
Lemma tryRead_at_eof_witness :
  (tryReadDaemonIpcFrame [RData (encodeDaemonIpcFrame (mkFrame 1 12 [])); REof] []).1.1 = mkResult ProtocolError None.
Proof.
  apply (tryRead_at_eof [encodeDaemonIpcFrame (mkFrame 1 12 [])] [] []).
  apply Forall_cons_2; [done|apply Forall_nil_2].
Defined.

(** ** Blocking transfer *)
Lemma readExact_loop_chunks n : ∀ rounds chunks, (n <= rounds)%nat → Forall (λ c, c ≠ []) chunks →
  (n <= length (concat chunks))%nat →
  ∃ chunks', readExact_loop rounds n (RData <$> chunks) = (Some (take n (concat chunks)), RData <$> chunks') ∧
    concat chunks' = drop n (concat chunks) ∧ Forall (λ c, c ≠ []) chunks'.
Proof.
  induction n as [n IH] using lt_wf_ind. intros rounds chunks Hr Hne Hn.
  destruct n as [|n]; [exists chunks; by destruct rounds|].
  destruct rounds as [|rounds]; [lia|]. destruct chunks as [|c chunks]; [cbn in Hn; lia|].
  inversion_clear Hne as [|? ? Hc Hne']. cbn [readExact_loop fmap list_fmap].
  rewrite sys_read_data by (done || lia). cbn [concat] in *.
  assert (0 < length c)%nat as Hlc by (destruct c; [done|cbn; lia]).
  destruct (decide (length c <= S n)%nat) as [Hle|Hgt].
  - rewrite drop_ge, take_ge by done.
    destruct (IH (S n - length c)%nat ltac:(lia) rounds chunks ltac:(lia) Hne') as (chunks' & -> & Hd & Hne2).
    { rewrite length_app in Hn. lia. }
    exists chunks'. rewrite take_app_ge by lia. split; [done|]. split; [|done].
    by rewrite drop_app_ge by lia.
  - assert (drop (S n) c ≠ []) as Hdc by (intros Hd; apply (f_equal length) in Hd; rewrite length_drop in Hd; cbn in Hd; lia).
    assert ((match drop (S n) c with [] => RData <$> chunks | rest => RData rest :: (RData <$> chunks) end) =
            RData <$> (drop (S n) c :: chunks)) as -> by (by destruct (drop (S n) c)).
    rewrite length_take. replace (S n - S n `min` length c)%nat with 0%nat by lia.
    exists (drop (S n) c :: chunks).
    assert (readExact_loop rounds 0 (RData <$> (drop (S n) c :: chunks)) = (Some [], RData <$> (drop (S n) c :: chunks))) as ->
      by (by destruct rounds).
    rewrite take_app_le, drop_app_le by lia. split; [|split; [done|by constructor]].
    change (Some (take (S n) c ++ []) = Some (take (S n) c)) || cbn [fmap option_fmap option_map].
    by rewrite app_nil_r.
Qed.

Lemma readU16_take k b : (2 <= k)%nat → (2 <= length b)%nat → readU16 (take k b) = readU16 b.
Proof.
  intros Hk Hb. rewrite <- (take_drop k b) at 2. symmetry. apply readU16_app. rewrite length_take. lia.
Qed.

Lemma readU32_take k b : (4 <= k)%nat → (4 <= length b)%nat → readU32 (take k b) = readU32 b.
Proof.
  intros Hk Hb. rewrite <- (take_drop k b) at 2. symmetry. apply readU32_app. rewrite length_take. lia.
Qed.

Lemma writeExact_prefix b results : (writeExact b results).2 `prefix_of` b ∧
  ((writeExact b results).1 = true → (writeExact b results).2 = b).
Proof.
  unfold writeExact. revert b. induction results as [|n results IH]; intros [|x b]; cbn [writeExact_loop];
    try (split; [apply prefix_nil|done]).
  destruct (n <=? 0); [split; [apply prefix_nil|done]|].
  specialize (IH (drop (Z.to_nat n) (x :: b))).
  destruct (writeExact_loop (drop (Z.to_nat n) (x :: b)) results) as [ok sent]. destruct IH as [Hp Heq]. cbn [fst snd] in *.
  split.
  - rewrite <- (take_drop (Z.to_nat n) (x :: b)) at 2. by apply prefix_app.
  - intros Hok. by rewrite (Heq Hok), take_drop.
Qed.

(** When writing a valid frame to a blocking socket succeeds, however the
    kernel splits the writes and the reads, the reader gets that frame, and the
    bytes sent after it are left for the next read. *)
Theorem blocking_transfer (fr : DaemonIpcFrame) (results : list Z) (sent rest : bytes) (chunks : list bytes) :
  valid_frame fr → writeDaemonIpcFrame fr results = (true, sent) →
  Forall (λ c, c ≠ []) chunks → concat chunks = sent ++ rest →
  ∃ chunks', readDaemonIpcFrame (RData <$> chunks) = (Some fr, RData <$> chunks') ∧ concat chunks' = rest.
Proof.
  intros Hfr Hw Hne Hc. destruct (writeExact_prefix (encodeDaemonIpcFrame fr) results) as [_ Hs].
  unfold writeDaemonIpcFrame in Hw. rewrite Hw in Hs. cbn [fst snd] in Hs. rewrite (Hs eq_refl) in Hc. clear Hs Hw.
  destruct (encode_parts fr rest Hfr) as (H1 & H2 & H3 & H4 & H5 & H6). cbv zeta in *.
  rewrite <- Hc in H1, H2, H3, H4, H5, H6.
  set (all := concat chunks) in *. destruct Hfr as [_ _ _ Hsz]. unfold kDaemonIpcMaxPayloadSize in Hsz.
  pose proof (size_nonneg (payload fr)). pose proof (size_nonneg rest).
  assert (12 + length (payload fr) <= length all)%nat as Hlen by (unfold size in *; lia).
  unfold readDaemonIpcFrame, readExact.
  destruct (readExact_loop_chunks 4 4 chunks ltac:(lia) Hne ltac:(fold all; lia)) as (ch1 & -> & Hd1 & Hne1).
  fold all in Hd1 |- *. rewrite H1. change (magicMatches kDaemonIpcMagic) with true. cbn [negb].
  destruct (readExact_loop_chunks 8 8 ch1 ltac:(lia) Hne1) as (ch2 & -> & Hd2 & Hne2).
  { rewrite Hd1, length_drop. lia. }
  rewrite Hd1 in *. rewrite drop_drop in Hd2. change (4 + 8)%nat with 12%nat in Hd2. rewrite H5 in Hd2.
  assert (readU32 (drop 4 (take 8 (drop 4 all))) = size (payload fr)) as ->.
  { rewrite skipn_firstn_comm, drop_drop, readU32_take by (rewrite ?length_drop; lia). exact H4. }
  unfold kDaemonIpcMaxPayloadSize. destruct (Z.ltb_spec 65536 (size (payload fr))); [lia|].
  assert (Z.to_nat (size (payload fr)) = length (payload fr)) as -> by (unfold size; lia).
  destruct (readExact_loop_chunks (length (payload fr)) (length (payload fr)) ch2 ltac:(lia) Hne2) as (ch3 & -> & Hd3 & _).
  { rewrite Hd2, length_app. lia. }
  exists ch3. rewrite Hd3, Hd2, drop_app_length, take_app_length. split; [|done]. f_equal. f_equal.
  assert (readU16 (take 8 (drop 4 all)) = version fr) as ->
    by (by rewrite readU16_take by (rewrite ?length_drop; lia)).
  assert (readU16 (drop 2 (take 8 (drop 4 all))) = ftype fr) as ->; [|by destruct fr].
  rewrite skipn_firstn_comm, drop_drop, readU16_take by (rewrite ?length_drop; lia). exact H3.
Qed.

Lemma blocking_transfer_witness :
  writeDaemonIpcFrame (mkFrame 1 3 [7]) [5; 8] = (true, encodeDaemonIpcFrame (mkFrame 1 3 [7])) ∧
  ∃ chunks', readDaemonIpcFrame (RData <$> [[71]; [69; 77; 73; 0; 1; 0; 3; 0; 0]; [0; 1; 7; 9]])
               = (Some (mkFrame 1 3 [7]), RData <$> chunks') ∧ concat chunks' = [9].
Proof.
  split; [reflexivity|].
  apply (blocking_transfer (mkFrame 1 3 [7]) [5; 8] (encodeDaemonIpcFrame (mkFrame 1 3 [7])) [9]
    [[71]; [69; 77; 73; 0; 1; 0; 3; 0; 0]; [0; 1; 7; 9]]).
  - apply ex_frame_valid, list_elem_of_here.
  - reflexivity.
  - repeat (apply Forall_cons_2 || apply Forall_nil_2); done.
  - reflexivity.
Defined.

(** ** Payload codecs *)
Lemma string_bytes_are_bytes s : Forall is_byte (string_bytes s).
Proof.
  unfold string_bytes. apply Forall_fmap, Forall_forall. intros c _. cbn. apply code_range.
Qed.

Lemma bytes_string_bytes s : bytes_string (string_bytes s) = s.
Proof.
  unfold bytes_string, string_bytes. rewrite <- list_fmap_compose.
  rewrite (list_fmap_ext _ id); [rewrite list_fmap_id; apply string_of_list_ascii_of_string|].
  intros i c _. cbn. apply chr_code.
Qed.

Lemma string_bytes_string b : Forall is_byte b → string_bytes (bytes_string b) = b.
Proof.
  intros Hb. unfold bytes_string, string_bytes. rewrite list_ascii_of_string_of_list_ascii.
  rewrite <- list_fmap_compose. rewrite <- (list_fmap_id b) at 2. apply list_fmap_ext.
  intros i c Hc. cbn. apply code_chr. rewrite Forall_lookup in Hb. by apply (Hb i).
Qed.

(** [enc] and [dec] are inverse between the payloads that satisfy [ok] and the
    byte sequences that [dec] accepts. *)
Definition exact_codec {A} (enc : A → bytes) (dec : bytes → option A) (ok : A → Prop) : Prop :=
  ∀ b a, Forall is_byte b → dec b = Some a ↔ ok a ∧ b = enc a.

Definition is_u16 (z : Z) : Prop := 0 <= z < 65536.
Definition is_u32 (z : Z) : Prop := 0 <= z < 2 ^ 32.

Lemma fixed16_codec {A} (mk : Z → A) (get : A → Z) : (∀ z, get (mk z) = z) → (∀ a, mk (get a) = a) →
  exact_codec (λ p, writeU16 (get p)) (λ b, if negb (size b =? 2) then None else Some (mk (readU16 b)))
    (λ p, is_u16 (get p)).
Proof.
  intros Hgm Hmg b a Hb. split.
  - destruct (Z.eqb_spec (size b) 2) as [Hs|]; [|done]. cbn [negb]. intros [= <-]. rewrite Hgm.
    destruct b as [|x [|y [|]]]; unfold size in Hs; cbn in Hs; try lia.
    split; [by apply readU16_range|]. rewrite !Forall_cons in Hb. destruct Hb as (?&?&_).
    by rewrite writeU16_readU16.
  - intros [Ha ->]. change (size (writeU16 (get a))) with 2. cbn [Z.eqb Pos.eqb negb]. f_equal.
    rewrite <- (app_nil_r (writeU16 _)), readU16_writeU16 by done. apply Hmg.
Qed.

Lemma fixed32_codec {A} (mk : Z → A) (get : A → Z) : (∀ z, get (mk z) = z) → (∀ a, mk (get a) = a) →
  exact_codec (λ p, writeU32 (get p)) (λ b, if negb (size b =? 4) then None else Some (mk (readU32 b)))
    (λ p, is_u32 (get p)).
Proof.
  intros Hgm Hmg b a Hb. split.
  - destruct (Z.eqb_spec (size b) 4) as [Hs|]; [|done]. cbn [negb]. intros [= <-]. rewrite Hgm.
    destruct b as [|x [|y [|z [|t [|]]]]]; unfold size in Hs; cbn in Hs; try lia.
    split; [by apply readU32_range|]. rewrite !Forall_cons in Hb. destruct Hb as (?&?&?&?&_).
    by rewrite writeU32_readU32.
  - intros [Ha ->]. change (size (writeU32 (get a))) with 4. cbn [Z.eqb Pos.eqb negb]. f_equal.
    rewrite <- (app_nil_r (writeU32 _)), readU32_writeU32 by done. apply Hmg.
Qed.

(** A length-prefixed tail after a header: what the variable-size codecs share. *)
Lemma tail_decode (hdr b : bytes) (limit : Z) : limit <= kDaemonIpcMaxPayloadSize →
  Forall is_byte (hdr ++ b) → (4 <= length b)%nat →
  (limit <? readU32 b) || negb (size (hdr ++ b) =? wrap32 (size hdr + 4 + readU32 b)) = false →
  size hdr <= 100 →
  size (drop 4 b) <= limit ∧ take (Z.to_nat (readU32 b)) (drop 4 b) = drop 4 b ∧
  b = writeU32 (wrap32 (size (drop 4 b))) ++ drop 4 b.
Proof.
  unfold kDaemonIpcMaxPayloadSize. intros Hlim Hb Hl Hc Hh. pose proof (size_nonneg hdr).
  apply Forall_app in Hb as [_ Hb]. destruct b as [|x [|y [|z [|t b]]]]; cbn in Hl; try lia.
  rewrite !Forall_cons in Hb. destruct Hb as (?&?&?&?&Hb).
  apply orb_false_iff in Hc as [Hc1 Hc2]. apply Z.ltb_ge in Hc1.
  apply negb_false_iff in Hc2. apply Z.eqb_eq in Hc2.
  assert (readU32 (x :: y :: z :: t :: b) = readU32 [x; y; z; t]) as Hr by (apply (readU32_app [_;_;_;_]); cbn; lia).
  assert (0 <= readU32 [x; y; z; t] < 2 ^ 32) as Hrange.
  { apply readU32_range; [|cbn; lia]. rewrite !Forall_cons. split_and!; done || constructor. }
  rewrite Hr in *. cbn [drop]. change (drop 0 b) with b.
  unfold wrap32 in Hc2. rewrite Z.mod_small in Hc2 by lia. rewrite size_app in Hc2.
  assert (size b = readU32 [x; y; z; t]) as Hsb by (unfold size in *; cbn [length] in Hc2; lia).
  split; [lia|]. split; [rewrite <- Hsb; unfold size; rewrite Nat2Z.id; by apply take_ge|].
  unfold wrap32. rewrite Z.mod_small, Hsb, writeU32_readU32 by (done || lia). done.
Qed.

Lemma tail_encode (hdr tail : bytes) (limit : Z) : limit <= kDaemonIpcMaxPayloadSize →
  size tail <= limit → size hdr <= 100 →
  let b := writeU32 (wrap32 (size tail)) ++ tail in
  readU32 b = size tail ∧
  (limit <? readU32 b) || negb (size (hdr ++ b) =? wrap32 (size hdr + 4 + readU32 b)) = false.
Proof.
  intros Hlim Ht Hh b. unfold kDaemonIpcMaxPayloadSize in Hlim. pose proof (size_nonneg tail). pose proof (size_nonneg hdr).
  assert (wrap32 (size tail) = size tail) as Hw by (apply Z.mod_small; lia).
  assert (readU32 b = size tail) as Hr by (unfold b; rewrite Hw; apply readU32_writeU32; lia).
  split; [done|]. rewrite Hr. apply orb_false_iff. split; [by apply Z.ltb_ge|].
  apply negb_false_iff, Z.eqb_eq. unfold b. rewrite !size_app. change (size (writeU32 _)) with 4.
  unfold wrap32. rewrite Z.mod_small; lia.
Qed.

Definition ack_ok (p : DaemonIpcHandshakeAckPayload) : Prop :=
  is_u16 (serverProtocolVersion p) ∧ is_u16 (maxSessions p) ∧
  size (string_bytes (buildVersion p)) <= kDaemonIpcMaxPayloadSize.
Definition error_ok (p : DaemonIpcErrorPayload) : Prop :=
  is_u32 (ecode p) ∧ size (string_bytes (message p)) <= kDaemonIpcMaxPayloadSize.
Definition data_ok (p : DaemonIpcSessionDataPayload) : Prop :=
  Forall is_byte (data p) ∧ size (data p) <= kDaemonIpcMaxSessionDataSize.

Lemma handshake_ack_codec : exact_codec encodeHandshakeAckPayload decodeHandshakeAckPayload ack_ok.
Proof.
  intros b a Hb. unfold decodeHandshakeAckPayload. split.
  - destruct (Z.ltb_spec (size b) 8) as [|Hs]; [done|].
    destruct b as [|x [|y [|z [|t b]]]]; unfold size in Hs; cbn in Hs; try lia.
    cbn [drop]. change (drop 0 b) with b.
    destruct (_ || _) eqn:Hc; [done|]. intros [= <-].
    destruct (tail_decode [x; y; z; t] b kDaemonIpcMaxPayloadSize ltac:(done) Hb ltac:(lia) Hc ltac:(unfold size; cbn; lia))
      as (H1 & H2 & H3).
    rewrite !Forall_cons in Hb. destruct Hb as (?&?&?&?&Hb).
    assert (∀ x y, is_byte x → is_byte y → is_u16 (readU16 [x; y])) as Hu.
    { intros. apply readU16_range; [|cbn; lia]. rewrite !Forall_cons. split_and!; done || constructor. }
    rewrite H2. unfold ack_ok, encodeHandshakeAckPayload. cbn [serverProtocolVersion maxSessions buildVersion].
    rewrite string_bytes_string by (by apply Forall_drop).
    assert (readU16 (x :: y :: z :: t :: b) = readU16 [x; y]) as -> by (apply (readU16_app [x; y]); cbn; lia).
    assert (readU16 (z :: t :: b) = readU16 [z; t]) as -> by (apply (readU16_app [z; t]); cbn; lia).
    split; [split_and!; auto|]. rewrite !writeU16_readU16 by done. cbn [app]. by rewrite <- H3.
  - intros [(H1 & H2 & H3) ->]. unfold encodeHandshakeAckPayload. set (text := string_bytes (buildVersion a)) in *.
    destruct (tail_encode (writeU16 (serverProtocolVersion a) ++ writeU16 (maxSessions a)) text
      kDaemonIpcMaxPayloadSize ltac:(done) H3 ltac:(unfold size; cbn; lia)) as [Hr Hc].
    set (tl := writeU32 (wrap32 (size text)) ++ text) in *.
    rewrite <- app_assoc in Hc.
    rewrite (proj2 (Z.ltb_ge _ _)) by
      (unfold tl; rewrite !size_app; change (size (writeU16 ?v)) with 2; change (size (writeU32 ?v)) with 4;
       pose proof (size_nonneg text); lia).
    change (drop 4 (writeU16 (serverProtocolVersion a) ++ writeU16 (maxSessions a) ++ tl)) with tl.
    change (size (writeU16 (serverProtocolVersion a) ++ writeU16 (maxSessions a)) + 4) with 8 in Hc.
    rewrite Hc, Hr. f_equal.
    rewrite readU16_writeU16 by done.
    change (drop 2 _) with (writeU16 (maxSessions a) ++ tl). rewrite readU16_writeU16 by done.
    change (drop 8 _) with text. unfold size. rewrite Nat2Z.id, take_ge by done.
    unfold text. rewrite bytes_string_bytes. by destruct a.
Qed.

Lemma error_codec : exact_codec encodeErrorPayload decodeErrorPayload error_ok.
Proof.
  intros b a Hb. unfold decodeErrorPayload. split.
  - destruct (Z.ltb_spec (size b) 8) as [|Hs]; [done|].
    destruct b as [|x [|y [|z [|t b]]]]; unfold size in Hs; cbn in Hs; try lia.
    cbn [drop]. change (drop 0 b) with b.
    destruct (_ || _) eqn:Hc; [done|]. intros [= <-].
    destruct (tail_decode [x; y; z; t] b kDaemonIpcMaxPayloadSize ltac:(done) Hb ltac:(lia) Hc ltac:(unfold size; cbn; lia))
      as (H1 & H2 & H3).
    rewrite !Forall_cons in Hb. destruct Hb as (?&?&?&?&Hb).
    rewrite H2. unfold error_ok, encodeErrorPayload. cbn [ecode message].
    rewrite string_bytes_string by (by apply Forall_drop).
    assert (readU32 (x :: y :: z :: t :: b) = readU32 [x; y; z; t]) as -> by (apply (readU32_app [_; _; _; _]); cbn; lia).
    split; [split; [|done]; apply readU32_range; [rewrite !Forall_cons; split_and!; done || constructor|cbn; lia]|].
    rewrite writeU32_readU32 by done. cbn [app]. by rewrite <- H3.
  - intros [(H1 & H3) ->]. unfold encodeErrorPayload. set (text := string_bytes (message a)) in *.
    destruct (tail_encode (writeU32 (ecode a)) text kDaemonIpcMaxPayloadSize ltac:(done) H3 ltac:(unfold size; cbn; lia)) as [Hr Hc].
    set (tl := writeU32 (wrap32 (size text)) ++ text) in *.
    rewrite (proj2 (Z.ltb_ge _ _)) by
      (unfold tl; rewrite !size_app; change (size (writeU32 ?v)) with 4; pose proof (size_nonneg text); lia).
    change (drop 4 (writeU32 (ecode a) ++ tl)) with tl. change (size (writeU32 (ecode a)) + 4) with 8 in Hc.
    rewrite Hc, Hr. f_equal. rewrite readU32_writeU32 by done.
    change (drop 8 _) with text. unfold size. rewrite Nat2Z.id, take_ge by done.
    unfold text. rewrite bytes_string_bytes. by destruct a.
Qed.

Lemma session_data_codec : exact_codec encodeSessionDataPayload decodeSessionDataPayload data_ok.
Proof.
  assert (kDaemonIpcMaxSessionDataSize <= kDaemonIpcMaxPayloadSize) as Hlim by done.
  intros b a Hb. unfold decodeSessionDataPayload. split.
  - destruct (Z.ltb_spec (size b) 4) as [|Hs]; [done|].
    destruct (_ || _) eqn:Hc; [done|]. intros [= <-].
    destruct (tail_decode [] b kDaemonIpcMaxSessionDataSize Hlim Hb ltac:(unfold size in Hs; lia) Hc ltac:(unfold size; cbn; lia))
      as (H1 & H2 & H3).
    rewrite H2. split; [split; [by apply Forall_drop|done]|exact H3].
  - intros [(H1 & H3) ->]. unfold encodeSessionDataPayload.
    destruct (tail_encode [] (data a) kDaemonIpcMaxSessionDataSize Hlim H3 ltac:(unfold size; cbn; lia)) as [Hr Hc].
    set (tl := writeU32 (wrap32 (size (data a))) ++ data a) in *.
    rewrite (proj2 (Z.ltb_ge _ _)) by
      (unfold tl; rewrite !size_app; change (size (writeU32 ?v)) with 4; pose proof (size_nonneg (data a)); lia).
    cbn [app] in Hc. change (size [] + 4) with 4 in Hc. rewrite Hc, Hr. f_equal.
    change (drop 4 tl) with (data a). unfold size. rewrite Nat2Z.id, take_ge by done. by destruct a.
Qed.

(** Every payload decoder is the exact inverse of its encoder: it accepts a
    byte sequence if and only if it is the encoding of a payload whose numbers
    fit their fields and whose text or data is within the protocol's limit, and
    then returns that payload. *)
Theorem payload_codecs :
  exact_codec encodeHandshakePayload decodeHandshakePayload (λ p, is_u16 (clientProtocolVersion p)) ∧
  exact_codec encodeHandshakeAckPayload decodeHandshakeAckPayload ack_ok ∧
  exact_codec encodeReserveSessionAckPayload decodeReserveSessionAckPayload (λ p, is_u32 (reservedPort p)) ∧
  exact_codec encodeAttachSessionPayload decodeAttachSessionPayload (λ p, is_u32 (requestedPort p)) ∧
  exact_codec encodeAttachSessionAckPayload decodeAttachSessionAckPayload (λ p, is_u32 (attachedPort p)) ∧
  exact_codec encodeSessionDataPayload decodeSessionDataPayload data_ok ∧
  exact_codec encodeErrorPayload decodeErrorPayload error_ok.
Proof.
  split_and!.
  - apply (fixed16_codec mkHandshake clientProtocolVersion); [done|by intros []].
  - apply handshake_ack_codec.
  - apply (fixed32_codec mkReserveAck reservedPort); [done|by intros []].
  - apply (fixed32_codec mkAttach requestedPort); [done|by intros []].
  - apply (fixed32_codec mkAttachAck attachedPort); [done|by intros []].
  - apply session_data_codec.
  - apply error_codec.
Qed.
