(* ===== verification/Channel.v ===== *)
(** * A session's channel

    [PickCore::IpcSessionChannel]: what a session reads and writes, between its
    thread and the daemon's socket.  The queues are guarded by the mutex; the
    places where it is released during [flushPendingOutput] are windows in which
    the session's thread may write, and waiting for input is a step of its own. *)

From Stdlib Require Import Ascii String.
From S2P Require Import Prelude CLib Ipc.
From stdpp Require Import options.
Local Open Scope Z_scope.

(** ** The socket

    The results of the [write] calls to come ([-1]: [EAGAIN] or an error; none left:
    [EAGAIN]), and all the bytes taken so far. *)
Record Socket := mkSocket { s_writes : list Z; s_sent : bytes }.

(** [writeDaemonIpcFrame] on the socket. *)
Fixpoint send_all (b : bytes) (results : list Z) : bool * bytes * list Z :=
  match b, results with
  | [], _ => (true, [], results)
  | _, [] => (false, [], [])
  | _, n :: results' =>
      if n <=? 0 then (false, [], results')
      else
        let '(ok, sent, rest) := send_all (drop (Z.to_nat n) b) results' in
        (ok, take (Z.to_nat n) b ++ sent, rest)
  end.

Definition send_frame (fr : DaemonIpcFrame) (s : Socket) : bool * Socket :=
  let '(ok, sent, rest) := send_all (encodeDaemonIpcFrame fr) (s_writes s) in (ok, mkSocket rest (s_sent s ++ sent)).

(** It is [writeExact], and tells which results were used. *)
Lemma send_all_writeExact b results : (send_all b results).1 = writeExact b results.
Proof.
  unfold writeExact. revert b. induction results as [|n results IH]; intros [|x b]; try done. cbn [send_all writeExact_loop].
  destruct (n <=? 0); [done|]. specialize (IH (drop (Z.to_nat n) (x :: b))). destruct (send_all _ _) as [[ok sent] rest]. cbn in IH.
  by rewrite <- IH.
Qed.

(** ** The channel *)

(** [resumeOnInput], ...: whether the function is set; [owner]: the session whose
    runner the functions call. *)
(* src/core/daemon/IpcSessionChannel.h:28-32 [SessionInputScheduling] *)
Record SessionInputScheduling := mkScheduling {
  owner : Z;
  yieldBeforeBlockingRead : bool;
  acquireAfterWake : bool;
  resumeOnInput : bool
}.

(* src/core/daemon/IpcSessionChannel.h:73-82 [IpcSessionChannel] *)
Record IpcSessionChannel := mkChannel {
  inputQueue_ : bytes;
  outputQueue_ : bytes;
  diagnosticQueue_ : bytes;
  pendingOutputWire_ : bytes;
  pendingDiagnosticWire_ : bytes;
  pendingOutputChunkSize_ : nat;
  pendingDiagnosticChunkSize_ : nat;
  closed_ : bool;
  hasPendingOutput_ : bool;
  scheduling_ : option SessionInputScheduling
}.

(* src/core/daemon/IpcSessionChannel.cpp:63-69 [IpcSessionChannel::IpcSessionChannel] *)
Definition newChannel : IpcSessionChannel := mkChannel [] [] [] [] [] 0 0 false false None.

Definition set_input (q : bytes) (c : IpcSessionChannel) : IpcSessionChannel :=
  mkChannel q (outputQueue_ c) (diagnosticQueue_ c) (pendingOutputWire_ c) (pendingDiagnosticWire_ c)
    (pendingOutputChunkSize_ c) (pendingDiagnosticChunkSize_ c) (closed_ c) (hasPendingOutput_ c) (scheduling_ c).
Definition set_output (q w : bytes) (n : nat) (pending : bool) (c : IpcSessionChannel) : IpcSessionChannel :=
  mkChannel (inputQueue_ c) q (diagnosticQueue_ c) w (pendingDiagnosticWire_ c)
    n (pendingDiagnosticChunkSize_ c) (closed_ c) pending (scheduling_ c).
Definition set_diagnostic (q w : bytes) (n : nat) (pending : bool) (c : IpcSessionChannel) : IpcSessionChannel :=
  mkChannel (inputQueue_ c) (outputQueue_ c) q (pendingOutputWire_ c) w
    (pendingOutputChunkSize_ c) n (closed_ c) pending (scheduling_ c).
Definition set_scheduling (x : option SessionInputScheduling) (b : bool) (c : IpcSessionChannel) : IpcSessionChannel :=
  mkChannel (inputQueue_ c) (outputQueue_ c) (diagnosticQueue_ c) (pendingOutputWire_ c) (pendingDiagnosticWire_ c)
    (pendingOutputChunkSize_ c) (pendingDiagnosticChunkSize_ c) b (hasPendingOutput_ c) x.

(** *** Input *)

(** The channel, and the session for which [resumeOnInput] is called. *)
(* src/core/daemon/IpcSessionChannel.cpp:85-100 [IpcSessionChannel::pushInput] *)
Definition pushInput (b : bytes) (c : IpcSessionChannel) : IpcSessionChannel * option Z :=
  if bool_decide (b = []) || closed_ c then (c, None)
  else (set_input (inputQueue_ c ++ b) c,
        match scheduling_ c with Some s => if resumeOnInput s then Some (owner s) else None | None => None end).

(* src/core/daemon/IpcSessionChannel.cpp:102-105 [IpcSessionChannel::setSessionScheduling] *)
Definition setSessionScheduling (s : SessionInputScheduling) (c : IpcSessionChannel) : IpcSessionChannel :=
  set_scheduling (Some s) (closed_ c) c.

(* src/core/daemon/IpcSessionChannel.cpp:107-110 [IpcSessionChannel::clearSessionScheduling] *)
Definition clearSessionScheduling (c : IpcSessionChannel) : IpcSessionChannel := set_scheduling None (closed_ c) c.

(* src/core/daemon/IpcSessionChannel.cpp:112-115 [IpcSessionChannel::hasSessionScheduling] *)
Definition hasSessionScheduling (c : IpcSessionChannel) : bool := bool_decide (is_Some (scheduling_ c)).

(* src/core/daemon/IpcSessionChannel.cpp:117-123 [IpcSessionChannel::close] *)
Definition close (c : IpcSessionChannel) : IpcSessionChannel := set_scheduling (scheduling_ c) true c.

(** A reader that has started ([Waiting sched]: with the scheduling it saw, after
    [yieldBeforeBlockingRead]) and what it may come to. *)
Inductive reading := Starting | Waiting (sched : option SessionInputScheduling) | Got (b : Z) | AtEnd.

(** One step of the reader; it stays where it is while it has to wait. The flags:
    [yieldBeforeBlockingRead] was called, [acquireAfterWake] was called. *)
(* src/core/daemon/IpcSessionChannel.cpp:236-278 [IpcSessionChannel::readInputChar] *)
Definition read_step (r : reading) (c : IpcSessionChannel) : reading * (bool * bool) * IpcSessionChannel :=
  match r with
  | Starting =>
      match inputQueue_ c with
      | b :: q => (Got b, (false, false), set_input q c)
      | [] =>
          if closed_ c then (AtEnd, (false, false), c)
          else match scheduling_ c with
               | None => (Waiting None, (false, false), c)
               | Some s => (Waiting (Some s), (yieldBeforeBlockingRead s, false), c)
               end
      end
  | Waiting sched =>
      match inputQueue_ c with
      | b :: q =>
          match sched with
          | None => (Starting, (false, false), c)
          | Some s => (Got b, (false, acquireAfterWake s), set_input q c)
          end
      | [] =>
          if closed_ c then match sched with None => (Starting, (false, false), c) | Some _ => (AtEnd, (false, false), c) end
          else (r, (false, false), c)
      end
  | Got _ | AtEnd => (r, (false, false), c)
  end.

(** *** Output *)

(* src/core/daemon/IpcSessionChannel.cpp:293-303 [IpcSessionChannel::writeOutputBytes] *)
Definition writeOutputBytes (b : bytes) (diagnostic : bool) (c : IpcSessionChannel) : IpcSessionChannel :=
  if diagnostic
  then set_diagnostic (diagnosticQueue_ c ++ b) (pendingDiagnosticWire_ c) (pendingDiagnosticChunkSize_ c) true c
  else set_output (outputQueue_ c ++ b) (pendingOutputWire_ c) (pendingOutputChunkSize_ c) true c.

(** [-1] is the end of file. *)
(* src/core/daemon/IpcSessionChannel.cpp:280-291 [IpcSessionChannel::writeOutputChar] *)
Definition writeOutputChar (ch : Z) (diagnostic : bool) (c : IpcSessionChannel) : IpcSessionChannel :=
  if ch =? -1 then c else writeOutputBytes [ch mod 256] diagnostic c.

(* src/core/daemon/IpcSessionChannel.cpp:305-308 [IpcSessionChannel::markPendingOutput] *)
Definition markPendingOutput (c : IpcSessionChannel) : IpcSessionChannel :=
  set_output (outputQueue_ c) (pendingOutputWire_ c) (pendingOutputChunkSize_ c) true c.

(* src/core/daemon/IpcSessionChannel.cpp:125-129 [IpcSessionChannel::hasPendingOutput] *)
Definition hasPendingOutput (c : IpcSessionChannel) : bool :=
  negb (bool_decide (outputQueue_ c = [])) || negb (bool_decide (diagnosticQueue_ c = [])) ||
  negb (bool_decide (pendingOutputWire_ c = [])) || negb (bool_decide (pendingDiagnosticWire_ c = [])).

(** The results used up are one per [write]; a call on an empty buffer is not made. *)
(* src/core/daemon/IpcSessionChannel.cpp:186-198 [IpcSessionChannel::flushWireBuffer] *)
Fixpoint flush_wire (wire : bytes) (ws : list Z) (sent : bytes) : bool * bytes * Socket :=
  match wire, ws with
  | [], _ => (true, [], mkSocket ws sent)
  | _, [] => (false, wire, mkSocket [] sent)
  | _, n :: ws' =>
      if n <? 0 then (false, wire, mkSocket ws' sent)
      else flush_wire (drop (Z.to_nat n) wire) ws' (sent ++ take (Z.to_nat n) wire)
  end.

Definition flushWireBuffer (wire : bytes) (s : Socket) : bool * bytes * Socket := flush_wire wire (s_writes s) (s_sent s).

Definition session_frame (type : MessageType.DaemonIpcMessageType) (d : bytes) : DaemonIpcFrame :=
  mkFrame kDaemonIpcProtocolVersion (MessageType.to_Z type) (encodeSessionDataPayload (mkData d)).

(** The references [queue], [pendingWire] and [pendingChunkSize]. *)
Record Pending := mkPending { queue : bytes; pendingWire : bytes; pendingChunkSize : nat }.

(** Every round takes at least a byte off the queue. *)
Fixpoint flush_loop (fuel : nat) (type : MessageType.DaemonIpcMessageType) (p : Pending) (s : Socket) : bool * Pending * Socket :=
  match fuel, queue p with
  | _, [] | O, _ => (true, p, s)
  | S fuel', _ =>
      let p1 :=
        match pendingWire p with
        | [] =>
            let n := Nat.min (length (queue p)) (Z.to_nat kDaemonIpcMaxSessionDataSize) in
            mkPending (queue p) (encodeDaemonIpcFrame (session_frame type (take n (queue p)))) n
        | _ => p
        end in
      match flushWireBuffer (pendingWire p1) s with
      | (false, wire, s') => (false, mkPending (queue p1) wire (pendingChunkSize p1), s')
      | (true, wire, s') => flush_loop fuel' type (mkPending (drop (pendingChunkSize p1) (queue p1)) wire 0) s'
      end
  end.

(* src/core/daemon/IpcSessionChannel.cpp:200-234 [IpcSessionChannel::flushQueue] *)
Definition flushQueue (type : MessageType.DaemonIpcMessageType) (p : Pending) (s : Socket) : bool * Pending * Socket :=
  match flushWireBuffer (pendingWire p) s with
  | (false, wire, s') => (false, mkPending (queue p) wire (pendingChunkSize p), s')
  | (true, wire, s') =>
      let q := drop (pendingChunkSize p) (queue p) in
      flush_loop (length q) type (mkPending q wire 0) s'
  end.

(** What the session's thread writes while the mutex is free: (diagnostic?, bytes). *)
Definition Window : Type := list (bool * bytes).

Definition session_writes (w : Window) (c : IpcSessionChannel) : IpcSessionChannel :=
  foldl (λ c x, writeOutputBytes x.2 x.1 c) c w.

Definition flush_if_any (type : MessageType.DaemonIpcMessageType) (p : Pending) (s : Socket) : bool * Pending * Socket :=
  if bool_decide (queue p = []) && bool_decide (pendingWire p = []) then (true, p, s) else flushQueue type p s.

(** [windows]: one per release of the mutex, as long as there are any; those that
    were not reached are returned. *)
Fixpoint flush_rounds (fuel : nat) (windows : list Window) (c : IpcSessionChannel) (s : Socket)
    : IpcSessionChannel * Socket * list Window :=
  match fuel with
  | O => (c, s, windows)
  | S fuel' =>
      if negb (hasPendingOutput c)
      then (set_output (outputQueue_ c) (pendingOutputWire_ c) (pendingOutputChunkSize_ c) false c, s, windows)
      else
        let p := mkPending (outputQueue_ c) (pendingOutputWire_ c) (pendingOutputChunkSize_ c) in
        let c1 := session_writes (default [] (head windows)) (set_output [] [] 0 (hasPendingOutput_ c) c) in
        let windows1 := tail windows in
        match flush_if_any MessageType.SessionOutput p s with
        | (false, p', s') => (set_output (queue p' ++ outputQueue_ c1) (pendingWire p') (pendingChunkSize p') true c1, s', windows1)
        | (true, _, s') =>
            let q := mkPending (diagnosticQueue_ c1) (pendingDiagnosticWire_ c1) (pendingDiagnosticChunkSize_ c1) in
            let c2 := session_writes (default [] (head windows1)) (set_diagnostic [] [] 0 (hasPendingOutput_ c1) c1) in
            let windows2 := tail windows1 in
            match flush_if_any MessageType.SessionDiagnostic q s' with
            | (false, q', s'') =>
                (set_diagnostic (queue q' ++ diagnosticQueue_ c2) (pendingWire q') (pendingChunkSize q') true c2, s'', windows2)
            | (true, _, s'') => flush_rounds fuel' windows2 c2 s''
            end
        end
  end.

(** A round after the last window finds the queues empty. *)
(* src/core/daemon/IpcSessionChannel.cpp:131-184 [IpcSessionChannel::flushPendingOutput] *)
Definition flushPendingOutput (windows : list Window) (c : IpcSessionChannel) (s : Socket)
    : IpcSessionChannel * Socket * list Window :=
  flush_rounds (S (S (length windows))) windows c s.

(** ** Delivery *)

(** What a flush writes for a queue. *)
Definition chunk_ok (d : bytes) : Prop := (0 < length d)%nat ∧ size d <= kDaemonIpcMaxSessionDataSize.

Section delivery.
Context (type : MessageType.DaemonIpcMessageType).

Definition frames_of (chunks : list bytes) : bytes := stream (session_frame type <$> chunks).

Lemma flush_wire_spec wire ws sent ok wire' s' : flush_wire wire ws sent = (ok, wire', s') →
  s_sent s' ++ wire' = sent ++ wire ∧ (ok = true → wire' = []).
Proof.
  revert wire sent. induction ws as [|n ws IH]; intros [|x wire] sent; cbn [flush_wire]; try (intros [= <- <- <-]; by rewrite ?app_nil_r).
  destruct (n <? 0); [by intros [= <- <- <-]|]. intros [H Hok]%IH. split; [|done]. by rewrite H, <- app_assoc, take_drop.
Qed.

Lemma frames_cons d chunks : frames_of (d :: chunks) = encodeDaemonIpcFrame (session_frame type d) ++ frames_of chunks.
Proof. done. Qed.

Lemma encode_nonempty fr : encodeDaemonIpcFrame fr ≠ [].
Proof. done. Qed.

Lemma flush_loop_spec fuel q s ok p' s' : (length q <= fuel)%nat → flush_loop fuel type (mkPending q [] 0) s = (ok, p', s') →
  ∃ chunks, Forall chunk_ok chunks ∧ s_sent s' ++ pendingWire p' = s_sent s ++ frames_of chunks ∧
    concat chunks ++ drop (pendingChunkSize p') (queue p') = q ∧ (pendingChunkSize p' <= length (queue p'))%nat ∧
    (ok = true → queue p' = [] ∧ pendingWire p' = []).
Proof.
  revert q s. induction fuel as [|fuel IH]; intros q s Hf.
  { destruct q; [|cbn in Hf; lia]. intros [= <- <- <-]. exists []. cbn. by rewrite !app_nil_r. }
  destruct q as [|x q]; cbn [flush_loop queue pendingWire].
  { intros [= <- <- <-]. exists []. cbn. by rewrite !app_nil_r. }
  set (n := Nat.min _ _). assert (1 <= n <= length (x :: q))%nat as Hn by (unfold n; cbn [length]; change kDaemonIpcMaxSessionDataSize with 65532; lia).
  assert (chunk_ok (take n (x :: q))) as Hok.
  { unfold chunk_ok, size. rewrite length_take. change kDaemonIpcMaxSessionDataSize with 65532. split; [lia|].
    assert (n <= Z.to_nat 65532)%nat by (unfold n; change kDaemonIpcMaxSessionDataSize with 65532; lia). lia. }
  cbn [queue pendingWire pendingChunkSize]. unfold flushWireBuffer. destruct (flush_wire _ _ _) as [[ok1 wire] s1] eqn:E.
  apply flush_wire_spec in E as [E Hw]. destruct ok1.
  - specialize (Hw eq_refl) as ->. rewrite app_nil_r in E. intros H. apply IH in H as (chunks & Hc & Hs & Hq & Hl & Hdone).
    2: { rewrite length_drop. lia. }
    exists (take n (x :: q) :: chunks). split_and!; [by constructor| |cbn [concat]; by rewrite <- app_assoc, Hq, take_drop|done|done].
    rewrite Hs, E, frames_cons. by rewrite <- app_assoc.
  - intros [= <- <- <-]. exists [take n (x :: q)]. cbn [pendingWire pendingChunkSize queue concat]. rewrite app_nil_r, take_drop.
    split_and!; [by constructor| |done|lia|done]. rewrite E. by rewrite frames_cons, app_nil_r.
Qed.

Lemma flushQueue_spec p s ok p' s' : (pendingChunkSize p <= length (queue p))%nat → flushQueue type p s = (ok, p', s') →
  ∃ chunks, Forall chunk_ok chunks ∧ s_sent s' ++ pendingWire p' = s_sent s ++ pendingWire p ++ frames_of chunks ∧
    concat chunks ++ drop (pendingChunkSize p') (queue p') = drop (pendingChunkSize p) (queue p) ∧
    (pendingChunkSize p' <= length (queue p'))%nat ∧ (ok = true → queue p' = [] ∧ pendingWire p' = []).
Proof.
  intros Hn. unfold flushQueue, flushWireBuffer. destruct (flush_wire _ _ _) as [[ok1 wire] s1] eqn:E.
  apply flush_wire_spec in E as [E Hw]. destruct ok1.
  - specialize (Hw eq_refl) as ->. rewrite app_nil_r in E. intros (chunks & ? & Hs & ? & ? & ?)%flush_loop_spec; [|done].
    exists chunks. split_and!; [done| |done..]. by rewrite Hs, E, <- app_assoc.
  - intros [= <- <- <-]. exists []. split_and!; [constructor| |done..]. cbn [pendingWire]. rewrite E. cbn. by rewrite app_nil_r.
Qed.

Lemma flush_if_any_spec p s ok p' s' : (pendingChunkSize p <= length (queue p))%nat → flush_if_any type p s = (ok, p', s') →
  ∃ chunks, Forall chunk_ok chunks ∧ s_sent s' ++ pendingWire p' = s_sent s ++ pendingWire p ++ frames_of chunks ∧
    concat chunks ++ drop (pendingChunkSize p') (queue p') = drop (pendingChunkSize p) (queue p) ∧
    (pendingChunkSize p' <= length (queue p'))%nat ∧ (ok = true → queue p' = [] ∧ pendingWire p' = []).
Proof.
  intros Hn. unfold flush_if_any. destruct (bool_decide_reflect (queue p = [])) as [Hq|]; [|by apply flushQueue_spec].
  destruct (bool_decide_reflect (pendingWire p = [])) as [Hw|]; [|by apply flushQueue_spec].
  cbn. intros [= <- <- <-]. exists []. split_and!; [constructor|cbn; by rewrite app_nil_r|done..].
Qed.
End delivery.

(** *** A session that writes no diagnostics *)

Definition written (ws : list Window) : bytes := concat (snd <$> concat ws).

Definition output_only (w : Window) : Prop := Forall (λ x, x.1 = false) w.

(** All that was written is on the socket, in the frame being sent, or in the queue,
    in this order and once. *)
Definition accounted (total : bytes) (c : IpcSessionChannel) (sent : bytes) : Prop :=
  diagnosticQueue_ c = [] ∧ pendingDiagnosticWire_ c = [] ∧ pendingDiagnosticChunkSize_ c = 0%nat ∧
  (pendingOutputChunkSize_ c <= length (outputQueue_ c))%nat ∧
  ∃ chunks, Forall chunk_ok chunks ∧ sent ++ pendingOutputWire_ c = frames_of MessageType.SessionOutput chunks ∧
    concat chunks ++ drop (pendingOutputChunkSize_ c) (outputQueue_ c) = total.

Lemma session_writes_output w c : output_only w →
  session_writes w c = set_output (outputQueue_ c ++ concat (snd <$> w)) (pendingOutputWire_ c) (pendingOutputChunkSize_ c)
                         (match w with [] => hasPendingOutput_ c | _ => true end) c.
Proof.
  unfold session_writes. revert c. induction w as [|[d b] w IH]; intros c Hw; cbn [foldl].
  - cbn. rewrite app_nil_r. by destruct c.
  - inversion_clear Hw as [|? ? Hd Hw']. cbn in Hd. subst d. rewrite IH by done. cbn. rewrite <- app_assoc. by destruct w.
Qed.

Lemma frames_app type a b : frames_of type (a ++ b) = frames_of type a ++ frames_of type b.
Proof. unfold frames_of, stream. by rewrite !fmap_app, concat_app. Qed.

Lemma accounted_writes total w c sent : output_only w → accounted total c sent → accounted (total ++ concat (snd <$> w)) (session_writes w c) sent.
Proof.
  intros Hw (Hd & Hdw & Hdn & Hn & chunks & Hc & Hs & Hq). rewrite session_writes_output by done.
  split_and!; [done..|cbn; rewrite length_app; lia|]. exists chunks. cbn. split_and!; [done..|].
  rewrite drop_app_le by done. by rewrite app_assoc, Hq.
Qed.

Lemma output_only_head ws : Forall output_only ws → output_only (default [] (head ws)) ∧ Forall output_only (tail ws).
Proof. intros H. destruct H as [|w ws Hw H]; [by split; constructor|by split]. Qed.

Lemma written_head ws : written ws = concat (snd <$> default [] (head ws)) ++ written (tail ws).
Proof. destruct ws as [|w ws]; [done|]. unfold written. cbn [concat head tail default]. by rewrite fmap_app, concat_app. Qed.

Lemma set_diagnostic_same c : set_diagnostic (diagnosticQueue_ c) (pendingDiagnosticWire_ c) (pendingDiagnosticChunkSize_ c) (hasPendingOutput_ c) c = c.
Proof. by destruct c. Qed.

Lemma flush_rounds_spec fuel ws c s total c' s' ws' : Forall output_only ws → accounted total c (s_sent s) →
  flush_rounds fuel ws c s = (c', s', ws') →
  ∃ done_, accounted (total ++ done_) c' (s_sent s') ∧ total ++ done_ ++ written ws' = total ++ written ws ∧ Forall output_only ws'.
Proof.
  revert ws c s total. induction fuel as [|fuel IH]; intros ws c s total Hws Hacc; cbn [flush_rounds].
  { intros [= <- <- <-]. exists []. by rewrite app_nil_r. }
  destruct (negb (hasPendingOutput c)).
  { intros [= <- <- <-]. exists []. rewrite app_nil_r. split_and!; [|done..].
    destruct Hacc as (? & ? & ? & ? & ?). by split_and!. }
  destruct (output_only_head ws Hws) as [Hw Hws1]. pose proof Hacc as (Hd & Hdw & Hdn & Hn & chunks & Hc & Hs & Hq).
  destruct (flush_if_any _ _ s) as [[ok p'] s1] eqn:E.
  apply flush_if_any_spec in E as (more & Hm & Hsent & Hqueue & Hlen & Hok); [|done]. cbn [queue pendingWire pendingChunkSize] in Hsent, Hqueue.
  rewrite session_writes_output by done. cbn [set_output outputQueue_ pendingOutputWire_ pendingOutputChunkSize_ diagnosticQueue_ pendingDiagnosticWire_ pendingDiagnosticChunkSize_ hasPendingOutput_].
  set (arrived := concat (snd <$> default [] (head ws))).
  assert (Hpart : accounted (total ++ arrived)
    (set_output (queue p' ++ [] ++ arrived) (pendingWire p') (pendingChunkSize p') true c) (s_sent s1)).
  { split_and!; [done..|cbn; rewrite length_app; lia|]. exists (chunks ++ more). cbn.
    split_and!; [by apply Forall_app| |].
    - by rewrite Hsent, frames_app, app_assoc, Hs.
    - rewrite drop_app_le by done. rewrite concat_app, <- !app_assoc, (app_assoc _ _ arrived), Hqueue, app_assoc, Hq. done. }
  destruct ok.
  - destruct (Hok eq_refl) as [Hq0 Hw0]. rewrite Hq0, Hw0 in *. assert (pendingChunkSize p' = 0%nat) as Hn0 by (cbn in Hlen; lia). rewrite Hn0 in *.
    rewrite Hd, Hdw, Hdn. unfold flush_if_any. cbn [queue pendingWire]. rewrite !bool_decide_true by done. cbn [andb].
    destruct (output_only_head _ Hws1) as [Hw2 Hws2].
    intros H. apply (IH _ _ _ ((total ++ arrived) ++ concat (snd <$> default [] (head (tail ws))))) in H as (d & Ha & Ht & Hw'); [|done|].
    + exists (arrived ++ concat (snd <$> default [] (head (tail ws))) ++ d). rewrite !app_assoc in *. split_and!; [done| |done].
      rewrite Ht, (written_head ws), (written_head (tail ws)), <- !app_assoc. done.
    + apply accounted_writes; [done|]. destruct Hpart as (? & ? & ? & ? & ?). split_and!; done.
  - intros [= <- <- <-]. exists arrived. split_and!; [done| |done]. by rewrite (written_head ws).
Qed.

(** *** Any order of writes and flushes *)

(** The session writes; or the server flushes, with the results of the [write] calls
    and what the session writes meanwhile. *)
Inductive channel_event := SWrite (b : bytes) | SFlush (writes : list Z) (meanwhile : list bytes).

Definition channel_step (st : IpcSessionChannel * bytes) (e : channel_event) : IpcSessionChannel * bytes :=
  let '(c, sent) := st in
  match e with
  | SWrite b => (writeOutputBytes b false c, sent)
  | SFlush writes meanwhile =>
      let '(c', s', later) := flushPendingOutput ((λ b, [(false, b)]) <$> meanwhile) c (mkSocket writes sent) in
      (foldl (λ c w, session_writes w c) c' later, s_sent s')
  end.

Definition channel_run (es : list channel_event) : IpcSessionChannel * bytes := foldl channel_step (newChannel, []) es.

Definition event_bytes (e : channel_event) : bytes :=
  match e with SWrite b => b | SFlush _ meanwhile => concat meanwhile end.

Lemma accounted_later ws c total sent : Forall output_only ws → accounted total c sent →
  accounted (total ++ written ws) (foldl (λ c w, session_writes w c) c ws) sent.
Proof.
  intros Hw. revert c total. induction Hw as [|w ws Hw Hws IH]; intros c total Ha; cbn [foldl].
  - unfold written. cbn. by rewrite app_nil_r.
  - rewrite (written_head (w :: ws)), app_assoc. by apply IH, accounted_writes.
Qed.

Lemma channel_step_accounted e c sent total : accounted total c sent →
  accounted (total ++ event_bytes e) (channel_step (c, sent) e).1 (channel_step (c, sent) e).2.
Proof.
  intros Ha. destruct e as [b|writes meanwhile]; cbn [channel_step event_bytes].
  - pose proof (accounted_writes total [(false, b)] c sent) as H. cbn in H. rewrite app_nil_r in H. apply H; [by constructor|done].
  - destruct (flushPendingOutput _ _ _) as [[c' s'] later] eqn:E. cbn [fst snd].
    assert (Forall output_only ((λ b, [(false, b)]) <$> meanwhile)) as Hw.
    { apply Forall_fmap, Forall_true. intros b. by constructor. }
    apply (flush_rounds_spec _ _ _ _ total) in E as (d & Ha' & Ht & Hw'); [|done..].
    assert (written ((λ b, [(false, b)]) <$> meanwhile) = concat meanwhile) as Hm.
    { clear. induction meanwhile as [|b l IH]; [done|]. cbn [fmap list_fmap]. rewrite written_head. cbn. rewrite app_nil_r. f_equal. apply IH. }
    rewrite Hm in Ht. rewrite <- Ht, app_assoc. by apply accounted_later.
Qed.

Lemma channel_run_accounted es : accounted (concat (event_bytes <$> es)) (channel_run es).1 (channel_run es).2.
Proof.
  unfold channel_run. induction es as [|e es IH] using rev_ind.
  - split_and!; try done. by exists [].
  - rewrite foldl_app, fmap_app, concat_app. cbn [foldl fmap list_fmap concat]. rewrite app_nil_r.
    destruct (foldl channel_step _ es) as [c sent]. by apply channel_step_accounted.
Qed.

(** *** A flush goes on as long as the socket takes bytes *)

Definition refused (ws : list Z) : Prop := Exists (λ n, n < 0) ws.

(** After a [write] that was refused, what was to be written is kept; else the results are used up. *)
Definition stopped (s s' : Socket) : Prop := s_writes s' = [] ∨ refused (s_writes s).

Definition uses (s s' : Socket) : Prop := ∃ used, s_writes s = used ++ s_writes s'.

Lemma uses_refl s : uses s s.
Proof. by exists []. Qed.

Lemma uses_trans s1 s2 s3 : uses s1 s2 → uses s2 s3 → uses s1 s3.
Proof. intros [a Ha] [b Hb]. exists (a ++ b). by rewrite Ha, Hb, app_assoc. Qed.

Lemma stopped_uses s1 s2 s3 : uses s1 s2 → stopped s2 s3 → stopped s1 s3.
Proof. intros [a Ha] [H|H]; [by left|right]. unfold refused. rewrite Ha. apply Exists_app. by right. Qed.

Lemma flush_wire_stops wire ws sent ok wire' s' : flush_wire wire ws sent = (ok, wire', s') →
  uses (mkSocket ws sent) s' ∧ (ok = false → stopped (mkSocket ws sent) s').
Proof.
  revert wire sent. induction ws as [|n ws IH]; intros [|x wire] sent; cbn [flush_wire].
  1-3: intros [= <- <- <-]; (split; [by exists []|]); try done; by left.
  destruct (n <? 0) eqn:En.
  - intros [= <- <- <-]. split; [by exists [n]|]. intros _. right. constructor. lia.
  - intros [[u Hu] Hs]%IH. split; [exists (n :: u); cbn in *; by rewrite Hu|]. intros [H|H]%Hs; [by left|right]. by constructor 2.
Qed.

Lemma flush_loop_stops type fuel p s ok p' s' : flush_loop fuel type p s = (ok, p', s') → uses s s' ∧ (ok = false → stopped s s').
Proof.
  revert p s. induction fuel as [|fuel IH]; intros p s; cbn [flush_loop].
  { destruct (queue p); intros [= <- <- <-]; split; done || apply uses_refl. }
  destruct (queue p) as [|x q]; [intros [= <- <- <-]; split; done || apply uses_refl|].
  generalize (Nat.min (length (x :: q)) (Z.to_nat kDaemonIpcMaxSessionDataSize)). intros n.
  unfold flushWireBuffer. destruct (flush_wire _ _ _) as [[ok1 wire] s1] eqn:E. apply flush_wire_stops in E as [Hu Hs].
  replace (mkSocket (s_writes s) (s_sent s)) with s in * by (by destruct s). destruct ok1.
  - intros [Hu' Hs']%IH. split; [by eapply uses_trans|]. intros Hf. eapply stopped_uses; [done|]. by apply Hs'.
  - intros [= <- <- <-]. by split.
Qed.

Lemma flush_if_any_stops type p s ok p' s' : flush_if_any type p s = (ok, p', s') → uses s s' ∧ (ok = false → stopped s s').
Proof.
  unfold flush_if_any. destruct (_ && _); [intros [= <- <- <-]; split; done || apply uses_refl|].
  unfold flushQueue, flushWireBuffer. destruct (flush_wire _ _ _) as [[ok1 wire] s1] eqn:E. apply flush_wire_stops in E as [Hu Hs].
  replace (mkSocket (s_writes s) (s_sent s)) with s in * by (by destruct s). destruct ok1.
  - intros [Hu' Hs']%flush_loop_stops. split; [by eapply uses_trans|]. intros Hf. eapply stopped_uses; [done|]. by apply Hs'.
  - intros [= <- <- <-]. by split.
Qed.

(** Without writes of the session two rounds are enough. *)
Lemma flush_drains c s c' s' w : flushPendingOutput [] c s = (c', s', w) → hasPendingOutput c' = false ∨ stopped s s'.
Proof.
  unfold flushPendingOutput. cbn [length flush_rounds]. destruct (hasPendingOutput c) eqn:Ep; cbn [negb].
  2: { intros [= <- <- <-]. left. by destruct c. }
  cbn [head tail default session_writes foldl].
  destruct (flush_if_any _ _ s) as [[ok p] s1] eqn:E1. apply flush_if_any_stops in E1 as [Hu1 Hs1].
  destruct ok; [|intros [= <- <- <-]; right; by apply Hs1].
  destruct (flush_if_any _ _ s1) as [[ok q] s2] eqn:E2. apply flush_if_any_stops in E2 as [Hu2 Hs2].
  destruct ok; [|intros [= <- <- <-]; right; eapply stopped_uses; [done|by apply Hs2]].
  cbn. intros [= <- <- <-]. by left.
Qed.

(** C10. A session's output is delivered once, in order, and in whole frames,
    whatever part of it each [write] to the socket takes. For every interleaving of
    the session's writes (also during a flush) and the server's flushes, as long as
    nothing else is written to the socket and no diagnostics are pending, the bytes
    sent so far and the rest of the frame being sent are a stream of SessionOutput
    frames with 1 to 65532 bytes of data each, and these data, followed by what is
    left in the queue, are exactly the bytes the session wrote. When nothing is
    pending, all has been sent. A flush only leaves something pending when the
    socket refuses a write. *)
Theorem channel_delivery (es : list channel_event) :
  let c := (channel_run es).1 in
  let sent := (channel_run es).2 in
  let total := concat (event_bytes <$> es) in
  ∃ chunks, Forall (λ d, 1 <= size d <= 65532) chunks ∧
    sent ++ pendingOutputWire_ c = stream (session_frame MessageType.SessionOutput <$> chunks) ∧
    concat chunks ++ drop (pendingOutputChunkSize_ c) (outputQueue_ c) = total ∧
    (hasPendingOutput c = false → sent = stream (session_frame MessageType.SessionOutput <$> chunks) ∧ concat chunks = total) ∧
    ∀ writes, Forall (λ n, 0 <= n) writes →
      let '(c', s', _) := flushPendingOutput [] c (mkSocket writes sent) in hasPendingOutput c' = false ∨ s_writes s' = [].
Proof.
  intros c sent total. destruct (channel_run_accounted es) as (_ & _ & _ & _ & chunks & Hc & Hs & Hq).
  exists chunks. split; [|split; [exact Hs|split; [exact Hq|split]]].
  - eapply Forall_impl; [exact Hc|]. intros d [H1 H2]. change kDaemonIpcMaxSessionDataSize with 65532 in H2. unfold size in *. lia.
  - intros Hp. fold c in Hs, Hq. unfold hasPendingOutput in Hp. rewrite !orb_false_iff, !negb_false_iff, !bool_decide_eq_true in Hp.
    destruct Hp as [[[Hq0 _] Hw0] _]. rewrite Hw0, app_nil_r in Hs. rewrite Hq0, drop_nil, app_nil_r in Hq. done.
  - intros writes Hw. destruct (flushPendingOutput _ _ _) as [[c' s'] w] eqn:E. apply flush_drains in E as [?|[?|H]]; [by left|by right|].
    exfalso. unfold refused in H. cbn in H. apply Exists_exists in H as (n & Hin & Hn). rewrite Forall_forall in Hw. specialize (Hw n Hin). lia.
Qed.

(** *** Other writers

    A frame that was cut short is only completed by the next flush. Diagnostics are
    flushed after output, so a frame of output can come in the middle of a frame of
    diagnostics; and the server writes its own answers directly. *)
Definition send_reply (type : MessageType.DaemonIpcMessageType) (s : Socket) : bool * Socket :=
  send_frame (mkFrame kDaemonIpcProtocolVersion (MessageType.to_Z type) []) s.

Definition client_reads (sent : bytes) : DaemonIpcTryReadResult * bytes :=
  let '(r, b, _) := tryReadDaemonIpcFrame (poll [sent]) [] in (r, b).

(** The session writes a diagnostic, of which the socket takes all but the last byte;
    it then writes output. *)
Example diagnostics_are_cut_by_output :
  let c1 := writeOutputBytes [69; 33; 33] true newChannel in
  let '(c2, s2, _) := flushPendingOutput [] c1 (mkSocket [18; -1] []) in
  let '(c3, s3, _) := flushPendingOutput [] (writeOutputBytes [79] false c2) (mkSocket [99; 99] (s_sent s2)) in
  hasPendingOutput c3 = false ∧
  client_reads (s_sent s3) =
    (mkResult FrameReady (Some (mkFrame 1 16 [0; 0; 0; 3; 69; 33; 71])), [69; 77; 73; 0; 1; 0; 15; 0; 0; 0; 5; 0; 0; 0; 1; 79; 33]).
Proof. by vm_compute. Qed.

(** The same with the answer to a PING of the client. *)
Example output_is_cut_by_answers :
  let c1 := writeOutputBytes [79; 75] false newChannel in
  let '(c2, s2, _) := flushPendingOutput [] c1 (mkSocket [17; -1] []) in
  let '(ok, s3) := send_reply MessageType.Pong (mkSocket [99] (s_sent s2)) in
  ok = true ∧
  client_reads (s_sent s3) = (mkResult FrameReady (Some (mkFrame 1 15 [0; 0; 0; 2; 79; 71])), [69; 77; 73; 0; 1; 0; 4; 0; 0; 0; 0]).
Proof. by vm_compute. Qed.
