(* ===== verification/Server.v ===== *)
(** * The daemon's server

    [PickCore::DaemonIpcServer]: the connections of the console programs, and what
    is done with the frames they send.  What the server asks of the rest of the
    daemon is the record [DaemonIpcHandlers], whose functions act on a state [W]
    of their own and on the channels, which the server and the sessions share: a
    connection holds the name of its channel, and using one that has been
    destroyed is [Undefined]. *)

From Stdlib Require Import Ascii String.
From S2P Require Import Prelude CLib Ipc Channel.
From stdpp Require Import options.
Local Open Scope Z_scope.

(* src/core/daemon/DaemonIpcServer.h:21-21 [AttachSessionStatus] *)
Inductive AttachSessionStatus := AttachOk | SessionTableFull | SessionNotFound | SessionAlreadyBound.

#[global] Instance AttachSessionStatus_eq_dec : EqDecision AttachSessionStatus.
Proof. solve_decision. Defined.

(* src/core/daemon/DaemonIpcServer.h:35-38 [DaemonIpcServerConfig] *)
Record DaemonIpcServerConfig := mkServerConfig { maxSessions : Z; buildVersion : string }.

(** [c_sock]: the client's end; what the next writes do, and what was sent. *)
(* src/core/daemon/DaemonIpcServer.h:53-59 [DaemonIpcServer::Connection] *)
Record Connection := mkConnection {
  c_fd : Z;
  handshaken : bool;
  readBuffer : bytes;
  attachedPort : option Z;
  channel : option nat;
  c_sock : Socket
}.

Definition set_sock (s : Socket) (k : Connection) : Connection :=
  mkConnection (c_fd k) (handshaken k) (readBuffer k) (attachedPort k) (channel k) s.
Definition set_buffer (b : bytes) (k : Connection) : Connection :=
  mkConnection (c_fd k) (handshaken k) b (attachedPort k) (channel k) (c_sock k).
Definition set_session (port : option Z) (ch : option nat) (k : Connection) : Connection :=
  mkConnection (c_fd k) (handshaken k) (readBuffer k) port ch (c_sock k).
Definition shake (k : Connection) : Connection :=
  mkConnection (c_fd k) true (readBuffer k) (attachedPort k) (channel k) (c_sock k).

(** The channels, by name, and the state of the handlers. *)
Record Shared (W : Type) := mkShared { channels : gmap nat IpcSessionChannel; hworld : W }.
Arguments mkShared {W} _ _.
Arguments channels {W} _.
Arguments hworld {W} _.

(** [resume_session]: what the function [resumeOnInput] of a channel does. *)
(* src/core/daemon/DaemonIpcServer.h:28-33 [DaemonIpcHandlers] *)
Record DaemonIpcHandlers (W : Type) := mkHandlers {
  reserveSession : option (proc (Shared W) (option Z));
  attachSession : option (Z → nat → proc (Shared W) (AttachSessionStatus * Z));
  detachSession : option (Z → proc (Shared W) unit);
  requestShutdown : option (proc (Shared W) unit);
  resume_session : Z → proc (Shared W) unit
}.
Arguments reserveSession {W} _.
Arguments attachSession {W} _.
Arguments detachSession {W} _.
Arguments requestShutdown {W} _.
Arguments resume_session {W} _.

Section server.
Context {W : Type}.

(** *** Channels *)

Definition on_channel {A} (ch : nat) (f : IpcSessionChannel → A * IpcSessionChannel) : proc (Shared W) A := λ s,
  match channels s !! ch with
  | None => (Undefined "channel destroyed", s)
  | Some c => let '(a, c') := f c in (Ok a, mkShared (<[ch := c']> (channels s)) (hworld s))
  end.

Definition new_channel : proc (Shared W) nat := λ s,
  let ch := fresh (dom (channels s)) in (Ok ch, mkShared (<[ch := newChannel]> (channels s)) (hworld s)).

Definition destroy_channel (ch : nat) : proc (Shared W) unit := modify (λ s, mkShared (delete ch (channels s)) (hworld s)).

(** *** Leaving a session *)

Context (h : DaemonIpcHandlers W).

(** [handlers.detachSession] may be absent. *)
(* src/core/daemon/DaemonIpcServer.cpp:125-138 [DaemonIpcServer::detachConnection] *)
Definition detachConnection (detach : option (Z → proc (Shared W) unit)) (k : Connection) : proc (Shared W) Connection :=
  match attachedPort k with
  | None => mret k
  | Some port =>
      match channel k with
      | Some ch => on_channel ch (λ c, (tt, close (clearSessionScheduling c)))
      | None => mret tt
      end;;
      match detach with Some f => f port | None => mret tt end;;
      match channel k with Some ch => destroy_channel ch | None => mret tt end;;
      mret (set_session None None k)
  end.

(** The connection is gone. *)
(* src/core/daemon/DaemonIpcServer.cpp:148-155 [DaemonIpcServer::removeConnectionAt] *)
Definition remove_connection (k : Connection) : proc (Shared W) unit := detachConnection (detachSession h) k;; mret tt.

(* src/core/daemon/DaemonIpcServer.cpp:140-146 [DaemonIpcServer::closeAllConnections] *)
Fixpoint closeAllConnections (detach : option (Z → proc (Shared W) unit)) (ks : list Connection) : proc (Shared W) unit :=
  match ks with
  | [] => mret tt
  | k :: ks' => detachConnection detach k;; closeAllConnections detach ks'
  end.

(** *** Answers *)

Definition plain_frame (type : MessageType.DaemonIpcMessageType) (b : bytes) : DaemonIpcFrame :=
  mkFrame kDaemonIpcProtocolVersion (MessageType.to_Z type) b.

Definition write_frame (fr : DaemonIpcFrame) (k : Connection) : bool * Connection :=
  let '(ok, s) := send_frame fr (c_sock k) in (ok, set_sock s k).

(* src/core/daemon/DaemonIpcServer.cpp:176-184 [DaemonIpcServer::sendError] *)
Definition sendError (code : ErrorCode.DaemonIpcErrorCode) (message : string) (k : Connection) : bool * Connection :=
  write_frame (plain_frame MessageType.Error (encodeErrorPayload (mkError (ErrorCode.to_Z code) message))) k.

(* src/core/daemon/DaemonIpcServer.cpp:37-49 [attachStatusToErrorCode] *)
Definition attachStatusToErrorCode (status : AttachSessionStatus) : ErrorCode.DaemonIpcErrorCode :=
  match status with
  | SessionNotFound => ErrorCode.SessionNotFound
  | SessionAlreadyBound => ErrorCode.SessionAlreadyBound
  | SessionTableFull => ErrorCode.SessionTableFull
  | AttachOk => ErrorCode.InvalidMessage
  end.

(* src/core/daemon/DaemonIpcServer.cpp:51-63 [attachStatusMessage] *)
Definition attachStatusMessage (status : AttachSessionStatus) : string :=
  match status with
  | SessionNotFound => "session not found"
  | SessionAlreadyBound => "session already bound"
  | SessionTableFull => "session table full"
  | AttachOk => "attach failed"
  end.

(** The connection after a frame, and what follows. *)
(* src/core/daemon/DaemonIpcServer.h:61-64 [DaemonIpcServer::DispatchOutcome] *)
Record DispatchOutcome := mkOutcome { after : Connection; closeConnection : bool; shutdownRequested : bool }.

Definition go_on (k : Connection) : proc (Shared W) DispatchOutcome := mret (mkOutcome k false false).
Definition hang_up (k : Connection) : proc (Shared W) DispatchOutcome := mret (mkOutcome k true false).

(** Answer with an error; the answer may not get through. *)
Definition refuse_and (next : Connection → proc (Shared W) DispatchOutcome) (code : ErrorCode.DaemonIpcErrorCode) (message : string) (k : Connection)
    : proc (Shared W) DispatchOutcome :=
  next (sendError code message k).2.

(** Answer; hang up when the answer does not get through. *)
Definition answer (type : MessageType.DaemonIpcMessageType) (b : bytes) (k : Connection) : proc (Shared W) DispatchOutcome :=
  let '(ok, k') := write_frame (plain_frame type b) k in if ok then go_on k' else hang_up k'.

Definition is_type (fr : DaemonIpcFrame) (t : MessageType.DaemonIpcMessageType) : bool := ftype fr =? MessageType.to_Z t.

Definition dispatch_handshake (config : DaemonIpcServerConfig) (fr : DaemonIpcFrame) (k : Connection) : proc (Shared W) DispatchOutcome :=
  if negb (is_type fr MessageType.Handshake) then refuse_and hang_up ErrorCode.NotHandshaken "handshake required" k
  else match decodeHandshakePayload (payload fr) with
  | None => refuse_and hang_up ErrorCode.UnsupportedVersion "unsupported client protocol version" k
  | Some handshake =>
      if negb (clientProtocolVersion handshake =? kDaemonIpcProtocolVersion)
      then refuse_and hang_up ErrorCode.UnsupportedVersion "unsupported client protocol version" k
      else
        let ack := mkHandshakeAck kDaemonIpcProtocolVersion (maxSessions config mod 65536) (buildVersion config) in
        let '(ok, k') := write_frame (plain_frame MessageType.HandshakeAck (encodeHandshakeAckPayload ack)) k in
        if ok then go_on (shake k') else hang_up k'
  end.

Definition dispatch_shutdown (k : Connection) : proc (Shared W) DispatchOutcome :=
  let '(ok, k') := write_frame (plain_frame MessageType.ShutdownAck []) k in
  if negb ok then hang_up k'
  else
    match requestShutdown h with Some f => f | None => mret tt end;;
    mret (mkOutcome k' true true).

Definition dispatch_reserve (k : Connection) : proc (Shared W) DispatchOutcome :=
  match reserveSession h with
  | None => refuse_and hang_up ErrorCode.InvalidMessage "reserve session unavailable" k
  | Some reserve =>
      sessionId ← reserve;
      match sessionId with
      | None => refuse_and hang_up ErrorCode.SessionTableFull "session table full" k
      | Some port => answer MessageType.ReserveSessionAck (encodeReserveSessionAckPayload (mkReserveAck port)) k
      end
  end.

Definition dispatch_attach (fr : DaemonIpcFrame) (k : Connection) : proc (Shared W) DispatchOutcome :=
  match attachedPort k with
  | Some _ => refuse_and go_on ErrorCode.InvalidMessage "already attached" k
  | None =>
      match decodeAttachSessionPayload (payload fr) with
      | None => refuse_and go_on ErrorCode.InvalidMessage "invalid attach payload" k
      | Some attachPayload =>
          match attachSession h with
          | None => refuse_and go_on ErrorCode.InvalidMessage "session attach unavailable" k
          | Some attach =>
              ch ← new_channel;
              result ← attach (requestedPort attachPayload) ch;
              let '(status, port) := result : AttachSessionStatus * Z in
              if negb (bool_decide (status = AttachOk)) then
                destroy_channel ch;;
                refuse_and go_on (attachStatusToErrorCode status) (attachStatusMessage status) k
              else
                let k1 := set_session (Some port) (Some ch) k in
                let '(ok, k2) := write_frame (plain_frame MessageType.AttachSessionAck (encodeAttachSessionAckPayload (mkAttachAck port))) k1 in
                if ok then go_on k2 else k3 ← detachConnection (detachSession h) k2; hang_up k3
          end
      end
  end.

Definition dispatch_detach (k : Connection) : proc (Shared W) DispatchOutcome :=
  match attachedPort k with
  | None => refuse_and go_on ErrorCode.NotAttached "session not attached" k
  | Some _ => k' ← detachConnection (detachSession h) k; answer MessageType.DetachSessionAck [] k'
  end.

Definition dispatch_input (fr : DaemonIpcFrame) (k : Connection) : proc (Shared W) DispatchOutcome :=
  match attachedPort k, channel k with
  | Some _, Some ch =>
      match decodeSessionDataPayload (payload fr) with
      | None => refuse_and go_on ErrorCode.InvalidMessage "invalid session input" k
      | Some input =>
          resumed ← on_channel ch (λ c, let '(c', r) := pushInput (data input) c in (r, c'));
          match resumed with Some port => resume_session h port | None => mret tt end;;
          go_on k
      end
  | _, _ => refuse_and go_on ErrorCode.NotAttached "session not attached" k
  end.

(* src/core/daemon/DaemonIpcServer.cpp:186-356 [DaemonIpcServer::dispatchFrame] *)
Definition dispatchFrame (config : DaemonIpcServerConfig) (fr : DaemonIpcFrame) (k : Connection) : proc (Shared W) DispatchOutcome :=
  if negb (version fr =? kDaemonIpcProtocolVersion)
  then refuse_and hang_up ErrorCode.UnsupportedVersion "unsupported protocol version" k
  else if negb (handshaken k) then dispatch_handshake config fr k
  else if is_type fr MessageType.Ping then answer MessageType.Pong [] k
  else if is_type fr MessageType.ShutdownRequest then dispatch_shutdown k
  else if is_type fr MessageType.ReserveSession then dispatch_reserve k
  else if is_type fr MessageType.AttachSession then dispatch_attach fr k
  else if is_type fr MessageType.DetachSession then dispatch_detach k
  else if is_type fr MessageType.SessionInput then dispatch_input fr k
  else if is_type fr MessageType.SessionOutput || is_type fr MessageType.SessionDiagnostic
  then match attachedPort k with
       | Some _ => refuse_and go_on ErrorCode.InvalidMessage "invalid message direction" k
       | None => refuse_and go_on ErrorCode.NotAttached "session not attached" k
       end
  else refuse_and hang_up ErrorCode.InvalidMessage "invalid message type" k.

(** *** Polling

    What a poll finds for a descriptor, what its reads and writes do (one [fd] per
    call that reads a frame; none left: [EAGAIN]), and what the session writes
    during the flushes of its output. *)
Record Ready := mkReady {
  r_hup : bool;
  r_out : bool;
  r_in : bool;
  r_reads : list fd;
  r_writes : list Z;
  r_windows : list Window;
  r_windows_end : list Window
}.

(** [p_result]: of [poll]; [p_accepted]: the descriptors that [accept] returns. *)
Record PollEnv := mkPollEnv { p_result : Z; p_listen : bool; p_accepted : list Z; p_ready : Z → Ready }.

Definition idle : Ready := mkReady false false false [] [] [] [].

(** [connections_]; the handlers' side is in the state. *)
(* src/core/daemon/DaemonIpcServer.h:76-78 [DaemonIpcServer] *)
Record Server := mkServer { listening : bool; connections_ : list Connection }.

Definition flush_connection (windows : list Window) (k : Connection) : proc (Shared W) Connection :=
  match channel k, attachedPort k with
  | Some ch, Some _ =>
      s ← on_channel ch (λ c, let '(c', s, later) := flushPendingOutput windows c (c_sock k) in
                              (s, foldl (λ c w, session_writes w c) c' later));
      mret (set_sock s k)
  | _, _ => mret k
  end.

(** The frames that have arrived, one after the other: each takes 12 bytes at least. *)
Fixpoint read_frames (fuel : nat) (config : DaemonIpcServerConfig) (reads : list fd) (k : Connection)
    : proc (Shared W) (Connection * bool * bool) :=
  match fuel with
  | O => lift (Undefined "frames")
  | S fuel' =>
      let '(r, buffer, _) := tryReadDaemonIpcFrame (default [RAgain] (head reads)) (readBuffer k) in
      let k1 := set_buffer buffer k in
      match status r, frame r with
      | Incomplete, _ => mret (k1, false, false)
      | FrameReady, Some fr =>
          outcome ← dispatchFrame config fr k1;
          if closeConnection outcome then mret (after outcome, true, shutdownRequested outcome)
          else
            rest ← read_frames fuel' config (tail reads) (after outcome);
            let '(k2, close_, shutdown) := rest in
            mret (k2, close_, shutdownRequested outcome || shutdown)
      | _, _ => mret (k1, true, false)
      end
  end.

Definition frame_rounds (reads : list fd) (k : Connection) : nat :=
  S (length (readBuffer k) + sum_list_with (sum_list_with event_size) reads).

(** One connection of the list, with [revents] found for it: it stays or goes. *)
Definition serve_connection (config : DaemonIpcServerConfig) (e : Ready) (k : Connection)
    : proc (Shared W) (option Connection * bool) :=
  let k := set_sock (mkSocket (r_writes e) (s_sent (c_sock k))) k in
  if r_hup e then remove_connection k;; mret (None, false)
  else
    k1 ← (if r_out e then flush_connection (r_windows e) k else mret k);
    read ← (if r_in e then read_frames (frame_rounds (r_reads e) k1) config (r_reads e) k1 else mret (k1, false, false));
    let '(k2, close_, shutdown) := read : Connection * bool * bool in
    if close_ then remove_connection k2;; mret (None, shutdown)
    else k3 ← flush_connection (r_windows_end e) k2; mret (Some k3, shutdown).

Fixpoint serve_all (config : DaemonIpcServerConfig) (ready : Connection → Ready) (ks : list Connection)
    : proc (Shared W) (list Connection * bool) :=
  match ks with
  | [] => mret ([], false)
  | k :: ks' =>
      one ← serve_connection config (ready k) k;
      rest ← serve_all config ready ks';
      mret (match one.1 with Some k' => k' :: rest.1 | None => rest.1 end, one.2 || rest.2)
  end.

Fixpoint flush_all (ready : Connection → Ready) (ks : list Connection) : proc (Shared W) (list Connection) :=
  match ks with
  | [] => mret []
  | k :: ks' =>
      let e := ready k in
      k' ← flush_connection (r_windows_end e) (set_sock (mkSocket (r_writes e) (s_sent (c_sock k))) k);
      rest ← flush_all ready ks';
      mret (k' :: rest)
  end.

Definition new_connection (f : Z) : Connection := mkConnection f false [] None None (mkSocket [] []).

(** [accept] until it fails. *)
(* src/core/daemon/DaemonIpcServer.cpp:157-174 [DaemonIpcServer::acceptPendingConnections] *)
Definition acceptPendingConnections (accepted : list Z) (s : Server) : Server :=
  if listening s then mkServer true (connections_ s ++ (new_connection <$> accepted)) else s.

(** A descriptor that was not polled has no events. *)
Definition revents (env : PollEnv) (polled : list Z) (k : Connection) : Ready :=
  if bool_decide (c_fd k ∈ polled) then p_ready env (c_fd k) else idle.

(* src/core/daemon/DaemonIpcServer.cpp:358-459 [DaemonIpcServer::pollAndDispatch] *)
Definition pollAndDispatch (env : PollEnv) (config : DaemonIpcServerConfig) (s : Server) : proc (Shared W) (Server * bool) :=
  if negb (listening s) then mret (s, false)
  else
    let polled := c_fd <$> connections_ s in
    if p_result env <=? 0 then
      ks ← flush_all (revents env polled) (connections_ s);
      mret (mkServer true ks, false)
    else
      let s1 := if p_listen env then acceptPendingConnections (p_accepted env) s else s in
      r ← serve_all config (revents env polled) (connections_ s1);
      mret (mkServer true r.1, r.2).

(** The descriptor that listens and the socket's path are in DaemonMain.v. *)
(* src/core/daemon/DaemonIpcServer.cpp:115-123 [DaemonIpcServer::stop] *)
Definition stop (s : Server) : proc (Shared W) Server :=
  closeAllConnections None (connections_ s);; mret (mkServer false []).
End server.

(** ** Runs that use no destroyed channel

    [ends P m Q]: from a state with [P], [m] returns with [Q], or it stops for a reason
    that [halts] allows: what the program does not decide. *)
Class Halts := halts : string → Prop.

Section ends.
Context `{Stop : Halts}.

Definition ends {S A} (P : S → Prop) (m : proc S A) (Q : A → S → Prop) : Prop := ∀ s, P s →
  match m s with
  | (Ok a, s') => Q a s'
  | (Throw _, _) => False
  | (Undefined why, _) => halts why
  end.

Lemma ends_bind {S A B} (P : S → Prop) (m : proc S A) (k : A → proc S B) Q R :
  ends P m Q → (∀ a, ends (Q a) (k a) R) → ends P (m ≫= k) R.
Proof.
  intros Hm Hk s Hs. specialize (Hm s Hs). unfold mbind, proc_bind. destruct (m s) as [[a|e|u] s']; [|done..]. exact (Hk a s' Hm).
Qed.

Lemma ends_ret {S A} (P : S → Prop) (a : A) (Q : A → S → Prop) : (∀ s, P s → Q a s) → ends P (mret a) Q.
Proof. intros Hm s Hs. by apply Hm. Qed.

Lemma ends_weaken {S A} (P P' : S → Prop) (m : proc S A) (Q Q' : A → S → Prop) :
  ends P m Q → (∀ s, P' s → P s) → (∀ a s, Q a s → Q' a s) → ends P' m Q'.
Proof. intros Hm HP HQ s Hs. specialize (Hm s (HP s Hs)). destruct (m s) as [[a|e|u] s']; [by apply HQ|done..]. Qed.

Lemma ends_modify {S} (P : S → Prop) f (Q : unit → S → Prop) : (∀ s, P s → Q tt (f s)) → ends P (modify f) Q.
Proof. intros Hm s Hs. by apply Hm. Qed.

Lemma ends_gets {S A} (P : S → Prop) (f : S → A) (Q : A → S → Prop) : (∀ s, P s → Q (f s) s) → ends P (gets f) Q.
Proof. intros Hm s Hs. by apply Hm. Qed.

Lemma ends_pure {S A} (P : S → Prop) (phi : Prop) (m : proc S A) Q : (phi → ends P m Q) → ends (λ s, P s ∧ phi) m Q.
Proof. intros Hm s [Hs Hp]. by apply Hm. Qed.

Lemma ends_stop {S A} (P : S → Prop) why (Q : A → S → Prop) : halts why → ends P (lift (Undefined why)) Q.
Proof. by intros Hw s _. Qed.
End ends.

(** The pairs of a port and a channel that connections hold; [J held] is what the
    handlers keep true of their state about them, [D] the names of the channels that exist. *)
Section interface.
Context `{Stop : Halts} {W : Type}.

Definition shared_with (J : list (Z * nat) → W → Prop) (held : list (Z * nat)) (D : gset nat) (s : Shared W) : Prop :=
  J held (hworld s) ∧ dom (channels s) = D.

Definition keeps (J : list (Z * nat) → W → Prop) {A} (m : proc (Shared W) A) : Prop := ∀ held (D : gset nat),
  list_to_set held.*2 ⊆ D → ends (shared_with J held D) m (λ _, shared_with J held D).

(** What the server relies on: the handlers use channels that are held only, keep
    a channel for later only when they accept it, and forget it when its session is
    detached. *)
Class SafeHandlers (h : DaemonIpcHandlers W) (J : list (Z * nat) → W → Prop) := {
  safe_perm held held' w : held ≡ₚ held' → J held w → J held' w;
  safe_reserve r : reserveSession h = Some r → keeps J r;
  safe_shutdown r : requestShutdown h = Some r → keeps J r;
  safe_resume p : keeps J (resume_session h p);
  safe_attach f p ch held D : attachSession h = Some f → ch ∈ D → list_to_set held.*2 ⊆ D →
    ends (shared_with J held D) (f p ch)
      (λ r, shared_with J (if decide (r.1 = AttachOk) then (r.2, ch) :: held else held) D);
  safe_detach : ∃ f, detachSession h = Some f ∧ ∀ p ch held D, ch ∈ D → list_to_set held.*2 ⊆ D →
    ends (shared_with J ((p, ch) :: held) D) (f p) (λ _, shared_with J held D)
}.
End interface.

(** *** The server against the interface *)

Section safe_server.
Context `{Stop : Halts} {W : Type} (h : DaemonIpcHandlers W) (J : list (Z * nat) → W → Prop) `{!SafeHandlers h J}.
#[local] Set Default Proof Using "Type*".

Definition pair_of (k : Connection) : list (Z * nat) :=
  match attachedPort k, channel k with Some p, Some ch => [(p, ch)] | _, _ => [] end.

(** A connection has a port and a channel, after the handshake; or neither. *)
Definition good (k : Connection) : Prop :=
  match attachedPort k, channel k with Some _, Some _ => handshaken k = true | None, None => True | _, _ => False end.

(** The channels that exist are those held, each by one connection. *)
Definition whole (held : list (Z * nat)) (s : Shared W) : Prop :=
  shared_with J held (list_to_set held.*2) s ∧ NoDup held.*2.

Lemma whole_perm held held' s : held ≡ₚ held' → whole held s → whole held' s.
Proof.
  intros Hp [[Hj Hd] Hn]. assert (held.*2 ≡ₚ held'.*2) as Hp2 by by rewrite Hp.
  split; [split; [by eapply safe_perm|]|by rewrite <- Hp2]. rewrite Hd. apply set_eq. intros x. by rewrite !elem_of_list_to_set, Hp2.
Qed.

Lemma keeps_whole {A} (m : proc (Shared W) A) held : keeps J m → ends (whole held) m (λ _, whole held).
Proof. intros Hm s [Hs Hn]. specialize (Hm held _ (reflexivity _) s Hs). destruct (m s) as [[a|e|u] s']; [by split|done..]. Qed.

(** Looking at a channel that is held. *)
Lemma on_channel_whole {A} p ch held (f : IpcSessionChannel → A * IpcSessionChannel) : (p, ch) ∈ held →
  ends (whole held) (on_channel ch f) (λ _, whole held).
Proof.
  intros Hin s [[Hj Hd] Hn]. unfold on_channel.
  assert (is_Some (channels s !! ch)) as [c Hc].
  { apply elem_of_dom. rewrite Hd, elem_of_list_to_set. apply list_elem_of_fmap. by exists (p, ch). }
  rewrite Hc. destruct (f c) as [a c']. split; [split; [done|]|done]. cbn [channels]. rewrite <- Hd, dom_insert_lookup_L; [done|by eexists].
Qed.

Lemma pair_of_sock s k : pair_of (set_sock s k) = pair_of k.
Proof. done. Qed.

Lemma detach_whole k O : good k →
  ends (whole (pair_of k ++ O)) (detachConnection (detachSession h) k) (λ k' s, whole O s ∧ attachedPort k' = None ∧ channel k' = None ∧ readBuffer k' = readBuffer k).
Proof.
  unfold good, pair_of, detachConnection. destruct (attachedPort k) as [p|] eqn:Ep, (channel k) as [ch|] eqn:Ec; intros Hg; try done; clear Hg.
  destruct safe_detach as (f & -> & Hf). cbn [app].
    eapply ends_bind; [apply (on_channel_whole p ch); constructor|]. intros [].
    eapply (ends_bind _ _ _ (λ _ s, shared_with J O ({[ch]} ∪ list_to_set O.*2) s ∧ NoDup (ch :: O.*2))).
    { intros s [Hs Hn]. cbn in Hs, Hn. specialize (Hf p ch O ({[ch]} ∪ list_to_set O.*2)).
      assert (shared_with J ((p, ch) :: O) ({[ch]} ∪ list_to_set O.*2) s) as Hs' by exact Hs.
      specialize (Hf ltac:(set_solver) ltac:(set_solver) s Hs'). destruct (f p s) as [[a|e|u] s']; [by split|done..]. }
    intros []. eapply (ends_bind _ _ _ (λ _, whole O)); [|intros []; by apply ends_ret].
    apply ends_modify. intros s [[Hj Hd] Hn]. apply NoDup_cons in Hn as [Hni Hn]. split; [split; [done|]|done].
    cbn [channels]. rewrite dom_delete_L, Hd. set_solver.
Qed.

Lemma remove_whole k O : good k → ends (whole (pair_of k ++ O)) (remove_connection h k) (λ _, whole O).
Proof. intros Hk. eapply ends_bind; [by apply detach_whole|]. intros k'. apply ends_ret. by intros s [? _]. Qed.

(** What a frame leaves behind. *)
Definition dispatched (buffer : bytes) (O : list (Z * nat)) (o : DispatchOutcome) (s : Shared W) : Prop :=
  good (after o) ∧ whole (pair_of (after o) ++ O) s ∧ readBuffer (after o) = buffer.

Lemma go_on_dispatched k O : good k → ends (whole (pair_of k ++ O)) (go_on k) (dispatched (readBuffer k) O).
Proof. intros Hk. by apply ends_ret. Qed.

Lemma hang_up_dispatched k O : good k → ends (whole (pair_of k ++ O)) (hang_up k) (dispatched (readBuffer k) O).
Proof. intros Hk. by apply ends_ret. Qed.

Lemma write_frame_keeps fr k ok k' : write_frame fr k = (ok, k') → ∃ s, k' = set_sock s k.
Proof. unfold write_frame. destruct (send_frame _ _) as [ok' s]. intros [= <- <-]. by exists s. Qed.

Lemma answer_dispatched t b k O : good k → ends (whole (pair_of k ++ O)) (answer t b k) (dispatched (readBuffer k) O).
Proof.
  intros Hk. unfold answer. destruct (write_frame _ k) as [ok k'] eqn:E. apply write_frame_keeps in E as [s ->].
  destruct ok; [by apply (go_on_dispatched (set_sock s k))|by apply (hang_up_dispatched (set_sock s k))].
Qed.

Lemma refuse_dispatched next c m k O : (∀ k', good k' → ends (whole (pair_of k' ++ O)) (next k') (dispatched (readBuffer k') O)) → good k →
  ends (whole (pair_of k ++ O)) (refuse_and next c m k) (dispatched (readBuffer k) O).
Proof.
  intros Hnext Hk. unfold refuse_and, sendError. destruct (write_frame _ k) as [ok k'] eqn:E. apply write_frame_keeps in E as [s ->].
  by apply (Hnext (set_sock s k)).
Qed.

Lemma ends_case {A} (P : Shared W → Prop) (m1 m2 : proc (Shared W) A) (b : bool) Q :
  ends P m1 Q → ends P m2 Q → ends P (if b then m1 else m2) Q.
Proof. by destruct b. Qed.

Lemma attach_dispatched fr k O : good k → handshaken k = true → ends (whole (pair_of k ++ O)) (dispatch_attach h fr k) (dispatched (readBuffer k) O).
Proof.
  intros Hk Hh. unfold dispatch_attach. destruct (attachedPort k) as [p|] eqn:Ep.
  { apply refuse_dispatched; [intros; by apply go_on_dispatched|done]. }
  assert (pair_of k = []) as Hnil by (unfold pair_of; by rewrite Ep).
  destruct (decodeAttachSessionPayload _) as [pl|]; [|apply refuse_dispatched; [intros; by apply go_on_dispatched|done]].
  destruct (attachSession h) as [f|] eqn:Ef; [|apply refuse_dispatched; [intros; by apply go_on_dispatched|done]].
  rewrite Hnil. cbn [app].
  eapply (ends_bind _ _ _ (λ ch s, shared_with J O ({[ch]} ∪ list_to_set O.*2) s ∧ NoDup (ch :: O.*2))).
  { intros s [[Hj Hd] Hn]. unfold new_channel. split; [split; [done|]|].
    - cbn [channels]. by rewrite dom_insert_L, Hd.
    - apply NoDup_cons. split; [|done]. intros Hin. apply (is_fresh (dom (channels s))). revert Hin. generalize (fresh (dom (channels s))). intros x Hin. rewrite Hd. by apply elem_of_list_to_set. }
  intros ch. eapply (ends_bind _ _ _ (λ r s, shared_with J (if decide (r.1 = AttachOk) then (r.2, ch) :: O else O) ({[ch]} ∪ list_to_set O.*2) s ∧ NoDup (ch :: O.*2))).
  { apply ends_pure. intros Hn. eapply ends_weaken; [apply (safe_attach f (requestedPort pl) ch O ({[ch]} ∪ list_to_set O.*2)); [done|set_solver..]|done|].
    intros r s Hs. by split. }
  intros [status port]. cbn [fst snd]. destruct (decide (status = AttachOk)) as [Ho|Ho].
  - rewrite bool_decide_true by done. cbn [negb].
    destruct (write_frame _ _) as [ok k2] eqn:E. apply write_frame_keeps in E as [sock ->].
    set (k2 := set_sock sock (set_session (Some port) (Some ch) k)).
    assert (good k2) as Hk2 by done.
    eapply (ends_weaken (whole (pair_of k2 ++ O)) _ _ (dispatched (readBuffer k) O)); [|intros s [[Hj Hd] Hn]; by split|done].
    destruct ok; [by apply (go_on_dispatched k2)|].
    eapply ends_bind; [by apply detach_whole|]. intros k3. apply ends_ret. intros s (Hs & Hp & Hc & Hb).
    unfold dispatched, good, pair_of. cbn [after]. by rewrite Hp, Hc, Hb.
  - rewrite bool_decide_false by done. cbn [negb].
    eapply (ends_bind _ _ _ (λ _, whole (pair_of k ++ O))).
    + apply ends_modify. intros s [[Hj Hd] Hn]. rewrite Hnil. apply NoDup_cons in Hn as [Hni Hn]. split; [split; [done|]|done].
      cbn [channels]. rewrite dom_delete_L, Hd. set_solver.
    + intros []. apply refuse_dispatched; [intros; by apply go_on_dispatched|done].
Qed.

Lemma handshake_dispatched config fr k O : good k → ends (whole (pair_of k ++ O)) (dispatch_handshake config fr k) (dispatched (readBuffer k) O).
Proof.
  intros Hk. unfold dispatch_handshake. destruct (negb _); [apply refuse_dispatched; [intros; by apply hang_up_dispatched|done]|].
  destruct (decodeHandshakePayload _) as [hs|]; [|apply refuse_dispatched; [intros; by apply hang_up_dispatched|done]].
  destruct (negb _); [apply refuse_dispatched; [intros; by apply hang_up_dispatched|done]|].
  destruct (write_frame _ k) as [ok k'] eqn:E. apply write_frame_keeps in E as [s ->].
  destruct ok; [|by apply (hang_up_dispatched (set_sock s k))].
  apply (go_on_dispatched (shake (set_sock s k))). unfold good in *. cbn. by destruct (attachedPort k), (channel k).
Qed.

Lemma input_dispatched fr k O : good k → ends (whole (pair_of k ++ O)) (dispatch_input h fr k) (dispatched (readBuffer k) O).
Proof.
  intros Hk. unfold dispatch_input. pose proof Hk as Hk'. unfold good in Hk'. destruct (attachedPort k) as [p|] eqn:Ep, (channel k) as [ch|] eqn:Ec; try done.
  2: { apply refuse_dispatched; [intros; by apply go_on_dispatched|done]. }
  destruct (decodeSessionDataPayload _) as [d|]; [|apply refuse_dispatched; [intros; by apply go_on_dispatched|done]].
  assert ((p, ch) ∈ pair_of k ++ O) as Hin by (unfold pair_of; rewrite Ep, Ec; constructor).
  eapply ends_bind; [by apply (on_channel_whole p)|]. intros r. cbn.
  eapply (ends_bind _ _ _ (λ _, whole (pair_of k ++ O))); [|intros []; by apply go_on_dispatched].
  destruct r; [apply keeps_whole, safe_resume|by apply ends_ret].
Qed.

Lemma dispatch_dispatched config fr k O : good k → ends (whole (pair_of k ++ O)) (dispatchFrame h config fr k) (dispatched (readBuffer k) O).
Proof.
  intros Hk. unfold dispatchFrame. destruct (negb _); [apply refuse_dispatched; [intros; by apply hang_up_dispatched|done]|].
  destruct (handshaken k) eqn:Hh; cbn [negb]; [|by apply handshake_dispatched].
  repeat apply ends_case.
  - by apply answer_dispatched.
  - unfold dispatch_shutdown. destruct (write_frame _ k) as [ok k'] eqn:E. apply write_frame_keeps in E as [s ->].
    destruct ok; cbn [negb]; [|by apply (hang_up_dispatched (set_sock s k))].
    eapply (ends_bind _ _ _ (λ _, whole (pair_of (set_sock s k) ++ O))); [|intros []; by apply ends_ret].
    destruct (requestShutdown h) as [r|] eqn:Er; [by apply keeps_whole, (safe_shutdown r)|by apply ends_ret].
  - unfold dispatch_reserve. destruct (reserveSession h) as [r|] eqn:Er; [|apply refuse_dispatched; [intros; by apply hang_up_dispatched|done]].
    eapply ends_bind; [by apply keeps_whole, (safe_reserve r)|]. intros [port|]; cbn; [by apply answer_dispatched|].
    apply refuse_dispatched; [intros; by apply hang_up_dispatched|done].
  - by apply attach_dispatched.
  - unfold dispatch_detach. destruct (attachedPort k) eqn:Ep; [|apply refuse_dispatched; [intros; by apply go_on_dispatched|done]].
    eapply ends_bind; [by apply detach_whole|]. intros k'. intros s (Hs & Hp & Hc & Hb).
    assert (good k') as Hk' by (unfold good; by rewrite Hp, Hc).
    assert (pair_of k' = []) as Hnil by (unfold pair_of; by rewrite Hp).
    rewrite <- Hb. apply (answer_dispatched MessageType.DetachSessionAck [] k' O Hk'). by rewrite Hnil.
  - by apply input_dispatched.
  - destruct (attachedPort k); (apply refuse_dispatched; [intros; by apply go_on_dispatched|done]).
  - apply refuse_dispatched; [intros; by apply hang_up_dispatched|done].
Qed.

Lemma flush_connection_whole ws k O : good k →
  ends (whole (pair_of k ++ O)) (flush_connection ws k) (λ k' s, good k' ∧ whole (pair_of k' ++ O) s).
Proof.
  intros Hk. unfold flush_connection. destruct (channel k) as [ch|] eqn:Ec; [|by apply ends_ret].
  destruct (attachedPort k) as [p|] eqn:Ep; [|by apply ends_ret].
  eapply ends_bind; [apply (on_channel_whole p); unfold pair_of; rewrite Ep, Ec; constructor|]. intros sock. by apply ends_ret.
Qed.

Lemma sys_read_size f n got f' : sys_read n f = (AData got, f') → (length got + sum_list_with event_size f' ≤ sum_list_with event_size f)%nat.
Proof using Type.
  destruct f as [|[b| | |] f]; cbn [sys_read]; try done. destruct (take n b) as [|x g] eqn:Et; [done|].
  intros [= <- <-]. pose proof (f_equal length (take_drop n b)) as Hl. rewrite Et, length_app in Hl. cbn [length] in Hl.
  destruct (drop n b) as [|y d]; cbn [length sum_list_with event_size] in *; lia.
Qed.

Lemma drain_length rounds f buffer b' f' : drain rounds f buffer = (inl b', f') →
  (length b' <= length buffer + sum_list_with event_size f)%nat.
Proof using Type.
  revert f buffer. induction rounds as [|n IH]; intros f buffer; [done|]. cbn [drain].
  destruct (sys_read 4096 f) as [a f1] eqn:E. destruct a as [got| | |]; try done.
  - intros H%IH. apply sys_read_size in E. rewrite length_app in H. lia.
  - intros [= <- <-]. lia.
Qed.

(** Reading a frame takes at least its header out of the buffer. *)
Lemma tryRead_takes f buffer fr b' f' : tryReadDaemonIpcFrame f buffer = (mkResult FrameReady (Some fr), b', f') →
  (12 + length b' <= length buffer + sum_list_with event_size f)%nat.
Proof using Type.
  unfold tryReadDaemonIpcFrame. destruct (drain _ f buffer) as [[b1|[st b1]] f1] eqn:E; [|done].
  apply drain_length in E. destruct (completeFrameLength b1) as [n|]; [|done].
  assert (∀ r, (match decodeDaemonIpcFrame (take (Z.to_nat n) b1) with
    | Some fr => (mkResult FrameReady (Some fr), drop (Z.to_nat n) b1, f1)
    | None => (mkResult ProtocolError None, drop (Z.to_nat n) b1, f1) end) = r → r = (mkResult FrameReady (Some fr), b', f') →
    (12 + length b' ≤ length buffer + sum_list_with event_size f)%nat) as H.
  { intros r <-. unfold decodeDaemonIpcFrame. destruct (Z.ltb_spec (size (take (Z.to_nat n) b1)) 12) as [|Hs]; [done|].
    unfold size in Hs. rewrite length_take in Hs. intros Hr. assert (b' = drop (Z.to_nat n) b1) as ->.
    { repeat case_match; congruence. }
    rewrite length_drop. lia. }
  destruct n; [done|by eapply H|by eapply H].
Qed.

Lemma read_frames_whole fuel config reads k O : good k →
  (length (readBuffer k) + sum_list_with (sum_list_with event_size) reads < fuel)%nat →
  ends (whole (pair_of k ++ O)) (read_frames h fuel config reads k) (λ r s, good r.1.1 ∧ whole (pair_of r.1.1 ++ O) s).
Proof.
  revert reads k. induction fuel as [|fuel IH]; intros reads k Hk Hf; [lia|]. cbn [read_frames].
  destruct (tryReadDaemonIpcFrame _ _) as [[[st fo] buffer] f'] eqn:E.
  assert (good (set_buffer buffer k)) as Hk1 by done.
  assert (∀ c d, ends (whole (pair_of k ++ O)) (mret (set_buffer buffer k, c, d) : proc (Shared W) (Connection * bool * bool))
    (λ (r : Connection * bool * bool) s, good r.1.1 ∧ whole (pair_of r.1.1 ++ O) s)) as Hstay by (intros c d; by apply ends_ret).
  cbn [status frame]. destruct st; [apply Hstay| |apply Hstay|apply Hstay].
  destruct fo as [fr|]; [|apply Hstay]. apply tryRead_takes in E.
  eapply ends_bind; [by apply (dispatch_dispatched config fr (set_buffer buffer k))|]. intros o.
  destruct (closeConnection o); [apply ends_ret; by intros s (? & ? & ?)|]. intros s (Ho & Hs & Hb).
  refine (ends_bind _ _ _ _ _ (IH (tail reads) (after o) Ho _) _ s Hs).
  - rewrite Hb. cbn [set_buffer readBuffer]. destruct reads as [|r reads]; simpl in *; unfold id in *; lia.
  - intros [[k2 c] d]. by apply ends_ret.
Qed.

(** One connection, and what is left of it. *)
Definition pair_opt (k : option Connection) : list (Z * nat) := match k with Some k => pair_of k | None => [] end.

Lemma serve_connection_whole config e k O : good k →
  ends (whole (pair_of k ++ O)) (serve_connection h config e k)
    (λ r s, match r.1 with Some k' => good k' | None => True end ∧ whole (pair_opt r.1 ++ O) s).
Proof.
  intros Hk. unfold serve_connection. set (k0 := set_sock _ k). change (pair_of k) with (pair_of k0). assert (good k0) as Hk0 by exact Hk.
  destruct (r_hup e).
  { eapply ends_bind; [by apply remove_whole|]. intros []. by apply ends_ret. }
  eapply (ends_bind _ _ _ (λ k1 s, good k1 ∧ whole (pair_of k1 ++ O) s)).
  { destruct (r_out e); [by apply flush_connection_whole|by apply ends_ret]. }
  intros k1. cbn. intros s [Hk1 Hs]. revert s Hs.
  match goal with |- ∀ s, ?P s → @?G s => change (ends P (
    read ← (if r_in e then read_frames h (frame_rounds (r_reads e) k1) config (r_reads e) k1 else mret (k1, false, false));
    let '(k2, close_, shutdown) := read : Connection * bool * bool in
    if close_ then remove_connection h k2;; mret (None, shutdown)
    else k3 ← flush_connection (r_windows_end e) k2; mret (Some k3, shutdown))
    (λ r s, match r.1 with Some k' => good k' | None => True end ∧ whole (pair_opt r.1 ++ O) s)) end.
  eapply (ends_bind _ _ _ (λ r s, good r.1.1 ∧ whole (pair_of r.1.1 ++ O) s)).
  { destruct (r_in e); [|by apply ends_ret]. apply read_frames_whole; [done|]. unfold frame_rounds. lia. }
  intros [[k2 c] d]. cbn [fst snd]. intros s [Hk2 Hs]. revert s Hs. destruct c.
  - refine (ends_bind _ _ _ _ _ (remove_whole k2 O Hk2) _). intros []. by apply ends_ret.
  - refine (ends_bind _ _ _ _ _ (flush_connection_whole _ k2 O Hk2) _). intros k3. by apply ends_ret.
Qed.

Definition pairs (ks : list Connection) : list (Z * nat) := mjoin (pair_of <$> ks).

Lemma pairs_cons k ks : pairs (k :: ks) = pair_of k ++ pairs ks.
Proof using Type. done. Qed.

Lemma serve_all_whole config ready ks O : Forall good ks →
  ends (whole (pairs ks ++ O)) (serve_all h config ready ks) (λ r s, Forall good r.1 ∧ whole (pairs r.1 ++ O) s).
Proof.
  intros Hks. revert O. induction Hks as [|k ks Hk Hks IH]; intros O; cbn [serve_all]; [by apply ends_ret|].
  rewrite pairs_cons, <- app_assoc. eapply ends_bind; [by apply serve_connection_whole|]. intros [one sd]. cbn [fst snd].
  intros s [Hone Hs]. revert s Hs. apply (ends_bind (whole _) _ _ (λ r s, Forall good r.1 ∧ whole (pairs r.1 ++ (pair_opt one ++ O)) s)).
  { eapply ends_weaken; [apply IH|intros s; apply whole_perm, Permutation_app_swap_app|done]. }
  intros [ks' sd']. cbn [fst snd]. apply ends_ret. intros s [Hks' Hs]. destruct one as [k'|]; cbn [pair_opt fst] in *; [|done].
  split; [by constructor|]. rewrite pairs_cons, <- app_assoc. eapply whole_perm; [apply Permutation_app_swap_app|done].
Qed.

Lemma flush_all_whole ready ks O : Forall good ks →
  ends (whole (pairs ks ++ O)) (flush_all ready ks) (λ ks' s, Forall good ks' ∧ whole (pairs ks' ++ O) s).
Proof.
  intros Hks. revert O. induction Hks as [|k ks Hk Hks IH]; intros O; cbn [flush_all]; [by apply ends_ret|].
  rewrite pairs_cons, <- app_assoc. eapply ends_bind; [by apply (flush_connection_whole _ (set_sock _ k))|]. intros k'. cbn.
  intros s [Hk' Hs]. revert s Hs. apply (ends_bind (whole _) _ _ (λ ks' s, Forall good ks' ∧ whole (pairs ks' ++ (pair_of k' ++ O)) s)).
  { eapply ends_weaken; [apply IH|intros s; apply whole_perm, Permutation_app_swap_app|done]. }
  intros ks'. apply ends_ret. intros s [Hks' Hs]. split; [by constructor|].
  rewrite pairs_cons, <- app_assoc. eapply whole_perm; [apply Permutation_app_swap_app|done].
Qed.

Lemma poll_whole env config (sv : Server) : Forall good (connections_ sv) →
  ends (whole (pairs (connections_ sv))) (pollAndDispatch h env config sv)
    (λ r s, Forall good (connections_ r.1) ∧ whole (pairs (connections_ r.1)) s).
Proof.
  intros Hks. unfold pollAndDispatch. destruct (listening sv); cbn [negb]; [|by apply ends_ret].
  pose proof (app_nil_r (pairs (connections_ sv))) as Hnil. rewrite <- Hnil.
  destruct (p_result env <=? 0).
  - eapply ends_bind; [by apply flush_all_whole|]. intros ks'. apply ends_ret. intros s [? Hs]. cbn. by rewrite app_nil_r in Hs.
  - set (sv1 := if p_listen env then _ else sv).
    assert (Forall good (connections_ sv1) ∧ pairs (connections_ sv1) = pairs (connections_ sv)) as [Hg Hp].
    { unfold sv1, acceptPendingConnections. destruct (p_listen env); [|done]. destruct (listening sv); [|done]. cbn [connections_]. split.
      - apply Forall_app. split; [done|]. apply Forall_fmap, Forall_true. done.
      - unfold pairs. rewrite fmap_app, join_app. rewrite <- (app_nil_r (mjoin (pair_of <$> connections_ sv))) at 2. f_equal.
        induction (p_accepted env) as [|f l IHl]; [done|]. exact IHl. }
    rewrite <- Hp. eapply ends_bind; [by apply serve_all_whole|]. intros r. apply ends_ret. intros s [? Hs]. cbn. by rewrite app_nil_r in Hs.
Qed.
End safe_server.

(** [stop] destroys the channels of the connections; the handlers see nothing of it. *)
Lemma close_all_ends `{Stop : Halts} {W : Type} (P : W → Prop) (ks : list Connection) : Forall good ks →
  ends (λ s, P (hworld s) ∧ dom (channels s) = list_to_set (pairs ks).*2 ∧ NoDup (pairs ks).*2)
    (closeAllConnections None ks) (λ _ s, P (hworld s) ∧ channels s = ∅).
Proof.
  intros Hks. induction Hks as [|k ks Hk Hks IH]; cbn [closeAllConnections].
  { apply ends_ret. intros s (? & Hd & _). split; [done|]. by apply dom_empty_inv_L. }
  refine (ends_bind _ _ _ (λ _ s, P (hworld s) ∧ dom (channels s) = list_to_set (pairs ks).*2 ∧ NoDup (pairs ks).*2) _ _ (λ _, IH)).
  rewrite pairs_cons. unfold detachConnection, good, pair_of in *. destruct (attachedPort k) as [p|], (channel k) as [ch|]; try done.
  2: { by apply ends_ret. }
  cbn [app fmap list_fmap snd list_to_set]. intros s (Hp & Hd & [Hni Hn]%NoDup_cons).
  assert (is_Some (channels s !! ch)) as [c Hc] by (apply elem_of_dom; rewrite Hd; set_solver).
  unfold mbind, proc_bind, on_channel. rewrite Hc. cbn. split; [done|split; [|done]].
  rewrite dom_delete_L, dom_insert_L, Hd. set_solver.
Qed.

(** ** Who may ask *)

(** C13. Before a connection has shaken hands, a frame does nothing but answer: the
    handlers and the channels are not used, no session is attached and no shutdown
    is asked for; the connection stays open only for a HANDSHAKE frame of this
    protocol version whose payload names this version, when the answer could be
    sent, and it has then shaken hands. *)
Theorem handshake_gate {W} (h : DaemonIpcHandlers W) (config : DaemonIpcServerConfig) (fr : DaemonIpcFrame) (k : Connection) (s : Shared W) :
  handshaken k = false →
  ∃ o, dispatchFrame h config fr k s = (Ok o, s) ∧
    attachedPort (after o) = attachedPort k ∧ channel (after o) = channel k ∧ shutdownRequested o = false ∧
    (closeConnection o = false ↔
       version fr = kDaemonIpcProtocolVersion ∧ ftype fr = MessageType.to_Z MessageType.Handshake ∧
       decodeHandshakePayload (payload fr) = Some (mkHandshake kDaemonIpcProtocolVersion) ∧
       (send_frame (plain_frame MessageType.HandshakeAck (encodeHandshakeAckPayload
          (mkHandshakeAck kDaemonIpcProtocolVersion (maxSessions config mod 65536) (buildVersion config)))) (c_sock k)).1 = true) ∧
    (closeConnection o = false → handshaken (after o) = true).
Proof.
  intros Hk. assert (∀ c m, ∃ o, refuse_and hang_up c m k s = (Ok o, s) ∧ attachedPort (after o) = attachedPort k ∧
    channel (after o) = channel k ∧ shutdownRequested o = false ∧ closeConnection o = true) as Href.
  { intros c m. unfold refuse_and, sendError. destruct (write_frame _ k) as [ok k'] eqn:E. apply write_frame_keeps in E as [sk ->].
    by eexists. }
  assert (∀ (P : Prop) c m, ¬ P → ∃ o, refuse_and hang_up c m k s = (Ok o, s) ∧ attachedPort (after o) = attachedPort k ∧
    channel (after o) = channel k ∧ shutdownRequested o = false ∧ (closeConnection o = false ↔ P) ∧ (closeConnection o = false → handshaken (after o) = true)) as Hno.
  { intros P c m HP. destruct (Href c m) as (o & ? & ? & ? & ? & Hc). exists o. rewrite Hc. naive_solver. }
  unfold dispatchFrame. rewrite Hk. destruct (Z.eqb_spec (version fr) kDaemonIpcProtocolVersion) as [Hv|Hv]; cbn [negb]; [|apply Hno; tauto].
  unfold dispatch_handshake, is_type. destruct (Z.eqb_spec (ftype fr) (MessageType.to_Z MessageType.Handshake)) as [Ht|Ht]; cbn [negb]; [|apply Hno; tauto].
  destruct (decodeHandshakePayload (payload fr)) as [[v]|]; [|apply Hno; naive_solver].
  cbn [clientProtocolVersion]. destruct (Z.eqb_spec v kDaemonIpcProtocolVersion) as [->|Hne]; cbn [negb]; [|apply Hno; naive_solver].
  unfold write_frame. destruct (send_frame _ (c_sock k)) as [[|] sk]; (eexists; split; [done|]); cbn; naive_solver.
Qed.

(** A client that asks for a session at once is sent away. *)
Lemma handshake_gate_witness :
  let h := mkHandlers unit None None None None (λ _, mret tt) in
  let k := mkConnection 5 false [] None None (mkSocket [100; 100] []) in
  let fr := plain_frame MessageType.ReserveSession [] in
  let config := mkServerConfig 4 "test" in
  let s := mkShared ∅ tt in
  handshaken k = false ∧ ∃ o, dispatchFrame h config fr k s = (Ok o, s) ∧ closeConnection o = true.
Proof.
  intros h k fr config s. split; [reflexivity|].
  destruct (handshake_gate h config fr k s eq_refl) as (o & Ho & _ & _ & _ & [Hc _] & _). exists o. split; [exact Ho|].
  destruct (closeConnection o); [reflexivity|]. destruct (Hc eq_refl) as (_ & Ht & _). vm_compute in Ht. discriminate Ht.
Defined.
