(* ===== verification/Sched.v ===== *)
(** * Sessions taking turns

    [PickCore::CooperativeSessionRunner]: the execution token that the daemon's
    session threads pass around, and [PickCore::PortManager]: the numbers of the
    session ports.  Every public method of the runner runs under one mutex, so a
    concurrent execution is a sequence of whole method calls: the step relation
    below.  A thread blocked in [cv_.wait] is one whose step is not enabled. *)

From S2P Require Import Prelude CLib.
From stdpp Require Import options.
Local Open Scope Z_scope.

(** [SessionId] is a 32-bit unsigned number. *)
Abbreviation SessionId := Z.

(* src/core/daemon/CooperativeSessionRunner.h:17-21 [SessionRunState] *)
Inductive SessionRunState := Runnable | Running | WaitingForInput.

#[global] Instance SessionRunState_eq_dec : EqDecision SessionRunState.
Proof. solve_decision. Defined.

(* src/core/daemon/CooperativeSessionRunner.h:46-51 [CooperativeSessionRunner] *)
Record Runner := mkRunner {
  active : option SessionId;
  depth : Z;
  lastServed : SessionId;
  sessionStates : gmap SessionId SessionRunState
}.

Definition newRunner : Runner := mkRunner None 0 0 ∅.

(** ** The methods *)

(* src/core/daemon/CooperativeSessionRunner.cpp:9-15 [CooperativeSessionRunner::stateLocked] *)
Definition stateLocked (id : SessionId) (s : Runner) : SessionRunState :=
  default Runnable (sessionStates s !! id).

Definition recorded_runnable (s : Runner) : list SessionId :=
  omap (λ kv : SessionId * SessionRunState, if decide (kv.2 = Runnable) then Some kv.1 else None)
    (map_to_list (sessionStates s)).

(** The first element above [last], else the first. *)
Definition pick_after (last : SessionId) (sorted : list SessionId) : option SessionId :=
  match List.find (λ id, last <? id) sorted with
  | Some id => Some id
  | None => head sorted
  end.

(* src/core/daemon/CooperativeSessionRunner.cpp:17-41 [CooperativeSessionRunner::nextRunnableSessionLocked] *)
Definition nextRunnableSessionLocked (requester : option SessionId) (s : Runner) : option SessionId :=
  let runnable := recorded_runnable s in
  let runnable' :=
    match requester with
    | Some r => if bool_decide (stateLocked r s = Runnable) && negb (bool_decide (r ∈ runnable))
                then runnable ++ [r] else runnable
    | None => runnable
    end in
  match runnable' with
  | [] => None
  | _ => pick_after (lastServed s) (merge_sort Z.le runnable')
  end.

(* src/core/daemon/CooperativeSessionRunner.cpp:43-53 [CooperativeSessionRunner::canAcquireLocked] *)
Definition canAcquireLocked (id : SessionId) (s : Runner) : bool :=
  if bool_decide (active s = Some id) then true
  else if bool_decide (is_Some (active s)) || bool_decide (stateLocked id s = WaitingForInput) then false
  else match nextRunnableSessionLocked (Some id) s with
       | None => true
       | Some next => next =? id
       end.

(* src/core/daemon/CooperativeSessionRunner.cpp:55-60 [CooperativeSessionRunner::canAcquireAfterInputWakeLocked] *)
Definition canAcquireAfterInputWakeLocked (id : SessionId) (s : Runner) : bool :=
  if bool_decide (active s = Some id) then true
  else negb (bool_decide (is_Some (active s))) && negb (bool_decide (stateLocked id s = WaitingForInput)).

(* src/core/daemon/CooperativeSessionRunner.cpp:62-73 [CooperativeSessionRunner::grantAcquireLocked] *)
Definition grantAcquireLocked (id : SessionId) : proc Runner unit := λ s,
  let s1 := match active s with
            | None => mkRunner (Some id) 0 (lastServed s) (sessionStates s)
            | Some _ => s
            end in
  if bool_decide (active s1 = Some id)
  then (Ok tt, mkRunner (active s1) (wrap32 (depth s1 + 1)) (lastServed s1)
                 (<[id := Running]> (sessionStates s1)))
  else (Throw (LogicError "cooperative session acquire failed"), s1).

(* src/core/daemon/CooperativeSessionRunner.cpp:87-103 [CooperativeSessionRunner::release] *)
Definition release (id : SessionId) : proc Runner unit := λ s,
  if negb (bool_decide (active s = Some id)) then (Throw (LogicError "release from non-holder session"), s)
  else if depth s =? 0 then (Throw (LogicError "release with zero depth"), s)
  else if depth s - 1 =? 0
  then (Ok tt, mkRunner None 0 id (<[id := Runnable]> (sessionStates s)))
  else (Ok tt, mkRunner (active s) (depth s - 1) (lastServed s) (sessionStates s)).

(* src/core/daemon/CooperativeSessionRunner.cpp:105-116 [CooperativeSessionRunner::yieldWaitingForInput] *)
Definition yieldWaitingForInput (id : SessionId) : proc Runner unit := λ s,
  if negb (bool_decide (active s = Some id)) || (depth s =? 0)
  then (Throw (LogicError "yield from non-holder session"), s)
  else (Ok tt, mkRunner None 0 id (<[id := WaitingForInput]> (sessionStates s))).

(* src/core/daemon/CooperativeSessionRunner.cpp:118-122 [CooperativeSessionRunner::resume] *)
Definition resume (id : SessionId) : proc Runner unit := λ s,
  (Ok tt, mkRunner (active s) (depth s) (lastServed s) (<[id := Runnable]> (sessionStates s))).

(* src/core/daemon/CooperativeSessionRunner.cpp:124-133 [CooperativeSessionRunner::retireSession] *)
Definition retireSession (id : SessionId) : proc Runner unit := λ s,
  let st := delete id (sessionStates s) in
  (Ok tt, if bool_decide (active s = Some id) then mkRunner None 0 id st
          else mkRunner (active s) (depth s) (lastServed s) st).

(** What [runExclusive] does after [acquire(id)] and [fn()]; it is not reached
    when [fn] throws. *)
(* src/core/daemon/CooperativeSessionRunner.cpp:135-151 [CooperativeSessionRunner::runExclusive] *)
Definition runExclusive_end (id : SessionId) : proc Runner unit := λ s,
  if bool_decide (active s = Some id) && (0 <? depth s) then
    if depth s - 1 =? 0
    then (Ok tt, mkRunner None 0 id (<[id := Runnable]> (sessionStates s)))
    else (Ok tt, mkRunner (active s) (depth s - 1) (lastServed s) (sessionStates s))
  else if negb (bool_decide (is_Some (active s))) && bool_decide (stateLocked id s = WaitingForInput)
  then (Ok tt, mkRunner (active s) (depth s) (lastServed s) (<[id := Runnable]> (sessionStates s)))
  else (Ok tt, s).

(** ** Executions

    [runExclusive id fn] is [LAcquire id], the steps of [fn], [LExclusiveEnd id].
    [acquire] and [acquireAfterInputWake] (cpp lines 75-85) wait for their
    condition, then grant. *)
Inductive label :=
| LAcquire (id : SessionId)
| LAcquireAfterWake (id : SessionId)
| LRelease (id : SessionId)
| LYield (id : SessionId)
| LResume (id : SessionId)
| LRetire (id : SessionId)
| LExclusiveEnd (id : SessionId).

Definition label_id (l : label) : SessionId :=
  match l with
  | LAcquire id | LAcquireAfterWake id | LRelease id | LYield id | LResume id | LRetire id
  | LExclusiveEnd id => id
  end.

Definition label_method (l : label) : proc Runner unit :=
  match l with
  | LAcquire id | LAcquireAfterWake id => grantAcquireLocked id
  | LRelease id => release id
  | LYield id => yieldWaitingForInput id
  | LResume id => resume id
  | LRetire id => retireSession id
  | LExclusiveEnd id => runExclusive_end id
  end.

(** A call that has to wait is not enabled. *)
(* src/core/daemon/CooperativeSessionRunner.cpp:75-85 [CooperativeSessionRunner::acquire, acquireAfterInputWake] *)
Definition enabled (l : label) (s : Runner) : bool :=
  match l with
  | LAcquire id => canAcquireLocked id s
  | LAcquireAfterWake id => canAcquireAfterInputWakeLocked id s
  | _ => true
  end.

(** A method call that returns; one that throws leaves the runner as it was. *)
Inductive step : Runner → label → Runner → Prop :=
| step_call s l s' : enabled l s = true → label_method l s = (Ok tt, s') → step s l s'.

Inductive steps : Runner → list label → Runner → Prop :=
| steps_nil s : steps s [] s
| steps_cons s l s1 ls s2 : step s l s1 → steps s1 ls s2 → steps s (l :: ls) s2.

(** Running a sequence of calls; [None] when one is not enabled or throws. *)
Fixpoint exec (ls : list label) (s : Runner) : option Runner :=
  match ls with
  | [] => Some s
  | l :: ls' =>
      if enabled l s then
        match label_method l s with
        | (Ok _, s1) => exec ls' s1
        | _ => None
        end
      else None
  end.

(** ** Port numbers *)

(* src/core/daemon/PortManager.h:30-33 [PortManager] *)
Record PortManager := mkPorts {
  maxPorts : Z;
  inUse : gset SessionId;
  nextCandidate : SessionId
}.

(* src/core/daemon/PortManager.cpp:6-6 [PortManager::PortManager] *)
Definition newPortManager (max : Z) : PortManager := mkPorts (if max <? 1 then 1 else max) ∅ 1.

(** [while (inUse_.count(candidate) != 0) ++candidate]. *)
Fixpoint find_candidate (rounds : nat) (used : gset SessionId) (candidate : SessionId) : SessionId :=
  match rounds with
  | O => candidate
  | S rounds' => if bool_decide (candidate ∈ used) then find_candidate rounds' used (wrap32 (candidate + 1)) else candidate
  end.

(** More rounds than ports in use are never needed. *)
(* src/core/daemon/PortManager.cpp:8-21 [PortManager::allocate] *)
Definition allocate (p : PortManager) : option SessionId * PortManager :=
  if maxPorts p <=? Z.of_nat (size (inUse p)) then (None, p)
  else
    let candidate := find_candidate (S (size (inUse p))) (inUse p) (nextCandidate p) in
    (Some candidate, mkPorts (maxPorts p) ({[candidate]} ∪ inUse p) (wrap32 (candidate + 1))).

(* src/core/daemon/PortManager.cpp:23-29 [PortManager::release] *)
Definition releasePort (port : SessionId) (p : PortManager) : PortManager :=
  mkPorts (maxPorts p) (inUse p ∖ {[port]}) (if port <? nextCandidate p then port else nextCandidate p).

(* src/core/daemon/PortManager.cpp:31-34 [PortManager::inUseCount] *)
Definition inUseCount (p : PortManager) : nat := size (inUse p).

Inductive port_op := PAllocate | PRelease (port : SessionId).

Definition run_port_op (op : port_op) (p : PortManager) : PortManager :=
  match op with
  | PAllocate => (allocate p).2
  | PRelease port => releasePort port p
  end.

(** ** Turn taking *)

Lemma exec_steps ls s s' : exec ls s = Some s' → steps s ls s'.
Proof.
  revert s. induction ls as [|l ls IH]; intros s; cbn; [intros [= <-]; constructor|].
  destruct (enabled l s) eqn:He; [|done]. destruct (label_method l s) as [[[]| |] s1] eqn:Hm; try done.
  intros H%IH. by eapply steps_cons; [constructor|].
Qed.

(** Mutual exclusion and the token's depth. *)
Record runner_wf (n : Z) (s : Runner) : Prop := mk_runner_wf {
  wf_running : ∀ id, sessionStates s !! id = Some Running → active s = Some id;
  wf_depth : 0 <= depth s <= n;
  wf_idle : active s = None ↔ depth s = 0
}.

Lemma newRunner_wf : runner_wf 0 newRunner.
Proof. split; cbn; [done|lia|done]. Qed.

Lemma runner_wf_weaken n n' s : n <= n' → runner_wf n s → runner_wf n' s.
Proof. intros ? [???]. split; [done|lia|done]. Qed.

(** The effect of a step on the token. *)
Inductive effect (s : Runner) (id : SessionId) (s' : Runner) : Prop :=
| effect_take : active s = None → active s' = Some id → depth s' = 1 → lastServed s' = lastServed s →
    sessionStates s' = <[id := Running]> (sessionStates s) → effect s id s'
| effect_nest : active s = Some id → active s' = Some id → depth s' = wrap32 (depth s + 1) →
    lastServed s' = lastServed s → sessionStates s' = <[id := Running]> (sessionStates s) → effect s id s'
| effect_unnest : active s = Some id → active s' = Some id → depth s' = depth s - 1 → depth s' ≠ 0 →
    lastServed s' = lastServed s → sessionStates s' = sessionStates s → effect s id s'
| effect_drop st : active s = Some id → active s' = None → depth s' = 0 → lastServed s' = id → st ≠ Some Running →
    (∀ j, sessionStates s' !! j = if decide (j = id) then st else sessionStates s !! j) → effect s id s'
| effect_mark st : active s' = active s → depth s' = depth s → lastServed s' = lastServed s → st ≠ Some Running →
    (∀ j, sessionStates s' !! j = if decide (j = id) then st else sessionStates s !! j) → effect s id s'.

Lemma insert_states (m : gmap SessionId SessionRunState) id st j :
  <[id := st]> m !! j = if decide (j = id) then Some st else m !! j.
Proof. destruct (decide (j = id)) as [->|]; [by rewrite lookup_insert_eq|by rewrite lookup_insert_ne]. Qed.

Lemma delete_states (m : gmap SessionId SessionRunState) id j :
  delete id m !! j = if decide (j = id) then None else m !! j.
Proof. destruct (decide (j = id)) as [->|]; [by rewrite lookup_delete_eq|by rewrite lookup_delete_ne]. Qed.

(** Every returning call has one of the five effects for its session, or none. *)
Lemma step_effect s l s' : step s l s' → effect s (label_id l) s' ∨ s' = s.
Proof.
  intros [s0 l0 s1 Hen Hm]. destruct l0 as [id|id|id|id|id|id|id]; cbn [label_method label_id] in *.
  1,2: left; unfold grantAcquireLocked in Hm; destruct (active s0) as [a|] eqn:Ea; cbn [active depth lastServed sessionStates] in Hm;
    [rewrite Ea in Hm|]; destruct (bool_decide _) eqn:Eb; try done; injection Hm as <-;
    apply bool_decide_eq_true in Eb; [apply effect_nest|apply effect_take]; cbn; done || congruence.
  - left. unfold release in Hm. destruct (bool_decide (active s0 = Some id)) eqn:Eb; [|done].
    apply bool_decide_eq_true in Eb. cbn [negb] in Hm. destruct (depth s0 =? 0); [done|].
    destruct (Z.eqb_spec (depth s0 - 1) 0); injection Hm as <-.
    + apply (effect_drop _ _ _ (Some Runnable)); try done. apply insert_states.
    + by apply effect_unnest.
  - left. unfold yieldWaitingForInput in Hm. destruct (bool_decide (active s0 = Some id)) eqn:Eb; [|done].
    apply bool_decide_eq_true in Eb. cbn [negb orb] in Hm. destruct (depth s0 =? 0); [done|]. injection Hm as <-.
    apply (effect_drop _ _ _ (Some WaitingForInput)); try done. apply insert_states.
  - left. injection Hm as <-. apply (effect_mark _ _ _ (Some Runnable)); try done. apply insert_states.
  - left. injection Hm as <-. destruct (bool_decide (active s0 = Some id)) eqn:Eb.
    + apply bool_decide_eq_true in Eb. apply (effect_drop _ _ _ None); try done. apply delete_states.
    + apply (effect_mark _ _ _ None); try done. apply delete_states.
  - unfold runExclusive_end in Hm. destruct (bool_decide (active s0 = Some id) && (0 <? depth s0)) eqn:Eb.
    + left. apply andb_true_iff in Eb as [Eb Hd]. apply bool_decide_eq_true in Eb. apply Z.ltb_lt in Hd.
      destruct (Z.eqb_spec (depth s0 - 1) 0); injection Hm as <-.
      * apply (effect_drop _ _ _ (Some Runnable)); try done. apply insert_states.
      * by apply effect_unnest.
    + destruct (negb (bool_decide (is_Some (active s0))) && bool_decide (stateLocked id s0 = WaitingForInput));
        injection Hm as <-; [left|by right].
      apply (effect_mark _ _ _ (Some Runnable)); try done. apply insert_states.
Qed.

Lemma effect_wf n s id s' : n < 2 ^ 32 - 1 → runner_wf n s → effect s id s' → runner_wf (n + 1) s'.
Proof.
  intros Hn [Hr Hd Hi] He.
  destruct He as [Ha Ha' Hd' _ Hs|Ha Ha' Hd' _ Hs|Ha Ha' Hd' Hnz _ Hs|st Ha Ha' Hd' _ Hst Hs|st Ha' Hd' _ Hst Hs].
  - split; rewrite ?Ha', ?Hd', ?Hs; [|lia|split; [done|lia]].
    intros j. rewrite insert_states. case_decide as Hj; [by subst|]. intros Hj'%Hr. congruence.
  - unfold wrap32 in Hd'. rewrite Z.mod_small in Hd' by lia.
    split; rewrite ?Ha', ?Hd', ?Hs; [|lia|split; [done|lia]].
    intros j. rewrite insert_states. case_decide as Hj; [by subst|]. intros Hj'%Hr. congruence.
  - assert (depth s ≠ 0) by (rewrite <- Hi; congruence).
    split; rewrite ?Ha', ?Hs; [intros j Hj; rewrite <- Ha; by apply Hr|lia|split; [done|lia]].
  - split; rewrite ?Ha', ?Hd'; [|lia|done]. intros j. rewrite Hs. case_decide; [congruence|]. intros Hj%Hr. congruence.
  - split; rewrite ?Ha', ?Hd'; [|lia|done]. intros j. rewrite Hs. case_decide; [congruence|]. apply Hr.
Qed.

Lemma steps_wf s ls s' n : steps s ls s' → runner_wf n s → n + Z.of_nat (length ls) < 2 ^ 32 - 1 →
  runner_wf (n + Z.of_nat (length ls)) s'.
Proof.
  intros Hs. revert n. induction Hs as [s|s l s1 ls s2 Hstep Hs IH]; intros n Hw Hn.
  - by rewrite Z.add_0_r.
  - cbn [length] in *. apply step_effect in Hstep as [He| ->].
    + apply (effect_wf n) in He; [|lia|done]. apply (IH (n + 1)) in He; [|lia].
      by replace (n + Z.of_nat (S (length ls))) with (n + 1 + Z.of_nat (length ls)) by lia.
    + apply (runner_wf_weaken (n + Z.of_nat (length ls))); [lia|]. apply IH; [done|lia].
Qed.

(** C8. Mutual exclusion: in every execution from a new runner (of fewer than
    2^32 - 1 calls, so that the nesting counter cannot wrap) at most one session
    is Running and it holds the token; the token is free exactly when the
    nesting depth is zero; and an [acquire] whose wait is over never fails with
    its "acquire failed" exception. *)
Theorem runner_mutual_exclusion (ls : list label) (s : Runner) :
  steps newRunner ls s → Z.of_nat (length ls) < 2 ^ 32 - 1 →
  (∀ a b, sessionStates s !! a = Some Running → sessionStates s !! b = Some Running → a = b) ∧
  (∀ a, sessionStates s !! a = Some Running → active s = Some a) ∧
  (active s = None ↔ depth s = 0) ∧
  ∀ l, enabled l s = true → (∃ id, l = LAcquire id ∨ l = LAcquireAfterWake id) → ∃ s', step s l s'.
Proof.
  intros Hs Hn. destruct (steps_wf _ _ _ 0 Hs newRunner_wf ltac:(lia)) as [Hr _ Hi].
  split; [intros a b Ha%Hr Hb%Hr; congruence|]. split; [done|]. split; [done|].
  intros l Hen Hl. enough (∃ s', label_method l s = (Ok tt, s')) as [s' Hm] by (by exists s'; constructor).
  assert (active s = None ∨ active s = Some (label_id l)) as Hact.
  { destruct Hl as (id & [->| ->]); cbn in Hen |- *;
      [unfold canAcquireLocked in Hen|unfold canAcquireAfterInputWakeLocked in Hen];
      destruct (bool_decide (active s = Some id)) eqn:Eb; try (apply bool_decide_eq_true in Eb; by right);
      destruct (active s); try (by left); done. }
  assert (label_method l = grantAcquireLocked (label_id l)) as -> by (destruct Hl as (id & [->| ->]); done).
  unfold grantAcquireLocked. destruct Hact as [Ha|Ha]; rewrite Ha; cbn [active];
    rewrite ?Ha, bool_decide_eq_true_2 by done; by eexists.
Qed.

Lemma runner_mutual_exclusion_witness :
  let s := default newRunner (exec [LAcquire 1; LResume 2; LRelease 1; LAcquire 2] newRunner) in
  sessionStates s !! 2 = Some Running ∧ ∀ a, sessionStates s !! a = Some Running → active s = Some a.
Proof.
  intros s. split; [by vm_compute|].
  assert (Hs : steps newRunner [LAcquire 1; LResume 2; LRelease 1; LAcquire 2] s) by (by apply exec_steps; vm_compute).
  exact (proj1 (proj2 (runner_mutual_exclusion _ s Hs ltac:(done)))).
Defined.

(** The holder keeps the token whatever the other sessions call: their
    [acquire]s wait, their [release]s and yields throw, and their resumes and
    retirements change neither holder, depth, nor whom the token goes to next. *)
Theorem token_kept (s s' : Runner) (a : SessionId) (ls : list label) :
  active s = Some a → Forall (λ l, label_id l ≠ a) ls → steps s ls s' →
  active s' = Some a ∧ depth s' = depth s ∧ lastServed s' = lastServed s ∧
  ∀ b, b ≠ a → enabled (LAcquire b) s' = false ∧ enabled (LAcquireAfterWake b) s' = false.
Proof.
  intros Ha Hls Hs. assert (active s' = Some a ∧ depth s' = depth s ∧ lastServed s' = lastServed s) as (H1 & H2 & H3).
  { induction Hs as [s|s l s1 ls s2 Hstep Hs IH]; [done|]. inversion_clear Hls as [|? ? Hl Hls'].
    apply step_effect in Hstep as [He| ->]; [|by apply IH].
    destruct He as [?|?|?|?|? Ha' Hd' Hl']; try congruence.
    destruct IH as (? & ? & ?); [congruence|done|]. split; [done|]. split; congruence. }
  split; [done|]. split; [done|]. split; [done|].
  intros b Hb. cbn. unfold canAcquireLocked, canAcquireAfterInputWakeLocked. rewrite H1.
  rewrite bool_decide_eq_false_2 by congruence. rewrite bool_decide_eq_true_2 by (by eexists). done.
Qed.

Lemma token_kept_witness :
  let s := default newRunner (exec [LAcquire 1] newRunner) in
  let s' := default newRunner (exec [LResume 2; LRetire 3] s) in
  active s = Some 1 ∧ active s' = Some 1 ∧ enabled (LAcquire 2) s' = false.
Proof.
  intros s s'. split; [by vm_compute|].
  assert (Hs : steps s [LResume 2; LRetire 3] s') by (by apply exec_steps; vm_compute).
  destruct (token_kept s s' 1 [LResume 2; LRetire 3]) as (H1 & _ & _ & H2);
    [by vm_compute|repeat (apply Forall_cons_2; [done|]); apply Forall_nil_2|exact Hs|].
  split; [exact H1|]. exact (proj1 (H2 2 ltac:(done))).
Defined.

(** *** Round robin *)
Definition is_id (id : SessionId) : Prop := 0 <= id < 2 ^ 32.

(** How far [x] is behind [last] in the cyclic order of the numbers. *)
Definition dist (last x : SessionId) : Z := (x - last - 1) mod 2 ^ 32.

Lemma dist_cases last x : is_id last → is_id x → dist last x = if last <? x then x - last - 1 else x - last - 1 + 2 ^ 32.
Proof.
  unfold is_id, dist. intros. destruct (Z.ltb_spec last x).
  - by rewrite Z.mod_small by lia.
  - rewrite <- (Z.mod_add _ 1) by lia. rewrite Z.mod_small; lia.
Qed.

Lemma dist_advance last y x : is_id last → is_id y → is_id x → dist last y < dist last x →
  dist y x < dist last x.
Proof.
  intros Hl Hy Hx. rewrite !dist_cases by done. unfold is_id in *.
  destruct (Z.ltb_spec last y), (Z.ltb_spec last x), (Z.ltb_spec y x); lia.
Qed.

Lemma dist_inj last y x : is_id last → is_id y → is_id x → dist last y = dist last x → y = x.
Proof.
  intros Hl Hy Hx. rewrite !dist_cases by done. unfold is_id in *.
  destruct (Z.ltb_spec last y), (Z.ltb_spec last x); lia.
Qed.

Lemma pick_after_first last l n : StronglySorted Z.le l → Forall is_id l → is_id last →
  pick_after last l = Some n → n ∈ l ∧ ∀ z, z ∈ l → dist last n <= dist last z.
Proof.
  intros Hs Hr Hl. unfold pick_after.
  destruct (List.find (λ id, last <? id) l) as [m|] eqn:E.
  - intros [= <-]. apply List.find_some in E as E'. destruct E' as [Hin Hlt]. apply list_elem_of_In in Hin.
    apply Z.ltb_lt in Hlt. split; [done|]. intros z Hz.
    rewrite Forall_forall in Hr. rewrite !dist_cases by auto. rewrite (proj2 (Z.ltb_lt last m)) by done.
    pose proof (Hr z Hz). pose proof (Hr m Hin). unfold is_id in *. destruct (Z.ltb_spec last z); [|lia].
    enough (m <= z) by lia. clear Hr. induction Hs as [|a l Hs IH Ha]; [by apply elem_of_nil in Hz|].
    cbn in E. destruct (Z.ltb_spec last a).
    + injection E as ->. apply elem_of_cons in Hz as [->|Hz]; [lia|]. rewrite Forall_forall in Ha. by apply Ha.
    + apply elem_of_cons in Hz as [->|Hz]; [lia|]. apply IH; [done| |done].
      apply elem_of_cons in Hin as [->|]; [lia|done].
  - destruct l as [|a l]; [done|]. intros [= ->]. split; [apply list_elem_of_here|]. intros z Hz.
    rewrite Forall_forall in Hr.
    assert (∀ y, y ∈ n :: l → (last <? y) = false) as Hall
      by (intros y Hy; apply (List.find_none _ _ E), list_elem_of_In, Hy).
    rewrite !dist_cases by (auto; apply Hr, list_elem_of_here). rewrite !Hall by (done || apply list_elem_of_here).
    enough (n <= z) by lia. inversion_clear Hs as [|? ? _ Ha]. apply elem_of_cons in Hz as [->|Hz]; [lia|].
    rewrite Forall_forall in Ha. by apply Ha.
Qed.

Lemma elem_of_recorded x s : x ∈ recorded_runnable s ↔ sessionStates s !! x = Some Runnable.
Proof.
  unfold recorded_runnable. rewrite list_elem_of_omap. split.
  - intros ([k st] & Hin%elem_of_map_to_list & Hk). cbn in Hk. case_decide; simplify_eq. done.
  - intros H. exists (x, Runnable). split; [by apply elem_of_map_to_list|]. done.
Qed.

Record ids_ok (s : Runner) : Prop := mk_ids_ok {
  ids_last : is_id (lastServed s);
  ids_active : ∀ a, active s = Some a → is_id a;
  ids_states : ∀ a st, sessionStates s !! a = Some st → is_id a
}.

(** Who may take a free token: the first, after the last one served, of the
    sessions recorded as runnable and the requester. *)
Lemma canAcquire_first y x s : ids_ok s → is_id y → active s = None → canAcquireLocked y s = true →
  sessionStates s !! x = Some Runnable → dist (lastServed s) y <= dist (lastServed s) x.
Proof.
  intros [Hl _ Hst] Hy Ha Hcan Hx. unfold canAcquireLocked in Hcan. rewrite Ha in Hcan.
  rewrite bool_decide_eq_false_2 in Hcan by done. rewrite bool_decide_eq_false_2 in Hcan by (by intros []).
  cbn [orb] in Hcan. destruct (bool_decide (stateLocked y s = WaitingForInput)) eqn:Ew; [done|].
  unfold nextRunnableSessionLocked in Hcan.
  set (l := if _ : bool then recorded_runnable s ++ [y] else recorded_runnable s) in Hcan.
  assert (x ∈ l) as Hxl.
  { apply elem_of_recorded in Hx. unfold l. destruct (_ && _); [apply elem_of_app; by left|done]. }
  assert (Forall is_id l) as Hids.
  { apply Forall_forall. intros z Hz. assert (z ∈ recorded_runnable s ++ [y]) as Hz'.
    { unfold l in Hz. destruct (_ && _); [done|]. apply elem_of_app. by left. }
    apply elem_of_app in Hz' as [Hz'|Hz']; [apply elem_of_recorded in Hz'; by eapply Hst|].
    apply list_elem_of_singleton in Hz' as ->. done. }
  assert (match l with [] => None | _ => pick_after (lastServed s) (merge_sort Z.le l) end =
          pick_after (lastServed s) (merge_sort Z.le l)) as Hm by (destruct l; [by apply elem_of_nil in Hxl|done]).
  rewrite Hm in Hcan. destruct (pick_after _ _) as [n|] eqn:Ep.
  - apply Z.eqb_eq in Hcan as ->.
    apply pick_after_first in Ep as [_ Hmin]; [|apply StronglySorted_merge_sort; apply _| |done].
    + apply Hmin. by rewrite merge_sort_Permutation.
    + by rewrite merge_sort_Permutation.
  - exfalso. unfold pick_after in Ep. destruct (List.find _ _); [done|].
    assert (x ∈ merge_sort Z.le l) as Hxm by (by rewrite merge_sort_Permutation).
    destruct (merge_sort Z.le l); [by apply elem_of_nil in Hxm|done].
Qed.

(** The sessions that take the free token in an execution, in order. *)
Fixpoint takes (ls : list label) (s : Runner) : list SessionId :=
  match ls with
  | [] => []
  | l :: ls' =>
      (match l with
       | LAcquire id | LAcquireAfterWake id => match active s with Some _ => [] | None => [id] end
       | _ => []
       end) ++ takes ls' (label_method l s).2
  end.

Lemma step_ids_ok s l s' : ids_ok s → is_id (label_id l) → step s l s' → ids_ok s'.
Proof.
  intros [H1 H2 H3] Hl Hstep. apply step_effect in Hstep as [He| ->]; [|done].
  destruct He as [Ha Ha' _ Hls Hs|Ha Ha' _ Hls Hs|Ha Ha' _ _ Hls Hs|st Ha Ha' _ Hls _ Hs|st Ha' _ Hls _ Hs];
    split; rewrite ?Hls, ?Ha', ?Hs; try done; try (intros a [= <-]; done);
    intros a st'; rewrite ?Hs, ?insert_states; try case_decide; subst; try done; apply H3.
Qed.

(** The session whose turn it is or was last. *)
Definition turn (s : Runner) : SessionId := default (lastServed s) (active s).

(** What happens to a free token: [acquire] takes it, any other call (but the
    priority wake-up) leaves the turn as it is. *)
Lemma free_step s l s1 : step s l s1 → active s = None →
  (∃ y, l = LAcquire y ∧ canAcquireLocked y s = true ∧ turn s1 = y) ∨
  (∃ y, l = LAcquireAfterWake y) ∨
  ((∀ y, l ≠ LAcquire y) ∧ turn s1 = turn s).
Proof.
  intros [s0 l0 s2 Hen Hm] Ha. destruct l0 as [y|y|y|y|y|y|y]; cbn [enabled label_method] in *.
  - left. exists y. split; [done|]. split; [done|]. unfold grantAcquireLocked in Hm. rewrite Ha in Hm. cbn [active] in Hm.
    rewrite bool_decide_eq_true_2 in Hm by done. by injection Hm as <-.
  - right; left. by exists y.
  - unfold release in Hm. rewrite Ha in Hm. by rewrite bool_decide_eq_false_2 in Hm.
  - unfold yieldWaitingForInput in Hm. rewrite Ha in Hm. by rewrite bool_decide_eq_false_2 in Hm.
  - right; right. split; [done|]. unfold turn. by injection Hm as <-.
  - right; right. split; [done|]. unfold turn. injection Hm as <-. rewrite Ha. by rewrite bool_decide_eq_false_2.
  - right; right. split; [done|]. unfold runExclusive_end in Hm. rewrite Ha in Hm.
    rewrite bool_decide_eq_false_2 in Hm by done. cbn [andb] in Hm. unfold turn.
    destruct (negb (bool_decide (is_Some None)) && bool_decide (stateLocked y s0 = WaitingForInput));
      injection Hm as <-; cbn; by rewrite ?Ha.
Qed.

(** The calls while [x] waits in [acquire]: those of other sessions but the priority wake-up, and [resume x], which
    the loop makes when there is input for [x]. *)
Definition others_move (x : SessionId) (l : label) : Prop :=
  l = LResume x ∨ is_id (label_id l) ∧ label_id l ≠ x ∧ ∀ id, l ≠ LAcquireAfterWake id.

(** Resuming a session that is recorded as runnable changes nothing. *)
Lemma resume_idle s x s1 : step s (LResume x) s1 → sessionStates s !! x = Some Runnable → s1 = s.
Proof.
  intros Hst Hx. inversion Hst as [s0 l0 s2 Hen Hm]; subst. cbn [label_method] in Hm. unfold resume in Hm. injection Hm as <-.
  destruct s as [? ? ? st]. cbn in *. by rewrite insert_id.
Qed.

Lemma takes_approach x ls s s' : steps s ls s' → ids_ok s → is_id x → active s ≠ Some x →
  Forall (others_move x) ls →
  sessionStates s !! x = Some Runnable →
  Forall (λ y, dist y x < dist (turn s) x) (takes ls s) ∧
  StronglySorted (λ a b, dist b x < dist a x) (takes ls s).
Proof.
  intros Hs. induction Hs as [s|s l s1 ls s2 Hstep Hs IH]; intros Hids Hx Hax Hls Hrec;
    [split; constructor|].
  apply Forall_cons in Hls as [[->|(Hlid & Hlx & Hlw)] Hls'].
  { pose proof (resume_idle _ _ _ Hstep Hrec) as ->. cbn [takes app label_method].
    assert ((resume x s).2 = s) as -> by (destruct s; cbn in *; by rewrite insert_id).
    by apply IH. }
  pose proof (step_ids_ok _ _ _ Hids Hlid Hstep) as Hids1.
  assert ((label_method l s).2 = s1) as Hs1 by (destruct Hstep as [???? Hm]; by rewrite Hm).
  cbn [takes]. rewrite Hs1.
  assert (active s1 ≠ Some x ∧ sessionStates s1 !! x = Some Runnable) as [Hax1 Hrec1].
  { apply step_effect in Hstep as [He| ->]; [|done].
    destruct He as [Ha Ha' _ _ Hst|Ha Ha' _ _ Hst|Ha Ha' _ _ _ Hst|st Ha Ha' _ _ _ Hst|st Ha' _ _ _ Hst];
      rewrite ?Ha', ?Hst, ?insert_states; (split; [congruence|]); rewrite ?decide_False by congruence; done. }
  destruct (IH Hids1 Hx Hax1 Hls' Hrec1) as [Hf Hso]. clear IH.
  destruct (active s) as [a|] eqn:Ea.
  - assert (turn s1 = turn s) as Ht.
    { unfold turn. apply step_effect in Hstep as [He| ->]; [|done]. rewrite Ea.
      destruct He as [Ha Ha' _ _ Hst|Ha Ha' _ _ Hst|Ha Ha' _ _ _ Hst|st Ha Ha' _ Hl _ Hst|st Ha' _ Hl _ Hst];
        rewrite Ha', ?Ea; cbn; congruence. }
    rewrite Ht in Hf. destruct l; cbn [app]; done.
  - destruct (free_step s l s1 Hstep Ea) as [(y & -> & Hcan & Ht)|[(y & ->)|(Hna & Ht)]]; [|by destruct (Hlw y)|].
    + cbn [app label_id] in *. rewrite Ht in Hf.
      pose proof (canAcquire_first y x s Hids Hlid Ea Hcan Hrec) as Hle.
      assert (dist y x < dist (turn s) x) as Hlt.
      { unfold turn. rewrite Ea. cbn. apply dist_advance; [apply Hids|done|done|].
        enough (dist (lastServed s) y ≠ dist (lastServed s) x) by lia.
        intros Heq. apply Hlx. apply (dist_inj (lastServed s)); [apply Hids|done|done|done]. }
      split; constructor; try done. eapply Forall_impl; [exact Hf|]. cbn. lia.
    + rewrite Ht in Hf. assert ((match l with LAcquire id | LAcquireAfterWake id => [id] | _ => [] end) = []) as ->
        by (destruct l; try done; [by destruct (Hna id)|by destruct (Hlw id)]).
      done.
Qed.

(** C30. Round robin: while a session waits in [acquire], recorded as runnable, every other session takes
    the free token at most once before it -- no session overtakes it twice -- as long as nobody uses the priority wake-up
    [acquireAfterInputWake]: this holds of every stretch of calls without one ([wake_jumps_the_queue] shows what
    one does, as documented). The calls may resume the waiting session; it makes none itself, since its thread waits. *)
Theorem round_robin x ls0 ls s s' :
  steps newRunner ls0 s → Forall (λ l, is_id (label_id l)) ls0 →
  sessionStates s !! x = Some Runnable → active s ≠ Some x →
  Forall (others_move x) ls →
  steps s ls s' → NoDup (takes ls s) ∧ x ∉ takes ls s.
Proof.
  intros Hs0 Hl0 Hx Hax Hls Hs.
  assert (ids_ok s) as Hids.
  { assert (∀ s0, ids_ok s0 → steps s0 ls0 s → ids_ok s) as Hgen; [|apply (Hgen newRunner); [by split|done]].
    clear -Hl0. intros s0 Hids Hs. induction Hs as [|s0 l s1 ls0 s2 Hstep Hs IH]; [done|].
    inversion_clear Hl0. apply IH; [done|]. by eapply step_ids_ok. }
  destruct (takes_approach x ls s s' Hs Hids (ids_states s Hids _ _ Hx) Hax Hls Hx) as [Hf Hso].
  split.
  - induction Hso as [|a l Hl IH Ha]; [constructor|]. inversion_clear Hf. constructor; [|by apply IH].
    intros Hin. rewrite Forall_forall in Ha. specialize (Ha a Hin). lia.
  - intros Hin. clear Hf Hso. revert Hin. clear -Hls. revert s. induction ls as [|l ls IH]; intros s; cbn [takes]; [by intros ?%elem_of_nil|].
    apply Forall_cons in Hls as [Hl Hls']. rewrite elem_of_app. intros [Hin|Hin]; [|by eapply IH].
    destruct Hl as [->|(_ & Hlx & _)]; [by apply elem_of_nil in Hin|]. destruct l; cbn in Hlx; destruct (active s); set_solver.
Qed.

Lemma round_robin_witness :
  let s := default newRunner (exec [LResume 1; LResume 2; LResume 3; LAcquire 1] newRunner) in
  let ls := [LRelease 1; LAcquire 2; LResume 3; LRelease 2] in
  takes ls s = [2] ∧ NoDup (takes ls s).
Proof.
  intros s ls. split; [by vm_compute|].
  apply (round_robin 3 [LResume 1; LResume 2; LResume 3; LAcquire 1] ls s (default newRunner (exec ls s))).
  - by apply exec_steps; vm_compute.
  - repeat (apply Forall_cons_2; [by split|]). apply Forall_nil_2.
  - by vm_compute.
  - by vm_compute.
  - repeat (apply Forall_cons_2; [first [by left | right; split; [by split|]; split; [done|intros ? [=]]]|]). apply Forall_nil_2.
  - by apply exec_steps; vm_compute.
Defined.

(** Session 1 is at work and 3 waits; every time input comes for 1 it takes the token before 3. *)
Example wake_jumps_the_queue :
  let s := default newRunner (exec [LResume 1; LResume 3; LAcquire 1] newRunner) in
  let ls := [LYield 1; LResume 1; LAcquireAfterWake 1; LYield 1; LResume 1; LAcquireAfterWake 1] in
  is_Some (exec ls s) ∧ takes ls s = [1; 1].
Proof. split; [by eexists; vm_compute|by vm_compute]. Qed.

(** ** Ports *)

(** The ports below the candidate are all in use, and every port in use is one of
    1..maxPorts. *)
Record ports_wf (p : PortManager) : Prop := mk_ports_wf {
  pw_max : 1 <= maxPorts p < 2 ^ 32 - 1;
  pw_range : ∀ q, q ∈ inUse p → 1 <= q <= maxPorts p;
  pw_next : 1 <= nextCandidate p <= maxPorts p + 1;
  pw_below : ∀ q, 1 <= q < nextCandidate p → q ∈ inUse p
}.

(** The ports [from .. from+n-1]. *)
Definition port_range (from : Z) (n : nat) : gset SessionId := list_to_set (seqZ from (Z.of_nat n)).

Lemma size_port_range from n : size (port_range from n) = n.
Proof. unfold port_range. rewrite size_list_to_set by apply NoDup_seqZ. rewrite length_seqZ. lia. Qed.

Lemma elem_of_port_range q from n : q ∈ port_range from n ↔ from <= q < from + Z.of_nat n.
Proof. unfold port_range. rewrite elem_of_list_to_set, elem_of_seqZ. done. Qed.

(** If all of 1..k are in use, [k] is at most the number of ports in use. *)
Lemma used_prefix_size p k : (∀ q, 1 <= q <= Z.of_nat k → q ∈ inUse p) → (k <= size (inUse p))%nat.
Proof.
  intros H. rewrite <- (size_port_range 1 k) at 1. apply subseteq_size. intros q Hq%elem_of_port_range.
  apply H. lia.
Qed.

(** The search ends at the smallest free port. *)
Lemma find_candidate_spec p rounds c : ports_wf p → Z.of_nat (size (inUse p)) < maxPorts p →
  (size (inUse p) < rounds + Z.to_nat (c - 1))%nat → 1 <= c → (∀ q, 1 <= q < c → q ∈ inUse p) →
  let r := find_candidate rounds (inUse p) c in
  (c <= r <= maxPorts p) ∧ (r ∉ inUse p) ∧ ∀ q, 1 <= q < r → q ∈ inUse p.
Proof.
  intros Hw Hsz. revert c. induction rounds as [|rounds IH]; intros c Hr Hc Hb; cbn zeta.
  - exfalso. pose proof (used_prefix_size p (Z.to_nat (c - 1))) as Hk.
    assert (Z.to_nat (c - 1) <= size (inUse p))%nat; [|lia]. apply Hk. intros q Hq. apply Hb. lia.
  - cbn [find_candidate]. assert (c <= maxPorts p) as Hcm.
    { pose proof (used_prefix_size p (Z.to_nat (c - 1))) as Hk.
      assert (Z.to_nat (c - 1) <= size (inUse p))%nat; [|lia]. apply Hk. intros q Hq. apply Hb. lia. }
    destruct (bool_decide (c ∈ inUse p)) eqn:E.
    + apply bool_decide_eq_true in E. pose proof (pw_max p Hw) as Hm.
      unfold wrap32. rewrite Z.mod_small by lia.
      destruct (IH (c + 1)) as (H1 & H2 & H3); [lia|lia| |split; [lia|done]].
      intros q Hq. destruct (decide (q = c)) as [->|]; [done|]. apply Hb. lia.
    + apply bool_decide_eq_false in E. split; [lia|]. done.
Qed.

Lemma allocate_wf p : ports_wf p → ports_wf (allocate p).2 ∧
  match (allocate p).1 with
  | None => size (inUse p) = Z.to_nat (maxPorts p) ∧ inUse (allocate p).2 = inUse p
  | Some q => (q ∉ inUse p) ∧ (1 <= q <= maxPorts p) ∧ (∀ r, 1 <= r < q → r ∈ inUse p) ∧
              inUse (allocate p).2 = {[q]} ∪ inUse p
  end.
Proof.
  intros Hw. pose proof Hw as [Hm Hr Hn Hb]. unfold allocate.
  destruct (Z.leb_spec (maxPorts p) (Z.of_nat (size (inUse p)))) as [Hfull|Hfree]; cbn [fst snd].
  - split; [done|]. split; [|done].
    enough (size (inUse p) <= Z.to_nat (maxPorts p))%nat by lia.
    rewrite <- (size_port_range 1 (Z.to_nat (maxPorts p))) at 1. apply subseteq_size.
    intros q Hq%Hr. apply elem_of_port_range. lia.
  - destruct (find_candidate_spec p (S (size (inUse p))) (nextCandidate p) Hw Hfree) as (H1 & H2 & H3);
      [lia|lia|done|].
    cbv zeta in H1, H2, H3. set (c := find_candidate _ _ _) in *. clearbody c.
    unfold wrap32. rewrite (Z.mod_small (c + 1)) by lia.
    split; [|split; [done|split; [lia|done]]].
    split; cbn; [lia| |lia|].
    + intros q [->%elem_of_singleton|Hq]%elem_of_union; [lia|by apply Hr].
    + intros q Hq. apply elem_of_union. destruct (decide (q = c)) as [->|]; [left; by apply elem_of_singleton|].
      right. apply H3. lia.
Qed.

Lemma releasePort_wf port p : 1 <= port → ports_wf p → ports_wf (releasePort port p).
Proof.
  intros Hp [Hm Hr Hn Hb]. split; cbn; [lia| | |].
  - intros q [Hq _]%elem_of_difference. by apply Hr.
  - destruct (Z.ltb_spec port (nextCandidate p)); lia.
  - intros q Hq. apply elem_of_difference. rewrite elem_of_singleton.
    destruct (Z.ltb_spec port (nextCandidate p)); (split; [apply Hb; lia|lia]).
Qed.

Lemma run_ports_wf ops p : ports_wf p → Forall (λ op, match op with PRelease q => 1 <= q | PAllocate => True end) ops →
  ports_wf (foldl (flip run_port_op) p ops).
Proof.
  intros Hw Hops. revert p Hw. induction Hops as [|op ops Hop Hops IH]; intros p Hw; [done|]. cbn. apply IH.
  destruct op; [by apply allocate_wf|by apply releasePort_wf].
Qed.

(** After any sequence of allocations and releases (of ports above 0) on a
    new manager: an allocation fails exactly when all [maxPorts] ports are in
    use; otherwise it returns the smallest port of 1..maxPorts that is not in
    use and marks it, so no port is ever handed out twice at a time. *)
Theorem port_allocation (max : Z) (ops : list port_op) :
  max < 2 ^ 32 - 1 → Forall (λ op, match op with PRelease q => 1 <= q | PAllocate => True end) ops →
  let p := foldl (flip run_port_op) (newPortManager max) ops in
  match (allocate p).1 with
  | None => size (inUse p) = Z.to_nat (maxPorts p) ∧ inUse (allocate p).2 = inUse p
  | Some q => (q ∉ inUse p) ∧ (1 <= q <= maxPorts p) ∧ (∀ r, 1 <= r < q → r ∈ inUse p) ∧
              inUse (allocate p).2 = {[q]} ∪ inUse p
  end.
Proof.
  intros Hmax Hops p. apply allocate_wf, run_ports_wf; [|done].
  split; cbn; [destruct (Z.ltb_spec max 1); lia|set_solver|destruct (Z.ltb_spec max 1); lia|lia].
Qed.

Lemma port_allocation_witness :
  let p := foldl (flip run_port_op) (newPortManager 2) [PAllocate; PAllocate; PRelease 1] in
  (allocate p).1 = Some 1 ∧ 1 ∉ inUse p.
Proof.
  pose proof (port_allocation 2 [PAllocate; PAllocate; PRelease 1] ltac:(done)
    ltac:(repeat (apply Forall_cons_2; [done|]); apply Forall_nil_2)) as H. cbv zeta in H |- *.
  set (p := foldl _ _ _) in *. assert (Ha : (allocate p).1 = Some 1) by (by vm_compute).
  rewrite Ha in H. split; [exact Ha|]. exact (proj1 H).
Defined.
