(* ===== verification/Shared.v ===== *)
(** * What a process shares

    [SerialSessionRunner], the runner that came before the cooperative one, and [LockRegistry], the process's pointer to its table of
    locks.  As with the other runner, the methods run under a mutex, and an execution is a sequence of whole steps:
    [runExclusive id fn] is [SBegin id], the steps of [fn], and [SEnd id] unless [fn] throws. *)

From S2P Require Import Prelude CLib Locks Sched.
From stdpp Require Import options.
Local Open Scope Z_scope.

(** ** One session at a time *)

(* src/core/daemon/SerialSessionRunner.h:25-26 [SerialSessionRunner] *)
Record SerialSessionRunner := mkSerial { active_ : option SessionId; depth_ : Z }.

Definition newSerial : SerialSessionRunner := mkSerial None 0.

(* src/core/daemon/SerialSessionRunner.cpp:26-29 [SerialSessionRunner::activeSession] *)
Definition activeSession (s : SerialSessionRunner) : option SessionId := active_ s.

(** The condition that [runExclusive] waits for. *)
(* src/core/daemon/SerialSessionRunner.cpp:8-8 [SerialSessionRunner::runExclusive] *)
Definition serial_enabled (id : SessionId) (s : SerialSessionRunner) : bool :=
  match active_ s with None => true | Some a => a =? id end.

(* src/core/daemon/SerialSessionRunner.cpp:9-14 [SerialSessionRunner::runExclusive] *)
Definition serial_begin (id : SessionId) (s : SerialSessionRunner) : SerialSessionRunner :=
  let s := match active_ s with None => mkSerial (Some id) 0 | Some _ => s end in
  mkSerial (active_ s) (wrap32 (depth_ s + 1)).

(* src/core/daemon/SerialSessionRunner.cpp:18-23 [SerialSessionRunner::runExclusive] *)
Definition serial_end (s : SerialSessionRunner) : SerialSessionRunner :=
  let d := wrap32 (depth_ s - 1) in mkSerial (if d =? 0 then None else active_ s) d.

Inductive serial_label := SBegin (id : SessionId) | SEnd (id : SessionId).

(** [opens id]: the calls of that session that have begun and not ended. *)
Inductive serial_run : list serial_label → SerialSessionRunner → (SessionId → Z) → Prop :=
| serial_nil : serial_run [] newSerial (λ _, 0)
| serial_call ls s opens id : serial_run ls s opens → serial_enabled id s = true →
    serial_run (ls ++ [SBegin id]) (serial_begin id s) (λ j, if j =? id then opens j + 1 else opens j)
| serial_return ls s opens id : serial_run ls s opens → 0 < opens id →
    serial_run (ls ++ [SEnd id]) (serial_end s) (λ j, if j =? id then opens j - 1 else opens j).

(** The token is the session's whose calls are open, the depth is their number, and the others have none. *)
Lemma serial_exclusion ls s opens : serial_run ls s opens → Z.of_nat (length ls) < 2 ^ 32 →
  0 <= depth_ s <= Z.of_nat (length ls) ∧
  match active_ s with
  | None => depth_ s = 0 ∧ ∀ j, opens j = 0
  | Some id => 0 < depth_ s ∧ ∀ j, opens j = if j =? id then depth_ s else 0
  end.
Proof.
  induction 1 as [|ls s opens id _ IH Hen|ls s opens id _ IH Hop]; intros Hn; [done|..]; rewrite length_app in Hn |- *; cbn [length] in *;
    destruct (IH ltac:(lia)) as [Hd IHa]; clear IH.
  - unfold serial_begin, serial_enabled in *. destruct s as [[a|] d]; cbn [active_ depth_] in *.
    + apply Z.eqb_eq in Hen as ->. destruct IHa as [Hd0 Ho]. unfold wrap32. rewrite Z.mod_small by lia. split; [lia|]. split; [lia|].
      intros j. rewrite Ho. by destruct (j =? id).
    + destruct IHa as [-> Ho]. change (wrap32 (0 + 1)) with 1. split; [lia|]. split; [lia|]. intros j. rewrite Ho. by destruct (j =? id).
  - unfold serial_end. destruct s as [[a|] d]; cbn [active_ depth_] in *; [|rewrite (proj2 IHa) in Hop; lia].
    destruct IHa as [Hd0 Ho]. rewrite Ho in Hop. destruct (Z.eqb_spec id a) as [E|]; [|lia]. subst a. unfold wrap32. rewrite Z.mod_small by lia.
    split; [lia|]. destruct (Z.eqb_spec (d - 1) 0) as [E|]; (split; [lia|]); intros j; rewrite Ho; destruct (j =? id); lia.
Qed.

(** A call whose function throws has no end: from then on only that session is let in. *)
Lemma serial_thrown ls s opens id j : serial_run ls s opens → Z.of_nat (length ls) < 2 ^ 32 → 0 < opens id → serial_enabled j s = true → j = id.
Proof.
  intros Hs Hn Ho. apply serial_exclusion in Hs as [_ Hs]; [|done]. unfold serial_enabled. destruct (active_ s) as [a|].
  - destruct Hs as [_ Hs]. rewrite Hs in Ho. destruct (Z.eqb_spec id a) as [E|]; [|lia]. subst a. by intros ->%Z.eqb_eq.
  - destruct Hs as [_ Hs]. rewrite Hs in Ho. lia.
Qed.

(** ** The table of locks

    Tables by their addresses. *)
(* src/core/locking/LockRegistry.h:25-27 [LockRegistry] *)
Record LockRegistry := mkLockRegistry { table_ : positive; tables : gmap positive LockTable }.

(* src/core/locking/LockRegistry.cpp:4-9 [LockRegistry::adoptTable] *)
Definition adoptTable (table : option positive) (r : LockRegistry) : LockRegistry :=
  match table with None => r | Some t => mkLockRegistry t (tables r) end.

(* src/core/locking/LockRegistry.cpp:11-13 [LockRegistry::resetForTests] *)
Definition resetForTests (r : LockRegistry) : LockRegistry :=
  mkLockRegistry (table_ r) (alter clearAll (table_ r) (tables r)).
