(* ===== verification/HostStreams.v ===== *)
(** * Streams on the host's files

    [PosixHostFilesystem.cpp]: the table of open streams that a machine may be given, and the calls on
    it.  The theorem about the table is in Modules.v, with the language module that calls it. *)

From Stdlib Require Import Ascii String.
From S2P Require Import Prelude CLib Words.
From stdpp Require Import options.
Local Open Scope Z_scope.

(** ** Streams on the host's files *)

Inductive open_mode := InMode | OutMode | AppMode.

(** The calls of [std::filebuf] on the host [H]; [B]: an open file.  [fb_get]: what was read, fewer characters
    than asked for only at the end of the file or with an error (the flag). *)
Record FileHost (H B : Type) := mkFileHost {
  fb_exists : string → H → bool;
  fb_open : open_mode → string → H → option B * H;
  fb_get : nat → B * H → (string * bool) * (B * H);
  fb_put : string → B * H → bool * (B * H);
  fb_sync : B * H → bool * (B * H);
  fb_close : B → H → bool * H
}.
Arguments fb_exists {H B} _.
Arguments fb_open {H B} _.
Arguments fb_get {H B} _.
Arguments fb_put {H B} _.
Arguments fb_sync {H B} _.
Arguments fb_close {H B} _.

Section hostfs.
Context {H B : Type} (host : FileHost H B).

(** An [fstream]: the file and the state's flags. *)
Record Stream := mkStream { s_buf : B; s_eof : bool; s_fail : bool; s_bad : bool }.

Definition good (s : Stream) : bool := negb (s_eof s || s_fail s || s_bad s).
Definition failed (s : Stream) : bool := s_fail s || s_bad s.

(** [slots_]; a slot has a stream that is open, or nothing. *)
(* src/core/hostfs/PosixHostFilesystem.h:29-37 [PosixHostFilesystem] *)
Record HostFiles := mkHostFiles { slots_ : list (option Stream); h_host : H }.

Definition throwHostFs {A} (m : string) : proc HostFiles A := throw (RuntimeError ("HOSTFS: " +:+ m)).

Fixpoint first_free (slots : list (option Stream)) : nat :=
  match slots with Some _ :: l => S (first_free l) | _ => O end.

(* src/core/hostfs/PosixHostFilesystem.cpp:27-36 [PosixHostFilesystem::allocateHandle] *)
Definition allocateHandle (s : Stream) : proc HostFiles Z := λ x,
  let i := first_free (slots_ x) in
  let slots := if bool_decide (i < length (slots_ x))%nat then <[i := Some s]> (slots_ x) else slots_ x ++ [Some s] in
  (Ok (Z.of_nat i + 1), mkHostFiles slots (h_host x)).

Definition slot_of (handle : Z) (x : HostFiles) : option Stream :=
  if (handle <? 1) || (Z.of_nat (length (slots_ x)) <? handle) then None else mjoin (slots_ x !! Z.to_nat (handle - 1)).

(* src/core/hostfs/PosixHostFilesystem.cpp:38-47 [PosixHostFilesystem::requireSlot] *)
Definition requireSlot (handle : Z) : proc HostFiles Stream :=
  s ← gets (slot_of handle);
  match s with Some s => mret s | None => throwHostFs "bad handle" end.

Definition set_slot (handle : Z) (s : option Stream) (h : H) (x : HostFiles) : HostFiles :=
  mkHostFiles (<[Z.to_nat (handle - 1) := s]> (slots_ x)) h.

Definition open_file (mode : open_mode) (path : string) : proc HostFiles Z := λ x,
  let '(b, h) := fb_open host mode path (h_host x) in
  match b with
  | None => throwHostFs "open failed" (mkHostFiles (slots_ x) h)
  | Some b => allocateHandle (mkStream b false false false) (mkHostFiles (slots_ x) h)
  end.

(* src/core/hostfs/PosixHostFilesystem.cpp:49-63 [PosixHostFilesystem::openRead] *)
Definition openRead (path : string) : proc HostFiles Z :=
  if str_empty path then throwHostFs "invalid path"
  else x ← get; if negb (fb_exists host path (h_host x)) then throwHostFs "not found" else open_file InMode path.

(* src/core/hostfs/PosixHostFilesystem.cpp:65-75 [PosixHostFilesystem::openWrite] *)
Definition openWrite (path : string) : proc HostFiles Z :=
  if str_empty path then throwHostFs "invalid path" else open_file OutMode path.

(* src/core/hostfs/PosixHostFilesystem.cpp:77-87 [PosixHostFilesystem::openAppend] *)
Definition openAppend (path : string) : proc HostFiles Z :=
  if str_empty path then throwHostFs "invalid path" else open_file AppMode path.

(** [istream::read] of so many characters. *)
Definition stream_read (n : nat) (s : Stream) (h : H) : string * Stream * H :=
  if negb (good s) then ("", mkStream (s_buf s) (s_eof s) true (s_bad s), h)
  else
    let '((got, err), (b, h)) := fb_get host n (s_buf s, h) in
    let short := (String.length got <? n)%nat in
    (got, mkStream b (short && negb err) (short && negb err) err, h).

(** The fail bit is cleared afterwards, the others stay. *)
(* src/core/hostfs/PosixHostFilesystem.cpp:89-107 [PosixHostFilesystem::read] *)
Definition read (handle maxBytes : Z) : proc HostFiles string :=
  s ← requireSlot handle;
  if maxBytes <=? 0 then mret ""
  else
    x ← get;
    let '(got, s, h) := stream_read (Z.to_nat maxBytes) s (h_host x) in
    if s_bad s then modify (set_slot handle (Some s) h);; throwHostFs "read failed"
    else modify (set_slot handle (Some (mkStream (s_buf s) (s_eof s) false (s_bad s))) h);; mret got.

(** [ostream::write]. *)
Definition stream_write (data : string) (s : Stream) (h : H) : Stream * H :=
  if negb (good s) then (mkStream (s_buf s) (s_eof s) true (s_bad s), h)
  else let '(ok, (b, h)) := fb_put host data (s_buf s, h) in (mkStream b (s_eof s) (s_fail s) (negb ok), h).

(** [ostream::flush]. *)
Definition stream_flush (s : Stream) (h : H) : Stream * H :=
  let '(ok, (b, h)) := fb_sync host (s_buf s, h) in (mkStream b (s_eof s) (s_fail s) (s_bad s || negb ok), h).

(* src/core/hostfs/PosixHostFilesystem.cpp:109-122 [PosixHostFilesystem::write] *)
Definition write (handle : Z) (data : string) : proc HostFiles Z :=
  s ← requireSlot handle;
  if str_empty data then mret 0
  else
    x ← get;
    let '(s, h) := stream_write data s (h_host x) in
    modify (set_slot handle (Some s) h);;
    if failed s then throwHostFs "write failed"
    else
      let '(s, h) := stream_flush s h in
      modify (set_slot handle (Some s) h);;
      if failed s then throwHostFs "write failed" else mret (to_int32 (str_size data)).

(* src/core/hostfs/PosixHostFilesystem.cpp:124-138 [PosixHostFilesystem::close] *)
Definition close (handle : Z) : proc HostFiles unit :=
  s ← requireSlot handle;
  x ← get;
  let '(ok, h) := fb_close host (s_buf s) (h_host x) in
  modify (set_slot handle None h);;
  if failed s || negb ok then throwHostFs "close failed" else mret tt.
End hostfs.
