(* ===== verification/Bytecode.v ===== *)
(** * Bytecode

    [src/core/vm/Runtime.h] (opcodes, values, instructions), [InstructionPrint.cpp]
    (names and listing lines), [BytecodeText.cpp] (writing bytecode text) and
    [Parser.cpp] (reading it). *)

From Stdlib Require Import Ascii String.
From S2P Require Import Prelude CLib Dbl.
From stdpp Require Import options.
Local Open Scope Z_scope.

(* src/core/vm/Runtime.h:35-107 [OpCode] *)
Inductive OpCode :=
| Halt | PushInt | PushFlt | PushStr | Add | Sub | Mul | Div | Eq | Ne | Lt | Le | Gt | Ge | Concat | Dup | Drop
| PrintInt | PrintStr | PrintVal | PrintEol | InputInt | InputStr | CoerceInt | Jump | JumpIfZero | Call | Return
| ForSetup | ForNext | DimArray | LoadArr | StoreArr | MatInit | MatCopy | MatLoadFromRec | MatStoreToRec | ClearVars
| AbsInt | SgnInt | SeqStr | InvokeBuiltin | CallFunc | OpenFile | OpenFileTry | ReadRec | ReadRecTry | ReadRecU
| ReadRecUTry | WriteRec | WriteRecTry | WriteRecU | WriteRecUTry | ReleaseRec | ReadNext | ReadNextTry | ReadV
| ReadVTry | WriteV | WriteVTry | ExtractAttr | ResolveDictAttr | Chain | CloseFile | SetOnErrorHandler | LoadVar
| StoreVar | PrintChar | InputFlt | CoerceFlt | Mod.

#[global] Instance OpCode_eq_dec : EqDecision OpCode.
Proof. solve_decision. Defined.

(** [std::variant<int, double, std::string>] *)
(* src/core/vm/Runtime.h:112-112 [Value] *)
Inductive Value := VInt (n : Z) | VDbl (d : double) | VStr (s : string).

#[global] Instance Value_eq_dec : EqDecision Value.
Proof. solve_decision. Defined.

(* src/core/vm/Runtime.h:129-133 [CallFuncOperand] *)
Record CallFuncOperand := mkCallFunc { namespaceId : Z; functionId : Z; argCount : Z }.

(* src/core/vm/Runtime.h:135-139 [Instruction] *)
Record Instruction := mkInstr { op : OpCode; operand : Value; callFunc : CallFuncOperand }.

Definition noCall : CallFuncOperand := mkCallFunc 0 0 0.

(** An instruction without a call operand. *)
Definition instr (o : OpCode) (v : Value) : Instruction := mkInstr o v noCall.

(** ** Names and listing lines *)

(* src/core/vm/InstructionPrint.cpp:13-88 [opCodeName] *)
Definition opCodeName (o : OpCode) : string :=
  match o with
  | Halt => "HALT" | PushInt => "PUSH_INT" | PushFlt => "PUSH_FLT" | PushStr => "PUSH_STR"
  | Add => "ADD" | Sub => "SUB" | Mul => "MUL" | Div => "DIV" | Mod => "MOD"
  | Eq => "EQ" | Ne => "NE" | Lt => "LT" | Le => "LE" | Gt => "GT" | Ge => "GE"
  | Concat => "CONCAT" | Dup => "DUP" | Drop => "DROP"
  | PrintInt => "PRINT_INT" | PrintStr => "PRINT_STR" | PrintVal => "PRINT_VAL" | PrintEol => "PRINT_EOL"
  | PrintChar => "PRINT_CHAR" | InputInt => "INPUT_INT" | InputStr => "INPUT_STR" | InputFlt => "INPUT_FLT"
  | CoerceInt => "COERCE_INT" | CoerceFlt => "COERCE_FLT"
  | Jump => "JUMP" | JumpIfZero => "JZ" | Call => "CALL" | Return => "RETURN"
  | ForSetup => "FOR_SETUP" | ForNext => "FOR_NEXT"
  | DimArray => "DIM_ARRAY" | LoadArr => "LOAD_ARR" | StoreArr => "STORE_ARR"
  | MatInit => "MAT_INIT" | MatCopy => "MAT_COPY" | MatLoadFromRec => "MAT_LOAD_FROM_REC"
  | MatStoreToRec => "MAT_STORE_TO_REC" | ClearVars => "CLEAR_VARS"
  | AbsInt => "ABS_INT" | SgnInt => "SGN_INT" | SeqStr => "SEQ_STR"
  | InvokeBuiltin => "INVOKE_BUILTIN" | CallFunc => "CALL_FUNC"
  | OpenFile => "OPEN_FILE" | OpenFileTry => "OPEN_FILE_TRY"
  | ReadRec => "READ_REC" | ReadRecTry => "READ_REC_TRY" | ReadRecU => "READ_REC_U" | ReadRecUTry => "READ_REC_U_TRY"
  | WriteRec => "WRITE_REC" | WriteRecTry => "WRITE_REC_TRY" | WriteRecU => "WRITE_REC_U"
  | WriteRecUTry => "WRITE_REC_U_TRY" | ReleaseRec => "RELEASE_REC"
  | ReadNext => "READ_NEXT" | ReadNextTry => "READ_NEXT_TRY" | ReadV => "READ_V" | ReadVTry => "READ_V_TRY"
  | WriteV => "WRITE_V" | WriteVTry => "WRITE_V_TRY"
  | ExtractAttr => "EXTRACT_ATTR" | ResolveDictAttr => "RESOLVE_DICT_ATTR" | Chain => "CHAIN"
  | CloseFile => "CLOSE_FILE" | SetOnErrorHandler => "SET_ON_ERROR_HANDLER"
  | LoadVar => "LOAD_VAR" | StoreVar => "STORE_VAR"
  end.

(** The operand an opcode carries, which is how the [switch]es group them. *)
Inductive operand_kind := KNone | KInt | KFlt | KStr | KName | KCall.

Definition kind_of (o : OpCode) : operand_kind :=
  match o with
  | PushInt | Jump | JumpIfZero | Call | SetOnErrorHandler => KInt
  | PushFlt => KFlt
  | PushStr | InvokeBuiltin => KStr
  | LoadVar | StoreVar | ForSetup | ForNext | DimArray | LoadArr | StoreArr | MatInit | MatCopy | MatLoadFromRec
  | MatStoreToRec | OpenFile | OpenFileTry | ReadRec | ReadRecTry | ReadRecU | ReadRecUTry | WriteRec | WriteRecTry
  | WriteRecU | WriteRecUTry | ReleaseRec | ReadNext | ReadNextTry | ReadV | ReadVTry | WriteV | WriteVTry
  | ResolveDictAttr | CloseFile => KName
  | CallFunc => KCall
  | _ => KNone
  end.

Definition expected (what : string) (i : Instruction) (ip : Z) : exn :=
  RuntimeError ("Instruction " +:+ to_string ip +:+ " (" +:+ opCodeName (op i) +:+ "): expected " +:+ what +:+ " operand").

(* src/core/vm/InstructionPrint.cpp:91-98 [intOperandAtIp] *)
Definition intOperandAtIp (i : Instruction) (ip : Z) : outcome Z :=
  match operand i with VInt n => Ok n | _ => Throw (expected "int" i ip) end.

(* src/core/vm/InstructionPrint.cpp:100-107 [stringOperandAtIp] *)
Definition stringOperandAtIp (i : Instruction) (ip : Z) : outcome string :=
  match operand i with VStr s => Ok s | _ => Throw (expected "string" i ip) end.

(* src/core/vm/InstructionPrint.cpp:109-116 [floatOperandAtIp] *)
Definition floatOperandAtIp (i : Instruction) (ip : Z) : outcome double :=
  match operand i with VDbl d => Ok d | _ => Throw (expected "float" i ip) end.

Definition quote (s : string) : string := String DQUOTE (s +:+ String DQUOTE "").

(** [lines]: [loaded->sourceLinePerInstr], when a loaded program is given. *)
(* src/core/vm/InstructionPrint.cpp:119-226 [formatInstructionLine] *)
Definition formatInstructionLine (ip : Z) (i : Instruction) (lines : option (list Z)) : outcome string :=
  arg ←
    match kind_of (op i) with
    | KNone => Ok ""
    | KInt => n ← intOperandAtIp i ip; Ok (" " +:+ to_string n)
    | KFlt => d ← floatOperandAtIp i ip; Ok (" " +:+ format_g 6 d)
    | KStr => s ← stringOperandAtIp i ip; Ok (" " +:+ quote s)
    | KName => s ← stringOperandAtIp i ip; Ok (" " +:+ s)
    | KCall => Ok (" " +:+ to_string (namespaceId (callFunc i)) +:+ ", " +:+ to_string (functionId (callFunc i)) +:+
                   ", " +:+ to_string (argCount (callFunc i)))
    end;
  let suffix :=
    match lines ≫= λ l, l !! Z.to_nat ip with
    | Some line => if 0 <? line then " (line " +:+ to_string line +:+ ")" else ""
    | None => ""
    end in
  Ok (to_string ip +:+ ": " +:+ opCodeName (op i) +:+ arg +:+ suffix).

(** ** Writing bytecode text *)

(* src/core/vm/BytecodeText.cpp:10-24 [escapeQuoted] *)
Fixpoint escapeQuoted (s : string) : string :=
  match s with
  | "" => ""
  | String c s' =>
      (if Ascii.eqb c BACKSLASH then String BACKSLASH (String BACKSLASH "")
       else if Ascii.eqb c DQUOTE then String BACKSLASH (String DQUOTE "")
       else if Ascii.eqb c NL then String BACKSLASH "n"
       else if Ascii.eqb c CR then String BACKSLASH "r"
       else if Ascii.eqb c TAB then String BACKSLASH "t"
       else String c "") +:+ escapeQuoted s'
  end.

(** [std::get] on the wrong alternative. *)
Definition bad_variant : exn := LogicError "std::get: wrong index for variant".

Definition get_int (v : Value) : outcome Z := match v with VInt n => Ok n | _ => Throw bad_variant end.
Definition get_dbl (v : Value) : outcome double := match v with VDbl d => Ok d | _ => Throw bad_variant end.
Definition get_str (v : Value) : outcome string := match v with VStr s => Ok s | _ => Throw bad_variant end.

(** One instruction's line, without the newline. *)
Definition serialize_instr (i : Instruction) : outcome string :=
  arg ←
    match kind_of (op i) with
    | KNone => Ok ""
    | KInt => n ← get_int (operand i); Ok (" " +:+ to_string n)
    | KFlt => d ← get_dbl (operand i); Ok (" " +:+ format_g 6 d)
    | KStr => s ← get_str (operand i); Ok (" " +:+ quote (escapeQuoted s))
    | KName => s ← get_str (operand i); Ok (" " +:+ s)
    | KCall => Ok (" " +:+ to_string (namespaceId (callFunc i)) +:+ ", " +:+ to_string (functionId (callFunc i)) +:+
                   ", " +:+ to_string (argCount (callFunc i)))
    end;
  Ok (opCodeName (op i) +:+ arg).

Fixpoint serialize_instrs (p : list Instruction) : outcome string :=
  match p with
  | [] => Ok ""
  | i :: p' => l ← serialize_instr i; rest ← serialize_instrs p'; Ok (l +:+ String NL rest)
  end.

(* src/core/vm/BytecodeText.cpp:27-103 [serializeBytecodeText] *)
Definition serializeBytecodeText (p : list Instruction) (sourceLinePerInstr : list Z) : outcome string :=
  let header :=
    match sourceLinePerInstr with
    | [] => ""
    | _ => "#BASICLINES:" +:+
           str_join "," (to_string <$> take (Nat.min (length p) (length sourceLinePerInstr)) sourceLinePerInstr) +:+
           String NL ""
    end in
  body ← serialize_instrs p;
  Ok (header +:+ body).

(** ** Reading bytecode text *)

(* src/core/vm/Parser.h:17-21 [LoadedBytecode] *)
Record LoadedBytecode := mkLoaded {
  program : list Instruction;
  labels : gmap string Z;
  sourceLines : list Z
}.

(* src/core/vm/Parser.h:23-28 [ParsedLine] *)
Record ParsedLine := mkLine { plabel : string; opcode : string; poperand : string; sourceLine : Z }.

Definition is_blank (c : ascii) : bool :=
  Ascii.eqb c " " || Ascii.eqb c TAB || Ascii.eqb c NL || Ascii.eqb c CR.

(* src/core/vm/Parser.cpp:16-23 [trimLocal] *)
Definition trimLocal (s : string) : string := trim_by is_blank s.

(* src/core/vm/Parser.cpp:153-158 [Parser::trim] *)
Definition trim (s : string) : string := trim_by is_blank s.

(* src/core/vm/Parser.cpp:25-37 [parseNonNegativeInt] *)
Definition parseNonNegativeInt (text : string) : option Z :=
  match stoll text with
  | Ok (v, rest) => if negb (str_empty rest) || (v <? 0) || (INT_MAX <? v) then None else Some v
  | _ => None
  end.

(* src/core/vm/Parser.cpp:39-51 [parseUint32] *)
Definition parseUint32 (text : string) : option Z :=
  match stoull text with
  | Ok (v, rest) => if negb (str_empty rest) || (UINT32_MAX <? v) then None else Some v
  | _ => None
  end.

Definition at_line (line : Z) : string := " at line " +:+ to_string line.

(** ['text'] in an error message. *)
Definition tick (s : string) : string := "'" +:+ s +:+ "'".

(* src/core/vm/Parser.cpp:53-88 [parseCallFuncOperands] *)
Definition parseCallFuncOperands (text : string) (line : Z) : outcome CallFuncOperand :=
  let missing := RuntimeError ("CALL_FUNC requires namespace-id, function-id, arg-count" +:+ at_line line) in
  let invalid (what part : string) :=
    RuntimeError ("Invalid CALL_FUNC " +:+ what +:+ at_line line +:+ ": " +:+ tick part) in
  if str_empty text then Throw missing
  else
    match filter (λ s, str_empty s = false) (trimLocal <$> getlines "," text) with
    | [p0; p1; p2] =>
        match parseUint32 p0 with
        | None => Throw (invalid "namespace-id" p0)
        | Some n =>
            match parseUint32 p1 with
            | None => Throw (invalid "function-id" p1)
            | Some f =>
                match parseNonNegativeInt p2 with
                | None => Throw (invalid "arg-count" p2)
                | Some a => Ok (mkCallFunc n f a)
                end
            end
        end
    | _ => Throw missing
    end.

(** The characters between the quotes. *)
Fixpoint unescape (s : string) (line : Z) : outcome string :=
  match s with
  | "" => Ok ""
  | String c s' =>
      if Ascii.eqb c BACKSLASH then
        match s' with
        | "" => Throw (RuntimeError ("Invalid string escape" +:+ at_line line))
        | String e s'' =>
            let k (r : ascii) := (String r) <$> unescape s'' line in
            if Ascii.eqb e BACKSLASH then k BACKSLASH
            else if Ascii.eqb e DQUOTE then k DQUOTE
            else if Ascii.eqb e "n" then k NL
            else if Ascii.eqb e "r" then k CR
            else if Ascii.eqb e "t" then k TAB
            else Throw (RuntimeError ("Invalid string escape" +:+ at_line line))
        end
      else (String c) <$> unescape s' line
  end.

(* src/core/vm/Parser.cpp:90-117 [parseQuotedString] *)
Definition parseQuotedString (token : string) (line : Z) : outcome string :=
  match token with
  | String q rest =>
      if (2 <=? str_size token) && Ascii.eqb q DQUOTE && bool_decide (str_back token = Some DQUOTE)
      then unescape (str_take (String.length rest - 1) rest) line
      else Ok token
  | "" => Ok ""
  end.

Fixpoint parse_line_numbers (items : list string) : outcome (list Z) :=
  match items with
  | [] => Ok []
  | item :: items' =>
      let item' := trimLocal item in
      if str_empty item' then Throw (RuntimeError "Invalid #BASICLINES metadata")
      else match parseNonNegativeInt item' with
           | None => Throw (RuntimeError "Invalid #BASICLINES metadata")
           | Some v => vs ← parse_line_numbers items'; Ok (v :: vs)
           end
  end.

(* src/core/vm/Parser.cpp:119-144 [parseBasicLinesMetadata] *)
Definition parseBasicLinesMetadata (line : string) : outcome (list Z) :=
  let text := trimLocal line in
  if negb (starts_with "#BASICLINES:" text) then Ok []
  else
    let csv := str_drop 12 text in
    if str_empty csv then Ok [] else parse_line_numbers (getlines "," csv).

(* src/core/vm/Parser.cpp:146-150 [requireNoOperand] *)
Definition requireNoOperand (pl : ParsedLine) : outcome unit :=
  if str_empty (poperand pl) then Ok tt
  else Throw (RuntimeError (opcode pl +:+ " takes no operand" +:+ at_line (sourceLine pl))).

(** The text before and after the first colon outside double quotes. *)
Fixpoint find_colon (s : string) (inQuotes : bool) : option (string * string) :=
  let before c r := match r with Some (l, t) => Some (String c l, t) | None => None end in
  match s with
  | "" => None
  | String c s' =>
      if inQuotes then
        if Ascii.eqb c BACKSLASH then
          match s' with
          | String e s'' => before c (before e (find_colon s'' true))
          | "" => None
          end
        else before c (find_colon s' (negb (Ascii.eqb c DQUOTE)))
      else if Ascii.eqb c DQUOTE then before c (find_colon s' true)
      else if Ascii.eqb c ":" then Some ("", s')
      else before c (find_colon s' false)
  end.

(** [iss >> opcode; getline(iss, rest)] *)
Definition split_opcode (line : string) : string * string :=
  match extract_word line with
  | None => ("", "")
  | Some (w, r) => (w, trim (match getline NL r with Some (l, _) => l | None => "" end))
  end.

(* src/core/vm/Parser.cpp:160-206 [Parser::parseLine] *)
Definition parseLine (raw : string) : ParsedLine :=
  let line := trim raw in
  match line with
  | "" => mkLine "" "" "" 0
  | String c _ =>
      if Ascii.eqb c "#" then mkLine "" "" "" 0
      else
        let '(label, line') :=
          match find_colon line false with
          | Some (l, r) => (trim l, trim r)
          | None => ("", line)
          end in
        if str_empty line' then mkLine label "" "" 0
        else let '(o, rest) := split_opcode line' in mkLine label o rest 0
  end.

(** Instructions are checked from the first on; [len] is [program.size()]. *)
Fixpoint validate_from (i : Z) (len : Z) (p : list Instruction) : outcome unit :=
  match p with
  | [] => Ok tt
  | inst :: p' =>
      if bool_decide (op inst ∈ [Jump; JumpIfZero; Call]) then
        match operand inst with
        | VInt t =>
            if (t <? 0) || (len <=? t)
            then Throw (RuntimeError ("Control-flow target out of range at instruction " +:+ to_string i +:+ ": " +:+ to_string t))
            else validate_from (i + 1) len p'
        | _ => Throw (RuntimeError ("Control-flow instruction at index " +:+ to_string i +:+ " has no int target"))
        end
      else validate_from (i + 1) len p'
  end.

(* src/core/vm/Parser.cpp:208-222 [Parser::validateJumpTargets] *)
Definition validateJumpTargets (p : list Instruction) : outcome unit :=
  validate_from 0 (Z.of_nat (length p)) p.

(** *** Pass 1: lines and labels *)
Record pass1 := mkPass1 { p_lines : list ParsedLine; p_labels : gmap string Z; p_meta : list Z }.

(** One physical line, numbered [physLine]; [index] counts the instructions. *)
Definition pass1_line (physLine : Z) (line : string) (st : pass1) : outcome pass1 :=
  let trimmed := trim line in
  if starts_with "#BASICLINES:" trimmed then
    meta ← parseBasicLinesMetadata trimmed;
    Ok (mkPass1 (p_lines st) (p_labels st) meta)
  else
    let pl := parseLine line in
    let index := Z.of_nat (length (p_lines st)) in
    let labels' := if str_empty (plabel pl) then p_labels st else <[plabel pl := index]> (p_labels st) in
    let lines' := if str_empty (opcode pl) then p_lines st
                  else p_lines st ++ [mkLine (plabel pl) (opcode pl) (poperand pl) physLine] in
    Ok (mkPass1 lines' labels' (p_meta st)).

(* src/core/vm/Parser.cpp:225-251 [Parser::parse, pass 1] *)
Fixpoint pass1_lines (physLine : Z) (lines : list string) (st : pass1) : outcome pass1 :=
  match lines with
  | [] => Ok st
  | l :: lines' => st' ← pass1_line physLine l st; pass1_lines (physLine + 1) lines' st'
  end.

(** *** Pass 2: instructions

    The opcodes without operand, and those whose operand is a name, with what
    the error message calls it. *)
Definition plain_ops : list OpCode :=
  [Halt; Add; Sub; Mul; Div; Mod; Eq; Ne; Lt; Le; Gt; Ge; Dup; Drop; Concat; PrintInt; PrintStr; PrintVal; PrintEol;
   PrintChar; InputInt; InputStr; InputFlt; CoerceInt; CoerceFlt; Return; ClearVars; AbsInt; SgnInt; SeqStr;
   ExtractAttr; Chain].

Definition name_ops : list (OpCode * string) :=
  [(ForSetup, "a variable name"); (ForNext, "a variable name"); (DimArray, "a variable name");
   (LoadArr, "a variable name"); (StoreArr, "a variable name"); (MatInit, "an array name");
   (MatCopy, "a DST|SRC operand"); (MatLoadFromRec, "an array name"); (MatStoreToRec, "an array name");
   (InvokeBuiltin, "a quoted builtin name");
   (LoadVar, "a variable name"); (StoreVar, "a variable name")].

Definition file_ops : list OpCode :=
  [OpenFile; OpenFileTry; ReadRec; ReadRecTry; ReadRecU; ReadRecUTry; WriteRec; WriteRecTry; WriteRecU; WriteRecUTry;
   ReleaseRec; ReadNext; ReadNextTry; ReadV; ReadVTry; ResolveDictAttr; WriteV; WriteVTry; CloseFile].

Definition named (o : string) (x : OpCode) : bool := String.eqb o (opCodeName x).

(** [Invalid X operand at line N: 'text'] *)
Definition invalid_operand (pl : ParsedLine) : exn :=
  RuntimeError ("Invalid " +:+ opcode pl +:+ " operand" +:+ at_line (sourceLine pl) +:+ ": " +:+ tick (poperand pl)).

(** Opcodes without operand: the branches that call [requireNoOperand]. *)
(* src/core/vm/Parser.cpp:262-360 [Parser::parse, plain opcodes] *)
Definition parse_plain (pl : ParsedLine) : option (outcome Instruction) :=
  match List.find (named (opcode pl)) plain_ops with
  | Some o => Some (requireNoOperand pl;; Ok (instr o (VInt 0)))
  | None => None
  end.

(** PUSH_INT (a numeric prefix is enough), PUSH_FLT (the whole operand) and
    PUSH_STR. *)
(* src/core/vm/Parser.cpp:265-288 [Parser::parse, PUSH] *)
Definition parse_push (pl : ParsedLine) : option (outcome Instruction) :=
  if named (opcode pl) PushInt then
    Some (match stoi (poperand pl) with
          | Ok (n, _) => Ok (instr PushInt (VInt n))
          | _ => Throw (invalid_operand pl)
          end)
  else if named (opcode pl) PushFlt then
    Some (match stod (poperand pl) with
          | Ok (d, "") => Ok (instr PushFlt (VDbl d))
          | _ => Throw (invalid_operand pl)
          end)
  else if named (opcode pl) PushStr then
    Some (s ← parseQuotedString (poperand pl) (sourceLine pl); Ok (instr PushStr (VStr s)))
  else None.

(** JUMP, JZ, CALL: a number or a label. *)
(* src/core/vm/Parser.cpp:361-399 [Parser::parse, control flow] *)
Definition parse_jump (labelMap : gmap string Z) (pl : ParsedLine) : option (outcome Instruction) :=
  match List.find (named (opcode pl)) [Jump; JumpIfZero; Call] with
  | None => None
  | Some o =>
      Some (match parseNonNegativeInt (poperand pl) with
            | Some t => Ok (instr o (VInt t))
            | None =>
                match labelMap !! poperand pl with
                | Some t => Ok (instr o (VInt t))
                | None => Throw (RuntimeError ("Unknown label for " +:+ opcode pl +:+ at_line (sourceLine pl) +:+
                                               ": " +:+ poperand pl))
                end
            end)
  end.

(** A name, or a quoted string, that must not be missing. *)
Definition parse_name_operand (o : OpCode) (what : string) (pl : ParsedLine) : outcome Instruction :=
  if str_empty (poperand pl)
  then Throw (RuntimeError (opcode pl +:+ " requires " +:+ what +:+ at_line (sourceLine pl)))
  else s ← parseQuotedString (poperand pl) (sourceLine pl); Ok (instr o (VStr s)).

(* src/core/vm/Parser.cpp:403-475 [Parser::parse, variables and arrays] *)
Definition parse_named (pl : ParsedLine) : option (outcome Instruction) :=
  match List.find (λ x, named (opcode pl) x.1) name_ops with
  | Some (o, what) => Some (parse_name_operand o what pl)
  | None => None
  end.

(* src/core/vm/Parser.cpp:479-610 [Parser::parse, file opcodes] *)
Definition parse_file_op (pl : ParsedLine) : option (outcome Instruction) :=
  match List.find (named (opcode pl)) file_ops with
  | Some o => Some (parse_name_operand o "a file variable" pl)
  | None => None
  end.

(* src/core/vm/Parser.cpp:545-556 [Parser::parse, SET_ON_ERROR_HANDLER] *)
Definition parse_handler (pl : ParsedLine) : option (outcome Instruction) :=
  if named (opcode pl) SetOnErrorHandler then
    Some (if str_empty (poperand pl)
          then Throw (RuntimeError ("SET_ON_ERROR_HANDLER requires a target IP" +:+ at_line (sourceLine pl)))
          else match stoi (poperand pl) with
               | Ok (n, _) => Ok (instr SetOnErrorHandler (VInt n))
               | _ => Throw (invalid_operand pl)
               end)
  else None.

(* src/core/vm/Parser.cpp:476-478 [Parser::parse, CALL_FUNC] *)
Definition parse_call (pl : ParsedLine) : option (outcome Instruction) :=
  if named (opcode pl) CallFunc then
    Some (c ← parseCallFuncOperands (poperand pl) (sourceLine pl); Ok (mkInstr CallFunc (VInt 0) c))
  else None.

Definition or_else {A} (x y : option A) : option A := match x with Some a => Some a | None => y end.

(** The chain of [else if]s; the names are distinct, so its order is free. *)
(* src/core/vm/Parser.cpp:611-628 [Parser::parse, pass 2] *)
Definition parse_instruction (labelMap : gmap string Z) (pl : ParsedLine) : outcome Instruction :=
  default (Throw (RuntimeError ("Unknown opcode" +:+ at_line (sourceLine pl) +:+ ": " +:+ opcode pl)))
    (or_else (parse_plain pl) (or_else (parse_push pl) (or_else (parse_jump labelMap pl)
      (or_else (parse_named pl) (or_else (parse_file_op pl) (or_else (parse_handler pl) (parse_call pl))))))).

Fixpoint parse_instructions (labelMap : gmap string Z) (pls : list ParsedLine) : outcome (list Instruction) :=
  match pls with
  | [] => Ok []
  | pl :: pls' => i ← parse_instruction labelMap pl; rest ← parse_instructions labelMap pls'; Ok (i :: rest)
  end.

(* src/core/vm/Parser.cpp:630-647 [Parser::parse] *)
Definition parse (text : string) : outcome LoadedBytecode :=
  st ← pass1_lines 1 (getlines NL text) (mkPass1 [] ∅ []);
  p ← parse_instructions (p_labels st) (p_lines st);
  lines ←
    match p_meta st with
    | [] => Ok (sourceLine <$> p_lines st)
    | meta => if bool_decide (length meta = length p) then Ok meta
              else Throw (RuntimeError "#BASICLINES metadata size mismatch")
    end;
  validateJumpTargets p;;
  Ok (mkLoaded p (p_labels st) lines).

(** ** Lines *)

(** Characters that mean nothing to the line parser. *)
Definition plain_char (c : ascii) : bool :=
  negb (isspace c) && negb (Ascii.eqb c DQUOTE) && negb (Ascii.eqb c ":") && negb (Ascii.eqb c ",").

Definition no_colon_char (c : ascii) : bool := negb (Ascii.eqb c DQUOTE) && negb (Ascii.eqb c ":").

(** An operand text that comes back from the line it is written on. *)
Record arg_ok (a : string) : Prop := mk_arg_ok {
  arg_nonempty : a ≠ "";
  arg_line : str_forall (λ c, negb (Ascii.eqb c NL)) a = true;
  arg_front : ∀ c, str_front a = Some c → is_blank c = false;
  arg_back : ∀ c, str_back a = Some c → is_blank c = false;
  arg_colon : find_colon a false = None
}.

Lemma char_impl (p q : ascii → bool) : all_chars (λ c, negb (p c) || q c) = true →
  ∀ c, p c = true → q c = true.
Proof. intros H c Hc. pose proof (all_chars_spec _ H c) as Hq. cbn in Hq. by rewrite Hc in Hq. Qed.

Lemma str_front_forall p s c : str_forall p s = true → str_front s = Some c → p c = true.
Proof. destruct s; cbn; [done|]. intros [? _]%andb_true_iff [= <-]. done. Qed.

Lemma str_back_forall p s c : str_forall p s = true → str_back s = Some c → p c = true.
Proof.
  induction s as [|a s IH]; [done|]. cbn. intros [Ha Hs]%andb_true_iff.
  destruct s; [by intros [= <-]|]. by apply IH.
Qed.

Lemma find_colon_skip w s : str_forall no_colon_char w = true →
  find_colon (w +:+ s) false = match find_colon s false with Some (l, r) => Some (w +:+ l, r) | None => None end.
Proof.
  induction w as [|c w IH].
  - rewrite str_app_nil_l. by destruct (find_colon s false) as [[l r]|].
  - rewrite str_app_cons. cbn. intros [[Hq Hc]%andb_true_iff Hw]%andb_true_iff.
    apply negb_true_iff in Hq, Hc. rewrite Hq, Hc, IH by done.
    by destruct (find_colon s false) as [[l r]|].
Qed.

Lemma plain_arg a : a ≠ "" → str_forall plain_char a = true → arg_ok a.
Proof.
  intros Hne Ha. split; [done|..].
  - revert Ha. apply str_forall_impl, char_impl. by vm_compute.
  - intros c Hc. apply (str_front_forall _ _ _ Ha) in Hc. revert c Hc.
    assert (∀ c, plain_char c = true → negb (is_blank c) = true) as H by (apply char_impl; by vm_compute).
    intros c Hc. apply negb_true_iff. by apply H.
  - intros c Hc. apply (str_back_forall _ _ _ Ha) in Hc. revert c Hc.
    assert (∀ c, plain_char c = true → negb (is_blank c) = true) as H by (apply char_impl; by vm_compute).
    intros c Hc. apply negb_true_iff. by apply H.
  - rewrite <- (str_app_nil_r a), find_colon_skip; [done|].
    revert Ha. apply str_forall_impl, char_impl. by vm_compute.
Qed.

Definition name_char (c : ascii) : bool := isupper c || Ascii.eqb c "_".

Lemma opCodeName_chars o : str_forall name_char (opCodeName o) = true.
Proof. destruct o; reflexivity. Qed.

Lemma opCodeName_nonempty o : opCodeName o ≠ "".
Proof. by destruct o. Qed.

Lemma opCodeName_first o : ∃ c s, opCodeName o = String c s ∧ name_char c = true.
Proof. destruct o; by do 2 eexists. Qed.

Lemma name_char_facts c : name_char c = true →
  is_blank c = false ∧ isspace c = false ∧ Ascii.eqb c "#" = false ∧ no_colon_char c = true.
Proof.
  intros H. assert (negb (is_blank c) && negb (isspace c) && negb (Ascii.eqb c "#") && no_colon_char c = true) as Hf.
  { revert c H. apply char_impl. by vm_compute. }
  rewrite !andb_true_iff, !negb_true_iff in Hf. naive_solver.
Qed.

Lemma read_word_name w c s : str_forall name_char w = true → isspace c = true →
  read_word (w +:+ String c s) = (w, String c s).
Proof.
  intros Hw Hc. induction w as [|a w IH]; [by cbn; rewrite Hc|]. rewrite str_app_cons. cbn in Hw |- *.
  apply andb_true_iff in Hw as [Ha Hw]. destruct (name_char_facts a Ha) as (_ & -> & _). by rewrite IH.
Qed.

Lemma read_word_all w : str_forall name_char w = true → read_word w = (w, "").
Proof.
  induction w as [|a w IH]; [done|]. cbn. intros [Ha Hw]%andb_true_iff.
  destruct (name_char_facts a Ha) as (_ & -> & _). by rewrite IH.
Qed.

Lemma str_back_snoc s c r d : str_back (String c r) = Some d → str_back (s +:+ String c r) = Some d.
Proof.
  intros H. induction s as [|a s IH]; [done|]. rewrite str_app_cons. cbn.
  destruct (s +:+ String c r) eqn:E; [by destruct s|]. exact IH.
Qed.

Lemma str_back_some c s : ∃ d, str_back (String c s) = Some d.
Proof. revert c. induction s as [|a s IH]; intros c; [by eexists|]. apply IH. Qed.

(** An instruction's line, without and with operand. *)
Lemma parse_plain_line o : trim (opCodeName o) = opCodeName o ∧ parseLine (opCodeName o) = mkLine "" (opCodeName o) "" 0.
Proof. destruct o; by vm_compute. Qed.

Lemma parse_operand_line o a : arg_ok a →
  let line := opCodeName o +:+ " " +:+ a in
  trim line = line ∧ parseLine line = mkLine "" (opCodeName o) a 0.
Proof.
  intros [Hne Hnl Hf Hb Hcol]. destruct (opCodeName_first o) as (c & w & Hw & Hc).
  destruct (name_char_facts c Hc) as (Hcb & Hcs & Hch & _).
  pose proof (opCodeName_chars o) as Hchars.
  destruct a as [|x a]; [done|].
  destruct (str_back_some x a) as (d & Hd).
  assert (trim (opCodeName o +:+ " " +:+ String x a) = opCodeName o +:+ " " +:+ String x a) as Ht.
  { apply trim_by_id.
    - rewrite Hw. intros ? [= <-]. done.
    - intros e. rewrite <- str_app_assoc. rewrite (str_back_snoc _ x a d) by done. intros [= <-]. by apply Hb. }
  split; [done|]. unfold parseLine. rewrite Ht. rewrite Hw at 1. rewrite str_app_cons. rewrite Hch.
  rewrite find_colon_skip by (revert Hchars; apply str_forall_impl; intros ??; by apply name_char_facts).
  rewrite (find_colon_skip " ") by done. rewrite Hcol.
  assert (str_empty (opCodeName o +:+ " " +:+ String x a) = false) as -> by (by rewrite Hw).
  unfold split_opcode, extract_word.
  assert (ltrim isspace (opCodeName o +:+ " " +:+ String x a) = opCodeName o +:+ " " +:+ String x a) as ->
    by (rewrite Hw, str_app_cons; by apply ltrim_keep).
  change (" " +:+ String x a) with (String " " (String x a)).
  rewrite read_word_name by done.
  assert (str_empty (opCodeName o) = false) as -> by (by rewrite Hw).
  assert (getline NL (String " " (String x a)) = Some (String " " (String x a), "")) as ->.
  { clear -Hnl. change (getline NL (String " " (String x a))) with
      (match getline NL (String x a) with None => Some (" ", "") | Some (l, r) => Some (String " " l, r) end).
    assert (∀ s, str_forall (λ c, negb (Ascii.eqb c NL)) s = true → s ≠ "" → getline NL s = Some (s, "")) as H.
    { induction s as [|c s IH]; [done|]. cbn. intros [Hc Hs]%andb_true_iff _. apply negb_true_iff in Hc. rewrite Hc.
      destruct s as [|b s]; [done|]. by rewrite IH. }
    by rewrite H. }
  f_equal. unfold trim, trim_by. change (ltrim is_blank (String " " (String x a))) with (ltrim is_blank (String x a)).
  apply trim_by_id; done.
Qed.

(** ** Operand texts *)
Lemma escape_char_cases c : ∃ e, escapeQuoted (String c "") = e ∧
  ((e = String c "" ∧ Ascii.eqb c DQUOTE = false ∧ Ascii.eqb c BACKSLASH = false ∧ Ascii.eqb c NL = false) ∨
   ∃ x, e = String BACKSLASH (String x "") ∧ Ascii.eqb x NL = false).
Proof.
  eexists. split; [reflexivity|]. cbn.
  destruct (Ascii.eqb_spec c BACKSLASH) as [->|]; [right; by eexists|].
  destruct (Ascii.eqb_spec c DQUOTE) as [->|]; [right; by eexists|].
  destruct (Ascii.eqb_spec c NL) as [->|]; [right; by eexists|].
  destruct (Ascii.eqb_spec c CR) as [->|]; [right; by eexists|].
  destruct (Ascii.eqb_spec c TAB) as [->|]; [right; by eexists|].
  left. done.
Qed.

Lemma escapeQuoted_cons c s : escapeQuoted (String c s) = escapeQuoted (String c "") +:+ escapeQuoted s.
Proof. cbn. by rewrite str_app_nil_r. Qed.

Lemma escape_no_newline s : str_forall (λ c, negb (Ascii.eqb c NL)) (escapeQuoted s) = true.
Proof.
  induction s as [|c s IH]; [done|]. rewrite escapeQuoted_cons, str_forall_app, IH, andb_true_r.
  destruct (escape_char_cases c) as (e & -> & [(-> & _ & _ & H)|(x & -> & H)]); cbn; by rewrite H.
Qed.

Lemma escape_quoted_colon s rest : find_colon rest false = None →
  find_colon (escapeQuoted s +:+ String DQUOTE rest) true = None.
Proof.
  intros Hr. induction s as [|c s IH].
  - cbn. by rewrite Hr.
  - rewrite escapeQuoted_cons, str_app_assoc.
    destruct (escape_char_cases c) as (e & -> & [(-> & H1 & H2 & _)|(x & -> & _)]); rewrite !str_app_cons, str_app_nil_l.
    + cbn [find_colon]. rewrite H2, H1. cbn [negb]. by rewrite IH.
    + cbn [find_colon]. change (Ascii.eqb BACKSLASH BACKSLASH) with true. cbv iota. by rewrite IH.
Qed.

Lemma quoted_arg s : arg_ok (quote (escapeQuoted s)).
Proof.
  unfold quote. split.
  - done.
  - cbn [str_forall]. change (negb (Ascii.eqb DQUOTE NL)) with true. cbn [andb].
    by rewrite str_forall_app, escape_no_newline.
  - by intros c [= <-].
  - intros c. change (String DQUOTE (escapeQuoted s +:+ String DQUOTE "")) with
      (String DQUOTE (escapeQuoted s) +:+ String DQUOTE "").
    rewrite str_back_app. by intros [= <-].
  - cbn [find_colon]. change (Ascii.eqb DQUOTE DQUOTE) with true. cbv iota. by rewrite escape_quoted_colon.
Qed.

Lemma unescape_escape s line : unescape (escapeQuoted s) line = Ok s.
Proof.
  induction s as [|c s IH]; [done|]. cbn [escapeQuoted].
  destruct (Ascii.eqb_spec c BACKSLASH) as [->|Hb]; [rewrite !str_app_cons, str_app_nil_l; cbn; by rewrite IH|].
  destruct (Ascii.eqb_spec c DQUOTE) as [->|]; [rewrite !str_app_cons, str_app_nil_l; cbn; by rewrite IH|].
  destruct (Ascii.eqb_spec c NL) as [->|]; [rewrite !str_app_cons, str_app_nil_l; cbn; by rewrite IH|].
  destruct (Ascii.eqb_spec c CR) as [->|]; [rewrite !str_app_cons, str_app_nil_l; cbn; by rewrite IH|].
  destruct (Ascii.eqb_spec c TAB) as [->|]; [rewrite !str_app_cons, str_app_nil_l; cbn; by rewrite IH|].
  rewrite str_app_cons, str_app_nil_l. cbn [unescape].
  destruct (Ascii.eqb_spec c BACKSLASH); [done|]. by rewrite IH.
Qed.

Lemma str_take_app s c : str_take (String.length s) (s +:+ String c "") = s.
Proof.
  induction s as [|a s IH]; [done|]. rewrite str_app_cons. unfold str_take in *. cbn. by rewrite IH.
Qed.

(** A quoted string is read back, for every string. *)
Lemma quoted_string_read (s : string) (line : Z) :
  parseQuotedString (quote (escapeQuoted s)) line = Ok s.
Proof.
  unfold parseQuotedString, quote.
  assert ((2 <=? str_size (String DQUOTE (escapeQuoted s +:+ String DQUOTE ""))) = true) as ->.
  { apply Z.leb_le. rewrite str_size_cons, str_size_app. pose proof (str_size_nonneg (escapeQuoted s)).
    change (str_size (String DQUOTE "")) with 1. lia. }
  change (Ascii.eqb DQUOTE DQUOTE) with true. rewrite bool_decide_eq_true_2.
  - cbn [andb]. assert (String.length (escapeQuoted s +:+ String DQUOTE "") - 1 = String.length (escapeQuoted s))%nat as ->.
    { pose proof (str_size_app (escapeQuoted s) (String DQUOTE "")) as H. unfold str_size in H. cbn [String.length] in H. lia. }
    rewrite str_take_app. apply unescape_escape.
  - change (String DQUOTE (escapeQuoted s +:+ String DQUOTE "")) with (String DQUOTE (escapeQuoted s) +:+ String DQUOTE "").
    apply str_back_app.
Qed.

Lemma number_plain c : is_number_char c = true → plain_char c = true.
Proof. revert c. apply char_impl. by vm_compute. Qed.

Lemma to_string_plain z : str_forall plain_char (to_string z) = true.
Proof. eapply str_forall_impl; [apply number_plain|apply to_string_chars]. Qed.

Lemma str_forall_take p n s : str_forall p s = true → str_forall p (str_take n s) = true.
Proof.
  unfold str_take. revert n. induction s as [|c s IH]; intros [|n]; try done. cbn.
  intros [Hc Hs]%andb_true_iff. rewrite Hc. by apply IH.
Qed.

Lemma str_forall_drop p n s : str_forall p s = true → str_forall p (str_drop n s) = true.
Proof. revert n. induction s as [|c s IH]; intros [|n]; try done. cbn. intros [_ Hs]%andb_true_iff. by apply IH. Qed.

Lemma str_forall_rtrim p q s : str_forall p s = true → str_forall p (rtrim q s) = true.
Proof.
  induction s as [|c s IH]; [done|]. cbn. intros [Hc Hs]%andb_true_iff. specialize (IH Hs).
  destruct (rtrim q s); [by destruct (q c); cbn; rewrite ?Hc|]. cbn in *. by rewrite Hc.
Qed.

Lemma zeros_plain n : str_forall plain_char (zeros n) = true.
Proof. induction n as [|n IH]; [done|]. cbn. by rewrite IH. Qed.

Lemma pad_left_plain w s : str_forall plain_char s = true → str_forall plain_char (pad_left w s) = true.
Proof. intros H. unfold pad_left. by rewrite str_forall_app, zeros_plain. Qed.

Lemma strip_fraction_plain s : str_forall plain_char s = true → str_forall plain_char (strip_fraction s) = true.
Proof.
  intros H. unfold strip_fraction. destruct (str_empty _); [done|]. rewrite str_forall_app.
  by rewrite str_forall_rtrim.
Qed.

Lemma format_g_plain P d : str_forall plain_char (format_g P d) = true.
Proof.
  unfold format_g. destruct d as [[]|[]| |s m e]; try done.
  destruct (ratio_of m e) as [num den].
  set (q0 := if _ : bool then div_half_even (num * _) den else _). cbv zeta.
  destruct (if q0 =? 10 ^ P then _ else _) as [x q].
  set (digits := pad_left P (to_string q)).
  assert (str_forall plain_char digits = true) as Hd by apply pad_left_plain, to_string_plain.
  set (body := if (-4 <=? x) && (x <? P) then _ else _).
  assert (str_forall plain_char body = true) as Hb.
  { subst body. destruct (_ && _); [destruct (0 <=? x)|];
      rewrite ?str_forall_app, ?str_forall_take, ?strip_fraction_plain, ?pad_left_plain;
      try done; rewrite ?str_forall_app, ?zeros_plain, ?Hd; try done;
      try (apply str_forall_drop, Hd); try apply to_string_plain. by destruct (x <? 0). }
  by destruct s; rewrite ?str_forall_app.
Qed.

Lemma format_g_nonempty P d : format_g P d ≠ "".
Proof.
  unfold format_g. destruct d as [[]|[]| |s m e]; try done.
  destruct (ratio_of m e) as [num den]. cbv zeta.
  set (q0 := if _ : bool then div_half_even (num * _) den else _).
  destruct (if q0 =? 10 ^ P then _ else _) as [x q].
  destruct s; [done|]. set (digits := pad_left P (to_string q)).
  assert (∃ c r, digits = String c r) as (c & r & Hd).
  { subst digits. unfold pad_left. pose proof (to_string_nonempty q). destruct (Z.to_nat _); cbn; [|by do 2 eexists].
    destruct (to_string q); [done|by do 2 eexists]. }
  destruct (_ && _); [destruct (Z.leb_spec 0 x)|]; [|done|]; rewrite Hd; [|by destruct r].
  replace (Z.to_nat (x + 1)) with (S (Z.to_nat x)) by lia. unfold str_take. cbn. by destruct (String.substring _ _ _).
Qed.

(** ** Numbers *)
Lemma parseNonNegativeInt_to_string z : 0 <= z <= INT_MAX → parseNonNegativeInt (to_string z) = Some z.
Proof.
  intros Hz. unfold parseNonNegativeInt, stoll. rewrite strtol_to_string'.
  assert (in_llong z = true) as ->.
  { unfold in_llong. apply andb_true_iff. unfold LLONG_MIN, LLONG_MAX, INT_MAX in *. rewrite !Z.leb_le. lia. }
  cbn [str_empty negb orb]. rewrite (proj2 (Z.ltb_ge z 0)), (proj2 (Z.ltb_ge INT_MAX z)) by lia. done.
Qed.

Lemma parseUint32_to_string z : 0 <= z <= UINT32_MAX → parseUint32 (to_string z) = Some z.
Proof.
  intros Hz. unfold parseUint32, stoull. rewrite strtol_to_string'. unfold UINT32_MAX, ULLONG_MAX in *.
  rewrite (proj2 (Z.leb_le (Z.abs z) _)) by lia. unfold wrap64. rewrite Z.mod_small by lia.
  cbn [str_empty negb orb]. by rewrite (proj2 (Z.ltb_ge _ z)) by lia.
Qed.

Lemma plain_trim a : str_forall plain_char a = true → a ≠ "" → trimLocal a = a.
Proof. intros Ha Hne. destruct (plain_arg a Hne Ha). by apply trim_by_id. Qed.

Lemma plain_no_comma a : str_forall plain_char a = true → str_forall (λ c, negb (Ascii.eqb c ",")) a = true.
Proof. apply str_forall_impl, char_impl. by vm_compute. Qed.

Lemma getlines_join d l : Forall (λ s, str_forall (λ c, negb (Ascii.eqb c d)) s = true ∧ s ≠ "") l →
  getlines d (str_join d l) = l.
Proof.
  induction 1 as [|a l [Ha Hne] Hl IH]; [done|]. destruct l as [|b l].
  - by apply getlines_last.
  - rewrite str_join_cons by done. by rewrite getlines_cons, IH.
Qed.

Lemma trim_space_plain a : str_forall plain_char a = true → a ≠ "" → trimLocal (String " " a) = a.
Proof. intros Ha Hne. rewrite <- (plain_trim a Ha Hne) at 2. done. Qed.

Definition call_text (c : CallFuncOperand) : string :=
  to_string (namespaceId c) +:+ ", " +:+ to_string (functionId c) +:+ ", " +:+ to_string (argCount c).

Definition call_ok (c : CallFuncOperand) : Prop :=
  0 <= namespaceId c <= UINT32_MAX ∧ 0 <= functionId c <= UINT32_MAX ∧ 0 <= argCount c <= INT_MAX.

Lemma parse_call_text c line : call_ok c → parseCallFuncOperands (call_text c) line = Ok c.
Proof.
  intros (H1 & H2 & H3). unfold parseCallFuncOperands, call_text.
  set (n := to_string (namespaceId c)). set (f := to_string (functionId c)). set (a := to_string (argCount c)).
  pose proof (to_string_plain (namespaceId c)) as Hn. pose proof (to_string_nonempty (namespaceId c)) as Hn'.
  pose proof (to_string_plain (functionId c)) as Hf. pose proof (to_string_nonempty (functionId c)) as Hf'.
  pose proof (to_string_plain (argCount c)) as Ha. pose proof (to_string_nonempty (argCount c)) as Ha'.
  fold n in Hn, Hn'. fold f in Hf, Hf'. fold a in Ha, Ha'.
  assert (str_empty (n +:+ ", " +:+ f +:+ ", " +:+ a) = false) as -> by (by destruct n).
  assert (getlines "," (n +:+ ", " +:+ f +:+ ", " +:+ a) = [n; String " " f; String " " a]) as ->.
  { change (n +:+ ", " +:+ f +:+ ", " +:+ a) with (n +:+ String "," (String " " f +:+ String "," (String " " a))).
    rewrite getlines_cons by (by apply plain_no_comma).
    rewrite getlines_cons by (by apply plain_no_comma in Hf).
    rewrite getlines_last; [done| |done]. by apply plain_no_comma in Ha. }
  cbn [fmap list_fmap]. rewrite plain_trim, !trim_space_plain by done.
  assert (filter (λ s, str_empty s = false) [n; f; a] = [n; f; a]) as ->.
  { rewrite !filter_cons_True by first [by destruct n | by destruct f | by destruct a]. done. }
  unfold n, f, a. rewrite !parseUint32_to_string, parseNonNegativeInt_to_string by done. by destruct c.
Qed.

Lemma call_text_arg c : arg_ok (call_text c).
Proof.
  assert (str_forall (λ c, plain_char c || Ascii.eqb c "," || Ascii.eqb c " ") (call_text c) = true) as H.
  { unfold call_text. rewrite !str_forall_app.
    assert (∀ z, str_forall (λ c, plain_char c || Ascii.eqb c "," || Ascii.eqb c " ") (to_string z) = true) as Hz.
    { intros z. eapply str_forall_impl; [|apply to_string_plain]. intros x Hx. by rewrite Hx. }
    by rewrite !Hz. }
  assert (∀ z c, str_front (to_string z) = Some c ∨ str_back (to_string z) = Some c → is_blank c = false) as Hends.
  { intros z x Hx. destruct (plain_arg (to_string z) (to_string_nonempty z) (to_string_plain z)). naive_solver. }
  split.
  - unfold call_text. by destruct (to_string (namespaceId c)) eqn:E; [destruct (to_string_nonempty (namespaceId c))|].
  - revert H. apply str_forall_impl, char_impl. by vm_compute.
  - intros x. unfold call_text. pose proof (to_string_nonempty (namespaceId c)) as Hne.
    intros Hx. apply (Hends (namespaceId c)). left. by destruct (to_string (namespaceId c)).
  - intros x Hx. apply (Hends (argCount c)). right. unfold call_text in Hx.
    pose proof (to_string_nonempty (argCount c)) as Hne. destruct (to_string (argCount c)) as [|b r]; [done|].
    destruct (str_back_some b r) as [d Hd]. rewrite <- !str_app_assoc in Hx.
    rewrite (str_back_snoc _ _ _ d) in Hx by done. congruence.
  - rewrite <- (str_app_nil_r (call_text c)), find_colon_skip; [done|].
    revert H. apply str_forall_impl, char_impl. by vm_compute.
Qed.

(** ** Programs *)

(** A name that can be written without quotes. *)
Definition name_ok (s : string) : Prop := arg_ok s ∧ str_front s ≠ Some DQUOTE.

(** The instructions that bytecode text can carry, in a program of [len]
    instructions: the operand fits the opcode, numbers fit their types, jumps
    stay in the program, a float is the value of its six-digit text. *)
Definition instr_ok (len : Z) (i : Instruction) : Prop :=
  match kind_of (op i), operand i with
  | KNone, VInt 0 => callFunc i = noCall
  | KInt, VInt z => callFunc i = noCall ∧
      if bool_decide (op i ∈ [Jump; JumpIfZero; Call]) then 0 <= z < len ∧ z <= INT_MAX else in_int z = true
  | KFlt, VDbl d => callFunc i = noCall ∧ stod (format_g 6 d) = Ok (d, "")
  | KStr, VStr _ => callFunc i = noCall
  | KName, VStr s => callFunc i = noCall ∧ name_ok s
  | KCall, VInt 0 => call_ok (callFunc i)
  | _, _ => False
  end.

(** The operand text of an instruction. *)
Definition arg_text (i : Instruction) : option string :=
  match kind_of (op i), operand i with
  | KInt, VInt n => Some (to_string n)
  | KFlt, VDbl d => Some (format_g 6 d)
  | KStr, VStr s => Some (quote (escapeQuoted s))
  | KName, VStr s => Some s
  | KCall, _ => Some (call_text (callFunc i))
  | _, _ => None
  end.

Definition line_text (i : Instruction) : string :=
  opCodeName (op i) +:+ match arg_text i with Some a => " " +:+ a | None => "" end.

Lemma serialize_instr_text len i : instr_ok len i → serialize_instr i = Ok (line_text i).
Proof.
  unfold instr_ok, serialize_instr, line_text, arg_text, call_text.
  destruct (kind_of (op i)), (operand i) as [[]| |]; try done; cbn;
    rewrite ?str_app_nil_r, ?str_app_assoc; done.
Qed.

Lemma arg_text_ok len i a : instr_ok len i → arg_text i = Some a → arg_ok a.
Proof.
  unfold instr_ok, arg_text. destruct (kind_of (op i)), (operand i) as [z|d|s]; try done; intros Hi [= <-].
  - apply plain_arg; [apply to_string_nonempty|apply to_string_plain].
  - apply plain_arg; [apply format_g_nonempty|apply format_g_plain].
  - apply quoted_arg.
  - apply Hi.
  - apply call_text_arg.
Qed.

Lemma parseQuotedString_name s line : s ≠ "" → str_front s ≠ Some DQUOTE → parseQuotedString s line = Ok s.
Proof.
  destruct s as [|c s]; [done|]. intros _ Hc. unfold parseQuotedString. cbn in Hc.
  destruct (Ascii.eqb_spec c DQUOTE) as [->|]; [done|]. by rewrite andb_false_r.
Qed.

Lemma arg_nonempty_empty a : arg_ok a → str_empty a = false.
Proof. intros [Hne _ _ _ _]. by destruct a. Qed.

(** The branch that the opcode's name selects. *)
Lemma parse_instruction_name m o a n :
  parse_instruction m (mkLine "" (opCodeName o) a n) =
    let pl := mkLine "" (opCodeName o) a n in
    match kind_of o with
    | KNone => requireNoOperand pl;; Ok (instr o (VInt 0))
    | KInt =>
        if bool_decide (o ∈ [Jump; JumpIfZero; Call]) then
          match parseNonNegativeInt a with
          | Some t => Ok (instr o (VInt t))
          | None =>
              match m !! a with
              | Some t => Ok (instr o (VInt t))
              | None => Throw (RuntimeError ("Unknown label for " +:+ opCodeName o +:+ at_line n +:+ ": " +:+ a))
              end
          end
        else if bool_decide (o = SetOnErrorHandler) && str_empty a
        then Throw (RuntimeError ("SET_ON_ERROR_HANDLER requires a target IP" +:+ at_line n))
        else match stoi a with Ok (z, _) => Ok (instr o (VInt z)) | _ => Throw (invalid_operand pl) end
    | KFlt => match stod a with Ok (d, "") => Ok (instr o (VDbl d)) | _ => Throw (invalid_operand pl) end
    | KStr =>
        if bool_decide (o = InvokeBuiltin) && str_empty a
        then Throw (RuntimeError (opCodeName o +:+ " requires a quoted builtin name" +:+ at_line n))
        else s ← parseQuotedString a n; Ok (instr o (VStr s))
    | KName => parse_name_operand o (default "a file variable" (snd <$> List.find (λ x, bool_decide (x.1 = o)) name_ops)) pl
    | KCall => c ← parseCallFuncOperands a n; Ok (mkInstr o (VInt 0) c)
    end.
Proof. destruct o; reflexivity. Qed.

Lemma parse_instruction_text m n len i : instr_ok len i →
  parse_instruction m (mkLine "" (opCodeName (op i)) (default "" (arg_text i)) n) = Ok i.
Proof.
  intros Hi. pose proof (arg_text_ok len i) as Ha. rewrite parse_instruction_name. cbv zeta. destruct i as [o v c].
  unfold instr_ok, arg_text in *. cbn [op operand callFunc] in *.
  destruct (kind_of o) eqn:Ek, v as [z|d|s]; try done; cbn [default from_option id].
  - destruct z; try done. cbn in Hi. by subst c.
  - destruct Hi as [-> Hz]. specialize (Ha _ ltac:(done) eq_refl). unfold default, from_option, id.
    destruct (bool_decide (o ∈ [Jump; JumpIfZero; Call])).
    + by rewrite parseNonNegativeInt_to_string by lia.
    + rewrite (arg_nonempty_empty _ Ha), andb_false_r, stoi_to_string by done. done.
  - destruct Hi as [-> Hd]. unfold default, from_option, id. by rewrite Hd.
  - cbn in Hi. subst c. specialize (Ha _ ltac:(done) eq_refl). unfold default, from_option, id.
    rewrite (arg_nonempty_empty _ Ha), andb_false_r, quoted_string_read. done.
  - destruct Hi as [-> [Hok Hq]]. unfold default, from_option, id, parse_name_operand. cbn [poperand opcode sourceLine].
    rewrite (arg_nonempty_empty _ Hok), parseQuotedString_name; [done|apply Hok|done].
  - destruct z; try done. unfold default, from_option, id. rewrite parse_call_text by done.
    by destruct o.
Qed.

Lemma line_text_facts len i : instr_ok len i →
  trim (line_text i) = line_text i ∧ parseLine (line_text i) = mkLine "" (opCodeName (op i)) (default "" (arg_text i)) 0 ∧
  starts_with "#BASICLINES:" (line_text i) = false ∧
  str_forall (λ c, negb (Ascii.eqb c NL)) (line_text i) = true.
Proof.
  intros Hi. unfold line_text. pose proof (arg_text_ok len i) as Ha.
  assert (str_forall (λ c, negb (Ascii.eqb c NL)) (opCodeName (op i)) = true) as Hname by (by destruct (op i)).
  assert (∀ s, starts_with "#BASICLINES:" (opCodeName (op i) +:+ s) = false) as Hmeta by (intros s; by destruct (op i)).
  destruct (arg_text i) as [a|].
  - specialize (Ha a Hi eq_refl). destruct (parse_operand_line (op i) a Ha) as [Ht Hp].
    split; [done|]. split; [done|]. split; [apply Hmeta|].
    rewrite !str_forall_app, Hname. by destruct Ha as [_ -> _ _ _].
  - rewrite str_app_nil_r. destruct (parse_plain_line (op i)) as [Ht Hp]. split; [done|]. split; [done|].
    split; [|done]. rewrite <- (str_app_nil_r (opCodeName (op i))). apply Hmeta.
Qed.

Definition parsed (k : Z) (i : Instruction) : ParsedLine :=
  mkLine "" (opCodeName (op i)) (default "" (arg_text i)) k.

Fixpoint parsed_from (k : Z) (p : list Instruction) : list ParsedLine :=
  match p with [] => [] | i :: p' => parsed k i :: parsed_from (k + 1) p' end.

Lemma pass1_program len p : ∀ k pre m meta, Forall (instr_ok len) p →
  pass1_lines k (line_text <$> p) (mkPass1 pre m meta) = Ok (mkPass1 (pre ++ parsed_from k p) m meta).
Proof.
  induction p as [|i p IH]; intros k pre m meta Hp; [cbn; by rewrite app_nil_r|].
  inversion_clear Hp as [|? ? Hi Hp']. cbn [fmap list_fmap pass1_lines].
  destruct (line_text_facts len i Hi) as (Ht & Hl & Hm & _).
  unfold pass1_line. rewrite Ht, Hm, Hl. cbn [plabel opcode poperand str_empty p_labels p_lines p_meta].
  assert (str_empty (opCodeName (op i)) = false) as -> by (by destruct (op i)).
  cbn [mbind outcome_bind]. rewrite IH by done. by rewrite <- app_assoc.
Qed.

Lemma parse_program m len p : ∀ k, Forall (instr_ok len) p → parse_instructions m (parsed_from k p) = Ok p.
Proof.
  induction p as [|i p IH]; intros k Hp; [done|]. inversion_clear Hp as [|? ? Hi Hp']. cbn [parsed_from parse_instructions].
  unfold parsed. rewrite (parse_instruction_text m k len i Hi). cbn [mbind outcome_bind]. by rewrite IH.
Qed.

Lemma validate_ok len p : ∀ k, Forall (instr_ok len) p → validate_from k len p = Ok tt.
Proof.
  induction p as [|i p IH]; intros k Hp; [done|]. inversion_clear Hp as [|? ? Hi Hp']. cbn [validate_from].
  destruct (bool_decide (op i ∈ [Jump; JumpIfZero; Call])) eqn:Ej; [|by apply IH].
  unfold instr_ok in Hi. rewrite Ej in Hi. apply bool_decide_eq_true in Ej.
  assert (kind_of (op i) = KInt) as Hk by (rewrite !elem_of_cons, elem_of_nil in Ej; by destruct Ej as [->|[->|[->|[]]]]).
  rewrite Hk in Hi. destruct (operand i); try done. destruct Hi as (_ & Hr & _).
  rewrite (proj2 (Z.ltb_ge _ 0)), (proj2 (Z.leb_gt len _)) by lia. by apply IH.
Qed.

Lemma serialize_instrs_text len p : Forall (instr_ok len) p →
  ∃ text, serialize_instrs p = Ok text ∧ getlines NL text = line_text <$> p.
Proof.
  induction p as [|i p IH]; intros Hp; [by exists ""|]. inversion_clear Hp as [|? ? Hi Hp'].
  destruct (IH Hp') as (text & Hs & Hl). cbn [serialize_instrs]. rewrite (serialize_instr_text len i Hi), Hs.
  eexists. split; [reflexivity|]. destruct (line_text_facts len i Hi) as (_ & _ & _ & Hn).
  cbn [fmap list_fmap]. by rewrite getlines_cons, Hl.
Qed.

Lemma parse_line_numbers_text ls : Forall (λ l, 0 <= l <= INT_MAX) ls →
  parse_line_numbers (to_string <$> ls) = Ok ls.
Proof.
  induction 1 as [|l ls Hl Hls IH]; [done|]. cbn [fmap list_fmap parse_line_numbers].
  rewrite plain_trim by (apply to_string_plain || apply to_string_nonempty).
  assert (str_empty (to_string l) = false) as -> by (pose proof (to_string_nonempty l); by destruct (to_string l)).
  rewrite parseNonNegativeInt_to_string by done. cbn [mbind outcome_bind]. by rewrite IH.
Qed.

Lemma str_join_back (d : ascii) l x : l ≠ [] → last l = Some x → x ≠ "" → str_back (str_join d l) = str_back x.
Proof.
  induction l as [|a l IH]; [done|]. intros _ Hl Hx. destruct l as [|b l]; [cbn in *; by simplify_eq|].
  rewrite str_join_cons by done. cbn in Hl. specialize (IH ltac:(done) Hl Hx).
  destruct x as [|c x]; [done|]. destruct (str_back_some c x) as [e He]. rewrite He in *.
  destruct (str_join d (b :: l)) as [|c' s'] eqn:E; [done|].
  apply (str_back_snoc a d (String c' s')). exact IH.
Qed.

Lemma join_comma_chars ls : str_forall (λ c, plain_char c || Ascii.eqb c ",") (str_join "," (to_string <$> ls)) = true.
Proof.
  assert (∀ z, str_forall (λ c, plain_char c || Ascii.eqb c ",") (to_string z) = true) as Hz.
  { intros z. eapply str_forall_impl; [|apply to_string_plain]. intros x Hx. by rewrite Hx. }
  induction ls as [|l ls IH]; [done|]. cbn [fmap list_fmap]. destruct ls as [|l' ls]; [apply Hz|].
  cbn [fmap list_fmap] in *. rewrite str_join_cons by done. rewrite str_forall_app, Hz.
  cbn [str_forall]. by rewrite IH.
Qed.

(** The metadata line. *)
Lemma metadata_line ls m : ls ≠ [] → Forall (λ l, 0 <= l <= INT_MAX) ls →
  let line := "#BASICLINES:" +:+ str_join "," (to_string <$> ls) in
  str_forall (λ c, negb (Ascii.eqb c NL)) line = true ∧
  pass1_line 1 line (mkPass1 [] m []) = Ok (mkPass1 [] m ls).
Proof.
  intros Hne Hls line. pose proof (join_comma_chars ls) as Hc.
  assert (str_forall (λ c, negb (Ascii.eqb c NL)) line = true) as Hn.
  { unfold line. rewrite str_forall_app. cbn [str_forall andb].
    change (str_forall _ "#BASICLINES:") with true. cbn [andb]. revert Hc. apply str_forall_impl, char_impl. by vm_compute. }
  split; [done|].
  assert (trim line = line) as Ht.
  { apply trim_by_id; [by intros c [= <-]|]. intros c Hb.
    assert (∃ x, last (to_string <$> ls) = Some x) as [x Hx].
    { rewrite fmap_last. destruct ls; [done|]. destruct (last (z :: ls)) eqn:E; [by eexists|].
      by apply last_None in E. }
    assert (∃ z, x = to_string z) as [z ->].
    { rewrite fmap_last in Hx. destruct (last ls); [|done]. cbn in Hx. by exists z; simplify_eq. }
    assert (str_back line = str_back (to_string z)) as Hbz.
    { unfold line. pose proof (str_join_back "," (to_string <$> ls) (to_string z)
        ltac:(by destruct ls) Hx (to_string_nonempty z)) as Hj.
      destruct (str_join "," (to_string <$> ls)) as [|c' s'] eqn:E.
      - exfalso. cbn in Hj. pose proof (to_string_nonempty z). destruct (to_string z) as [|d s]; [done|].
        destruct (str_back_some d s) as [e He]. congruence.
      - rewrite <- Hj. destruct (str_back_some c' s') as [e He]. rewrite He. by apply str_back_snoc. }
    rewrite Hbz in Hb. destruct (plain_arg (to_string z) (to_string_nonempty z) (to_string_plain z)) as [_ _ _ Hp _].
    by apply Hp. }
  unfold pass1_line. rewrite Ht. assert (starts_with "#BASICLINES:" line = true) as -> by done.
  unfold parseBasicLinesMetadata. change trimLocal with trim. rewrite Ht.
  assert (starts_with "#BASICLINES:" line = true) as -> by done. cbn [negb].
  change (str_drop 12 line) with (str_join "," (to_string <$> ls)).
  assert (str_empty (str_join "," (to_string <$> ls)) = false) as ->.
  { destruct ls as [|l ls']; [done|]. cbn [fmap list_fmap].
    pose proof (to_string_nonempty l). destruct ls' as [|l' ls']; cbn; by destruct (to_string l). }
  rewrite getlines_join.
  - rewrite parse_line_numbers_text by done. done.
  - apply Forall_fmap, Forall_forall. intros l _. cbn. split; [apply plain_no_comma, to_string_plain|apply to_string_nonempty].
Qed.

(** Bytecode text is a faithful form of a program: writing a program whose
    instructions are well formed (operands that fit the opcode, jump targets
    inside it, floats that are the value of their six-digit text) with one
    source line per instruction, or none, and parsing the text gives the same
    instructions and source lines, without labels. *)
Theorem bytecode_roundtrip (p : list Instruction) (lines : list Z) :
  Forall (instr_ok (Z.of_nat (length p))) p → Forall (λ l, 0 <= l <= INT_MAX) lines →
  lines = [] ∨ length lines = length p →
  ∃ text, serializeBytecodeText p lines = Ok text ∧
    parse text = Ok (mkLoaded p ∅ (match lines with [] => seqZ 1 (Z.of_nat (length p)) | _ => lines end)).
Proof.
  intros Hp Hls Hlen. destruct (serialize_instrs_text _ p Hp) as (body & Hs & Hb).
  assert (∀ k, sourceLine <$> parsed_from k p = seqZ k (Z.of_nat (length p))) as Hseq.
  { clear. induction p as [|i p IH]; intros k; [done|]. cbn [parsed_from fmap list_fmap length].
    rewrite Nat2Z.inj_succ, seqZ_cons by lia. f_equal. etransitivity; [apply IH|]. f_equal; lia. }
  unfold serializeBytecodeText. rewrite Hs. destruct lines as [|l0 ls].
  - exists body. split; [done|]. unfold parse. rewrite Hb, (pass1_program _ p 1 [] ∅ []) by done.
    cbn [mbind outcome_bind app p_labels p_lines p_meta]. rewrite (parse_program ∅ _ p 1) by done.
    cbn [mbind outcome_bind]. unfold validateJumpTargets. rewrite validate_ok by done. cbn. by rewrite Hseq.
  - set (lines := l0 :: ls) in *. destruct Hlen as [?|Hlen]; [done|].
    eexists. split; [reflexivity|]. rewrite Hlen, Nat.min_id, <- Hlen, firstn_all.
    destruct (metadata_line lines ∅ ltac:(done) Hls) as [Hn Hm].
    unfold parse. rewrite !str_app_assoc. change (String NL "" +:+ body) with (String NL body).
    rewrite <- str_app_assoc, getlines_cons by exact Hn. cbn [pass1_lines]. rewrite Hm, Hb.
    cbn [mbind outcome_bind]. rewrite (pass1_program _ p) by done.
    cbn [mbind outcome_bind app p_labels p_lines p_meta]. rewrite (parse_program ∅ _ p) by done.
    cbn [mbind outcome_bind]. unfold lines at 1. rewrite bool_decide_eq_true_2 by done.
    cbn [mbind outcome_bind]. unfold validateJumpTargets. rewrite validate_ok by done. done.
Qed.

Lemma bytecode_roundtrip_witness :
  let p := [instr PushStr (VStr (String DQUOTE ":")); mkInstr CallFunc (VInt 0) (mkCallFunc 1 2 3);
            instr StoreVar (VStr "X"); instr Jump (VInt 0)] in
  ∃ text, serializeBytecodeText p [10; 20; 20; 30] = Ok text ∧ parse text = Ok (mkLoaded p ∅ [10; 20; 20; 30]).
Proof.
  intros p. apply (bytecode_roundtrip p [10; 20; 20; 30]).
  - repeat apply Forall_cons_2; [reflexivity|split; [by split|split; by split]| |split; [reflexivity|by split]|apply Forall_nil_2].
    split; [reflexivity|]. split; [|done]. split; [done|done|by intros c [= <-]|by intros c [= <-]|done].
  - repeat (apply Forall_cons_2; [by split|]). apply Forall_nil_2.
  - by right.
Defined.

(** Whatever the text, a program that the parser accepts has every JUMP, JZ
    and CALL target (written as a number or as a label) inside the program, and
    one source line per instruction. *)
Theorem parsed_targets_in_range (text : string) (l : LoadedBytecode) : parse text = Ok l →
  (∀ i inst, program l !! i = Some inst → op inst ∈ [Jump; JumpIfZero; Call] →
     ∃ t, operand inst = VInt t ∧ 0 <= t < Z.of_nat (length (program l))) ∧
  length (sourceLines l) = length (program l).
Proof.
  intros H. unfold parse in H. apply outcome_bind_inv in H as (st & _ & H).
  apply outcome_bind_inv in H as (p & Hp & H). apply outcome_bind_inv in H as (lines & Hlines & H).
  apply outcome_bind_inv in H as ([] & Hv & [= <-]). cbn [program sourceLines]. split.
  - unfold validateJumpTargets in Hv.
    enough (∀ k len q, validate_from k len q = Ok tt → ∀ i inst, q !! i = Some inst →
      op inst ∈ [Jump; JumpIfZero; Call] → ∃ t, operand inst = VInt t ∧ 0 <= t < len) as Hgen
      by (intros i inst; by apply (Hgen 0)).
    clear. intros k len q. revert k. induction q as [|x q IH]; intros k Hv i inst Hi Hj; [done|].
    cbn [validate_from] in Hv. destruct i as [|i].
    + cbn in Hi. simplify_eq. rewrite bool_decide_eq_true_2 in Hv by done.
      destruct (operand inst) as [t| |]; try done. exists t. split; [done|].
      destruct (Z.ltb_spec t 0), (Z.leb_spec len t); try done.
    + destruct (bool_decide _); [|by eapply IH]. destruct (operand x); try done.
      destruct (_ || _); [done|]. by eapply IH.
  - assert (length p = length (p_lines st)) as Hlen.
    { clear -Hp. revert p Hp. induction (p_lines st) as [|pl pls IH]; intros p; cbn; [by intros [= <-]|].
      intros (i & _ & (rest & Hr & [= <-])%outcome_bind_inv)%outcome_bind_inv. cbn. by rewrite (IH rest). }
    destruct (p_meta st) as [|x meta]; [injection Hlines as <-; by rewrite length_fmap|].
    destruct (bool_decide (length (x :: meta) = length p)) eqn:E; [|done]. injection Hlines as <-.
    by apply bool_decide_eq_true in E.
Qed.

Lemma parsed_targets_in_range_witness :
  let text := "L1: PUSH_INT 3" +:+ String NL "JUMP L1" in
  ∃ l, parse text = Ok l ∧ length (sourceLines l) = length (program l).
Proof.
  intros text. eexists. assert (Hp : parse text = Ok _) by (vm_compute; reflexivity).
  split; [exact Hp|]. exact (proj2 (parsed_targets_in_range text _ Hp)).
Defined.
