(* ===== verification/Correl.v ===== *)
(** * Correlatives

    The computed dictionary fields of the query language. An
    I-type item holds an expression ([IExpressionAst], [IExpressionParser],
    [IExpressionEvaluator]); an F-type item selects or converts one value of an
    attribute ([DictFItemParser], [CorrelativeEvaluator]).

    The C++ parser and evaluator report errors through an [error] string passed
    by reference next to an empty [optional] or null pointer; the evaluator here
    threads that string, because the IF case of the code looks at it. The
    parser is the code's recursive descent on a state (current token, source
    left) with fuel; [parse_total] shows that the fuel [parse_fuel] is enough.
    The pointers of the tree are never null in a tree that the parser built, so
    [IExpr] has no null children. *)
From Stdlib Require Import Ascii String SpecFloat.
From S2P Require Import Prelude CLib Dbl Records Conv.
From stdpp Require Import options.
Local Open Scope Z_scope.

(** ** Syntax trees *)

(* src/core/english/correlatives/IExpressionAst.h:35-42 [ICompareOp] *)
Inductive ICompareOp := CmpEq | CmpNe | CmpLt | CmpLe | CmpGt | CmpGe.

(* src/core/english/correlatives/IExpressionAst.h:56-59 [ICallKind] *)
Inductive ICallKind := Iconv | Oconv.

(* src/core/english/correlatives/IExpressionAst.h:11-77 [IExpr] *)
Inductive IExpr :=
| IExprNumber (value : double)
| IExprString (value : string)
| IExprField (attributeNo : Z)
| IExprUnary (op : ascii) (operand : IExpr)
| IExprBinary (op : ascii) (left right : IExpr)
| IExprCompare (op : ICompareOp) (left right : IExpr)
| IExprIf (condition thenExpr elseExpr : IExpr)
| IExprCall (kind : ICallKind) (valueArg codeArg : IExpr).

#[global] Instance ICompareOp_eq_dec : EqDecision ICompareOp.
Proof. solve_decision. Defined.

#[global] Instance ICallKind_eq_dec : EqDecision ICallKind.
Proof. solve_decision. Defined.

#[global] Instance IExpr_eq_dec : EqDecision IExpr.
Proof. solve_decision. Defined.

(** ** Tokens *)

(* src/core/english/correlatives/IExpressionParser.cpp:10-34 [TokenKind] *)
Inductive TokenKind :=
| TEnd | TNumber | TString | TField | TKwIf | TKwThen | TKwElse | TKwIconv | TKwOconv
| TPlus | TMinus | TStar | TSlash | TLParen | TRParen | TComma
| TEq | TNe | TLt | TLe | TGt | TGe | TInvalid.

#[global] Instance TokenKind_eq_dec : EqDecision TokenKind.
Proof. solve_decision. Defined.

(* src/core/english/correlatives/IExpressionParser.cpp:36-41 [Token] *)
Record Token := mkToken {
  tkind : TokenKind;
  lexeme : string;
  numberValue : double;
  fieldAttributeNo : Z
}.

Definition tok (k : TokenKind) (s : string) : Token := mkToken k s d_zero 0.

(** Splits off the longest prefix of characters satisfying [p]. *)
Fixpoint span (p : ascii → bool) (s : string) : string * string :=
  match s with
  | "" => ("", "")
  | String c s' => if p c then let '(w, r) := span p s' in (String c w, r) else ("", s)
  end.

(* src/core/english/correlatives/IExpressionParser.cpp:135-153 [Lexer::lexString] *)
Fixpoint lexString (s value : string) : Token * string :=
  match s with
  | "" => (tok TInvalid value, "")
  | String c s' =>
      if Ascii.eqb c DQUOTE then (tok TString value, s')
      else if Ascii.eqb c BACKSLASH then
        match s' with
        | String c' s'' => lexString s'' (value +:+ String c' "")
        | "" => lexString s' (value +:+ String c "")
        end
      else lexString s' (value +:+ String c "")
  end.

(** The characters of a number: digits and at most one point. *)
(* src/core/english/correlatives/IExpressionParser.cpp:156-172 [Lexer::lexNumber] *)
Fixpoint number_chars (sawDot : bool) (s : string) : string * string :=
  match s with
  | "" => ("", "")
  | String ch s' =>
      if isdigit ch then let '(w, r) := number_chars sawDot s' in (String ch w, r)
      else if Ascii.eqb ch "." && negb sawDot then let '(w, r) := number_chars true s' in (String ch w, r)
      else ("", s)
  end.

(* src/core/english/correlatives/IExpressionParser.cpp:155-183 [Lexer::lexNumber] *)
Definition lexNumber (s : string) : Token * string :=
  let '(w, r) := number_chars false s in
  match strtod w with
  | Some (v, _, "") => (mkToken TNumber w v 0, r)
  | _ => (tok TInvalid w, r)
  end.

(* src/core/english/correlatives/IExpressionParser.cpp:185-222 [Lexer::lexIdentifier] *)
Definition lexIdentifier (s : string) : Token * string :=
  let '(w, r) := span isalpha s in
  let upper := str_map toupper w in
  (if String.eqb upper "IF" then tok TKwIf w
   else if String.eqb upper "THEN" then tok TKwThen w
   else if String.eqb upper "ELSE" then tok TKwElse w
   else if String.eqb upper "ICONV" then tok TKwIconv w
   else if String.eqb upper "OCONV" then tok TKwOconv w
   else match w with
        | String c "" =>
            let letter := toupper c in
            if isupper letter then mkToken TField w d_zero (code letter - code "A" + 1) else tok TInvalid w
        | _ => tok TInvalid w
        end, r).

(* src/core/english/correlatives/IExpressionParser.cpp:128-133 [Lexer::skipWhitespace] *)
Definition skipWhitespace (s : string) : string := ltrim isspace s.

(* src/core/english/correlatives/IExpressionParser.cpp:54-125 [Lexer::next] *)
Definition lex_next (source : string) : Token * string :=
  match skipWhitespace source with
  | "" => (tok TEnd "", "")
  | String c r as s =>
      if Ascii.eqb c DQUOTE then lexString r ""
      else if isdigit c || Ascii.eqb c "." then lexNumber s
      else if isalpha c then lexIdentifier s
      else if Ascii.eqb c "<" then
        match r with
        | String ">" r' => (tok TNe "<>", r')
        | String "=" r' => (tok TLe "<=", r')
        | _ => (tok TLt "<", r)
        end
      else if Ascii.eqb c ">" then
        match r with
        | String "=" r' => (tok TGe ">=", r')
        | _ => (tok TGt ">", r)
        end
      else if Ascii.eqb c "=" then (tok TEq "=", r)
      else if Ascii.eqb c "#" then (tok TNe "#", r)
      else if Ascii.eqb c "+" then (tok TPlus "+", r)
      else if Ascii.eqb c "-" then (tok TMinus "-", r)
      else if Ascii.eqb c "*" then (tok TStar "*", r)
      else if Ascii.eqb c "/" then (tok TSlash "/", r)
      else if Ascii.eqb c "(" then (tok TLParen "(", r)
      else if Ascii.eqb c ")" then (tok TRParen ")", r)
      else if Ascii.eqb c "," then (tok TComma ",", r)
      else (tok TInvalid (String c ""), r)
  end.

(** ** The parser *)

(** The parser's state: the current token and the source after it. *)
Abbreviation PState := (Token * string)%type.

Inductive presult (A : Type) := OutOfFuel | Failed | Parsed (a : A).
Arguments OutOfFuel {_}.
Arguments Failed {_}.
Arguments Parsed {_} _.

#[global] Instance presult_bind : MBind presult := λ A B f m,
  match m with Parsed a => f a | Failed => Failed | OutOfFuel => OutOfFuel end.

(* src/core/english/correlatives/IExpressionParser.cpp:278-278 [Parser::advance] *)
Definition advance (st : PState) : PState := lex_next st.2.

Definition cur (st : PState) : TokenKind := tkind st.1.

(** The code's "if the current token is not [k], fail; else advance". *)
Definition expect (k : TokenKind) (st : PState) : presult PState :=
  if bool_decide (cur st = k) then Parsed (advance st) else Failed.

(* src/core/english/correlatives/IExpressionParser.cpp:228-240 [isCompareToken] *)
Definition isCompareToken (k : TokenKind) : bool :=
  match k with TEq | TNe | TLt | TLe | TGt | TGe => true | _ => false end.

(* src/core/english/correlatives/IExpressionParser.cpp:242-259 [compareOpFromToken] *)
Definition compareOpFromToken (k : TokenKind) : ICompareOp :=
  match k with TEq => CmpEq | TNe => CmpNe | TLt => CmpLt | TLe => CmpLe | TGt => CmpGt | TGe => CmpGe | _ => CmpEq end.

(** [current_.lexeme[0]] *)
Definition op_char (st : PState) : ascii := default "000"%char (str_front (lexeme st.1)).

(* src/core/english/correlatives/IExpressionParser.cpp:280-441 [Parser::parseExpr] *)
Fixpoint parseExpr (fuel : nat) (st : PState) : presult (IExpr * PState) :=
  match fuel with
  | O => OutOfFuel
  | S n =>
      if bool_decide (cur st = TKwIf) then
        '(c, st) ← parseComparison n (advance st);
        st ← expect TKwThen st;
        '(t, st) ← parseExpr n st;
        st ← expect TKwElse st;
        '(e, st) ← parseExpr n st;
        Parsed (IExprIf c t e, st)
      else parseAdditive n st
  end
with parseComparison (fuel : nat) (st : PState) : presult (IExpr * PState) :=
  match fuel with
  | O => OutOfFuel
  | S n =>
      '(l, st) ← parseAdditive n st;
      if isCompareToken (cur st) then
        let op := compareOpFromToken (cur st) in
        '(r, st) ← parseAdditive n (advance st);
        Parsed (IExprCompare op l r, st)
      else Parsed (l, st)
  end
with parseAdditive (fuel : nat) (st : PState) : presult (IExpr * PState) :=
  match fuel with
  | O => OutOfFuel
  | S n => '(l, st) ← parseMultiplicative n st; additive_loop n l st
  end
with additive_loop (fuel : nat) (left : IExpr) (st : PState) : presult (IExpr * PState) :=
  match fuel with
  | O => OutOfFuel
  | S n =>
      if bool_decide (cur st = TPlus ∨ cur st = TMinus) then
        let op := op_char st in
        '(r, st) ← parseMultiplicative n (advance st);
        additive_loop n (IExprBinary op left r) st
      else Parsed (left, st)
  end
with parseMultiplicative (fuel : nat) (st : PState) : presult (IExpr * PState) :=
  match fuel with
  | O => OutOfFuel
  | S n => '(l, st) ← parseUnary n st; multiplicative_loop n l st
  end
with multiplicative_loop (fuel : nat) (left : IExpr) (st : PState) : presult (IExpr * PState) :=
  match fuel with
  | O => OutOfFuel
  | S n =>
      if bool_decide (cur st = TStar ∨ cur st = TSlash) then
        let op := op_char st in
        '(r, st) ← parseUnary n (advance st);
        multiplicative_loop n (IExprBinary op left r) st
      else Parsed (left, st)
  end
with parseUnary (fuel : nat) (st : PState) : presult (IExpr * PState) :=
  match fuel with
  | O => OutOfFuel
  | S n =>
      if bool_decide (cur st = TMinus) then
        '(e, st) ← parseUnary n (advance st);
        Parsed (IExprUnary "-" e, st)
      else if bool_decide (cur st = TPlus) then parseUnary n (advance st)
      else parsePrimary n st
  end
with parsePrimary (fuel : nat) (st : PState) : presult (IExpr * PState) :=
  match fuel with
  | O => OutOfFuel
  | S n =>
      match cur st with
      | TNumber => Parsed (IExprNumber (numberValue st.1), advance st)
      | TString => Parsed (IExprString (lexeme st.1), advance st)
      | TField => Parsed (IExprField (fieldAttributeNo st.1), advance st)
      | TKwIconv | TKwOconv =>
          let kind := if bool_decide (cur st = TKwIconv) then Iconv else Oconv in
          st ← expect TLParen (advance st);
          '(v, st) ← parseExpr n st;
          st ← expect TComma st;
          '(c, st) ← parseExpr n st;
          st ← expect TRParen st;
          Parsed (IExprCall kind v c, st)
      | TLParen =>
          '(e, st) ← parseExpr n (advance st);
          st ← expect TRParen st;
          Parsed (e, st)
      | _ => Failed
      end
  end.

Definition invalid_expression : string := "I-type: invalid expression".

(** Eight calls at most between two tokens. *)
Definition parse_fuel (source : string) : nat := 8 * String.length source + 16.

(* src/core/english/correlatives/IExpressionParser.cpp:265-275 [Parser::parseExpression] *)
Definition parseExpression (source : string) : presult IExpr :=
  '(e, st) ← parseExpr (parse_fuel source) (lex_next source);
  if bool_decide (cur st = TEnd) then Parsed e else Failed.

(** The tree or null, and the [error] text; [Undefined] stands for the model's
    fuel running out, which does not happen ([parse_total]). *)
(* src/core/english/correlatives/IExpressionParser.cpp:448-456 [IExpressionParser::parse] *)
Definition parseIExpression (source : string) : outcome (option IExpr * string) :=
  if str_empty source then Ok (None, invalid_expression)
  else match parseExpression source with
       | Parsed e => Ok (Some e, "")
       | Failed => Ok (None, invalid_expression)
       | OutOfFuel => Undefined "fuel"
       end.

(** ** Evaluation *)

(* src/core/english/correlatives/IExpressionEvaluator.cpp:18-22 [EvalValue] *)
Inductive EvalValue := EvNumeric (number : double) | EvText (text : string).

(** [error] is passed along; a result of [None] is the empty optional. The
    conversions called may have undefined behaviour, hence [outcome]. *)
Definition ev (A : Type) : Type := string → outcome (option A * string).

#[global] Instance ev_ret : MRet ev := λ A a err, Ok (Some a, err).

#[global] Instance ev_bind : MBind ev := λ A B f m err,
  match m err with
  | Ok (Some a, err') => f a err'
  | Ok (None, err') => Ok (None, err')
  | Throw e => Throw e
  | Undefined w => Undefined w
  end.

(** [error = msg; return std::nullopt;] *)
Definition ev_fail {A} (msg : string) : ev A := λ _, Ok (None, msg).

Definition ev_lift {A} (m : outcome A) : ev A := λ err, a ← m; Ok (Some a, err).

(* src/core/english/correlatives/IExpressionEvaluator.cpp:24-31 [trimInPlace] *)
Definition trimInPlace (s : string) : string := trim_by isspace s.

(* src/core/english/correlatives/IExpressionEvaluator.cpp:33-58 [tryCoerceNumeric] *)
Definition tryCoerceNumeric (raw : string) : option double :=
  let s := trimInPlace raw in
  if str_empty s then Some d_zero
  else
    let s := trimInPlace (str_map (λ c, if Ascii.eqb c "," || Ascii.eqb c "$" then " "%char else c) s) in
    if str_empty s then Some d_zero
    else match stod s with Ok (v, _) => Some v | _ => None end.

(** [setprecision(15)] text with the trailing zeros dropped when it has a point. *)
(* src/core/english/correlatives/IExpressionEvaluator.cpp:65-78 [formatNumericResult] *)
Definition trimmed_g15 (d : double) (pointZero : bool) : string :=
  let s := format_g 15 d in
  if str_contains "." s then
    let s := rtrim (λ c, Ascii.eqb c "0") s in
    match str_back s with
    | Some "."%char => if pointZero then s +:+ "0" else String.substring 0 (String.length s - 1) s
    | _ => s
    end
  else s.

(* src/core/english/correlatives/IExpressionEvaluator.cpp:60-78 [formatNumericResult] *)
Definition formatNumericResult (d : double) : outcome string :=
  if d_is_finite d && d_is_integral d then to_string <$> d_to_llong d
  else Ok (trimmed_g15 d false).

(* src/core/english/correlatives/IExpressionEvaluator.cpp:80-85 [fieldCellText] *)
Definition fieldCellText (r : StructuredRecord) (attributeNo : Z) : string :=
  if hasAttribute r attributeNo then firstValue (attribute r attributeNo) else "".

Definition cmp_double (op : ICompareOp) (l r : double) : bool :=
  match op with
  | CmpEq => d_eqb l r
  | CmpNe => negb (d_eqb l r)
  | CmpLt => d_ltb l r
  | CmpLe => d_leb l r
  | CmpGt => d_ltb r l
  | CmpGe => d_leb r l
  end.

Definition cmp_string (op : ICompareOp) (l r : string) : bool :=
  match op, String.compare l r with
  | CmpEq, Eq | CmpNe, (Lt | Gt) | CmpLt, Lt | CmpLe, (Lt | Eq) | CmpGt, Gt | CmpGe, (Gt | Eq) => true
  | _, _ => false
  end.

(* src/core/english/correlatives/IExpressionEvaluator.cpp:329-334 [evalValueToString] *)
Definition value_text (v : EvalValue) : outcome string :=
  match v with EvText t => Ok t | EvNumeric d => formatNumericResult d end.

(* src/core/english/correlatives/IExpressionEvaluator.cpp:108-169 [compareValues] *)
Definition compareEvalValues (left right : EvalValue) (op : ICompareOp) : outcome bool :=
  match left, right with
  | EvNumeric l, EvNumeric r => Ok (cmp_double op l r)
  | _, _ =>
      lText ← value_text left;
      rText ← value_text right;
      match tryCoerceNumeric lText, tryCoerceNumeric rText with
      | Some ln, Some rn => Ok (cmp_double op ln rn)
      | _, _ => Ok (cmp_string op lText rText)
      end
  end.

(** [evaluateNumeric] after [evaluateValue]. *)
(* src/core/english/correlatives/IExpressionEvaluator.cpp:91-106 [evaluateNumeric] *)
Definition numeric_of (v : EvalValue) : ev double :=
  match v with
  | EvNumeric d => mret d
  | EvText t => match tryCoerceNumeric t with Some n => mret n | None => ev_fail "I-type: type mismatch" end
  end.

(** The four operators on numbers; another character is an invalid tree. *)
(* src/core/english/correlatives/IExpressionEvaluator.cpp:260-280 [evaluateValue] *)
Definition eval_binary (op : ascii) (l r : double) : ev EvalValue :=
  if Ascii.eqb op "+" then mret (EvNumeric (d_add l r))
  else if Ascii.eqb op "-" then mret (EvNumeric (d_sub l r))
  else if Ascii.eqb op "*" then mret (EvNumeric (d_mul l r))
  else if Ascii.eqb op "/" then
    if d_eqb r d_zero then ev_fail "I-type: division by zero" else mret (EvNumeric (d_div l r))
  else ev_fail invalid_expression.

(** [evaluateCondition] returns false when it fails and leaves [error] set; the
    caller then tests [error]. *)
Definition condition_result (m : ev bool) : string → outcome (bool * string) := λ err,
  match m err with
  | Ok (Some b, err') => Ok (b, err')
  | Ok (None, err') => Ok (false, err')
  | Throw e => Throw e
  | Undefined w => Undefined w
  end.

(* src/core/english/correlatives/IExpressionEvaluator.cpp:210-327 [evaluateValue] *)
Fixpoint evaluateValue (r : StructuredRecord) (e : IExpr) {struct e} : ev EvalValue :=
  match e with
  | IExprNumber d => mret (EvNumeric d)
  | IExprString s => mret (EvText s)
  | IExprField n => mret (EvText (fieldCellText r n))
  | IExprUnary op x =>
      v ← evaluateValue r x; d ← numeric_of v;
      mret (EvNumeric (if Ascii.eqb op "-" then d_opp d else d))
  | IExprBinary op a b =>
      va ← evaluateValue r a; x ← numeric_of va;
      vb ← evaluateValue r b; y ← numeric_of vb;
      eval_binary op x y
  | IExprIf c a b => λ err,
      '(truth, err') ← condition_result
        (match c with
         | IExprCompare op x y =>
             vx ← evaluateValue r x; vy ← evaluateValue r y; ev_lift (compareEvalValues vx vy op)
         | _ => v ← evaluateValue r c; d ← numeric_of v; mret (negb (d_eqb d d_zero))
         end) err;
      if negb (str_empty err') then Ok (None, err')
      else if truth : bool then evaluateValue r a err' else evaluateValue r b err'
  | IExprCall k va vc =>
      v ← evaluateValue r va; input ← ev_lift (value_text v);
      c ← evaluateValue r vc; cd ← ev_lift (value_text c);
      s ← ((λ _, match k with Oconv => oconvOutput input cd | Iconv => iconvOutput input cd end) : ev string);
      mret (EvText s)
  | IExprCompare _ _ _ => ev_fail invalid_expression
  end.

(* src/core/english/correlatives/IExpressionEvaluator.cpp:171-195 [evaluateCondition] *)
Definition evaluateCondition (r : StructuredRecord) (c : IExpr) : ev bool :=
  match c with
  | IExprCompare op x y =>
      vx ← evaluateValue r x; vy ← evaluateValue r y; ev_lift (compareEvalValues vx vy op)
  | _ => v ← evaluateValue r c; d ← numeric_of v; mret (negb (d_eqb d d_zero))
  end.

(* src/core/english/correlatives/IExpressionEvaluator.cpp:337-346 [IExpressionEvaluator::evaluate] *)
Definition evaluateExpression (e : IExpr) (r : StructuredRecord) : outcome (option string * string) :=
  (v ← evaluateValue r e; ev_lift (value_text v)) "".

(** ** F-type items *)

(* src/core/english/correlatives/DictFItemParser.cpp:7-21 [parsePositiveInt] *)
Definition parsePositiveInt (text : string) : outcome (option Z) :=
  if str_empty text || negb (str_forall isdigit text) then Ok None
  else '(v, _) ← stoi text; Ok (if v <=? 0 then None else Some v).

(* src/core/english/correlatives/FCorrelativeDef.h:8-13 [FSelectorKind] *)
Inductive FSelectorKind := ValueIndex | Leftmost | Rightmost | ConversionRaw.

#[global] Instance FSelectorKind_eq_dec : EqDecision FSelectorKind.
Proof. solve_decision. Defined.

(* src/core/english/correlatives/FCorrelativeDef.h:16-22 [FCorrelativeDef] *)
Record FCorrelativeDef := mkFDef {
  sourceAttributeNo : Z;
  tailRaw : string;
  selectorKind : FSelectorKind;
  valueIndex : Z
}.

#[global] Instance FCorrelativeDef_eq_dec : EqDecision FCorrelativeDef.
Proof. solve_decision. Defined.

Definition is_type (ty : string) (upper : ascii) : bool :=
  String.eqb ty (String upper "") || String.eqb ty (String (tolower upper) "").

(** The definition or nothing, and the error text. *)
(* src/core/english/correlatives/DictFItemParser.cpp:44-91 [DictFItemParser::parse] *)
Definition parseFItem (attrs : StructuredRecord) : outcome (option FCorrelativeDef * string) :=
  if negb (is_type (firstValue (attribute attrs 1)) "F")
  then Ok (None, "Invalid F-type DICT item: not an F-type record")
  else
    let sourceText := trimmed (firstValue (attribute attrs 2)) in
    if str_empty sourceText then Ok (None, "Invalid F-type DICT item: missing source attribute")
    else
      sourceAttr ← parsePositiveInt sourceText;
      match sourceAttr with
      | None => Ok (None, "Invalid F-type DICT item: bad source attribute number")
      | Some n =>
          let tail := trimmed (firstValue (attribute attrs 3)) in
          if str_empty tail then Ok (None, "Invalid F-type DICT item: missing selector")
          else
            let tailUpper := str_map toupper tail in
            if String.eqb tailUpper "L" then Ok (Some (mkFDef n tail Leftmost 0), "")
            else if String.eqb tailUpper "R" then Ok (Some (mkFDef n tail Rightmost 0), "")
            else
              valueNo ← parsePositiveInt tail;
              match valueNo with
              | Some k => Ok (Some (mkFDef n tail ValueIndex k), "")
              | None => Ok (Some (mkFDef n tail ConversionRaw 0), "")
              end
      end.

(* src/core/english/correlatives/CorrelativeEvaluator.cpp:7-43 [CorrelativeEvaluator::evaluateF] *)
Definition evaluateF (def : FCorrelativeDef) (r : StructuredRecord) : outcome (option string * string) :=
  let attrNo := sourceAttributeNo def in
  if negb (hasAttribute r attrNo)
  then Ok (None, "F-type: attribute " +:+ to_string attrNo +:+ " missing")
  else
    let attr := attribute r attrNo in
    match selectorKind def with
    | ConversionRaw => oconvOutput (firstValue attr) (tailRaw def)
    | ValueIndex =>
        if valueIndex def <=? 0 then Ok (None, "F-type: invalid value index")
        else Ok (Some (valueAt attr (valueIndex def)), "")
    | Leftmost => Ok (Some (firstValue attr), "")
    | Rightmost => Ok (Some (default "" (last (splitValues attr))), "")
    end.

(** ** I-type items *)

(* src/core/english/correlatives/ICorrelativeDef.h:11-14 [ICorrelativeDef] *)
Record ICorrelativeDef := mkIDef { expressionRaw : string; expression : IExpr }.

#[global] Instance ICorrelativeDef_eq_dec : EqDecision ICorrelativeDef.
Proof. solve_decision. Defined.

(* src/core/english/correlatives/DictIItemParser.cpp:23-49 [DictIItemParser::parse] *)
Definition parseIItem (attrs : StructuredRecord) : outcome (option ICorrelativeDef * string) :=
  if negb (is_type (firstValue (attribute attrs 1)) "I")
  then Ok (None, "Invalid I-type DICT item: not an I-type record")
  else
    let expression := trimmed (firstValue (attribute attrs 2)) in
    if str_empty expression then Ok (None, "Invalid I-type DICT item: missing expression")
    else
      '(ast, parseError) ← parseIExpression expression;
      match ast with
      | None => Ok (None, if str_empty parseError then invalid_expression else parseError)
      | Some e => Ok (Some (mkIDef expression e), "")
      end.

(* src/core/english/correlatives/CorrelativeEvaluator.cpp:45-54 [CorrelativeEvaluator::evaluateI] *)
Definition evaluateI (def : ICorrelativeDef) (r : StructuredRecord) : outcome (option string * string) :=
  evaluateExpression (expression def) r.

(** ** The parser ends, and builds well-formed trees *)

Definition arith_op (c : ascii) : bool := Ascii.eqb c "+" || Ascii.eqb c "-" || Ascii.eqb c "*" || Ascii.eqb c "/".

(** The trees that source text denotes: comparisons are the conditions of IF,
    fields are the letters A to Z, operators are the four of the grammar. *)
Fixpoint wf_expr (e : IExpr) : Prop :=
  match e with
  | IExprNumber _ | IExprString _ => True
  | IExprField n => 1 <= n <= 26
  | IExprUnary op x => op = "-"%char ∧ wf_expr x
  | IExprBinary op a b => arith_op op = true ∧ wf_expr a ∧ wf_expr b
  | IExprCompare _ _ _ => False
  | IExprIf c a b =>
      match c with IExprCompare _ x y => wf_expr x ∧ wf_expr y | _ => wf_expr c end ∧ wf_expr a ∧ wf_expr b
  | IExprCall _ v c => wf_expr v ∧ wf_expr c
  end.

Definition wf_condition (c : IExpr) : Prop :=
  match c with IExprCompare _ x y => wf_expr x ∧ wf_expr y | _ => wf_expr c end.

(** What the lexer guarantees of a token. *)
Record token_ok (t : Token) : Prop := mk_token_ok {
  field_ok : tkind t = TField → 1 <= fieldAttributeNo t <= 26;
  plus_ok : tkind t = TPlus → lexeme t = "+";
  minus_ok : tkind t = TMinus → lexeme t = "-";
  star_ok : tkind t = TStar → lexeme t = "*";
  slash_ok : tkind t = TSlash → lexeme t = "/"
}.

Lemma span_length p s : (String.length (span p s).2 <= String.length s)%nat.
Proof.
  induction s as [|c s IH]; [done|]. cbn. destruct (p c); [|done]. destruct (span p s). cbn in *. lia.
Qed.

Lemma number_chars_length b s : (String.length (number_chars b s).2 <= String.length s)%nat.
Proof.
  revert b. induction s as [|c s IH]; intros b; [done|]. cbn. pose proof (IH b). pose proof (IH true).
  destruct (isdigit c); [destruct (number_chars b s); cbn in *; lia|].
  destruct (_ && _); [destruct (number_chars true s); cbn in *; lia|done].
Qed.

Lemma lexString_spec s : ∀ v t r, lexString s v = (t, r) →
  (String.length r <= String.length s)%nat ∧ (tkind t = TString ∨ tkind t = TInvalid).
Proof.
  induction s as [s IH] using (induction_ltof1 _ String.length); unfold ltof in IH. intros v t r.
  destruct s as [|c s]; cbn [lexString]; [intros [= <- <-]; auto|].
  destruct (Ascii.eqb c DQUOTE); [intros [= <- <-]; cbn; auto|].
  destruct (Ascii.eqb c BACKSLASH).
  - destruct s as [|c' s']; intros H; apply IH in H; cbn in *; try lia; naive_solver lia.
  - intros H; apply IH in H; cbn in *; naive_solver lia.
Qed.

Lemma lexNumber_spec c s t r : isdigit c || Ascii.eqb c "." = true → lexNumber (String c s) = (t, r) →
  (String.length r <= String.length s)%nat ∧ (tkind t = TNumber ∨ tkind t = TInvalid).
Proof.
  intros Hc. unfold lexNumber. cbn [number_chars].
  pose proof (number_chars_length false s) as H1. pose proof (number_chars_length true s) as H2.
  assert (∀ w r', (let '(w, r) := (w, r') in match strtod w with
    | Some (v, _, "") => (mkToken TNumber w v 0, r) | _ => (tok TInvalid w, r) end) = (t, r) →
    r' = r ∧ (tkind t = TNumber ∨ tkind t = TInvalid)) as Hstr.
  { intros w r'. destruct (strtod w) as [[[v b] [|]]|]; intros [= <- <-]; cbn; auto. }
  destruct (isdigit c) eqn:Ed.
  - destruct (number_chars false s) as [w r'] eqn:E. intros H. apply Hstr in H as [-> ?]. cbn in *. auto.
  - cbn in Hc. rewrite Hc. cbn [andb negb]. destruct (number_chars true s) as [w r'] eqn:E.
    intros H. apply Hstr in H as [-> ?]. cbn in *. auto.
Qed.

Lemma isupper_field c : isupper c = true → 1 <= code c - code "A" + 1 <= 26.
Proof. unfold isupper. intros [H1 H2]%andb_true_iff. change (code "A") with 65. lia. Qed.

Lemma lexIdentifier_spec c s t r : isalpha c = true → lexIdentifier (String c s) = (t, r) →
  (String.length r <= String.length s)%nat ∧ tkind t ≠ TEnd ∧ token_ok t.
Proof.
  intros Hc. unfold lexIdentifier. cbn [span]. rewrite Hc. pose proof (span_length isalpha s) as Hl.
  destruct (span isalpha s) as [w r'] eqn:E. cbn in Hl.
  intros [= <- <-]. split; [done|].
  assert (∀ k, k ≠ TField → k ≠ TPlus → k ≠ TMinus → k ≠ TStar → k ≠ TSlash → k ≠ TEnd →
    tkind (tok k (String c w)) ≠ TEnd ∧ token_ok (tok k (String c w))) as Hk by (intros; split; [done|by split]).
  repeat (match goal with |- tkind (if ?b then _ else _) ≠ _ ∧ _ => destruct b end; [by apply Hk|]).
  destruct w; [|by apply Hk].
  destruct (isupper (toupper c)) eqn:Eu; cbn zeta; [|by apply Hk].
  split; [done|]. split; try done. intros _. by apply isupper_field.
Qed.

Lemma lex_next_spec s t r : lex_next s = (t, r) →
  (tkind t = TEnd ∨ (String.length r < String.length s)%nat) ∧ token_ok t.
Proof.
  unfold lex_next, skipWhitespace.
  assert (String.length (ltrim isspace s) <= String.length s)%nat as Hl.
  { induction s as [|c s IH]; [done|]. cbn. destruct (isspace c); cbn in *; lia. }
  destruct (ltrim isspace s) as [|c s']; [intros [= <- <-]; split; [by left|by split]|]. cbn in Hl.
  destruct (Ascii.eqb c DQUOTE).
  { intros [H1 H2]%lexString_spec. split; [right; lia|]. destruct H2 as [H2|H2]; split; congruence. }
  destruct (isdigit c || Ascii.eqb c ".") eqn:Ed.
  { intros H. apply lexNumber_spec in H as [H1 H2]; [|done]. split; [right; lia|]. destruct H2 as [H2|H2]; split; congruence. }
  destruct (isalpha c) eqn:Ea.
  { intros H. apply lexIdentifier_spec in H as (H1 & _ & H2); [|done]. split; [right; lia|done]. }
  assert (∀ k w r', (∃ u, w = u ∧ token_ok (tok k u)) → (String.length r' <= String.length s')%nat → (tok k w, r') = (t, r) →
    (tkind t = TEnd ∨ (String.length r < String.length s)%nat) ∧ token_ok t) as Hdone.
  { intros k w r' (u & -> & Hu) Hr [= <- <-]. split; [right; lia|done]. }
  assert (∀ k w, k ≠ TField → k ≠ TPlus → k ≠ TMinus → k ≠ TStar → k ≠ TSlash → ∃ u, w = u ∧ token_ok (tok k u)) as Hplain.
  { intros k w ?????. exists w. split; [done|]. split; by intros. }
  repeat match goal with
  | |- (if Ascii.eqb c ?x then _ else _) = _ → _ => destruct (Ascii.eqb c x)
  end; try (apply Hdone; [first [by apply Hplain | eexists; by split]|done]).
  - destruct s' as [|c' s'']; [apply Hdone; [by apply Hplain|done]|].
    destruct (ascii_dec c' ">") as [->|H1]; [apply Hdone; [by apply Hplain|cbn; lia]|].
    destruct (ascii_dec c' "=") as [->|H2]; [apply Hdone; [by apply Hplain|cbn; lia]|].
    intros H. apply (Hdone TLt "<" (String c' s'')); [by apply Hplain|done|]. rewrite <- H.
    clear -H1 H2. destruct c' as [[][][][][][][][]]; try done.
  - destruct s' as [|c' s'']; [apply Hdone; [by apply Hplain|done]|].
    destruct (ascii_dec c' "=") as [->|H2]; [apply Hdone; [by apply Hplain|cbn; lia]|].
    intros H. apply (Hdone TGt ">" (String c' s'')); [by apply Hplain|done|]. rewrite <- H.
    clear -H2. destruct c' as [[][][][][][][][]]; try done.
Qed.

(** Tokens left, at most: the measure of the parser's recursion. *)
Definition left_over (st : PState) : nat := if bool_decide (cur st = TEnd) then 0 else S (String.length st.2).

Lemma advance_ok st : token_ok (advance st).1.
Proof. unfold advance. destruct (lex_next st.2) eqn:E. by apply lex_next_spec in E as [_ ?]. Qed.

Lemma advance_less st : cur st ≠ TEnd → (left_over (advance st) < left_over st)%nat.
Proof.
  intros H. unfold left_over at 2. rewrite bool_decide_eq_false_2 by done. unfold advance, left_over, cur.
  destruct (lex_next st.2) as [t r] eqn:E. apply lex_next_spec in E as [E _]. cbn.
  case_bool_decide; [lia|]. destruct E; [done|lia].
Qed.

Lemma presult_bind_inv {A B} (m : presult A) (f : A → presult B) b :
  m ≫= f = Parsed b → ∃ a, m = Parsed a ∧ f a = Parsed b.
Proof. destruct m; naive_solver. Qed.

Lemma expect_inv k st st' : expect k st = Parsed st' → cur st = k ∧ st' = advance st.
Proof. unfold expect. case_bool_decide; naive_solver. Qed.

Lemma wf_condition_expr e : wf_expr e → wf_condition e.
Proof. by destruct e. Qed.

(** What a parsing function does to the state: it keeps a lexed token, uses up
    source, and the tree satisfies [P]. *)
Definition good (P : IExpr → Prop) (st : PState) (m : presult (IExpr * PState)) : Prop :=
  ∀ e st', m = Parsed (e, st') → (left_over st' < left_over st)%nat ∧ token_ok st'.1 ∧ P e.

(** The eight functions with fuel [n], with their bound on the fuel. *)
Record parsers_ok (n : nat) : Prop := mk_parsers_ok {
  ok_expr st : token_ok st.1 → good wf_expr st (parseExpr n st);
  ok_comparison st : token_ok st.1 → good wf_condition st (parseComparison n st);
  ok_additive st : token_ok st.1 → good wf_expr st (parseAdditive n st);
  ok_additive_loop l st0 st : token_ok st.1 → wf_expr l → (left_over st < left_over st0)%nat → good wf_expr st0 (additive_loop n l st);
  ok_multiplicative st : token_ok st.1 → good wf_expr st (parseMultiplicative n st);
  ok_multiplicative_loop l st0 st : token_ok st.1 → wf_expr l → (left_over st < left_over st0)%nat → good wf_expr st0 (multiplicative_loop n l st);
  ok_unary st : token_ok st.1 → good wf_expr st (parseUnary n st);
  ok_primary st : token_ok st.1 → good wf_expr st (parsePrimary n st)
}.

Lemma good_bind {P Q st} m f : good P st m →
  (∀ e st', (left_over st' < left_over st)%nat → token_ok st'.1 → P e → good Q st (f (e, st'))) →
  good Q st (m ≫= f).
Proof. intros Hm Hf e st' ([e1 st1] & H1 & H2)%presult_bind_inv. destruct (Hm _ _ H1) as (? & ? & ?). by apply (Hf e1 st1). Qed.

Lemma good_weaken {P} st0 st m : good P st m → (left_over st <= left_over st0)%nat → good P st0 m.
Proof. intros Hm Hl e st' H. destruct (Hm _ _ H) as (? & ? & ?). split; [lia|done]. Qed.

Lemma good_expect {P} st0 st k f : k ≠ TEnd →
  ((left_over (advance st) < left_over st)%nat → token_ok (advance st).1 → good P st0 (f (advance st))) →
  good P st0 (expect k st ≫= f).
Proof.
  intros Hk Hf e st' (st1 & [Hc ->]%expect_inv & H)%presult_bind_inv. apply Hf; [|apply advance_ok|done].
  apply advance_less. congruence.
Qed.

Lemma good_parsed P st0 e st : (left_over st < left_over st0)%nat → token_ok st.1 → P e → good P st0 (Parsed (e, st)).
Proof. by intros ??? ? ? [= <- <-]. Qed.

Lemma op_char_of st c : lexeme st.1 = String c "" → op_char st = c.
Proof. unfold op_char. by intros ->. Qed.

Lemma parsers_are_ok n : parsers_ok n.
Proof.
  induction n as [|n IH]; [by split|]. split; intros; [cbn; case_bool_decide as Hc| | |cbn; case_bool_decide as Hc| |cbn; case_bool_decide as Hc|cbn; case_bool_decide as Hc|].
  - assert (cur st ≠ TEnd) as Hne by congruence. pose proof (advance_less _ Hne) as Ha.
    eapply good_bind; [eapply good_weaken; [eapply (ok_comparison _ IH), advance_ok|lia]|]. intros c st1 ? ? Hcw.
    apply good_expect; [done|]. intros ??.
    eapply good_bind; [eapply good_weaken; [eapply (ok_expr _ IH); done|lia]|]. intros a st2 ? ? ?.
    apply good_expect; [done|]. intros ??.
    eapply good_bind; [eapply good_weaken; [eapply (ok_expr _ IH); done|lia]|]. intros b st3 ? ? ?.
    apply good_parsed; [lia|done|]. cbn. by destruct c.
  - by apply (ok_additive _ IH).
  - cbn. eapply good_bind; [by apply (ok_additive _ IH)|]. intros a st1 ? ? ?.
    destruct (isCompareToken (cur st1)) eqn:Ec; [|by apply good_parsed; [|done|apply wf_condition_expr]].
    pose proof (advance_less st1 ltac:(intros H'; by rewrite H' in Ec)).
    eapply good_bind; [eapply good_weaken; [eapply (ok_additive _ IH), advance_ok|lia]|]. intros b st2 ? ? ?.
    apply good_parsed; [lia|done|done].
  - cbn. eapply good_bind; [by apply (ok_multiplicative _ IH)|]. intros a st1 ? ? ?. by apply (ok_additive_loop _ IH).
  - pose proof (advance_less st ltac:(intros H'; rewrite H' in Hc; naive_solver)).
    eapply good_bind; [eapply good_weaken; [eapply (ok_multiplicative _ IH), advance_ok|lia]|]. intros b st2 ? ? ?.
    apply (ok_additive_loop _ IH); [done| |lia]. cbn. split; [|done].
    destruct H, Hc as [Hc|Hc]; erewrite op_char_of; by eauto.
  - by apply good_parsed.
  - cbn. eapply good_bind; [by apply (ok_unary _ IH)|]. intros a st1 ? ? ?. by apply (ok_multiplicative_loop _ IH).
  - pose proof (advance_less st ltac:(intros H'; rewrite H' in Hc; naive_solver)).
    eapply good_bind; [eapply good_weaken; [eapply (ok_unary _ IH), advance_ok|lia]|]. intros b st2 ? ? ?.
    apply (ok_multiplicative_loop _ IH); [done| |lia]. cbn. split; [|done].
    destruct H, Hc as [Hc|Hc]; erewrite op_char_of; by eauto.
  - by apply good_parsed.
  - pose proof (advance_less st ltac:(congruence)).
    eapply good_bind; [eapply good_weaken; [eapply (ok_unary _ IH), advance_ok|lia]|]. intros b st2 ? ? ?. by apply good_parsed.
  - case_bool_decide as Hp; [|by apply (ok_primary _ IH)].
    eapply good_weaken; [eapply (ok_unary _ IH), advance_ok|]. pose proof (advance_less st ltac:(congruence)). lia.
  - cbn. generalize (if bool_decide (cur st = TKwIconv) then Iconv else Oconv). intros k.
    pose proof (advance_less st) as Ha. destruct (cur st) eqn:Ec; try done; specialize (Ha ltac:(done));
      try (by apply good_parsed; [done|apply advance_ok|]).
    + apply good_parsed; [done|apply advance_ok|]. cbn. by apply H.
    + apply good_expect; [done|]. intros ??.
      eapply good_bind; [eapply good_weaken; [eapply (ok_expr _ IH); done|lia]|]. intros a st2 ? ? ?.
      apply good_expect; [done|]. intros ??.
      eapply good_bind; [eapply good_weaken; [eapply (ok_expr _ IH); done|lia]|]. intros b st3 ? ? ?.
      apply good_expect; [done|]. intros ??. apply good_parsed; [lia|done|done].
    + apply good_expect; [done|]. intros ??.
      eapply good_bind; [eapply good_weaken; [eapply (ok_expr _ IH); done|lia]|]. intros a st2 ? ? ?.
      apply good_expect; [done|]. intros ??.
      eapply good_bind; [eapply good_weaken; [eapply (ok_expr _ IH); done|lia]|]. intros b st3 ? ? ?.
      apply good_expect; [done|]. intros ??. apply good_parsed; [lia|done|done].
    + eapply good_bind; [eapply good_weaken; [eapply (ok_expr _ IH), advance_ok|lia]|]. intros a st2 ? ? ?.
      apply good_expect; [done|]. intros ??. apply good_parsed; [lia|done|done].
Qed.

(** Fuel: eight calls for each token that may be left, plus the calls of one
    chain from [parseExpr] to [parsePrimary]. *)
Definition fuelled {A} (m : presult A) : Prop := m ≠ OutOfFuel.

Record enough_fuel (n : nat) : Prop := mk_enough_fuel {
  fuel_expr st : token_ok st.1 → (8 * left_over st + 5 <= n)%nat → fuelled (parseExpr n st);
  fuel_comparison st : token_ok st.1 → (8 * left_over st + 5 <= n)%nat → fuelled (parseComparison n st);
  fuel_additive st : token_ok st.1 → (8 * left_over st + 4 <= n)%nat → fuelled (parseAdditive n st);
  fuel_additive_loop l st : token_ok st.1 → (8 * left_over st + 4 <= n)%nat → fuelled (additive_loop n l st);
  fuel_multiplicative st : token_ok st.1 → (8 * left_over st + 3 <= n)%nat → fuelled (parseMultiplicative n st);
  fuel_multiplicative_loop l st : token_ok st.1 → (8 * left_over st + 3 <= n)%nat → fuelled (multiplicative_loop n l st);
  fuel_unary st : token_ok st.1 → (8 * left_over st + 2 <= n)%nat → fuelled (parseUnary n st);
  fuel_primary st : token_ok st.1 → (8 * left_over st + 1 <= n)%nat → fuelled (parsePrimary n st)
}.

Lemma fuelled_bind {A P} st (m : presult (IExpr * PState)) (f : IExpr * PState → presult A) : good P st m → fuelled m →
  (∀ e st', (left_over st' < left_over st)%nat → token_ok st'.1 → fuelled (f (e, st'))) → fuelled (m ≫= f).
Proof.
  intros Hg Hm Hf. destruct m as [| |[e st']]; [done|done|]. destruct (Hg _ _ eq_refl) as (? & ? & _). by apply Hf.
Qed.

Lemma fuelled_expect {A} st k (f : PState → presult A) : k ≠ TEnd →
  ((left_over (advance st) < left_over st)%nat → token_ok (advance st).1 → fuelled (f (advance st))) →
  fuelled (expect k st ≫= f).
Proof.
  intros Hk Hf. unfold expect. case_bool_decide as Hc; [|done]. apply Hf; [|apply advance_ok].
  apply advance_less. congruence.
Qed.

Ltac fuel_step IH :=
  match goal with
  | |- fuelled (parseExpr _ _) => apply (fuel_expr _ IH); [first [done|apply advance_ok]|lia]
  | |- fuelled (parseComparison _ _) => apply (fuel_comparison _ IH); [first [done|apply advance_ok]|lia]
  | |- fuelled (parseAdditive _ _) => apply (fuel_additive _ IH); [first [done|apply advance_ok]|lia]
  | |- fuelled (additive_loop _ _ _) => apply (fuel_additive_loop _ IH); [first [done|apply advance_ok]|lia]
  | |- fuelled (parseMultiplicative _ _) => apply (fuel_multiplicative _ IH); [first [done|apply advance_ok]|lia]
  | |- fuelled (multiplicative_loop _ _ _) => apply (fuel_multiplicative_loop _ IH); [first [done|apply advance_ok]|lia]
  | |- fuelled (parseUnary _ _) => apply (fuel_unary _ IH); [first [done|apply advance_ok]|lia]
  | |- fuelled (parsePrimary _ _) => apply (fuel_primary _ IH); [first [done|apply advance_ok]|lia]
  | |- fuelled (Parsed _) => done
  | |- fuelled (expect _ _ ≫= _) => apply fuelled_expect; [done|intros ??]
  | |- fuelled (parseExpr ?n ?st ≫= _) =>
      eapply (fuelled_bind st); [apply (ok_expr _ (parsers_are_ok n)); first [done|apply advance_ok]| |intros ????; cbn beta iota]
  | |- fuelled (parseComparison ?n ?st ≫= _) =>
      eapply (fuelled_bind st); [apply (ok_comparison _ (parsers_are_ok n)); first [done|apply advance_ok]| |intros ????; cbn beta iota]
  | |- fuelled (parseAdditive ?n ?st ≫= _) =>
      eapply (fuelled_bind st); [apply (ok_additive _ (parsers_are_ok n)); first [done|apply advance_ok]| |intros ????; cbn beta iota]
  | |- fuelled (parseMultiplicative ?n ?st ≫= _) =>
      eapply (fuelled_bind st); [apply (ok_multiplicative _ (parsers_are_ok n)); first [done|apply advance_ok]| |intros ????; cbn beta iota]
  | |- fuelled (parseUnary ?n ?st ≫= _) =>
      eapply (fuelled_bind st); [apply (ok_unary _ (parsers_are_ok n)); first [done|apply advance_ok]| |intros ????; cbn beta iota]
  end.

Lemma fuel_is_enough n : enough_fuel n.
Proof.
  induction n as [|n IH]; [split; lia|]. split; intros st; intros; cbn.
  - case_bool_decide as Hc; [|fuel_step IH]. pose proof (advance_less st ltac:(congruence)). repeat fuel_step IH.
  - repeat fuel_step IH. destruct (isCompareToken (cur st')) eqn:Ec; [|done].
    pose proof (advance_less st' ltac:(intros H'; by rewrite H' in Ec)). repeat fuel_step IH.
  - repeat fuel_step IH.
  - rename st into l, st0 into st. case_bool_decide as Hc; [|done].
    pose proof (advance_less st ltac:(destruct Hc; congruence)). repeat fuel_step IH.
  - repeat fuel_step IH.
  - rename st into l, st0 into st. case_bool_decide as Hc; [|done].
    pose proof (advance_less st ltac:(destruct Hc; congruence)). repeat fuel_step IH.
  - case_bool_decide as Hc; [pose proof (advance_less st ltac:(congruence)); repeat fuel_step IH|].
    case_bool_decide; [|fuel_step IH]. pose proof (advance_less st ltac:(congruence)). fuel_step IH.
  - generalize (if bool_decide (cur st = TKwIconv) then Iconv else Oconv). intros k.
    pose proof (advance_less st) as Ha. destruct (cur st); try done; specialize (Ha ltac:(done)); repeat fuel_step IH.
Qed.

Lemma parseExpression_total source : parseExpression source ≠ OutOfFuel.
Proof.
  unfold parseExpression. destruct (lex_next source) as [t r] eqn:E. apply lex_next_spec in E as [Hl Ht].
  pose proof (fuel_expr _ (fuel_is_enough (parse_fuel source)) (t, r) Ht) as Hf.
  assert (8 * left_over (t, r) + 5 <= parse_fuel source)%nat as Hn.
  { unfold left_over, cur, parse_fuel. cbn. case_bool_decide; [lia|]. destruct Hl; [done|lia]. }
  specialize (Hf Hn). destruct (parseExpr _ _) as [| |[e st]]; [done|done|]. cbn. by case_bool_decide.
Qed.

(** The two results of the parser. *)
Lemma parse_result (source : string) :
  (∃ e, parseIExpression source = Ok (Some e, "") ∧ wf_expr e) ∨
  parseIExpression source = Ok (None, invalid_expression).
Proof.
  unfold parseIExpression. destruct (str_empty source); [by right|].
  pose proof (parseExpression_total source) as Ht. destruct (parseExpression source) as [| |e] eqn:E; [done|by right|].
  left. exists e. split; [done|]. apply presult_bind_inv in E as ([e' st] & E & H). revert H. case_bool_decide; [|done].
  intros [= ->]. destruct (lex_next source) as [t r] eqn:El. apply lex_next_spec in El as [_ Ht'].
  by destruct (ok_expr _ (parsers_are_ok _) (t, r) Ht' _ _ E) as (_ & _ & ?).
Qed.

(** Parsing an I-type expression always ends (the model's fuel is never
    used up), with a tree in which every comparison is the condition of an IF,
    every field is A to Z and every operator is one of the grammar's, or with
    no tree and the message "I-type: invalid expression". *)
Theorem parse_total (source : string) :
  (∃ e, parseIExpression source = Ok (Some e, "") ∧ wf_expr e) ∨
  parseIExpression source = Ok (None, invalid_expression).
Proof. apply parse_result. Qed.

(** ** Source text of a tree, and the round trip *)

Definition num_text (d : double) : string := format_g 15 d.

(** The numbers whose text is a number token of the same value. *)
Definition number_ok (d : double) : Prop :=
  number_chars false (num_text d) = (num_text d, "") ∧ ∃ b, strtod (num_text d) = Some (d, b, "").

Fixpoint printable (e : IExpr) : Prop :=
  match e with
  | IExprNumber d => number_ok d
  | IExprString _ | IExprField _ => True
  | IExprUnary _ x => printable x
  | IExprBinary _ a b | IExprCompare _ a b | IExprCall _ a b => printable a ∧ printable b
  | IExprIf c a b => printable c ∧ printable a ∧ printable b
  end.

Definition op_tok (c : ascii) : Token :=
  tok (if Ascii.eqb c "+" then TPlus else if Ascii.eqb c "-" then TMinus else if Ascii.eqb c "*" then TStar else TSlash)
      (String c "").

Definition cmp_tok (op : ICompareOp) : Token :=
  match op with
  | CmpEq => tok TEq "=" | CmpNe => tok TNe "<>" | CmpLt => tok TLt "<"
  | CmpLe => tok TLe "<=" | CmpGt => tok TGt ">" | CmpGe => tok TGe ">="
  end.

(** The grammar's level of a tree: 0 expression, 1 sum, 2 product, 3 signed, 4 atom. *)
Definition native (e : IExpr) : nat :=
  match e with
  | IExprIf _ _ _ => 0
  | IExprBinary op _ _ => if Ascii.eqb op "+" || Ascii.eqb op "-" then 1 else 2
  | IExprUnary _ _ => 3
  | _ => 4
  end.

(** The tokens of [e] where the grammar wants level [lvl]: in parentheses when
    the level of [e] is lower. *)
Fixpoint toks (lvl : nat) (e : IExpr) : list Token :=
  let body :=
    match e with
    | IExprNumber d => [mkToken TNumber (num_text d) d 0]
    | IExprString s => [tok TString s]
    | IExprField n => [mkToken TField (String (chr (n + 64)) "") d_zero n]
    | IExprUnary op x => op_tok op :: toks 3 x
    | IExprBinary op a b =>
        if Ascii.eqb op "+" || Ascii.eqb op "-" then toks 1 a ++ op_tok op :: toks 2 b
        else toks 2 a ++ op_tok op :: toks 3 b
    | IExprCompare op a b => toks 1 a ++ cmp_tok op :: toks 1 b
    | IExprIf c a b =>
        tok TKwIf "IF" :: match c with IExprCompare op x y => toks 1 x ++ cmp_tok op :: toks 1 y | _ => toks 1 c end ++
        tok TKwThen "THEN" :: toks 0 a ++ tok TKwElse "ELSE" :: toks 0 b
    | IExprCall k v c =>
        match k with Iconv => tok TKwIconv "ICONV" | Oconv => tok TKwOconv "OCONV" end :: tok TLParen "(" ::
        toks 0 v ++ tok TComma "," :: toks 0 c ++ [tok TRParen ")"]
    end in
  if (lvl <=? native e)%nat then body else tok TLParen "(" :: body ++ [tok TRParen ")"].

Fixpoint escape (s : string) : string :=
  match s with
  | "" => ""
  | String c s' =>
      if Ascii.eqb c DQUOTE || Ascii.eqb c BACKSLASH then String BACKSLASH (String c (escape s')) else String c (escape s')
  end.

Definition tok_text (t : Token) : string :=
  match tkind t with TString => String DQUOTE (escape (lexeme t) +:+ String DQUOTE "") | _ => lexeme t end.

Fixpoint text (ts : list Token) : string :=
  match ts with [] => "" | t :: ts' => tok_text t +:+ String " " (text ts') end.

(** The source text of a tree. *)
Definition print (e : IExpr) : string := text (toks 0 e).

(** *** Lexing printed tokens *)

Definition lexable (t : Token) : Prop := ∀ r, lex_next (tok_text t +:+ String " " r) = (t, String " " r).

Fixpoint lexes (s : string) (ts : list Token) : Prop :=
  match ts with
  | [] => tkind (lex_next s).1 = TEnd
  | t :: ts' => ∃ s', lex_next s = (t, s') ∧ lexes s' ts'
  end.

Lemma lex_next_space s : lex_next (String " " s) = lex_next s.
Proof. done. Qed.

Lemma lexes_space s ts : lexes (String " " s) ts ↔ lexes s ts.
Proof. by destruct ts. Qed.

Lemma lexes_text ts : Forall lexable ts → lexes (text ts) ts.
Proof.
  induction 1 as [|t ts Ht Hts IH]; [done|]. cbn [text lexes]. exists (String " " (text ts)).
  split; [apply Ht|]. by apply lexes_space.
Qed.

Lemma number_chars_app b w s : number_chars b w = (w, "") → starts_digit s = false → str_front s ≠ Some "."%char →
  number_chars b (w +:+ s) = (w, s).
Proof.
  revert b. induction w as [|c w IH]; intros b Hw Hs Hp.
  - cbn. destruct s as [|x s]; [done|]. cbn in Hs, Hp. cbn. rewrite Hs.
    destruct (Ascii.eqb_spec x "."); [congruence|done].
  - cbn in *. destruct (isdigit c).
    + destruct (number_chars b w) as [w' r'] eqn:E. injection Hw as -> ->. by rewrite IH.
    + destruct (_ && _); [|done]. destruct (number_chars true w) as [w' r'] eqn:E. injection Hw as -> ->. by rewrite IH.
Qed.

Lemma lexable_number d : number_ok d → lexable (mkToken TNumber (num_text d) d 0).
Proof.
  intros [Hc [b Hs]] r. change (tok_text _) with (num_text d). revert Hc Hs. generalize (num_text d). intros w Hc Hs.
  destruct w as [|c w]; [done|].
  assert (isdigit c || Ascii.eqb c "." = true) as Hd.
  { cbn in Hc. destruct (isdigit c); [done|]. destruct (Ascii.eqb c "."); [done|]. done. }
  assert (isspace c = false ∧ Ascii.eqb c DQUOTE = false) as [Hsp Hq].
  { revert Hd. clear. revert c.
    assert (∀ c, implb (isdigit c || Ascii.eqb c ".") (negb (isspace c) && negb (Ascii.eqb c DQUOTE)) = true) as H.
    { apply all_chars_spec. by vm_compute. }
    intros c Hd. specialize (H c). rewrite Hd in H. cbn [implb] in H. by destruct (isspace c), (Ascii.eqb c DQUOTE). }
  unfold lex_next, skipWhitespace. rewrite str_app_cons, ltrim_keep by done. rewrite Hq, Hd.
  unfold lexNumber. rewrite <- str_app_cons, (number_chars_app false (String c w) (String " " r)); try done.
  by rewrite Hs.
Qed.

Lemma lexString_escape s : ∀ v r, lexString (escape s +:+ String DQUOTE r) v = (tok TString (v +:+ s), r).
Proof.
  induction s as [|c s IH]; intros v r; [cbn; by rewrite str_app_nil_r|]. cbn [escape].
  assert (v +:+ String c s = (v +:+ String c "") +:+ s) as -> by (by rewrite str_app_assoc).
  destruct (Ascii.eqb c DQUOTE || Ascii.eqb c BACKSLASH) eqn:E; rewrite !str_app_cons; cbn [lexString].
  - assert (Ascii.eqb BACKSLASH DQUOTE = false) as -> by done. by rewrite IH.
  - apply orb_false_iff in E as [-> ->]. by rewrite IH.
Qed.

Lemma lexable_string s : lexable (tok TString s).
Proof.
  intros r. unfold tok_text. cbn [tkind tok lexeme]. rewrite str_app_cons, str_app_assoc, str_app_cons, str_app_nil_l.
  unfold lex_next, skipWhitespace. change (ltrim isspace (String DQUOTE ?s)) with (String DQUOTE s).
  cbv beta iota. assert (Ascii.eqb DQUOTE DQUOTE = true) as -> by done. by rewrite lexString_escape.
Qed.

Lemma lexable_field n : 1 <= n <= 26 → lexable (mkToken TField (String (chr (n + 64)) "") d_zero n).
Proof.
  intros Hn r. assert (n ∈ seqZ 1 26) as Hin by (apply elem_of_seqZ; lia).
  revert Hin. rewrite list_elem_of_In. cbn [seqZ seq fmap list_fmap Z.to_nat]. clear Hn.
  intros Hin. repeat (destruct Hin as [<-|Hin]; [reflexivity|]). done.
Qed.

Lemma lexable_op c : arith_op c = true → lexable (op_tok c).
Proof.
  unfold arith_op. rewrite !orb_true_iff, !Ascii.eqb_eq. intros [[[->| ->]| ->]| ->]; by intros r.
Qed.

Lemma lexable_cmp op : lexable (cmp_tok op).
Proof. by destruct op; intros r. Qed.

#[local] Hint Resolve lexable_number lexable_string lexable_field lexable_op lexable_cmp : gemini.

Lemma toks_lexable e : wf_condition e → printable e → ∀ lvl, Forall lexable (toks lvl e).
Proof.
  assert (∀ k s, (∀ r, lex_next (s +:+ String " " r) = (tok k s, String " " r)) → k ≠ TString → lexable (tok k s)) as Hk.
  { intros k s H Hk r. unfold tok_text. cbn. destruct k; try done; apply H. }
  assert (∀ lvl e body, toks lvl e = (if (lvl <=? native e)%nat then body else tok TLParen "(" :: body ++ [tok TRParen ")"]) →
    Forall lexable body → Forall lexable (toks lvl e)) as Hwrap.
  { intros lvl e0 body -> Hb. destruct (_ <=? _)%nat; [done|].
    apply Forall_cons; split; [by apply Hk|]; apply Forall_app; split; [done|]; apply Forall_singleton; by apply Hk. }
  induction e as [d|s|n|op x IHx|op a IHa b IHb|op a IHa b IHb|c IHc a IHa b IHb|k v IHv c IHc]; intros Hw Hp lvl.
  1-8: cbn in Hw, Hp; eapply Hwrap; [reflexivity|].
  - apply Forall_singleton; auto with gemini.
  - apply Forall_singleton; auto with gemini.
  - apply Forall_singleton; auto with gemini.
  - destruct Hw as [-> Hw]. apply Forall_cons. split; [by apply lexable_op|]. apply IHx; [by apply wf_condition_expr|done].
  - destruct Hw as (Hop & Ha & Hb), Hp as [Hpa Hpb]. apply wf_condition_expr in Ha, Hb.
    destruct (_ || _); apply Forall_app; (split; [auto|]); apply Forall_cons; (split; [by apply lexable_op|]); auto.
  - destruct Hw as [Ha Hb], Hp as [Hpa Hpb]. apply wf_condition_expr in Ha, Hb.
    apply Forall_app; split; [auto|]; apply Forall_cons; split; [apply lexable_cmp|]; auto.
  - destruct Hw as (Hc & Ha & Hb), Hp as (Hpc & Hpa & Hpb). apply wf_condition_expr in Ha, Hb.
    apply Forall_cons. split; [by apply Hk|]. apply Forall_app. split.
    { assert (wf_condition c) as Hc' by (by destruct c). specialize (IHc Hc' Hpc).
      destruct c; try apply IHc. exact (IHc 1%nat). }
    apply Forall_cons. split; [by apply Hk|]. apply Forall_app. split; [auto|].
    apply Forall_cons. split; [by apply Hk|]. auto.
  - destruct Hw as [Hv Hc], Hp as [Hpv Hpc]. apply wf_condition_expr in Hv, Hc.
    apply Forall_cons. split; [destruct k; by apply Hk|]. apply Forall_cons. split; [by apply Hk|].
    apply Forall_app. split; [auto|]. apply Forall_cons. split; [by apply Hk|]. apply Forall_app. split; [auto|].
    apply Forall_singleton; by apply Hk.
Qed.

(** *** Parsing printed tokens *)

(** The parser's state stands before the tokens [ts]. *)
Definition at_toks (st : PState) (ts : list Token) : Prop :=
  match ts with [] => cur st = TEnd | t :: ts' => st.1 = t ∧ lexes st.2 ts' end.

Definition head_kind (ts : list Token) : TokenKind := match ts with [] => TEnd | t :: _ => tkind t end.

Definition no_mul (ts : list Token) : Prop := head_kind ts ≠ TStar ∧ head_kind ts ≠ TSlash.
Definition no_add (ts : list Token) : Prop := head_kind ts ≠ TPlus ∧ head_kind ts ≠ TMinus.

Lemma at_lexed s ts : lexes s ts → at_toks (lex_next s) ts.
Proof. destruct ts as [|t ts]; [done|]. cbn. intros (s' & -> & ?). done. Qed.

Lemma at_advance st t ts : at_toks st (t :: ts) → at_toks (advance st) ts.
Proof. intros [_ H]. by apply at_lexed. Qed.

Lemma at_cur st ts : at_toks st ts → cur st = head_kind ts.
Proof. destruct ts; [done|]. unfold cur. by intros [-> _]. Qed.

Lemma at_expect st t ts : at_toks st (t :: ts) → expect (tkind t) st = Parsed (advance st).
Proof. intros H%at_cur. unfold expect. by rewrite bool_decide_eq_true_2. Qed.

(** [f] parses the tokens [ts] to [e], whatever follows that satisfies [P]. *)
Definition parses (P : list Token → Prop) (f : nat → PState → presult (IExpr * PState)) (ts : list Token) (e : IExpr) : Prop :=
  ∀ st rest, at_toks st (ts ++ rest) → P rest →
  ∃ st' k, at_toks st' rest ∧ ∀ m, (k <= m)%nat → f m st = Parsed (e, st').

(** As [parses] for the two loops: [f] comes to its loop with [e] read. *)
Definition parses_to (P : list Token → Prop) (loop : nat → IExpr → PState → presult (IExpr * PState))
    (f : nat → PState → presult (IExpr * PState)) (ts : list Token) (e : IExpr) : Prop :=
  ∀ st rest, at_toks st (ts ++ rest) → P rest →
  ∃ st' j k, at_toks st' rest ∧ ∀ m, (k <= m)%nat → f (j + m)%nat st = loop m e st'.

Definition follow_any (ts : list Token) : Prop := True.
Definition follow_sum (ts : list Token) : Prop := no_mul ts ∧ no_add ts.

(** The tokens start with a kind outside [bad]. *)
Definition starts_outside (bad : list TokenKind) (ts : list Token) : Prop :=
  ∃ t ts', ts = t :: ts' ∧ tkind t ∉ bad.

Definition level_ok (lvl : nat) (ts : list Token) (e : IExpr) : Prop :=
  match lvl with
  | 0%nat => parses follow_sum parseExpr ts e
  | 1%nat => starts_outside [TKwIf] ts ∧ parses_to no_mul additive_loop parseAdditive ts e
  | 2%nat => starts_outside [TKwIf] ts ∧ parses_to follow_any multiplicative_loop parseMultiplicative ts e
  | 3%nat => starts_outside [TKwIf] ts ∧ parses follow_any parseUnary ts e
  | _ => starts_outside [TKwIf; TPlus; TMinus] ts ∧ parses follow_any parsePrimary ts e
  end.

Lemma starts_cur bad st ts rest : starts_outside bad ts → at_toks st (ts ++ rest) → cur st ∉ bad.
Proof. intros (t & ts' & -> & H) Ha%at_cur. cbn in Ha. congruence. Qed.

Lemma additive_parses ts e : parses_to no_mul additive_loop parseAdditive ts e → parses follow_sum parseAdditive ts e.
Proof.
  intros H st rest Hst [Hm Ha]. destruct (H st rest Hst Hm) as (st' & j & k & Hst' & Hf).
  exists st', (S (j + k))%nat. split; [done|]. intros m Hle.
  assert (m = j + S (m - S j))%nat as -> by lia. rewrite Hf by lia. cbn. apply at_cur in Hst'.
  rewrite bool_decide_eq_false_2; [done|]. rewrite Hst'. destruct Ha. tauto.
Qed.

Lemma multiplicative_parses ts e : parses_to follow_any multiplicative_loop parseMultiplicative ts e →
  parses no_mul parseMultiplicative ts e.
Proof.
  intros H st rest Hst Hm. destruct (H st rest Hst I) as (st' & j & k & Hst' & Hf).
  exists st', (S (j + k))%nat. split; [done|]. intros m Hle.
  assert (m = j + S (m - S j))%nat as -> by lia. rewrite Hf by lia. cbn. apply at_cur in Hst'.
  rewrite bool_decide_eq_false_2; [done|]. rewrite Hst'. destruct Hm. tauto.
Qed.

Lemma primary_unary ts e : level_ok 4 ts e → level_ok 3 ts e.
Proof.
  intros [Hs H]. split. { destruct Hs as (t & ts' & -> & Ht). exists t, ts'. set_solver. }
  intros st rest Hst Hr. destruct (H st rest Hst Hr) as (st' & k & Hst' & Hf).
  pose proof (starts_cur _ _ _ _ Hs Hst) as Hc.
  exists st', (S k). split; [done|]. intros [|m] Hle; [lia|]. cbn.
  rewrite !bool_decide_eq_false_2 by set_solver. apply Hf. lia.
Qed.

Lemma unary_multiplicative ts e : level_ok 3 ts e → level_ok 2 ts e.
Proof.
  intros [Hs H]. split; [done|]. intros st rest Hst Hr. destruct (H st rest Hst Hr) as (st' & k & Hst' & Hf).
  exists st', 1%nat, k. split; [done|]. intros m Hle. cbn. by rewrite Hf.
Qed.

Lemma multiplicative_additive ts e : level_ok 2 ts e → level_ok 1 ts e.
Proof.
  intros [Hs H]. split; [done|]. intros st rest Hst Hr.
  destruct (multiplicative_parses _ _ H st rest Hst Hr) as (st' & k & Hst' & Hf).
  exists st', 1%nat, k. split; [done|]. intros m Hle. cbn. by rewrite Hf.
Qed.

Lemma additive_expression ts e : level_ok 1 ts e → level_ok 0 ts e.
Proof.
  intros [Hs H] st rest Hst Hr. destruct (additive_parses _ _ H st rest Hst Hr) as (st' & k & Hst' & Hf).
  pose proof (starts_cur _ _ _ _ Hs Hst) as Hc.
  exists st', (S k). split; [done|]. intros [|m] Hle; [lia|]. cbn.
  rewrite bool_decide_eq_false_2 by set_solver. apply Hf. lia.
Qed.

Lemma expression_primary ts e : level_ok 0 ts e → level_ok 4 (tok TLParen "(" :: ts ++ [tok TRParen ")"]) e.
Proof.
  intros H. split; [eexists _, _; split; [done|set_solver]|]. intros st rest Hst _.
  rewrite <- app_comm_cons, <- app_assoc in Hst.
  destruct (H (advance st) (tok TRParen ")" :: rest)) as (st' & k & Hst' & Hf); [by eapply at_advance|by repeat split|].
  exists (advance st'), (S k). split; [by eapply at_advance|]. intros [|m] Hle; [lia|]. cbn.
  apply at_cur in Hst. cbn in Hst. rewrite Hst, Hf by lia. cbn.
  pose proof (at_expect _ _ _ Hst') as He. cbn in He. by rewrite He.
Qed.

Lemma level_down l l' ts e : (l' <= l <= 4)%nat → level_ok l ts e → level_ok l' ts e.
Proof.
  intros [Hl Hl4] H. induction Hl as [|l Hl IH]; [done|]. apply IH; [lia|].
  destruct l as [|[|[|[|l]]]]; [by apply additive_expression|by apply multiplicative_additive|
    by apply unary_multiplicative|by apply primary_unary|lia].
Qed.

(** Levels and parentheses: the tokens of [e] at any level, from its own. *)
Lemma level_toks e body lvl : (lvl <= 4)%nat →
  toks lvl e = (if (lvl <=? native e)%nat then body else tok TLParen "(" :: body ++ [tok TRParen ")"]) →
  level_ok (native e) body e → level_ok lvl (toks lvl e) e.
Proof.
  intros Hl -> H. assert (native e <= 4)%nat by (destruct e; cbn; try lia; destruct (_ || _); lia).
  destruct (Nat.leb_spec lvl (native e)); [by eapply level_down|].
  apply (level_down 4 lvl); [lia|]. by apply expression_primary, (level_down (native e) 0); [lia|].
Qed.

Lemma parses_sum op a b ta tb : op = "+"%char ∨ op = "-"%char →
  level_ok 1 ta a → level_ok 2 tb b → level_ok 1 (ta ++ op_tok op :: tb) (IExprBinary op a b).
Proof.
  intros Hop [Hsa Ha] [Hsb Hb]. split.
  { destruct Hsa as (t & ts' & -> & Ht). by exists t, (ts' ++ op_tok op :: tb). }
  assert (tkind (op_tok op) = TPlus ∨ tkind (op_tok op) = TMinus) as Hk by (destruct Hop as [->| ->]; auto).
  intros st rest Hst Hr. rewrite <- app_assoc in Hst.
  destruct (Ha st (op_tok op :: tb ++ rest) Hst) as (st1 & j1 & k1 & Hst1 & Hf1).
  { destruct Hop as [->| ->]; by split. }
  destruct (multiplicative_parses _ _ Hb (advance st1) rest) as (st2 & k2 & Hst2 & Hf2); [by eapply at_advance|done|].
  exists st2, (j1 + 1)%nat, (k1 + k2)%nat. split; [done|]. intros m Hm.
  assert (j1 + 1 + m = j1 + S m)%nat as -> by lia. rewrite Hf1 by lia. cbn.
  pose proof (at_cur _ _ Hst1) as Hc. cbn [head_kind] in Hc.
  rewrite bool_decide_eq_true_2 by (rewrite Hc; done). rewrite Hf2 by lia. cbn.
  destruct Hst1 as [Ht _]. unfold op_char. by rewrite Ht.
Qed.

Lemma parses_product op a b ta tb : op = "*"%char ∨ op = "/"%char →
  level_ok 2 ta a → level_ok 3 tb b → level_ok 2 (ta ++ op_tok op :: tb) (IExprBinary op a b).
Proof.
  intros Hop [Hsa Ha] [Hsb Hb]. split.
  { destruct Hsa as (t & ts' & -> & Ht). by exists t, (ts' ++ op_tok op :: tb). }
  assert (tkind (op_tok op) = TStar ∨ tkind (op_tok op) = TSlash) as Hk by (destruct Hop as [->| ->]; auto).
  intros st rest Hst Hr. rewrite <- app_assoc in Hst.
  destruct (Ha st (op_tok op :: tb ++ rest) Hst I) as (st1 & j1 & k1 & Hst1 & Hf1).
  destruct (Hb (advance st1) rest) as (st2 & k2 & Hst2 & Hf2); [by eapply at_advance|done|].
  exists st2, (j1 + 1)%nat, (k1 + k2)%nat. split; [done|]. intros m Hm.
  assert (j1 + 1 + m = j1 + S m)%nat as -> by lia. rewrite Hf1 by lia. cbn.
  pose proof (at_cur _ _ Hst1) as Hc. cbn [head_kind] in Hc.
  rewrite bool_decide_eq_true_2 by (rewrite Hc; done). rewrite Hf2 by lia. cbn.
  destruct Hst1 as [Ht _]. unfold op_char. by rewrite Ht.
Qed.

Lemma parses_signed x tx : level_ok 3 tx x → level_ok 3 (op_tok "-" :: tx) (IExprUnary "-" x).
Proof.
  intros [Hs H]. split; [eexists _, _; split; [done|set_solver]|]. intros st rest Hst Hr.
  destruct (H (advance st) rest) as (st' & k & Hst' & Hf); [by eapply at_advance|done|].
  exists st', (S k). split; [done|]. intros [|m] Hle; [lia|]. cbn. apply at_cur in Hst.
  rewrite bool_decide_eq_true_2 by done. by rewrite Hf by lia.
Qed.

(** Conditions. *)
Definition follow_condition (ts : list Token) : Prop := follow_sum ts ∧ isCompareToken (head_kind ts) = false.

Lemma parses_comparison op a b ta tb : level_ok 1 ta a → level_ok 1 tb b →
  parses follow_sum parseComparison (ta ++ cmp_tok op :: tb) (IExprCompare op a b).
Proof.
  intros [_ Ha] [_ Hb] st rest Hst Hr. rewrite <- app_assoc in Hst.
  destruct (additive_parses _ _ Ha st (cmp_tok op :: tb ++ rest) Hst) as (st1 & k1 & Hst1 & Hf1).
  { by destruct op. }
  destruct (additive_parses _ _ Hb (advance st1) rest) as (st2 & k2 & Hst2 & Hf2); [by eapply at_advance|done|].
  exists st2, (S (k1 + k2)). split; [done|]. intros [|m] Hle; [lia|]. cbn.
  rewrite Hf1 by lia. cbn. apply at_cur in Hst1. rewrite Hst1.
  assert (isCompareToken (head_kind (cmp_tok op :: tb ++ rest)) = true) as -> by (by destruct op).
  rewrite Hf2 by lia. cbn. by destruct op.
Qed.

Lemma parses_numeric_condition e ts : level_ok 1 ts e → parses follow_condition parseComparison ts e.
Proof.
  intros [_ H] st rest Hst [Hr Hc]. destruct (additive_parses _ _ H st rest Hst Hr) as (st1 & k1 & Hst1 & Hf1).
  exists st1, (S k1). split; [done|]. intros [|m] Hle; [lia|]. cbn. rewrite Hf1 by lia. cbn.
  apply at_cur in Hst1. by rewrite Hst1, Hc.
Qed.

Lemma parses_if c a b tc ta tb : parses follow_condition parseComparison tc c →
  level_ok 0 ta a → level_ok 0 tb b →
  level_ok 0 (tok TKwIf "IF" :: tc ++ tok TKwThen "THEN" :: ta ++ tok TKwElse "ELSE" :: tb) (IExprIf c a b).
Proof.
  intros Hc Ha Hb st rest Hst Hr. rewrite <- app_comm_cons, <- app_assoc, <- app_comm_cons, <- app_assoc in Hst.
  destruct (Hc (advance st) (tok TKwThen "THEN" :: ta ++ tok TKwElse "ELSE" :: tb ++ rest)) as (st1 & k1 & Hst1 & Hf1);
    [by eapply at_advance|by repeat split|].
  destruct (Ha (advance st1) (tok TKwElse "ELSE" :: tb ++ rest)) as (st2 & k2 & Hst2 & Hf2);
    [by eapply at_advance|by repeat split|].
  destruct (Hb (advance st2) rest) as (st3 & k3 & Hst3 & Hf3); [by eapply at_advance|done|].
  exists st3, (S (k1 + k2 + k3)). split; [done|]. intros [|m] Hle; [lia|]. cbn. apply at_cur in Hst.
  rewrite bool_decide_eq_true_2 by done. rewrite Hf1 by lia. cbn.
  pose proof (at_expect _ _ _ Hst1) as He1. cbn in He1. rewrite He1. cbn. rewrite Hf2 by lia. cbn.
  pose proof (at_expect _ _ _ Hst2) as He2. cbn in He2. rewrite He2. cbn. by rewrite Hf3 by lia.
Qed.

Lemma parses_call k v c tv tc : level_ok 0 tv v → level_ok 0 tc c →
  level_ok 4 (match k with Iconv => tok TKwIconv "ICONV" | Oconv => tok TKwOconv "OCONV" end :: tok TLParen "(" ::
    tv ++ tok TComma "," :: tc ++ [tok TRParen ")"]) (IExprCall k v c).
Proof.
  intros Hv Hc. split; [eexists _, _; split; [done|destruct k; set_solver]|]. intros st rest Hst _.
  rewrite <- !app_comm_cons, <- app_assoc, <- app_comm_cons, <- app_assoc in Hst.
  pose proof (at_advance _ _ _ Hst) as Hst0.
  destruct (Hv (advance (advance st)) (tok TComma "," :: tc ++ [tok TRParen ")"] ++ rest)) as (st1 & k1 & Hst1 & Hf1);
    [by eapply at_advance|by repeat split|].
  destruct (Hc (advance st1) ([tok TRParen ")"] ++ rest)) as (st2 & k2 & Hst2 & Hf2);
    [by eapply at_advance|by repeat split|].
  exists (advance st2), (S (k1 + k2)). split; [by eapply at_advance|]. intros [|m] Hle; [lia|]. cbn. apply at_cur in Hst.
  pose proof (at_expect _ _ _ Hst0) as He0. cbn in He0.
  pose proof (at_expect _ _ _ Hst1) as He1. cbn in He1.
  pose proof (at_expect _ _ _ Hst2) as He2. cbn in He2.
  assert (cur st = match k with Iconv => TKwIconv | Oconv => TKwOconv end) as Hk by (rewrite Hst; by destruct k).
  destruct k; rewrite Hk, He0; cbn; rewrite Hf1 by lia; cbn; rewrite He1; cbn; rewrite Hf2 by lia; cbn; by rewrite He2.
Qed.

Lemma parses_atom t e : match tkind t with
    | TNumber => e = IExprNumber (numberValue t) | TString => e = IExprString (lexeme t)
    | TField => e = IExprField (fieldAttributeNo t) | _ => False end → level_ok 4 [t] e.
Proof.
  intros He. split; [eexists _, _; split; [done|]; destruct (tkind t); set_solver|].
  intros st rest Hst _. exists (advance st), 1%nat. split; [by eapply at_advance|]. intros [|m] Hle; [lia|]. cbn.
  destruct Hst as [Ht _]. unfold cur. rewrite Ht. destruct (tkind t); try done; by subst e.
Qed.

(** The condition's tokens as [toks] writes them. *)
Definition cond_toks (c : IExpr) : list Token :=
  match c with IExprCompare op x y => toks 1 x ++ cmp_tok op :: toks 1 y | _ => toks 1 c end.

Lemma parses_weaken P Q f ts e : (∀ r, Q r → P r) → parses P f ts e → parses Q f ts e.
Proof. intros H Hp st rest Hst Hq. by apply Hp, H. Qed.

Lemma toks_parse e :
  (wf_expr e → ∀ lvl, (lvl <= 4)%nat → level_ok lvl (toks lvl e) e) ∧
  (wf_condition e → parses follow_condition parseComparison (cond_toks e) e).
Proof.
  assert (∀ e, (∀ op a b, e ≠ IExprCompare op a b) → (wf_expr e → ∀ lvl, (lvl <= 4)%nat → level_ok lvl (toks lvl e) e) →
    wf_condition e → parses follow_condition parseComparison (cond_toks e) e) as Hnum.
  { clear e. intros e Hne He Hw. assert (wf_expr e) as Hw' by (destruct e; try done; exfalso; by eapply Hne).
    pose proof (parses_numeric_condition _ _ (He Hw' 1%nat ltac:(lia))) as Hp.
    by destruct e. }
  induction e as [d|s|n|op x IHx|op a IHa b IHb|op a IHa b IHb|c IHc a IHa b IHb|k v IHv c IHc].
  1-5, 7-8: match goal with |- ?A ∧ (wf_condition ?e → _) => assert A as HA; [|split; [exact HA|by apply (Hnum e)]] end;
    intros Hw lvl Hl; (eapply level_toks; [done|reflexivity|]).
  - by apply parses_atom.
  - by apply parses_atom.
  - by apply parses_atom.
  - destruct Hw as [-> Hw]. apply parses_signed. by apply IHx; [|lia].
  - destruct Hw as (Hop & Ha & Hb). unfold native. unfold arith_op in Hop.
    destruct (Ascii.eqb op "+" || Ascii.eqb op "-") eqn:E.
    + apply parses_sum; [by apply orb_true_iff in E as [->%Ascii.eqb_eq| ->%Ascii.eqb_eq]; auto|by apply IHa; [|lia]|by apply IHb; [|lia]].
    + apply parses_product; [|by apply IHa; [|lia]|by apply IHb; [|lia]].
      cbn in Hop. apply orb_true_iff in Hop as [->%Ascii.eqb_eq| ->%Ascii.eqb_eq]; auto.
  - destruct Hw as (Hc & Ha & Hb). apply parses_if; [|by apply IHa; [|lia]|by apply IHb; [|lia]].
    by apply IHc.
  - destruct Hw as [Hv Hc]. apply parses_call; [by apply IHv; [|lia]|by apply IHc; [|lia]].
  - split; [done|]. intros [Ha Hb]. eapply parses_weaken; [|apply parses_comparison]; [by intros r []|by apply IHa; [|lia]|by apply IHb; [|lia]].
Qed.

(** More fuel changes nothing once there is a result. *)
Definition stable {A} (m m' : presult A) : Prop := m ≠ OutOfFuel → m' = m.

Lemma stable_refl {A} (m : presult A) : stable m m.
Proof. done. Qed.

Lemma stable_bind {A B} (m m' : presult A) (f f' : A → presult B) :
  stable m m' → (∀ a, stable (f a) (f' a)) → stable (m ≫= f) (m' ≫= f').
Proof.
  intros Hm Hf H. destruct m as [| |a]; [done|by rewrite Hm|]. rewrite Hm by done. by apply Hf.
Qed.

Record stable_parsers (n m : nat) : Prop := mk_stable_parsers {
  stable_expr st : stable (parseExpr n st) (parseExpr m st);
  stable_comparison st : stable (parseComparison n st) (parseComparison m st);
  stable_additive st : stable (parseAdditive n st) (parseAdditive m st);
  stable_additive_loop l st : stable (additive_loop n l st) (additive_loop m l st);
  stable_multiplicative st : stable (parseMultiplicative n st) (parseMultiplicative m st);
  stable_multiplicative_loop l st : stable (multiplicative_loop n l st) (multiplicative_loop m l st);
  stable_unary st : stable (parseUnary n st) (parseUnary m st);
  stable_primary st : stable (parsePrimary n st) (parsePrimary m st)
}.

Ltac stable_step IH :=
  match goal with
  | |- stable ?m ?m => apply stable_refl
  | |- stable (_ ≫= _) (_ ≫= _) => apply stable_bind; [|intros ?]
  | |- stable (let '(_, _) := ?x in _) _ => destruct x
  | |- stable (if ?b then _ else _) _ => destruct b
  | |- stable (match cur ?st with _ => _ end) _ => destruct (cur st)
  | |- _ => first [apply (stable_expr _ _ IH)|apply (stable_comparison _ _ IH)|apply (stable_additive _ _ IH)
      |apply (stable_additive_loop _ _ IH)|apply (stable_multiplicative _ _ IH)|apply (stable_multiplicative_loop _ _ IH)
      |apply (stable_unary _ _ IH)|apply (stable_primary _ _ IH)]
  end.

Lemma parsers_stable n : ∀ m, (n <= m)%nat → stable_parsers n m.
Proof.
  induction n as [|n IHn]; intros m Hm; [split; intros; by intros []|]. destruct m as [|m]; [lia|]. specialize (IHn m ltac:(lia)).
  split; intros; cbn; repeat stable_step IHn.
Qed.

(** C32. The parser reads back every tree: for a tree of the grammar whose
    numbers are the values of their texts, parsing the text that [print]
    writes, with parentheses only where precedence and associativity need
    them, gives the same tree. *)
Theorem iexpr_roundtrip (e : IExpr) : wf_expr e → printable e → parseIExpression (print e) = Ok (Some e, "").
Proof.
  intros Hw Hp. destruct (toks_parse e) as [He _]. specialize (He Hw 0%nat ltac:(lia)).
  pose proof (lexes_text _ (toks_lexable e (wf_condition_expr _ Hw) Hp 0%nat)) as Hl. fold (print e) in Hl.
  assert (str_empty (print e) = false) as Hne.
  { destruct (print e) eqn:E; [|done]. destruct (toks 0 e) as [|t ts] eqn:Et.
    - exfalso. revert Et. clear. unfold print. destruct e; cbn; repeat (destruct (_ || _)); try done;
        intros H; by apply app_nil in H as [_ ?].
    - destruct Hl as (s' & Hl & _). exfalso. revert E. unfold print. rewrite Et. cbn. by destruct (tok_text t). }
  destruct (He (lex_next (print e)) []) as (st' & k & Hend & Hf); [|by repeat split|].
  { rewrite app_nil_r. by apply at_lexed. }
  pose proof (parsers_stable (parse_fuel (print e)) (k + parse_fuel (print e)) ltac:(lia)) as Hs.
  pose proof (parseExpression_total (print e)) as Htot.
  unfold parseIExpression. rewrite Hne. unfold parseExpression in *.
  assert (parseExpr (parse_fuel (print e)) (lex_next (print e)) = Parsed (e, st')) as ->.
  { rewrite <- (Hf (k + parse_fuel (print e))%nat) by lia. symmetry. apply (stable_expr _ _ Hs).
    intros H. by rewrite H in Htot. }
  cbn. by rewrite bool_decide_eq_true_2.
Qed.

Lemma iexpr_roundtrip_witness :
  let e := IExprIf (IExprCompare CmpGe (IExprField 1) (IExprNumber (d_of_Z 10)))
    (IExprBinary "*" (IExprBinary "-" (IExprField 2) (IExprBinary "+" (IExprField 3) (IExprField 26)))
       (IExprUnary "-" (IExprNumber (d_div (d_of_Z 1) (d_of_Z 4)))))
    (IExprCall Oconv (IExprField 2) (IExprString (String DQUOTE "M\D2"))) in
  parseIExpression (print e) = Ok (Some e, "").
Proof.
  intros e. apply (iexpr_roundtrip e).
  - by vm_compute.
  - assert (∀ d, number_chars false (num_text d) = (num_text d, "") →
      match strtod (num_text d) with Some (d', _, "") => d' = d | _ => False end → number_ok d) as Hok.
    { intros d H1 H2. split; [done|]. destruct (strtod (num_text d)) as [[[d' b] [|]]|]; [|done..]. exists b. by subst d'. }
    cbn [printable e]. split; [split; [done|apply Hok; by vm_compute]|].
    split; [split; [by split|apply Hok; by vm_compute]|by split].
Defined.

(** ** The evaluator's error contract *)

(** A caller sees either a value and no message, or no value and a message;
    for a tree that the parser built ([strict]) the message is never the one
    for a malformed tree. *)
Definition honest {A} (strict : Prop) (m : ev A) : Prop := ∀ o err, m "" = Ok (o, err) →
  match o with Some _ => err = "" | None => err ≠ "" ∧ (strict → err ≠ invalid_expression) end.

Lemma honest_ret {A} strict (a : A) : honest strict (mret a).
Proof. by intros o err [= <- <-]. Qed.

Lemma honest_fail {A} strict s : s ≠ "" → (strict → s ≠ invalid_expression) → honest (A:=A) strict (ev_fail s).
Proof. by intros ?? o err [= <- <-]. Qed.

Lemma honest_lift {A} strict (m : outcome A) : honest strict (ev_lift m).
Proof. intros o err (a & _ & [= <- <-])%outcome_bind_inv. done. Qed.

Lemma honest_bind {A B} strict (m : ev A) (f : A → ev B) :
  honest strict m → (∀ a, honest strict (f a)) → honest strict (m ≫= f).
Proof.
  intros Hm Hf o err. unfold mbind, ev_bind. destruct (m "") as [[[a|] err1]|e|w] eqn:E; try done.
  - pose proof (Hm _ _ E) as H1. cbn in H1. subst err1. apply Hf.
  - intros [= <- <-]. exact (Hm _ _ E).
Qed.

Lemma honest_weaken {A} (P Q : Prop) (m : ev A) : (Q → P) → honest P m → honest Q m.
Proof. intros H Hm o err E. specialize (Hm o err E). destruct o; [done|]. naive_solver. Qed.

Lemma honest_numeric strict v : honest strict (numeric_of v).
Proof.
  destruct v as [d|t]; [apply honest_ret|]. cbn. destruct (tryCoerceNumeric t); [apply honest_ret|by apply honest_fail].
Qed.

Lemma honest_binary op l r : honest (arith_op op = true) (eval_binary op l r).
Proof.
  unfold eval_binary, arith_op.
  destruct (Ascii.eqb op "+"); [apply honest_ret|]. destruct (Ascii.eqb op "-"); [apply honest_ret|].
  destruct (Ascii.eqb op "*"); [apply honest_ret|]. destruct (Ascii.eqb op "/"); [|by apply honest_fail].
  destruct (d_eqb r d_zero); [by apply honest_fail|apply honest_ret].
Qed.

Lemma honest_conv strict k input code :
  honest strict ((λ _, match k with Oconv => oconvOutput input code | Iconv => iconvOutput input code end) : ev string).
Proof.
  intros o err. destruct k.
  - unfold iconvOutput. intros (out & _ & H)%outcome_bind_inv. destruct out; [by injection H as <- <-|].
    case_bool_decide; injection H as <- <-; by split.
  - unfold oconvOutput. intros (out & _ & H)%outcome_bind_inv. destruct out; by injection H as <- <-.
Qed.

Lemma honest_if strict (mc : ev bool) (ma mb : ev EvalValue) : honest strict mc → honest strict ma → honest strict mb →
  honest strict (λ err, '(truth, err') ← condition_result mc err;
    if negb (str_empty err') then Ok (None, err') else if truth : bool then ma err' else mb err').
Proof.
  intros Hc Ha Hb o err. unfold condition_result. destruct (mc "") as [[[t|] err1]|e|w] eqn:E; try done.
  - pose proof (Hc _ _ E) as H1. cbn in H1. subst err1. cbn. destruct t; [apply Ha|apply Hb].
  - pose proof (Hc _ _ E) as [H1 H2]. cbn. destruct err1; [done|]. cbn. by intros [= <- <-].
Qed.

Lemma evaluateValue_if r c a b : evaluateValue r (IExprIf c a b) = λ err,
  '(truth, err') ← condition_result (evaluateCondition r c) err;
  if negb (str_empty err') then Ok (None, err')
  else if truth : bool then evaluateValue r a err' else evaluateValue r b err'.
Proof. by destruct c. Qed.

Lemma evaluateValue_honest r e :
  honest (wf_expr e) (evaluateValue r e) ∧ honest (wf_condition e) (evaluateCondition r e).
Proof.
  assert (∀ e, (∀ op a b, e ≠ IExprCompare op a b) → honest (wf_expr e) (evaluateValue r e) →
    honest (wf_condition e) (evaluateCondition r e)) as Hc.
  { clear e. intros e Hne He.
    assert (honest (wf_expr e) (v ← evaluateValue r e; d ← numeric_of v; mret (negb (d_eqb d d_zero)))) as H.
    { apply honest_bind; [done|]. intros v. apply honest_bind; [apply honest_numeric|]. intros d. apply honest_ret. }
    destruct e; try exact H. exfalso. by eapply Hne. }
  induction e as [d|s|n|op x [IHx _]|op a [IHa _] b [IHb _]|op a [IHa _] b [IHb _]|c [_ IHc] a [IHa _] b [IHb _]|k v [IHv _] c [IHc _]].
  1-5, 7-8: match goal with |- ?A ∧ honest (wf_condition ?e) _ => assert A as HA; [|split; [exact HA|by apply (Hc e)]] end.
  - apply honest_ret.
  - apply honest_ret.
  - apply honest_ret.
  - apply honest_bind; [eapply honest_weaken; [|exact IHx]; by intros []|]. intros v.
    apply honest_bind; [apply honest_numeric|]. intros d. apply honest_ret.
  - apply honest_bind; [eapply honest_weaken; [|exact IHa]; by intros (_ & ? & _)|]. intros va.
    apply honest_bind; [apply honest_numeric|]. intros x.
    apply honest_bind; [eapply honest_weaken; [|exact IHb]; by intros (_ & _ & ?)|]. intros vb.
    apply honest_bind; [apply honest_numeric|]. intros y.
    eapply honest_weaken; [|apply honest_binary]. by intros [].
  - rewrite evaluateValue_if. apply honest_if.
    + eapply honest_weaken; [|exact IHc]. intros [H _]. by destruct c.
    + eapply honest_weaken; [|exact IHa]. by intros (_ & ? & _).
    + eapply honest_weaken; [|exact IHb]. by intros (_ & _ & ?).
  - apply honest_bind; [eapply honest_weaken; [|exact IHv]; by intros []|]. intros va.
    apply honest_bind; [apply honest_lift|]. intros input.
    apply honest_bind; [eapply honest_weaken; [|exact IHc]; by intros []|]. intros vc.
    apply honest_bind; [apply honest_lift|]. intros cd.
    apply honest_bind; [apply honest_conv|]. intros s. apply honest_ret.
  - split; [by apply honest_fail|]. cbn.
    apply honest_bind; [eapply honest_weaken; [|exact IHa]; by intros []|]. intros vx.
    apply honest_bind; [eapply honest_weaken; [|exact IHb]; by intros []|]. intros vy. apply honest_lift.
Qed.

(** The evaluator's two results agree: there is a value exactly when there
    is no error message, so the IF case, which looks at the message only, never
    mistakes a failed condition for a false one. And a tree that the parser
    accepted never evaluates to "I-type: invalid expression". *)
Theorem evaluation_error_contract (e : IExpr) (r : StructuredRecord) (o : option string) (err : string) :
  evaluateExpression e r = Ok (o, err) →
  (is_Some o ↔ err = "") ∧
  (∀ source, parseIExpression source = Ok (Some e, "") → err ≠ invalid_expression).
Proof.
  intros H. assert (honest (wf_expr e) (v ← evaluateValue r e; ev_lift (value_text v))) as Hh.
  { apply honest_bind; [apply evaluateValue_honest|]. intros v. apply honest_lift. }
  specialize (Hh o err H). split.
  - destruct o; [by subst err|]. destruct Hh. split; [by intros []|done].
  - intros source Hs. assert (wf_expr e) as Hw.
    { destruct (parse_result source) as [(e' & He & Hw)|He]; rewrite He in Hs; [by injection Hs as ->|done]. }
    destruct o; [by subst err|]. apply Hh, Hw.
Qed.

Lemma evaluation_error_contract_witness :
  let r := fromRaw "ten" in
  let e := IExprIf (IExprCompare CmpGt (IExprUnary "-" (IExprField 1)) (IExprField 1)) (IExprString "Y") (IExprString "N") in
  evaluateExpression e r = Ok (None, "I-type: type mismatch") ∧ ¬ is_Some (None : option string).
Proof.
  intros r e. assert (evaluateExpression e r = Ok (None, "I-type: type mismatch")) as H by (vm_compute; reflexivity).
  split; [exact H|]. intros Hs. destruct (evaluation_error_contract e r _ _ H) as [Hi _]. apply Hi in Hs. done.
Defined.

(** An accepted F-type definition never fails as invalid: the F-type parser accepts only positive attribute and value numbers, so
    evaluating an accepted item on a record that has the attribute gives the
    left or right end of its values, the value with the number, or the OCONV of
    its first value, whose only error is an unsupported conversion code. *)
Theorem f_item_evaluation (item r : StructuredRecord) (def : FCorrelativeDef) (err : string) :
  parseFItem item = Ok (Some def, err) → hasAttribute r (sourceAttributeNo def) = true →
  let values := splitValues (attribute r (sourceAttributeNo def)) in
  evaluateF def r =
    match selectorKind def with
    | Leftmost => Ok (head values, "")
    | Rightmost => Ok (last values, "")
    | ValueIndex => Ok (Some (default "" (values !! Z.to_nat (valueIndex def - 1))), "")
    | ConversionRaw => oconvOutput (default "" (head values)) (trimmed (firstValue (attribute item 3)))
    end ∧
  1 <= sourceAttributeNo def ∧ (selectorKind def = ValueIndex → 1 <= valueIndex def).
Proof.
  intros Hp Ha values.
  assert (∀ s n, parsePositiveInt s = Ok (Some n) → 1 <= n) as Hpos.
  { intros s n. unfold parsePositiveInt. destruct (_ || _); [done|]. destruct (stoi s) as [[v x]| |]; try done.
    cbn. destruct (Z.leb_spec v 0); [done|]. intros [= <-]. lia. }
  assert (1 <= sourceAttributeNo def ∧ tailRaw def = trimmed (firstValue (attribute item 3)) ∧
    (selectorKind def = ValueIndex → 1 <= valueIndex def)) as (Hn & Ht & Hv).
  { unfold parseFItem in Hp. destruct (negb _); [done|]. destruct (str_empty (trimmed _)); [done|].
    apply outcome_bind_inv in Hp as ([n|] & Hn & Hp); [apply Hpos in Hn|done]. destruct (str_empty (trimmed _)); [done|].
    destruct (String.eqb _ "L"); [by injection Hp as <- _|]. destruct (String.eqb _ "R"); [by injection Hp as <- _|].
    apply outcome_bind_inv in Hp as ([k|] & Hk & Hp); injection Hp as <- _; cbn; [|done].
    apply Hpos in Hk. done. }
  split; [|done]. unfold evaluateF. rewrite Ha. cbn [negb]. cbv zeta. rewrite Ht.
  assert (∃ v l, splitValues (attribute r (sourceAttributeNo def)) = v :: l) as (v & l & Hvl).
  { pose proof (splitValues_loop_nonempty "" (raw (attribute r (sourceAttributeNo def)))).
    unfold splitValues. destruct (splitValues_loop _ _); [done|by eexists _, _]. }
  assert (firstValue (attribute r (sourceAttributeNo def)) = v) as Hf.
  { unfold firstValue, valueAt. cbn. by rewrite Hvl. }
  rewrite Hf. unfold values. destruct (selectorKind def) eqn:Ek; cbn [head].
  - specialize (Hv eq_refl). unfold valueAt. rewrite (proj2 (Z.leb_gt _ 0)) by lia. by destruct (_ !! _).
  - by rewrite Hvl.
  - rewrite Hvl. destruct (last (v :: l)) eqn:E; [done|]. by apply last_None in E.
  - by rewrite Hvl.
Qed.

Lemma f_item_evaluation_witness :
  let item := fromRaw ("F" +:+ String NL ("2" +:+ String NL "r")) in
  let r := fromRaw ("1" +:+ String NL ("a" +:+ String kValueMark "b")) in
  evaluateF (mkFDef 2 "r" Rightmost 0) r = Ok (Some "b", "") ∧ 1 <= 2.
Proof.
  intros item r. destruct (f_item_evaluation item r (mkFDef 2 "r" Rightmost 0) "") as (H & Hn & _); [by vm_compute..|].
  split; [rewrite H; by vm_compute|exact Hn].
Defined.
