(* ===== verification/Dict.v ===== *)
(** * Dictionaries

    [src/core/english/DictionaryResolver.cpp] (a field name to what it denotes),
    [DictItemClassifier.cpp] (validity of a dictionary record), the field part
    of [EnglishTypes.h], and [CorrelativeEvaluator::evaluateFieldCell].

    A dictionary is a Pick file of items A (attribute), F and I (correlatives)
    and S (synonym); the resolver looks a name up in the data file's own
    dictionary [DICT-<file>] and then in the global [DICT], and follows synonyms
    at most 17 items deep. *)

From Stdlib Require Import Ascii String.
From S2P Require Import Prelude CLib Dbl Records Locks FileSys Conv Correl.
From stdpp Require Import options.
Local Open Scope Z_scope.

(* src/core/english/EnglishTypes.h:12-16 [DictFieldKind] *)
Inductive DictFieldKind := AttributeField | FCorrelativeField | ICorrelativeField.

#[global] Instance DictFieldKind_eq_dec : EqDecision DictFieldKind.
Proof. solve_decision. Defined.

(* src/core/english/EnglishTypes.h:24-29 [ConversionCode] *)
Inductive ConversionCode := ConvNone | ConvD | ConvMD | ConvMC.

#[global] Instance ConversionCode_eq_dec : EqDecision ConversionCode.
Proof. solve_decision. Defined.

(* src/core/english/EnglishTypes.h:60-69 [FieldRef] *)
Record FieldRef := mkFieldRef {
  token : string;
  fkind : DictFieldKind;
  attributeNo : option Z;
  conversion : ConversionCode;
  fCorrelative : option FCorrelativeDef;
  iCorrelative : option ICorrelativeDef
}.

#[global] Instance FieldRef_eq_dec : EqDecision FieldRef.
Proof. solve_decision. Defined.

(** A parsed I definition always has its expression. *)
(* src/core/english/EnglishTypes.h:71-79 [fieldRefIsResolved] *)
Definition fieldRefIsResolved (ref : FieldRef) : bool :=
  match fkind ref with
  | FCorrelativeField => bool_decide (is_Some (fCorrelative ref))
  | ICorrelativeField => bool_decide (is_Some (iCorrelative ref))
  | AttributeField => bool_decide (is_Some (attributeNo ref))
  end.

(* src/core/english/correlatives/CorrelativeEvaluator.cpp:56-86 [CorrelativeEvaluator::evaluateFieldCell] *)
Definition evaluateFieldCell (ref : FieldRef) (r : StructuredRecord) : outcome string :=
  match fkind ref with
  | FCorrelativeField =>
      match fCorrelative ref with
      | None => Ok ""
      | Some def => '(v, _) ← evaluateF def r; Ok (default "" v)
      end
  | ICorrelativeField =>
      match iCorrelative ref with
      | None => Ok ""
      | Some def => '(v, _) ← evaluateI def r; Ok (default "" v)
      end
  | AttributeField =>
      match attributeNo ref with
      | None => Ok ""
      | Some n => Ok (firstValue (attribute r n))
      end
  end.

(** ** The resolver *)

(* src/core/english/DictionaryResolver.cpp:28-39 [startsWithIc] *)
Definition startsWithIc (hay needle : string) : bool :=
  starts_with (str_map tolower needle) (str_map tolower hay).

(* src/core/english/DictionaryResolver.cpp:41-56 [trimmedUpper] *)
Definition trimmedUpper (s : string) : string := str_map toupper (trim_by isspace s).

(** The first of the attributes [ais] with a known conversion code. *)
(* src/core/english/DictionaryResolver.cpp:58-76 [classifyFromAttrs] *)
Fixpoint classify_cells (ais : list Z) (attrs : StructuredRecord) : ConversionCode :=
  match ais with
  | [] => ConvNone
  | ai :: ais' =>
      let cell := firstValue (attribute attrs ai) in
      if str_empty cell then classify_cells ais' attrs
      else
        let u := trimmedUpper cell in
        if startsWithIc u "MD" then ConvMD
        else if startsWithIc u "MC" then ConvMC
        else if startsWithIc u "D" then ConvD
        else classify_cells ais' attrs
  end.

(* src/core/english/DictionaryResolver.cpp:58-76 [classifyFromAttrs] *)
Definition classifyFromAttrs (attrs : StructuredRecord) : ConversionCode := classify_cells [10; 9; 8; 7] attrs.

(* src/core/english/DictionaryResolver.cpp:97-106 [makeAttributeRef] *)
Definition makeAttributeRef (t : string) (attrNum : option Z) (conv : ConversionCode) : FieldRef :=
  mkFieldRef t AttributeField attrNum conv None None.

(* src/core/english/DictionaryResolver.cpp:108-110 [makeUnresolvedRef] *)
Definition makeUnresolvedRef (t : string) : FieldRef := makeAttributeRef t None ConvNone.

(* src/core/english/DictionaryResolver.cpp:112-146 [fieldFromStructuredDict] *)
Definition fieldFromStructuredDict (attrs : StructuredRecord) (originalToken : string) : outcome (option FieldRef) :=
  let type := firstValue (attribute attrs 1) in
  if is_type type "A" then
    attrNum ← parsePositiveInt (firstValue (attribute attrs 2));
    Ok (Some (makeAttributeRef originalToken attrNum (classifyFromAttrs attrs)))
  else if is_type type "F" then
    '(def, _) ← parseFItem attrs;
    Ok (option_map (λ d, mkFieldRef originalToken FCorrelativeField None ConvNone (Some d) None) def)
  else if is_type type "I" then
    '(def, _) ← parseIItem attrs;
    Ok (option_map (λ d, mkFieldRef originalToken ICorrelativeField None ConvNone None (Some d)) def)
  else if is_type type "S" then Ok None
  else Ok (Some (makeUnresolvedRef originalToken)).

(* src/core/english/DictionaryResolver.cpp:199-201 [DictionaryResolver::scopedDictLogicalName] *)
Definition scopedDictLogicalName (dataFileName : string) : string := "DICT-" +:+ dataFileName.

(** [catch (const PickFS::FileSystemError &)] *)
Definition on_fs_error {S A} (m : proc S A) (h : proc S A) : proc S A :=
  try_catch m (λ e, match e with FileSystemError _ => Some h | _ => None end).

Section resolver.
Context (host : HostFs) (fs : FileSystem).

(* src/core/english/DictionaryResolver.cpp:78-86 [tryReadDictRecord] *)
Definition tryReadDictRecord (dictLogicalFile t : string) : proc World (option PickRecord) :=
  on_fs_error (read host fs dictLogicalFile t) (mret None).

(* src/core/english/DictionaryResolver.cpp:88-95 [logicalFileExists] *)
Definition logicalFileExists (logicalName : string) : proc World bool :=
  on_fs_error (openFile host fs logicalName;; mret true) (mret false).

(* src/core/english/DictionaryResolver.cpp:160-169 [resolveFieldRec] *)
Definition scoped_lookup (dataFileName t : string) : proc World (option PickRecord) :=
  if str_empty dataFileName then mret None
  else
    let scopedName := scopedDictLogicalName dataFileName in
    there ← logicalFileExists scopedName;
    if there : bool then tryReadDictRecord scopedName t else mret None.

(** [levels] is 17 - [depth]: at depth 17 the code gives up. *)
(* src/core/english/DictionaryResolver.cpp:148-196 [resolveFieldRec] *)
Fixpoint resolveFieldRec (levels : nat) (originalToken lookupToken dataFileName : string)
    : proc World (option FieldRef) :=
  match levels with
  | O => mret None
  | S levels' =>
      numeric ← lift (parsePositiveInt lookupToken);
      match numeric with
      | Some n => mret (Some (makeAttributeRef originalToken (Some n) ConvNone))
      | None =>
          scoped ← scoped_lookup dataFileName lookupToken;
          global ← tryReadDictRecord "DICT" lookupToken;
          match (match scoped with Some r => Some r | None => global end) with
          | None => mret None
          | Some chosen =>
              let s := structured chosen in
              if is_type (firstValue (attribute s 1)) "S" then
                let target := firstValue (attribute s 2) in
                if str_empty target then mret (Some (makeUnresolvedRef originalToken))
                else resolveFieldRec levels' originalToken target dataFileName
              else
                f ← lift (fieldFromStructuredDict s originalToken);
                mret (Some (default (makeUnresolvedRef originalToken) f))
          end
      end
  end.

(* src/core/english/DictionaryResolver.cpp:248-255 [DictionaryResolver::resolveField] *)
Definition resolveField (dataFileName t : string) : proc World FieldRef :=
  r ← resolveFieldRec 17 t t dataFileName;
  mret (default (makeUnresolvedRef t) r).

(* src/core/english/DictionaryResolver.cpp:257-266 [DictionaryResolver::resolveFields] *)
Fixpoint resolveFields (fileName : string) (fields : list string) : proc World (list FieldRef) :=
  match fields with
  | [] => mret []
  | f :: fields' => r ← resolveField fileName f; rs ← resolveFields fileName fields'; mret (r :: rs)
  end.
End resolver.

(* src/core/english/DictionaryResolver.cpp:203-215 [DictionaryResolver::describeConversion] *)
Definition describeConversion (ref : FieldRef) : string :=
  match conversion ref with ConvD => "D" | ConvMD => "MD" | ConvMC => "MC" | ConvNone => "none" end.

(* src/core/english/DictionaryResolver.cpp:217-228 [DictionaryResolver::describeFieldKind] *)
Definition describeFieldKind (ref : FieldRef) : string :=
  match fkind ref with
  | FCorrelativeField => "F"
  | ICorrelativeField => "I"
  | AttributeField => match attributeNo ref with Some _ => "A" | None => "unknown" end
  end.

(* src/core/english/DictionaryResolver.cpp:234-246 [DictionaryResolver::describeFSelector] *)
Definition describeFSelector (def : FCorrelativeDef) : string :=
  match selectorKind def with
  | ValueIndex => "value " +:+ to_string (valueIndex def)
  | Leftmost => "leftmost (L)"
  | Rightmost => "rightmost (R)"
  | ConversionRaw => "conversion OCONV " +:+ String DQUOTE (tailRaw def +:+ String DQUOTE "")
  end.

(** ** The classifier *)

(* src/core/english/DictItemClassifier.h:9-13 [DictItemSummary] *)
Record DictItemSummary := mkSummary { typeLabel : string; valid : bool; serror : string }.

(* src/core/english/DictItemClassifier.cpp:39-45 [invalidSummary] *)
Definition invalidSummary (error : string) : DictItemSummary := mkSummary "INVALID" false error.

(** The summary after a parser's result: valid without a message, or its message. *)
Definition parsed_summary {A} (label : string) (p : outcome (option A * string)) : outcome DictItemSummary :=
  '(def, parseError) ← p;
  Ok (match def with Some _ => mkSummary label true "" | None => mkSummary label false parseError end).

(* src/core/english/DictItemClassifier.cpp:48-101 [DictItemClassifier::classify] *)
Definition classify (attrs : StructuredRecord) : outcome DictItemSummary :=
  let type := trim_by isspace (firstValue (attribute attrs 1)) in
  if str_empty type then Ok (invalidSummary "Invalid DICT item: missing type code")
  else if is_type type "A" then
    n ← parsePositiveInt (trim_by isspace (firstValue (attribute attrs 2)));
    Ok (match n with
        | Some _ => mkSummary "A" true ""
        | None => mkSummary "A" false "Invalid A-type DICT item: bad attribute number"
        end)
  else if is_type type "S" then
    Ok (if str_empty (trim_by isspace (firstValue (attribute attrs 2)))
        then mkSummary "S" false "Invalid S-type DICT item: missing synonym target"
        else mkSummary "S" true "")
  else if is_type type "F" then parsed_summary "F" (parseFItem attrs)
  else if is_type type "I" then parsed_summary "I" (parseIItem attrs)
  else Ok (invalidSummary ("Invalid DICT item: unknown type code " +:+ String DQUOTE (type +:+ String DQUOTE ""))).

(** ** Synonyms *)

(** A method that only looks. *)
Definition still {S A} (m : proc S A) : Prop := ∀ s, (m s).2 = s.

Lemma still_ret {S A} (a : A) : still (S:=S) (mret a).
Proof. done. Qed.

Lemma still_throw {S A} e : still (S:=S) (A:=A) (throw e).
Proof. done. Qed.

Lemma still_lift {S A} (m : outcome A) : still (S:=S) (lift m).
Proof. done. Qed.

Lemma still_bind {S A B} (m : proc S A) (f : A → proc S B) : still m → (∀ a, still (f a)) → still (m ≫= f).
Proof.
  intros Hm Hf s. unfold mbind, proc_bind. specialize (Hm s). destruct (m s) as [[] s']; cbn in *; subst; [apply Hf|done..].
Qed.

Lemma still_on_fs_error {S A} (m h : proc S A) : still m → still h → still (on_fs_error m h).
Proof.
  intros Hm Hh s. unfold on_fs_error, try_catch. specialize (Hm s). destruct (m s) as [[|e|] s']; cbn in *; subst; [done| |done].
  by destruct e.
Qed.

#[export] Hint Resolve still_ret still_throw still_lift still_bind still_on_fs_error : gemini.

Lemma inspectFile_still host n p : still (inspectFile host n p).
Proof. intros w. unfold inspectFile. by repeat case_match. Qed.

Lemma openFile_still host fs n : still (openFile host fs n).
Proof.
  unfold openFile. destruct (negb _); [apply still_throw|]. apply still_bind; [apply still_lift|]. intros p.
  apply still_bind; [apply inspectFile_still|]. intros []. apply still_ret.
Qed.

Lemma read_still host fs f r : still (read host fs f r).
Proof.
  unfold read. apply still_bind; [apply openFile_still|]. intros h. unfold readRecord.
  destruct (negb _); [apply still_throw|]. apply still_bind.
  { unfold assertRecordAccessible. destruct (negb _); [apply still_ret|]. intros w. by repeat case_match. }
  intros []. intros w. unfold act. by repeat case_match.
Qed.

#[export] Hint Resolve inspectFile_still openFile_still read_still : gemini.

Section synonyms.
Context (host : HostFs) (fs : FileSystem) (dataFileName : string).

(** The item that the resolver finds for a name: the data file's dictionary
    comes before the global one. *)
Definition dict_item (t : string) : proc World (option PickRecord) :=
  scoped ← scoped_lookup host fs dataFileName t;
  global ← tryReadDictRecord host fs "DICT" t;
  mret (match scoped with Some r => Some r | None => global end).

Lemma scoped_lookup_still t : still (scoped_lookup host fs dataFileName t).
Proof.
  unfold scoped_lookup. destruct (str_empty _); [apply still_ret|]. apply still_bind.
  { unfold logicalFileExists. eauto with gemini. }
  intros []; [unfold tryReadDictRecord|]; eauto with gemini.
Qed.

Lemma dict_item_still t : still (dict_item t).
Proof.
  unfold dict_item. apply still_bind; [apply scoped_lookup_still|]. intros s.
  apply still_bind; [unfold tryReadDictRecord; eauto with gemini|]. intros g. apply still_ret.
Qed.

Definition is_synonym (rec : PickRecord) : bool :=
  is_type (firstValue (attribute (structured rec) 1)) "S" &&
  negb (str_empty (firstValue (attribute (structured rec) 2))).

(** What one level of the resolver does with the item it found. *)
Definition resolve_item (levels : nat) (orig : string) (o : option PickRecord) : proc World (option FieldRef) :=
  match o with
  | None => mret None
  | Some chosen =>
      let s := structured chosen in
      if is_type (firstValue (attribute s 1)) "S" then
        let target := firstValue (attribute s 2) in
        if str_empty target then mret (Some (makeUnresolvedRef orig))
        else resolveFieldRec host fs levels orig target dataFileName
      else f ← lift (fieldFromStructuredDict s orig); mret (Some (default (makeUnresolvedRef orig) f))
  end.

Lemma resolve_step levels orig t w o : parsePositiveInt t = Ok None → (dict_item t w).1 = Ok o →
  resolveFieldRec host fs (S levels) orig t dataFileName w = resolve_item levels orig o w.
Proof.
  intros Hp Hi. pose proof (dict_item_still t w) as Hs. cbn [resolveFieldRec]. rewrite Hp.
  unfold dict_item, lift, mbind, proc_bind in *. cbn [mret proc_ret].
  destruct (scoped_lookup host fs dataFileName t w) as [[s| |] w1]; cbn beta iota delta [fst snd] in Hi, Hs; try done.
  destruct (tryReadDictRecord host fs "DICT" t w1) as [[g| |] w2]; cbn beta iota delta [fst snd] in Hi, Hs; try done.
  injection Hi as <-. change (w2 = w) in Hs. by subst w2.
Qed.

(** [synonym_path w n t u]: in [w], [n] synonym items lead from the name [t] to [u]. *)
Inductive synonym_path (w : World) : nat → string → string → Prop :=
| path_here t : synonym_path w 0 t t
| path_step n t rec u : parsePositiveInt t = Ok None → (dict_item t w).1 = Ok (Some rec) → is_synonym rec = true →
    synonym_path w n (firstValue (attribute (structured rec) 2)) u → synonym_path w (S n) t u.

Lemma resolve_path w n t u : synonym_path w n t u → ∀ m orig,
  resolveFieldRec host fs (n + m) orig t dataFileName w = resolveFieldRec host fs m orig u dataFileName w.
Proof.
  induction 1 as [t|n t rec u Hp Hi Hs Hpath IH]; intros m orig; [done|].
  cbn [Nat.add]. rewrite (resolve_step _ _ _ _ _ Hp Hi). unfold resolve_item.
  apply andb_true_iff in Hs as [-> Hne%negb_true_iff]. cbv zeta. rewrite Hne. apply IH.
Qed.

Definition with_token (t : string) (r : FieldRef) : FieldRef :=
  mkFieldRef t (fkind r) (attributeNo r) (conversion r) (fCorrelative r) (iCorrelative r).

Lemma fieldFromStructuredDict_token s t t' :
  fieldFromStructuredDict s t = option_map (with_token t) <$> fieldFromStructuredDict s t'.
Proof.
  unfold fieldFromStructuredDict. repeat case_match; try done.
  - by destruct (parsePositiveInt _).
  - by destruct (parseFItem s) as [[[] ?]| |].
  - by destruct (parseIItem s) as [[[] ?]| |].
Qed.

(** A name that is not a synonym in [w]. *)
Definition end_of_path (w : World) (u : string) : Prop :=
  ∃ p, parsePositiveInt u = Ok p ∧
    (p = None → ∃ o, (dict_item u w).1 = Ok o ∧ ∀ rec, o = Some rec → is_synonym rec = false).

Lemma resolve_end w u levels orig : end_of_path w u →
  resolveFieldRec host fs (S levels) orig u dataFileName w =
    (option_map (with_token orig) <$> (resolveFieldRec host fs 17 u u dataFileName w).1, w).
Proof.
  intros ([n|] & Hp & Hend).
  - cbn [resolveFieldRec]. unfold lift, mbind, proc_bind. by rewrite Hp.
  - destruct (Hend eq_refl) as (o & Ho & Hs). rewrite !(resolve_step _ _ _ _ _ Hp Ho). unfold resolve_item.
    destruct o as [rec|]; [|done]. specialize (Hs rec eq_refl). unfold is_synonym in Hs.
    destruct (is_type _ "S"); cbv zeta.
    + cbn [andb] in Hs. apply negb_false_iff in Hs. by rewrite Hs.
    + unfold lift, mbind, proc_bind. rewrite (fieldFromStructuredDict_token _ orig u).
      by destruct (fieldFromStructuredDict (structured rec) u) as [[]| |].
Qed.

(** Synonyms: a name that leads through at most 16 synonym items to a name
    that is not a synonym denotes the same field as that name (under the name
    that was asked for); a name that leads through 17 items, in particular a
    synonym of itself, is unresolved. In both cases the store is not changed. *)
Theorem synonyms_resolve (w : World) (n : nat) (t u : string) : synonym_path w n t u →
  ((n <= 16)%nat → end_of_path w u →
     resolveField host fs dataFileName t w = (with_token t <$> (resolveField host fs dataFileName u w).1, w)) ∧
  (n = 17%nat → resolveField host fs dataFileName t w = (Ok (makeUnresolvedRef t), w)).
Proof.
  intros Hpath. split.
  - intros Hn Hu. assert (17 = n + S (16 - n))%nat as E by lia.
    unfold resolveField at 1. unfold mbind, proc_bind. rewrite E, (resolve_path _ _ _ _ Hpath), resolve_end by done.
    unfold resolveField, mbind, proc_bind.
    by destruct (resolveFieldRec host fs 17 u u dataFileName w) as [[[]| |] ?].
  - intros ->. pose proof (resolve_path _ _ _ _ Hpath 0 t) as H. cbn [Nat.add] in H.
    unfold resolveField, mbind, proc_bind. rewrite H. done.
Qed.
End synonyms.

(** A store with a global dictionary: AGE is attribute 3, YRS and YEARS are
    synonyms of it, LOOP is a synonym of itself. *)
Definition ex_dict : World := mkWorld
  {["root" := {["DICT" := NDir (<["AGE.item" := EFile ("A" +:+ String NL "3")]>
     (<["YRS.item" := EFile ("S" +:+ String NL "AGE")]> (<["YEARS.item" := EFile ("S" +:+ String NL "YRS")]>
     (<["LOOP.item" := EFile ("S" +:+ String NL "LOOP")]> ∅))))]}]} ∅ 0.

Definition ex_dict_fs : FileSystem := mkFs "root" false "".

Lemma ex_loop n : synonym_path ex_host ex_dict_fs "" ex_dict n "LOOP" "LOOP".
Proof.
  induction n as [|n IH]; [constructor|].
  eapply (path_step _ _ _ _ n "LOOP" (makeRecord "LOOP" ("S" +:+ String NL "LOOP"))); [by vm_compute|by vm_compute|by vm_compute|].
  exact IH.
Qed.

Lemma synonyms_resolve_witness :
  resolveField ex_host ex_dict_fs "" "YEARS" ex_dict = (Ok (makeAttributeRef "YEARS" (Some 3) ConvNone), ex_dict) ∧
  resolveField ex_host ex_dict_fs "" "LOOP" ex_dict = (Ok (makeUnresolvedRef "LOOP"), ex_dict).
Proof.
  split.
  - destruct (synonyms_resolve ex_host ex_dict_fs "" ex_dict 2 "YEARS" "AGE") as [H _].
    + eapply (path_step _ _ _ _ 1 "YEARS" (makeRecord "YEARS" ("S" +:+ String NL "YRS"))); [by vm_compute..|].
      eapply (path_step _ _ _ _ 0 "YRS" (makeRecord "YRS" ("S" +:+ String NL "AGE"))); [by vm_compute..|]. constructor.
    + rewrite H; [by vm_compute|lia|]. exists None. split; [by vm_compute|]. intros _.
      exists (Some (makeRecord "AGE" ("A" +:+ String NL "3"))). split; [by vm_compute|]. intros rec [= <-]. by vm_compute.
  - destruct (synonyms_resolve ex_host ex_dict_fs "" ex_dict 17 "LOOP" "LOOP" (ex_loop 17)) as [_ H]. by apply H.
Defined.
