(* ===== verification/Voc.v ===== *)
(** * The VOC

    [PickVoc::VocResolver]: the table of the VOC file's records, read on first use,
    and the two ways a name is looked up in it, for a verb and for the file a
    program or a script is in.  Both follow Q entries; a loop of Q entries names
    nothing. *)

From Stdlib Require Import Ascii String.
From S2P Require Import Prelude CLib Records Locks FileSys.
From stdpp Require Import options.
Local Open Scope Z_scope.

(* src/core/voc/VocResolver.h:26-33 [VocResolver::EntryType] *)
Inductive EntryType := TF | TQ | TV | TD | TA | TX.

#[global] Instance EntryType_eq_dec : EqDecision EntryType.
Proof. solve_decision. Defined.

(* src/core/voc/VocResolver.h:35-39 [VocResolver::VocEntry] *)
Record VocEntry := mkEntry { etype : EntryType; attribute2 : string; attribute3 : string }.

(* src/core/voc/VocResolver.h:21-24 [VocResolver::ProgramLocation] *)
Record ProgramLocation := mkLocation { fileName : string; recordKey : string }.

(** [vworld]: the store behind [fileSystem_]. *)
(* src/core/voc/VocResolver.h:57-58 [VocResolver] *)
Record VocResolver := mkVoc {
  table_ : gmap string VocEntry;
  loaded_ : bool;
  vworld : World
}.

Definition set_table (t : gmap string VocEntry) (v : VocResolver) : VocResolver := mkVoc t (loaded_ v) (vworld v).
Definition set_loaded (b : bool) (v : VocResolver) : VocResolver := mkVoc (table_ v) b (vworld v).
Definition on_store {A} (m : proc World A) : proc VocResolver A := zoom vworld (λ w v, mkVoc (table_ v) (loaded_ v) w) m.

(** ** The text of a VOC record *)

(* src/core/voc/VocResolver.cpp:141-146 [VocResolver::upperAscii] *)
Definition upperAscii (text : string) : string := str_map toupper text.

Fixpoint skip_digits (s : string) : bool * string :=
  match s with
  | String c s' => if isdigit c then (true, (skip_digits s').2) else (false, s)
  | "" => (false, "")
  end.

(** A line may start with the number of its attribute. *)
(* src/core/voc/VocResolver.cpp:161-173 [VocResolver::stripAttributeLinePrefix] *)
Definition stripAttributeLinePrefix (line : string) : string :=
  let '(numbered, rest) := skip_digits line in
  match rest with
  | String c _ => if numbered && isspace c then ltrim isspace rest else line
  | "" => line
  end.

(* src/core/voc/VocResolver.cpp:148-159 [VocResolver::parseAttributes] *)
Definition parseAttributes (value : string) : list string :=
  (stripAttributeLinePrefix <$> getlines NL value) ++
  match str_back value with Some c => if Ascii.eqb c NL then [""] else [] | None => [] end.

(* src/core/voc/VocResolver.cpp:175-206 [VocResolver::parseVocEntry] *)
Definition parseVocEntry (value : string) : option VocEntry :=
  let attrs := parseAttributes value in
  match attrs with
  | [] => None
  | a0 :: _ =>
      let type := upperAscii a0 in
      let a1 := default "" (attrs !! 1%nat) in
      let a2 := default "" (attrs !! 2%nat) in
      let needs_name t := if str_empty a1 then None else Some (mkEntry t a1 a2) in
      if String.eqb type "F" then needs_name TF
      else if String.eqb type "Q" then needs_name TQ
      else if String.eqb type "V" then Some (mkEntry TV a1 a2)
      else if String.eqb type "D" || String.eqb type "A" then needs_name (if String.eqb type "D" then TD else TA)
      else if String.eqb type "X" then Some (mkEntry TX a1 a2)
      else None
  end.

(** ** Lookups in the table *)

Section table.
Context (t : gmap string VocEntry).

Definition names_a_file (e : VocEntry) : bool := bool_decide (etype e = TF ∨ etype e = TD ∨ etype e = TA).

(** Every call that goes on has added a key of the table to [visited]: one call
    more than there are keys is enough. *)
Fixpoint resolve_from (fuel : nat) (vocKey : string) (visited : gset string) : option string :=
  match fuel with
  | O => None
  | S fuel' =>
      let normalized := upperAscii vocKey in
      if bool_decide (normalized ∈ visited) then None
      else match t !! normalized with
           | None => None
           | Some entry =>
               if names_a_file entry then if str_empty (attribute2 entry) then None else Some (attribute2 entry)
               else if bool_decide (etype entry = TQ)
               then if str_empty (attribute2 entry) then None
                    else resolve_from fuel' (attribute2 entry) ({[normalized]} ∪ visited)
               else None
           end
  end.

(* src/core/voc/VocResolver.cpp:208-232 [VocResolver::resolveFileFromVocKey] *)
Definition resolveFileFromVocKey (vocKey : string) (visited : gset string) : option string :=
  resolve_from (S (size t)) vocKey visited.

(* src/core/voc/VocResolver.cpp:42-79 [VocResolver::resolveVerbName] *)
Fixpoint verb_hops (hops : nat) (nextKey resolved : string) (visited : gset string) : string :=
  match hops with
  | O => resolved
  | S hops' =>
      if bool_decide (nextKey ∈ visited) then resolved
      else match t !! nextKey with
           | None => resolved
           | Some entry =>
               match etype entry with
               | TQ => if str_empty (attribute2 entry) then resolved
                       else verb_hops hops' (upperAscii (attribute2 entry)) resolved ({[nextKey]} ∪ visited)
               | TV | TX => if str_empty (attribute2 entry) then resolved
                            else verb_hops hops' (upperAscii (attribute2 entry)) (attribute2 entry) ({[nextKey]} ∪ visited)
               | TF | TD | TA => resolved
               end
           end
  end.

Definition verb_name (token : string) : string := verb_hops 64 (upperAscii token) token ∅.

(** The files that the entries name; the set is then sorted. *)
(* src/core/voc/VocResolver.cpp:81-103 [VocResolver::listProgramFiles] *)
Definition program_files : list string :=
  sorted_unique ("BP" :: omap (λ kv : string * VocEntry,
    if names_a_file kv.2 then if str_empty (attribute2 kv.2) then None else Some (attribute2 kv.2)
    else if bool_decide (etype kv.2 = TQ) then resolveFileFromVocKey kv.1 ∅ else None) (map_to_list t)).
End table.

(** ** The resolver *)

Section resolver.
Context (host : HostFs) (fileSystem_ : FileSystem).

(* src/core/voc/VocResolver.cpp:17-20 [VocResolver::invalidate] *)
Definition invalidate : proc VocResolver unit := modify (λ v, set_table ∅ (set_loaded false v)).

Fixpoint load_records (vocFile : FileHandle) (names : list string) : proc VocResolver unit :=
  match names with
  | [] => mret tt
  | recordName :: names' =>
      record ← on_store (readRecord host fileSystem_ vocFile recordName);
      match record with
      | None => mret tt
      | Some r =>
          match parseVocEntry (value r) with
          | None => mret tt
          | Some entry => modify (λ v, set_table (<[upperAscii recordName := entry]> (table_ v)) v)
          end
      end;;
      load_records vocFile names'
  end.

(* src/core/voc/VocResolver.cpp:118-139 [VocResolver::loadVocTable] *)
Definition loadVocTable : proc VocResolver unit :=
  modify (set_table ∅);;
  file ← try_catch (h ← on_store (openFile host fileSystem_ "VOC"); mret (Some h))
           (λ e, match e with FileSystemError _ => Some (mret None) | _ => None end);
  match file with
  | None => mret tt
  | Some vocFile => names ← on_store (listRecords host vocFile); load_records vocFile names
  end.

(* src/core/voc/VocResolver.cpp:110-116 [VocResolver::ensureLoaded] *)
Definition ensureLoaded : proc VocResolver unit :=
  l ← gets loaded_;
  if (l : bool) then mret tt else loadVocTable;; modify (set_loaded true).

Definition resolve_location (default_file name : string) : proc VocResolver ProgramLocation :=
  ensureLoaded;;
  t ← gets table_;
  mret (mkLocation (default default_file (resolveFileFromVocKey t name ∅)) name).

(* src/core/voc/VocResolver.cpp:22-30 [VocResolver::resolveProgramLocation] *)
Definition resolveProgramLocation (programName : string) : proc VocResolver ProgramLocation :=
  resolve_location "BP" programName.

(* src/core/voc/VocResolver.cpp:32-40 [VocResolver::resolveProcScriptLocation] *)
Definition resolveProcScriptLocation (scriptName : string) : proc VocResolver ProgramLocation :=
  resolve_location "PROC" scriptName.

Definition resolveVerbName (token : string) : proc VocResolver string :=
  ensureLoaded;; t ← gets table_; mret (verb_name t token).

(* src/core/voc/VocResolver.cpp:105-108 [VocResolver::table] *)
Definition table : proc VocResolver (gmap string VocEntry) := ensureLoaded;; gets table_.

Definition listProgramFiles : proc VocResolver (list string) :=
  ensureLoaded;; t ← gets table_; mret (program_files t).
End resolver.

(** ** What the lookups find *)

(** [names_file t k f]: following Q entries from [k] leads to an entry for the file [f]. *)
Inductive names_file (t : gmap string VocEntry) (k f : string) : Prop :=
| names_here e : t !! upperAscii k = Some e → names_a_file e = true → f ≠ "" → f = attribute2 e → names_file t k f
| names_there e : t !! upperAscii k = Some e → etype e = TQ → attribute2 e ≠ "" →
    names_file t (attribute2 e) f → names_file t k f.

Lemma str_empty_false s : str_empty s = false ↔ s ≠ "".
Proof. by destruct s. Qed.

Section lookups.
Context (t : gmap string VocEntry).

Lemma resolve_sound fuel k V f : resolve_from t fuel k V = Some f → names_file t k f.
Proof.
  revert k V. induction fuel as [|fuel IH]; intros k V; cbn [resolve_from]; [done|].
  destruct (bool_decide _); [done|]. destruct (t !! upperAscii k) as [e|] eqn:E; [|done].
  destruct (names_a_file e) eqn:Ef.
  - destruct (str_empty (attribute2 e)) eqn:Ea; [done|]. intros [= <-].
    apply (names_here _ _ _ e); [done..| |done]. by apply str_empty_false.
  - case_bool_decide as Eq; [|done]. destruct (str_empty (attribute2 e)) eqn:Ea; [done|]. intros H%IH.
    apply (names_there _ _ _ e); [done..| |done]. by apply str_empty_false.
Qed.

(** The same, with the number of Q entries on the way. *)
Inductive file_after : nat → string → string → Prop :=
| after_here k f e : t !! upperAscii k = Some e → names_a_file e = true → f ≠ "" → f = attribute2 e → file_after 0 k f
| after_there n k f e : t !! upperAscii k = Some e → etype e = TQ → attribute2 e ≠ "" →
    file_after n (attribute2 e) f → file_after (S n) k f.

Lemma names_file_after k f : names_file t k f → ∃ n, file_after n k f.
Proof.
  induction 1 as [k f e|k f e ? ? ? ? [n IH]]; [exists 0%nat|exists (S n)]; [eapply after_here|eapply after_there]; done.
Qed.

Lemma q_not_file e : etype e = TQ → names_a_file e = false.
Proof. unfold names_a_file. intros ->. by vm_compute. Qed.

Lemma file_after_unique n m k k' f f' : file_after n k f → file_after m k' f' → upperAscii k = upperAscii k' → n = m ∧ f = f'.
Proof.
  intros H. revert m k' f'. induction H as [k f e He Hf ? ->|n k f e He Hq ? ? IH]; intros m k' f' H' E;
    destruct H' as [k' f' e' He' Hf' ? ->|m k' f' e' He' Hq' ? H']; rewrite E, He' in He; injection He as <-.
  - done.
  - by rewrite q_not_file in Hf.
  - by rewrite q_not_file in Hf'.
  - by destruct (IH m (attribute2 e') f' H' eq_refl) as [-> ->].
Qed.

Lemma resolve_complete fuel n k V f : file_after n k f →
  (∀ v m k' f', v ∈ V → v = upperAscii k' → file_after m k' f' → (n < m)%nat) →
  (size (dom t ∖ V) < fuel)%nat → resolve_from t fuel k V = Some f.
Proof.
  intros H. revert fuel V. induction H as [k f e He Hf Hne ->|n k f e He Hq Hne H IH]; intros fuel V HV Hfuel;
    (destruct fuel as [|fuel]; [lia|]); cbn [resolve_from].
  - rewrite bool_decide_false, He, Hf.
    2: { intros Hin. assert (0 < 0)%nat; [|lia]. eapply (HV _ 0%nat k (attribute2 e)); [done..|by eapply after_here]. }
    by apply str_empty_false in Hne as ->.
  - assert (upperAscii k ∉ V) as Hk.
    { intros Hin. assert (S n < S n)%nat; [|lia]. eapply (HV _ (S n) k f); [done..|by eapply after_there]. }
    rewrite bool_decide_false, He, q_not_file, bool_decide_true by done. apply str_empty_false in Hne as Hne'. rewrite Hne'.
    apply IH.
    + intros v m k' f' [Hv|Hv]%elem_of_union -> H'.
      * apply elem_of_singleton in Hv. destruct (file_after_unique (S n) m k k' f f') as [<- _]; [by eapply after_there|done..|lia].
      * specialize (HV _ m k' f' Hv eq_refl H'). lia.
    + assert (upperAscii k ∈ dom t) by by eapply elem_of_dom_2.
      assert (dom t ∖ ({[upperAscii k]} ∪ V) ⊂ dom t ∖ V) as Hsub by set_solver.
      apply subset_size in Hsub. lia.
Qed.

Lemma resolve_iff k f : resolveFileFromVocKey t k ∅ = Some f ↔ names_file t k f.
Proof.
  split; [apply resolve_sound|]. intros [n H]%names_file_after. eapply resolve_complete; [done|set_solver|].
  rewrite difference_empty_L, size_dom. lia.
Qed.
End lookups.

(** ** The table *)

Lemma upperAscii_idemp s : upperAscii (upperAscii s) = upperAscii s.
Proof. unfold upperAscii. induction s as [|c s IH]; [done|]. cbn. by rewrite toupper_idemp, IH. Qed.

Definition keys_upper (t : gmap string VocEntry) : Prop := ∀ k, is_Some (t !! k) → upperAscii k = k.

Definition voc_step (body : string → string) (t : gmap string VocEntry) (recordName : string) : gmap string VocEntry :=
  match parseVocEntry (body recordName) with Some e => <[upperAscii recordName := e]> t | None => t end.

(** The table of a VOC file with the entries [es]: the records in the order of
    their names, a later one replacing one with the same name in capitals. *)
Definition voc_table (es : gmap string entry) : gmap string VocEntry :=
  foldl (voc_step (λ r, toRaw (fromRaw (record_body es "VOC" r)))) ∅ (sorted_unique (omap record_name_of (regular_files es))).

Lemma voc_step_upper body t r : keys_upper t → keys_upper (voc_step body t r).
Proof.
  intros Ht k. unfold voc_step. destruct (parseVocEntry _); [|apply Ht].
  intros [e [[<- _]|[_ Hk]]%lookup_insert_Some]; [apply upperAscii_idemp|apply Ht; eauto].
Qed.

Lemma voc_table_upper es : keys_upper (voc_table es).
Proof.
  unfold voc_table. generalize (sorted_unique (omap record_name_of (regular_files es))). intros l.
  assert (keys_upper ∅) as H by (intros k [? H]; by rewrite lookup_empty in H). revert H. generalize (∅ : gmap string VocEntry).
  induction l as [|r l IH]; intros t Ht; [done|]. by apply IH, voc_step_upper.
Qed.

(** A program file is the file of some name. *)
Lemma program_files_spec t : keys_upper t →
  StronglySorted str_lt (program_files t) ∧ ∀ f, f ∈ program_files t ↔ f = "BP" ∨ ∃ k, names_file t k f.
Proof.
  intros Ht. unfold program_files. split; [apply sorted_unique_spec|]. intros f.
  rewrite (proj2 (sorted_unique_spec _)), elem_of_cons, list_elem_of_omap. apply or_iff_compat_l. split.
  - intros ((k & e) & Hk%elem_of_map_to_list & Hf). exists k. cbn [fst snd] in Hf.
    destruct (names_a_file e) eqn:Ee.
    + destruct (str_empty (attribute2 e)) eqn:Ea; [done|]. injection Hf as <-.
      apply (names_here _ _ _ e); [|done|by apply str_empty_false|done]. by rewrite Ht by eauto.
    + case_bool_decide; [|done]. by apply resolve_iff.
  - intros [k Hk]. assert (∃ e, t !! upperAscii k = Some e) as [e He] by (destruct Hk; eauto).
    assert (names_file t (upperAscii k) f) as Hu.
    { destruct Hk as [e' ? ? ? ?|e' ? ? ? ?]; [apply (names_here _ _ _ e')|apply (names_there _ _ _ e')]; rewrite ?upperAscii_idemp; done. }
    exists (upperAscii k, e). split; [by apply elem_of_map_to_list|]. cbn [fst snd].
    destruct Hu as [e' He' Hf Hne ->|e' He' Hq Hne Hu]; rewrite upperAscii_idemp, He in He'; injection He' as <-.
    + rewrite Hf. by apply str_empty_false in Hne as ->.
    + rewrite q_not_file, bool_decide_true by done. apply resolve_iff.
      apply (names_there _ _ _ e); [by rewrite upperAscii_idemp|done..].
Qed.

(** *** Reading it *)

Lemma on_store_ok {A} (m : proc World A) w t l a w' : m w = (Ok a, w') → on_store m (mkVoc t l w) = (Ok a, mkVoc t l w').
Proof. intros H. unfold on_store, zoom. cbn [vworld]. by rewrite H. Qed.

Section load.
Context {host : HostFs} (Hhost : healthy host) (fs : FileSystem) (w : World) (es : gmap string entry).
Context (Hd : dir_entries (disk w) (root fs, "VOC") = Some es) (Hreg : ∀ k, es !! k ≠ Some EOther).
Context (Hfree : ∀ r, is_record es r → accessible fs "VOC" r w).
#[local] Set Default Proof Using "Type*".

Lemma readRecord_body r : is_record es r →
  ∃ rec, readRecord host fs (open_handle fs "VOC") r w = (Ok rec, w) ∧
    (rec = None ∧ record_body es "VOC" r = "" ∨ ∃ x, rec = Some x ∧ value x = toRaw (fromRaw (record_body es "VOC" r))).
Proof.
  intros Hr. pose proof (proj1 Hr) as Hv. assert (read host fs "VOC" r w = readRecord host fs (open_handle fs "VOC") r w) as <-.
  { unfold read. by rewrite (proc_bind_ok _ _ _ _ _ (openFile_healthy Hhost fs "VOC" w es eq_refl Hd)). }
  rewrite (read_healthy Hhost fs "VOC" r w es) by auto. unfold record_body.
  destruct (pick es r (candidates "VOC")) as [tg|] eqn:E; [|by eauto 10]. cbn [mbind option_bind].
  assert (∃ c, es !! tg = Some (EFile c)) as [c Hc].
  { assert (is_Some (es !! tg)) as [[c|] Hc]; [|eauto|by destruct (Hreg tg)].
    clear -E. induction (candidates "VOC") as [|x exts IH]; cbn in E; [done|].
    destruct (es !! (r +:+ x)) eqn:Ex; [naive_solver|auto]. }
  rewrite Hc. eexists. split; [done|]. right. by eexists.
Qed.

Lemma load_records_spec names t : Forall (is_record es) names →
  load_records host fs (open_handle fs "VOC") names (mkVoc t false w) =
    (Ok tt, mkVoc (foldl (voc_step (λ r, toRaw (fromRaw (record_body es "VOC" r)))) t names) false w).
Proof.
  intros Hn. revert t. induction Hn as [|r names Hr Hn IH]; intros t; [done|]. cbn [load_records foldl].
  destruct (readRecord_body r Hr) as (rec & Hrec & Hcase).
  rewrite (proc_bind_ok _ _ _ _ _ (on_store_ok _ _ t false _ _ Hrec)).
  unfold voc_step at 2. destruct Hcase as [[-> Hb]|(x & -> & Hx)].
  - rewrite (proc_bind_ok _ _ _ tt (mkVoc t false w)) by done. rewrite IH. by rewrite Hb.
  - rewrite Hx. destruct (parseVocEntry _) as [e|]; (erewrite proc_bind_ok by done); apply IH.
Qed.
End load.

Lemma ensureLoaded_spec host fs w es t : healthy host → dir_entries (disk w) (root fs, "VOC") = Some es →
  (∀ k, es !! k ≠ Some EOther) → (∀ r, is_record es r → accessible fs "VOC" r w) →
  ensureLoaded host fs (mkVoc t false w) = (Ok tt, mkVoc (voc_table es) true w).
Proof.
  intros Hh Hd Hreg Hfree. unfold ensureLoaded, loadVocTable.
  rewrite (proc_bind_ok _ _ _ false (mkVoc t false w)) by done. cbn [negb].
  rewrite (proc_bind_ok _ _ _ tt (mkVoc (voc_table es) false w)); [done|]. rewrite (proc_bind_ok _ _ _ tt (mkVoc ∅ false w)) by done.
  rewrite (proc_bind_ok _ _ _ (Some (open_handle fs "VOC")) (mkVoc ∅ false w)).
  2: { unfold try_catch. rewrite (proc_bind_ok _ _ _ _ _ (on_store_ok _ _ ∅ false _ _ (openFile_healthy Hh fs "VOC" w es eq_refl Hd))). done. }
  rewrite (proc_bind_ok _ _ _ (sorted_unique (omap record_name_of (regular_files es))) (mkVoc ∅ false w)).
  2: { apply on_store_ok. unfold listRecords, open_handle. cbn [directoryPath]. by rewrite (healthy_faults host Hh), Hd. }
  apply (load_records_spec Hh fs w es Hd Hreg Hfree). apply Forall_forall. intros r Hr.
  by apply sorted_unique_spec, elem_of_omap_records in Hr.
Qed.

(** The VOC decides where programs and scripts are. For a VOC whose records
    can be read, the first lookup reads the table once, and then a name's file is
    the file that following Q entries from it reaches, whatever loops the Q
    entries form, or BP for a program and PROC for a script when it reaches none.
    The files listed as program files are BP and exactly the files reached from
    some name, sorted and each once. *)
Theorem voc_lookup host fs w es t name : healthy host → dir_entries (disk w) (root fs, "VOC") = Some es →
  (∀ k, es !! k ≠ Some EOther) → (∀ r, is_record es r → accessible fs "VOC" r w) →
  let v := mkVoc t false w in
  let v' := mkVoc (voc_table es) true w in
  ∃ program script files,
    resolveProgramLocation host fs name v = (Ok (mkLocation program name), v') ∧
    resolveProcScriptLocation host fs name v = (Ok (mkLocation script name), v') ∧
    listProgramFiles host fs v = (Ok files, v') ∧
    (∀ f, names_file (voc_table es) name f → program = f ∧ script = f) ∧
    ((∀ f, ¬ names_file (voc_table es) name f) → program = "BP" ∧ script = "PROC") ∧
    StronglySorted str_lt files ∧ (∀ f, f ∈ files ↔ f = "BP" ∨ ∃ k, names_file (voc_table es) k f).
Proof.
  intros Hh Hd Hreg Hfree v v'. pose proof (ensureLoaded_spec host fs w es t Hh Hd Hreg Hfree) as Hload. fold v v' in Hload.
  exists (default "BP" (resolveFileFromVocKey (voc_table es) name ∅)), (default "PROC" (resolveFileFromVocKey (voc_table es) name ∅)),
    (program_files (voc_table es)).
  split_and!.
  1-3: unfold resolveProgramLocation, resolveProcScriptLocation, resolve_location, listProgramFiles; by rewrite (proc_bind_ok _ _ _ _ _ Hload).
  - intros f Hf%resolve_iff. by rewrite Hf.
  - intros Hno. destruct (resolveFileFromVocKey _ _ _) as [f|] eqn:E; [|done]. by apply resolve_iff, Hno in E.
  - apply program_files_spec, voc_table_upper.
  - apply program_files_spec, voc_table_upper.
Qed.

Definition lines_of (l : list string) : string := str_join NL l.

(** A file, two names for it, and two entries that name each other. *)
Definition ex_voc : gmap string entry :=
  list_to_map [("SALES.item", EFile (lines_of ["F"; "SALES-DATA"])); ("rpt.item", EFile (lines_of ["1 Q"; "2 sales"]));
               ("R.item", EFile (lines_of ["Q"; "RPT"])); ("P.item", EFile (lines_of ["Q"; "O"])); ("O.item", EFile (lines_of ["Q"; "P"]));
               ("LS.item", EFile (lines_of ["V"; "LIST"]))].
Definition ex_voc_world : World := mkWorld {["root" := {["VOC" := NDir ex_voc]}]} ∅ 0.

Lemma ex_voc_regular k : ex_voc !! k ≠ Some EOther.
Proof.
  intros H. assert (map_Forall (λ _ e, e ≠ EOther) ex_voc) as Ha; [|by apply (Ha k EOther H)].
  unfold ex_voc. cbn [list_to_map foldr fst snd]. repeat (apply map_Forall_insert_2; [done|]). apply map_Forall_empty.
Qed.

Lemma voc_lookup_witness :
  resolveProgramLocation ex_host (ex_fs "B") "r" (mkVoc ∅ false ex_voc_world) =
    (Ok (mkLocation "SALES-DATA" "r"), mkVoc (voc_table ex_voc) true ex_voc_world) ∧
  resolveProcScriptLocation ex_host (ex_fs "B") "r" (mkVoc ∅ false ex_voc_world) =
    (Ok (mkLocation "SALES-DATA" "r"), mkVoc (voc_table ex_voc) true ex_voc_world) ∧
  (listProgramFiles ex_host (ex_fs "B") (mkVoc ∅ false ex_voc_world)).1 = Ok ["BP"; "SALES-DATA"].
Proof.
  assert (∀ r, is_record ex_voc r → accessible (ex_fs "B") "VOC" r ex_voc_world) as Hfree.
  { intros r _ _ e He. unfold lock_lookup in He. cbn [locks ex_voc_world] in He. rewrite lookup_empty in He. by repeat case_match. }
  destruct (voc_lookup ex_host (ex_fs "B") ex_voc_world ex_voc ∅ "r" ex_healthy eq_refl ex_voc_regular Hfree)
    as (program & script & files & Hp & Hs & Hl & Hnames & _).
  rewrite Hp, Hs.
  assert (names_file (voc_table ex_voc) "r" "SALES-DATA") as Hn.
  { apply resolve_iff. vm_compute. reflexivity. }
  destruct (Hnames _ Hn) as [-> ->]. split; [done|]. split; [done|]. vm_compute. reflexivity.
Defined.

(** Verbs: V entries are followed, a Q entry whose target is no verb changes nothing,
    and a loop ends with the last verb named. *)
Example verbs :
  let t := voc_table ex_voc in
  verb_name t "ls" = "LIST" ∧ verb_name t "r" = "r" ∧ verb_name t "who" = "who" ∧
  verb_name (<["A" := mkEntry TV "b" ""]> (<["B" := mkEntry TX "a" ""]> ∅)) "A" = "a".
Proof. by vm_compute. Qed.
