(* ===== verification/Login.v ===== *)
(** * Logging on

    [PickCore::LoginService], [GeminiCatalog] and [loadDefaultDataFileFromMd]: the
    accounts of ACCOUNTS.json, the logon of one account, and the console's logon
    loop.  The JSON library's parser and the host's answers (does a path exist, is
    it a directory, environment variables) are the record [LoginHost]; they do not
    change during a logon.  Paths are strings; [lexically_normal] is written out. *)

From Stdlib Require Import Ascii String.
From S2P Require Import Prelude CLib Records Locks FileSys.
From stdpp Require Import options.
Local Open Scope Z_scope.

(** ** Paths *)

Definition is_absolute (p : string) : bool := starts_with "/" p.

Definition path_join (lhs rhs : string) : string :=
  if is_absolute rhs || str_empty lhs then rhs
  else match str_back lhs with
       | Some c => if Ascii.eqb c "/" then lhs +:+ rhs else lhs +:+ "/" +:+ rhs
       | None => rhs
       end.

(** One component after those in [stack] (the last first); true when what is left ends in a slash. *)
Definition path_step (absolute : bool) (stack : list string) (c : string) : list string * bool :=
  if str_empty c || String.eqb c "." then (stack, true)
  else if String.eqb c ".." then
    match stack with
    | [] => if absolute then ([], true) else ([".."], false)
    | d :: stack' => if String.eqb d ".." then (".." :: stack, false) else (stack', true)
    end
  else (c :: stack, false).

Definition lexically_normal (p : string) : string :=
  if str_empty p then ""
  else
    let absolute := is_absolute p in
    let slash := match str_back p with Some c => Ascii.eqb c "/" | None => false end in
    let '(stack, dir) := foldl (λ acc c, path_step absolute acc.1 c) ([], false) (getlines "/" p) in
    let body := str_join "/" (reverse stack) in
    let up := bool_decide (head stack = Some "..") in
    match stack with
    | [] => if absolute then "/" else "."
    | _ => (if absolute then "/" else "") +:+ body +:+ (if (dir || slash) && negb up then "/" else "")
    end.

(** ** The catalogue *)

(** What the JSON library's parser returns. *)
Inductive json :=
| JNull | JBool (b : bool) | JNumber
| JString (s : string)
| JArray (l : list json)
| JObject (fields : list (string * json)).

Fixpoint json_find (key : string) (fields : list (string * json)) : option json :=
  match fields with
  | [] => None
  | (k, v) :: fields' => if String.eqb k key then Some v else json_find key fields'
  end.

(** [j.value(key, "")]: throws when [j] is no object or the field is no string. *)
Definition json_value (j : json) (key : string) : option string :=
  match j with
  | JObject fields => match json_find key fields with None => Some "" | Some (JString s) => Some s | Some _ => None end
  | _ => None
  end.

Definition json_rows (j : json) (key : string) : option (list json) :=
  match j with JObject fields => match json_find key fields with Some (JArray l) => Some l | _ => None end | _ => None end.

(* src/core/catalog/GeminiCatalog.h:14-19 [GeminiUserRow] *)
Record GeminiUserRow := mkUser { u_username : string; u_passwordHash : string; u_defaultAccount : string; u_privileges : string }.

(* src/core/catalog/GeminiCatalog.h:21-27 [GeminiAccountRow] *)
Record GeminiAccountRow := mkAccount { a_name : string; a_root : string; passwordHash : option string }.

Definition user_row (row : json) : option GeminiUserRow :=
  username ← json_value row "username";
  hash ← json_value row "passwordHash";
  account ← json_value row "defaultAccount";
  privileges ← json_value row "privileges";
  Some (mkUser username hash account privileges).

Definition account_row (row : json) : option GeminiAccountRow :=
  n ← json_value row "name";
  r ← json_value row "root";
  Some (mkAccount n r
    match row with
    | JObject fields =>
        match json_find "passwordHash" fields with
        | Some (JString s) => if str_empty s then None else Some s
        | _ => None
        end
    | _ => None
    end).

(** [document path]: the parsed file, [None] when it cannot be opened or parsed.
    [path_exists] may throw, as the form of [exists] without an error code. *)
Record LoginHost := mkLoginHost {
  document : string → option json;
  path_exists : string → outcome bool;
  is_directory : string → bool;
  getenv : string → option string;
  record_host : HostFs
}.

Section login.
Context (host : LoginHost).

(* src/core/catalog/GeminiCatalog.cpp:7-31 [GeminiCatalog::loadUsers] *)
Definition loadUsers (jsonPath : string) : option (list GeminiUserRow) :=
  j ← document host jsonPath; rows ← json_rows j "users"; mapM user_row rows.

(* src/core/catalog/GeminiCatalog.cpp:33-61 [GeminiCatalog::loadAccounts] *)
Definition loadAccounts (jsonPath : string) : option (list GeminiAccountRow) :=
  j ← document host jsonPath; rows ← json_rows j "accounts"; mapM account_row rows.

(** ** One account *)

(* src/core/login/LoginService.cpp:14-24 [iequalsAscii] *)
Definition iequalsAscii (a b : string) : bool := String.eqb (str_map tolower a) (str_map tolower b).

(* src/core/login/LoginService.cpp:26-28 [passwordPlaceholderSkipsVerify] *)
Definition passwordPlaceholderSkipsVerify (hash : string) : bool := starts_with "dev-" hash.

(* src/core/login/LoginService.cpp:30-35 [kReservedLoginNames] *)
Definition kReservedLoginNames : list string :=
  ["LOGIN"; "QUIT"; "VERSION"; "HELP"; "TCL"; "EDIT"; "RUN"; "BASIC"; "PROC"; "ASM"; "ECHO"; "SET"; "GET"; "UNSET"; "WHO";
   "LOGTO"; "LOGOFF"; "CREATE-FILE"; "DELETE-FILE"; "LIST-FILES"; "LIST"; "READ"; "WRITE"; "LIST-PROGRAMS"; "LIST-VARS";
   "DUMP-STACK"; "SYSTEM"; "ABOUT"; "HELP-LIST"; "HELP-EDIT"].

Definition ascii_blank (c : ascii) : bool := Ascii.eqb c CR || Ascii.eqb c NL || Ascii.eqb c " " || Ascii.eqb c TAB.

(* src/core/login/LoginService.cpp:37-46 [trimTrailingAsciiWs] *)
Definition trimTrailingAsciiWs (s : string) : string := rtrim ascii_blank s.

(* src/core/login/LoginService.cpp:48-58 [firstLineFromRecordBody] *)
Definition firstLineFromRecordBody (body : string) : string :=
  trimTrailingAsciiWs (match str_split_at NL body with Some (line, _) => line | None => body end).

(* src/core/login/LoginService.cpp:60-67 [findAccountRow] *)
Fixpoint findAccountRow (accounts : list GeminiAccountRow) (accountName : string) : option GeminiAccountRow :=
  match accounts with
  | [] => None
  | a :: accounts' => if iequalsAscii (a_name a) accountName then Some a else findAccountRow accounts' accountName
  end.

Fixpoint invalid_from (i : Z) (accounts : list GeminiAccountRow) : option string :=
  match accounts with
  | [] => None
  | a :: accounts' =>
      if str_empty (a_name a) then Some ("Invalid ACCOUNTS.json: account row missing name (index " +:+ to_string i +:+ ").")
      else if str_empty (a_root a) then Some ("Invalid ACCOUNTS.json: account row missing root (index " +:+ to_string i +:+ ").")
      else invalid_from (i + 1) accounts'
  end.

(* src/core/login/LoginService.cpp:69-79 [firstInvalidAccountRowReason] *)
Definition firstInvalidAccountRowReason (accounts : list GeminiAccountRow) : option string := invalid_from 0 accounts.

(* src/core/login/LoginService.cpp:81-97 [reservedLogonToken] *)
Definition reservedLogonToken (token : string) : bool := bool_decide (str_map toupper token ∈ kReservedLoginNames).

(* src/core/login/LoginService.cpp:166-168 [LoginService::isReservedLoginUsername] *)
Definition isReservedLoginUsername (token : string) : bool := reservedLogonToken token.

(** [whoPort] and [userNo] are 0. *)
(* src/core/login/UserSession.h:12-19 [UserSession] *)
Record UserSession := mkSession { catalogRoot : string; pickRoot : string; username : string; accountName : string }.

(** The session, or the line written to [err]. *)
(* src/core/login/LoginService.cpp:187-247 [LoginService::authenticateAccount] *)
Definition authenticateAccount (catalog account password : string) : outcome (UserSession + string) :=
  let accountsPath := path_join catalog "ACCOUNTS.json" in
  there ← path_exists host accountsPath;
  if negb (there : bool) then Ok (inr "ACCOUNTS.json not found.")
  else Ok match loadAccounts accountsPath with
  | None => inr "Invalid ACCOUNTS.json."
  | Some accounts =>
      match firstInvalidAccountRowReason accounts with
      | Some rowError => inr rowError
      | None =>
          match findAccountRow accounts account with
          | None => inr "Unknown account."
          | Some acct =>
              let finish :=
                let root := lexically_normal (path_join catalog (a_root acct)) in
                if negb (is_directory host root) then inr ("Account path not found: " +:+ root)
                else if negb (is_directory host (path_join root "VOC")) then inr ("Account path has no VOC: " +:+ root)
                else inl (mkSession catalog root (a_name acct) (a_name acct)) in
              match passwordHash acct with
              | Some hash =>
                  if passwordPlaceholderSkipsVerify hash then finish
                  else if str_empty password then inr "Password required."
                  else if negb (String.eqb password hash) then inr "Login failed."
                  else finish
              | None => finish
              end
          end
      end
  end.

(** ** The console *)

(** Standard input and output, and the record store. *)
Record Console := mkConsole { c_in : string; c_out : string; c_store : World }.

Definition print (s : string) : proc Console unit := modify (λ c, mkConsole (c_in c) (c_out c +:+ s) (c_store c)).

Definition read_line : proc Console (option string) := λ c,
  match getline NL (c_in c) with
  | Some (line, rest) => (Ok (Some line), mkConsole rest (c_out c) (c_store c))
  | None => (Ok None, c)
  end.

Definition on_records {A} (m : proc World A) : proc Console A := zoom c_store (λ w c, mkConsole (c_in c) (c_out c) w) m.

(* src/core/login/LoginService.cpp:99-117 [readAutoLogonAccountIdFromMd] *)
Definition readAutoLogonAccountIdFromMd (root : string) : proc Console (option string) :=
  try_catch (
    rec ← on_records (read (record_host host) (mkFs root false "") "MD" "AUTO-LOGON");
    mret match rec with
         | None => None
         | Some r =>
             let token := firstLineFromRecordBody (value r) in
             if str_empty token || negb (isValidName token) || reservedLogonToken token then None else Some token
         end)
    (λ e, match e with FileSystemError _ => Some (mret None) | _ => None end).

(* src/core/login/LoginService.cpp:119-132 [readAutoLogonAccountIdFromEnv] *)
Definition readAutoLogonAccountIdFromEnv : option string :=
  let set name := match getenv host name with Some v => if str_empty v then None else Some v | None => None end in
  tok ← (match set "GEMINI_AUTO_LOGON" with Some v => Some v | None => set "GEMINI_AUTO_LOGIN" end);
  if negb (isValidName tok) || reservedLogonToken tok then None else Some tok.

(* src/core/login/LoginService.cpp:135-137 [printLogonPleasePrefix] *)
Definition printLogonPleasePrefix : proc Console unit := print "LOGON PLEASE: ".

(* src/core/login/LoginService.cpp:140-143 [printlnLoginToTclBoundary] *)
Definition printlnLoginToTclBoundary : proc Console unit := print (String NL "").

(* src/core/login/LoginService.cpp:146-148 [printLoginIncorrect] *)
Definition printLoginIncorrect : proc Console unit := print ("Login incorrect" +:+ String NL "").

(* src/core/login/LoginService.cpp:152-163 [authenticateAccountAndSealStdout] *)
Definition authenticateAccountAndSealStdout (catalog account password : string) : proc Console (option UserSession) :=
  sess ← lift (authenticateAccount catalog account password);
  match sess with
  | inl s => printlnLoginToTclBoundary;; mret (Some s)
  | inr _ => mret None
  end.

(* src/core/login/LoginService.cpp:170-185 [LoginService::parseSingleUsernameLine] *)
Definition parseSingleUsernameLine (line : string) : option string :=
  match extract_word line with
  | None => None
  | Some (tok, rest) =>
      match extract_word rest with
      | Some _ => None
      | None => if negb (isValidName tok) || isReservedLoginUsername tok then None else Some tok
      end
  end.

(** The password read; [None] when a line was needed and there is none. *)
(* src/core/login/LoginService.cpp:249-272 [LoginService::readPasswordLineIfAccountRequires] *)
Definition readPasswordLineIfAccountRequires (acctRow : option GeminiAccountRow) : proc Console (option string) :=
  match acctRow ≫= passwordHash with
  | None => mret (Some "")
  | Some hash =>
      if passwordPlaceholderSkipsVerify hash then mret (Some "")
      else line ← read_line; mret (trimTrailingAsciiWs <$> line)
  end.

(** Every round reads a line: as many rounds as there are characters, and one more, are enough. *)
(* src/core/login/LoginService.cpp:312-358 [LoginService::runConsoleLogin] *)
Fixpoint console_login (rounds : nat) (catalog : string) : proc Console (option UserSession) :=
  match rounds with
  | O => lift (Undefined "rounds")
  | S rounds' =>
      let again := printLoginIncorrect;; console_login rounds' catalog in
      printLogonPleasePrefix;;
      line ← read_line;
      match line with
      | None => mret None
      | Some line =>
          match parseSingleUsernameLine (trimTrailingAsciiWs line) with
          | None => again
          | Some account =>
              match loadAccounts (path_join catalog "ACCOUNTS.json") with
              | None => again
              | Some accounts =>
                  match findAccountRow accounts account with
                  | None => again
                  | Some acct =>
                      password ← readPasswordLineIfAccountRequires (Some acct);
                      match password with
                      | None => mret None
                      | Some password =>
                          sess ← authenticateAccountAndSealStdout catalog account password;
                          match sess with None => again | Some s => mret (Some s) end
                      end
                  end
              end
          end
      end
  end.

Definition runConsoleLogin (catalog : string) : proc Console (option UserSession) := λ c,
  console_login (S (String.length (c_in c))) catalog c.

(* src/core/login/LoginService.h:19-22 [CatalogLoginPhase] *)
Inductive CatalogLoginPhase := ColdStartPortInit | InteractiveOnly.

(* src/core/login/LoginService.cpp:274-310 [LoginService::runCatalogLogin] *)
Definition runCatalogLogin (catalog root : string) (phase : CatalogLoginPhase) : proc Console (option UserSession) :=
  autoName ← (match phase with
              | ColdStartPortInit =>
                  md ← readAutoLogonAccountIdFromMd root;
                  mret (match md with Some n => Some n | None => readAutoLogonAccountIdFromEnv end)
              | InteractiveOnly => mret None
              end);
  match autoName with
  | None => runConsoleLogin catalog
  | Some name =>
      printLogonPleasePrefix;;
      print (name +:+ String NL "");;
      password ← readPasswordLineIfAccountRequires
                   (accounts ← loadAccounts (path_join catalog "ACCOUNTS.json"); findAccountRow accounts name);
      match password with
      | None => mret None
      | Some password =>
          sess ← authenticateAccountAndSealStdout catalog name password;
          match sess with
          | Some s => mret (Some s)
          | None => printLoginIncorrect;; runConsoleLogin catalog
          end
      end
  end.
End login.

(** ** The default data file *)

Fixpoint first_nonempty (l : list string) : option string :=
  match l with [] => None | x :: l' => if str_empty x then first_nonempty l' else Some x end.

(** [trimAsciiWsInPlace]: line ends are only taken off the end. *)
(* src/core/md/MdDefaultDataFile.cpp:13-30 [trimAsciiWsInPlace] *)
Definition trimAsciiWsInPlace (s : string) : string :=
  rtrim ascii_blank (ltrim (λ c, Ascii.eqb c " " || Ascii.eqb c TAB || Ascii.eqb c CR) s).

(* src/core/md/MdDefaultDataFile.cpp:33-55 [loadDefaultDataFileFromMd] *)
Definition loadDefaultDataFileFromMd (host : HostFs) (fs : FileSystem) : proc World (option string) :=
  try_catch (
    rec ← read host fs "MD" "DEFDATA";
    mret (r ← rec;
          line ← first_nonempty (trimAsciiWsInPlace <$> getlines NL (value r));
          if isValidName line then Some line else None))
    (λ e, match e with FileSystemError _ => Some (mret None) | _ => None end).

(** ** Who gets in *)

Section granted.
Context (host : LoginHost) (catalog : string).

Definition accounts_path : string := path_join catalog "ACCOUNTS.json".

(** What the account asks for is there: nothing, or the next line is equal to the
    stored word once the blanks at its end are gone.  [next]: the lines that follow. *)
Definition proved_by (next : list string) (acct : GeminiAccountRow) : Prop :=
  match passwordHash acct with
  | None => True
  | Some hash => starts_with "dev-" hash = true ∨
                 (hash ≠ "" ∧ ∃ line after, next = line :: after ∧ trimTrailingAsciiWs line = hash)
  end.

(** [s] is a session of the first account whose name is [typed] but for capitals. *)
Definition session_of (s : UserSession) (accounts : list GeminiAccountRow) (acct : GeminiAccountRow) (typed : string) : Prop :=
  loadAccounts host accounts_path = Some accounts ∧
  Forall (λ a, a_name a ≠ "" ∧ a_root a ≠ "") accounts ∧
  findAccountRow accounts typed = Some acct ∧
  s = mkSession catalog (lexically_normal (path_join catalog (a_root acct))) (a_name acct) (a_name acct) ∧
  is_directory host (pickRoot s) = true ∧ is_directory host (path_join (pickRoot s) "VOC") = true.

(** [s] is a session of the account called [name], on the strength of the line that is next. *)
Definition opened (s : UserSession) (name : string) (next : list string) : Prop := ∃ accounts acct,
  isValidName name = true ∧ reservedLogonToken name = false ∧ session_of s accounts acct name ∧ proved_by next acct.

(** The name was the one word of a line, and the password the line after it. *)
Definition typed_in (lines : list string) (s : UserSession) : Prop := ∃ before line after name,
  lines = before ++ line :: after ∧ parseSingleUsernameLine (trimTrailingAsciiWs line) = Some name ∧ opened s name after.

(** The name that the port is set up with: that of MD, or else that of the environment. *)
Definition configured (root : string) (c : Console) : option string :=
  match (readAutoLogonAccountIdFromMd host root c).1 with
  | Ok (Some name) => Some name
  | Ok None => readAutoLogonAccountIdFromEnv host
  | _ => None
  end.

(** Only a logon at the start of a port looks at that name; the password is then the first line. *)
Definition granted (root : string) (phase : CatalogLoginPhase) (c : Console) (s : UserSession) : Prop :=
  typed_in (getlines NL (c_in c)) s ∨
  phase = ColdStartPortInit ∧ ∃ name, configured root c = Some name ∧ opened s name (getlines NL (c_in c)).

Lemma invalid_from_none i accounts : invalid_from i accounts = None → Forall (λ a, a_name a ≠ "" ∧ a_root a ≠ "") accounts.
Proof.
  revert i. induction accounts as [|a accounts IH]; intros i; [constructor|]. cbn [invalid_from].
  destruct (a_name a) eqn:En; [done|]. destruct (a_root a) eqn:Er; [done|]. cbn. intros H%IH. constructor; [|done]. by rewrite En, Er.
Qed.

Lemma authenticate_inv account password s : authenticateAccount host catalog account password = Ok (inl s) →
  ∃ accounts acct, session_of s accounts acct account ∧
    (passwordHash acct = None ∨ ∃ hash, passwordHash acct = Some hash ∧
       (starts_with "dev-" hash = true ∨ (password = hash ∧ hash ≠ ""))).
Proof.
  unfold authenticateAccount. destruct (path_exists host _) as [[]|e|u]; [|done..]. unfold mbind, outcome_bind, negb.
  fold accounts_path. destruct (loadAccounts host accounts_path) as [accounts|] eqn:El; [|done].
  unfold firstInvalidAccountRowReason. destruct (invalid_from 0 accounts) eqn:Ei; [done|].
  destruct (findAccountRow accounts account) as [acct|] eqn:Ea; [|done].
  assert (∀ x, (if is_directory host (lexically_normal (path_join catalog (a_root acct))) then
     if is_directory host (path_join (lexically_normal (path_join catalog (a_root acct))) "VOC") then
       inl (mkSession catalog (lexically_normal (path_join catalog (a_root acct))) (a_name acct) (a_name acct))
     else inr ("Account path has no VOC: " +:+ lexically_normal (path_join catalog (a_root acct)))
     else inr ("Account path not found: " +:+ lexically_normal (path_join catalog (a_root acct)))) = x → x = inl s →
     session_of s accounts acct account) as Hfin.
  { intros x <-. destruct (is_directory host _) eqn:E1; [|done]. destruct (is_directory host (path_join _ "VOC")) eqn:E2; [|done].
    intros [= <-]. unfold session_of. cbn [pickRoot]. eauto 10 using invalid_from_none. }
  destruct (passwordHash acct) as [hash|] eqn:Eh.
  - unfold passwordPlaceholderSkipsVerify. destruct (starts_with "dev-" hash) eqn:Ed.
    + intros [= H]. exists accounts, acct. split; [|by eauto].
      eapply Hfin; [reflexivity|]. rewrite <- H. by repeat case_match.
    + destruct (str_empty password) eqn:Ee; [done|]. destruct (String.eqb_spec password hash) as [->|]; [|done].
      intros [= H]. exists accounts, acct. split; [eapply Hfin; [reflexivity|]; rewrite <- H; by repeat case_match|].
      right. exists hash. split; [done|]. right. split; [done|]. by intros ->.
  - intros [= H]. exists accounts, acct. split; [|by left].
    eapply Hfin; [reflexivity|]. rewrite <- H. by repeat case_match.
Qed.

(** *** The loop *)

Definition refusal : string := "LOGON PLEASE: Login incorrect" +:+ String NL "".
Definition repeated (k : nat) (s : string) : string := Nat.iter k (String.append s) "".
Definition sealed (r : option UserSession) : string := match r with Some _ => String NL "" | None => "" end.

(** What can still be read is what is left of the lines there were. *)
Definition later (c c' : Console) : Prop := ∃ read, getlines NL (c_in c) = read ++ getlines NL (c_in c').

#[local] Instance later_preorder : PreOrder later.
Proof.
  split; [intros c; by exists []|]. intros c1 c2 c3 [r E] [r' E']. exists (r ++ r'). by rewrite E, E', app_assoc.
Qed.

Lemma typed_later c c' s : later c c' → typed_in (getlines NL (c_in c')) s → typed_in (getlines NL (c_in c)) s.
Proof. intros [r ->] (b & l & a & n & -> & H). exists (r ++ b), l, a, n. by rewrite <- app_assoc. Qed.

Lemma getline_lines s l r : getline NL s = Some (l, r) → getlines NL s = l :: getlines NL r.
Proof. intros H. by rewrite getlines_getline, H. Qed.

(** Reading the password leaves the output alone and takes at most a line. *)
Lemma password_spec row c : ∃ p c', readPasswordLineIfAccountRequires row c = (Ok p, c') ∧ c_out c' = c_out c ∧
  later c c' ∧ (String.length (c_in c') ≤ String.length (c_in c))%nat ∧
  ∀ acct hash, row = Some acct → passwordHash acct = Some hash → starts_with "dev-" hash = false → ∀ w, p = Some w → w = hash →
    hash ≠ "" → proved_by (getlines NL (c_in c)) acct.
Proof.
  unfold readPasswordLineIfAccountRequires.
  assert (∃ p c', (mret (Some "") : proc Console (option string)) c = (Ok p, c') ∧ c_out c' = c_out c ∧ later c c' ∧
    (String.length (c_in c') ≤ String.length (c_in c))%nat ∧ p = Some "") as (p0 & c0 & E0 & ? & ? & ? & ->).
  { exists (Some ""), c. by repeat split. }
  destruct (row ≫= passwordHash) as [hash|] eqn:Eh; [|exists (Some ""), c0; split_and!; [done..|]].
  2: { intros acct hash -> Ha. cbn in Eh. congruence. }
  unfold passwordPlaceholderSkipsVerify. destruct (starts_with "dev-" hash) eqn:Ed.
  { exists (Some ""), c0; split_and!; [done..|]. intros acct hash' -> Ha Hd. cbn in Eh. congruence. }
  unfold mbind, proc_bind, read_line. destruct (getline NL (c_in c)) as [[l r]|] eqn:El.
  - exists (Some (trimTrailingAsciiWs l)), (mkConsole r (c_out c) (c_store c)). cbn. split_and!; [done..| | |].
    + exists [l]. exact (getline_lines _ _ _ El).
    + apply getline_shorter in El. lia.
    + intros acct hash' -> Ha _ w [= <-] <- Hne. unfold proved_by. rewrite Ha. right. split; [done|].
      exists l, (getlines NL r). by rewrite (getline_lines _ _ _ El).
  - exists None, c. split_and!; [done..|]. intros acct hash' _ _ _ w [=].
Qed.

Context (Hexists : ∀ p, ∃ b, path_exists host p = Ok b).
#[local] Set Default Proof Using "Type*".

Lemma authenticate_returns account password : ∃ r, authenticateAccount host catalog account password = Ok r.
Proof.
  unfold authenticateAccount. destruct (Hexists (path_join catalog "ACCOUNTS.json")) as [b ->].
  unfold mbind, outcome_bind. destruct b; eauto.
Qed.

(** An attempt with the password read for the account. *)
Lemma attempt_spec account password c : ∃ r,
  authenticateAccountAndSealStdout host catalog account password c = (Ok r, mkConsole (c_in c) (c_out c +:+ sealed r) (c_store c)) ∧
  ∀ s, r = Some s → authenticateAccount host catalog account password = Ok (inl s).
Proof.
  unfold authenticateAccountAndSealStdout, lift. destruct (authenticate_returns account password) as [x Hx].
  unfold mbind, proc_bind. rewrite Hx. destruct x as [s|e].
  - exists (Some s). split; [done|]. by intros s' [= <-].
  - exists None. split; [|done]. cbn. rewrite str_app_nil_r. by destruct c.
Qed.

(** The account's password was checked against what was read for it. *)
Lemma attempt_opens c accounts acct account password s :
  isValidName account = true → reservedLogonToken account = false →
  loadAccounts host accounts_path = Some accounts → findAccountRow accounts account = Some acct →
  (∀ acct' hash, Some acct = Some acct' → passwordHash acct' = Some hash → starts_with "dev-" hash = false →
     ∀ w, Some password = Some w → w = hash → hash ≠ "" → proved_by (getlines NL (c_in c)) acct') →
  authenticateAccount host catalog account password = Ok (inl s) → opened s account (getlines NL (c_in c)).
Proof.
  intros Hv Hr Hl Hf Hp (accounts' & acct' & Hs & Hcase)%authenticate_inv.
  pose proof Hs as (Hl' & _ & Hf' & _). assert (accounts' = accounts) as -> by congruence. assert (acct' = acct) as -> by congruence.
  exists accounts, acct. split_and!; [done..|]. destruct Hcase as [Hn|(hash & Hh & Hd)].
  - unfold proved_by. by rewrite Hn.
  - destruct (starts_with "dev-" hash) eqn:E; [unfold proved_by; rewrite Hh; by left|].
    destruct Hd as [?|[-> Hne]]; [done|]. by eapply Hp.
Qed.

Lemma parse_single_valid line account : parseSingleUsernameLine line = Some account →
  isValidName account = true ∧ reservedLogonToken account = false.
Proof.
  unfold parseSingleUsernameLine, isReservedLoginUsername. destruct (extract_word line) as [[tok rest]|]; [|done].
  destruct (extract_word rest); [done|]. destruct (isValidName tok) eqn:Ev; [|done]. destruct (reservedLogonToken tok) eqn:Er; [done|].
  by intros [= <-].
Qed.

Lemma repeated_S k s : repeated (S k) s = s +:+ repeated k s.
Proof. done. Qed.

Lemma console_spec rounds c : (String.length (c_in c) < rounds)%nat →
  ∃ r c' k, console_login host rounds catalog c = (Ok r, c') ∧
    c_out c' = c_out c +:+ repeated k refusal +:+ "LOGON PLEASE: " +:+ sealed r ∧ later c c' ∧
    ∀ s, r = Some s → typed_in (getlines NL (c_in c)) s.
Proof.
  revert c. induction rounds as [|rounds IH]; intros c Hlen; [lia|]. cbn [console_login].
  (* a refusal, from any state reached in this round *)
  assert (∀ c1, later c c1 → (String.length (c_in c1) < rounds)%nat → c_out c1 = c_out c +:+ "LOGON PLEASE: " →
    ∃ r c' k, (printLoginIncorrect;; console_login host rounds catalog) c1 = (Ok r, c') ∧
      c_out c' = c_out c +:+ repeated k refusal +:+ "LOGON PLEASE: " +:+ sealed r ∧ later c c' ∧ ∀ s, r = Some s → typed_in (getlines NL (c_in c)) s) as Hagain.
  { intros c1 Hl Hn Ho.
    destruct (IH (mkConsole (c_in c1) (c_out c1 +:+ "Login incorrect" +:+ String NL "") (c_store c1)) Hn) as (r & c' & k & E & Hout & Hl' & Hg).
    exists r, c', (S k). split; [exact E|]. split; [|split].
    - rewrite Hout. cbn [c_out]. rewrite Ho, repeated_S. unfold refusal. by rewrite !str_app_assoc.
    - exact (transitivity Hl Hl').
    - intros s Hs. apply (typed_later c c1 s Hl). by apply Hg. }
  unfold printLogonPleasePrefix at 1. rewrite (proc_bind_ok _ _ _ tt (mkConsole (c_in c) (c_out c +:+ "LOGON PLEASE: ") (c_store c))) by done.
  unfold read_line at 1, mbind at 1, proc_bind at 1. cbn [c_in].
  destruct (getline NL (c_in c)) as [[line rest]|] eqn:El.
  2: { exists None, (mkConsole (c_in c) (c_out c +:+ "LOGON PLEASE: ") (c_store c)), 0%nat. split_and!; [done|done|by exists []|done]. }
  set (c1 := mkConsole rest _ _).
  assert (later c c1) as Hl1.
  { exists [line]. exact (getline_lines _ _ _ El). }
  assert (String.length (c_in c1) < rounds)%nat as Hn1 by (apply getline_shorter in El; cbn; lia).
  destruct (parseSingleUsernameLine _) as [account|] eqn:Ep; [|by apply Hagain].
  destruct (parse_single_valid _ _ Ep) as [Hv Hr].
  destruct (loadAccounts host _) as [accounts|] eqn:Ea; [|by apply Hagain].
  destruct (findAccountRow accounts account) as [acct|] eqn:Ef; [|by apply Hagain].
  destruct (password_spec (Some acct) c1) as (p & c2 & Ep2 & Ho2 & Hl2 & Hn2 & Hproved).
  rewrite (proc_bind_ok _ _ _ _ _ Ep2). destruct p as [password|].
  2: { exists None, c2, 0%nat. split; [done|]. rewrite Ho2. split; [done|]. split; [|done]. exact (transitivity Hl1 Hl2). }
  destruct (attempt_spec account password c2) as (r & Er & Hr2). rewrite (proc_bind_ok _ _ _ _ _ Er).
  destruct r as [s|].
  - eexists _, _, 0%nat. split; [reflexivity|]. cbn [c_out sealed c_in]. rewrite Ho2. cbn [c_out c1]. split; [by rewrite !str_app_assoc|].
    split; [exact (transitivity Hl1 Hl2)|]. intros s' [= <-]. exists [], line, (getlines NL (c_in c1)), account.
    split; [exact (getline_lines _ _ _ El)|]. split; [exact Ep|]. eapply attempt_opens; eauto.
  - apply Hagain; cbn [c_in c_out sealed].
    + exact (transitivity Hl1 Hl2).
    + lia.
    + by rewrite Ho2, str_app_nil_r.
Qed.

Lemma console_login_spec c : ∃ r c' k, runConsoleLogin host catalog c = (Ok r, c') ∧
  c_out c' = c_out c +:+ repeated k refusal +:+ "LOGON PLEASE: " +:+ sealed r ∧ ∀ s, r = Some s → typed_in (getlines NL (c_in c)) s.
Proof. destruct (console_spec (S (String.length (c_in c))) c) as (r & c' & k & ? & ? & _ & ?); [lia|]. by exists r, c', k. Qed.

(** A name to log on without asking: usable, and what was read leaves the console as it was. *)
Definition usable (n : option string) : Prop := ∀ name, n = Some name → isValidName name = true ∧ reservedLogonToken name = false.

Lemma env_usable : usable (readAutoLogonAccountIdFromEnv host).
Proof using Type.
  intros name. unfold readAutoLogonAccountIdFromEnv. destruct (match _ with Some v => Some v | None => _ end) as [tok|]; [|done]. cbn.
  destruct (isValidName tok) eqn:Ev; [|done]. destruct (reservedLogonToken tok) eqn:Er; [done|]. by intros [= <-].
Qed.

Definition readable (root : string) (c : Console) : Prop :=
  match (read (record_host host) (mkFs root false "") "MD" "AUTO-LOGON" (c_store c)).1 with
  | Ok _ | Throw (FileSystemError _) => True
  | _ => False
  end.

Lemma md_name_spec root c : readable root c → ∃ n w, readAutoLogonAccountIdFromMd host root c = (Ok n, mkConsole (c_in c) (c_out c) w) ∧ usable n.
Proof using Type.
  unfold readable, readAutoLogonAccountIdFromMd, try_catch, mbind, proc_bind, on_records, zoom.
  destruct (read _ _ _ _ (c_store c)) as [[rec|e|u] w]; cbn; intros H; [|destruct e; try done; by exists None, w|done].
  eexists _, w. split; [done|]. intros name. destruct rec as [r|]; [|done].
  destruct (str_empty _); [done|]. destruct (isValidName _) eqn:Ev; [|done]. destruct (reservedLogonToken _) eqn:Er; [done|].
  intros [= <-]. by rewrite Ev, Er.
Qed.

Lemma auto_login_spec name c : isValidName name = true → reservedLogonToken name = false → ∃ r c',
  (printLogonPleasePrefix;; print (name +:+ String NL "");;
   password ← readPasswordLineIfAccountRequires
     (accounts ← loadAccounts host (path_join catalog "ACCOUNTS.json"); findAccountRow accounts name);
   match password with
   | None => mret None
   | Some password =>
       sess ← authenticateAccountAndSealStdout host catalog name password;
       match sess with
       | Some s => mret (Some s)
       | None => printLoginIncorrect;; runConsoleLogin host catalog
       end
   end) c = (Ok r, c') ∧ ∀ s, r = Some s → typed_in (getlines NL (c_in c)) s ∨ opened s name (getlines NL (c_in c)).
Proof.
  intros Hv Hr. rewrite (proc_bind_ok _ _ _ tt (mkConsole (c_in c) (c_out c +:+ "LOGON PLEASE: ") (c_store c))) by done.
  erewrite proc_bind_ok by done. set (c1 := mkConsole _ _ _). fold accounts_path.
  destruct (password_spec (accounts ← loadAccounts host accounts_path; findAccountRow accounts name) c1) as (p & c2 & Ep & Ho2 & Hl2 & Hn2 & Hp).
  rewrite (proc_bind_ok _ _ _ _ _ Ep).
  destruct p as [password|]; [|by eexists None, c2].
  destruct (attempt_spec name password c2) as (r & Er & Hr2). rewrite (proc_bind_ok _ _ _ _ _ Er). destruct r as [s|].
  - eexists (Some s), _. split; [done|]. intros s' [= <-]. specialize (Hr2 s eq_refl). right.
    pose proof Hr2 as (accounts & acct & Hs & _)%authenticate_inv. pose proof Hs as (Hl & _ & Hf & _).
    apply (attempt_opens c1 accounts acct name password s); [done|done|exact Hl|exact Hf| |exact Hr2].
    rewrite Hl in Hp. cbn in Hp. rewrite Hf in Hp. intros acct' hash Ha Hh Hd w. by apply (Hp acct' hash Ha Hh Hd w).
  - set (c3 := mkConsole (c_in c2) _ (c_store c2)).
    destruct (console_login_spec (mkConsole (c_in c3) (c_out c3 +:+ "Login incorrect" +:+ String NL "") (c_store c3))) as (r & c' & k & E & _ & Hg).
    exists r, c'. split; [exact E|]. intros s Hs. left. by apply (typed_later c c2 s Hl2), Hg.
Qed.
End granted.

(** C15. Nobody logs on without the account's password. Whatever is typed, a logon
    ends (at the latest when the input does), and if it ends with a session, then either
    a line of the input was one word, a usable name that is not a command; or, at the start of a port only, such
    a name is set up for it, in MD or, when MD has none, in the environment.  The
    session is of the first account with that name, in any capitals, of a
    catalogue whose rows are all complete; its root and the VOC in it are
    directories; and the account has no password, or one that starts with dev-,
    or the line that follows the name (the first one, for a name that is set up) is the password, up to blanks at its end.
    A logon at the console prints the same refusal for every failed attempt. *)
Theorem logon_needs_password host catalog root phase c :
  (∀ p, ∃ b, path_exists host p = Ok b) → readable host root c →
  ∃ r c', runCatalogLogin host catalog root phase c = (Ok r, c') ∧
    (∀ s, r = Some s → granted host catalog root phase c s) ∧
    (phase = InteractiveOnly → ∃ k, c_out c' = c_out c +:+ repeated k refusal +:+ "LOGON PLEASE: " +:+ sealed r).
Proof.
  intros Hex Hread. unfold runCatalogLogin, granted. destruct phase.
  - destruct (md_name_spec host root c Hread) as (n & w & E & Hn).
    set (auto := match n with Some n => Some n | None => readAutoLogonAccountIdFromEnv host end).
    assert (configured host root c = auto) as -> by (unfold configured; rewrite E; by destruct n).
    rewrite (proc_bind_ok _ _ _ auto (mkConsole (c_in c) (c_out c) w)) by (by rewrite (proc_bind_ok _ _ _ _ _ E)).
    assert (usable auto) as Hauto by (destruct n; [done|apply env_usable]).
    destruct auto as [name|].
    + destruct (Hauto name eq_refl) as [Hv Hr].
      destruct (auto_login_spec host catalog Hex name (mkConsole (c_in c) (c_out c) w) Hv Hr) as (r & c' & Ec & Hg).
      exists r, c'. split; [exact Ec|]. split; [|done]. intros s Hs. destruct (Hg s Hs); [by left|right]. split; [done|]. by exists name.
    + destruct (console_login_spec host catalog Hex (mkConsole (c_in c) (c_out c) w)) as (r & c' & k & Ec & _ & Hg).
      exists r, c'. split; [exact Ec|]. split; [|done]. intros s Hs. left. by apply Hg.
  - destruct (console_login_spec host catalog Hex c) as (r & c' & k & Ec & Ho & Hg).
    exists r, c'. split; [exact Ec|]. split; [|by exists k]. intros s Hs. left. by apply Hg.
Qed.

Definition ex_accounts : json := JObject [("accounts", JArray
  [JObject [("name", JString "SYSPROG"); ("root", JString "./accounts/SYSPROG"); ("passwordHash", JString "secret")];
   JObject [("name", JString "DEMO"); ("root", JString "accounts/../DEMO"); ("passwordHash", JNull)]])].

Definition ex_login_host : LoginHost :=
  mkLoginHost (λ p, if String.eqb p "/g/ACCOUNTS.json" then Some ex_accounts else None) (λ _, Ok true)
    (λ p, bool_decide (p ∈ ["/g/accounts/SYSPROG"; "/g/accounts/SYSPROG/VOC"; "/g/DEMO"; "/g/DEMO/VOC"]))
    (λ _, None) ex_host.

Definition ex_console : Console := mkConsole (str_join NL ["list"; "nobody"; "sysprog"; "Secret"; "SysProg"; "secret "]) "" ex_world.

Lemma logon_needs_password_witness :
  let '(r, c') := runCatalogLogin ex_login_host "/g" "/g/accounts/SYSPROG" ColdStartPortInit ex_console in
  r = Ok (Some (mkSession "/g" "/g/accounts/SYSPROG" "SYSPROG" "SYSPROG")) ∧
  c_out c' = repeated 3 refusal +:+ "LOGON PLEASE: " +:+ String NL "" ∧
  granted ex_login_host "/g" "/g/accounts/SYSPROG" ColdStartPortInit ex_console (mkSession "/g" "/g/accounts/SYSPROG" "SYSPROG" "SYSPROG").
Proof.
  destruct (logon_needs_password ex_login_host "/g" "/g/accounts/SYSPROG" ColdStartPortInit ex_console (λ p, ex_intro _ true eq_refl))
    as (r & c' & E & Hg & _).
  { unfold readable. assert ((read ex_host (mkFs "/g/accounts/SYSPROG" false "") "MD" "AUTO-LOGON" ex_world).1 =
      Throw (FileSystemError "File not found: MD")) as H by (vm_compute; reflexivity).
    change (c_store ex_console) with ex_world. change (record_host ex_login_host) with ex_host. by rewrite H. }
  assert (Ok r = Ok (Some (mkSession "/g" "/g/accounts/SYSPROG" "SYSPROG" "SYSPROG")) ∧
          c_out c' = repeated 3 refusal +:+ "LOGON PLEASE: " +:+ String NL "") as [[= ->] Ho].
  { change (Ok r, c').1 with (Ok r). replace (Ok r) with (runCatalogLogin ex_login_host "/g" "/g/accounts/SYSPROG" ColdStartPortInit ex_console).1 by (by rewrite E).
    replace c' with (runCatalogLogin ex_login_host "/g" "/g/accounts/SYSPROG" ColdStartPortInit ex_console).2 by (by rewrite E).
    split; vm_compute; reflexivity. }
  rewrite E. split; [reflexivity|]. split; [exact Ho|]. by apply Hg.
Defined.

Example normal_paths :
  (lexically_normal <$> ["a/./b//c"; "a/b/.."; "/../x"; "../a/../.."; "a/.."; "/g/./accounts/SYSPROG/"]) =
  ["a/b/c"; "a/"; "/x"; "../.."; "."; "/g/accounts/SYSPROG/"].
Proof. by vm_compute. Qed.
