(* ===== verification/Daemon.v ===== *)
(** * The daemon

    [PickShell::GeminiDaemonRunner] with the [SessionTable] and [GeminiSessionHost]
    it uses: the sessions and their ports, which of them has a console, the
    threads that run them, and sessions that are to be destroyed.  Its functions
    are the handlers of the server.

    A session is its port; [streams_] has the channel whose streams it uses.  A
    thread is the channel its session reads when it was started, and whether it is
    still running.  What a session's program does is not modelled here, only what of it the
    daemon can see ([thread_event]).  Waiting for a thread takes as long as the thread does: it may wait for its turn
    or for input, or run for ever; what happens meanwhile, and whether it comes
    to its end, is given from outside ([Wait]). *)

From Stdlib Require Import Ascii String.
From S2P Require Import Prelude CLib Ipc Channel Server Sched Records Locks FileSys Login.
From stdpp Require Import options.
Local Open Scope Z_scope.

(** What a thread does that the daemon can see: it kills a session; it ends; the threads take turns; it notes
    the phase of its login; it writes; it uses a map that no lock protects at the same time as
    the loop or another thread ([boundSessionPorts_], [boundChannels_], [loginPhaseByPort_], the sessions); an exception leaves its function. *)
Inductive thread_event :=
| TKill (port : Z)
| TEnds (port : Z)
| TTurn (l : label)
| TPhase (port : Z) (phase : CatalogLoginPhase)
| TOutput (port : Z) (diagnostic : bool) (b : bytes)
| TRace
| TEscapes (e : exn).

(** One wait for a thread: what the threads do meanwhile, and whether the one that is waited for comes to its end. *)
Record Wait := mkWait { w_events : list thread_event; w_ends : bool }.

(** [waits_] is not the program's: the waits to come, one for each thread that is waited for; when there are no
    more, a thread ends at once. *)
(* src/userland/tcl/GeminiDaemonRunner.h:49-61 [GeminiDaemonRunner] *)
Record Host := mkHost {
  portManager : PortManager;
  maxSessions_ : Z;
  sessions_ : gset Z;
  streams_ : gmap Z nat;
  runner_ : Runner;
  boundSessionPorts_ : gset Z;
  boundChannels_ : gmap Z nat;
  loginPhaseByPort_ : gmap Z CatalogLoginPhase;
  sessionWorkerThreads_ : gmap Z (nat * bool);
  pendingDestroyPorts_ : list Z;
  shutdown_ : bool;
  waits_ : list Wait
}.

Definition set_sessions (pm : PortManager) (ss : gset Z) (st : gmap Z nat) (h : Host) : Host :=
  mkHost pm (maxSessions_ h) ss st (runner_ h) (boundSessionPorts_ h) (boundChannels_ h) (loginPhaseByPort_ h)
    (sessionWorkerThreads_ h) (pendingDestroyPorts_ h) (shutdown_ h) (waits_ h).
Definition set_streams (st : gmap Z nat) (h : Host) : Host := set_sessions (portManager h) (sessions_ h) st h.
Definition set_runner (r : Runner) (h : Host) : Host :=
  mkHost (portManager h) (maxSessions_ h) (sessions_ h) (streams_ h) r (boundSessionPorts_ h) (boundChannels_ h) (loginPhaseByPort_ h)
    (sessionWorkerThreads_ h) (pendingDestroyPorts_ h) (shutdown_ h) (waits_ h).
Definition set_bound (b : gset Z) (bc : gmap Z nat) (h : Host) : Host :=
  mkHost (portManager h) (maxSessions_ h) (sessions_ h) (streams_ h) (runner_ h) b bc (loginPhaseByPort_ h)
    (sessionWorkerThreads_ h) (pendingDestroyPorts_ h) (shutdown_ h) (waits_ h).
Definition set_phases (p : gmap Z CatalogLoginPhase) (h : Host) : Host :=
  mkHost (portManager h) (maxSessions_ h) (sessions_ h) (streams_ h) (runner_ h) (boundSessionPorts_ h) (boundChannels_ h) p
    (sessionWorkerThreads_ h) (pendingDestroyPorts_ h) (shutdown_ h) (waits_ h).
Definition set_workers (w : gmap Z (nat * bool)) (h : Host) : Host :=
  mkHost (portManager h) (maxSessions_ h) (sessions_ h) (streams_ h) (runner_ h) (boundSessionPorts_ h) (boundChannels_ h) (loginPhaseByPort_ h)
    w (pendingDestroyPorts_ h) (shutdown_ h) (waits_ h).
Definition set_pending (l : list Z) (h : Host) : Host :=
  mkHost (portManager h) (maxSessions_ h) (sessions_ h) (streams_ h) (runner_ h) (boundSessionPorts_ h) (boundChannels_ h) (loginPhaseByPort_ h)
    (sessionWorkerThreads_ h) l (shutdown_ h) (waits_ h).
Definition set_shutdown (h : Host) : Host :=
  mkHost (portManager h) (maxSessions_ h) (sessions_ h) (streams_ h) (runner_ h) (boundSessionPorts_ h) (boundChannels_ h) (loginPhaseByPort_ h)
    (sessionWorkerThreads_ h) (pendingDestroyPorts_ h) true (waits_ h).
Definition set_waits (l : list Wait) (h : Host) : Host :=
  mkHost (portManager h) (maxSessions_ h) (sessions_ h) (streams_ h) (runner_ h) (boundSessionPorts_ h) (boundChannels_ h) (loginPhaseByPort_ h)
    (sessionWorkerThreads_ h) (pendingDestroyPorts_ h) (shutdown_ h) l.

(* src/userland/tcl/SessionTable.cpp:8-8 [SessionTable::SessionTable] *)
Definition newHost (max : Z) : Host :=
  mkHost (newPortManager max) (if max <? 1 then 1 else max) ∅ ∅ newRunner ∅ ∅ ∅ ∅ [] false [].

Abbreviation Daemon := (Shared Host).

Definition host_get {A} (f : Host → A) : proc Daemon A := gets (λ s, f (hworld s)).
Definition host_set (f : Host → Host) : proc Daemon unit := modify (λ s, mkShared (channels s) (f (hworld s))).
Definition on_runner {A} (m : proc Runner A) : proc Daemon A :=
  zoom (λ s : Daemon, runner_ (hworld s)) (λ r s, mkShared (channels s) (set_runner r (hworld s))) m.

(** ** Sessions *)

(** The session's port, or the exception [session table full]. *)
(* src/userland/tcl/SessionTable.cpp:10-29 [SessionTable::createSession] *)
Definition createSession : proc Daemon (option Z) :=
  h ← host_get id;
  if maxSessions_ h <=? Z.of_nat (base.size (sessions_ h)) then mret None
  else
    let '(port, pm) := allocate (portManager h) in
    match port with
    | None => host_set (set_sessions pm (sessions_ h) (streams_ h));; mret None
    | Some p => host_set (set_sessions pm ({[p]} ∪ sessions_ h) (streams_ h));; mret (Some p)
    end.

(* src/userland/tcl/SessionTable.cpp:31-41 [SessionTable::destroySession] *)
Definition destroySession (id : Z) : proc Daemon unit :=
  host_set (λ h, if bool_decide (id ∈ sessions_ h)
                 then set_sessions (releasePort id (portManager h)) (sessions_ h ∖ {[id]}) (delete id (streams_ h)) h
                 else h).

(* src/userland/tcl/SessionTable.cpp:43-49 [SessionTable::find] *)
Definition session_exists (id : Z) : proc Daemon bool := host_get (λ h, bool_decide (id ∈ sessions_ h)).

(* src/userland/tcl/GeminiSessionHost.cpp:51-53 [GeminiSessionHost::retireSession] *)
Definition host_retire (id : Z) : proc Daemon unit := on_runner (retireSession id).

(* src/userland/tcl/GeminiSessionHost.cpp:63-70 [GeminiSessionHost::bindIpcChannelScheduling] *)
Definition bindIpcChannelScheduling (id : Z) (ch : nat) : proc Daemon unit :=
  on_channel ch (λ c, (tt, setSessionScheduling (mkScheduling id true true true) c)).

(* src/userland/tcl/GeminiSessionHost.cpp:72-74 [GeminiSessionHost::clearIpcChannelScheduling] *)
Definition clearIpcChannelScheduling (ch : nat) : proc Daemon unit := on_channel ch (λ c, (tt, clearSessionScheduling c)).

(* src/userland/tcl/GeminiSessionHost.cpp:20-25 [GeminiSessionHost::destroyAllSessions] *)
Definition destroyAllSessions : proc Daemon unit :=
  ids ← host_get (λ h, merge_sort Z.le (elements (sessions_ h)));
  foldr (λ id m, destroySession id;; m) (mret tt) ids.

(** ** Killing a session *)

(** [boundSessionPorts_.erase]. *)
Definition erase_bound (port : Z) (h : Host) : Host := set_bound (boundSessionPorts_ h ∖ {[port]}) (boundChannels_ h) h.

(** [setInputStream], [setOutputStream], [setDiagnosticStream], when the session exists. *)
Definition drop_streams (port : Z) (h : Host) : Host :=
  if bool_decide (port ∈ sessions_ h) then set_streams (delete port (streams_ h)) h else h.

Definition close_bound (port : Z) : proc Daemon unit :=
  bc ← host_get (λ h, boundChannels_ h !! port);
  match bc with
  | None => mret tt
  | Some ch =>
      clearIpcChannelScheduling ch;;
      on_channel ch (λ c, (tt, close c));;
      host_set (λ h, set_bound (boundSessionPorts_ h) (delete port (boundChannels_ h)) h)
  end.

(* src/userland/tcl/GeminiDaemonRunner.cpp:94-111 [GeminiDaemonRunner::unbindConsoleWithoutJoin] *)
Definition unbindConsoleWithoutJoin (port : Z) : proc Daemon unit :=
  close_bound port;;
  host_set (erase_bound port);;
  host_set (drop_streams port).

(** False: [error] is "session not found".  It runs on the thread of a session that has the token, and holds no lock for the maps it uses: this is what it does
    when nothing else uses them meanwhile, between two rounds of the loop or while the loop waits for a thread; when something does, the event is [TRace]. *)
(* src/userland/tcl/GeminiDaemonRunner.cpp:57-91 [GeminiDaemonRunner::killSession] *)
Definition killSession (port : Z) : proc Daemon bool :=
  there ← session_exists port;
  if negb (there : bool) then mret false
  else
    h ← host_get id;
    let hadWorker := bool_decide (port ∈ boundSessionPorts_ h) || bool_decide (is_Some (sessionWorkerThreads_ h !! port)) in
    if bool_decide (port ∈ boundSessionPorts_ h) then
      unbindConsoleWithoutJoin port;; host_retire port;;
      host_set (λ h, set_pending (pendingDestroyPorts_ h ++ [port]) h);; mret true
    else
      host_retire port;;
      if hadWorker then host_set (λ h, set_pending (pendingDestroyPorts_ h ++ [port]) h);; mret true
      else host_retire port;; destroySession port;; mret true.

(** ** Threads *)

Definition thread_ends (port : Z) : proc Daemon unit :=
  host_set (λ h, match sessionWorkerThreads_ h !! port with
                 | Some (ch, _) => set_workers (<[port := (ch, false)]> (sessionWorkerThreads_ h)) h
                 | None => h
                 end);;
  host_retire port.

(** The channel of a running thread; [joined]: the threads that the loop has taken out of the map to wait for them. *)
Definition running (joined : list (Z * nat)) (port : Z) (h : Host) : option nat :=
  match sessionWorkerThreads_ h !! port with
  | Some (ch, true) => Some ch
  | _ => snd <$> head (filter (λ j, j.1 = port) joined)
  end.

(** A running thread writes on its channel. *)
Definition thread_writes (joined : list (Z * nat)) (port : Z) (diagnostic : bool) (b : bytes) : proc Daemon unit :=
  w ← host_get (running joined port);
  match w with
  | Some ch => on_channel ch (λ c, (tt, writeOutputBytes b diagnostic c))
  | None => mret tt
  end.

Definition turn (l : label) : proc Daemon unit := λ s,
  match exec [l] (runner_ (hworld s)) with
  | Some r => (Ok tt, mkShared (channels s) (set_runner r (hworld s)))
  | None => (Ok tt, s)
  end.

(** A session that was killed before, and whose thread the loop waits for, is destroyed under its thread. *)
Definition killed_again (joined : list (Z * nat)) (port : Z) (h : Host) : bool :=
  bool_decide (port ∈ sessions_ h) && bool_decide (port ∈ joined.*1) &&
  negb (bool_decide (port ∈ boundSessionPorts_ h)) && negb (bool_decide (is_Some (sessionWorkerThreads_ h !! port))).

(** An exception that leaves a thread's function ends the process ([std::terminate]): nothing more happens, as after undefined
    behaviour.  (The thread of a session holds its turn while it kills another, so that no two do at the same time.) *)
Definition thread_step (joined : list (Z * nat)) (e : thread_event) : proc Daemon unit :=
  match e with
  | TKill port =>
      again ← host_get (killed_again joined port);
      if again : bool then lift (Undefined "session destroyed") else killSession port;; mret tt
  | TEnds port => thread_ends port
  | TTurn l => turn l
  | TPhase port phase => host_set (λ h, set_phases (<[port := phase]> (loginPhaseByPort_ h)) h)
  | TOutput port d b => thread_writes joined port d b
  | TRace => lift (Undefined "data race")
  | TEscapes _ => lift (Undefined "terminate")
  end.

Fixpoint thread_steps (joined : list (Z * nat)) (es : list thread_event) : proc Daemon unit :=
  match es with
  | [] => mret tt
  | e :: es' => thread_step joined e;; thread_steps joined es'
  end.

(** [worker.join()] for the thread of [port], which leaves the runner as the last thing it does; [others]: the threads that have been taken out of the map with it. *)
(* src/userland/tcl/GeminiDaemonRunner.cpp:169-171 [GeminiDaemonRunner::joinSessionWorker] *)
Definition join (port : Z) (w : nat * bool) (others : list (Z * nat)) : proc Daemon unit :=
  if negb w.2 then mret tt
  else
    ws ← host_get waits_;
    host_set (set_waits (tail ws));;
    let this := default (mkWait [] true) (head ws) in
    thread_steps ((port, w.1) :: others) (w_events this);;
    if w_ends this then host_retire port else lift (Undefined "blocked").

(* src/userland/tcl/GeminiDaemonRunner.cpp:158-172 [GeminiDaemonRunner::joinSessionWorker] *)
Definition joinSessionWorker (port : Z) : proc Daemon unit :=
  w ← host_get (λ h, sessionWorkerThreads_ h !! port);
  match w with
  | None => mret tt
  | Some w => host_set (λ h, set_workers (delete port (sessionWorkerThreads_ h)) h);; join port w []
  end.

(** The threads of the list that are still running. *)
Definition alive (ws : list (Z * (nat * bool))) : list (Z * nat) := omap (λ w, if w.2.2 : bool then Some (w.1, w.2.1) else None) ws.

Fixpoint join_each (ws : list (Z * (nat * bool))) : proc Daemon unit :=
  match ws with
  | [] => mret tt
  | w :: ws' => join w.1 w.2 (alive ws');; join_each ws'
  end.

(* src/userland/tcl/GeminiDaemonRunner.cpp:174-189 [GeminiDaemonRunner::joinAllSessionWorkers] *)
Definition joinAllSessionWorkers : proc Daemon unit :=
  ws ← host_get (λ h, map_to_list (sessionWorkerThreads_ h));
  host_set (set_workers ∅);;
  join_each ws.

(** The thread starts with the channel the session has now. *)
(* src/userland/tcl/GeminiDaemonRunner.cpp:191-255 [GeminiDaemonRunner::startSessionWorker] *)
Definition startSessionWorker (port : Z) (ch : nat) : proc Daemon unit :=
  there ← session_exists port;
  if negb (there : bool) then mret tt
  else joinSessionWorker port;; host_set (λ h, set_workers (<[port := (ch, true)]> (sessionWorkerThreads_ h)) h).

(** ** The handlers *)

Definition attach_to (port : Z) (ch : nat) : proc Daemon (AttachSessionStatus * Z) :=
  h ← host_get id;
  if bool_decide (port ∈ boundSessionPorts_ h) then mret (SessionAlreadyBound, 0)
  else if negb (bool_decide (port ∈ sessions_ h)) then mret (SessionNotFound, 0)
  else
    host_set (λ h, set_streams (<[port := ch]> (streams_ h)) h);;
    bindIpcChannelScheduling port ch;;
    host_set (λ h, set_bound ({[port]} ∪ boundSessionPorts_ h) (<[port := ch]> (boundChannels_ h)) h);;
    startSessionWorker port ch;;
    mret (AttachOk, port).

(* src/userland/tcl/GeminiDaemonRunner.cpp:257-294 [GeminiDaemonRunner::attachSession] *)
Definition attachSession_ (requestedPort : Z) (ch : nat) : proc Daemon (AttachSessionStatus * Z) :=
  if requestedPort =? 0 then
    created ← createSession;
    match created with None => mret (SessionTableFull, 0) | Some port => attach_to port ch end
  else
    there ← session_exists requestedPort;
    if negb (there : bool) then mret (SessionNotFound, 0) else attach_to requestedPort ch.

(* src/userland/tcl/GeminiDaemonRunner.cpp:296-316 [GeminiDaemonRunner::detachSession] *)
Definition detachSession_ (port : Z) : proc Daemon unit :=
  close_bound port;;
  joinSessionWorker port;;
  host_retire port;;
  host_set (erase_bound port);;
  host_set (drop_streams port).

Fixpoint drain_ports (ports : list Z) : proc Daemon (list Z) :=
  match ports with
  | [] => mret []
  | port :: ports' =>
      a ← host_get (λ h, active (runner_ h));
      if match a with Some x => negb (x =? port) | None => false end
      then rest ← drain_ports ports'; mret (port :: rest)
      else
        joinSessionWorker port;;
        host_retire port;;
        host_set (λ h, set_phases (delete port (loginPhaseByPort_ h)) h);;
        destroySession port;;
        drain_ports ports'
  end.

(* src/userland/tcl/GeminiDaemonRunner.cpp:113-139 [GeminiDaemonRunner::drainPendingSessionDestroys] *)
Definition drainPendingSessionDestroys : proc Daemon unit :=
  ports ← host_get pendingDestroyPorts_;
  host_set (set_pending []);;
  deferred ← drain_ports ports;
  host_set (λ h, set_pending (pendingDestroyPorts_ h ++ deferred) h).

(* src/userland/tcl/GeminiDaemonRunner.cpp:142-144 [GeminiDaemonRunner::requestShutdown] *)
Definition requestShutdown_ : proc Daemon unit := host_set set_shutdown.

(** What [run] gives to the server; [resumeOnInput] resumes the session for which
    the channel was bound. *)
(* src/userland/tcl/GeminiDaemonRunner.cpp:332-347 [GeminiDaemonRunner::run] *)
Definition handlers : DaemonIpcHandlers Host :=
  mkHandlers Host (Some createSession) (Some attachSession_) (Some detachSession_) (Some requestShutdown_)
    (λ port, on_runner (resume port)).

(** ** The daemon's loop *)

(** [boundSessionPorts_] is read once, then each port is detached. *)
(* src/userland/tcl/GeminiDaemonRunner.cpp:366-382 [GeminiDaemonRunner::shutdown] *)
Definition shutdown (s : Server) : proc Daemon Server :=
  drainPendingSessionDestroys;;
  boundPorts ← host_get (λ h, elements (boundSessionPorts_ h));
  foldr (λ p m, detachSession_ p;; m) (mret tt) boundPorts;;
  host_set (λ h, set_bound ∅ (boundChannels_ h) h);;
  joinAllSessionWorkers;;
  s' ← stop s;
  destroyAllSessions;;
  mret s'.

(** What happens between two looks at the flag: a round of the loop, or what a thread does between two rounds. *)
Inductive daemon_event :=
| ERound (env : PollEnv)
| EThread (e : thread_event).

Definition daemon_step (config : DaemonIpcServerConfig) (s : Server) (e : daemon_event) : proc Daemon Server :=
  match e with
  | ERound env =>
      drainPendingSessionDestroys;; r ← pollAndDispatch handlers env config s;
      (if (r : Server * bool).2 then requestShutdown_ else mret tt);; mret r.1
  | EThread e => thread_step [] e;; mret s
  end.

Fixpoint daemon_events (config : DaemonIpcServerConfig) (s : Server) (es : list daemon_event) : proc Daemon Server :=
  match es with
  | [] => mret s
  | e :: es' => s' ← daemon_step config s e; daemon_events config s' es'
  end.

(** The events until the loop ends, and the rest of [run]. *)
(* src/userland/tcl/GeminiDaemonRunner.cpp:319-364 [GeminiDaemonRunner::run] *)
Definition run (config : DaemonIpcServerConfig) (es : list daemon_event) : proc Daemon Server :=
  s ← daemon_events config (mkServer true []) es;
  drainPendingSessionDestroys;;
  shutdown s.

(** ** Which channels are in use

    A run may stop for what the threads do: [halts] has the reasons that are allowed. *)
Definition event_fine `{Halts} (e : thread_event) : Prop :=
  match e with TRace => halts "data race" | TEscapes _ => halts "terminate" | _ => True end.

Record wait_fine `{Halts} (w : Wait) : Prop := mkWaitFine {
  w_ended : w_ends w = false → halts "blocked";
  w_fine : Forall event_fine (w_events w);
  w_kills p : TKill p ∈ w_events w → halts "session destroyed"
}.

Section safety.
Context `{Stop : Halts}.

(** [held]: the port and the channel of each connection.  What the daemon keeps
    refers to those only; the threads that have ended do not matter.  [exempt] is a
    port whose streams are being set or dropped. *)
Record daemon_ok (exempt : option Z) (held : list (Z * nat)) (h : Host) : Prop := mkDaemonOk {
  d_ports : ports_wf (portManager h);
  d_sessions : inUse (portManager h) = sessions_ h;
  d_bound_held p ch : boundChannels_ h !! p = Some ch → (p, ch) ∈ held;
  d_worker_held p ch : sessionWorkerThreads_ h !! p = Some (ch, true) → (p, ch) ∈ held;
  d_stream_held p ch : streams_ h !! p = Some ch → (p, ch) ∈ held;
  d_stream_session p : is_Some (streams_ h !! p) → p ∈ sessions_ h;
  d_stream_bound p : Some p ≠ exempt → is_Some (streams_ h !! p) → p ∈ boundSessionPorts_ h;
  d_bound_dom p ch : boundChannels_ h !! p = Some ch → p ∈ boundSessionPorts_ h;
  d_waits : Forall wait_fine (waits_ h)
}.

Lemma daemon_ok_more x held held' h : (∀ c, c ∈ held → c ∈ held') → daemon_ok x held h → daemon_ok x held' h.
Proof. intros Hsub []. constructor; eauto. Qed.

Lemma held_in x held h (D : gset nat) : daemon_ok x held h → list_to_set held.*2 ⊆ D →
  (∀ p ch, boundChannels_ h !! p = Some ch → ch ∈ D) ∧ (∀ p ch, sessionWorkerThreads_ h !! p = Some (ch, true) → ch ∈ D).
Proof.
  intros H HD. assert (∀ p ch, (p, ch) ∈ held → ch ∈ D) as Hh.
  { intros p ch Hin. apply HD, elem_of_list_to_set, list_elem_of_fmap. by exists (p, ch). }
  split; intros p ch Hc; [by eapply Hh, d_bound_held|by eapply Hh, d_worker_held].
Qed.

(** States of the daemon by the host and the names of the channels. *)
Section on.
Context (D : gset nat).

Definition on (P : Host → Prop) (s : Daemon) : Prop := P (hworld s) ∧ dom (channels s) = D.

Lemma on_set (P Q : Host → Prop) f : (∀ h, P h → Q (f h)) → ends (on P) (host_set f) (λ _, on Q).
Proof. intros H. apply ends_modify. intros s [Hp Hd]. split; [by apply H|done]. Qed.

Lemma on_modify (f g : Host → Host) (P Q : Host → Prop) : (∀ h, P h → Q (g (f h))) → ends (on P) (host_set f;; host_set g) (λ _, on Q).
Proof. intros H s [Hp Hd]. split; [by apply H|done]. Qed.

Lemma on_get {A B} (P : Host → Prop) (f : Host → A) (k : A → proc Daemon B) R :
  (∀ h0, P h0 → ends (on (λ h, h = h0)) (k (f h0)) R) → ends (on P) (host_get f ≫= k) R.
Proof. intros H s [Hp Hd]. by apply (H (hworld s)). Qed.

Lemma on_same {A} (P : Host → Prop) (m : proc Daemon A) h0 R : P h0 → ends (on P) m R → ends (on (λ h, h = h0)) m R.
Proof. intros H0 Hm s [<- Hd]. by apply Hm. Qed.

Lemma on_got {A B} (P : Host → Prop) (f : Host → A) (k : A → proc Daemon B) R :
  (∀ a, ends (on P) (k a) R) → ends (on P) (host_get f ≫= k) R.
Proof. intros H. apply on_get. intros h0 H0. by eapply on_same. Qed.

Lemma on_ret {A} (P : Host → Prop) (Q : A → Host → Prop) a : (∀ h, P h → Q a h) → ends (on P) (mret a) (λ a, on (Q a)).
Proof. intros H. apply ends_ret. intros s [Hp Hd]. split; [by apply H|done]. Qed.

Lemma on_bind {A B} (P : Host → Prop) (Q : A → Host → Prop) (m : proc Daemon A) (k : A → proc Daemon B) R :
  ends (on P) m (λ a, on (Q a)) → (∀ a, ends (on (Q a)) (k a) R) → ends (on P) (m ≫= k) R.
Proof. apply (ends_bind _ _ _ (λ a, on (Q a))). Qed.

Lemma on_seq {B} (P Q : Host → Prop) (m : proc Daemon unit) (k : unit → proc Daemon B) R :
  ends (on P) m (λ _, on Q) → ends (on Q) (k tt) R → ends (on P) (m ≫= k) R.
Proof. intros Hm Hk. eapply (on_bind _ (λ _, Q)); [exact Hm|]. by intros []. Qed.

Lemma on_weaken {A} (P P' : Host → Prop) (Q Q' : A → Host → Prop) (m : proc Daemon A) :
  ends (on P) m (λ a, on (Q a)) → (∀ h, P' h → P h) → (∀ a h, Q a h → Q' a h) → ends (on P') m (λ a, on (Q' a)).
Proof. intros Hm HP HQ. eapply ends_weaken; [exact Hm|..]; [intros s [? ?]|intros a s [? ?]]; (split; [eauto|done]). Qed.

Lemma on_channel_use {A} (P : Host → Prop) ch (f : IpcSessionChannel → A * IpcSessionChannel) : ch ∈ D →
  ends (on P) (on_channel ch f) (λ _, on P).
Proof.
  intros Hin s [Hp Hd]. unfold on_channel.
  assert (is_Some (channels s !! ch)) as [c Hc] by (apply elem_of_dom; by rewrite Hd).
  rewrite Hc. destruct (f c) as [a c']. split; [done|]. cbn [channels]. rewrite <- Hd, dom_insert_lookup_L; [done|by eexists].
Qed.

(** Only the turns of the threads change. *)
Lemma on_runner_ok (P : Host → Prop) (m : proc Runner unit) : (∀ r, (m r).1 = Ok tt) → (∀ h r, P h → P (set_runner r h)) →
  ends (on P) (on_runner m) (λ _, on P).
Proof.
  intros Hm HP s [Hp Hd]. unfold on_runner, zoom. destruct (m (runner_ (hworld s))) as [o r] eqn:E. cbn.
  specialize (Hm (runner_ (hworld s))). rewrite E in Hm. cbn in Hm. rewrite Hm. split; [by apply HP|done].
Qed.

Lemma close_bound_ok (P Q : Host → Prop) port :
  (∀ h ch, P h → boundChannels_ h !! port = Some ch → ch ∈ D) →
  (∀ h, P h → Q (set_bound (boundSessionPorts_ h) (delete port (boundChannels_ h)) h)) →
  ends (on P) (close_bound port) (λ _, on Q).
Proof.
  intros Hw HQ. unfold close_bound. apply on_get. intros h0 H0. destruct (boundChannels_ h0 !! port) as [ch|] eqn:E.
  - assert (ch ∈ D) as Hin by by eapply Hw.
    refine (on_bind _ (λ _ h, h = h0) _ _ _ (on_channel_use _ ch _ Hin) _). intros [].
    refine (on_bind _ (λ _ h, h = h0) _ _ _ (on_channel_use _ ch _ Hin) _). intros [].
    apply on_set. intros h ->. by apply HQ.
  - apply on_ret. intros h ->. specialize (HQ h0 H0). rewrite delete_id in HQ by done. by destruct h0.
Qed.
End on.

(** ** The operations *)

Section host_changes.
Context (held : list (Z * nat)).

Lemma runner_free x h r : daemon_ok x held h → daemon_ok x held (set_runner r h).
Proof. intros []. by constructor. Qed.

Lemma workers_free x h w : (∀ p ch, w !! p = Some (ch, true) → (p, ch) ∈ held) → daemon_ok x held h → daemon_ok x held (set_workers w h).
Proof. intros Hw []. by constructor. Qed.

Lemma worker_gone x h port : daemon_ok x held h → daemon_ok x held (set_workers (delete port (sessionWorkerThreads_ h)) h).
Proof. intros H. apply workers_free; [|done]. intros p ch [_ Hc]%lookup_delete_Some. by eapply d_worker_held. Qed.

Lemma channel_gone x h port : daemon_ok x held h → daemon_ok x held (set_bound (boundSessionPorts_ h) (delete port (boundChannels_ h)) h).
Proof. intros []. constructor; try done; cbn; intros p ch [_ Hc]%lookup_delete_Some; eauto. Qed.

(** The console of [port] goes: the port is free again, and no stream is left. *)
Lemma unbound x h port : daemon_ok x held h → boundChannels_ h !! port = None →
  let h2 := drop_streams port (erase_bound port h) in
  (x = None ∨ x = Some port) →
  daemon_ok None held h2 ∧ streams_ h2 !! port = None ∧ boundChannels_ h2 = boundChannels_ h ∧
  sessionWorkerThreads_ h2 = sessionWorkerThreads_ h ∧ boundSessionPorts_ h2 = boundSessionPorts_ h ∖ {[port]}.
Proof.
  intros Hok Hb h2 Hx.
  assert (streams_ h2 = delete port (streams_ h)) as Hst.
  { unfold h2, drop_streams. case_bool_decide as Hin; [done|]. cbn in *. rewrite delete_id; [done|].
    apply eq_None_not_Some. intros Hs. by apply Hin, (d_stream_session _ _ _ Hok). }
  assert (sessions_ h2 = sessions_ h ∧ portManager h2 = portManager h ∧ boundChannels_ h2 = boundChannels_ h ∧
    sessionWorkerThreads_ h2 = sessionWorkerThreads_ h ∧ boundSessionPorts_ h2 = boundSessionPorts_ h ∖ {[port]} ∧ waits_ h2 = waits_ h) as (Hs & Hp & Hbc & Hw & Hbs & Hws).
  { unfold h2, drop_streams. by case_bool_decide. }
  split; [|by rewrite Hst, lookup_delete_eq].
  destruct Hok. constructor; rewrite ?Hs, ?Hp, ?Hbc, ?Hw, ?Hbs, ?Hst, ?Hws; try done.
  - intros p ch [_ Hc]%lookup_delete_Some. eauto.
  - intros p [ch [_ Hc]%lookup_delete_Some]. eauto.
  - intros p _ [ch [Hne Hc]%lookup_delete_Some]. apply elem_of_difference. split; [|set_solver].
    apply d_stream_bound0; [destruct Hx as [->| ->]; congruence|by eexists].
  - intros p ch Hc. apply elem_of_difference. split; [by eapply d_bound_dom0|]. intros ->%elem_of_singleton. congruence.
Qed.
Lemma list_free x h l : daemon_ok x held h → daemon_ok x held (set_pending l h).
Proof. intros []. by constructor. Qed.

Lemma session_gone h id : id ∈ sessions_ h → daemon_ok None held h →
  daemon_ok None held (set_sessions (releasePort id (portManager h)) (sessions_ h ∖ {[id]}) (delete id (streams_ h)) h).
Proof.
  intros Hin []. constructor; cbn; try done.
  - apply releasePort_wf; [|done]. apply (pw_range _ d_ports0). by rewrite d_sessions0.
  - by rewrite d_sessions0.
  - intros p ch [_ Hc]%lookup_delete_Some. eauto.
  - intros p [ch [Hne Hc]%lookup_delete_Some]. apply elem_of_difference. split; [eauto|set_solver].
  - intros p _ [ch [Hne Hc]%lookup_delete_Some]. apply d_stream_bound0; [done|by eexists].
Qed.

Lemma session_made h : daemon_ok None held h →
  let '(port, pm) := allocate (portManager h) in
  match port with
  | None => daemon_ok None held (set_sessions pm (sessions_ h) (streams_ h) h)
  | Some p => daemon_ok None held (set_sessions pm ({[p]} ∪ sessions_ h) (streams_ h) h)
  end.
Proof.
  intros []. pose proof (allocate_wf _ d_ports0) as Ha. destruct (allocate (portManager h)) as [[p|] pm]; cbn [fst snd] in Ha.
  - destruct Ha as (Hw & _ & _ & _ & Hu). constructor; cbn; try done; [by rewrite Hu, d_sessions0|set_solver].
  - destruct Ha as (Hw & _ & Hu). constructor; cbn; try done. by rewrite Hu.
Qed.

Lemma stream_set h port ch : (port, ch) ∈ held → port ∈ sessions_ h → daemon_ok None held h →
  daemon_ok (Some port) held (set_streams (<[port := ch]> (streams_ h)) h).
Proof.
  intros Hin Hs []. constructor; cbn; try done.
  - intros p c [[-> ->]|[_ Hc]]%lookup_insert_Some; eauto.
  - intros p [c [[-> _]|[_ Hc]]%lookup_insert_Some]; eauto.
  - intros p Hne [c [[-> _]|[_ Hc]]%lookup_insert_Some]; [done|]. apply d_stream_bound0; [done|by eexists].
Qed.

Lemma console_set h port ch : (port, ch) ∈ held → daemon_ok (Some port) held h →
  daemon_ok None held (set_bound ({[port]} ∪ boundSessionPorts_ h) (<[port := ch]> (boundChannels_ h)) h).
Proof.
  intros Hin []. constructor; cbn; try done.
  - intros p c [[-> ->]|[_ Hc]]%lookup_insert_Some; eauto.
  - intros p _ Hc. apply elem_of_union. destruct (decide (p = port)) as [->|Hne]; [left; by apply elem_of_singleton|right].
    apply d_stream_bound0; [congruence|done].
  - intros p c [[-> _]|[_ Hc]]%lookup_insert_Some; apply elem_of_union; [left; by apply elem_of_singleton|right; eauto].
Qed.
End host_changes.

(** After a detachment nothing refers to a channel by way of this port. *)
Definition clean (port : Z) (h : Host) : Prop :=
  boundChannels_ h !! port = None ∧ sessionWorkerThreads_ h !! port = None ∧ streams_ h !! port = None.

(** What the threads do while the loop waits only takes away from what the loop knows. *)
Record loses (h h' : Host) : Prop := mkLoses {
  l_bound : boundSessionPorts_ h' ⊆ boundSessionPorts_ h;
  l_channels : boundChannels_ h' ⊆ boundChannels_ h;
  l_streams : streams_ h' ⊆ streams_ h;
  l_workers : dom (sessionWorkerThreads_ h') ⊆ dom (sessionWorkerThreads_ h)
}.

#[local] Instance loses_preorder : PreOrder loses.
Proof.
  split; [by split|]. intros h1 h2 h3 [] []. split; by etrans.
Qed.

(** What is true before a wait, and still after it. *)
Record stable (held : list (Z * nat)) (P : Host → Prop) : Prop := mkStable {
  st_ok h : P h → daemon_ok None held h;
  st_less h h' : P h → daemon_ok None held h' → loses h h' → P h'
}.

Lemma stable_ok held : stable held (daemon_ok None held).
Proof. by split. Qed.

Section operations.
Context (held : list (Z * nat)) (D : gset nat) (HD : list_to_set held.*2 ⊆ D).
#[local] Set Default Proof Using "Type*".

Lemma bound_in x (P : Host → Prop) port : (∀ h, P h → daemon_ok x held h) →
  ∀ h ch, P h → boundChannels_ h !! port = Some ch → ch ∈ D.
Proof. intros HP h ch Hh. eapply held_in; [by apply HP|done]. Qed.

Lemma retire_ok (P : Host → Prop) port : (∀ h r, P h → P (set_runner r h)) → ends (on D P) (host_retire port) (λ _, on D P).
Proof using Type. intros HP. by apply on_runner_ok. Qed.

Lemma still_in (P : Host → Prop) : stable held P → ∀ h p ch, P h →
  (boundChannels_ h !! p = Some ch → ch ∈ D) ∧ (sessionWorkerThreads_ h !! p = Some (ch, true) → ch ∈ D).
Proof. intros HP h p ch Hh. destruct (held_in None held h D (st_ok _ _ HP h Hh) HD) as [Hb Hw]. split; eauto. Qed.

Lemma on_lose (P : Host → Prop) f : stable held P →
  (∀ h, P h → daemon_ok None held (f h) ∧ loses h (f h)) → ends (on D P) (host_set f) (λ _, on D P).
Proof using Type. intros HP Hf. apply on_set. intros h Hh. destruct (Hf h Hh). by eapply (st_less _ _ HP). Qed.

Lemma retire_still (P : Host → Prop) port : stable held P → ends (on D P) (host_retire port) (λ _, on D P).
Proof using Type.
  intros HP. apply retire_ok. intros h r Hh. eapply (st_less _ _ HP); [done|by apply runner_free, (st_ok _ _ HP)|by split].
Qed.

Lemma unbind_ok (P : Host → Prop) port : stable held P → ends (on D P) (unbindConsoleWithoutJoin port) (λ _, on D P).
Proof.
  intros HP. unfold unbindConsoleWithoutJoin.
  refine (on_bind _ _ (λ _ h, P h ∧ boundChannels_ h !! port = None) _ _ _ (close_bound_ok _ _ _ _ _ _) _).
  { intros h ch Hh. by apply (still_in P HP h port ch). }
  { intros h Hh. split; [|apply lookup_delete_eq]. eapply (st_less _ _ HP); [done|by apply channel_gone, (st_ok _ _ HP)|].
    split; cbn; [done|apply delete_subseteq|done..]. }
  intros []. apply (on_modify D (erase_bound port) (drop_streams port)). intros h [Hh Hc].
  destruct (unbound held None h port (st_ok _ _ HP h Hh) Hc (or_introl eq_refl)) as (H1 & _ & H3 & H4 & H5).
  eapply (st_less _ _ HP); [done|done|]. split; [rewrite H5; set_solver|by rewrite H3| |by rewrite H4].
  unfold drop_streams. case_bool_decide; cbn; [apply delete_subseteq|done].
Qed.

Lemma kill_ok (P : Host → Prop) port : stable held P → ends (on D P) (killSession port) (λ _, on D P).
Proof.
  intros HP. assert (∀ f (b : bool), (∀ h, P h → daemon_ok None held (f h) ∧ loses h (f h)) →
    ends (on D P) (host_set f;; mret b) (λ _, on D P)) as Hset.
  { intros f b Hf. refine (on_bind _ _ (λ _, _) _ _ _ (on_lose P f HP Hf) _). intros _. by apply on_ret. }
  assert (ends (on D P) (host_retire port) (λ _, on D P)) as Hret by by apply retire_still.
  assert (∀ b : bool, ends (on D P) (host_set (λ h, set_pending (pendingDestroyPorts_ h ++ [port]) h);; mret b) (λ _, on D P)) as Hpend.
  { intros b. apply Hset. intros h Hh. split; [by apply list_free, (st_ok _ _ HP)|by split]. }
  unfold killSession, session_exists. apply on_got. intros [|]; cbn [negb]; [|by apply on_ret].
  apply on_got. intros h1. case_bool_decide; cbn [orb].
  - eapply on_seq; [by apply unbind_ok|]. eapply on_seq; [exact Hret|]. apply Hpend.
  - eapply on_seq; [exact Hret|]. destruct (bool_decide _); [apply Hpend|].
    eapply on_seq; [exact Hret|]. apply Hset. intros h Hh%(st_ok _ _ HP). case_bool_decide; [|by split].
    split; [by apply session_gone|]. split; cbn; [done|done|apply delete_subseteq|done].
Qed.

Lemma thread_ends_ok (P : Host → Prop) port : stable held P → ends (on D P) (thread_ends port) (λ _, on D P).
Proof.
  intros HP. eapply on_seq; [apply (on_lose P _ HP)|by apply retire_still]. intros h Hh. pose proof (st_ok _ _ HP h Hh) as Hok.
  destruct (sessionWorkerThreads_ h !! port) as [[ch b]|] eqn:E; [|by split]. split.
  - apply workers_free; [|done]. intros p c [[_ [=]]|[_ Hc]]%lookup_insert_Some. by eapply d_worker_held.
  - split; cbn; [done..|]. by rewrite dom_insert_lookup_L by eauto.
Qed.

Lemma thread_writes_ok (P : Host → Prop) joined port d b : stable held P → joined.*2 ⊆ elements D →
  ends (on D P) (thread_writes joined port d b) (λ _, on D P).
Proof.
  intros HP Hj. unfold thread_writes. apply on_get. intros h0 H0. apply (on_same D P); [done|].
  destruct (running joined port h0) as [ch|] eqn:E; [|by apply on_ret]. apply on_channel_use. revert E. unfold running.
  assert (∀ c, snd <$> head (filter (λ j : Z * nat, j.1 = port) joined) = Some c → c ∈ D) as Hf.
  { intros c. destruct (filter _ joined) as [|j l] eqn:Ef; [done|]. intros [= <-]. assert (j ∈ filter (λ j : Z * nat, j.1 = port) joined) as Hin by (rewrite Ef; constructor).
    apply list_elem_of_filter in Hin as [_ Hin]. apply elem_of_elements, Hj, list_elem_of_fmap. by exists j. }
  destruct (sessionWorkerThreads_ h0 !! port) as [[c [|]]|] eqn:E; [|apply Hf..]. intros [= <-]. by apply (still_in P HP h0 port c).
Qed.

Lemma turn_ok (P : Host → Prop) l : stable held P → ends (on D P) (turn l) (λ _, on D P).
Proof using Type.
  intros HP s [Hh Hd]. unfold turn. destruct (exec _ _) as [r|]; [|done]. split; [|done].
  eapply (st_less _ _ HP); [done|by apply runner_free, (st_ok _ _ HP)|by split].
Qed.

Lemma thread_step_ok (P : Host → Prop) joined e : stable held P → joined.*2 ⊆ elements D → event_fine e →
  (∀ p, e = TKill p → joined = [] ∨ halts "session destroyed") → ends (on D P) (thread_step joined e) (λ _, on D P).
Proof.
  intros HP Hj He Hk. destruct e as [p|p|l|p phase|p d b| |e]; cbn [thread_step].
  - apply on_get. intros h0 H0. apply (on_same D P); [done|]. destruct (killed_again joined p h0) eqn:Ea.
    + apply ends_stop. destruct (Hk p eq_refl) as [->|]; [|done]. revert Ea. unfold killed_again.
      by rewrite (bool_decide_false (p ∈ [].*1)), andb_false_r by apply not_elem_of_nil.
    + refine (on_bind _ _ (λ _, P) _ _ _ (kill_ok P p HP) _). intros b. by apply on_ret.
  - by apply thread_ends_ok.
  - by apply turn_ok.
  - apply on_lose; [done|]. intros h Hh%(st_ok _ _ HP). split; [destruct Hh; by constructor|by split].
  - by apply thread_writes_ok.
  - by apply ends_stop.
  - by apply ends_stop.
Qed.

Lemma thread_steps_ok (P : Host → Prop) joined es : stable held P → joined.*2 ⊆ elements D → Forall event_fine es →
  (∀ p, TKill p ∈ es → halts "session destroyed") → ends (on D P) (thread_steps joined es) (λ _, on D P).
Proof.
  intros HP Hj He. induction He as [|e es He Hes IH]; intros Hk; cbn [thread_steps]; [by apply on_ret|].
  eapply on_seq; [apply thread_step_ok; [done..|]|].
  - intros p ->. right. apply (Hk p). constructor.
  - apply IH. intros p Hp. apply (Hk p). by constructor.
Qed.

Lemma join_ok (P : Host → Prop) port w others : stable held P → (w.2 = true → w.1 ∈ D) → others.*2 ⊆ elements D →
  ends (on D P) (join port w others) (λ _, on D P).
Proof.
  intros HP Hw Ho. unfold join. destruct w as [ch [|]]; cbn [fst snd negb] in *; [|by apply on_ret].
  apply on_get. intros h0 H0. pose proof (d_waits _ _ _ (st_ok _ _ HP h0 H0)) as Hws.
  assert (wait_fine (default (mkWait [] true) (head (waits_ h0)))) as Hf.
  { destruct Hws as [|w ws Hw0]; [|done]. split; [done|constructor|]. intros p Hp%not_elem_of_nil. done. }
  apply (on_same D P); [done|]. destruct Hf as [Hend Hev Hk].
  eapply on_seq; [apply (on_lose P _ HP)|eapply on_seq; [apply (thread_steps_ok P); [done| |done..]|]].
  - intros h Hh%(st_ok _ _ HP). split; [|by split]. destruct Hh. constructor; try done. cbn. destruct Hws; [constructor|done].
  - cbn. intros c [->|Hc]%elem_of_cons; [apply elem_of_elements; by apply Hw|by apply Ho].
  - destruct (w_ends _); [by apply retire_still|]. by apply ends_stop, Hend.
Qed.

Lemma joinSessionWorker_ok (P Q : Host → Prop) port : stable held Q → (∀ h, P h → daemon_ok None held h) →
  (∀ h, P h → Q (set_workers (delete port (sessionWorkerThreads_ h)) h)) → ends (on D P) (joinSessionWorker port) (λ _, on D Q).
Proof.
  intros HQ HP H. unfold joinSessionWorker. apply on_get. intros h0 H0. destruct (sessionWorkerThreads_ h0 !! port) as [[ch b]|] eqn:E.
  - eapply on_seq; [apply (on_set D _ Q); intros h ->; by apply H|]. apply join_ok; [done| |by cbn; set_solver].
    cbn. intros ->. by eapply (held_in None held h0 D (HP h0 H0) HD).
  - apply on_ret. intros h ->. specialize (H h0 H0). rewrite delete_id in H by done. by destruct h0.
Qed.

Lemma detach_ok (X : gset Z) port :
  ends (on D (λ h, daemon_ok None held h ∧ boundSessionPorts_ h ⊆ {[port]} ∪ X)) (detachSession_ port)
    (λ _, on D (λ h, (daemon_ok None held h ∧ boundSessionPorts_ h ⊆ X) ∧ clean port h)).
Proof.
  unfold detachSession_. set (B := λ h, boundSessionPorts_ h ⊆ {[port]} ∪ X).
  refine (on_bind _ _ (λ _ h, (daemon_ok None held h ∧ B h) ∧ boundChannels_ h !! port = None) _ _ _ (close_bound_ok _ _ _ _ _ _) _).
  { apply (bound_in None). by intros h []. }
  { intros h [Hok Hb]. cbn. split; [split; [by apply channel_gone|done]|by rewrite lookup_delete_eq]. }
  intros []. refine (on_bind _ _ (λ _ h, (daemon_ok None held h ∧ B h) ∧ boundChannels_ h !! port = None ∧ sessionWorkerThreads_ h !! port = None) _ _ _ (joinSessionWorker_ok _ _ _ _ _ _) _).
  { split; [by intros h [[] ?]|]. intros h h' [[_ Hb] [Hc Hw]] Hok' []. unfold B in *. split; [split; [done|set_solver]|].
    split; [by eapply lookup_weaken_None|]. apply not_elem_of_dom. apply not_elem_of_dom in Hw. set_solver. }
  { by intros h [[] ?]. }
  { intros h [[Hok Hb] Hc]. cbn. split; [split; [by apply worker_gone|done]|split; [done|by rewrite lookup_delete_eq]]. }
  intros []. refine (on_bind _ _ _ _ _ _ (retire_ok _ _ _) _).
  { intros h r [[Hok Hb] Hc]. split; [split; [by apply runner_free|done]|done]. }
  intros []. apply (on_modify D (erase_bound port) (drop_streams port)). intros h [[Hok Hb] [Hc Hw]].
  destruct (unbound held None h port Hok Hc (or_introl eq_refl)) as (H1 & H2 & H3 & H4 & H5).
  split; [split; [exact H1|]|split; [by rewrite H3|split; [by rewrite H4|exact H2]]].
  rewrite H5. unfold B in Hb. set_solver.
Qed.

Lemma destroy_ok id : ends (on D (daemon_ok None held)) (destroySession id) (λ _, on D (daemon_ok None held)).
Proof using Type. apply on_set. intros h Hok. case_bool_decide; [by apply session_gone|done]. Qed.

Lemma drain_ports_ok ports : ends (on D (daemon_ok None held)) (drain_ports ports) (λ _, on D (daemon_ok None held)).
Proof.
  induction ports as [|port ports IH]; cbn [drain_ports]; [by apply on_ret|].
  apply on_got. intros a. destruct (match a with Some x => negb (x =? port) | None => false end).
  { eapply on_bind; [exact IH|]. intros rest. by apply on_ret. }
  eapply on_seq.
  { apply (joinSessionWorker_ok (daemon_ok None held) (daemon_ok None held)); [apply stable_ok|done|]. intros h. apply worker_gone. }
  eapply on_seq; [apply retire_ok; intros h r; apply runner_free|].
  eapply on_seq; [apply (on_set D _ (daemon_ok None held)); intros h []; by constructor|].
  eapply on_seq; [apply destroy_ok|]. exact IH.
Qed.

Lemma drain_ok : ends (on D (daemon_ok None held)) drainPendingSessionDestroys (λ _, on D (daemon_ok None held)).
Proof.
  unfold drainPendingSessionDestroys. apply on_got. intros ports.
  eapply on_seq; [apply (on_set D _ (daemon_ok None held)); intros h; apply list_free|].
  eapply on_bind; [apply drain_ports_ok|]. intros l. apply on_set. intros h. apply list_free.
Qed.

Lemma create_ok : ends (on D (daemon_ok None held)) createSession (λ _, on D (daemon_ok None held)).
Proof using Type.
  unfold createSession. apply on_get. intros h0 H0. cbn [id]. destruct (_ <=? _); [by apply on_ret; intros h ->|].
  pose proof (session_made held h0 H0) as Hm. destruct (allocate (portManager h0)) as [[p|] pm];
    (eapply on_seq; [apply (on_set D _ (daemon_ok None held)); intros h ->; exact Hm|]; by apply on_ret).
Qed.
End operations.

(** Attaching a new channel: it is held from then on, if it is accepted. *)
Lemma attach_to_ok held (D : gset nat) port ch : ch ∈ D → list_to_set held.*2 ⊆ D →
  ends (on D (daemon_ok None held)) (attach_to port ch)
    (λ r, on D (daemon_ok None (if decide (r.1 = AttachOk) then (r.2, ch) :: held else held))).
Proof.
  intros Hch HD. unfold attach_to. apply on_get. intros h0 H0. cbn [id].
  case_bool_decide; [by apply on_ret; intros h ->|]. case_bool_decide as Hin; cbn [negb]; [|by apply on_ret; intros h ->].
  set (held' := (port, ch) :: held). assert (list_to_set held'.*2 ⊆ D) as HD' by (cbn; set_solver).
  assert ((port, ch) ∈ held') as Hh by constructor.
  assert (daemon_ok None held' h0) as H0' by (eapply daemon_ok_more; [|exact H0]; intros c; by constructor).
  eapply on_seq; [apply (on_set D _ (λ h, daemon_ok (Some port) held' h)); intros h ->; by apply stream_set|].
  eapply on_seq; [by apply on_channel_use|].
  eapply on_seq; [apply (on_set D _ (daemon_ok None held')); intros h; by apply console_set|].
  refine (on_bind _ _ (λ _, daemon_ok None held') _ _ _ _ _); [|intros []; by apply on_ret].
  unfold startSessionWorker, session_exists. apply on_got. intros there.
  destruct there; cbn [negb]; [|by apply on_ret]. eapply on_seq.
  { apply (joinSessionWorker_ok held' D HD' (daemon_ok None held') (daemon_ok None held')); [apply stable_ok|done|]. intros h. apply worker_gone. }
  apply on_set. intros h Hok. apply workers_free; [|done].
  intros p c [[<- [= <-]]|[_ Hc]]%lookup_insert_Some; [done|by eapply d_worker_held].
Qed.

Lemma clean_drop p ch held h : daemon_ok None ((p, ch) :: held) h → clean p h → daemon_ok None held h.
Proof.
  intros [] (Hb & Hw & Hs).
  constructor; try done; intros q c Hc; [apply d_bound_held0 in Hc as Hin|apply d_worker_held0 in Hc as Hin|apply d_stream_held0 in Hc as Hin];
    (apply elem_of_cons in Hin as [[= -> ->]|Hin]; [congruence|done]).
Qed.

#[export] Instance daemon_safe : SafeHandlers handlers (daemon_ok None).
Proof.
  constructor.
  - intros held held' w Hp. apply daemon_ok_more. intros c. by rewrite Hp.
  - intros r [= <-] held D HD. apply create_ok.
  - intros r [= <-] held D HD. apply on_set. intros h []. by constructor.
  - intros p held D HD. apply on_runner_ok; [done|]. intros h r. apply runner_free.
  - intros f p ch held D [= <-] Hch HD. unfold attachSession_. destruct (p =? 0).
    + eapply on_bind; [apply create_ok|]. intros [port|]; [by apply attach_to_ok|by apply on_ret].
    + unfold session_exists. apply on_got. intros there.
      destruct there; cbn [negb]; [by apply attach_to_ok|by apply on_ret].
  - exists detachSession_. split; [done|]. intros p ch held D Hch HD s [Hok Hd].
    assert (list_to_set (((p, ch) :: held).*2) ⊆ D) as HD' by (cbn; set_solver).
    refine (on_weaken D _ (λ h, h = hworld s) _ (λ _, daemon_ok None held) _ (detach_ok ((p, ch) :: held) D HD' (boundSessionPorts_ (hworld s)) p) _ _ s (conj eq_refl Hd)).
    + intros h ->. split; [done|]. set_solver.
    + intros [] h [[Ho _] Hc]. by eapply clean_drop.
Qed.

(** ** The loop *)

Abbreviation holding := (whole (daemon_ok None)).

Lemma keeps_drain : keeps (daemon_ok None) drainPendingSessionDestroys.
Proof. intros held D HD. by apply drain_ok. Qed.

Lemma keeps_thread e : event_fine e → keeps (daemon_ok None) (thread_step [] e).
Proof. intros He held D HD. apply (thread_step_ok held D HD); [apply stable_ok|apply list_subseteq_nil|done|]. by left. Qed.

(** Every connection is good, and the channels are theirs. *)
Definition serving (sv : Server) (s : Daemon) : Prop := Forall good (connections_ sv) ∧ holding (pairs (connections_ sv)) s.

Lemma kept_serving {A} (m : proc Daemon A) sv : keeps (daemon_ok None) m → ends (serving sv) (m;; mret sv) serving.
Proof.
  intros Hm s [Hg Hs]. refine (ends_bind _ _ _ _ _ (keeps_whole handlers _ m _ Hm) _ s Hs). intros a. by apply ends_ret.
Qed.

Definition step_fine (e : daemon_event) : Prop := match e with ERound _ => True | EThread e => event_fine e end.

Lemma step_serving config sv e : step_fine e → ends (serving sv) (daemon_step config sv e) serving.
Proof.
  destruct e as [env|e]; cbn [daemon_step step_fine]; [intros _|intros He; by apply kept_serving, keeps_thread].
  intros s [Hg Hs]. refine (ends_bind _ _ _ _ _ (keeps_whole handlers _ _ _ keeps_drain) _ s Hs). intros [].
  refine (ends_bind _ _ _ _ _ (poll_whole handlers _ env config sv Hg) _). intros r.
  refine (ends_bind _ _ _ (λ _, serving r.1) _ _ _); [|intros []; by apply ends_ret].
  destruct r.2; [|by apply ends_ret]. intros s' [Hg' Hs'].
  pose proof (keeps_whole handlers _ requestShutdown_ _ (safe_shutdown (h := handlers) _ eq_refl) s' Hs') as H. by split.
Qed.

Lemma events_serving config es : Forall step_fine es → ∀ sv, ends (serving sv) (daemon_events config sv es) serving.
Proof.
  induction 1 as [|e es He Hes IH]; intros sv; cbn [daemon_events]; [by apply ends_ret|].
  exact (ends_bind _ _ _ _ _ (step_serving config sv e He) IH).
Qed.

(** Nothing is left of the consoles. *)
Definition disconnected (h : Host) : Prop :=
  ports_wf (portManager h) ∧ inUse (portManager h) = sessions_ h ∧
  streams_ h = ∅ ∧ boundSessionPorts_ h = ∅ ∧ boundChannels_ h = ∅ ∧ sessionWorkerThreads_ h = ∅ ∧ Forall wait_fine (waits_ h).

Lemma disconnected_stable held : stable held disconnected.
Proof.
  split.
  - intros h (Hp & Hu & Hst & Hb & Hbc & Hw & Hws). constructor; try done; rewrite ?Hst, ?Hbc, ?Hw; try done; intros p; intros; by destruct (is_Some_None (A := nat)).
  - intros h h' (_ & _ & Hst & Hb & Hbc & Hw & _) [] []. rewrite Hst, Hb, Hbc, Hw in *. split_and!; try done; [|set_solver| |].
    + apply map_empty. intros p. eapply lookup_weaken_None; [apply lookup_empty|done].
    + apply map_empty. intros p. eapply lookup_weaken_None; [apply lookup_empty|done].
    + apply dom_empty_inv_L. set_solver.
Qed.

Lemma detach_all held (D : gset nat) (ports : list Z) : list_to_set held.*2 ⊆ D →
  ends (on D (λ h, daemon_ok None held h ∧ boundSessionPorts_ h ⊆ list_to_set ports))
    (foldr (λ p m, detachSession_ p;; m) (mret tt) ports) (λ _, on D (λ h, daemon_ok None held h ∧ boundSessionPorts_ h ⊆ ∅)).
Proof.
  intros HD. induction ports as [|p ports IH]; cbn [foldr]; [by apply on_ret|].
  eapply on_seq; [|exact IH]. eapply (on_weaken _ _ _ (λ _, _)); [exact (detach_ok held D HD (list_to_set ports) p)|done|].
  by intros [] h [? _].
Qed.

Lemma join_all held (D : gset nat) : list_to_set held.*2 ⊆ D →
  ends (on D (λ h, daemon_ok None held h ∧ boundSessionPorts_ h = ∅)) joinAllSessionWorkers (λ _, on D disconnected).
Proof.
  intros HD. unfold joinAllSessionWorkers. apply on_get. intros h0 [H0 Hb].
  eapply on_seq; [apply (on_set D _ disconnected); intros h ->|].
  - destruct H0. split_and!; cbn; try done.
    + apply map_empty. intros p. apply eq_None_not_Some. intros Hs. assert (p ∈ boundSessionPorts_ h0) as Hin by by apply d_stream_bound0. set_solver.
    + apply map_empty. intros p. apply eq_None_not_Some. intros [ch Hs]. apply d_bound_dom0 in Hs. set_solver.
  - assert (∀ w, w ∈ map_to_list (sessionWorkerThreads_ h0) → w.2.2 = true → w.2.1 ∈ D) as Hw.
    { intros [p [ch b]] Hin%elem_of_map_to_list. cbn in *. intros ->. by eapply (held_in _ _ _ _ H0 HD). }
    induction (map_to_list (sessionWorkerThreads_ h0)) as [|w ws IH]; cbn [join_each]; [by apply on_ret|].
    eapply on_seq; [apply (join_ok held D HD); [apply disconnected_stable|apply Hw; constructor|]|].
    + intros c ([p c'] & -> & (w' & Hin & Hc)%list_elem_of_omap)%list_elem_of_fmap. destruct w' as [q [c2 [|]]]; [|done].
      injection Hc as -> ->. apply elem_of_elements. apply (Hw (p, (c', true))); [by constructor|done].
    + apply IH. intros w' Hin. apply Hw. by constructor.
Qed.

Lemma destroy_all (D : gset nat) : ends (on D disconnected) destroyAllSessions (λ _, on D (λ h, disconnected h ∧ sessions_ h = ∅)).
Proof.
  unfold destroyAllSessions. apply on_get. intros h0 H0.
  refine (on_weaken D (λ h, disconnected h ∧ sessions_ h ⊆ list_to_set (merge_sort Z.le (elements (sessions_ h0)))) _ (λ _ h, disconnected h ∧ sessions_ h = ∅) _ _ _ _ _); [|intros h ->; split; [done|]|done].
  2: { intros p Hp. by rewrite merge_sort_Permutation, list_to_set_elements_L. }
  generalize (merge_sort Z.le (elements (sessions_ h0))). intros l. induction l as [|p l IH]; cbn [foldr].
  { apply on_ret. intros h [? ?]. split; [done|set_solver]. }
  eapply on_seq; [apply (on_set D _ (λ h, disconnected h ∧ sessions_ h ⊆ list_to_set l))|exact IH].
  intros h [Hok Hsub]. cbn in Hsub. case_bool_decide as Hin; [|split; [done|set_solver]].
  destruct Hok as (Hp & Hs & Hst & Hb & Hbc & Hw & Hws). split; [split_and!; cbn; try done|cbn; set_solver].
  - apply releasePort_wf; [|done]. apply (pw_range _ Hp). by rewrite Hs.
  - by rewrite Hs.
  - by rewrite Hst, delete_empty.
Qed.

Lemma shutdown_ends sv : ends (serving sv) (shutdown sv)
  (λ sv' s, connections_ sv' = [] ∧ channels s = ∅ ∧ disconnected (hworld s) ∧ sessions_ (hworld s) = ∅).
Proof.
  intros s [Hg [Hs Hn]]. set (held := pairs (connections_ sv)) in *. set (D := list_to_set held.*2 : gset nat) in *.
  assert (list_to_set held.*2 ⊆ D) as HD by done. revert s Hs. change (ends (on D (daemon_ok None held)) (shutdown sv)
    (λ sv' s, connections_ sv' = [] ∧ channels s = ∅ ∧ disconnected (hworld s) ∧ sessions_ (hworld s) = ∅)).
  unfold shutdown. eapply on_seq; [by apply drain_ok|]. apply on_get. intros h0 H0.
  apply (on_same D (λ h, daemon_ok None held h ∧ boundSessionPorts_ h ⊆ list_to_set (elements (boundSessionPorts_ h0)))).
  { split; [done|by rewrite list_to_set_elements_L]. }
  eapply on_seq; [by apply detach_all|].
  eapply on_seq; [apply (on_set D _ (λ h, daemon_ok None held h ∧ boundSessionPorts_ h = ∅))|].
  { intros h [[] Hb]. split; [|done]. constructor; try done; cbn.
    - intros p Hne Hst. by apply Hb, d_stream_bound0.
    - intros p ch Hc. by apply Hb, (d_bound_dom0 p ch). }
  eapply on_seq; [by apply join_all|]. unfold stop.
  refine (ends_bind _ _ _ (λ sv' s, connections_ sv' = [] ∧ disconnected (hworld s) ∧ channels s = ∅) _ _ _).
  { refine (ends_bind _ _ _ (λ _ s, disconnected (hworld s) ∧ channels s = ∅) _ _ _); [|intros []; by apply ends_ret].
    eapply ends_weaken; [apply (close_all_ends disconnected _ Hg)|intros s [? ?]; by split_and!|done]. }
  intros sv'. intros s (Hc & Hd & He).
  pose proof (destroy_all ∅) as Hall. refine (ends_bind _ _ _ _ _ Hall _ s _); [|by split; [|rewrite He]].
  intros []. apply ends_ret. intros s' [[Hd' Hs'] He']. split_and!; try done. by apply dom_empty_inv_L.
Qed.

End safety.

(** Nothing is left of a daemon that has come to its end. *)
Definition at_rest (s : Daemon) : Prop :=
  channels s = ∅ ∧ sessions_ (hworld s) = ∅ ∧ inUse (portManager (hworld s)) = ∅ ∧ streams_ (hworld s) = ∅ ∧
  boundSessionPorts_ (hworld s) = ∅ ∧ boundChannels_ (hworld s) = ∅ ∧ sessionWorkerThreads_ (hworld s) = ∅.

(** What the threads do, between the rounds and while the loop waits. *)
Definition happenings (es : list daemon_event) (ws : list Wait) : list thread_event :=
  omap (λ e, match e with EThread t => Some t | ERound _ => None end) es ++ (ws ≫= w_events).

(** Why a run may not come to its end: the loop waits for a thread that does not end; a map that no lock protects is used by two at once; an exception
    leaves a thread; a session is killed a second time while the loop waits for its thread. *)
Definition stopped (es : list daemon_event) (ws : list Wait) : Halts := λ why,
  why = "blocked" ∧ (∃ w, w ∈ ws ∧ w_ends w = false) ∨
  why = "data race" ∧ TRace ∈ happenings es ws ∨
  why = "terminate" ∧ (∃ e, TEscapes e ∈ happenings es ws) ∨
  why = "session destroyed" ∧ ∃ w p, w ∈ ws ∧ TKill p ∈ w_events w.

Lemma happening_fine es ws e : e ∈ happenings es ws → @event_fine (stopped es ws) e.
Proof. intros He. destruct e; try done; [by right; left|by right; right; left; split; [|eexists]]. Qed.

Lemma waits_fine es ws : Forall (@wait_fine (stopped es ws)) ws.
Proof.
  apply Forall_forall. intros w Hw. split.
  - intros He. left. split; [done|by exists w].
  - apply Forall_forall. intros e He. apply happening_fine. apply elem_of_app. right. apply list_elem_of_bind. by exists w.
  - intros p Hp. right. right. right. split; [done|by exists w, p].
Qed.

Lemma events_fine es ws : Forall (@step_fine (stopped es ws)) es.
Proof.
  apply Forall_forall. intros [env|e] He; [done|]. apply happening_fine. apply elem_of_app. left. apply list_elem_of_omap. by eexists.
Qed.

(** The daemon before its first round, with the waits to come. *)
Definition fresh_host (max : Z) (ws : list Wait) : Daemon := mkShared ∅ (set_waits ws (newHost max)).

Lemma fresh_serving es ws max : max < 2 ^ 32 - 1 → @serving (stopped es ws) (mkServer true []) (fresh_host max ws).
Proof.
  intros Hmax. split; [constructor|]. split; [split; [|apply dom_empty_L]|constructor].
  constructor; cbn; try done; [|intros p Hc; by destruct (is_Some_None Hc)|intros p _ Hc; by destruct (is_Some_None Hc)|apply waits_fine].
  split; cbn; [destruct (Z.ltb_spec max 1); lia|set_solver|destruct (Z.ltb_spec max 1); lia|lia].
Qed.

Lemma run_ends (max : Z) (config : DaemonIpcServerConfig) (es : list daemon_event) (ws : list Wait) : max < 2 ^ 32 - 1 →
  match Daemon.run config es (fresh_host max ws) with
  | (Ok sv, s) => connections_ sv = [] ∧ at_rest s
  | (Throw _, _) => False
  | (Undefined why, _) => stopped es ws why
  end.
Proof.
  intros Hmax. set (Stop := stopped es ws : Halts). unfold run.
  refine (ends_bind (serving (mkServer true [])) _ _ _ _ (events_serving config es (events_fine es ws) _) _ _ (fresh_serving es ws max Hmax)).
  intros sv. refine (ends_bind _ _ _ (λ _, serving sv) _ _ _).
  - intros s [Hg Hs]. pose proof (keeps_whole handlers _ _ _ keeps_drain s Hs) as H. destruct (drainPendingSessionDestroys s) as [[[]|e|u] s']; [by split|done..].
  - intros []. eapply ends_weaken; [apply shutdown_ends|done|]. intros sv' s (Hc & He & (_ & Hu & Hst & Hb & Hbc & Hw & _) & Hs).
    unfold at_rest. split_and!; try done. by rewrite Hu.
Qed.

(** C9. For every list of rounds of the daemon's loop, of what the session threads do between them and
    while the loop waits for one of them (frames and disconnections of any clients, kills, outputs, turns, threads that end), the daemon never uses the channel of a
    connection that is gone, whether through a session's streams, a bound channel, a thread or a connection, and no handler throws.  It comes to its end, and then no
    channel, session, port, bound console or thread is left; or it stops, for one of four reasons, each of which takes the threads to do their part: it waits for a
    thread that does not end; a map without a lock is used by two threads at once; an exception leaves a session's thread; a session is killed while the
    loop waits for its thread, and has lost its console already. *)
Theorem daemon_channels_safe (max : Z) (config : DaemonIpcServerConfig) (es : list daemon_event) (ws : list Wait) : max < 2 ^ 32 - 1 →
  match Daemon.run config es (fresh_host max ws) with
  | (Ok sv, s) => connections_ sv = [] ∧ channels s = ∅ ∧ sessions_ (hworld s) = ∅ ∧ inUse (portManager (hworld s)) = ∅ ∧
      streams_ (hworld s) = ∅ ∧ boundSessionPorts_ (hworld s) = ∅ ∧ boundChannels_ (hworld s) = ∅ ∧
      sessionWorkerThreads_ (hworld s) = ∅
  | (Throw _, _) => False
  | (Undefined why, _) =>
      why = "blocked" ∧ (∃ w, w ∈ ws ∧ w_ends w = false) ∨
      why = "data race" ∧ TRace ∈ happenings es ws ∨
      why = "terminate" ∧ (∃ e, TEscapes e ∈ happenings es ws) ∨
      why = "session destroyed" ∧ ∃ w p, w ∈ ws ∧ TKill p ∈ w_events w
  end.
Proof. exact (run_ends max config es ws). Qed.

(** *** Executions *)

(** A client on descriptor [f]: connected; sends frames; hangs up. *)
Definition connects (f : Z) : daemon_event := ERound (mkPollEnv 1 true [f] (λ _, idle)).
Definition sends (f : Z) (frames : list DaemonIpcFrame) : daemon_event :=
  ERound (mkPollEnv 1 false [] (λ g, if g =? f
    then mkReady false false true [[RData (concat (encodeDaemonIpcFrame <$> frames)); RAgain]] (replicate (length frames) 10000) [] []
    else idle)).
Definition hangs_up (f : Z) : daemon_event :=
  ERound (mkPollEnv 1 false [] (λ g, if g =? f then mkReady true false false [] [] [] [] else idle)).
Definition quiet_round : daemon_event := ERound (mkPollEnv 0 false [] (λ _, idle)).

Definition shakes : DaemonIpcFrame := plain_frame MessageType.Handshake (encodeHandshakePayload (mkHandshake kDaemonIpcProtocolVersion)).
Definition attaches (port : Z) : DaemonIpcFrame := plain_frame MessageType.AttachSession (encodeAttachSessionPayload (mkAttach port)).
Definition types (b : bytes) : DaemonIpcFrame := plain_frame MessageType.SessionInput (encodeSessionDataPayload (mkData b)).

Definition test_config : DaemonIpcServerConfig := mkServerConfig 4 "test".
Definition test_events (es : list daemon_event) (ws : list Wait) : outcome Server * Daemon := daemon_events test_config (mkServer true []) es (fresh_host 4 ws).

(** A client attaches to a new session, types, reads its output and leaves, while its thread waits for the other's turn to end and writes once more; another one is
    still attached at the end, and its thread takes a turn before it ends. *)
Definition two_clients : list daemon_event :=
  [connects 5; sends 5 [shakes; attaches 0; types [72; 73; 10]]; EThread (TOutput 1 false [79; 75]); quiet_round;
   connects 6; sends 6 [shakes; attaches 0]; EThread (TTurn (LAcquire 2)); hangs_up 5; EThread (TOutput 2 true [33]); quiet_round].

Definition two_waits : list Wait :=
  [mkWait [TTurn (LRelease 2); TTurn (LAcquire 1); TOutput 1 false [10]; TPhase 1 InteractiveOnly; TTurn (LRelease 1)] true;
   mkWait [TTurn (LAcquire 2); TOutput 2 false [46]; TTurn (LRelease 2)] true].

Lemma daemon_channels_safe_witness :
  4 < 2 ^ 32 - 1 ∧ (match (test_events two_clients two_waits).1 with Ok sv => (λ k, (c_fd k, attachedPort k)) <$> connections_ sv | _ => [] end) = [(6, Some 2)] ∧
  match Daemon.run test_config two_clients (fresh_host 4 two_waits) with
  | (Ok sv, s) => connections_ sv = [] ∧ channels s = ∅ ∧ sessions_ (hworld s) = ∅ ∧ inUse (portManager (hworld s)) = ∅ ∧
      streams_ (hworld s) = ∅ ∧ boundSessionPorts_ (hworld s) = ∅ ∧ boundChannels_ (hworld s) = ∅ ∧
      sessionWorkerThreads_ (hworld s) = ∅
  | _ => False
  end.
Proof.
  assert (4 < 2 ^ 32 - 1) as H by lia. split; [exact H|split; [by vm_compute|]].
  pose proof (daemon_channels_safe 4 test_config two_clients two_waits H) as Hd.
  assert (match (Daemon.run test_config two_clients (fresh_host 4 two_waits)).1 with Ok _ => True | _ => False end) as Hok by by vm_compute.
  revert Hd Hok. destruct (Daemon.run _ _ _) as [[sv|e|w] s]; [done|done|]. intros _ [].
Defined.

(** The client of a session that was killed keeps its port; when it hangs up, the daemon
    detaches the port, which is now another client's. *)
Definition killed_then_reused : list daemon_event :=
  [connects 5; sends 5 [shakes; attaches 0]; EThread (TKill 1); EThread (TEnds 1); connects 6; sends 6 [shakes; attaches 0]; hangs_up 5].

Definition console_of (f : Z) (r : outcome Server * Daemon) : option (option Z * option bool) :=
  match r.1 with
  | Ok sv => k ← head (filter (λ k, c_fd k = f) (connections_ sv));
             Some (Server.attachedPort k, ch ← channel k; c ← channels r.2 !! ch; Some (closed_ c))
  | _ => None
  end.

Example kill_disconnects_next_client :
  console_of 6 (test_events (removelast killed_then_reused) []) = Some (Some 1, Some false) ∧
  console_of 6 (test_events killed_then_reused []) = Some (Some 1, Some true) ∧
  boundChannels_ (hworld (test_events killed_then_reused []).2) = ∅ ∧ sessions_ (hworld (test_events killed_then_reused []).2) = {[1]}.
Proof. by vm_compute. Qed.

(** A client attaches to a killed session while its destruction waits for the thread of
    session 2 to give up its turn; the destruction then waits for the thread of the new
    client.  If that one goes on reading, nothing wakes it: its channel is open, and its input comes through the same loop. *)
Definition attached_while_dying : list daemon_event :=
  [connects 5; sends 5 [shakes; attaches 0]; connects 6; sends 6 [shakes; attaches 0]; EThread (TTurn (LAcquire 2)); EThread (TKill 1); EThread (TEnds 1);
   connects 7; sends 7 [shakes; attaches 1]; EThread (TTurn (LRelease 2)); quiet_round].

Example kill_blocks_the_daemon :
  let '(o, s) := test_events attached_while_dying [mkWait [] false] in
  o = Undefined "blocked" ∧ (closed_ <$> (boundChannels_ (hworld s) !! 1 ≫= λ ch, channels s !! ch)) = Some false.
Proof. by vm_compute. Qed.

(** Session 2 kills session 1 and waits for input; the loop waits for the thread of session 1, which waits for its turn; session 2 kills
    session 1 again, and destroys it under its thread. *)
Example killed_twice :
  (test_events [connects 5; sends 5 [shakes; attaches 0]; connects 6; sends 6 [shakes; attaches 0]; EThread (TKill 1); quiet_round]
     [mkWait [TTurn (LAcquire 2); TKill 1] true]).1 = Undefined "session destroyed".
Proof. by vm_compute. Qed.
