(* ===== verification/LineEditor.v ===== *)
(** * The record editor

    [PickShell::LineRecordEditor], the [ED] command: a buffer of lines, edited by
    commands on standard input and written back with SAVE.  The hook called after
    a write is a log of the files it was called with. *)

From Stdlib Require Import Ascii String.
From S2P Require Import Prelude CLib Words Records Locks FileSys.
From stdpp Require Import options.
Local Open Scope Z_scope.

(** [e_saved]: what [postWrite_] was called with; [e_in], [e_out]: the streams. *)
(* src/userland/tcl/LineRecordEditor.h:31-36 [LineRecordEditor] *)
Record Editor := mkEditor {
  lines_ : list string;
  e_in : string;
  e_out : string;
  e_saved : list string;
  e_store : World
}.

Definition set_lines (l : list string) (e : Editor) : Editor := mkEditor l (e_in e) (e_out e) (e_saved e) (e_store e).
Definition set_in (s : string) (e : Editor) : Editor := mkEditor (lines_ e) s (e_out e) (e_saved e) (e_store e).
Definition set_store (w : World) (e : Editor) : Editor := mkEditor (lines_ e) (e_in e) (e_out e) (e_saved e) w.
Definition say (s : string) : proc Editor unit :=
  modify (λ e, mkEditor (lines_ e) (e_in e) (e_out e +:+ s +:+ String NL "") (e_saved e) (e_store e)).
Definition prompt : proc Editor unit :=
  modify (λ e, mkEditor (lines_ e) (e_in e) (e_out e +:+ "ED> ") (e_saved e) (e_store e)).
Definition on_files {A} (m : proc World A) : proc Editor A := zoom e_store set_store m.

(* src/userland/tcl/LineRecordEditor.cpp:13-22 [joinLines] *)
Definition joinLines (lines : list string) : string := str_join NL lines.

(* src/userland/tcl/LineRecordEditor.cpp:37-45 [LineRecordEditor::tokenizeWs] *)
Definition tokenizeWs (line : string) : list string := all_words line.

(* src/userland/tcl/LineRecordEditor.cpp:47-57 [LineRecordEditor::trimAscii] *)
Definition trimAscii (text : string) : string := trim_by isspace text.

(* src/userland/tcl/LineRecordEditor.cpp:59-64 [LineRecordEditor::upperAscii] *)
Definition upperAscii (text : string) : string := str_map toupper text.

(* src/userland/tcl/LineRecordEditor.cpp:66-87 [LineRecordEditor::canonicalCommand] *)
Definition canonicalCommand (token : string) : string :=
  let u := upperAscii token in
  if String.eqb u "L" then "LIST" else if String.eqb u "I" then "INSERT" else if String.eqb u "R" then "REPLACE"
  else if String.eqb u "D" then "DELETE" else if String.eqb u "FI" then "SAVE" else if String.eqb u "Q" then "QUIT" else u.

(* src/userland/tcl/LineRecordEditor.cpp:89-98 [LineRecordEditor::parsePositiveInt] *)
Definition parsePositiveInt (token : string) : option Z :=
  match stoi token with Ok (v, _) => if 0 <? v then Some v else None | _ => None end.

(* src/userland/tcl/LineRecordEditor.cpp:100-130 [LineRecordEditor::parseListRangeTokens] *)
Definition parseListRangeTokens (tokens : list string) : option (Z * Z) :=
  match tokens with
  | [_] => Some (1, INT_MAX)
  | [_; arg] =>
      match str_split_at "-" arg with
      | None => line ← parsePositiveInt arg; Some (line, line)
      | Some (startToken, endToken) =>
          start ← parsePositiveInt startToken; end_ ← parsePositiveInt endToken;
          if end_ <? start then None else Some (start, end_)
      end
  | _ => None
  end.

Section editor.
Context (host : HostFs) (fileSystem_ : FileSystem) (fileName_ recordKey_ : string).

(** The lines [i], [i + 1], ... that are in the range. *)
Fixpoint list_lines (startLine endLine i : Z) (l : list string) : proc Editor unit :=
  match l with
  | [] => mret tt
  | x :: l' =>
      (if (i <? startLine) || (endLine <? i) then mret tt
       else say (to_string i +:+ (if str_empty x then "" else " " +:+ x)));;
      list_lines startLine endLine (i + 1) l'
  end.

(* src/userland/tcl/LineRecordEditor.cpp:132-150 [LineRecordEditor::cmdList] *)
Definition cmdList (tokens : list string) : proc Editor unit :=
  match parseListRangeTokens tokens with
  | None => say "LIST takes no args, LIST <line>, or LIST <start-end>"
  | Some (startLine, endLine) => l ← gets lines_; list_lines startLine endLine 1 l
  end.

(** The lines before the one that is a period, and the lines after it; [None] when there is none. *)
Fixpoint block_of (l : list string) : option (list string) :=
  match l with
  | [] => None
  | x :: l' => if String.eqb (trimAscii x) "." then Some [] else cons x <$> block_of l'
  end.

Fixpoint read_block (fuel : nat) : proc Editor (option (list string)) := λ e,
  match fuel with
  | O => (Undefined "lines", e)
  | S fuel' =>
      match getline NL (e_in e) with
      | None => (say "Unexpected end of input during INSERT/REPLACE";; mret None) e
      | Some (line, rest) =>
          if String.eqb (trimAscii line) "." then (Ok (Some []), set_in rest e)
          else (b ← read_block fuel'; mret (cons line <$> b)) (set_in rest e)
      end
  end.

(** A line of input has a character or ends the input. *)
(* src/userland/tcl/LineRecordEditor.cpp:152-165 [LineRecordEditor::readPeriodTerminatedBlock] *)
Definition readPeriodTerminatedBlock : proc Editor (option (list string)) := λ e,
  read_block (S (String.length (e_in e))) e.

Definition insert_at (n : nat) (block l : list string) : list string := take n l ++ block ++ drop n l.

Definition no_such_line (n : Z) (l : list string) : bool := (n <? 1) || (Z.of_nat (length l) <? n).

Definition insert_block (insertIndex : nat) : proc Editor unit :=
  b ← readPeriodTerminatedBlock;
  match b with
  | None => mret tt
  | Some block => modify (λ e, set_lines (insert_at insertIndex block (lines_ e)) e)
  end.

(* src/userland/tcl/LineRecordEditor.cpp:167-191 [LineRecordEditor::cmdInsert] *)
Definition cmdInsert (tokens : list string) : proc Editor unit :=
  l ← gets lines_;
  match tokens with
  | _ :: _ :: _ :: _ => say "INSERT takes no line number or one line number"
  | [_; n] =>
      match parsePositiveInt n with
      | None => say "INSERT requires a positive line number"
      | Some afterLine => if no_such_line afterLine l then say "No such line" else insert_block (Z.to_nat afterLine)
      end
  | _ => insert_block (length l)
  end.

(* src/userland/tcl/LineRecordEditor.cpp:193-220 [LineRecordEditor::cmdReplace] *)
Definition cmdReplace (tokens : list string) : proc Editor unit :=
  l ← gets lines_;
  match tokens with
  | [_; n] =>
      match parsePositiveInt n with
      | None => say "REPLACE requires a line number"
      | Some lineNo =>
          if no_such_line lineNo l then say "No such line"
          else
            b ← readPeriodTerminatedBlock;
            match b with
            | None => mret tt
            | Some [] => say "REPLACE requires at least one line before '.'"
            | Some block =>
                let idx := Z.to_nat (lineNo - 1) in
                modify (λ e, set_lines (insert_at idx block (delete idx (lines_ e))) e)
            end
      end
  | _ => say "REPLACE requires a line number"
  end.

(* src/userland/tcl/LineRecordEditor.cpp:222-237 [LineRecordEditor::cmdDelete] *)
Definition cmdDelete (tokens : list string) : proc Editor unit :=
  l ← gets lines_;
  match tokens with
  | [_; n] =>
      match parsePositiveInt n with
      | None => say "DELETE requires a line number"
      | Some lineNo =>
          if no_such_line lineNo l then say "No such line"
          else modify (λ e, set_lines (delete (Z.to_nat (lineNo - 1)) (lines_ e)) e)
      end
  | _ => say "DELETE requires a line number"
  end.

Definition reported (m : proc Editor unit) : proc Editor bool :=
  r ← caught m;
  match r with inl _ => mret true | inr e => say ("Error: " +:+ e);; mret false end.

(** [openFile], whose [FileSystemError] is looked at; other exceptions leave the editor. *)
(* src/userland/tcl/LineRecordEditor.cpp:239-256 [LineRecordEditor::ensureFileExistsForWrite] *)
Definition ensureFileExistsForWrite : proc Editor bool :=
  try_catch (on_files (openFile host fileSystem_ fileName_);; mret true)
    (λ e, match e with
          | FileSystemError w =>
              Some (if negb (starts_with "File not found: " w) then say ("Error: " +:+ w);; mret false
                    else reported (on_files (createFile host fileSystem_ fileName_)))
          | _ => None
          end).

(* src/userland/tcl/LineRecordEditor.cpp:258-270 [LineRecordEditor::cmdSave] *)
Definition cmdSave (hook : bool) : proc Editor unit :=
  ok ← ensureFileExistsForWrite;
  if negb (ok : bool) then mret tt
  else
    l ← gets lines_;
    reported (
      on_files (write host fileSystem_ fileName_ (makeRecord recordKey_ (joinLines l)));;
      if hook then modify (λ e, mkEditor (lines_ e) (e_in e) (e_out e) (e_saved e ++ [fileName_]) (e_store e)) else mret tt);;
    mret tt.

(* src/userland/tcl/LineRecordEditor.cpp:272-279 [LineRecordEditor::cmdHelp] *)
Definition cmdHelp : proc Editor unit :=
  say "LIST (L) — list lines; optional LIST <line> or LIST <start-end>";;
  say "INSERT (I) — optional line number, then lines until '.' alone";;
  say "REPLACE (R) — line number, then lines until '.' alone";;
  say "DELETE (D) — line number";;
  say "SAVE (FI) — write buffer to record";;
  say "QUIT (Q) — exit without saving".

(** One command; true when the editor is left. *)
Definition command (hook : bool) (line : string) : proc Editor bool :=
  match tokenizeWs line with
  | [] => mret false
  | (t :: _) as tokens =>
      let cmd := canonicalCommand t in
      if String.eqb cmd "QUIT" then mret true
      else
        (if String.eqb cmd "SAVE" then cmdSave hook
         else if String.eqb cmd "HELP" then cmdHelp
         else if String.eqb cmd "LIST" then cmdList tokens
         else if String.eqb cmd "INSERT" then cmdInsert tokens
         else if String.eqb cmd "REPLACE" then cmdReplace tokens
         else if String.eqb cmd "DELETE" then cmdDelete tokens
         else say ("Unknown command: " +:+ t));;
        mret false
  end.

Fixpoint rounds (fuel : nat) (hook : bool) : proc Editor unit :=
  match fuel with
  | O => lift (Undefined "rounds")
  | S fuel' =>
      prompt;;
      e ← get;
      match getline NL (e_in e) with
      | None => mret tt
      | Some (line, rest) =>
          modify (set_in rest);;
          quit ← command hook line;
          if (quit : bool) then mret tt else rounds fuel' hook
      end
  end.

(** Every round takes a line of the input. *)
(* src/userland/tcl/LineRecordEditor.cpp:281-329 [LineRecordEditor::run] *)
Definition run (hook : bool) (highlightPhysicalLine : option Z) : proc Editor unit :=
  l ← gets lines_;
  (match highlightPhysicalLine with
   | Some row => if no_such_line row l then mret tt else cmdList ["LIST"; to_string row]
   | None => mret tt
   end);;
  e ← get;
  rounds (S (String.length (e_in e))) hook.
End editor.

(** ** What a sequence of commands does *)

Inductive edit :=
| Insert (after : option nat) (block : list string)
| Replace (n : nat) (block : list string)
| Delete (n : nat)
| ListAll
| ListRange (a b : nat)
| Save.

Definition num (n : nat) : string := to_string (Z.of_nat n).

(** What is typed. *)
Definition typed (c : edit) : list string :=
  match c with
  | Insert None block => "INSERT" :: block ++ ["."]
  | Insert (Some n) block => str_join " " ["INSERT"; num n] :: block ++ ["."]
  | Replace n block => str_join " " ["REPLACE"; num n] :: block ++ ["."]
  | Delete n => [str_join " " ["DELETE"; num n]]
  | ListAll => ["LIST"]
  | ListRange a b => [str_join " " ["LIST"; num a +:+ "-" +:+ num b]]
  | Save => ["SAVE"]
  end.

Definition unlines (l : list string) : string := foldr (λ x s, x +:+ String NL s) "" l.

(** A line of text that does not end the block. *)
Definition text_line (x : string) : Prop := no_char NL x = true ∧ trimAscii x ≠ ".".

Definition line_of (l : list string) (n : nat) : Prop := (1 ≤ n ≤ length l)%nat ∧ Z.of_nat n ≤ INT_MAX.

Definition allowed (l : list string) (c : edit) : Prop :=
  match c with
  | Insert None block => Forall text_line block
  | Insert (Some n) block => line_of l n ∧ Forall text_line block
  | Replace n block => line_of l n ∧ Forall text_line block ∧ block ≠ []
  | Delete n => line_of l n
  | ListRange a b => (1 ≤ a ≤ b)%nat ∧ Z.of_nat b ≤ INT_MAX
  | ListAll => Z.of_nat (length l) ≤ INT_MAX
  | Save => True
  end.

Definition edited (c : edit) (l : list string) : list string :=
  match c with
  | Insert None block => l ++ block
  | Insert (Some n) block => take n l ++ block ++ drop n l
  | Replace n block => take (n - 1) l ++ block ++ drop n l
  | Delete n => take (n - 1) l ++ drop n l
  | ListAll | ListRange _ _ | Save => l
  end.

Definition numbered_line (i : nat) (x : string) : string := num (S i) +:+ (if str_empty x then "" else " " +:+ x).

Definition listing (a b : nat) (l : list string) : string :=
  unlines (omap (λ p : nat * string, if decide (a <= p.1 + 1 <= b)%nat then Some (numbered_line p.1 p.2) else None) (imap pair l)).

(** What is printed after the prompt. *)
Definition shown (c : edit) (l : list string) : string :=
  match c with ListAll => unlines (imap numbered_line l) | ListRange a b => listing a b l | _ => "" end.

(** Buffer, what was saved last, and what was printed. *)
Definition doing (st : list string * option string * string) (c : edit) : list string * option string * string :=
  let '(l, saved, out) := st in
  (edited c l, match c with Save => Some (joinLines l) | _ => saved end, out +:+ "ED> " +:+ shown c l).

Fixpoint all_allowed (l : list string) (cs : list edit) : Prop :=
  match cs with [] => True | c :: cs' => allowed l c ∧ all_allowed (edited c l) cs' end.

(** ** One command *)

Lemma num_pos n : (1 ≤ n)%nat → Z.of_nat n ≤ INT_MAX → parsePositiveInt (num n) = Some (Z.of_nat n).
Proof.
  intros H1 H2. unfold parsePositiveInt, num. rewrite stoi_to_string by (apply in_int_spec; unfold INT_MIN; lia).
  by rewrite (proj2 (Z.ltb_lt _ _)) by lia.
Qed.

Lemma num_word n : (1 ≤ n)%nat → isword (num n).
Proof. intros H. apply to_string_word. lia. Qed.

Lemma known_line l n : line_of l n → no_such_line (Z.of_nat n) l = false.
Proof. intros [H _]. unfold no_such_line. rewrite (proj2 (Z.ltb_ge _ _)), (proj2 (Z.ltb_ge _ _)) by lia. done. Qed.

Lemma split_words a b : isword a → isword b → tokenizeWs (str_join " " [a; b]) = [a; b].
Proof. intros Ha Hb. apply (all_words_of_join [a; b]). by constructor; [|constructor; [|constructor]]. Qed.

Lemma one_line ws : Forall isword ws → no_char NL (str_join " " ws) = true.
Proof. apply join_one_line. Qed.

Lemma read_block_spec block rest fuel e : Forall text_line block → (length block < fuel)%nat →
  e_in e = unlines (block ++ ["."]) +:+ rest → read_block fuel e = (Ok (Some block), set_in rest e).
Proof.
  intros Hb. revert fuel e. induction Hb as [|x block [Hx Ht] Hb IH]; intros fuel e Hf Hin; (destruct fuel as [|fuel]; [cbn in Hf; lia|]); cbn [read_block].
  - rewrite Hin. done.
  - rewrite Hin. cbn [unlines foldr app]. rewrite !str_app_assoc, str_app_cons. rewrite getline_app by done.
    destruct (String.eqb_spec (trimAscii x) "."); [done|].
    erewrite proc_bind_ok by (apply IH; [cbn in Hf; lia|reflexivity]). by destruct e.
Qed.

Lemma str_length_app a b : String.length (a +:+ b) = (String.length a + String.length b)%nat.
Proof. induction a as [|c a IH]; [done|]. rewrite str_app_cons. cbn [String.length]. lia. Qed.

Lemma unlines_length l : (length l ≤ String.length (unlines l))%nat.
Proof.
  induction l as [|x l IH]; [done|]. cbn [unlines foldr length]. fold (unlines l). rewrite str_length_app. cbn [String.length]. lia.
Qed.

Lemma block_read block rest e : Forall text_line block → e_in e = unlines (block ++ ["."]) +:+ rest →
  readPeriodTerminatedBlock e = (Ok (Some block), set_in rest e).
Proof.
  intros Hb Hin. apply read_block_spec; [done| |done]. rewrite Hin, str_length_app.
  pose proof (unlines_length (block ++ ["."])) as H. rewrite length_app in H. cbn in H. lia.
Qed.

Lemma str_split_digits s rest : str_forall isdigit s = true → str_split_at "-" (s +:+ String "-" rest) = Some (s, rest).
Proof.
  induction s as [|c s IH]; [done|]. rewrite str_app_cons. cbn [str_forall str_split_at]. intros [Hc Hs]%andb_true_iff.
  destruct (Ascii.eqb_spec c "-") as [->|]; [done|]. by rewrite IH.
Qed.

(** *** The text of a listing *)

Definition put (o : string) (e : Editor) : Editor := mkEditor (lines_ e) (e_in e) (e_out e +:+ o) (e_saved e) (e_store e).

Lemma put_put a b e : put b (put a e) = put (a +:+ b) e.
Proof. unfold put. cbn. by rewrite str_app_assoc. Qed.

Lemma put_nil e : put "" e = e.
Proof. unfold put. rewrite str_app_nil_r. by destruct e. Qed.

Lemma say_put s e : say s e = (Ok tt, put (s +:+ String NL "") e).
Proof. done. Qed.

Definition in_range (a b : nat) (p : nat * string) : option string :=
  if decide (a <= p.1 + 1 <= b)%nat then Some (numbered_line p.1 p.2) else None.

Lemma list_lines_spec a b k l e : list_lines (Z.of_nat a) (Z.of_nat b) (Z.of_nat (S k)) l e =
  (Ok tt, put (unlines (omap (in_range a b) (imap (λ i x, ((k + i)%nat, x)) l))) e).
Proof.
  revert k e. induction l as [|x l IH]; intros k e; cbn [list_lines imap omap list_omap].
  - by rewrite put_nil.
  - assert (imap ((λ i y, ((k + i)%nat, y)) ∘ S) l = imap (λ i y, ((S k + i)%nat, y)) l) as ->.
    { apply imap_ext. intros i y _. cbn. f_equal. lia. }
    replace (Z.of_nat (S k) + 1) with (Z.of_nat (S (S k))) by lia. rewrite Nat.add_0_r. unfold in_range at 1. cbn [fst snd].
    destruct (decide (a <= k + 1 <= b)%nat) as [H|H].
    + rewrite (proj2 (Z.ltb_ge _ _)), (proj2 (Z.ltb_ge _ _)) by lia. cbn [orb].
      erewrite proc_bind_ok by apply say_put. rewrite IH, put_put. cbn [unlines foldr]. unfold numbered_line, num.
      by rewrite !str_app_assoc, str_app_cons, str_app_nil_l.
    + assert ((Z.of_nat (S k) <? Z.of_nat a) || (Z.of_nat b <? Z.of_nat (S k)) = true) as ->.
      { apply orb_true_iff. rewrite !Z.ltb_lt. lia. }
      erewrite proc_bind_ok by done. by rewrite IH.
Qed.

Lemma all_in_range b k l : (k + length l <= b)%nat →
  omap (in_range 1 b) (imap (λ i x, ((k + i)%nat, x)) l) = imap (λ i x, numbered_line (k + i) x) l.
Proof.
  revert k. induction l as [|x l IH]; intros k Hk; [done|]. cbn [imap omap list_omap]. cbn [length] in Hk.
  unfold in_range at 1. cbn [fst snd]. rewrite decide_True by lia. f_equal.
  rewrite (imap_ext _ (λ i y, ((S k + i)%nat, y))) by (intros; cbn; f_equal; lia).
  rewrite (imap_ext ((λ i y, numbered_line (k + i) y) ∘ S) (λ i y, numbered_line (S k + i) y)) by (intros; cbn; f_equal; lia).
  apply IH. lia.
Qed.

(** *** The effect of a command *)

Lemma delete_line (l : list string) n : (1 ≤ n)%nat → delete (Z.to_nat (Z.of_nat n - 1)) l = take (n - 1) l ++ drop n l.
Proof. intros H. rewrite delete_take_drop. replace (Z.to_nat (Z.of_nat n - 1)) with (n - 1)%nat by lia. by replace (S (n - 1)) with n by lia. Qed.

Lemma replace_line (l block : list string) n : (1 ≤ n ≤ length l)%nat →
  insert_at (Z.to_nat (Z.of_nat n - 1)) block (delete (Z.to_nat (Z.of_nat n - 1)) l) = take (n - 1) l ++ block ++ drop n l.
Proof.
  intros H. rewrite delete_line by lia. replace (Z.to_nat (Z.of_nat n - 1)) with (n - 1)%nat by lia. unfold insert_at.
  assert (length (take (n - 1) l) = n - 1)%nat as E by (rewrite length_take; lia).
  by rewrite take_app_length', drop_app_length' by done.
Qed.

Section session.
Context {host : HostFs} (Hhost : healthy host) (fs : FileSystem) (f r : string) (hook : bool).
Context (Hf : isValidName f = true) (Hr : isValidName r = true).
#[local] Set Default Proof Using "Type*".

(** What was saved can be read. *)
Definition holds (w : World) (saved : option string) : Prop :=
  ∀ text, saved = Some text → read host fs f r w = (Ok (Some (makeRecord r text)), w).

Lemma save_spec e : ready fs f r (e_store e) → ∃ e', cmdSave host fs f r hook e = (Ok tt, e') ∧
  lines_ e' = lines_ e ∧ e_in e' = e_in e ∧ e_out e' = e_out e ∧ ready fs f r (e_store e') ∧
  holds (e_store e') (Some (joinLines (lines_ e))).
Proof.
  intros Hw. pose proof Hw as [(es & Hd & _) _].
  destruct (write_ready host fs f r (joinLines (lines_ e)) (e_store e) Hhost Hf Hr Hw) as (w' & Ew & _ & Hw' & Hread).
  unfold cmdSave. rewrite (proc_bind_ok _ _ _ true e).
  2: { unfold ensureFileExistsForWrite, try_catch, on_files, zoom, mbind, proc_bind. rewrite (openFile_healthy Hhost fs f _ es Hf Hd). by destruct e. }
  cbn [negb]. rewrite (proc_bind_ok _ _ _ (lines_ e) e) by done.
  unfold reported, caught, try_catch, on_files, zoom, mbind, proc_bind. rewrite Ew. cbn [fst snd].
  assert (holds w' (Some (joinLines (lines_ e)))) by (intros text [= <-]; exact Hread).
  destruct hook; eexists; (split; [reflexivity|]); split_and!; done.
Qed.

Lemma command_insert (l : list string) n block rest e : line_of l n → Forall text_line block → lines_ e = l →
  e_in e = unlines (block ++ ["."]) +:+ rest →
  command host fs f r hook (str_join " " ["INSERT"; num n]) e = (Ok false, set_lines (insert_at n block l) (set_in rest e)).
Proof.
  intros Hn Hb Hl Hin. unfold command. rewrite split_words by (done || (apply num_word; destruct Hn; lia)).
  match goal with |- _ = ?rhs => change ((cmdInsert ["INSERT"; num n];; mret false) e = rhs) end.
  erewrite proc_bind_ok; [done|]. unfold cmdInsert. rewrite (proc_bind_ok _ _ _ l e) by (by rewrite <- Hl).
  rewrite num_pos, known_line by (done || apply Hn). unfold insert_block.
  rewrite (proc_bind_ok _ _ _ _ _ (block_read block rest e Hb Hin)). rewrite Nat2Z.id. unfold modify. cbn. by rewrite Hl.
Qed.

Lemma command_replace (l : list string) n block rest e : line_of l n → Forall text_line block → block ≠ [] → lines_ e = l →
  e_in e = unlines (block ++ ["."]) +:+ rest →
  command host fs f r hook (str_join " " ["REPLACE"; num n]) e =
    (Ok false, set_lines (take (n - 1) l ++ block ++ drop n l) (set_in rest e)).
Proof.
  intros Hn Hb Hne Hl Hin. unfold command. rewrite split_words by (done || (apply num_word; destruct Hn; lia)).
  match goal with |- _ = ?rhs => change ((cmdReplace ["REPLACE"; num n];; mret false) e = rhs) end.
  erewrite proc_bind_ok; [done|]. unfold cmdReplace. rewrite (proc_bind_ok _ _ _ l e) by (by rewrite <- Hl).
  rewrite num_pos, known_line by (done || apply Hn).
  rewrite (proc_bind_ok _ _ _ _ _ (block_read block rest e Hb Hin)). rewrite <- (replace_line l block n) by apply Hn.
  destruct block as [|x block]; [done|]. unfold modify. cbn [lines_ set_in]. by rewrite Hl.
Qed.

Lemma command_delete (l : list string) n e : line_of l n → lines_ e = l →
  command host fs f r hook (str_join " " ["DELETE"; num n]) e = (Ok false, set_lines (take (n - 1) l ++ drop n l) e).
Proof.
  intros Hn Hl. unfold command. rewrite split_words by (done || (apply num_word; destruct Hn; lia)).
  match goal with |- _ = ?rhs => change ((cmdDelete ["DELETE"; num n];; mret false) e = rhs) end.
  erewrite proc_bind_ok; [done|]. unfold cmdDelete. rewrite (proc_bind_ok _ _ _ l e) by (by rewrite <- Hl).
  rewrite num_pos, known_line by (done || apply Hn). rewrite <- (delete_line l n) by apply Hn. unfold modify. by rewrite Hl.
Qed.

Lemma command_list a b e : (1 ≤ a ≤ b)%nat → Z.of_nat b ≤ INT_MAX →
  command host fs f r hook (str_join " " ["LIST"; num a +:+ "-" +:+ num b]) e = (Ok false, put (listing a b (lines_ e)) e).
Proof.
  intros Hab Hb. unfold command. rewrite split_words.
  2: done. 2: { destruct (num_word a) as [Hn Ha]; [lia|]. split; [by destruct (num a)|]. rewrite str_forall_app, Ha. cbn. by destruct (num_word b) as [_ ->]; [lia|]. }
  match goal with |- _ = ?rhs => change ((cmdList ["LIST"; num a +:+ "-" +:+ num b];; mret false) e = rhs) end.
  erewrite proc_bind_ok; [done|]. unfold cmdList, parseListRangeTokens.
  change ("-" +:+ num b) with (String "-" (num b)). rewrite str_split_digits by (apply to_string_digits; lia). rewrite !num_pos by lia. cbn [mbind option_bind].
  rewrite (proj2 (Z.ltb_ge _ _)) by lia. rewrite (proc_bind_ok _ _ _ (lines_ e) e) by done.
  rewrite (list_lines_spec a b 0). reflexivity.
Qed.

Lemma command_list_all e : Z.of_nat (length (lines_ e)) ≤ INT_MAX →
  command host fs f r hook "LIST" e = (Ok false, put (unlines (imap numbered_line (lines_ e))) e).
Proof.
  intros Hb. change (command host fs f r hook "LIST" e) with ((cmdList ["LIST"];; mret false) e).
  erewrite proc_bind_ok; [done|]. unfold cmdList, parseListRangeTokens. rewrite (proc_bind_ok _ _ _ (lines_ e) e) by done.
  destruct (Z_of_nat_complete INT_MAX) as [m Hm]; [done|]. rewrite Hm in Hb |- *.
  rewrite (list_lines_spec 1 m 0). do 3 f_equal. apply (all_in_range _ 0). lia.
Qed.

(** The state after a command, up to the log of saved files. *)
Definition state_is (st : list string * option string * string) (rest : string) (e : Editor) : Prop :=
  lines_ e = st.1.1 ∧ e_out e = st.2 ∧ e_in e = rest ∧ ready fs f r (e_store e) ∧ holds (e_store e) st.1.2.

Lemma first_typed c : ∃ t ts, typed c = t :: ts ∧ no_char NL t = true.
Proof using Type.
  assert (∀ w x, isword w → str_forall (λ c, negb (Ascii.eqb c NL)) x = true → no_char NL (str_join " " [w; x]) = true) as Hj.
  { intros w x Hw Hx. pose proof (join_one_line [w] (Forall_cons_2 _ _ _ Hw (Forall_nil_2 _))) as H. cbn in H. unfold no_char.
    change (str_join " " [w; x]) with (w +:+ String " " x). rewrite str_forall_app, H. cbn. by rewrite Hx. }
  assert (∀ n, str_forall (λ c, negb (Ascii.eqb c NL)) (num n) = true) as Hn.
  { intros n. eapply str_forall_impl; [|apply (to_string_digits (Z.of_nat n)); lia]. intros d Hd. apply negb_true_iff, Ascii.eqb_neq. by intros ->. }
  destruct c as [[n|] block|n block|n| |a b|]; cbn [typed]; eexists _, _; (split; [reflexivity|]); try done; apply Hj; try done.
  rewrite !str_forall_app, !Hn. done.
Qed.

Lemma command_spec c st rest e : allowed st.1.1 c → state_is (st.1.1, st.1.2, st.2) (unlines (tail (typed c)) +:+ rest) e →
  ∃ e', command host fs f r hook (hd "" (typed c)) e = (Ok false, e') ∧ state_is ((doing st c).1.1, (doing st c).1.2, st.2 +:+ shown c st.1.1) rest e'.
Proof.
  destruct st as [[l saved] out]. cbn [fst snd]. intros Ha (Hl & Ho & Hi & Hw & Hs). cbn [fst snd] in *.
  destruct c as [[n|] block|n block|n| |a b|]; cbn [typed hd tail] in *; cbn [allowed doing shown fst snd] in *;
    rewrite ?str_app_nil_r.
  - destruct Ha as [Hn Hb]. rewrite (command_insert l n block rest e) by done. eexists. split; [reflexivity|]. by split_and!.
  - change (command host fs f r hook "INSERT" e) with ((cmdInsert ["INSERT"];; mret false) e).
    erewrite proc_bind_ok.
    2: { unfold cmdInsert. rewrite (proc_bind_ok _ _ _ l e) by (by rewrite <- Hl). unfold insert_block.
         rewrite (proc_bind_ok _ _ _ _ _ (block_read block rest e Ha Hi)). reflexivity. }
    eexists. split; [reflexivity|]. split_and!; try done. cbn. unfold insert_at. rewrite Hl, take_ge, drop_ge by lia. by rewrite app_nil_r.
  - destruct Ha as (Hn & Hb & Hne). rewrite (command_replace l n block rest e) by done. eexists. split; [reflexivity|]. by split_and!.
  - rewrite (command_delete l n e) by done. eexists. split; [reflexivity|]. by split_and!.
  - rewrite command_list_all by (by rewrite Hl). eexists. split; [reflexivity|]. split_and!; try done. cbn. by rewrite Hl, Ho.
  - rewrite command_list by apply Ha. eexists. split; [reflexivity|]. split_and!; try done. cbn. by rewrite Hl, Ho.
  - change (command host fs f r hook "SAVE" e) with ((cmdSave host fs f r hook;; mret false) e).
    destruct (save_spec e Hw) as (e' & E & Hl' & Hi' & Ho' & Hw' & Hs'). rewrite (proc_bind_ok _ _ _ _ _ E).
    exists e'. split; [done|]. rewrite Hl in Hs'. split_and!; cbn; first [exact Hs'|by rewrite Hi'|congruence|done].
Qed.

Definition keystrokes (cs : list edit) : string := unlines (mjoin (typed <$> cs) ++ ["QUIT"]).

Lemma unlines_app a b : unlines (a ++ b) = unlines a +:+ unlines b.
Proof using Type. induction a as [|x a IH]; [done|]. cbn [app unlines foldr]. fold (unlines (a ++ b)). by rewrite IH, !str_app_assoc, str_app_cons. Qed.

Lemma rounds_spec cs st e fuel : all_allowed st.1.1 cs → (length cs < fuel)%nat → state_is (st.1.1, st.1.2, st.2) (keystrokes cs) e →
  ∃ e', rounds host fs f r fuel hook e = (Ok tt, e') ∧
    state_is ((foldl doing st cs).1.1, (foldl doing st cs).1.2, (foldl doing st cs).2 +:+ "ED> ") "" e'.
Proof.
  revert st e fuel. induction cs as [|c cs IH]; intros st e fuel Ha Hfuel He; (destruct fuel as [|fuel]; [cbn in Hfuel; lia|]); cbn [rounds].
  - destruct He as (Hl & Ho & Hi & Hw & Hs). erewrite proc_bind_ok by reflexivity. erewrite proc_bind_ok by reflexivity. cbn [e_in]. rewrite Hi.
    eexists. split; [reflexivity|]. split_and!; try done. cbn. by rewrite Ho.
  - destruct Ha as [Ha Has]. destruct (first_typed c) as (t & ts & Et & Hnl).
    destruct He as (Hl & Ho & Hi & Hw & Hs). cbn [fst snd] in *.
    erewrite proc_bind_ok by reflexivity. erewrite proc_bind_ok by reflexivity. cbn [e_in]. rewrite Hi.
    assert (keystrokes (c :: cs) = t +:+ String NL (unlines ts +:+ keystrokes cs)) as Hk.
    { unfold keystrokes. cbn [fmap list_fmap]. change (mjoin (typed c :: (typed <$> cs))) with (typed c ++ mjoin (typed <$> cs)).
      rewrite Et. cbn [app unlines foldr]. fold (unlines ((ts ++ mjoin (typed <$> cs)) ++ ["QUIT"])). by rewrite <- app_assoc, unlines_app. }
    rewrite Hk, getline_app by done. erewrite proc_bind_ok by reflexivity. cbn [set_in].
    destruct (command_spec c (st.1.1, st.1.2, st.2 +:+ "ED> ") (keystrokes cs)
                (set_in (unlines ts +:+ keystrokes cs) (mkEditor (lines_ e) (e_in e) (e_out e +:+ "ED> ") (e_saved e) (e_store e))) Ha)
      as (e' & E & He').
    { split_and!; try done; cbn; [by rewrite Ho|by rewrite Et]. }
    rewrite Et in E. cbn [fst snd hd] in He', E. erewrite proc_bind_ok by exact E. cbn [foldl].
    apply (IH (doing st c)); [by destruct st as [[??]?]|cbn in Hfuel; lia|].
    destruct st as [[l saved] out]. cbn [fst snd doing] in *. by rewrite !str_app_assoc in He'.
Qed.
End session.

(** C23. Editing a record. Commands that refer to lines that exist, typed one after
    the other with the lines of their texts and a period after each text, and then
    QUIT, do what a list of lines would: inserting puts the text after the line
    (or at the end), replacing puts it in the line's place, deleting takes one line
    out, the listings number the lines from 1 as they are at that moment, and the
    record holds the lines as they were at the last SAVE. *)
Theorem editor_session host fs f r hook cs e : healthy host → isValidName f = true → isValidName r = true →
  ready fs f r (e_store e) → all_allowed (lines_ e) cs → e_in e = keystrokes cs →
  let '(lines, saved, shown) := foldl doing (lines_ e, None, e_out e) cs in
  ∃ e', run host fs f r hook None e = (Ok tt, e') ∧ lines_ e' = lines ∧ e_out e' = shown +:+ "ED> " ∧
    ∀ text, saved = Some text → read host fs f r (e_store e') = (Ok (Some (makeRecord r text)), e_store e').
Proof.
  intros Hh Hf Hr Hw Ha Hi. destruct (foldl doing _ _) as [[l saved] out] eqn:Efold. unfold run.
  erewrite proc_bind_ok by reflexivity. erewrite proc_bind_ok by reflexivity. erewrite proc_bind_ok by reflexivity.
  destruct (rounds_spec Hh fs f r hook Hf Hr cs (lines_ e, None, e_out e) e (S (String.length (e_in e)))) as (e' & E & He').
  - done.
  - rewrite Hi. unfold keystrokes. pose proof (unlines_length (mjoin (typed <$> cs) ++ ["QUIT"])) as H.
    assert (length cs ≤ length (mjoin (typed <$> cs)))%nat; [|rewrite length_app in H; cbn in H; lia].
    clear. induction cs as [|c cs IH]; [done|]. cbn [fmap list_fmap]. change (mjoin (typed c :: (typed <$> cs))) with (typed c ++ mjoin (typed <$> cs)).
    destruct (first_typed c) as (t & ts & -> & _). rewrite length_app. cbn. lia.
  - by split_and!.
  - rewrite Efold in He'. destruct He' as (? & ? & _ & _ & Hs). by exists e'.
Qed.

Definition ex_edits : list edit :=
  [Insert None ["first"; "second"]; Save; Insert (Some 1%nat) ["between"; ""]; Delete 4; Replace 1 ["one"; "two"]; ListRange 2 9; ListAll; Save; Delete 1].

Definition ex_editor : Editor := mkEditor [] (keystrokes ex_edits) "" [] ex_world.

Lemma editor_session_witness : ∃ e', run ex_host (mkFs "root" false "") "F" "X" true None ex_editor = (Ok tt, e') ∧
  lines_ e' = ["two"; "between"; ""] ∧
  e_out e' = "ED> ED> ED> ED> ED> ED> " +:+ unlines ["2 two"; "3 between"; "4"] +:+
             "ED> " +:+ unlines ["1 one"; "2 two"; "3 between"; "4"] +:+ "ED> ED> ED> " ∧
  read ex_host (mkFs "root" false "") "F" "X" (e_store e') =
    (Ok (Some (makeRecord "X" (str_join NL ["one"; "two"; "between"; ""]))), e_store e').
Proof.
  pose proof (editor_session ex_host (mkFs "root" false "") "F" "X" true ex_edits ex_editor ex_healthy eq_refl eq_refl) as H.
  assert (foldl doing (lines_ ex_editor, None, e_out ex_editor) ex_edits =
    (["two"; "between"; ""], Some (str_join NL ["one"; "two"; "between"; ""]),
     "ED> ED> ED> ED> ED> ED> " +:+ unlines ["2 two"; "3 between"; "4"] +:+
     "ED> " +:+ unlines ["1 one"; "2 two"; "3 between"; "4"] +:+ "ED> ED> ")) as E by (vm_compute; reflexivity).
  rewrite E in H. destruct H as (e' & Hrun & Hl & Ho & Hs).
  - split; [|done]. exists ex_entries. split; [vm_compute; reflexivity|exact ex_regular].
  - assert (INT_MAX = 2147483647) as Hmax by done.
    assert (text_line "first" ∧ text_line "second" ∧ text_line "between" ∧ text_line "" ∧ text_line "one" ∧ text_line "two") as (? & ? & ? & ? & ? & ?) by done.
    repeat split; try (cbn; lia); repeat (apply Forall_cons; split); done.
  - reflexivity.
  - exists e'. split; [exact Hrun|]. split; [exact Hl|]. split; [rewrite Ho; vm_compute; reflexivity|]. by apply Hs.
Defined.

(** An INSERT after a line that does not exist is refused before its text is read:
    the lines of the text are then taken for commands. *)
Example refused_text_is_commands :
  let e := mkEditor ["a"; "b"] (unlines ["INSERT 7"; "DELETE 1"; "."]) "" [] ex_world in
  let e' := (run ex_host (mkFs "root" false "") "F" "X" false None e).2 in
  lines_ e' = ["b"] ∧ e_out e' = "ED> " +:+ unlines ["No such line"] +:+ "ED> ED> " +:+ unlines ["Unknown command: ."] +:+ "ED> ".
Proof. by vm_compute. Qed.
