(* ===== verification/Values.v ===== *)
(** * Values of the virtual machine

    The coercions, the display and the comparison of [Value]s: the helper
    functions at the top of [src/core/vm/Runtime.cpp]. [BasicBuiltinSupport.cpp]
    repeats three of them word for word. *)

From Stdlib Require Import Ascii String.
From S2P Require Import Prelude CLib Dbl DblFacts Records Conv Bytecode Correl.
From stdpp Require Import options.
Local Open Scope Z_scope.

(* src/core/vm/Runtime.cpp:112-117 [intFromStackValue] *)
Definition intFromStackValue (v : Value) (ctx : string) : outcome Z :=
  match v with VInt n => Ok n | _ => Throw (RuntimeError (ctx +:+ ": expected int on stack")) end.

(* src/core/vm/Runtime.cpp:119-124 [stringFromStackValue] *)
Definition stringFromStackValue (v : Value) (ctx : string) : outcome string :=
  match v with VStr s => Ok s | _ => Throw (RuntimeError (ctx +:+ ": expected string on stack")) end.

(* src/core/vm/Runtime.cpp:135-154 [valueToString] *)
Definition valueToString (v : Value) : string :=
  match v with
  | VStr s => s
  | VDbl d => trimmed_g15 d true
  | VInt n => to_string n
  end.

(* src/core/vm/Runtime.cpp:164-182 [coerceToDouble] *)
Definition coerceToDouble (v : Value) : double :=
  match v with
  | VInt n => d_of_Z n
  | VDbl d => d
  | VStr s =>
      if str_empty s then d_zero
      else match strtod s with
           | Some (n, false, _) => n
           | _ => d_zero
           end
  end.

(* src/core/vm/Runtime.cpp:186-200 [stringHasTrailingNonNumericJunk] *)
Definition stringHasTrailingNonNumericJunk (s : string) : bool :=
  if str_empty s then false
  else match strtod s with
       | Some (_, false, rest) => negb (str_empty (ltrim isspace rest))
       | _ => false
       end.

(* src/core/vm/Runtime.cpp:202-210 [arithmeticOperandForcesDoubleResult] *)
Definition arithmeticOperandForcesDoubleResult (v : Value) : bool :=
  match v with VDbl _ => true | VInt _ => false | VStr s => stringHasTrailingNonNumericJunk s end.

(* src/core/vm/Runtime.cpp:212-223 [arithmeticResultValue] *)
Definition arithmeticResultValue (a b : Value) (result : double) : outcome Value :=
  if negb (arithmeticOperandForcesDoubleResult a || arithmeticOperandForcesDoubleResult b) &&
     d_leb (d_of_Z INT_MIN) result && d_leb result (d_of_Z INT_MAX) && d_is_integral result
  then VInt <$> d_to_int result
  else Ok (VDbl result).

(** A NaN is outside neither bound, and its conversion is undefined. *)
(* src/core/vm/Runtime.cpp:225-232 [coerceToInt] *)
Definition coerceToInt (v : Value) : outcome Z :=
  let n := coerceToDouble v in
  if d_ltb n (d_of_Z INT_MIN) || d_ltb (d_of_Z INT_MAX) n then Ok 0 else d_to_int n.

(* src/core/vm/Runtime.cpp:234-236 [isNumericValue] *)
Definition isNumericValue (v : Value) : bool := match v with VStr _ => false | _ => true end.

(* src/core/vm/Runtime.cpp:239-254 [compareValues] *)
Definition compareValues (a b : Value) (ctx : string) : outcome Z :=
  if isNumericValue a && isNumericValue b then
    let ia := coerceToDouble a in
    let ib := coerceToDouble b in
    Ok (if d_ltb ia ib then -1 else if d_ltb ib ia then 1 else 0)
  else match a, b with
       | VStr sa, VStr sb =>
           Ok (match String.compare sa sb with Datatypes.Lt => -1 | Datatypes.Gt => 1 | Datatypes.Eq => 0 end)
       | _, _ => Throw (RuntimeError (ctx +:+ ": type mismatch"))
       end.

(* src/core/vm/Runtime.cpp:256-270 [parseIntLine] *)
Definition parseIntLine (line : string) : option Z :=
  let trimmed := trim_by is_blank line in
  if str_empty trimmed then None
  else match stoi trimmed with Ok (v, "") => Some v | _ => None end.

(* src/core/vm/Runtime.cpp:272-286 [parseFltLine] *)
Definition parseFltLine (line : string) : option double :=
  let trimmed := trim_by is_blank line in
  if str_empty trimmed then None
  else match stod trimmed with Ok (v, "") => Some v | _ => None end.

(* src/core/vm/Runtime.cpp:73-79 [canonicalVariableName] *)
Definition canonicalVariableName (raw : string) : string := str_map toupper raw.

(* src/core/vm/Runtime.cpp:81-83 [isReadOnlySystemVariableName] *)
Definition isReadOnlySystemVariableName (canonical : string) : bool :=
  bool_decide (canonical ∈ ["@USERNO"; "@ACCOUNT"; "@LOGNAME"; "@DEFDATA"]).

(** ** The [int]s stay in range *)

(** An [int] value is one of the 2^32 values of the type. *)
Definition value_ok (v : Value) : Prop := match v with VInt n => in_int n = true | _ => True end.

Lemma value_ok_str s : value_ok (VStr s).
Proof. done. Qed.

Lemma value_ok_dbl d : value_ok (VDbl d).
Proof. done. Qed.

Lemma value_ok_bool (b : bool) : value_ok (VInt (if b then 1 else 0)).
Proof. by destruct b. Qed.

Lemma d_to_int_ok d z : d_to_int d = Ok z → in_int z = true.
Proof. unfold d_to_int. destruct (d_trunc d); [|done]. destruct (in_int _) eqn:E; [by intros [= <-]|done]. Qed.

Lemma coerceToInt_ok v z : coerceToInt v = Ok z → in_int z = true.
Proof. unfold coerceToInt. destruct (_ || _); [by intros [= <-]|apply d_to_int_ok]. Qed.

Lemma arithmeticResultValue_ok a b d v : arithmeticResultValue a b d = Ok v → value_ok v.
Proof.
  unfold arithmeticResultValue. destruct (_ && _); [|by intros [= <-]].
  intros (z & Hz & ->)%outcome_fmap_inv. by eapply d_to_int_ok.
Qed.

Lemma in_int_small z : in_int z = true → -2 ^ 53 < z < 2 ^ 53.
Proof. intros H%in_int_spec. unfold INT_MIN, INT_MAX in H. lia. Qed.

(** [coerceToInt] on the values that denote an [int]. *)
Lemma coerceToInt_int z : in_int z = true → coerceToInt (VInt z) = Ok z.
Proof.
  intros Hz. pose proof (in_int_small z Hz) as Hs. pose proof Hz as Hr. apply in_int_spec in Hr.
  unfold coerceToInt, coerceToDouble. rewrite !d_ltb_exact by (done || by vm_compute).
  rewrite (proj2 (Z.ltb_ge _ _)), (proj2 (Z.ltb_ge _ _)) by lia. cbn [orb]. by apply d_to_int_of_Z.
Qed.

Lemma coerceToInt_text z : in_int z = true → coerceToInt (VStr (to_string z)) = Ok z.
Proof.
  intros Hz. pose proof (in_int_small z Hz) as Hs. rewrite <- (coerceToInt_int z Hz).
  unfold coerceToInt, coerceToDouble. rewrite strtod_to_string by done.
  pose proof (to_string_nonempty z). by destruct (to_string z).
Qed.

(** Comparison is exact: on two [int]s, although the code compares them as
    doubles, on an [int] and the double of an [int], and on two strings (byte
    order) [compareValues] gives the sign of the mathematical comparison, so it
    is antisymmetric and transitive there; a number and a string are a type
    mismatch. *)
Theorem compare_values_exact (a b : Z) (s t : string) (ctx : string) :
  in_int a = true → in_int b = true →
  compareValues (VInt a) (VInt b) ctx = Ok (Z.sgn (a - b)) ∧
  compareValues (VInt a) (VDbl (d_of_Z b)) ctx = Ok (Z.sgn (a - b)) ∧
  compareValues (VStr s) (VStr t) ctx =
    Ok (match String.compare s t with Datatypes.Lt => -1 | Datatypes.Eq => 0 | Datatypes.Gt => 1 end) ∧
  compareValues (VInt a) (VStr s) ctx = Throw (RuntimeError (ctx +:+ ": type mismatch")).
Proof.
  intros Ha%in_int_small Hb%in_int_small.
  assert (∀ x y, coerceToDouble x = d_of_Z a → coerceToDouble y = d_of_Z b → isNumericValue x && isNumericValue y = true →
    compareValues x y ctx = Ok (Z.sgn (a - b))) as H.
  { intros x y Hx Hy Hn. unfold compareValues. rewrite Hn, Hx, Hy. cbv zeta. rewrite !d_ltb_exact by done.
    destruct (Z.ltb_spec a b); [f_equal; lia|]. destruct (Z.ltb_spec b a); f_equal; lia. }
  split; [by apply H|]. split; [by apply H|]. split; [|done]. cbn. by destruct (String.compare s t).
Qed.

Lemma compare_values_exact_witness :
  compareValues (VInt INT_MAX) (VInt INT_MIN) "GT" = Ok 1 ∧ compareValues (VInt 7) (VDbl (d_of_Z 7)) "EQ" = Ok 0.
Proof.
  split.
  - exact (proj1 (compare_values_exact INT_MAX INT_MIN "" "" "GT" eq_refl eq_refl)).
  - exact (proj1 (proj2 (compare_values_exact 7 7 "" "" "EQ" eq_refl eq_refl))).
Defined.
