(* ===== verification/Registry.v ===== *)
(** * Language functions

    [src/core/languages/LanguageRegistry.cpp] (namespaces of functions that
    bytecode calls by number) and the BASIC namespace under
    [src/core/languages/basic]: [BasicBuiltinHandlers.cpp],
    [BasicBuiltinSupport.cpp], [BasicBuiltinLookup.h], [BasicBuiltinShim.cpp],
    [BasicLanguageRegistration.cpp].

    A function works on the machine's stack of values, here a list whose head
    is the top, and on what is outside the machine: the thread's random engine, and the
    streams on the host's files. The C library's
    transcendental functions, the random engine and the clock are parameters. *)

From Stdlib Require Import Ascii String.
From stdpp Require Import sorting.
From S2P Require Import Prelude CLib HostStreams Dbl Records Conv Bytecode Correl Values.
From stdpp Require Import options.
Local Open Scope Z_scope.

(** ** Functions *)

(** The functions of <cmath> and <random> that the handlers call. An engine is
    named by a number: [seed n] is the engine that [seed(n)] makes, [sample e]
    the next sample in [0, 1) and the engine after it.  [host_files]: the calls on the host's
    files; what the files hold, and an open file, are named by numbers too. *)
Record Platform := mkPlatform {
  m_sin : double → double;
  m_cos : double → double;
  m_tan : double → double;
  m_exp : double → double;
  m_log : double → double;
  m_fmod : double → double → double;
  rng_seed : Z → Z;
  rng_sample : Z → double * Z;
  host_files : FileHost Z Z
}.

(** What a function sees of the machine that calls it: its [STATUS], its
    [SYSTEM] handler when one is set, and the time. *)
Record HostContext := mkContext {
  hc_status : Z;
  hc_system : option (Z → outcome Value);
  hc_now : Z;
  hc_platform : Platform
}.

(** What functions use besides the stack: the random engine; and the streams on the host's files, when the machine has them
    ([Runtime::hostFilesystem]). *)
(* src/core/vm/Runtime.h:215-215 [Runtime::hostFilesystem_] *)
Record Outside := mkOutside { o_rng : Z; o_files : option (@HostFiles Z Z) }.

Definition set_rng (e : Z) (o : Outside) : Outside := mkOutside e (o_files o).

Record FnState := mkFnState { fn_stack : list Value; fn_outside : Outside }.

Definition LanguageFunctionFn : Type := HostContext → proc FnState unit.

Definition empty_back : string := "back() of an empty vector".

(** [const Value v = stack.back(); stack.pop_back();] *)
Definition fpop : proc FnState Value := λ st,
  match fn_stack st with
  | [] => (Undefined empty_back, st)
  | v :: rest => (Ok v, mkFnState rest (fn_outside st))
  end.

Definition fpush (v : Value) : proc FnState unit := λ st, (Ok tt, mkFnState (v :: fn_stack st) (fn_outside st)).

Definition ffail {A} (what : string) : proc FnState A := throw (RuntimeError what).

(** ** The BASIC functions *)

(* src/core/languages/basic/BasicBuiltinSupport.cpp:80-94 [isFullyNumeric] *)
Definition isFullyNumeric (s : string) : bool :=
  if str_empty s then false
  else match strtod s with
       | Some (_, false, rest) => str_empty (ltrim isspace rest)
       | _ => false
       end.

(* src/core/languages/basic/BasicBuiltinSupport.cpp:290-304 [dispatchConvertCode] *)
Definition dispatchConvertCode (output : bool) (v : Value) (codeRaw : string) : outcome Value :=
  if output then VStr <$> oconvOutputBuiltin (valueToString v) codeRaw
  else
    let code := upperCopy codeRaw in
    converted ← iconvOutputBuiltin (valueToString v) codeRaw;
    if String.eqb code "MCU" || String.eqb code "MCL" then Ok (VStr converted)
    else VInt <$> coerceToInt (VStr converted).

(* src/core/languages/basic/BasicBuiltinHandlers.cpp:28-32 [handlerAbs] *)
Definition handlerAbs : LanguageFunctionFn := λ _,
  v ← fpop; n ← lift (coerceToInt v); r ← lift (int_of (Z.abs n)); fpush (VInt r).

(* src/core/languages/basic/BasicBuiltinHandlers.cpp:34-39 [handlerSgn] *)
Definition handlerSgn : LanguageFunctionFn := λ _,
  v ← fpop; x ← lift (coerceToInt v); fpush (VInt (if 0 <? x then 1 else if x <? 0 then -1 else 0)).

(** [SEQ]: the code of the first character. *)
Definition seq_of (s : string) : Z := match s with "" => 0 | String c _ => code c end.

(* src/core/languages/basic/BasicBuiltinHandlers.cpp:41-46 [handlerSeq] *)
Definition handlerSeq : LanguageFunctionFn := λ _, v ← fpop; fpush (VInt (seq_of (valueToString v))).

(* src/core/languages/basic/BasicBuiltinHandlers.cpp:48-52 [handlerLen] *)
Definition handlerLen : LanguageFunctionFn := λ _, v ← fpop; fpush (VInt (to_int32 (str_size (valueToString v)))).

(* src/core/languages/basic/BasicBuiltinHandlers.cpp:54-65 [handlerTrim] *)
Definition handlerTrim : LanguageFunctionFn := λ _, v ← fpop; fpush (VStr (trim_by is_blank (valueToString v))).

(* src/core/languages/basic/BasicBuiltinHandlers.cpp:67-75 [handlerLcase] *)
Definition handlerLcase : LanguageFunctionFn := λ _, v ← fpop; fpush (VStr (str_map tolower (valueToString v))).

(* src/core/languages/basic/BasicBuiltinHandlers.cpp:77-85 [handlerUcase] *)
Definition handlerUcase : LanguageFunctionFn := λ _, v ← fpop; fpush (VStr (str_map toupper (valueToString v))).

Definition kBuiltinSpaceMaxCount : Z := 65536.

Fixpoint spaces (n : nat) : string := match n with O => "" | S n' => String " " (spaces n') end.

(* src/core/languages/basic/BasicBuiltinHandlers.cpp:87-98 [handlerSpace] *)
Definition handlerSpace : LanguageFunctionFn := λ _,
  v ← fpop; n0 ← lift (coerceToInt v);
  let n := if n0 <? 0 then 0 else n0 in
  if kBuiltinSpaceMaxCount <? n then ffail "BUILTIN: SPACE count exceeds limit"
  else fpush (VStr (spaces (Z.to_nat n))).

(** No range check: [static_cast<int>] of a double outside [int] is undefined. *)
(* src/core/languages/basic/BasicBuiltinHandlers.cpp:100-105 [handlerInt] *)
Definition handlerInt : LanguageFunctionFn := λ _,
  v ← fpop; n ← lift (d_to_int (coerceToDouble v)); fpush (VInt n).

(* src/core/languages/basic/BasicBuiltinHandlers.cpp:107-118 [handlerMod] *)
Definition handlerMod : LanguageFunctionFn := λ cx,
  bVal ← fpop; aVal ← fpop;
  let b := coerceToDouble bVal in
  let a := coerceToDouble aVal in
  if d_eqb b d_zero then ffail "BUILTIN: MOD division by zero"
  else fpush (VDbl (m_fmod (hc_platform cx) a b)).

Definition math_fn (f : Platform → double → double) : LanguageFunctionFn := λ cx,
  v ← fpop; fpush (VDbl (f (hc_platform cx) (coerceToDouble v))).

(* src/core/languages/basic/BasicBuiltinHandlers.cpp:120-124 [handlerSin] *)
Definition handlerSin : LanguageFunctionFn := math_fn m_sin.

(* src/core/languages/basic/BasicBuiltinHandlers.cpp:126-130 [handlerCos] *)
Definition handlerCos : LanguageFunctionFn := math_fn m_cos.

(* src/core/languages/basic/BasicBuiltinHandlers.cpp:132-136 [handlerTan] *)
Definition handlerTan : LanguageFunctionFn := math_fn m_tan.

(* src/core/languages/basic/BasicBuiltinHandlers.cpp:138-142 [handlerExp] *)
Definition handlerExp : LanguageFunctionFn := math_fn m_exp.

(* src/core/languages/basic/BasicBuiltinHandlers.cpp:144-152 [handlerLog] *)
Definition handlerLog : LanguageFunctionFn := λ cx,
  v ← fpop;
  let x := coerceToDouble v in
  if d_leb x d_zero then ffail "BUILTIN: LOG domain" else fpush (VDbl (m_log (hc_platform cx) x)).

(* src/core/languages/basic/BasicBuiltinHandlers.cpp:154-158 [handlerDate] *)
Definition handlerDate : LanguageFunctionFn := λ cx,
  r ← lift (int_of (to_int32 (Z.quot (hc_now cx) 86400) + kPickInternalDateAtUnixEpoch)); fpush (VInt r).

(** [strftime "%H:%M:%S"] of the UTC time. *)
(* src/core/languages/basic/BasicBuiltinHandlers.cpp:160-174 [handlerTime] *)
Definition handlerTime : LanguageFunctionFn := λ cx,
  fpush (VStr (timeStringFromSeconds (hc_now cx mod 86400) true)).

(* src/core/languages/basic/BasicBuiltinHandlers.cpp:176-182 [handlerSystem] *)
Definition handlerSystem : LanguageFunctionFn := λ cx,
  v ← fpop; n ← lift (coerceToInt v);
  match hc_system cx with
  | None => ffail "BUILTIN: SYSTEM not configured"
  | Some f => r ← lift (f n); fpush r
  end.

(** [s.find(needle)] with the text before it and the text from it on. *)
Fixpoint find_sub (needle s : string) : option (string * string) :=
  if starts_with needle s then Some ("", s)
  else match s with
       | "" => None
       | String c s' => match find_sub needle s' with Some (l, r) => Some (String c l, r) | None => None end
       end.

(** The loop of [INDEX]: [hay] is the text from [pos] on; one more occurrence
    needs one more character, so the length of the text bounds the rounds. *)
(* src/core/languages/basic/BasicBuiltinHandlers.cpp:200-213 [handlerIndex] *)
Fixpoint index_loop (fuel : nat) (needle hay : string) (pos occ : Z) : Z :=
  match fuel with
  | O => 0
  | S fuel' =>
      match find_sub needle hay with
      | None => 0
      | Some (l, r) =>
          let found := pos + str_size l in
          if occ =? 1 then to_int32 (found + 1) else index_loop fuel' needle (str_drop 1 r) (found + 1) (occ - 1)
      end
  end.

Definition index_of (hay needle : string) (occ : Z) : Z := index_loop (S (String.length hay)) needle hay 0 occ.

(* src/core/languages/basic/BasicBuiltinHandlers.cpp:184-214 [handlerIndex] *)
Definition handlerIndex : LanguageFunctionFn := λ _,
  occVal ← fpop; needleVal ← fpop; hayVal ← fpop;
  let hay := valueToString hayVal in
  let needle := valueToString needleVal in
  if str_empty needle then ffail "BUILTIN: INDEX empty substring"
  else
    occ ← lift (coerceToInt occVal);
    if occ <? 1 then ffail "BUILTIN: INDEX occurrence"
    else fpush (VInt (index_of hay needle occ)).

(* src/core/languages/basic/BasicBuiltinHandlers.cpp:232-242 [handlerField] *)
Fixpoint split_fields (fuel : nat) (delim hay : string) : list string :=
  match fuel with
  | O => []
  | S fuel' =>
      match find_sub delim hay with
      | None => [hay]
      | Some (l, r) => l :: split_fields fuel' delim (str_drop (String.length delim) r)
      end
  end.

Definition fields_of (hay delim : string) : list string := split_fields (S (String.length hay)) delim hay.

(* src/core/languages/basic/BasicBuiltinHandlers.cpp:216-248 [handlerField] *)
Definition handlerField : LanguageFunctionFn := λ _,
  fieldIdxVal ← fpop; delimVal ← fpop; hayVal ← fpop;
  let hay := valueToString hayVal in
  let delim := valueToString delimVal in
  if str_empty delim then ffail "BUILTIN: FIELD empty delimiter"
  else
    fieldNum ← lift (coerceToInt fieldIdxVal);
    if fieldNum <? 1 then ffail "BUILTIN: FIELD field index"
    else fpush (VStr (default "" (fields_of hay delim !! Z.to_nat (fieldNum - 1)))).

(* src/core/languages/basic/BasicBuiltinHandlers.cpp:250-254 [handlerStr] *)
Definition handlerStr : LanguageFunctionFn := λ _, v ← fpop; fpush (VStr (valueToString v)).

(* src/core/languages/basic/BasicBuiltinHandlers.cpp:256-262 [handlerOconv] *)
Definition handlerOconv : LanguageFunctionFn := λ _,
  codeVal ← fpop; val ← fpop; r ← lift (dispatchConvertCode true val (valueToString codeVal)); fpush r.

(* src/core/languages/basic/BasicBuiltinHandlers.cpp:264-270 [handlerIconv] *)
Definition handlerIconv : LanguageFunctionFn := λ _,
  codeVal ← fpop; val ← fpop; r ← lift (dispatchConvertCode false val (valueToString codeVal)); fpush r.

(* src/core/languages/basic/BasicBuiltinHandlers.cpp:272-282 [handlerNum] *)
Definition handlerNum : LanguageFunctionFn := λ _,
  v ← fpop;
  fpush (VInt (if match v with VStr s => isFullyNumeric s | _ => true end then 1 else 0)).

(** [from.find(c)] *)
Fixpoint find_char (c : ascii) (s : string) : option nat :=
  match s with
  | "" => None
  | String x s' => if Ascii.eqb x c then Some O else S <$> find_char c s'
  end.

(* src/core/languages/basic/BasicBuiltinHandlers.cpp:294-303 [handlerConvert] *)
Fixpoint convert_chars (src from to : string) : string :=
  match src with
  | "" => ""
  | String c src' =>
      match find_char c from with
      | None => String c (convert_chars src' from to)
      | Some pos =>
          match String.get pos to with
          | Some t => String t (convert_chars src' from to)
          | None => convert_chars src' from to
          end
      end
  end.

(* src/core/languages/basic/BasicBuiltinHandlers.cpp:284-305 [handlerConvert] *)
Definition handlerConvert : LanguageFunctionFn := λ _,
  toVal ← fpop; fromVal ← fpop; srcVal ← fpop;
  fpush (VStr (convert_chars (valueToString srcVal) (valueToString fromVal) (valueToString toVal))).

(* src/core/languages/basic/BasicBuiltinHandlers.cpp:22-25 [pushRndSample] *)
Definition pushRndSample (cx : HostContext) : proc FnState unit := λ st,
  let '(d, e) := rng_sample (hc_platform cx) (o_rng (fn_outside st)) in (Ok tt, mkFnState (VDbl d :: fn_stack st) (set_rng e (fn_outside st))).

(* src/core/languages/basic/BasicBuiltinHandlers.cpp:307-309 [handlerRnd0] *)
Definition handlerRnd0 : LanguageFunctionFn := pushRndSample.

(* src/core/languages/basic/BasicBuiltinHandlers.cpp:311-315 [handlerRnd1] *)
Definition handlerRnd1 : LanguageFunctionFn := λ cx,
  v ← fpop; n ← lift (coerceToInt v);
  modify (λ st, mkFnState (fn_stack st) (set_rng (rng_seed (hc_platform cx) (wrap32 n)) (fn_outside st)));;
  pushRndSample cx.

(* src/core/languages/basic/BasicBuiltinHandlers.cpp:317-320 [handlerStatus] *)
Definition handlerStatus : LanguageFunctionFn := λ cx, fpush (VInt (hc_status cx)).

(** ** The registry *)

(* src/core/languages/LanguageTypes.h:16-19 [LanguageFunctionEntry] *)
Record LanguageFunctionEntry := mkEntry_ { arity : Z; fn : option LanguageFunctionFn }.

(* src/core/languages/LanguageTypes.h:21-24 [LanguageNamespaceMetadata] *)
Record LanguageNamespaceMetadata := mkMeta { ns_name : string; ns_version : string }.

(** [onInit]: what the hook does when it is called, return or throw. *)
(* src/core/languages/LanguageTypes.h:31-36 [LanguageNamespaceDescriptor] *)
Record LanguageNamespaceDescriptor := mkDescriptor {
  d_id : Z;
  d_metadata : LanguageNamespaceMetadata;
  d_functions : list LanguageFunctionEntry;
  d_onInit : option (outcome unit)
}.

(* src/core/languages/LanguageRegistry.h:37-41 [LanguageRegistry::RegisteredNamespace] *)
Record RegisteredNamespace := mkRegistered {
  rn_metadata : LanguageNamespaceMetadata;
  functions : list LanguageFunctionEntry
}.

(* src/core/languages/LanguageRegistry.h:43-44 [LanguageRegistry] *)
Record LanguageRegistry := mkRegistry { namespaces : gmap Z RegisteredNamespace; frozen : bool }.

Definition emptyRegistry : LanguageRegistry := mkRegistry ∅ false.

(* src/core/languages/LanguageRegistry.cpp:14-22 [throwLanguageRegistryError] *)
Definition lang_error (kind detail : string) : exn :=
  RuntimeError ("LANG: " +:+ kind +:+ (if str_empty detail then "" else " (" +:+ detail +:+ ")")).

(* src/core/languages/LanguageRegistry.cpp:24-42 [LanguageRegistry::registerNamespace] *)
Definition registerNamespace (d : LanguageNamespaceDescriptor) : proc LanguageRegistry unit := λ r,
  if frozen r then (Throw (lang_error "registry frozen" ""), r)
  else match namespaces r !! d_id d with
       | Some _ => (Throw (lang_error "duplicate namespace" (to_string (d_id d))), r)
       | None =>
           match default (Ok tt) (d_onInit d) with
           | Ok _ => (Ok tt, mkRegistry (<[d_id d := mkRegistered (d_metadata d) (d_functions d)]> (namespaces r)) false)
           | Throw e => (Throw e, r)
           | Undefined w => (Undefined w, r)
           end
       end.

(* src/core/languages/LanguageRegistry.cpp:44-46 [LanguageRegistry::freeze] *)
Definition freeze (r : LanguageRegistry) : LanguageRegistry := mkRegistry (namespaces r) true.

(* src/core/languages/LanguageRegistry.cpp:48-76 [LanguageRegistry::dispatch] *)
Definition dispatch (r : LanguageRegistry) (nsId fnId argCount : Z) (cx : HostContext) : proc FnState unit := λ st,
  match namespaces r !! nsId with
  | None => (Throw (lang_error "unknown namespace" (to_string nsId)), st)
  | Some ns =>
      match functions ns !! Z.to_nat fnId with
      | None => (Throw (lang_error "unknown function" (to_string fnId)), st)
      | Some entry =>
          match fn entry with
          | None => (Throw (lang_error "unknown function" (to_string fnId)), st)
          | Some f =>
              if negb (argCount =? arity entry) then (Throw (lang_error "arity mismatch" ""), st)
              else if to_int32 (Z.of_nat (length (fn_stack st))) <? argCount
              then (Throw (lang_error "arity mismatch" ""), st)
              else f cx st
          end
      end
  end.

(* src/core/languages/LanguageRegistry.cpp:78-84 [LanguageRegistry::metadata] *)
Definition metadata (r : LanguageRegistry) (nsId : Z) : option LanguageNamespaceMetadata :=
  rn_metadata <$> namespaces r !! nsId.

Definition id_le (a b : Z * LanguageNamespaceMetadata * Z) : Prop := a.1.1 <= b.1.1.

#[global] Instance id_le_dec a b : Decision (id_le a b) := decide (a.1.1 <= b.1.1).

(** (id, metadata, function count) *)
(* src/core/languages/LanguageRegistry.cpp:86-101 [LanguageRegistry::listNamespaces] *)
Definition listNamespaces (r : LanguageRegistry) : list (Z * LanguageNamespaceMetadata * Z) :=
  merge_sort id_le
    ((λ kv : Z * RegisteredNamespace, (kv.1, rn_metadata kv.2, Z.of_nat (length (functions kv.2)))) <$>
       map_to_list (namespaces r)).

(** (id, arity, implemented) *)
(* src/core/languages/LanguageRegistry.cpp:103-120 [LanguageRegistry::functionSlotSummaries] *)
Definition functionSlotSummaries (r : LanguageRegistry) (nsId : Z) : list (Z * Z * bool) :=
  match namespaces r !! nsId with
  | None => []
  | Some ns => imap (λ i e, (Z.of_nat i, arity e, bool_decide (is_Some (fn e)))) (functions ns)
  end.

(* src/core/languages/LanguageRegistry.cpp:122-125 [LanguageRegistry::resetForTests] *)
Definition resetForTests (r : LanguageRegistry) : LanguageRegistry := emptyRegistry.

(** ** The BASIC namespace *)

(* include/gemini/namespace_ids.hpp:16-16 [kNamespaceIdBasic] *)
Definition kNamespaceId : Z := 2.

(** The names with their argument counts, numbered as the function ids. *)
(* src/core/languages/basic/BasicBuiltinLookup.h:10-98 [functionIdForCall] *)
Definition builtin_names : list (string * Z) :=
  [("ABS", 1); ("SGN", 1); ("SEQ", 1); ("LEN", 1); ("TRIM", 1); ("LCASE", 1); ("UCASE", 1); ("SPACE", 1); ("INT", 1);
   ("MOD", 2); ("SIN", 1); ("COS", 1); ("TAN", 1); ("EXP", 1); ("LOG", 1); ("DATE", 0); ("TIME", 0); ("SYSTEM", 1);
   ("INDEX", 3); ("FIELD", 3); ("STR", 1); ("OCONV", 2); ("ICONV", 2); ("NUM", 1); ("CONVERT", 3); ("RND", 0);
   ("RND", 1); ("STATUS", 0)].

(* src/core/languages/basic/BasicBuiltinLookup.h:10-98 [functionIdForCall] *)
Definition functionIdForCall (name : string) (argCount : Z) : option Z :=
  Z.of_nat ∘ fst <$> list_find (λ e, e = (name, argCount)) builtin_names.

(* src/core/languages/basic/BasicBuiltinShim.cpp:13-30 [argCountForBuiltinName] *)
Definition argCountForBuiltinName (name : string) (stackSize : Z) : Z :=
  if bool_decide (name = "RND") then stackSize
  else if bool_decide (name ∈ ["DATE"; "TIME"; "STATUS"]) then 0
  else if bool_decide (name = "MOD") then 2
  else if bool_decide (name ∈ ["INDEX"; "FIELD"; "CONVERT"]) then 3
  else if bool_decide (name ∈ ["OCONV"; "ICONV"]) then 2
  else 1.

Definition kFnRnd0 : Z := 25.
Definition kFnRnd1 : Z := 26.

(* src/core/languages/basic/BasicBuiltinShim.cpp:33-41 [functionIdForBuiltinName] *)
Definition functionIdForBuiltinName (name : string) (stackSize : Z) : option Z :=
  if bool_decide (name = "RND") then
    if (stackSize <? 0) || (1 <? stackSize) then None
    else Some (if stackSize =? 0 then kFnRnd0 else kFnRnd1)
  else functionIdForCall name (argCountForBuiltinName name stackSize).

(* src/core/languages/basic/BasicBuiltinShim.cpp:43-67 [invokeBuiltinShim] *)
Definition invokeBuiltinShim (name : string) (cx : HostContext) (registry : option LanguageRegistry) : proc FnState unit := λ st,
  match registry with
  | None => (Throw (RuntimeError "BUILTIN: registry not configured"), st)
  | Some r =>
      let stackSize := to_int32 (Z.of_nat (length (fn_stack st))) in
      match functionIdForBuiltinName name stackSize with
      | None => (Throw (RuntimeError ("BUILTIN: unknown " +:+ name)), st)
      | Some fnId =>
          let argCount := argCountForBuiltinName name stackSize in
          if bool_decide (name = "RND") then
            if 1 <? stackSize then (Throw (RuntimeError "BUILTIN: RND too many arguments"), st)
            else dispatch r kNamespaceId fnId argCount cx st
          else if stackSize <? argCount
          then (Throw (RuntimeError ("BUILTIN: stack underflow for " +:+ name)), st)
          else dispatch r kNamespaceId fnId argCount cx st
      end
  end.

(* src/core/languages/basic/BasicLanguageRegistration.cpp:8-44 [registerBasicLanguage] *)
Definition basic_functions : list LanguageFunctionEntry :=
  [mkEntry_ 1 (Some handlerAbs); mkEntry_ 1 (Some handlerSgn); mkEntry_ 1 (Some handlerSeq); mkEntry_ 1 (Some handlerLen);
   mkEntry_ 1 (Some handlerTrim); mkEntry_ 1 (Some handlerLcase); mkEntry_ 1 (Some handlerUcase); mkEntry_ 1 (Some handlerSpace);
   mkEntry_ 1 (Some handlerInt); mkEntry_ 2 (Some handlerMod); mkEntry_ 1 (Some handlerSin); mkEntry_ 1 (Some handlerCos);
   mkEntry_ 1 (Some handlerTan); mkEntry_ 1 (Some handlerExp); mkEntry_ 1 (Some handlerLog); mkEntry_ 0 (Some handlerDate);
   mkEntry_ 0 (Some handlerTime); mkEntry_ 1 (Some handlerSystem); mkEntry_ 3 (Some handlerIndex); mkEntry_ 3 (Some handlerField);
   mkEntry_ 1 (Some handlerStr); mkEntry_ 2 (Some handlerOconv); mkEntry_ 2 (Some handlerIconv); mkEntry_ 1 (Some handlerNum);
   mkEntry_ 3 (Some handlerConvert); mkEntry_ 0 (Some handlerRnd0); mkEntry_ 1 (Some handlerRnd1); mkEntry_ 0 (Some handlerStatus)].

(* src/core/languages/basic/BasicLanguageRegistration.cpp:8-44 [registerBasicLanguage] *)
Definition registerBasicLanguage : proc LanguageRegistry unit :=
  registerNamespace (mkDescriptor kNamespaceId (mkMeta "basic" "1") basic_functions None).

(** ** What a language function promises to the machine *)

(** The context hands out [int]s that are [int]s. *)
Record context_ok (cx : HostContext) : Prop := mk_context_ok {
  status_in_int : in_int (hc_status cx) = true;
  system_values : ∀ f n v, hc_system cx = Some f → f n = Ok v → value_ok v;
  system_stack : ∀ f n, hc_system cx = Some f → f n ≠ Undefined empty_back
}.

(** A function of [n] arguments never looks below them: on a stack that has
    them it replaces them by one value, or throws having popped at most them;
    it keeps the [int]s of the stack in range. *)
Class StackFunction (n : nat) (f : LanguageFunctionFn) : Prop := stack_function :
  ∀ cx st, context_ok cx → (n <= length (fn_stack st))%nat → Forall value_ok (fn_stack st) →
  match f cx st with
  | (Ok _, st') => ∃ v, value_ok v ∧ fn_stack st' = v :: drop n (fn_stack st)
  | (Throw _, st') => ∃ k, (k <= n)%nat ∧ fn_stack st' = drop k (fn_stack st)
  | (Undefined why, _) => why ≠ empty_back
  end.

Section effects.
Context (cx : HostContext) (base : list Value) (n : nat).

(** After some pops, the stack is [base] without its first [k] values. *)
Definition effect (k : nat) (m : proc FnState unit) : Prop := ∀ e,
  match m (mkFnState (drop k base) e) with
  | (Ok _, st') => ∃ v, value_ok v ∧ fn_stack st' = v :: drop n base
  | (Throw _, st') => ∃ k, (k <= n)%nat ∧ fn_stack st' = drop k base
  | (Undefined why, _) => why ≠ empty_back
  end.

Lemma effect_pop k f : (k < n)%nat → (n <= length base)%nat → (∀ v, effect (S k) (f v)) → effect k (v ← fpop; f v).
Proof.
  intros Hk Hn Hf e. destruct (lookup_lt_is_Some_2 base k ltac:(lia)) as [v Hv].
  unfold mbind, proc_bind, fpop. cbn [fn_stack fn_outside]. rewrite (drop_S base v k Hv). apply Hf.
Qed.

Lemma effect_push v : value_ok v → effect n (fpush v).
Proof. intros Hv e. exists v. split; [done|]. done. Qed.

Lemma effect_fail k what : (k <= n)%nat → effect k (ffail what).
Proof. intros Hk e. by exists k. Qed.

Lemma effect_lift {A} k (m : outcome A) f : (k <= n)%nat → m ≠ Undefined empty_back →
  (∀ a, m = Ok a → effect k (f a)) → effect k (a ← lift m; f a).
Proof.
  intros Hk Hm Hf e. unfold mbind, proc_bind, lift. destruct m as [a|ex|w]; [by apply Hf|by exists k|].
  intros ->. by apply Hm.
Qed.

Lemma effect_if k (b : bool) m1 m2 : (b = true → effect k m1) → (b = false → effect k m2) → effect k (if b then m1 else m2).
Proof. destruct b; auto. Qed.
End effects.

Lemma stack_function_effect n f :
  (∀ cx base, context_ok cx → (n <= length base)%nat → effect base n 0 (f cx)) → StackFunction n f.
Proof. intros H cx [s e] Hcx Hn _. exact (H cx s Hcx Hn e). Qed.

Lemma no_empty_back_int_of z : int_of z ≠ Undefined empty_back.
Proof. unfold int_of. by destruct (in_int z). Qed.

Lemma no_empty_back_d_to_int d : d_to_int d ≠ Undefined empty_back.
Proof. unfold d_to_int. destruct (d_trunc d); [by destruct (in_int _)|done]. Qed.

Lemma no_empty_back_coerce v : coerceToInt v ≠ Undefined empty_back.
Proof. unfold coerceToInt. destruct (_ || _); [done|apply no_empty_back_d_to_int]. Qed.

Lemma no_empty_back_bind {A B} (m : outcome A) (f : A → outcome B) : m ≠ Undefined empty_back →
  (∀ a, f a ≠ Undefined empty_back) → m ≫= f ≠ Undefined empty_back.
Proof. intros Hm Hf. destruct m; naive_solver. Qed.

Lemma no_empty_back_fmap {A B} (m : outcome A) (f : A → B) : m ≠ Undefined empty_back → f <$> m ≠ Undefined empty_back.
Proof. intros Hm. destruct m; naive_solver. Qed.

#[export] Hint Resolve no_empty_back_int_of no_empty_back_d_to_int no_empty_back_coerce no_empty_back_bind no_empty_back_fmap : gemini.

Lemma to_int32_ok z : in_int (to_int32 z) = true.
Proof.
  apply in_int_spec. unfold to_int32, INT_MIN, INT_MAX. pose proof (Z.mod_pos_bound (z + 2 ^ 31) (2 ^ 32) ltac:(lia)). lia.
Qed.

Lemma seq_of_ok s : value_ok (VInt (seq_of s)).
Proof. destruct s as [|c s]; [done|]. cbn. apply in_int_spec. pose proof (code_range c). unfold INT_MIN, INT_MAX. lia. Qed.

Lemma int_of_value z r : int_of z = Ok r → value_ok (VInt r).
Proof. intros [-> H]%int_of_ok. done. Qed.

Lemma d_to_int_value d r : d_to_int d = Ok r → value_ok (VInt r).
Proof. apply d_to_int_ok. Qed.

Lemma index_of_ok hay needle occ : value_ok (VInt (index_of hay needle occ)).
Proof.
  unfold index_of. generalize (S (String.length hay)) as fuel, 0. intros fuel. revert hay occ.
  induction fuel as [|fuel IH]; intros hay occ pos; [done|]. cbn [index_loop]. destruct (find_sub needle hay) as [[l r]|]; [|done].
  destruct (occ =? 1); [apply to_int32_ok|apply IH].
Qed.

#[export] Hint Resolve value_ok_str value_ok_dbl value_ok_bool to_int32_ok seq_of_ok int_of_value d_to_int_value index_of_ok
  coerceToInt_ok : gemini.

Ltac effects :=
  repeat match goal with
  | |- effect _ _ _ (v ← fpop; _) => apply effect_pop; [lia|lia|intros ?]
  | |- effect _ _ _ (_ ← lift _; _) => apply effect_lift; [lia|eauto with gemini|intros ??]
  | |- effect _ _ _ (if _ then _ else _) => apply effect_if; intros
  | |- effect _ _ _ (ffail _) => apply effect_fail; lia
  | |- effect _ _ _ (fpush _) => apply effect_push; eauto with gemini
  | |- effect _ _ _ (let _ := _ in _) => cbv zeta
  end.

Lemma no_empty_back_llong_of z : llong_of z ≠ Undefined empty_back.
Proof. unfold llong_of. by destruct (in_llong z). Qed.

#[export] Hint Resolve no_empty_back_llong_of : gemini.

Ltac no_back :=
  repeat match goal with
  | |- Ok _ ≠ _ => done
  | |- Throw _ ≠ _ => done
  | |- Undefined _ ≠ _ => done
  | |- (_ ≫= _) ≠ _ => apply no_empty_back_bind; [|intros ?]
  | |- _ => solve [eauto 2 with gemini]
  | |- _ => case_match
  end.

Lemma oconv_no_empty_back v c : oconvOutputBuiltin v c ≠ Undefined empty_back.
Proof. unfold oconvOutputBuiltin, oconvOutputImpl, coerceStringToInt. no_back. Qed.

Lemma md_int_digits_no_empty_back s n b : md_int_digits s n b ≠ Undefined empty_back.
Proof.
  revert n b. induction s as [|c s IH]; intros n b; [done|]. cbn [md_int_digits]. destruct (isdigit c); [|done].
  apply no_empty_back_bind; [auto with gemini|]. intros i. apply no_empty_back_bind; [auto with gemini|]. intros j. apply IH.
Qed.

#[export] Hint Resolve md_int_digits_no_empty_back oconv_no_empty_back : gemini.

Lemma iconv_no_empty_back v c : iconvOutputBuiltin v c ≠ Undefined empty_back.
Proof. unfold iconvOutputBuiltin, iconvOutputImpl, parseMdScaled. no_back. Qed.

#[export] Hint Resolve iconv_no_empty_back : gemini.

Lemma convert_no_empty_back b v c : dispatchConvertCode b v c ≠ Undefined empty_back.
Proof. destruct b; cbn [dispatchConvertCode]; no_back. Qed.

Lemma convert_value b v c r : dispatchConvertCode b v c = Ok r → value_ok r.
Proof.
  destruct b; cbn [dispatchConvertCode]; [by intros (s & _ & ->)%outcome_fmap_inv|].
  intros (s & _ & H)%outcome_bind_inv. destruct (_ || _); [by injection H as <-|].
  apply outcome_fmap_inv in H as (z & Hz & ->). by eapply coerceToInt_ok.
Qed.

#[export] Hint Resolve convert_no_empty_back convert_value : gemini.

Section basic_effects.
Context (cx : HostContext) (Hcx : context_ok cx) (base : list Value).
#[local] Set Default Proof Using "Type*".

Lemma effect_sample : effect base 0 0 (pushRndSample cx).
Proof. intros e. unfold pushRndSample. cbn. destruct (rng_sample _ _) as [d e']. by exists (VDbl d). Qed.

Lemma effect_rnd1 : (1 <= length base)%nat → effect base 1 0 (handlerRnd1 cx).
Proof.
  intros Hn. unfold handlerRnd1. effects. intros e. unfold mbind, proc_bind, modify, pushRndSample. cbn.
  destruct (rng_sample _ _) as [d e']. by exists (VDbl d).
Qed.

Lemma effect_system : (1 <= length base)%nat → effect base 1 0 (handlerSystem cx).
Proof.
  intros Hn. unfold handlerSystem. effects. destruct (hc_system cx) as [f|] eqn:E; [|effects].
  apply effect_lift; [lia|by eapply system_stack|]. intros r Hr. apply effect_push. by eapply system_values.
Qed.

Lemma effect_status : effect base 0 0 (handlerStatus cx).
Proof. apply effect_push, Hcx. Qed.
End basic_effects.

(** Every BASIC function keeps the promise, with the arity it is registered with. *)
Lemma basic_stack_function i : ∀ e, basic_functions !! i = Some e →
  ∃ f, fn e = Some f ∧ 0 <= arity e ∧ StackFunction (Z.to_nat (arity e)) f.
Proof.
  intros e. revert i e. apply Forall_lookup. unfold basic_functions. repeat apply Forall_cons_2; [..|apply Forall_nil_2].
  all: eexists; split; [reflexivity|]; split; [done|]; apply stack_function_effect; intros cx base Hcx Hn; cbn in Hn.
  all: match goal with |- effect _ ?n _ _ => let k := eval vm_compute in n in change n with k end.
  18: by apply effect_system.
  25: by apply effect_sample.
  25: by apply effect_rnd1.
  25: by apply effect_status.
  all: unfold handlerAbs, handlerSgn, handlerSeq, handlerLen, handlerTrim, handlerLcase, handlerUcase, handlerSpace, handlerInt,
    handlerMod, handlerSin, handlerCos, handlerTan, handlerExp, handlerLog, handlerDate, handlerTime, handlerIndex, handlerField,
    handlerStr, handlerOconv, handlerIconv, handlerNum, handlerConvert, math_fn; effects.
  1: by destruct (0 <? a), (a <? 0).
  1: apply to_int32_ok.
Qed.

(** ** Calling a BASIC function by name *)

Lemma builtin_arities : arity <$> basic_functions = builtin_names.*2.
Proof. reflexivity. Qed.

(** The three tables (names, argument counts, registered functions) agree. *)
Lemma builtin_tables name size id : functionIdForBuiltinName name size = Some id →
  ∃ e, basic_functions !! Z.to_nat id = Some e ∧ arity e = argCountForBuiltinName name size.
Proof.
  unfold functionIdForBuiltinName. case_bool_decide as Hr.
  - destruct (Z.ltb_spec size 0), (Z.ltb_spec 1 size); try done. cbn [orb]. intros [= <-].
    unfold argCountForBuiltinName. rewrite bool_decide_eq_true_2 by done.
    destruct (Z.eqb_spec size 0) as [->|]; (eexists; split; [reflexivity|]); cbn; lia.
  - unfold functionIdForCall. destruct (list_find _ builtin_names) as [[i e]|] eqn:E; [|done]. intros [= <-].
    apply list_find_Some in E as (He & -> & _).
    assert ((arity <$> basic_functions) !! i = Some (argCountForBuiltinName name size)) as H.
    { rewrite builtin_arities, list_lookup_fmap, He. done. }
    rewrite list_lookup_fmap in H. cbn. rewrite Nat2Z.id. destruct (basic_functions !! i) as [e|]; [|done].
    exists e. split; [done|]. by injection H.
Qed.

Lemma to_int32_id z : in_int z = true → to_int32 z = z.
Proof. intros H%in_int_spec. unfold INT_MIN, INT_MAX in H. unfold to_int32. rewrite Z.mod_small; lia. Qed.

(** Calling a BASIC function by name is safe: with the BASIC namespace
    registered, a known name whose arguments are on the stack runs the function
    registered under its number (the registry reports neither an unknown
    function nor a wrong argument count), and the function replaces exactly its
    arguments by one value, or throws having removed at most its arguments; it
    never reads below them, and every [int] it leaves is in range. *)
Theorem builtin_call_effect (r : LanguageRegistry) (ns : RegisteredNamespace) (name : string) (cx : HostContext)
    (st : FnState) (id : Z) :
  namespaces r !! kNamespaceId = Some ns → functions ns = basic_functions →
  context_ok cx → Forall value_ok (fn_stack st) →
  let size := Z.of_nat (length (fn_stack st)) in
  let n := argCountForBuiltinName name size in
  in_int size = true → functionIdForBuiltinName name size = Some id → n <= size →
  ∃ e f, basic_functions !! Z.to_nat id = Some e ∧ fn e = Some f ∧
    invokeBuiltinShim name cx (Some r) st = f cx st ∧
    match f cx st with
    | (Ok _, st') => ∃ v, value_ok v ∧ fn_stack st' = v :: drop (Z.to_nat n) (fn_stack st)
    | (Throw _, st') => ∃ k, Z.of_nat k <= n ∧ fn_stack st' = drop k (fn_stack st)
    | (Undefined why, _) => why ≠ empty_back
    end.
Proof.
  intros Hns Hf Hcx Hst size n Hsize Hid Hn.
  destruct (builtin_tables name size id Hid) as (e & He & Har). fold n in Har.
  destruct (basic_stack_function _ _ He) as (f & Hfn & Hpos & Heff).
  exists e, f. split; [done|]. split; [done|]. split.
  - unfold invokeBuiltinShim. fold size. rewrite (to_int32_id _ Hsize). cbv zeta. rewrite Hid. fold n.
    assert (dispatch r kNamespaceId id n cx st = f cx st) as Hd.
    { unfold dispatch. rewrite Hns, Hf, He, Hfn, Har, Z.eqb_refl. fold size. rewrite to_int32_id by done. cbn [negb].
      by rewrite (proj2 (Z.ltb_ge size n)). }
    case_bool_decide as Hr.
    + rewrite (proj2 (Z.ltb_ge 1 size)); [done|]. unfold functionIdForBuiltinName in Hid.
      rewrite bool_decide_eq_true_2 in Hid by done. destruct (Z.ltb_spec 1 size); [|done]. by rewrite orb_true_r in Hid.
    + by rewrite (proj2 (Z.ltb_ge size n)).
  - rewrite Har in Heff, Hpos. specialize (Heff cx st Hcx ltac:(unfold size in *; lia) Hst).
    destruct (f cx st) as [[|ex|w] st']; try done. destruct Heff as (k & Hk & Hs). exists k. split; [lia|done].
Qed.

Definition ex_platform : Platform := mkPlatform id id id id id (λ a _, a) id (λ e, (d_zero, e))
  (mkFileHost Z Z (λ _ _, false) (λ _ _ h, (None, h)) (λ _ x, (("", true), x)) (λ _ x, (false, x)) (λ x, (false, x)) (λ _ h, (false, h))).

Definition ex_context : HostContext := mkContext 0 None 0 ex_platform.

Lemma ex_context_ok : context_ok ex_context.
Proof. by split. Qed.

Lemma builtin_call_effect_witness :
  let st := mkFnState [VInt 2; VStr ","; VStr "a,b,c"; VInt 9] (mkOutside 0 None) in
  ∃ r, registerBasicLanguage emptyRegistry = (Ok tt, r) ∧
    ∃ v, invokeBuiltinShim "FIELD" ex_context (Some r) st = (Ok tt, mkFnState [v; VInt 9] (mkOutside 0 None)) ∧ value_ok v.
Proof.
  intros st. eexists. split; [reflexivity|].
  destruct (builtin_call_effect (registerBasicLanguage emptyRegistry).2 (mkRegistered (mkMeta "basic" "1") basic_functions)
    "FIELD" ex_context st 19) as (e & f & He & Hf & Hi & _).
  - reflexivity.
  - reflexivity.
  - exact ex_context_ok.
  - repeat (apply Forall_cons_2; [exact I || reflexivity|]). apply Forall_nil_2.
  - reflexivity.
  - reflexivity.
  - vm_compute. discriminate.
  - exists (VStr "b"). split; [|exact I]. etransitivity; [exact Hi|].
    change (Some (mkEntry_ 3 (Some handlerField)) = Some e) in He. injection He as <-.
    change (Some handlerField = Some f) in Hf. injection Hf as <-. vm_compute. reflexivity.
Defined.

(** ** INDEX and FIELD *)

(** The 1-based positions of [needle] in [hay], overlaps included, when [hay]
    starts at position [p]. *)
Fixpoint positions (needle hay : string) (p : Z) : list Z :=
  (if starts_with needle hay then [p] else []) ++
  match hay with "" => [] | String _ h => positions needle h (p + 1) end.

Lemma find_sub_None needle s : find_sub needle s = None → (∀ p, positions needle s p = []) ∧ str_contains_sub needle s = false.
Proof.
  induction s as [|c s IH]; cbn; destruct (starts_with needle _); try done.
  destruct (find_sub needle s) as [[]|]; [done|]. intros _. destruct (IH eq_refl). naive_solver.
Qed.

Lemma find_sub_Some needle s l r : find_sub needle s = Some (l, r) →
  s = l +:+ r ∧ starts_with needle r = true ∧
  ∀ p, positions needle s p = positions needle r (p + str_size l).
Proof.
  revert l r. induction s as [|c s IH]; intros l r; cbn [find_sub].
  - destruct (starts_with needle "") eqn:E; [|done]. intros [= <- <-]. split; [done|]. split; [done|].
    intros p. by rewrite Z.add_0_r.
  - destruct (starts_with needle (String c s)) eqn:E.
    + intros [= <- <-]. split; [done|]. split; [done|]. intros p. by rewrite Z.add_0_r.
    + destruct (find_sub needle s) as [[l' r']|] eqn:Ef; [|done]. intros [= <- <-].
      destruct (IH _ _ eq_refl) as (-> & Hs & Hp). split; [done|]. split; [done|]. intros p.
      cbn [positions]. rewrite E. cbn [app]. rewrite Hp, str_size_cons. f_equal. lia.
Qed.

Lemma starts_with_nonempty needle s : needle ≠ "" → starts_with needle s = true → ∃ c s', s = String c s'.
Proof. destruct needle, s; try done. by eexists _, _. Qed.

Lemma index_loop_positions fuel needle : needle ≠ "" → ∀ hay pos occ, (String.length hay < fuel)%nat →
  0 <= pos → pos + str_size hay < 2 ^ 31 → 1 <= occ →
  index_loop fuel needle hay pos occ = default 0 (positions needle hay (pos + 1) !! Z.to_nat (occ - 1)).
Proof.
  intros Hne. induction fuel as [|fuel IH]; intros hay pos occ Hf Hp Hs Ho; [lia|]. cbn [index_loop].
  destruct (find_sub needle hay) as [[l r]|] eqn:E.
  - apply find_sub_Some in E as (-> & Hst & Hpos). rewrite Hpos. rewrite str_size_app in Hs.
    destruct (starts_with_nonempty _ _ Hne Hst) as (c & s & ->). pose proof (str_size_nonneg l). pose proof (str_size_nonneg s).
    rewrite str_size_cons in Hs. cbn [positions]. rewrite Hst. cbn [app str_drop].
    destruct (Z.eqb_spec occ 1) as [->|Hocc].
    + rewrite to_int32_id by (apply in_int_spec; unfold INT_MIN, INT_MAX; lia).
      change (pos + str_size l + 1 = pos + 1 + str_size l). lia.
    + assert (Z.to_nat (occ - 1) = S (Z.to_nat (occ - 1 - 1))) as -> by lia. cbn [lookup list_lookup].
      rewrite IH; [by replace (pos + str_size l + 1 + 1) with (pos + 1 + str_size l + 1) by lia|..]; try lia.
      assert (Z.of_nat (String.length (l +:+ String c s)) = str_size l + (1 + str_size s)) as Hlen.
      { fold (str_size (l +:+ String c s)). by rewrite str_size_app, str_size_cons. }
      unfold str_size in Hlen. lia.
  - apply find_sub_None in E as [-> _]. done.
Qed.

Lemma str_drop_app a b : str_drop (String.length a) (a +:+ b) = b.
Proof. induction a as [|c a IH]; [by destruct b|]. exact IH. Qed.

Lemma starts_with_drop p s : starts_with p s = true → s = p +:+ str_drop (String.length p) s.
Proof.
  revert s. induction p as [|c p IH]; intros s; [by destruct s|]. destruct s as [|d s]; [done|]. cbn.
  destruct (Ascii.eqb_spec c d) as [->|]; [|done]. intros H. f_equal. by apply IH.
Qed.

(** Joining with a string. *)
Fixpoint join_with (delim : string) (l : list string) : string :=
  match l with [] => "" | [a] => a | a :: l' => a +:+ delim +:+ join_with delim l' end.

Lemma starts_with_app_false needle a b : starts_with needle (a +:+ b) = false → starts_with needle a = false.
Proof.
  revert a. induction needle as [|c needle IH]; intros a; [by destruct a, b|].
  destruct a as [|d a]; [done|]. cbn. destruct (Ascii.eqb c d); [apply IH|done].
Qed.

Lemma find_sub_before needle s l r : needle ≠ "" → find_sub needle s = Some (l, r) → str_contains_sub needle l = false.
Proof.
  intros Hne. revert l r. induction s as [|c s IH]; intros l r; cbn [find_sub].
  - destruct (starts_with needle ""); [|done]. intros [= <- _]. by destruct needle.
  - destruct (starts_with needle (String c s)) eqn:E; [intros [= <- _]; by destruct needle|].
    destruct (find_sub needle s) as [[l' r']|] eqn:Ef; [|done]. intros [= <- <-]. cbn [str_contains_sub].
    rewrite (IH _ _ eq_refl), orb_false_r. apply find_sub_Some in Ef as (-> & _). rewrite <- str_app_cons in E.
    by apply starts_with_app_false in E.
Qed.

Lemma split_fields_spec delim fuel : delim ≠ "" → ∀ hay, (String.length hay < fuel)%nat →
  split_fields fuel delim hay ≠ [] ∧ join_with delim (split_fields fuel delim hay) = hay ∧
  Forall (λ f, str_contains_sub delim f = false) (split_fields fuel delim hay).
Proof.
  intros Hne. induction fuel as [|fuel IH]; intros hay Hf; [lia|]. cbn [split_fields].
  destruct (find_sub delim hay) as [[l r]|] eqn:E.
  - pose proof (find_sub_before _ _ _ _ Hne E) as Hl. apply find_sub_Some in E as (-> & Hst & _).
    apply starts_with_drop in Hst. remember (str_drop (String.length delim) r) as rest eqn:Hrest. clear Hrest.
    destruct (IH rest) as (Hn & Hj & Hall).
    { subst r. assert (Z.of_nat (String.length (l +:+ delim +:+ rest)) = str_size l + (str_size delim + str_size rest)) as Hlen.
      { fold (str_size (l +:+ delim +:+ rest)). by rewrite !str_size_app. }
      destruct delim as [|c d]; [done|]. rewrite str_size_cons in Hlen. pose proof (str_size_nonneg l). pose proof (str_size_nonneg d).
      unfold str_size in *. lia. }
    split; [done|]. split; [|by constructor].
    rewrite Hst. rewrite <- Hj at 2. by destruct (split_fields fuel delim rest).
  - apply find_sub_None in E as [_ E]. split; [done|]. split; [done|]. by repeat constructor.
Qed.

(** INDEX and FIELD: INDEX gives the 1-based position of the [occ]-th
    occurrence, overlapping ones counted, or 0; FIELD's fields are free of the
    delimiter and joined with it give the text back, for every text and every
    delimiter that is not empty. *)
Theorem index_field_correct (hay needle : string) (occ : Z) : needle ≠ "" → str_size hay < 2 ^ 31 → 1 <= occ →
  index_of hay needle occ = default 0 (positions needle hay 1 !! Z.to_nat (occ - 1)) ∧
  join_with needle (fields_of hay needle) = hay ∧
  Forall (λ f, str_contains_sub needle f = false) (fields_of hay needle).
Proof.
  intros Hne Hs Ho. split.
  - unfold index_of. rewrite index_loop_positions; try done; lia.
  - destruct (split_fields_spec needle (S (String.length hay)) Hne hay ltac:(lia)) as (_ & H). exact H.
Qed.

Lemma index_field_correct_witness :
  index_of "banana" "ana" 2 = 4 ∧ join_with ";;" (fields_of "a;;b;;" ";;") = "a;;b;;".
Proof.
  split.
  - destruct (index_field_correct "banana" "ana" 2 ltac:(done) ltac:(by vm_compute) ltac:(lia)) as [-> _]. reflexivity.
  - exact (proj1 (proj2 (index_field_correct "a;;b;;" ";;" 1 ltac:(done) ltac:(by vm_compute) ltac:(lia)))).
Defined.

(** ** The registry's life *)

(** Namespaces are only added: an attempt to register (whatever the
    descriptor and its hook do) keeps every namespace already there, with its
    functions; it is refused when the registry is frozen, when the id is taken
    and when the hook throws, and otherwise adds exactly that namespace. *)
Theorem registry_only_grows (r : LanguageRegistry) (d : LanguageNamespaceDescriptor) :
  let r' := (registerNamespace d r).2 in
  (∀ k ns, namespaces r !! k = Some ns → namespaces r' !! k = Some ns) ∧
  (∀ k, k ≠ d_id d → namespaces r' !! k = namespaces r !! k) ∧
  frozen r' = frozen r ∧
  ((registerNamespace d r).1 = Ok tt ↔
     frozen r = false ∧ namespaces r !! d_id d = None ∧ default (Ok tt) (d_onInit d) = Ok tt) ∧
  ((registerNamespace d r).1 ≠ Ok tt → r' = r) ∧
  ((registerNamespace d r).1 = Ok tt → namespaces r' !! d_id d = Some (mkRegistered (d_metadata d) (d_functions d))).
Proof.
  unfold registerNamespace. destruct (frozen r) eqn:Hf; [cbn; split_and!; naive_solver|].
  destruct (namespaces r !! d_id d) as [ns|] eqn:Hd; [cbn; split_and!; naive_solver|].
  destruct (default (Ok tt) (d_onInit d)) as [[]|e|w] eqn:Hi; cbn; split_and!; try naive_solver.
  - intros k ns Hk. rewrite lookup_insert_ne; [done|]. congruence.
  - intros k Hk. by rewrite lookup_insert_ne.
  - intros _. by rewrite lookup_insert_eq.
Qed.
