(* ===== verification/BuiltinSupport.v ===== *)
(** * The conversion helpers of the BASIC functions

    [BasicBuiltinSupport.cpp] has texts of its own of the coercions of [Runtime.cpp] and of the helpers of [PickOconv.cpp] and [PickIconv.cpp], line
    for line the same.  They are the same definitions here; [isFullyNumeric] and [dispatchConvertCode], which only this file has, are
    in Registry. *)

From S2P Require Import Prelude Conv Bytecode Values.

(* src/core/languages/basic/BasicBuiltinSupport.cpp:20-27 [upperCopy] *)
Definition upperCopy := Conv.upperCopy.

(* src/core/languages/basic/BasicBuiltinSupport.cpp:30-49 [valueToString] *)
Definition valueToString := Values.valueToString.

(* src/core/languages/basic/BasicBuiltinSupport.cpp:51-69 [coerceToDouble] *)
Definition coerceToDouble := Values.coerceToDouble.

(* src/core/languages/basic/BasicBuiltinSupport.cpp:71-78 [coerceToInt] *)
Definition coerceToInt := Values.coerceToInt.

(* src/core/languages/basic/BasicBuiltinSupport.cpp:96-104 [daysFromCivil] *)
Definition daysFromCivil := Conv.daysFromCivil.

(* src/core/languages/basic/BasicBuiltinSupport.cpp:106-120 [dateStringFromPickDay] *)
Definition dateStringFromPickDay := Conv.dateStringFromPickDay.

(* src/core/languages/basic/BasicBuiltinSupport.cpp:122-160 [pickDayFromDateString] *)
Definition pickDayFromDateString := Conv.pickDayFromDateString.

(* src/core/languages/basic/BasicBuiltinSupport.cpp:162-177 [timeStringFromSeconds] *)
Definition timeStringFromSeconds := Conv.timeStringFromSeconds.

(* src/core/languages/basic/BasicBuiltinSupport.cpp:179-208 [secondsFromTimeString] *)
Definition secondsFromTimeString := Conv.secondsFromTimeString.

(* src/core/languages/basic/BasicBuiltinSupport.cpp:210-231 [formatMdScaled] *)
Definition formatMdScaled := Conv.formatMdScaled.

(* src/core/languages/basic/BasicBuiltinSupport.cpp:233-288 [parseMdScaled] *)
Definition parseMdScaled := Conv.parseMdScaled.
