(* ===== verification/Vm.v ===== *)
(** * The virtual machine

    [PickVM::Runtime] of [src/core/vm/Runtime.cpp]: its state, one definition
    per opcode of [Runtime::step], and [Runtime::run].

    Vectors used as stacks are lists whose head is the back. [r_out] is what was
    written to the output stream, [r_in] what is left of the input stream.
    What a run does not change (the file system object, the handlers set by the
    host, the language registry, the platform) is the record [Env]. An
    exception leaves the state as it was when it was thrown, as in C++. *)

From Stdlib Require Import Ascii String.
From S2P Require Import Prelude CLib Dbl Records Locks FileSys Conv Bytecode Correl Dict Values Registry.
From stdpp Require Import options.
Local Open Scope Z_scope.

(** ** State *)

(* src/core/vm/Runtime.h:122-127 [ForFrame] *)
Record ForFrame := mkFrame { varName : string; limit : Z; fstep : Z; bodyIP : Z }.

#[global] Instance ForFrame_eq_dec : EqDecision ForFrame.
Proof. solve_decision. Defined.

(* src/core/vm/Runtime.h:201-220 [Runtime] *)
Record Runtime := mkRuntime {
  r_program : list Instruction;
  r_lines : list Z;
  r_stack : list Value;
  r_calls : list Z;
  r_fors : list ForFrame;
  r_vars : gmap string Value;
  r_arrays : gmap string (list Value);
  r_files : gmap string FileHandle;
  r_ip : Z;
  r_interrupted : bool;
  r_status : Z;
  r_onerr : option Z;
  r_out : string;
  r_in : string;
  r_outside : Outside;
  r_world : World
}.

Record Env := mkEnv {
  e_host : HostFs;
  e_fs : option FileSystem;
  e_sysvar : option (string → option Value);
  e_system : option (Z → outcome Value);
  e_registry : option LanguageRegistry;
  e_platform : Platform
}.

Definition set_stack (s : list Value) (r : Runtime) : Runtime :=
  mkRuntime (r_program r) (r_lines r) s (r_calls r) (r_fors r) (r_vars r) (r_arrays r) (r_files r) (r_ip r)
    (r_interrupted r) (r_status r) (r_onerr r) (r_out r) (r_in r) (r_outside r) (r_world r).
Definition set_calls (c : list Z) (r : Runtime) : Runtime :=
  mkRuntime (r_program r) (r_lines r) (r_stack r) c (r_fors r) (r_vars r) (r_arrays r) (r_files r) (r_ip r)
    (r_interrupted r) (r_status r) (r_onerr r) (r_out r) (r_in r) (r_outside r) (r_world r).
Definition set_fors (f : list ForFrame) (r : Runtime) : Runtime :=
  mkRuntime (r_program r) (r_lines r) (r_stack r) (r_calls r) f (r_vars r) (r_arrays r) (r_files r) (r_ip r)
    (r_interrupted r) (r_status r) (r_onerr r) (r_out r) (r_in r) (r_outside r) (r_world r).
Definition set_vars (v : gmap string Value) (r : Runtime) : Runtime :=
  mkRuntime (r_program r) (r_lines r) (r_stack r) (r_calls r) (r_fors r) v (r_arrays r) (r_files r) (r_ip r)
    (r_interrupted r) (r_status r) (r_onerr r) (r_out r) (r_in r) (r_outside r) (r_world r).
Definition set_arrays (a : gmap string (list Value)) (r : Runtime) : Runtime :=
  mkRuntime (r_program r) (r_lines r) (r_stack r) (r_calls r) (r_fors r) (r_vars r) a (r_files r) (r_ip r)
    (r_interrupted r) (r_status r) (r_onerr r) (r_out r) (r_in r) (r_outside r) (r_world r).
Definition set_files (f : gmap string FileHandle) (r : Runtime) : Runtime :=
  mkRuntime (r_program r) (r_lines r) (r_stack r) (r_calls r) (r_fors r) (r_vars r) (r_arrays r) f (r_ip r)
    (r_interrupted r) (r_status r) (r_onerr r) (r_out r) (r_in r) (r_outside r) (r_world r).
Definition set_ip (ip : Z) (r : Runtime) : Runtime :=
  mkRuntime (r_program r) (r_lines r) (r_stack r) (r_calls r) (r_fors r) (r_vars r) (r_arrays r) (r_files r) ip
    (r_interrupted r) (r_status r) (r_onerr r) (r_out r) (r_in r) (r_outside r) (r_world r).
Definition set_interrupted (b : bool) (r : Runtime) : Runtime :=
  mkRuntime (r_program r) (r_lines r) (r_stack r) (r_calls r) (r_fors r) (r_vars r) (r_arrays r) (r_files r) (r_ip r)
    b (r_status r) (r_onerr r) (r_out r) (r_in r) (r_outside r) (r_world r).
Definition set_status (z : Z) (r : Runtime) : Runtime :=
  mkRuntime (r_program r) (r_lines r) (r_stack r) (r_calls r) (r_fors r) (r_vars r) (r_arrays r) (r_files r) (r_ip r)
    (r_interrupted r) z (r_onerr r) (r_out r) (r_in r) (r_outside r) (r_world r).
Definition set_onerr (o : option Z) (r : Runtime) : Runtime :=
  mkRuntime (r_program r) (r_lines r) (r_stack r) (r_calls r) (r_fors r) (r_vars r) (r_arrays r) (r_files r) (r_ip r)
    (r_interrupted r) (r_status r) o (r_out r) (r_in r) (r_outside r) (r_world r).
Definition set_out (s : string) (r : Runtime) : Runtime :=
  mkRuntime (r_program r) (r_lines r) (r_stack r) (r_calls r) (r_fors r) (r_vars r) (r_arrays r) (r_files r) (r_ip r)
    (r_interrupted r) (r_status r) (r_onerr r) s (r_in r) (r_outside r) (r_world r).
Definition set_in (s : string) (r : Runtime) : Runtime :=
  mkRuntime (r_program r) (r_lines r) (r_stack r) (r_calls r) (r_fors r) (r_vars r) (r_arrays r) (r_files r) (r_ip r)
    (r_interrupted r) (r_status r) (r_onerr r) (r_out r) s (r_outside r) (r_world r).
Definition set_fn (f : FnState) (r : Runtime) : Runtime :=
  mkRuntime (r_program r) (r_lines r) (fn_stack f) (r_calls r) (r_fors r) (r_vars r) (r_arrays r) (r_files r) (r_ip r)
    (r_interrupted r) (r_status r) (r_onerr r) (r_out r) (r_in r) (fn_outside f) (r_world r).
Definition set_world (w : World) (r : Runtime) : Runtime :=
  mkRuntime (r_program r) (r_lines r) (r_stack r) (r_calls r) (r_fors r) (r_vars r) (r_arrays r) (r_files r) (r_ip r)
    (r_interrupted r) (r_status r) (r_onerr r) (r_out r) (r_in r) (r_outside r) w.

Definition psize (r : Runtime) : Z := Z.of_nat (length (r_program r)).

(* src/core/vm/Runtime.cpp:319-338 [Runtime::loadProgram] *)
Definition loadProgram (program : list Instruction) (sourceLinePerInstr : list Z) (r : Runtime) : Runtime :=
  mkRuntime program
    (let n := Nat.min (length program) (length sourceLinePerInstr) in
     take n sourceLinePerInstr ++ replicate (length program - n) 0)
    [] [] [] ∅ ∅ ∅ 0 false 0 None (r_out r) (r_in r) (r_outside r) (r_world r).

(* src/core/vm/Runtime.cpp:349-354 [Runtime::sourceLineAtInstruction] *)
Definition sourceLineAtInstruction (ip : Z) (r : Runtime) : Z := default 0 (r_lines r !! Z.to_nat ip).

(* src/core/vm/Runtime.cpp:360-365 [Runtime::setInstructionPointer] *)
Definition setInstructionPointer (ip : Z) : proc Runtime unit := λ r,
  if psize r <? ip then (Throw (OutOfRange "Instruction pointer out of range"), r) else (Ok tt, set_ip ip r).

(** ** Errors *)

(* src/core/vm/Runtime.cpp:38-47 [IoErrorKind] *)
Inductive IoErrorKind :=
| BackendUnavailable | MissingFile | FileVarNotOpen | MissingRecord | CursorExhausted | MissingAttribute
| MissingSubvalue | RecordLocked.

(* src/core/vm/Runtime.cpp:49-61 [ioErrorKindName] *)
Definition ioErrorKindName (k : IoErrorKind) : string :=
  match k with
  | BackendUnavailable => "BACKEND.UNAVAILABLE"
  | MissingFile => "FILE.NOT.FOUND"
  | FileVarNotOpen => "FILE.VAR.NOT.OPEN"
  | MissingRecord => "RECORD.NOT.FOUND"
  | CursorExhausted => "CURSOR.EXHAUSTED"
  | MissingAttribute => "ATTRIBUTE.NOT.FOUND"
  | MissingSubvalue => "SUBVALUE.NOT.FOUND"
  | RecordLocked => "ERR_RECORD_LOCKED"
  end.

(* src/core/vm/Runtime.cpp:67-71 [makeIoError] *)
Definition makeIoError (op : string) (k : IoErrorKind) (detail : string) : exn :=
  RuntimeError (op +:+ ": " +:+ ioErrorKindName k +:+ (if str_empty detail then "" else " (" +:+ detail +:+ ")")).

(* src/core/vm/Runtime.cpp:63-65 [isRecordLockConflict] *)
Definition isRecordLockConflict (what : string) : bool := str_contains_sub "RECORD LOCKED" what.

(** [std::exception] and the classes derived from it. *)
Definition is_std_exception (e : exn) : bool :=
  match e with ChainRequest _ | UserInterrupt => false | _ => true end.

Definition on_std_error {A} (m h : proc Runtime A) : proc Runtime A :=
  try_catch m (λ e, if is_std_exception e then Some h else None).

(** ** Stack and operands *)

(** What an instruction does to the control flow: fall through to the next one,
    continue at the instruction pointer it has set, or stop. *)
Inductive flow := Next | Jumped | Stopped.

Definition fail {A} (what : string) : proc Runtime A := throw (RuntimeError what).

(* src/core/vm/Runtime.cpp:398-400 [Runtime::push] *)
Definition push (v : Value) : proc Runtime unit := modify (λ r, set_stack (v :: r_stack r) r).

(* src/core/vm/Runtime.cpp:402-409 [Runtime::pop] *)
Definition pop : proc Runtime Value := λ r,
  match r_stack r with
  | [] => (Throw (RuntimeError "VM stack underflow"), r)
  | v :: s => (Ok v, set_stack s r)
  end.

(** [intFromStackValue(pop(), ctx)], [coerceToInt(pop())], [valueToString(pop())]. *)
Definition pop_int (ctx : string) : proc Runtime Z := v ← pop; lift (intFromStackValue v ctx).
Definition pop_string (ctx : string) : proc Runtime string := v ← pop; lift (stringFromStackValue v ctx).
Definition pop_coerced : proc Runtime Z := v ← pop; lift (coerceToInt v).
Definition pop_text : proc Runtime string := v ← pop; mret (valueToString v).

Definition int_operand (i : Instruction) : proc Runtime Z := λ r, (intOperandAtIp i (r_ip r), r).
Definition string_operand (i : Instruction) : proc Runtime string := λ r, (stringOperandAtIp i (r_ip r), r).
Definition float_operand (i : Instruction) : proc Runtime double := λ r, (floatOperandAtIp i (r_ip r), r).
Definition name_operand (i : Instruction) : proc Runtime string := s ← string_operand i; mret (canonicalVariableName s).

Definition write_out (s : string) : proc Runtime unit := modify (λ r, set_out (r_out r +:+ s) r).

Definition next (m : proc Runtime unit) : proc Runtime flow := m;; mret Next.

(** [ip_ = static_cast<std::size_t>(target); return ip_ < program_.size();] *)
Definition jump_to (target : Z) : proc Runtime flow := modify (set_ip (wrap64 target));; mret Jumped.

Definition read_only {A} (name : string) (m : proc Runtime A) : proc Runtime A :=
  if isReadOnlySystemVariableName name then fail ("Read-only system variable: " +:+ name) else m.

(* src/core/vm/Runtime.cpp:340-347 [Runtime::handleRecordLockConflict] *)
Definition handleRecordLockConflict (op : string) : proc Runtime flow := λ r,
  let r1 := set_status 1 r in
  match r_onerr r1 with
  | Some ip => (Ok Jumped, set_ip ip r1)
  | None => (Throw (makeIoError op RecordLocked ""), r1)
  end.

(** ** Constants, arithmetic and comparison *)

(* src/core/vm/Runtime.cpp:419-433 [Runtime::step] *)
Definition exec_push (i : Instruction) : proc Runtime flow :=
  match op i with
  | PushInt => next (n ← int_operand i; push (VInt n))
  | PushFlt => next (d ← float_operand i; push (VDbl d))
  | _ => next (s ← string_operand i; push (VStr s))
  end.

(** ADD, SUB and MUL: [int] arithmetic on two [int]s (overflow is undefined),
    else double arithmetic with the result rule of [arithmeticResultValue]. *)
(* src/core/vm/Runtime.cpp:435-469 [Runtime::step] *)
Definition exec_arith (fint : Z → Z → Z) (fdbl : double → double → double) : proc Runtime flow :=
  next (
    b ← pop; a ← pop;
    match a, b with
    | VInt x, VInt y => z ← lift (int_of (fint x y)); push (VInt z)
    | _, _ => v ← lift (arithmeticResultValue a b (fdbl (coerceToDouble a) (coerceToDouble b))); push v
    end).

(* src/core/vm/Runtime.cpp:471-485 [Runtime::step] *)
Definition exec_div : proc Runtime flow :=
  next (
    bVal ← pop; aVal ← pop;
    let b := coerceToDouble bVal in
    let a := coerceToDouble aVal in
    if d_eqb b d_zero then fail "DIV: divide by zero"
    else match aVal, bVal with
         | VInt _, VInt _ => z ← lift (d_to_int (d_div a b)); push (VInt z)
         | _, _ => push (VDbl (d_div a b))
         end).

(** [INT_MIN % -1] is undefined. *)
Definition int_rem (a b : Z) : outcome Z :=
  if (a =? INT_MIN) && (b =? -1) then Undefined "INT_MIN % -1" else Ok (Z.rem a b).

(* src/core/vm/Runtime.cpp:487-496 [Runtime::step] *)
Definition exec_mod : proc Runtime flow :=
  next (
    b ← pop_int (opCodeName Mod); a ← pop_int (opCodeName Mod);
    if b =? 0 then fail "MOD: division by zero" else z ← lift (int_rem a b); push (VInt z)).

Definition bool_int (b : bool) : Value := VInt (if b then 1 else 0).

(* src/core/vm/Runtime.cpp:498-538 [Runtime::step] *)
Definition exec_compare (ctx : string) (test : Z → bool) : proc Runtime flow :=
  next (b ← pop; a ← pop; c ← lift (compareValues a b ctx); push (bool_int (test c))).

(* src/core/vm/Runtime.cpp:540-545 [Runtime::step] *)
Definition exec_concat : proc Runtime flow :=
  next (b ← pop_string (opCodeName Concat); a ← pop_string (opCodeName Concat); push (VStr (a +:+ b))).

(* src/core/vm/Runtime.cpp:547-558 [Runtime::step] *)
Definition exec_dup : proc Runtime flow := λ r,
  match r_stack r with
  | [] => (Throw (RuntimeError "VM stack underflow"), r)
  | v :: _ => next (push v) r
  end.

(** ** Output and input *)

(* src/core/vm/Runtime.cpp:560-590 [Runtime::step] *)
Definition exec_print (o : OpCode) : proc Runtime flow :=
  match o with
  | PrintInt => next (v ← pop_int (opCodeName PrintInt); write_out (to_string v))
  | PrintStr => next (s ← pop_string (opCodeName PrintStr); write_out s)
  | PrintEol => next (write_out (String NL ""))
  | PrintVal => next (v ← pop; write_out (valueToString v))
  | _ =>
      next (
        v ← pop_int (opCodeName PrintChar);
        if (v <? 0) || (255 <? v) then fail "PRINT_CHAR: code point out of range"
        else write_out (String (chr v) ""))
  end.

(* src/core/vm/Runtime.cpp:592-600 [Runtime::step] *)
Definition exec_coerce (o : OpCode) : proc Runtime flow :=
  match o with
  | CoerceInt => next (n ← pop_coerced; push (VInt n))
  | _ => next (v ← pop; push (VDbl (coerceToDouble v)))
  end.

(** [readInputLine]: [None] at the end of the input. *)
(* src/core/vm/Runtime.cpp:289-291 [readInputLine] *)
Definition readInputLine : proc Runtime (option string) := λ r,
  match getline NL (r_in r) with
  | None => (Ok None, r)
  | Some (line, rest) => (Ok (Some line), set_in rest r)
  end.

(* src/core/vm/Runtime.cpp:602-641 [Runtime::step] *)
Definition exec_input (o : OpCode) : proc Runtime flow :=
  next (
    line ← readInputLine;
    match o, line with
    | InputInt, None => fail "INPUT_INT: end of input"
    | InputInt, Some l =>
        match parseIntLine l with Some n => push (VInt n) | None => fail "INPUT_INT: invalid integer input" end
    | InputFlt, None => fail "INPUT_FLT: end of input"
    | InputFlt, Some l =>
        match parseFltLine l with Some d => push (VDbl d) | None => fail "INPUT_FLT: invalid float input" end
    | _, None => fail "INPUT_STR: end of input"
    | _, Some l => push (VStr (trim_by is_blank l))
    end).

(** ** Control flow *)

(* src/core/vm/Runtime.cpp:643-657 [Runtime::step] *)
Definition exec_jump (i : Instruction) : proc Runtime flow :=
  match op i with
  | Jump => target ← int_operand i; jump_to target
  | _ =>
      target ← int_operand i; v ← pop_int (opCodeName JumpIfZero);
      if v =? 0 then jump_to target else mret Next
  end.

(* src/core/vm/Runtime.cpp:659-664 [Runtime::step] *)
Definition exec_call (i : Instruction) : proc Runtime flow :=
  target ← int_operand i;
  modify (λ r, set_calls (r_ip r + 1 :: r_calls r) r);;
  jump_to target.

(* src/core/vm/Runtime.cpp:666-673 [Runtime::step] *)
Definition exec_return : proc Runtime flow := λ r,
  match r_calls r with
  | [] => (Throw (RuntimeError "RETURN without GOSUB"), r)
  | ip :: calls => (Ok Jumped, set_ip ip (set_calls calls r))
  end.

(* src/core/vm/Runtime.cpp:675-684 [Runtime::step] *)
Definition exec_for_setup (i : Instruction) : proc Runtime flow :=
  next (
    v ← name_operand i; step ← pop_coerced; lim ← pop_coerced;
    if step =? 0 then fail "FOR: STEP cannot be zero"
    else modify (λ r, set_fors (mkFrame v lim step (r_ip r + 1) :: r_fors r) r)).

(* src/core/vm/Runtime.cpp:686-711 [Runtime::step] *)
Definition exec_for_next (i : Instruction) : proc Runtime flow :=
  v ← name_operand i;
  fors ← gets r_fors;
  match fors with
  | [] => fail "NEXT without FOR"
  | frame :: outer =>
      if negb (str_empty v) && negb (String.eqb (varName frame) v) then fail "FOR/NEXT variable mismatch"
      else
        vars ← gets r_vars;
        c ← (match vars !! varName frame with Some x => lift (coerceToInt x) | None => mret 0 end);
        newVal ← lift (int_of (c + fstep frame));
        read_only (varName frame) (
          modify (λ r, set_vars (<[varName frame := VInt newVal]> (r_vars r)) r);;
          if (if 0 <? fstep frame then limit frame <? newVal else newVal <? limit frame)
          then modify (set_fors outer);; mret Next
          else modify (set_ip (bodyIP frame));; mret Jumped)
  end.

(** ** Arrays *)

Definition undefined_array (name : string) : string :=
  "BUILTIN: MAT undefined array " +:+ String DQUOTE (name +:+ String DQUOTE "").

Definition is_int_array (name : string) : bool := bool_decide (str_back name = Some "%"%char).

(** A slot of an array takes a value: an array whose name ends in % holds [int]s. *)
Definition slot_value (name : string) (v : Value) : outcome Value :=
  if is_int_array name then VInt <$> coerceToInt v else Ok v.

Definition put_array (name : string) (l : list Value) : proc Runtime unit :=
  modify (λ r, set_arrays (<[name := l]> (r_arrays r)) r).

(* src/core/vm/Runtime.cpp:713-724 [Runtime::step] *)
Definition exec_dim (i : Instruction) : proc Runtime flow :=
  next (
    name ← name_operand i;
    read_only name (
      size ← pop_coerced;
      if size <? 1 then fail "DIM: size must be >= 1"
      else put_array name (replicate (Z.to_nat size) (VStr "")))).

(* src/core/vm/Runtime.cpp:726-738 [Runtime::step] *)
Definition exec_load_arr (i : Instruction) : proc Runtime flow :=
  next (
    name ← name_operand i; idx ← pop_coerced;
    arrs ← gets r_arrays;
    match arrs !! name with
    | None => fail ("Array not dimensioned: " +:+ name)
    | Some l =>
        if (idx <? 1) || (Z.of_nat (length l) <? idx) then fail ("Array index out of bounds: " +:+ name)
        else match l !! Z.to_nat (idx - 1) with Some v => push v | None => fail "unreachable" end
    end).

(* src/core/vm/Runtime.cpp:740-756 [Runtime::step] *)
Definition exec_store_arr (i : Instruction) : proc Runtime flow :=
  next (
    name ← name_operand i;
    read_only name (
      idx ← pop_coerced; val ← pop;
      arrs ← gets r_arrays;
      match arrs !! name with
      | None => fail ("Array not dimensioned: " +:+ name)
      | Some l =>
          if (idx <? 1) || (Z.of_nat (length l) <? idx) then fail ("Array index out of bounds: " +:+ name)
          else put_array name (<[Z.to_nat (idx - 1) := val]> l)
      end)).

(* src/core/vm/Runtime.cpp:758-773 [Runtime::step] *)
Definition exec_mat_init (i : Instruction) : proc Runtime flow :=
  next (
    name ← name_operand i;
    read_only name (
      scalar ← pop;
      arrs ← gets r_arrays;
      match arrs !! name with
      | None => fail (undefined_array name)
      | Some l => l' ← lift (mapM (λ _, slot_value name scalar) l); put_array name l'
      end)).

(* src/core/vm/Runtime.cpp:775-803 [Runtime::step] *)
Definition exec_mat_copy (i : Instruction) : proc Runtime flow :=
  next (
    operand ← string_operand i;
    match str_split_at "|" operand with
    | None => fail "MAT_COPY: operand must be DST|SRC"
    | Some (d, s) =>
        let dst := canonicalVariableName d in
        let src := canonicalVariableName s in
        read_only dst (
          arrs ← gets r_arrays;
          match arrs !! dst, arrs !! src with
          | None, _ => fail (undefined_array dst)
          | _, None => fail (undefined_array src)
          | Some ld, Some ls =>
              if negb (length ld =? length ls)%nat then fail "BUILTIN: MAT dimension mismatch"
              else l' ← lift (mapM (slot_value dst) ls); put_array dst l'
          end)
    end).

(* src/core/vm/Runtime.cpp:805-834 [Runtime::step] *)
Definition exec_mat_load (i : Instruction) : proc Runtime flow :=
  next (
    name ← name_operand i;
    read_only name (
      text ← pop_text;
      arrs ← gets r_arrays;
      match arrs !! name with
      | None => fail (undefined_array name)
      | Some l =>
          let sr := fromRaw text in
          if negb (lastAttributeNo sr =? Z.of_nat (length l)) then fail "BUILTIN: MAT READ attribute count mismatch"
          else
            l' ← lift (mapM (λ n, slot_value name (VStr (if hasAttribute sr n then raw (attribute sr n) else "")))
                            (seqZ 1 (Z.of_nat (length l))));
            put_array name l'
      end)).

(** The structured record of an array's values, from attribute [n] on. *)
Fixpoint record_of_values (n : Z) (l : list Value) (sr : StructuredRecord) : StructuredRecord :=
  match l with
  | [] => sr
  | v :: l' => record_of_values (n + 1) l' (setAttribute sr n (mkAttr (valueToString v)))
  end.

(* src/core/vm/Runtime.cpp:836-848 [Runtime::step] *)
Definition exec_mat_store (i : Instruction) : proc Runtime flow :=
  next (
    name ← name_operand i;
    arrs ← gets r_arrays;
    match arrs !! name with
    | None => fail (undefined_array name)
    | Some l => push (VStr (toRaw (record_of_values 1 l [])))
    end).

(* src/core/vm/Runtime.cpp:850-854 [Runtime::step] *)
Definition exec_clear : proc Runtime flow := next (modify (λ r, set_arrays ∅ (set_vars ∅ r))).

(* src/core/vm/Runtime.cpp:856-872 [Runtime::step] *)
Definition exec_number (o : OpCode) : proc Runtime flow :=
  match o with
  | AbsInt => next (n ← pop_coerced; z ← lift (int_of (Z.abs n)); push (VInt z))
  | SgnInt => next (v ← pop_coerced; push (VInt (if 0 <? v then 1 else if v <? 0 then -1 else 0)))
  | _ => next (s ← pop_text; push (VInt (seq_of s)))
  end.

(** ** Variables *)

(* src/core/vm/Runtime.cpp:1437-1444 [Runtime::step] *)
Definition exec_store_var (i : Instruction) : proc Runtime flow :=
  next (
    name ← name_operand i;
    read_only name (v ← pop; modify (λ r, set_vars (<[name := v]> (r_vars r)) r))).

(* src/core/vm/Runtime.cpp:1360-1366 [Runtime::step] *)
Definition exec_chain : proc Runtime flow :=
  programName ← pop_text;
  if str_empty programName then fail "CHAIN requires a program name" else throw (ChainRequest programName).

(* src/core/vm/Runtime.cpp:1170-1178 [Runtime::step] *)
Definition exec_set_handler (i : Instruction) : proc Runtime flow :=
  next (targetIp ← int_operand i; modify (set_onerr (if targetIp <=? 0 then None else Some targetIp))).

(** ** Language functions *)

Abbreviation reader := (FileSystem → string → string → proc World (option PickRecord)).
Abbreviation writer := (FileSystem → string → PickRecord → proc World unit).

Section machine.
Context (env : Env).

Definition context_of (r : Runtime) : HostContext :=
  mkContext (r_status r) (e_system env) (clock (r_world r)) (e_platform env).

(** Running a language function on the machine's stack. *)
Definition on_functions (m : HostContext → proc FnState unit) : proc Runtime unit := λ r,
  let '(o, f) := m (context_of r) (mkFnState (r_stack r) (r_outside r)) in (o, set_fn f r).

(* src/core/vm/Runtime.cpp:874-878 [Runtime::step] *)
Definition exec_builtin (i : Instruction) : proc Runtime flow :=
  next (
    name ← string_operand i;
    on_functions (λ cx, invokeBuiltinShim name cx (e_registry env))).

(* src/core/vm/Runtime.cpp:880-891 [Runtime::step] *)
Definition exec_call_func (i : Instruction) : proc Runtime flow :=
  next (
    match e_registry env with
    | None => fail "LANG: registry not configured"
    | Some registry =>
        let call := callFunc i in
        stack ← gets r_stack;
        if to_int32 (Z.of_nat (length stack)) <? argCount call then fail "LANG: arity mismatch"
        else on_functions (dispatch registry (namespaceId call) (functionId call) (argCount call))
    end).

(** ** Files *)

Definition on_world {A} (m : proc World A) : proc Runtime A := zoom r_world set_world m.

Definition put_file (fileVar : string) (h : FileHandle) : proc Runtime unit :=
  modify (λ r, set_files (<[fileVar := h]> (r_files r)) r).

(** [fileSystem_->resetReadNextCursor(fit->second)] *)
Definition reset_cursor (fileVar : string) (h : FileHandle) : proc Runtime unit := put_file fileVar (resetReadNextCursor h).

(** The two tests that file instructions start with. *)
Definition with_file {A} (op fileVar : string) (k : FileSystem → FileHandle → proc Runtime A) : proc Runtime A :=
  files ← gets r_files;
  match files !! fileVar with
  | None => throw (makeIoError op FileVarNotOpen fileVar)
  | Some h =>
      match e_fs env with
      | None => throw (makeIoError op BackendUnavailable "filesystem backend not configured")
      | Some fs => k fs h
      end
  end.

(** The same tests in the TRY forms. *)
Definition with_file_else {A} (fileVar : string) (missing : proc Runtime A) (k : FileSystem → FileHandle → proc Runtime A)
    : proc Runtime A :=
  files ← gets r_files;
  match files !! fileVar, e_fs env with
  | Some h, Some fs => k fs h
  | _, _ => missing
  end.

(** [push(std::string{}); push(0);] *)
Definition push_none : proc Runtime unit := push (VStr "");; push (VInt 0).
Definition push_some (s : string) : proc Runtime unit := push (VStr s);; push (VInt 1).

(** [openFiles_[fileVar] = openFile(fileName); resetReadNextCursor(openFiles_[fileVar]);] *)
Definition open_into (fs : FileSystem) (fileVar fileName : string) : proc Runtime unit :=
  h ← on_world (openFile (e_host env) fs fileName);
  put_file fileVar (resetReadNextCursor h).

(* src/core/vm/Runtime.cpp:893-906 [Runtime::step] *)
Definition exec_open (i : Instruction) : proc Runtime flow :=
  next (
    fileVar ← name_operand i; fileName ← pop_text;
    match e_fs env with
    | None => throw (makeIoError "OPEN" BackendUnavailable "filesystem backend not configured")
    | Some fs => on_fs_error (open_into fs fileVar fileName) (throw (makeIoError "OPEN" MissingFile fileName))
    end).

(* src/core/vm/Runtime.cpp:908-924 [Runtime::step] *)
Definition exec_open_try (i : Instruction) : proc Runtime flow :=
  next (
    fileVar ← name_operand i; fileName ← pop_text;
    match e_fs env with
    | None => push (VInt 0)
    | Some fs =>
        ok ← on_fs_error (open_into fs fileVar fileName;; mret true) (mret false);
        push (VInt (if ok : bool then 1 else 0))
    end).

(** [catch (const FileSystemError &ex)]: a record lock conflict is handled by
    [h], anything else is thrown again. *)
Definition on_lock_conflict {A} (m h : proc Runtime A) : proc Runtime A :=
  try_catch m (λ e, match e with
                    | FileSystemError what => if isRecordLockConflict what then Some h else None
                    | _ => None
                    end).

(* src/core/vm/Runtime.cpp:926-951 [Runtime::step] *)
Definition exec_read (opname : string) (rd : reader) (i : Instruction) : proc Runtime flow :=
  fileVar ← name_operand i; id ← pop_text;
  with_file opname fileVar (λ fs h,
    on_lock_conflict (
      rec ← on_world (rd fs (h_name h) id);
      match rec with
      | None => throw (makeIoError opname MissingRecord id)
      | Some rc => next (push (VStr (value rc)))
      end)
      (handleRecordLockConflict opname)).

(* src/core/vm/Runtime.cpp:953-985 [Runtime::step] *)
Definition exec_read_try (rd : reader) (i : Instruction) : proc Runtime flow :=
  next (
    fileVar ← name_operand i; id ← pop_text;
    with_file_else fileVar push_none (λ fs h,
      on_lock_conflict (
        rec ← on_world (rd fs (h_name h) id);
        match rec with
        | None => push_none
        | Some rc => push_some (value rc)
        end)
        push_none)).

(* src/core/vm/Runtime.cpp:987-1012 [Runtime::step] *)
Definition exec_read_u (i : Instruction) : proc Runtime flow := exec_read "READU" (readU (e_host env)) i.

(* src/core/vm/Runtime.cpp:1014-1046 [Runtime::step] *)
Definition exec_read_u_try (i : Instruction) : proc Runtime flow := exec_read_try (readU (e_host env)) i.

(* src/core/vm/Runtime.cpp:1048-1071 [Runtime::step] *)
Definition exec_write (opname : string) (wr : writer) (i : Instruction) : proc Runtime flow :=
  fileVar ← name_operand i; id ← pop_text; value ← pop_text;
  with_file opname fileVar (λ fs h,
    on_lock_conflict
      (next (on_world (wr fs (h_name h) (makeRecord id value));; reset_cursor fileVar h))
      (handleRecordLockConflict opname)).

(** The first [catch] rethrows what is not a lock conflict, past the second one. *)
(* src/core/vm/Runtime.cpp:1073-1100 [Runtime::step] *)
Definition exec_write_try (wr : writer) (i : Instruction) : proc Runtime flow :=
  next (
    fileVar ← name_operand i; id ← pop_text; value ← pop_text;
    with_file_else fileVar (push (VInt 0)) (λ fs h,
      try_catch (on_world (wr fs (h_name h) (makeRecord id value));; reset_cursor fileVar h;; push (VInt 1))
        (λ e, match e with
              | FileSystemError what => if isRecordLockConflict what then Some (push (VInt 0)) else None
              | _ => if is_std_exception e then Some (push (VInt 0)) else None
              end))).

(* src/core/vm/Runtime.cpp:1102-1125 [Runtime::step] *)
Definition exec_write_u (i : Instruction) : proc Runtime flow := exec_write "WRITEU" (writeU (e_host env)) i.

(* src/core/vm/Runtime.cpp:1127-1154 [Runtime::step] *)
Definition exec_write_u_try (i : Instruction) : proc Runtime flow := exec_write_try (writeU (e_host env)) i.

(* src/core/vm/Runtime.cpp:1156-1168 [Runtime::step] *)
Definition exec_release (i : Instruction) : proc Runtime flow :=
  next (
    fileVar ← name_operand i; id ← pop_text;
    with_file "RELEASE" fileVar (λ fs h, on_world (releaseRecord fs (h_name h) id);; mret tt)).

(** [push(readNextRecord(fit->second))]: the handle's cursor moves. *)
Definition push_next_record (fileVar : string) (h : FileHandle) : proc Runtime unit :=
  '(o, h') ← on_world (readNextRecord (e_host env) h);
  put_file fileVar h';;
  id ← lift o;
  push (VStr id).

(* src/core/vm/Runtime.cpp:1180-1195 [Runtime::step] *)
Definition exec_read_next (i : Instruction) : proc Runtime flow :=
  next (
    fileVar ← name_operand i;
    with_file "READNEXT" fileVar (λ _ h,
      on_fs_error (push_next_record fileVar h) (throw (makeIoError "READNEXT" CursorExhausted ("file=" +:+ h_name h))))).

(* src/core/vm/Runtime.cpp:1197-1213 [Runtime::step] *)
Definition exec_read_next_try (i : Instruction) : proc Runtime flow :=
  next (
    fileVar ← name_operand i;
    with_file_else fileVar push_none (λ _ h, on_std_error (push_next_record fileVar h;; push (VInt 1)) push_none)).

(* src/core/vm/Runtime.cpp:126-133 [evaluateDictFieldCell] *)
Definition evaluateDictFieldCell (fs : FileSystem) (dataFileName token : string) (sr : StructuredRecord) : proc Runtime string :=
  ref ← on_world (resolveField (e_host env) fs dataFileName token);
  lift (evaluateFieldCell ref sr).

Definition attr_detail (n : Z) : string := "attr=" +:+ to_string n.

(* src/core/vm/Runtime.cpp:1215-1256 [Runtime::step] *)
Definition exec_read_v (i : Instruction) : proc Runtime flow :=
  next (
    fileVar ← name_operand i; valueIndex ← pop_coerced; attrSlot ← pop; id ← pop_text;
    with_file "READV" fileVar (λ fs h,
      rec ← on_world (read (e_host env) fs (h_name h) id);
      match rec with
      | None => throw (makeIoError "READV" MissingRecord id)
      | Some rc =>
          let sr := fromRaw (value rc) in
          match attrSlot with
          | VStr token =>
              if 0 <? valueIndex
              then throw (makeIoError "READV" MissingSubvalue "computed field does not support value index")
              else s ← evaluateDictFieldCell fs (h_name h) token sr; push (VStr s)
          | _ =>
              attrNo ← lift (coerceToInt attrSlot);
              if negb (hasAttribute sr attrNo) then throw (makeIoError "READV" MissingAttribute (attr_detail attrNo))
              else
                let attr := attribute sr attrNo in
                if 0 <? valueIndex then
                  if negb (hasValueAt attr valueIndex)
                  then throw (makeIoError "READV" MissingSubvalue
                                (attr_detail attrNo +:+ ",value=" +:+ to_string valueIndex))
                  else push (VStr (valueAt attr valueIndex))
                else push (VStr (raw attr))
          end
      end)).

(* src/core/vm/Runtime.cpp:1258-1315 [Runtime::step] *)
Definition exec_read_v_try (i : Instruction) : proc Runtime flow :=
  next (
    fileVar ← name_operand i; valueIndex ← pop_coerced; attrSlot ← pop; id ← pop_text;
    with_file_else fileVar push_none (λ fs h,
      rec ← on_world (read (e_host env) fs (h_name h) id);
      match rec with
      | None => push_none
      | Some rc =>
          let sr := fromRaw (value rc) in
          match attrSlot with
          | VStr token =>
              if 0 <? valueIndex then push_none
              else
                ref ← on_world (resolveField (e_host env) fs (h_name h) token);
                if negb (fieldRefIsResolved ref) then push_none
                else s ← evaluateDictFieldCell fs (h_name h) token sr; push_some s
          | _ =>
              attrNo ← lift (coerceToInt attrSlot);
              if negb (hasAttribute sr attrNo) then push_none
              else
                let attr := attribute sr attrNo in
                if 0 <? valueIndex then
                  if negb (hasValueAt attr valueIndex) then push_none else push_some (valueAt attr valueIndex)
                else push_some (raw attr)
          end
      end)).

(* src/core/vm/Runtime.cpp:1317-1325 [Runtime::step] *)
Definition exec_extract : proc Runtime flow :=
  next (
    valueIndex ← pop_coerced; attrNo ← pop_coerced; rawRecord ← pop_text;
    let attr := attribute (fromRaw rawRecord) attrNo in
    push (VStr (if 0 <? valueIndex then valueAt attr valueIndex else raw attr))).

(* src/core/vm/Runtime.cpp:1327-1358 [Runtime::step] *)
Definition exec_resolve_dict (i : Instruction) : proc Runtime flow :=
  next (
    fileVar ← name_operand i; token ← pop_text;
    with_file_else fileVar (push (VInt 0)) (λ fs h,
      on_std_error (
        field ← on_world (resolveField (e_host env) fs (h_name h) token);
        match fkind field with
        | AttributeField =>
            match attributeNo field with Some n => push (VInt n) | None => push (VInt 0) end
        | _ => if fieldRefIsResolved field then push (VStr token) else push (VInt 0)
        end)
        (push (VInt 0)))).

Definition write_value (fs : FileSystem) (h : FileHandle) (id : string) (attrNo valueIndex : Z) (value : string) : proc World unit :=
  if 0 <? valueIndex then writeSubvalue (e_host env) fs (h_name h) id attrNo valueIndex value
  else writeAttributeValue (e_host env) fs (h_name h) id attrNo value.

(* src/core/vm/Runtime.cpp:1368-1388 [Runtime::step] *)
Definition exec_write_v (i : Instruction) : proc Runtime flow :=
  next (
    fileVar ← name_operand i; valueIndex ← pop_coerced; attrNo ← pop_coerced; id ← pop_text; value ← pop_text;
    with_file "WRITEV" fileVar (λ fs h,
      on_world (write_value fs h id attrNo valueIndex value);; reset_cursor fileVar h)).

(* src/core/vm/Runtime.cpp:1390-1413 [Runtime::step] *)
Definition exec_write_v_try (i : Instruction) : proc Runtime flow :=
  next (
    fileVar ← name_operand i; valueIndex ← pop_coerced; attrNo ← pop_coerced; id ← pop_text; value ← pop_text;
    with_file_else fileVar (push (VInt 0)) (λ fs h,
      on_std_error (on_world (write_value fs h id attrNo valueIndex value);; reset_cursor fileVar h;; push (VInt 1))
        (push (VInt 0)))).

(* src/core/vm/Runtime.cpp:1415-1419 [Runtime::step] *)
Definition exec_close (i : Instruction) : proc Runtime flow :=
  next (fileVar ← name_operand i; modify (λ r, set_files (delete fileVar (r_files r)) r)).

(* src/core/vm/Runtime.cpp:1421-1435 [Runtime::step] *)
Definition exec_load_var (i : Instruction) : proc Runtime flow :=
  next (
    name ← name_operand i;
    let sysvar := match e_sysvar env with
                  | Some reader => if isReadOnlySystemVariableName name then reader name else None
                  | None => None
                  end in
    match sysvar with
    | Some v => push v
    | None =>
        vars ← gets r_vars;
        match vars !! name with
        | None => fail ("Undefined variable: " +:+ name)
        | Some v => push v
        end
    end).

(** ** Steps and runs *)

(* src/core/vm/Runtime.cpp:411-421 [Runtime::step] *)
Definition exec (i : Instruction) : proc Runtime flow :=
  match op i with
  | Halt => modify (λ r, set_ip (psize r) r);; mret Stopped
  | PushInt | PushFlt | PushStr => exec_push i
  | Add => exec_arith Z.add d_add
  | Sub => exec_arith Z.sub d_sub
  | Mul => exec_arith Z.mul d_mul
  | Div => exec_div
  | Mod => exec_mod
  | Eq => exec_compare "EQ" (λ c, c =? 0)
  | Ne => exec_compare "NE" (λ c, negb (c =? 0))
  | Lt => exec_compare "LT" (λ c, c <? 0)
  | Le => exec_compare "LE" (λ c, c <=? 0)
  | Gt => exec_compare "GT" (λ c, 0 <? c)
  | Ge => exec_compare "GE" (λ c, 0 <=? c)
  | Concat => exec_concat
  | Dup => exec_dup
  | Drop => next (pop;; mret tt)
  | PrintInt | PrintStr | PrintVal | PrintEol | PrintChar => exec_print (op i)
  | InputInt | InputFlt | InputStr => exec_input (op i)
  | CoerceInt | CoerceFlt => exec_coerce (op i)
  | Jump | JumpIfZero => exec_jump i
  | Call => exec_call i
  | Return => exec_return
  | ForSetup => exec_for_setup i
  | ForNext => exec_for_next i
  | DimArray => exec_dim i
  | LoadArr => exec_load_arr i
  | StoreArr => exec_store_arr i
  | MatInit => exec_mat_init i
  | MatCopy => exec_mat_copy i
  | MatLoadFromRec => exec_mat_load i
  | MatStoreToRec => exec_mat_store i
  | ClearVars => exec_clear
  | AbsInt | SgnInt | SeqStr => exec_number (op i)
  | InvokeBuiltin => exec_builtin i
  | CallFunc => exec_call_func i
  | OpenFile => exec_open i
  | OpenFileTry => exec_open_try i
  | ReadRec => exec_read "READ" (read (e_host env)) i
  | ReadRecTry => exec_read_try (read (e_host env)) i
  | ReadRecU => exec_read_u i
  | ReadRecUTry => exec_read_u_try i
  | WriteRec => exec_write "WRITE" (write (e_host env)) i
  | WriteRecTry => exec_write_try (write (e_host env)) i
  | WriteRecU => exec_write_u i
  | WriteRecUTry => exec_write_u_try i
  | ReleaseRec => exec_release i
  | ReadNext => exec_read_next i
  | ReadNextTry => exec_read_next_try i
  | ReadV => exec_read_v i
  | ReadVTry => exec_read_v_try i
  | WriteV => exec_write_v i
  | WriteVTry => exec_write_v_try i
  | ExtractAttr => exec_extract
  | ResolveDictAttr => exec_resolve_dict i
  | Chain => exec_chain
  | CloseFile => exec_close i
  | SetOnErrorHandler => exec_set_handler i
  | LoadVar => exec_load_var i
  | StoreVar => exec_store_var i
  end.

(* src/core/vm/Runtime.cpp:1446-1455 [Runtime::step] *)
Definition step : proc Runtime bool := λ r,
  if psize r <=? r_ip r then (Ok false, r)
  else match r_program r !! Z.to_nat (r_ip r) with
       | None => (Ok false, r)
       | Some i =>
           (f ← exec i;
            match f with
            | Next => modify (λ r, set_ip (r_ip r + 1) r);; gets (λ r, r_ip r <? psize r)
            | Jumped => gets (λ r, r_ip r <? psize r)
            | Stopped => mret false
            end) r
       end.

(** [signal k]: [interrupt()] is called (by a signal handler) before the test
    after the [k]-th step. The answer [None] means that the fuel ran out. *)
(* src/core/vm/Runtime.cpp:1457-1467 [Runtime::run] *)
Fixpoint run (fuel : nat) (signal : nat → bool) : proc Runtime (option unit) :=
  match fuel with
  | O => mret None
  | S fuel' =>
      more ← step;
      if more : bool then
        (if signal 0%nat then modify (set_interrupted true) else mret tt);;
        stop ← gets r_interrupted;
        if stop : bool then throw UserInterrupt else run fuel' (λ k, signal (S k))
      else mret (Some tt)
  end.
End machine.

Definition dump_value (v : Value) : string :=
  match v with VStr s => quote s | _ => valueToString v end +:+ " ".

(* src/core/vm/Runtime.cpp:1473-1483 [Runtime::dumpStack] *)
Definition dumpStack : proc Runtime unit := λ r,
  (Ok tt, set_out (r_out r +:+ "Stack: [ " +:+ foldr (λ v s, dump_value v +:+ s) "" (reverse (r_stack r)) +:+ "]" +:+ String NL "") r).
