(* ===== verification/VmProps.v ===== *)
(** * Properties of the virtual machine

    A small postcondition logic for the machine's code, the type invariant of
    the machine and its preservation by every instruction. *)

From Stdlib Require Import Ascii String Zquot.
From S2P Require Import Prelude CLib Dbl Records Locks FileSys Conv Bytecode Correl Dict Values Registry Vm.
From stdpp Require Import options.
Local Open Scope Z_scope.

(** ** The invariant *)

(** A loop's limit and step are [int]s, the step is not zero, and its body is
    the address of an instruction. *)
Record frame_ok (f : ForFrame) : Prop := mk_frame_ok {
  limit_int : in_int (limit f) = true;
  step_int : in_int (fstep f) = true;
  step_nonzero : fstep f ≠ 0;
  body_nonneg : 0 <= bodyIP f
}.

(** An array has at least one slot, and its [int]s are in range. *)
Definition array_ok (l : list Value) : Prop := l ≠ [] ∧ Forall value_ok l.

Record machine_ok (r : Runtime) : Prop := mk_machine_ok {
  program_ok : Forall (λ i, value_ok (operand i)) (r_program r);
  stack_ok : Forall value_ok (r_stack r);
  calls_ok : Forall (λ ip, 0 <= ip) (r_calls r);
  fors_ok : Forall frame_ok (r_fors r);
  vars_ok : map_Forall (λ _, value_ok) (r_vars r);
  arrays_ok : map_Forall (λ _, array_ok) (r_arrays r);
  ip_ok : 0 <= r_ip r;
  status_ok : in_int (r_status r) = true;
  onerr_ok : ∀ ip, r_onerr r = Some ip → 0 <= ip
}.

(** What the machine expects of the values and functions that the host provides. *)
Class SafeEnv (env : Env) : Prop := mk_safe_env {
  sysvar_values : ∀ f n v, e_sysvar env = Some f → f n = Some v → value_ok v;
  env_system_values : ∀ f n v, e_system env = Some f → f n = Ok v → value_ok v;
  env_system_stack : ∀ f n, e_system env = Some f → f n ≠ Undefined empty_back;
  registered_functions : ∀ reg ns l e f, e_registry env = Some reg → namespaces reg !! ns = Some l → e ∈ functions l →
    fn e = Some f → 0 <= arity e ∧ StackFunction (Z.to_nat (arity e)) f
}.

(** [m] keeps the invariant and the program, also when it throws; what it
    returns satisfies [Q]. *)
Definition safe {A} (m : proc Runtime A) (Q : A → Prop) : Prop := ∀ r, machine_ok r →
  match m r with
  | (Ok a, r') => Q a ∧ machine_ok r' ∧ r_program r' = r_program r
  | (Throw _, r') => machine_ok r' ∧ r_program r' = r_program r
  | (Undefined _, _) => True
  end.

Abbreviation any := (λ _, True).

(** *** Rules *)

Lemma safe_weaken {A} (m : proc Runtime A) (P Q : A → Prop) : (∀ a, P a → Q a) → safe m P → safe m Q.
Proof. intros H Hm r Hr. specialize (Hm r Hr). destruct (m r) as [[] ?]; naive_solver. Qed.

Lemma safe_ret {A} (a : A) (Q : A → Prop) : Q a → safe (mret a) Q.
Proof. intros HQ r Hr. done. Qed.

Lemma safe_bind {A B} (m : proc Runtime A) (k : A → proc Runtime B) P Q :
  safe m P → (∀ a, P a → safe (k a) Q) → safe (m ≫= k) Q.
Proof.
  intros Hm Hk r Hr. specialize (Hm r Hr). unfold mbind, proc_bind. destruct (m r) as [[a|e|w] r1]; [|done..].
  destruct Hm as (Ha & Hr1 & Hp). specialize (Hk a Ha r1 Hr1). destruct (k a r1) as [[] ?]; naive_solver congruence.
Qed.

Lemma safe_throw {A} e (Q : A → Prop) : safe (throw e) Q.
Proof. intros r Hr. done. Qed.

Lemma safe_fail {A} e (Q : A → Prop) : safe (fail e) Q.
Proof. apply safe_throw. Qed.

Lemma safe_lift {A} (o : outcome A) (Q : A → Prop) : (∀ a, o = Ok a → Q a) → safe (lift o) Q.
Proof. intros H r Hr. unfold lift. destruct o; naive_solver. Qed.

Lemma safe_if {A} (b : bool) (m1 m2 : proc Runtime A) Q :
  (b = true → safe m1 Q) → (b = false → safe m2 Q) → safe (if b then m1 else m2) Q.
Proof. destruct b; auto. Qed.

Lemma safe_catch {A} (m : proc Runtime A) h Q :
  safe m Q → (∀ e k, h e = Some k → safe k Q) → safe (try_catch m h) Q.
Proof.
  intros Hm Hh r Hr. specialize (Hm r Hr). unfold try_catch. destruct (m r) as [[a|e|w] r1]; [done| |done].
  destruct (h e) as [k|] eqn:E; [|done]. destruct Hm as [Hr1 Hp]. specialize (Hh e k E r1 Hr1).
  destruct (k r1) as [[] ?]; naive_solver congruence.
Qed.

Lemma safe_gets {A} (f : Runtime → A) (Q : A → Prop) : (∀ r, machine_ok r → Q (f r)) → safe (gets f) Q.
Proof. intros H r Hr. split; [by apply H|done]. Qed.

Lemma safe_modify f (Q : unit → Prop) : Q tt →
  (∀ r, machine_ok r → machine_ok (f r) ∧ r_program (f r) = r_program r) → safe (modify f) Q.
Proof. intros HQ H r Hr. by split; [|apply H]. Qed.

Lemma safe_modify_bind {B} f (k : proc Runtime B) (Q : B → Prop) :
  (∀ r, machine_ok r → machine_ok (f r) ∧ r_program (f r) = r_program r) → safe k Q → safe (modify f;; k) Q.
Proof. intros H Hk. apply (safe_bind _ _ any); [by apply safe_modify|done]. Qed.

(** Reading the state and going on with what was read. *)
Lemma safe_gets_bind {A B} (f : Runtime → A) (k : A → proc Runtime B) Q :
  (∀ r, machine_ok r → safe (k (f r)) Q) → safe (gets f ≫= k) Q.
Proof. intros H r Hr. by apply (H r Hr r Hr). Qed.

(** *** Changes of one part of the state *)

Ltac machine_fields := intros [] []; cbn in *; split; [constructor; cbn; auto|reflexivity].

Lemma set_stack_ok s r : Forall value_ok s → machine_ok r → machine_ok (set_stack s r) ∧ r_program (set_stack s r) = r_program r.
Proof. intros Hs. revert r. machine_fields. Qed.

Lemma set_ip_ok ip r : 0 <= ip → machine_ok r → machine_ok (set_ip ip r) ∧ r_program (set_ip ip r) = r_program r.
Proof. intros Hs. revert r. machine_fields. Qed.

Lemma set_calls_ok c r : Forall (λ ip, 0 <= ip) c → machine_ok r →
  machine_ok (set_calls c r) ∧ r_program (set_calls c r) = r_program r.
Proof. intros Hs. revert r. machine_fields. Qed.

Lemma set_fors_ok f r : Forall frame_ok f → machine_ok r → machine_ok (set_fors f r) ∧ r_program (set_fors f r) = r_program r.
Proof. intros Hs. revert r. machine_fields. Qed.

Lemma set_vars_ok v r : map_Forall (λ _, value_ok) v → machine_ok r →
  machine_ok (set_vars v r) ∧ r_program (set_vars v r) = r_program r.
Proof. intros Hs. revert r. machine_fields. Qed.

Lemma set_arrays_ok a r : map_Forall (λ _, array_ok) a → machine_ok r →
  machine_ok (set_arrays a r) ∧ r_program (set_arrays a r) = r_program r.
Proof. intros Hs. revert r. machine_fields. Qed.

Lemma set_status_ok z r : in_int z = true → machine_ok r →
  machine_ok (set_status z r) ∧ r_program (set_status z r) = r_program r.
Proof. intros Hs. revert r. machine_fields. Qed.

Lemma set_onerr_ok o r : (∀ ip, o = Some ip → 0 <= ip) → machine_ok r →
  machine_ok (set_onerr o r) ∧ r_program (set_onerr o r) = r_program r.
Proof. intros Hs. revert r. machine_fields. Qed.

Lemma set_files_ok f r : machine_ok r → machine_ok (set_files f r) ∧ r_program (set_files f r) = r_program r.
Proof. revert r. machine_fields. Qed.

Lemma set_out_ok s r : machine_ok r → machine_ok (set_out s r) ∧ r_program (set_out s r) = r_program r.
Proof. revert r. machine_fields. Qed.

Lemma set_in_ok s r : machine_ok r → machine_ok (set_in s r) ∧ r_program (set_in s r) = r_program r.
Proof. revert r. machine_fields. Qed.

Lemma set_world_ok w r : machine_ok r → machine_ok (set_world w r) ∧ r_program (set_world w r) = r_program r.
Proof. revert r. machine_fields. Qed.

Lemma set_fn_ok f r : Forall value_ok (fn_stack f) → machine_ok r →
  machine_ok (set_fn f r) ∧ r_program (set_fn f r) = r_program r.
Proof. intros Hs. revert r. machine_fields. Qed.

#[export] Hint Resolve set_stack_ok set_ip_ok set_calls_ok set_fors_ok set_vars_ok set_arrays_ok set_status_ok set_onerr_ok
  set_files_ok set_out_ok set_in_ok set_world_ok set_fn_ok : gemini.

(** *** The machine's own operations *)

Lemma safe_push v (Q : unit → Prop) : Q tt → value_ok v → safe (push v) Q.
Proof. intros HQ Hv. apply safe_modify; [done|]. intros r Hr. apply set_stack_ok; [|done]. by constructor; [|apply Hr]. Qed.

Lemma safe_pop : safe pop value_ok.
Proof.
  intros r Hr. unfold pop. pose proof (stack_ok r Hr) as Hs. destruct (r_stack r) as [|v s]; [done|].
  apply Forall_cons in Hs as [Hv Hs]. split; [done|]. by apply set_stack_ok.
Qed.

Lemma safe_pop_lift {A} (f : Value → outcome A) (Q : A → Prop) :
  (∀ v a, value_ok v → f v = Ok a → Q a) → safe (v ← pop; lift (f v)) Q.
Proof. intros H. eapply safe_bind; [apply safe_pop|]. intros v Hv. apply safe_lift. eauto. Qed.

Abbreviation is_int := (λ n, in_int n = true).

Lemma safe_pop_int ctx : safe (pop_int ctx) is_int.
Proof. apply safe_pop_lift. intros [n| |] a Hv [= <-]. exact Hv. Qed.

Lemma safe_pop_string ctx : safe (pop_string ctx) any.
Proof. by apply safe_pop_lift. Qed.

Lemma safe_pop_coerced : safe pop_coerced is_int.
Proof. apply safe_pop_lift. intros v a _. apply coerceToInt_ok. Qed.

Lemma safe_pop_text : safe pop_text any.
Proof. eapply safe_bind; [apply safe_pop|]. intros v _. by apply safe_ret. Qed.

Lemma safe_operand {A} i (f : Instruction → Z → outcome A) (Q : A → Prop) :
  (∀ ip a, f i ip = Ok a → Q a) → safe (λ r, (f i (r_ip r), r)) Q.
Proof. intros H r Hr. destruct (f i (r_ip r)) eqn:E; naive_solver. Qed.

Lemma safe_int_operand i : value_ok (operand i) → safe (int_operand i) is_int.
Proof.
  intros Hi. apply (safe_operand i intOperandAtIp). intros ip n. unfold intOperandAtIp.
  destruct (operand i) as [z| |]; [|done..]. intros [= <-]. exact Hi.
Qed.

Lemma safe_string_operand i : safe (string_operand i) any.
Proof. by apply (safe_operand i stringOperandAtIp). Qed.

Lemma safe_float_operand i : safe (float_operand i) any.
Proof. by apply (safe_operand i floatOperandAtIp). Qed.

Lemma safe_name_operand i : safe (name_operand i) any.
Proof. eapply safe_bind; [apply safe_string_operand|]. intros s _. by apply safe_ret. Qed.

Lemma safe_write_out s : safe (write_out s) any.
Proof. apply safe_modify; auto with gemini. Qed.

Lemma safe_next m : safe m any → safe (next m) any.
Proof. intros Hm. eapply safe_bind; [exact Hm|]. intros _ _. by apply safe_ret. Qed.

Lemma safe_jump_to t : safe (jump_to t) any.
Proof.
  apply safe_modify_bind; [|by apply safe_ret]. intros r Hr. apply set_ip_ok; [|done].
  unfold wrap64. apply Z.mod_pos_bound. done.
Qed.

Lemma safe_read_only {A} n (m : proc Runtime A) Q : safe m Q → safe (read_only n m) Q.
Proof. intros Hm. unfold read_only. destruct (isReadOnlySystemVariableName n); [apply safe_fail|done]. Qed.

Lemma safe_lock_conflict o : safe (handleRecordLockConflict o) any.
Proof.
  intros r Hr. unfold handleRecordLockConflict. destruct (set_status_ok 1 r eq_refl Hr) as [H1 Hp].
  destruct (r_onerr (set_status 1 r)) as [ip|] eqn:E; [|done].
  destruct (set_ip_ok ip _ (onerr_ok _ H1 ip E) H1) as [H2 Hp2]. split; [done|]. split; [done|congruence].
Qed.

Lemma safe_put_array n l : array_ok l → safe (put_array n l) any.
Proof.
  intros Hl. apply safe_modify; [done|]. intros r Hr. apply set_arrays_ok; [|done].
  apply map_Forall_insert_2; [done|apply Hr].
Qed.

Lemma safe_readInputLine : safe readInputLine any.
Proof.
  intros r Hr. unfold readInputLine. destruct (getline NL (r_in r)) as [[l rest]|]; [|done].
  split; [done|]. by apply set_in_ok.
Qed.

Lemma safe_on_world {A} (m : proc World A) (P : A → Prop) :
  (∀ w a w', m w = (Ok a, w') → P a) → safe (on_world m) P.
Proof.
  intros H r Hr. unfold on_world, zoom. destruct (m (r_world r)) as [o w] eqn:E. cbn [fst snd].
  pose proof (set_world_ok w r Hr) as Hw. destruct o; [|done..]. split; [by eapply H|done].
Qed.

Lemma safe_world {A} (m : proc World A) : safe (on_world m) any.
Proof. by apply safe_on_world. Qed.

Lemma safe_put_file v h : safe (put_file v h) any.
Proof. apply safe_modify; auto with gemini. Qed.

Lemma safe_push_none : safe push_none any.
Proof. eapply safe_bind; [by apply (safe_push _ any)|]. intros. by apply safe_push. Qed.

Lemma safe_push_some s : safe (push_some s) any.
Proof. eapply safe_bind; [by apply (safe_push _ any)|]. intros. by apply safe_push. Qed.

Lemma safe_reset v h : safe (reset_cursor v h) any.
Proof. apply safe_put_file. Qed.

Lemma safe_open env fs v n : safe (open_into env fs v n) any.
Proof. eapply safe_bind; [apply safe_world|]. intros. apply safe_put_file. Qed.

Lemma safe_with_file {A} env o v (k : FileSystem → FileHandle → proc Runtime A) Q :
  (∀ fs h, safe (k fs h) Q) → safe (with_file env o v k) Q.
Proof.
  intros H. apply safe_gets_bind. intros r Hr. destruct (r_files r !! v); [|apply safe_throw].
  destruct (e_fs env); [apply H|apply safe_throw].
Qed.

Lemma safe_with_file_else {A} env v m (k : FileSystem → FileHandle → proc Runtime A) Q :
  safe m Q → (∀ fs h, safe (k fs h) Q) → safe (with_file_else env v m k) Q.
Proof. intros Hm H. apply safe_gets_bind. intros r Hr. destruct (r_files r !! v); [|done]. destruct (e_fs env); [apply H|done]. Qed.

Lemma safe_on_fs_error {A} (m h : proc Runtime A) Q : safe m Q → safe h Q → safe (on_fs_error m h) Q.
Proof. intros Hm Hh. apply safe_catch; [done|]. intros [] k [= <-]. done. Qed.

Lemma safe_on_std_error {A} (m h : proc Runtime A) Q : safe m Q → safe h Q → safe (on_std_error m h) Q.
Proof. intros Hm Hh. apply safe_catch; [done|]. intros e k. destruct (is_std_exception e); [|done]. by intros [= <-]. Qed.

Lemma safe_on_lock_conflict {A} (m h : proc Runtime A) Q : safe m Q → safe h Q → safe (on_lock_conflict m h) Q.
Proof.
  intros Hm Hh. apply safe_catch; [done|]. intros [] k; try done. destruct (isRecordLockConflict what); [|done]. by intros [= <-].
Qed.

#[export] Hint Resolve safe_pop safe_pop_int safe_pop_string safe_pop_coerced safe_pop_text safe_int_operand
  safe_string_operand safe_float_operand safe_name_operand safe_write_out safe_readInputLine safe_world safe_put_file
  safe_push_none safe_push_some safe_reset safe_open safe_put_array safe_lock_conflict safe_jump_to : gemini.

(** A resolved attribute number is an [int]. *)
Definition attribute_int (ref : FieldRef) : Prop := ∀ n, attributeNo ref = Some n → value_ok (VInt n).

Lemma parsePositiveInt_int t n : parsePositiveInt t = Ok (Some n) → value_ok (VInt n).
Proof.
  unfold parsePositiveInt. destruct (_ || _); [done|]. intros ([v x] & Hv & [= H])%outcome_bind_inv.
  destruct (v <=? 0); [done|]. injection H as ->. unfold stoi in Hv. repeat case_match; naive_solver.
Qed.

Lemma fieldFromStructuredDict_attribute s t ref : fieldFromStructuredDict s t = Ok (Some ref) → attribute_int ref.
Proof.
  unfold fieldFromStructuredDict. cbv zeta. repeat (destruct (is_type _ _)).
  - intros (o & Ho & [= <-])%outcome_bind_inv n [= ->]. by eapply parsePositiveInt_int.
  - intros ([o x] & Ho & [= H])%outcome_bind_inv. destruct o; [|done]. by injection H as <-.
  - intros ([o x] & Ho & [= H])%outcome_bind_inv. destruct o; [|done]. by injection H as <-.
  - done.
  - by intros [= <-].
Qed.

Lemma resolveFieldRec_attribute host fs levels : ∀ t0 t f w o w',
  resolveFieldRec host fs levels t0 t f w = (Ok o, w') → ∀ ref, o = Some ref → attribute_int ref.
Proof.
  induction levels as [|levels IH]; intros t0 t f w o w' H ref ->; [done|]. cbn [resolveFieldRec] in H.
  apply proc_bind_inv in H as (num & w1 & Hn & H). injection Hn as Hn <-. destruct num as [n|].
  { injection H as <- _. intros k [= <-]. by eapply parsePositiveInt_int. }
  apply proc_bind_inv in H as (sc & w2 & _ & H). apply proc_bind_inv in H as (gl & w3 & _ & H).
  destruct (match sc with Some r => Some r | None => gl end) as [chosen|]; [|done]. cbv zeta in H.
  destruct (is_type _ _).
  - destruct (str_empty _); [by injection H as <- _|]. by eapply IH.
  - apply proc_bind_inv in H as (r & w4 & Hr & H). injection H as <- _. injection Hr as Hr _.
    destruct r; [|done]. by eapply fieldFromStructuredDict_attribute.
Qed.

Lemma resolveField_attribute host fs f t w ref w' : resolveField host fs f t w = (Ok ref, w') → attribute_int ref.
Proof.
  intros (o & w1 & Ho & H)%proc_bind_inv. injection H as <- _. destruct o; [|done]. by eapply resolveFieldRec_attribute.
Qed.

(** [machine_step] applies the rule for the head of the code, [machine] all of them. *)
Ltac machine_step :=
  match goal with
  | |- safe (next _) _ => apply safe_next
  | |- safe (read_only _ _) _ => apply safe_read_only
  | |- safe (with_file _ _ _ _) _ => apply safe_with_file; intros ? ?
  | |- safe (with_file_else _ _ _ _) _ => apply safe_with_file_else; [|intros ? ?]
  | |- safe (on_fs_error _ _) _ => apply safe_on_fs_error
  | |- safe (on_std_error _ _) _ => apply safe_on_std_error
  | |- safe (on_lock_conflict _ _) _ => apply safe_on_lock_conflict
  | |- safe (throw _) _ => apply safe_throw
  | |- safe (fail _) _ => apply safe_fail
  | |- safe (push _) _ => apply safe_push; [done|eauto with gemini]
  | |- safe (mret _) _ => apply safe_ret; done
  | |- safe (gets _ ≫= _) _ => apply safe_gets_bind; intros ? ?
  | |- safe (modify _ ≫= _) _ => apply safe_modify_bind; [intros ? ?; eauto with gemini|]
  | |- safe (modify _) _ => apply safe_modify; [done|intros ? ?; eauto with gemini]
  | |- safe (lift ?o ≫= _) _ => apply (safe_bind _ _ (λ a, o = Ok a)); [by apply safe_lift|intros ? ?]
  | |- safe (on_fs_error _ _ ≫= _) _ => apply (safe_bind _ _ any); [|intros ? ?]
  | |- safe (on_world (resolveField _ _ _ _) ≫= _) _ =>
      apply (safe_bind _ _ attribute_int); [apply safe_on_world; intros ? ? ?; apply resolveField_attribute|intros ? ?]
  | |- safe (_ ≫= _) _ => eapply safe_bind; [solve [eauto with gemini]|cbn beta; intros ? ?]
  | |- safe (if _ then _ else _) _ => apply safe_if; intros ?
  | |- safe (match ?x with _ => _ end) _ => destruct x eqn:?
  | |- safe _ _ => solve [eauto with gemini]
  end.
Ltac machine := cbv zeta; repeat (machine_step; cbv zeta).

#[export] Hint Resolve value_ok_str value_ok_dbl value_ok_bool arithmeticResultValue_ok coerceToInt_ok int_of_value
  d_to_int_value seq_of_ok : gemini.
#[export] Hint Extern 1 (value_ok (VInt _)) => reflexivity : gemini.

(** A slot of an array holds a value in range. *)
Lemma slot_value_ok name v v' : value_ok v → slot_value name v = Ok v' → value_ok v'.
Proof.
  intros Hv. unfold slot_value. destruct (is_int_array name); [|by intros [= <-]].
  intros (z & Hz & ->)%outcome_fmap_inv. by apply coerceToInt_ok in Hz.
Qed.

Lemma outcome_mapM_inv {A B} (f : A → outcome B) l l' (P : B → Prop) :
  (∀ a b, a ∈ l → f a = Ok b → P b) → mapM f l = Ok l' → length l' = length l ∧ Forall P l'.
Proof.
  revert l'. induction l as [|a l IH]; intros l' Hf; [by intros [= <-]|]. cbn.
  intros (b & Hb & (k & Hk & Hl)%outcome_bind_inv)%outcome_bind_inv. injection Hl as <-.
  destruct (IH k) as [Hlen HP]; [intros x y Hx; apply Hf; set_solver|done|]. cbn. split; [congruence|].
  constructor; [|done]. eapply Hf; [|done]. set_solver.
Qed.

(** [machine_ok] for the array that a slot-by-slot copy makes. *)
Lemma mapM_array_ok {A} (f : A → outcome Value) l (l' k : list Value) : l' ≠ [] → length l = length l' →
  (∀ a v, a ∈ l → f a = Ok v → value_ok v) → mapM f l = Ok k → array_ok k.
Proof.
  intros Hne Hlen Hf Hk. destruct (outcome_mapM_inv f l k value_ok Hf Hk) as [Hl Hv]. split; [|done].
  intros ->. destruct l'; [done|]. cbn in *. congruence.
Qed.

Lemma int_rem_ok a b z : in_int a = true → in_int b = true → int_rem a b = Ok z → value_ok (VInt z).
Proof.
  unfold int_rem. intros Ha%in_int_spec Hb%in_int_spec. unfold INT_MIN, INT_MAX in *.
  destruct (_ && _) eqn:E; [done|]. intros [= <-]. apply in_int_spec. unfold INT_MIN, INT_MAX.
  destruct (decide (b = 0)) as [->|Hb0]; [by rewrite Zquot.Zrem_0_r|].
  pose proof (Z.rem_bound_abs a b Hb0). lia.
Qed.

Lemma parseIntLine_ok l n : parseIntLine l = Some n → value_ok (VInt n).
Proof.
  unfold value_ok, parseIntLine. destruct (str_empty _); [done|]. unfold stoi.
  repeat case_match; naive_solver.
Qed.

#[export] Hint Resolve int_rem_ok parseIntLine_ok : gemini.

Lemma put_var_ok n v r : value_ok v → machine_ok r →
  machine_ok (set_vars (<[n := v]> (r_vars r)) r) ∧ r_program (set_vars (<[n := v]> (r_vars r)) r) = r_program r.
Proof. intros Hv Hr. apply set_vars_ok; [|done]. apply map_Forall_insert_2; [done|apply Hr]. Qed.

Section instructions.
Context (env : Env) `{Henv : !SafeEnv env} (i : Instruction) (Hi : value_ok (operand i)).
#[local] Set Default Proof Using "Type*".
#[local] Hint Resolve Hi : gemini.

Lemma safe_exec_push : safe (exec_push i) any.
Proof. unfold exec_push. machine. Qed.

Lemma safe_exec_arith f g : safe (exec_arith f g) any.
Proof. unfold exec_arith. machine. Qed.

Lemma safe_exec_div : safe exec_div any.
Proof. unfold exec_div. machine. Qed.

Lemma safe_exec_mod : safe exec_mod any.
Proof. unfold exec_mod. machine. Qed.

Lemma safe_exec_compare ctx t : safe (exec_compare ctx t) any.
Proof. unfold exec_compare, bool_int. machine. Qed.

Lemma safe_exec_concat : safe exec_concat any.
Proof. unfold exec_concat. machine. Qed.

Lemma safe_exec_dup : safe exec_dup any.
Proof.
  intros r Hr. unfold exec_dup. pose proof (stack_ok r Hr) as Hs. destruct (r_stack r) as [|v s]; [done|].
  apply Forall_cons in Hs as [Hv _]. revert r Hr. change (safe (next (push v)) any). machine.
Qed.

Lemma safe_exec_print o : safe (exec_print o) any.
Proof. unfold exec_print. machine. Qed.

Lemma safe_exec_coerce o : safe (exec_coerce o) any.
Proof. unfold exec_coerce. machine. Qed.

Lemma safe_exec_input o : safe (exec_input o) any.
Proof. unfold exec_input. machine. Qed.

Lemma safe_exec_jump : safe (exec_jump i) any.
Proof. unfold exec_jump. machine. Qed.

Lemma safe_exec_call : safe (exec_call i) any.
Proof.
  unfold exec_call. machine. apply set_calls_ok; [|done]. constructor; [|by apply calls_ok].
  pose proof (ip_ok _ ltac:(eassumption)). lia.
Qed.

Lemma safe_exec_return : safe exec_return any.
Proof.
  intros r Hr. unfold exec_return. pose proof (calls_ok r Hr) as Hc. destruct (r_calls r) as [|ip c]; [done|].
  apply Forall_cons in Hc as [Hip Hc]. destruct (set_calls_ok c r Hc Hr) as [H1 Hp].
  destruct (set_ip_ok ip _ Hip H1) as [H2 Hp2]. split; [done|]. split; [done|congruence].
Qed.

Lemma safe_exec_for_setup : safe (exec_for_setup i) any.
Proof.
  unfold exec_for_setup. machine. apply set_fors_ok; [|done]. constructor; [|by apply fors_ok].
  pose proof (ip_ok _ ltac:(eassumption)). constructor; cbn; [done..| |lia]. by apply Z.eqb_neq.
Qed.

Lemma safe_exec_for_next : safe (exec_for_next i) any.
Proof.
  unfold exec_for_next. machine. apply (safe_bind _ _ any).
  { destruct (_ !! _); [by apply safe_lift|by apply safe_ret]. }
  assert (frame_ok f ∧ Forall frame_ok l) as [Hf Hl] by (apply Forall_cons; by rewrite <- Heql; apply fors_ok).
  intros c _. machine; [apply put_var_ok; eauto with gemini|by apply set_ip_ok; [apply Hf|]].
Qed.

(** *** Arrays and variables *)

Lemma safe_exec_dim : safe (exec_dim i) any.
Proof.
  unfold exec_dim. machine. apply safe_put_array. split; [|by apply Forall_replicate].
  apply Z.ltb_ge in H1. destruct (Z.to_nat _) eqn:E; [lia|done].
Qed.

Lemma safe_exec_load_arr : safe (exec_load_arr i) any.
Proof.
  unfold exec_load_arr. machine.
  pose proof (arrays_ok _ H1 _ _ Heqo) as [_ Hl]. by eapply Forall_lookup_1.
Qed.

Lemma safe_exec_store_arr : safe (exec_store_arr i) any.
Proof.
  unfold exec_store_arr. machine. apply safe_put_array. pose proof (arrays_ok _ H2 _ _ Heqo) as [Hne Hl].
  split; [|by apply Forall_insert].
  destruct l; [done|]. by destruct (Z.to_nat _).
Qed.

Lemma safe_exec_mat_init : safe (exec_mat_init i) any.
Proof.
  unfold exec_mat_init. machine. apply safe_put_array. pose proof (arrays_ok _ H1 _ _ Heqo) as [Hne Hl].
  eapply (mapM_array_ok _ _ l); [done|done| |done]. intros x v _. by apply slot_value_ok.
Qed.

Lemma safe_exec_mat_copy : safe (exec_mat_copy i) any.
Proof.
  unfold exec_mat_copy. machine. apply safe_put_array.
  apply negb_false_iff, Nat.eqb_eq in H1. pose proof (arrays_ok _ H0 _ _ Heqo0) as [Hne _].
  pose proof (arrays_ok _ H0 _ _ Heqo1) as [_ Hl]. eapply (mapM_array_ok _ l0 l); [done|done| |done].
  intros x v Hx. apply slot_value_ok. by eapply Forall_forall.
Qed.

Lemma safe_exec_mat_load : safe (exec_mat_load i) any.
Proof.
  unfold exec_mat_load. machine. apply safe_put_array. pose proof (arrays_ok _ H1 _ _ Heqo) as [Hne _].
  eapply (mapM_array_ok _ (seqZ 1 (Z.of_nat (length l))) l); [done| | |done]; [rewrite length_seqZ; lia|]. intros x v _. by apply slot_value_ok.
Qed.

Lemma safe_exec_mat_store : safe (exec_mat_store i) any.
Proof. unfold exec_mat_store. machine. Qed.

Lemma safe_exec_clear : safe exec_clear any.
Proof. unfold exec_clear. machine. apply (set_arrays_ok ∅ (set_vars ∅ r)); [done|]. by apply set_vars_ok. Qed.

Lemma safe_exec_number o : safe (exec_number o) any.
Proof. unfold exec_number. machine. by destruct (0 <? a), (a <? 0). Qed.

Lemma safe_exec_store_var : safe (exec_store_var i) any.
Proof. unfold exec_store_var. machine. by apply put_var_ok. Qed.

Lemma safe_exec_load_var : safe (exec_load_var env i) any.
Proof.
  unfold exec_load_var. machine.
  - destruct (e_sysvar env) eqn:E; [|done]. destruct (isReadOnlySystemVariableName a); [|done]. by eapply sysvar_values.
  - by eapply vars_ok.
Qed.

Lemma safe_exec_chain : safe exec_chain any.
Proof. unfold exec_chain. machine. Qed.

Lemma safe_exec_set_handler : safe (exec_set_handler i) any.
Proof.
  unfold exec_set_handler. machine. apply set_onerr_ok; [|done]. intros ip. destruct (Z.leb_spec a 0); [done|].
  intros [= <-]. lia.
Qed.
End instructions.

(** ** Language functions *)

(** A call that leaves a stack of values in range. *)
Definition keeps_values (m : proc FnState unit) : Prop := ∀ st, Forall value_ok (fn_stack st) →
  match m st with
  | (Undefined _, _) => True
  | (_, st') => Forall value_ok (fn_stack st')
  end.

Lemma stack_function_keeps n f cx st : StackFunction n f → context_ok cx → (n <= length (fn_stack st))%nat →
  Forall value_ok (fn_stack st) →
  match f cx st with (Undefined _, _) => True | (_, st') => Forall value_ok (fn_stack st') end.
Proof.
  intros Hf Hcx Hn Hst. specialize (Hf cx st Hcx Hn Hst). destruct (f cx st) as [[|e|w] st']; [| |done].
  - destruct Hf as (v & Hv & ->). constructor; [done|]. by apply Forall_drop.
  - destruct Hf as (k & _ & ->). by apply Forall_drop.
Qed.

Lemma to_int32_le z : 0 <= z → to_int32 z <= z.
Proof.
  intros Hz. unfold to_int32. destruct (decide (z < 2 ^ 31)); [rewrite Z.mod_small; lia|].
  pose proof (Z.mod_pos_bound (z + 2 ^ 31) (2 ^ 32)). lia.
Qed.

Section functions.
Context (env : Env) `{Henv : !SafeEnv env} (i : Instruction) (Hi : value_ok (operand i)).
#[local] Set Default Proof Using "Type*".
#[local] Hint Resolve Hi : gemini.

Lemma env_context_ok r : machine_ok r → context_ok (context_of env r).
Proof. intros Hr. constructor; cbn; [apply Hr|apply env_system_values|apply env_system_stack]. Qed.

Lemma dispatch_keeps reg ns id n cx : e_registry env = Some reg → context_ok cx → keeps_values (dispatch reg ns id n cx).
Proof.
  intros Hreg Hcx st Hst. unfold dispatch. destruct (namespaces reg !! ns) as [l|] eqn:Hl; [|done].
  destruct (functions l !! Z.to_nat id) as [e|] eqn:He; [|done]. destruct (fn e) as [f|] eqn:Hf; [|done].
  destruct (registered_functions reg ns l e f Hreg Hl) as [Hpos Hfun]; [by eapply list_elem_of_lookup_2|done|].
  destruct (Z.eqb_spec n (arity e)) as [->|]; [|done]. cbn [negb]. destruct (Z.ltb_spec (to_int32 (Z.of_nat (length (fn_stack st)))) (arity e)); [done|].
  pose proof (to_int32_le (Z.of_nat (length (fn_stack st)))).
  by apply (stack_function_keeps (Z.to_nat (arity e))); [|done|lia|].
Qed.

Lemma shim_keeps name cx : context_ok cx → keeps_values (invokeBuiltinShim name cx (e_registry env)).
Proof.
  intros Hcx st Hst. unfold invokeBuiltinShim. destruct (e_registry env) as [reg|] eqn:Hreg; [|done]. cbv zeta.
  destruct (functionIdForBuiltinName _ _); [|done]. case_bool_decide.
  - destruct (1 <? _); [done|]. by apply dispatch_keeps.
  - destruct (_ <? _); [done|]. by apply dispatch_keeps.
Qed.

Lemma safe_on_functions m : (∀ cx, context_ok cx → keeps_values (m cx)) → safe (on_functions env m) any.
Proof.
  intros Hm r Hr. unfold on_functions. specialize (Hm _ (env_context_ok r Hr) (mkFnState (r_stack r) (r_outside r)) (stack_ok r Hr)).
  destruct (m _ _) as [[|e|w] f]; [| |done].
  - split; [done|]. by apply set_fn_ok.
  - by apply set_fn_ok.
Qed.

Lemma safe_exec_builtin : safe (exec_builtin env i) any.
Proof. unfold exec_builtin. machine. apply safe_on_functions. intros cx. by apply shim_keeps. Qed.

Lemma safe_exec_call_func : safe (exec_call_func env i) any.
Proof. unfold exec_call_func. machine. apply safe_on_functions. intros cx. by apply dispatch_keeps. Qed.

(** ** Files *)

Lemma safe_exec_open : safe (exec_open env i) any.
Proof. unfold exec_open. machine. Qed.

Lemma safe_exec_open_try : safe (exec_open_try env i) any.
Proof. unfold exec_open_try. machine. Qed.

Lemma safe_exec_read o rd : safe (exec_read env o rd i) any.
Proof. unfold exec_read. machine. Qed.

Lemma safe_exec_read_try rd : safe (exec_read_try env rd i) any.
Proof. unfold exec_read_try. machine. Qed.

Lemma safe_exec_write o wr : safe (exec_write env o wr i) any.
Proof. unfold exec_write. machine. Qed.

Lemma safe_exec_write_try wr : safe (exec_write_try env wr i) any.
Proof.
  unfold exec_write_try. machine. apply safe_catch; [machine|]. intros e k He.
  assert (k = push (VInt 0)) as ->; [|machine].
  destruct e; cbn in He; try congruence. destruct (isRecordLockConflict what); congruence.
Qed.

Lemma safe_exec_release : safe (exec_release env i) any.
Proof. unfold exec_release. machine. Qed.

Lemma safe_push_next_record v h : safe (push_next_record env v h) any.
Proof. unfold push_next_record. machine. Qed.

#[local] Hint Resolve safe_push_next_record : gemini.

Lemma safe_exec_read_next : safe (exec_read_next env i) any.
Proof. unfold exec_read_next. machine. Qed.

Lemma safe_exec_read_next_try : safe (exec_read_next_try env i) any.
Proof. unfold exec_read_next_try. machine. Qed.

Lemma safe_dict_cell fs f t sr : safe (evaluateDictFieldCell env fs f t sr) any.
Proof. unfold evaluateDictFieldCell. machine. by apply safe_lift. Qed.
#[local] Hint Resolve safe_dict_cell : gemini.

Lemma safe_exec_read_v : safe (exec_read_v env i) any.
Proof. unfold exec_read_v. machine. Qed.

Lemma safe_exec_read_v_try : safe (exec_read_v_try env i) any.
Proof. unfold exec_read_v_try. machine. Qed.

Lemma safe_exec_extract : safe exec_extract any.
Proof. unfold exec_extract. machine. Qed.

Lemma safe_exec_resolve_dict : safe (exec_resolve_dict env i) any.
Proof. unfold exec_resolve_dict. machine. Qed.

Lemma safe_exec_write_v : safe (exec_write_v env i) any.
Proof. unfold exec_write_v. machine. Qed.

Lemma safe_exec_write_v_try : safe (exec_write_v_try env i) any.
Proof. unfold exec_write_v_try. machine. Qed.

Lemma safe_exec_close : safe (exec_close i) any.
Proof. unfold exec_close. machine. Qed.

#[local] Hint Resolve safe_exec_push safe_exec_arith safe_exec_div safe_exec_mod safe_exec_compare safe_exec_concat
  safe_exec_dup safe_exec_print safe_exec_coerce safe_exec_input safe_exec_jump safe_exec_call safe_exec_return
  safe_exec_for_setup safe_exec_for_next safe_exec_dim safe_exec_load_arr safe_exec_store_arr safe_exec_mat_init
  safe_exec_mat_copy safe_exec_mat_load safe_exec_mat_store safe_exec_clear safe_exec_number safe_exec_store_var
  safe_exec_load_var safe_exec_chain safe_exec_set_handler safe_exec_builtin safe_exec_call_func safe_exec_open
  safe_exec_open_try safe_exec_read safe_exec_read_try safe_exec_write safe_exec_write_try safe_exec_release
  safe_exec_read_next safe_exec_read_next_try safe_exec_read_v safe_exec_read_v_try safe_exec_extract
  safe_exec_resolve_dict safe_exec_write_v safe_exec_write_v_try safe_exec_close : gemini.

Lemma safe_exec : safe (exec env i) any.
Proof.
  unfold exec, exec_read_u, exec_read_u_try, exec_write_u, exec_write_u_try.
  destruct (op i) eqn:Ho; machine. apply set_ip_ok; [|done]. unfold psize. lia.
Qed.
End functions.

(** ** Steps and runs keep the types *)

(** Only HALT answers [Stopped]. *)
Definition goes_on (m : proc Runtime flow) : Prop := ∀ r r', m r ≠ (Ok Stopped, r').

Lemma goes_on_next m : goes_on (next m).
Proof. intros r r'. unfold next, mbind, proc_bind. by destruct (m r) as [[] ?]. Qed.

Lemma goes_on_bind {A} (m : proc Runtime A) k : (∀ a, goes_on (k a)) → goes_on (m ≫= k).
Proof. intros Hk r r'. unfold mbind, proc_bind. destruct (m r) as [[a| |] r1]; [apply Hk|done..]. Qed.

Lemma goes_on_ret f : f ≠ Stopped → goes_on (mret f).
Proof. intros Hf r r' [= ->]. done. Qed.

Lemma goes_on_throw e : goes_on (throw e).
Proof. by intros r r'. Qed.

Lemma goes_on_catch m h : goes_on m → goes_on h → goes_on (on_lock_conflict m h).
Proof.
  intros Hm Hh r r'. unfold on_lock_conflict, try_catch. specialize (Hm r). destruct (m r) as [[f|e|w] r1]; [by apply Hm| |done].
  destruct e; try done. destruct (isRecordLockConflict what); [apply Hh|done].
Qed.

Lemma goes_on_with_file env o v k : (∀ fs h, goes_on (k fs h)) → goes_on (with_file env o v k).
Proof.
  intros Hk. apply goes_on_bind. intros files. destruct (files !! v); [|apply goes_on_throw].
  destruct (e_fs env); [apply Hk|apply goes_on_throw].
Qed.

Lemma goes_on_conflict o : goes_on (handleRecordLockConflict o).
Proof. intros r r'. unfold handleRecordLockConflict. by destruct (r_onerr _). Qed.

Ltac go_on :=
  repeat match goal with
         | |- goes_on (next _) => apply goes_on_next
         | |- goes_on (with_file _ _ _ _) => apply goes_on_with_file; intros ? ?
         | |- goes_on (on_lock_conflict _ _) => apply goes_on_catch
         | |- goes_on (handleRecordLockConflict _) => apply goes_on_conflict
         | |- goes_on (throw _) => apply goes_on_throw
         | |- goes_on (fail _) => apply goes_on_throw
         | |- goes_on (mret _) => by apply goes_on_ret
         | |- goes_on (_ ≫= _) => apply goes_on_bind; intros ?
         | |- goes_on (read_only _ _) => unfold read_only
         | |- goes_on (if ?b then _ else _) => destruct b
         | |- goes_on (match ?x with _ => _ end) => destruct x
         end.

Lemma exec_goes_on env i : op i ≠ Halt → goes_on (exec env i).
Proof.
  intros Hh. unfold exec, exec_read_u, exec_read_u_try, exec_write_u, exec_write_u_try.
  destruct (op i) eqn:Ho; [done|..]; clear Hh;
    unfold exec_push, exec_arith, exec_div, exec_mod, exec_compare, exec_concat, exec_print, exec_coerce, exec_input,
      exec_for_setup, exec_dim, exec_load_arr, exec_store_arr, exec_mat_init, exec_mat_copy, exec_mat_load, exec_mat_store,
      exec_clear, exec_number, exec_store_var, exec_load_var, exec_set_handler, exec_builtin, exec_call_func, exec_open,
      exec_open_try, exec_read_try, exec_write_try, exec_release, exec_read_next, exec_read_next_try, exec_read_v,
      exec_read_v_try, exec_extract, exec_resolve_dict, exec_write_v, exec_write_v_try, exec_close,
      exec_jump, exec_call, exec_for_next, exec_chain, exec_read, exec_write, jump_to; go_on.
  - intros r r'. unfold exec_dup. destruct (r_stack r); [done|]. apply goes_on_next.
  - intros r r'. unfold exec_return. by destruct (r_calls r).
Qed.

Lemma exec_stops env i r r' : exec env i r = (Ok Stopped, r') → r_ip r' = psize r'.
Proof.
  destruct (decide (op i = Halt)) as [H|H]; [|by intros Hx%exec_goes_on]. unfold exec. rewrite H. by intros [= <-].
Qed.

Lemma step_safe env `{!SafeEnv env} r : machine_ok r →
  match step env r with
  | (Ok b, r') => machine_ok r' ∧ r_program r' = r_program r ∧ b = (r_ip r' <? psize r')
  | (Throw _, r') => machine_ok r' ∧ r_program r' = r_program r
  | (Undefined _, _) => True
  end.
Proof.
  intros Hr. unfold step. pose proof (ip_ok r Hr) as Hip. destruct (Z.leb_spec (psize r) (r_ip r)) as [Hle|Hlt].
  { split; [done|]. split; [done|]. symmetry. by apply Z.ltb_ge. }
  destruct (r_program r !! Z.to_nat (r_ip r)) as [i|] eqn:Hi.
  2: { apply lookup_ge_None in Hi. unfold psize in Hlt. lia. }
  assert (value_ok (operand i)) as Hop by (by eapply (Forall_lookup_1 _ _ _ _ (program_ok r Hr))).
  pose proof (safe_exec env i Hop r Hr) as H. unfold mbind at 1. unfold proc_bind.
  pose proof (exec_stops env i r) as Hstop.
  destruct (exec env i r) as [[f|e|w] r1]; [|exact H|exact I]. destruct H as (_ & H1 & Hp).
  destruct f.
  - destruct (set_ip_ok (r_ip r1 + 1) r1 ltac:(pose proof (ip_ok r1 H1); lia) H1) as [H2 Hp2].
    split; [exact H2|]. split; [|done]. etransitivity; [exact Hp2|exact Hp].
  - done.
  - split; [done|]. split; [done|]. symmetry. apply Z.ltb_ge. rewrite (Hstop r1 eq_refl). done.
Qed.

Lemma set_interrupted_ok b r : machine_ok r → machine_ok (set_interrupted b r) ∧ r_program (set_interrupted b r) = r_program r.
Proof. revert r. machine_fields. Qed.

(** What a run establishes from a state that satisfies the invariant. *)
Definition run_result (r0 : Runtime) (res : outcome (option unit) * Runtime) : Prop :=
  match res with
  | (Ok o, r) => machine_ok r ∧ r_program r = r_program r0 ∧ (o = Some tt → psize r <= r_ip r)
  | (Throw _, r) => machine_ok r ∧ r_program r = r_program r0
  | (Undefined _, _) => True
  end.

Lemma run_safe env `{!SafeEnv env} fuel : ∀ signal r, machine_ok r → run_result r (run env fuel signal r).
Proof.
  induction fuel as [|fuel IH]; intros signal r Hr; [done|]. cbn [run]. unfold mbind at 1. unfold proc_bind.
  pose proof (step_safe env r Hr) as Hs. destruct (step env r) as [[more|e|w] r1]; [|done..].
  destruct Hs as (H1 & Hp & Hmore). destruct more.
  - assert (∀ r2, machine_ok r2 → r_program r2 = r_program r1 →
      run_result r ((stop ← gets r_interrupted; if stop : bool then throw UserInterrupt else run env fuel (λ k, signal (S k))) r2)) as H.
    { intros r2 H2 Hp2. unfold gets, mbind, proc_bind. destruct (r_interrupted r2).
      - split; [done|congruence].
      - specialize (IH (λ k, signal (S k)) r2 H2). unfold run_result in *.
        destruct (run env fuel _ r2) as [[o| |] r3]; [|destruct IH; split; congruence|done].
        destruct IH as (? & ? & ?). split; [done|]. split; [congruence|done]. }
    destruct (signal 0%nat).
    + by apply H; apply set_interrupted_ok.
    + by apply H.
  - split; [done|]. split; [done|]. intros _. symmetry in Hmore. by apply Z.ltb_ge.
Qed.

Lemma loadProgram_ok prog lines r : Forall (λ i, value_ok (operand i)) prog → machine_ok (loadProgram prog lines r).
Proof. by constructor. Qed.

(** C5. The machine is type safe: a program whose [int] operands are [int]s, run
    from its start in an environment whose system variables, SYSTEM handler and
    language functions deliver [int]s in range, keeps the machine's invariant
    for as long as it runs, whatever it does and whenever it is interrupted,
    also when it ends in an exception: every [int] on the stack, in a variable,
    in an array or in a loop frame is a 32-bit [int]; arrays are not empty; loop
    steps are not zero; the status is an [int]; return addresses and the
    handler are not negative. The program is never changed, and a run that
    returns has reached its end. *)
Theorem machine_types env prog lines r fuel signal :
  SafeEnv env → Forall (λ i, value_ok (operand i)) prog →
  match run env fuel signal (loadProgram prog lines r) with
  | (Ok o, r') => machine_ok r' ∧ r_program r' = prog ∧ (o = Some tt → psize r' <= r_ip r')
  | (Throw _, r') => machine_ok r' ∧ r_program r' = prog
  | (Undefined _, _) => True
  end.
Proof. intros Henv Hp. exact (run_safe env fuel signal _ (loadProgram_ok prog lines r Hp)). Qed.

(** *** The environment with the BASIC functions *)

Definition basic_registry : LanguageRegistry := (registerBasicLanguage emptyRegistry).2.

Lemma basic_env_safe host fs plat : SafeEnv (mkEnv host fs None None (Some basic_registry) plat).
Proof.
  constructor; [done..|]. intros reg ns l e f [= <-] Hl (i & He)%list_elem_of_lookup Hf.
  change (namespaces basic_registry) with (<[kNamespaceId := mkRegistered (mkMeta "basic" "1") basic_functions]> (∅ : gmap Z RegisteredNamespace)) in Hl.
  apply lookup_insert_Some in Hl as [[_ <-]|[_ Hl]]; [|done].
  destruct (basic_stack_function i e He) as (g & Hg & Hpos & Hfun). split; [done|]. by simplify_eq.
Qed.

Definition ex_env : Env := mkEnv ex_host (Some (ex_fs "B")) None None (Some basic_registry) ex_platform.

Definition machine0 : Runtime := mkRuntime [] [] [] [] [] ∅ ∅ ∅ 0 false 0 None "" "" (mkOutside 0 None) ex_world.

(** [X = 2 + "3" ; PRINT LEN(X)], then a wrong instruction. *)
Definition ex_program : list Instruction :=
  [instr PushInt (VInt 2); instr PushStr (VStr "3"); instr Add (VInt 0); instr StoreVar (VStr "X");
   instr LoadVar (VStr "x"); instr InvokeBuiltin (VStr "LEN"); instr PrintVal (VInt 0); instr Add (VInt 0)].

Lemma machine_types_witness :
  let res := run ex_env 20 (λ _, false) (loadProgram ex_program [] machine0) in
  res.1 = Throw (RuntimeError "VM stack underflow") ∧ r_out res.2 = "1" ∧ r_vars res.2 !! "X" = Some (VInt 5) ∧ machine_ok res.2.
Proof.
  intros res. split; [vm_compute; reflexivity|]. split; [vm_compute; reflexivity|]. split; [vm_compute; reflexivity|].
  assert (res.1 = Throw (RuntimeError "VM stack underflow")) as H by (vm_compute; reflexivity).
  pose proof (machine_types ex_env ex_program [] machine0 20 (λ _, false) (basic_env_safe _ _ _)
    ltac:(repeat (apply Forall_cons_2; [exact I || reflexivity|]); apply Forall_nil_2)) as Ht.
  fold res in Ht. destruct res as [o r']. cbn in H |- *. subst o. exact (proj1 Ht).
Defined.
