(* ===== verification/VmRuns.v ===== *)
(** * Behaviour of the virtual machine's instructions and runs

    Record locks held by other sessions, FOR loops and interrupts. *)

From Stdlib Require Import Ascii String.
From S2P Require Import Prelude CLib Dbl DblFacts Records Locks FileSys Conv Bytecode Correl Dict Values Registry Vm VmProps.
From stdpp Require Import options.
Local Open Scope Z_scope.

(** ** Records locked by another session *)

(** File variable [v] is open on a file that is there, and another session
    holds the lock of its record [id]. *)
Record locked_by_other (env : Env) (r : Runtime) (v id : string) (fs : FileSystem) (h : FileHandle) (e : LockEntry) : Prop :=
  mk_locked {
    lk_fs : e_fs env = Some fs;
    lk_healthy : healthy (e_host env);
    lk_open : r_files r !! canonicalVariableName v = Some h;
    lk_file : isValidName (h_name h) = true;
    lk_record : isValidName id = true;
    lk_dir : is_Some (dir_entries (disk (r_world r)) (root fs, h_name h));
    lk_enabled : lockingEnabled fs = true;
    lk_entry : lock_lookup (h_name h) id (locks (r_world r)) = Some e;
    lk_other : ownerSessionId e ≠ lockSessionId fs
  }.

Lemma set_same_world r : set_world (r_world r) r = r.
Proof. by destruct r. Qed.

(** A world operation that throws and changes nothing. *)
Lemma on_world_throw {A} (m : proc World A) r x : m (r_world r) = (Throw x, r_world r) →
  on_world m r = (Throw x, r).
Proof. intros H. unfold on_world, zoom. rewrite H. cbn [fst snd]. by rewrite set_same_world. Qed.

Lemma conflict_recognised c : isRecordLockConflict (describeLockConflict c) = true.
Proof. reflexivity. Qed.

Lemma caught_conflict {A} (m h : proc Runtime A) r c : m r = (Throw (FileSystemError (describeLockConflict c)), r) →
  on_lock_conflict m h r = h r.
Proof. intros H. unfold on_lock_conflict, try_catch. by rewrite H, conflict_recognised. Qed.

Lemma bind_throw {S A B} (m : proc S A) (k : A → proc S B) s x s' : m s = (Throw x, s') → (m ≫= k) s = (Throw x, s').
Proof. intros H. unfold mbind, proc_bind. by rewrite H. Qed.

(** What the file instructions do on such a record: with an ON ERROR handler,
    [STATUS] 1 and a jump to it, without one the error ERR_RECORD_LOCKED. *)
Definition lock_trap (opname : string) (r : Runtime) : outcome flow * Runtime :=
  match r_onerr r with
  | Some ip => (Ok Jumped, set_ip ip (set_status 1 r))
  | None => (Throw (RuntimeError (opname +:+ ": ERR_RECORD_LOCKED")), set_status 1 r)
  end.

Lemma lock_trap_handler opname r : handleRecordLockConflict opname r = lock_trap opname r.
Proof. unfold handleRecordLockConflict, lock_trap. by destruct r as [????????????[]???]. Qed.

Section locked.
Context (env : Env) (r : Runtime) (v : string) (idv : Value) (rest : list Value).
Context (fs : FileSystem) (h : FileHandle) (e : LockEntry).
Context (Hlk : locked_by_other env r v (valueToString idv) fs h e).
#[local] Set Default Proof Using "Type*".

Lemma name_operand_instr o : name_operand (instr o (VStr v)) r = (Ok (canonicalVariableName v), r).
Proof. reflexivity. Qed.

Lemma with_file_locked {A} o (k : FileSystem → FileHandle → proc Runtime A) s :
  with_file env o (canonicalVariableName v) k (set_stack s r) = k fs h (set_stack s r).
Proof.
  unfold with_file, gets, mbind, proc_bind. cbn [r_files set_stack]. by rewrite (lk_open _ _ _ _ _ _ _ Hlk), (lk_fs _ _ _ _ _ _ _ Hlk).
Qed.

Lemma with_file_else_locked {A} (m : proc Runtime A) k s :
  with_file_else env (canonicalVariableName v) m k (set_stack s r) = k fs h (set_stack s r).
Proof.
  unfold with_file_else, gets, mbind, proc_bind. cbn [r_files set_stack].
  by rewrite (lk_open _ _ _ _ _ _ _ Hlk), (lk_fs _ _ _ _ _ _ _ Hlk).
Qed.

Lemma pop_text_at x s r' : r_stack r' = x :: s → pop_text r' = (Ok (valueToString x), set_stack s r').
Proof. intros H. unfold pop_text, mbind, proc_bind, pop. by rewrite H. Qed.

(** A reader, or a writer, that meets the lock. *)
Definition meets_lock {A} (m : proc World A) : Prop :=
  ∃ c, m (r_world r) = (Throw (FileSystemError (describeLockConflict c)), r_world r).

Lemma read_trapped o opname (rd : reader) : r_stack r = idv :: rest → meets_lock (rd fs (h_name h) (valueToString idv)) →
  exec_read env opname rd (instr o (VStr v)) r = lock_trap opname (set_stack rest r).
Proof.
  intros Hs [c Hc]. unfold exec_read. rewrite (proc_bind_ok _ _ _ _ _ (name_operand_instr o)).
  rewrite (proc_bind_ok _ _ _ _ _ (pop_text_at _ _ _ Hs)), with_file_locked, <- lock_trap_handler.
  eapply caught_conflict, bind_throw, on_world_throw, Hc.
Qed.

Lemma read_try_trapped o (rd : reader) : r_stack r = idv :: rest → meets_lock (rd fs (h_name h) (valueToString idv)) →
  exec_read_try env rd (instr o (VStr v)) r = (Ok Next, set_stack (VInt 0 :: VStr "" :: rest) r).
Proof.
  intros Hs [c Hc]. unfold exec_read_try, next. rewrite (proc_bind_ok _ _ r tt (set_stack (VInt 0 :: VStr "" :: rest) r)); [done|].
  rewrite (proc_bind_ok _ _ _ _ _ (name_operand_instr o)), (proc_bind_ok _ _ _ _ _ (pop_text_at _ _ _ Hs)), with_file_else_locked.
  erewrite caught_conflict; [reflexivity|]. eapply bind_throw, on_world_throw, Hc.
Qed.

Lemma write_trapped o opname (wr : writer) x : r_stack r = idv :: x :: rest →
  (∀ t, meets_lock (wr fs (h_name h) (makeRecord (valueToString idv) t))) →
  exec_write env opname wr (instr o (VStr v)) r = lock_trap opname (set_stack rest r).
Proof.
  intros Hs Hw. destruct (Hw (valueToString x)) as [c Hc]. unfold exec_write. rewrite (proc_bind_ok _ _ _ _ _ (name_operand_instr o)).
  rewrite (proc_bind_ok _ _ _ _ _ (pop_text_at _ _ _ Hs)).
  rewrite (proc_bind_ok _ _ _ _ _ (pop_text_at x rest (set_stack (x :: rest) r) eq_refl)).
  change (set_stack rest (set_stack (x :: rest) r)) with (set_stack rest r).
  rewrite with_file_locked, <- lock_trap_handler. eapply caught_conflict, bind_throw, bind_throw, on_world_throw, Hc.
Qed.

Lemma write_try_trapped o (wr : writer) x : r_stack r = idv :: x :: rest →
  (∀ t, meets_lock (wr fs (h_name h) (makeRecord (valueToString idv) t))) →
  exec_write_try env wr (instr o (VStr v)) r = (Ok Next, set_stack (VInt 0 :: rest) r).
Proof.
  intros Hs Hw. destruct (Hw (valueToString x)) as [c Hc]. unfold exec_write_try, next.
  rewrite (proc_bind_ok _ _ r tt (set_stack (VInt 0 :: rest) r)); [done|].
  rewrite (proc_bind_ok _ _ _ _ _ (name_operand_instr o)), (proc_bind_ok _ _ _ _ _ (pop_text_at _ _ _ Hs)).
  rewrite (proc_bind_ok _ _ _ _ _ (pop_text_at x rest (set_stack (x :: rest) r) eq_refl)).
  change (set_stack rest (set_stack (x :: rest) r)) with (set_stack rest r).
  rewrite with_file_else_locked. unfold try_catch.
  rewrite (bind_throw _ _ _ _ _ (on_world_throw _ (set_stack rest r) _ Hc)). reflexivity.
Qed.

Lemma locks_met : let rid := valueToString idv in let f := h_name h in
  meets_lock (read (e_host env) fs f rid) ∧ meets_lock (readU (e_host env) fs f rid) ∧
  (∀ t, meets_lock (write (e_host env) fs f (makeRecord rid t))) ∧ ∀ t, meets_lock (writeU (e_host env) fs f (makeRecord rid t)).
Proof.
  destruct Hlk. split_and!; intros; eexists.
  - by eapply read_locked.
  - by eapply readU_locked.
  - by eapply write_locked.
  - by eapply writeU_locked.
Qed.
End locked.

(** C34. A program never gets past another session's lock: while it is held,
    READ, READU, WRITE and WRITEU on the record take their arguments off the
    stack and go to the ON ERROR handler with STATUS 1, or, without a handler,
    throw ERR_RECORD_LOCKED; the forms with a THEN/ELSE push the failure answer
    instead. Nothing else changes: neither the disk nor the locks, the
    variables, the open files or the output. *)
Theorem locked_record_traps env r v idv x rest fs h e :
  locked_by_other env r v (valueToString idv) fs h e → r_stack r = idv :: x :: rest →
  let file_instr o := exec env (instr o (VStr v)) r in
  file_instr ReadRec = lock_trap "READ" (set_stack (x :: rest) r) ∧
  file_instr ReadRecU = lock_trap "READU" (set_stack (x :: rest) r) ∧
  file_instr WriteRec = lock_trap "WRITE" (set_stack rest r) ∧
  file_instr WriteRecU = lock_trap "WRITEU" (set_stack rest r) ∧
  file_instr ReadRecTry = (Ok Next, set_stack (VInt 0 :: VStr "" :: x :: rest) r) ∧
  file_instr ReadRecUTry = (Ok Next, set_stack (VInt 0 :: VStr "" :: x :: rest) r) ∧
  file_instr WriteRecTry = (Ok Next, set_stack (VInt 0 :: rest) r) ∧
  file_instr WriteRecUTry = (Ok Next, set_stack (VInt 0 :: rest) r).
Proof.
  intros Hlk Hs file_instr. destruct (locks_met env r v idv fs h e Hlk) as (Hrd & Hru & Hwr & Hwu).
  split_and!; cbn; unfold exec_read_u, exec_read_u_try, exec_write_u, exec_write_u_try.
  - by eapply read_trapped.
  - by eapply read_trapped.
  - by eapply write_trapped.
  - by eapply write_trapped.
  - by eapply read_try_trapped.
  - by eapply read_try_trapped.
  - by eapply write_try_trapped.
  - by eapply write_try_trapped.
Qed.

(** A session [B] that reads and writes record X of file F, locked by session [A]. *)
Definition ex_locked : Runtime :=
  mkRuntime [] [] [VStr "X"; VStr "text"] [] [] ∅ ∅ {["FV" := open_handle (ex_fs "B") "F"]} 0 false 0 (Some 7) "" "" (mkOutside 0 None) ex_world.

Lemma locked_record_traps_witness :
  exec ex_env (instr ReadRec (VStr "fv")) ex_locked =
    (Ok Jumped, set_ip 7 (set_status 1 (set_stack [VStr "text"] ex_locked))) ∧
  exec ex_env (instr WriteRecTry (VStr "fv")) ex_locked = (Ok Next, set_stack [VInt 0] ex_locked).
Proof.
  assert (locked_by_other ex_env ex_locked "fv" "X" (ex_fs "B") (open_handle (ex_fs "B") "F") (mkEntry "A" ReadU 0)) as H.
  { constructor; first [exact ex_healthy|by vm_compute|by eexists]. }
  pose proof (locked_record_traps ex_env ex_locked "fv" (VStr "X") (VStr "text") [] (ex_fs "B") _ _ H eq_refl)
    as (Hr & _ & _ & _ & _ & _ & Hw & _).
  split; [exact Hr|exact Hw].
Defined.

(** ** Sequences of steps *)

Definition steps (env : Env) : Runtime → Runtime → Prop := rtc (λ r r', ∃ more, step env r = (Ok more, r')).

(** The machine is at instruction [i]. *)
Definition at_instr (r : Runtime) (i : Instruction) : Prop := 0 <= r_ip r ∧ r_program r !! Z.to_nat (r_ip r) = Some i.

Lemma step_at env r i : at_instr r i → step env r =
  (f ← exec env i;
   match f with
   | Next => modify (λ r, set_ip (r_ip r + 1) r);; gets (λ r, r_ip r <? psize r)
   | Jumped => gets (λ r, r_ip r <? psize r)
   | Stopped => mret false
   end) r.
Proof.
  intros [H0 Hi]. pose proof (lookup_lt_Some _ _ _ Hi). unfold step.
  rewrite (proj2 (Z.leb_gt _ _)) by (unfold psize; lia). by rewrite Hi.
Qed.

Lemma steps_next env r i r' : at_instr r i → exec env i r = (Ok Next, r') → steps env r (set_ip (r_ip r' + 1) r').
Proof.
  intros Hi He. apply rtc_once. eexists. rewrite (step_at env r i Hi), (proc_bind_ok _ _ _ _ _ He). reflexivity.
Qed.

Lemma steps_jump env r i r' : at_instr r i → exec env i r = (Ok Jumped, r') → steps env r r'.
Proof.
  intros Hi He. apply rtc_once. eexists. rewrite (step_at env r i Hi), (proc_bind_ok _ _ _ _ _ He). reflexivity.
Qed.

Lemma exec_load_var_at env n v r : isReadOnlySystemVariableName (canonicalVariableName n) = false →
  r_vars r !! canonicalVariableName n = Some v →
  exec env (instr LoadVar (VStr n)) r = (Ok Next, set_stack (v :: r_stack r) r).
Proof.
  intros Hro Hv. cbn [exec op instr]. unfold exec_load_var, next.
  change (name_operand (instr LoadVar (VStr n))) with (mret (canonicalVariableName n) : proc Runtime string).
  unfold gets, mbind, proc_bind. cbn [mret proc_ret]. unfold proc_ret. rewrite Hro.
  by destruct (e_sysvar env); rewrite Hv.
Qed.

(** ** FOR loops *)

(** The values a loop from [a] to [b] by [s] goes through: the body runs for
    [a], and then as long as the next value is not past [b]. *)
Definition iterations (a b s : Z) : Z := 1 + Z.max 0 ((b - a) / s).

Lemma iterations_pos a b s : 1 <= iterations a b s.
Proof. unfold iterations. lia. Qed.

(** A quotient by a negative step is the quotient of the distances. *)
Lemma iterations_neg a b s : iterations a b s = iterations (- a) (- b) (- s).
Proof.
  unfold iterations. f_equal. f_equal. destruct (decide (s = 0)) as [->|Hs]; [by rewrite !Z.div_0_r|].
  rewrite <- Z.div_opp_opp by lia. f_equal. lia.
Qed.

Lemma iterations_up a b s : 0 < s →
  iterations a b s = if b <? a + s then 1 else 1 + iterations (a + s) b s.
Proof.
  intros Hs. unfold iterations. destruct (Z.ltb_spec b (a + s)).
  - pose proof (Z.div_lt_upper_bound (b - a) s 1 Hs). lia.
  - replace (b - a) with (b - (a + s) + 1 * s) by lia. rewrite Z.div_add by lia.
    pose proof (Z.div_pos (b - (a + s)) s). lia.
Qed.

Lemma iterations_next a b s : s ≠ 0 →
  iterations a b s = if (if 0 <? s then b <? a + s else a + s <? b) then 1 else 1 + iterations (a + s) b s.
Proof.
  intros Hs. destruct (Z.ltb_spec 0 s); [by apply iterations_up|].
  rewrite (iterations_neg a), (iterations_neg (a + s)), iterations_up by lia.
  replace (- a + - s) with (- (a + s)) by lia. by destruct (Z.ltb_spec (- b) (- (a + s))), (Z.ltb_spec (a + s) b); try lia.
Qed.

Lemma iterations_last a b s : s ≠ 0 → (if 0 <? s then b <? a + s else a + s <? b) = true → iterations a b s = 1.
Proof. intros Hs H. by rewrite iterations_next, H. Qed.

Lemma iterations_more a b s : s ≠ 0 → (if 0 <? s then b <? a + s else a + s <? b) = false →
  iterations a b s = 1 + iterations (a + s) b s.
Proof. intros Hs H. by rewrite iterations_next, H. Qed.

(** The machine with the value [n] in the loop variable, at instruction [ip]. *)
Definition with_loop_var (v : string) (n ip : Z) (r : Runtime) : Runtime :=
  set_ip ip (set_vars (<[v := VInt n]> (r_vars r)) r).

Section for_loop.
Context (env : Env) (prog : list Instruction) (v : string) (p q : Z) (b s : Z) (outer : list ForFrame).

(** FOR_SETUP is at [p], the body from [p + 1] to [q - 1], FOR_NEXT at [q]. *)
Context (Hp : 0 <= p < q).
Context (Hsetup : prog !! Z.to_nat p = Some (instr ForSetup (VStr v))).
Context (Hnext : prog !! Z.to_nat q = Some (instr ForNext (VStr v))).
Context (Hs : in_int s = true) (Hs0 : s ≠ 0) (Hb : in_int b = true).

Abbreviation x := (canonicalVariableName v).
Context (Hro : isReadOnlySystemVariableName x = false).

(** The state in which an iteration starts, and the one its body ends in. *)
Definition iteration_at (ip i : Z) (r : Runtime) : Prop :=
  r_program r = prog ∧ r_ip r = ip ∧ r_vars r !! x = Some (VInt i) ∧ r_fors r = mkFrame x b s (p + 1) :: outer.

Context (Start Done : Z → Runtime → Prop).
Context (Hbody : ∀ i r, iteration_at (p + 1) i r → Start i r →
  ∃ r', steps env r r' ∧ iteration_at q i r' ∧ Done i r').
Context (Hagain : ∀ i r, Done i r → Start (i + s) (with_loop_var x (i + s) (p + 1) r)).
#[local] Set Default Proof Using "Type*".

(** FOR_NEXT, when the next value is an [int]. *)
Lemma for_next_at i r : iteration_at q i r → in_int i = true → in_int (i + s) = true →
  steps env r (if (if 0 <? s then b <? i + s else i + s <? b)
               then set_ip (q + 1) (set_fors outer (set_vars (<[x := VInt (i + s)]> (r_vars r)) r))
               else with_loop_var x (i + s) (p + 1) r).
Proof.
  intros (Hpr & Hip & Hv & Hf) Hi Hn.
  assert (at_instr r (instr ForNext (VStr v))) as Hat by (split; [lia|by rewrite Hpr, Hip]).
  assert (exec env (instr ForNext (VStr v)) r =
    (if (if 0 <? s then b <? i + s else i + s <? b)
     then (Ok Next, set_fors outer (set_vars (<[x := VInt (i + s)]> (r_vars r)) r))
     else (Ok Jumped, with_loop_var x (i + s) (p + 1) r))) as He.
  { cbn [exec op instr]. unfold exec_for_next. change (name_operand (instr ForNext (VStr v))) with (mret x : proc Runtime string).
    unfold gets, lift, mbind, proc_bind. cbn [mret proc_ret]. rewrite Hf. cbn [varName fstep limit bodyIP].
    rewrite String.eqb_refl, andb_false_r. cbn [negb andb]. unfold proc_ret. rewrite Hv, coerceToInt_int by done. rewrite int_of_id by done.
    unfold read_only. rewrite Hro. destruct (if 0 <? s then _ else _); reflexivity. }
  destruct (if 0 <? s then _ else _).
  - replace (q + 1) with (r_ip (set_fors outer (set_vars (<[x := VInt (i + s)]> (r_vars r)) r)) + 1) by (cbn; lia).
    by eapply steps_next.
  - by eapply steps_jump.
Qed.

Lemma loop_runs k : ∀ i r, iterations i b s = Z.of_nat k → iteration_at (p + 1) i r → Start i r → in_int i = true →
  in_int (i + iterations i b s * s) = true →
  ∃ r', let last := i + (iterations i b s - 1) * s in iteration_at q last r' ∧ Done last r' ∧
    steps env r (set_ip (q + 1) (set_fors outer (set_vars (<[x := VInt (last + s)]> (r_vars r')) r'))).
Proof.
  induction k as [|k IH]; intros i r Hk Hat Hst Hi Hlast; [unfold iterations in Hk; lia|].
  destruct (Hbody i r Hat Hst) as (r1 & H1 & Hat1 & Hd1).
  assert (in_int (i + s) = true) as Hn.
  { apply in_int_spec. apply in_int_spec in Hi, Hlast. pose proof (iterations_pos i b s). nia. }
  pose proof (for_next_at i r1 Hat1 Hi Hn) as Hstep.
  destruct (if 0 <? s then b <? i + s else i + s <? b) eqn:Hpast.
  - rewrite (iterations_last i b s Hs0 Hpast). exists r1. replace (i + (1 - 1) * s) with i by lia.
    split; [done|]. split; [done|]. by etransitivity.
  - rewrite (iterations_more i b s Hs0 Hpast) in Hk, Hlast |- *. destruct Hat1 as (Hp1 & _ & _ & Hf1).
    destruct (IH (i + s) (with_loop_var x (i + s) (p + 1) r1)) as (r2 & Hat2 & Hd2 & H2); [lia| |by apply Hagain|done| |].
    + split; [done|]. split; [done|]. split; [|done]. cbn. by rewrite lookup_insert_eq.
    + by replace (i + s + iterations (i + s) b s * s) with (i + (1 + iterations (i + s) b s) * s) by lia.
    + exists r2. replace (i + (1 + iterations (i + s) b s - 1) * s) with (i + s + (iterations (i + s) b s - 1) * s) by lia.
      split; [done|]. split; [done|]. etransitivity; [done|]. by etransitivity.
Qed.

(** The step of FOR_SETUP. *)
Lemma for_setup_at r rest : r_program r = prog → r_ip r = p → r_stack r = VInt s :: VInt b :: rest → r_fors r = outer →
  steps env r (set_ip (p + 1) (set_fors (mkFrame x b s (p + 1) :: outer) (set_stack rest r))).
Proof.
  intros Hpr Hip Hst Hf.
  replace (p + 1) with (r_ip (set_fors (mkFrame x b s (p + 1) :: outer) (set_stack rest r)) + 1) at 1 by (cbn; lia).
  eapply (steps_next env r (instr ForSetup (VStr v))); [split; [lia|by rewrite Hpr, Hip]|].
  cbn [exec op instr]. unfold exec_for_setup, next. change (name_operand (instr ForSetup (VStr v))) with (mret x : proc Runtime string).
  unfold pop_coerced, pop, lift, mbind, proc_bind. cbn [mret proc_ret]. unfold proc_ret. rewrite Hst. rewrite coerceToInt_int by done.
  cbn [r_stack set_stack]. rewrite coerceToInt_int by done. rewrite (proj2 (Z.eqb_neq _ _) Hs0).
  unfold modify. cbn. by rewrite Hip, Hf.
Qed.
End for_loop.

(** C35. FOR loops terminate and run the right number of times: from FOR_SETUP
    with limit [b] and step [s] on the stack and [a] in the variable, a body that
    always reaches FOR_NEXT with the loop variable and the loop stack as it
    found them is run exactly [iterations a b s] times, on a, a + s, ...; then
    the loop's frame is gone, the variable holds the first value past the limit
    and execution continues after FOR_NEXT. The body is run once even when [a]
    is past [b]. The one condition is that the value past the limit is an [int]
    (the addition is undefined otherwise). *)
Theorem for_loop_total env prog v p q a b s rest outer (Start Done : Z → Runtime → Prop) r :
  let x := canonicalVariableName v in
  let n := iterations a b s in
  0 <= p < q → prog !! Z.to_nat p = Some (instr ForSetup (VStr v)) → prog !! Z.to_nat q = Some (instr ForNext (VStr v)) →
  in_int s = true → s ≠ 0 → in_int b = true → isReadOnlySystemVariableName x = false →
  (∀ i r, iteration_at prog v p b s outer (p + 1) i r → Start i r →
     ∃ r', steps env r r' ∧ iteration_at prog v p b s outer q i r' ∧ Done i r') →
  (∀ i r, Done i r → Start (i + s) (with_loop_var x (i + s) (p + 1) r)) →
  r_program r = prog → r_ip r = p → r_stack r = VInt s :: VInt b :: rest → r_vars r !! x = Some (VInt a) → r_fors r = outer →
  Start a (set_ip (p + 1) (set_fors (mkFrame x b s (p + 1) :: outer) (set_stack rest r))) →
  in_int a = true → in_int (a + n * s) = true →
  ∃ r', Done (a + (n - 1) * s) r' ∧ iteration_at prog v p b s outer q (a + (n - 1) * s) r' ∧
    steps env r (set_ip (q + 1) (set_fors outer (set_vars (<[x := VInt (a + n * s)]> (r_vars r')) r'))).
Proof.
  intros x n Hp Hsetup Hnext Hs Hs0 Hb Hro Hbody Hagain Hpr Hip Hst Hv Hf Hstart Ha Hlast.
  pose proof (for_setup_at env prog v p q b s outer Hp Hsetup Hnext Hs Hs0 Hb Hro Start Done Hbody Hagain r rest Hpr Hip Hst Hf) as Hset.
  destruct (loop_runs env prog v p q b s outer Hp Hsetup Hnext Hs Hs0 Hb Hro Start Done Hbody Hagain (Z.to_nat n) a
    (set_ip (p + 1) (set_fors (mkFrame x b s (p + 1) :: outer) (set_stack rest r)))) as (r' & Hat & Hd & Hrun).
  - pose proof (iterations_pos a b s). fold n in H |- *. lia.
  - done.
  - done.
  - done.
  - done.
  - fold n in Hat, Hd, Hrun. exists r'. split; [done|]. split; [done|].
    replace (a + n * s) with (a + (n - 1) * s + s) by lia. by etransitivity.
Qed.

(** [FOR I = 1 TO 8 STEP 2 : PRINT I : NEXT I] *)
Definition ex_for : list Instruction :=
  [instr ForSetup (VStr "I"); instr LoadVar (VStr "I"); instr PrintVal (VInt 0); instr ForNext (VStr "I")].

Definition ex_for_start : Runtime :=
  set_stack [VInt 2; VInt 8] (set_vars {["I" := VInt 1]} (loadProgram ex_for [] machine0)).

Fixpoint odds (k : nat) : string := match k with O => "" | S k' => odds k' +:+ to_string (1 + 2 * Z.of_nat k') end.

Lemma for_loop_total_witness :
  ∃ r, steps ex_env ex_for_start r ∧ r_out r = "1357" ∧ r_vars r !! "I" = Some (VInt 9) ∧ r_ip r = 4 ∧ r_fors r = [].
Proof.
  destruct (for_loop_total ex_env ex_for "I" 0 3 1 8 2 [] []
    (λ i r, ∃ k, i = 1 + 2 * Z.of_nat k ∧ r_out r = odds k) (λ i r, ∃ k, i = 1 + 2 * Z.of_nat k ∧ r_out r = odds (S k))
    ex_for_start) as (r' & (k & Hk & Hout) & _ & Hrun); try reflexivity; try done.
  - intros i r (Hpr & Hip & Hv & Hf) (k & -> & Hout).
    exists (set_ip 3 (set_out (r_out r +:+ to_string (1 + 2 * Z.of_nat k)) r)). split_and!.
    + etransitivity.
      * eapply (steps_next _ r); [split; [lia|by rewrite Hpr, Hip]|]. by apply exec_load_var_at.
      * apply rtc_once. eexists. rewrite (step_at _ _ (instr PrintVal (VInt 0))) by (split; cbn; [lia|by rewrite Hpr, Hip]).
        cbn. by rewrite Hip.
    + done.
    + by exists k; split; [|cbn; rewrite Hout].
  - intros i r (k & -> & Hout). exists (S k). split; [lia|done].
  - by exists 0%nat.
  - exists (set_ip 4 (set_fors [] (set_vars (<["I" := VInt 9]> (r_vars r')) r'))). split; [exact Hrun|].
    split; [|split; [by apply lookup_insert_eq|done]].
    change (7 = 1 + 2 * Z.of_nat k) in Hk. assert (k = 3%nat) as -> by lia. exact Hout.
Defined.
