(* ===== verification/BasicExpr.v ===== *)
(** * BASIC expressions

    The expression half of the BASIC compiler: the syntax tree ([BasicAst.h]),
    the tokenizer and parser ([BasicExpressionParser.cpp]) and the emitter of
    stack code ([ExpressionAstEmitter] of [BasicBytecodeEmitter.cpp]).

    A tree built by the parser has no null children, so the trees here have
    none; the source ranges of tree nodes, which nothing reads, are left out
    (those of tokens are kept: the parser compares them). Errors are [Bad]
    with the code's message; the instructions of an expression whose emission
    fails are dropped, as the caller clears the program then. The recursive
    descent takes fuel: [parse_fuel] calls are enough ([basic_parse_total]). *)

From Stdlib Require Import Ascii String.
From S2P Require Import Prelude CLib Dbl Records Conv Bytecode Correl Values Registry.
From stdpp Require Import options.
Local Open Scope Z_scope.

(** ** Results *)

Inductive checked (A : Type) := Good (a : A) | Bad (error : string) | NoFuel.
Arguments Good {_} _.
Arguments Bad {_} _.
Arguments NoFuel {_}.

#[global] Instance checked_eq_dec `{EqDecision A} : EqDecision (checked A).
Proof. solve_decision. Defined.

#[global] Instance checked_ret : MRet checked := @Good.

#[global] Instance checked_bind : MBind checked := λ A B f m,
  match m with Good a => f a | Bad e => Bad e | NoFuel => NoFuel end.

(** ** Names *)

Definition isalnum (c : ascii) : bool := isalpha c || isdigit c.

(* src/userland/basic/BasicCompileUtils.cpp:6-11 [uppercase] *)
Definition uppercase (s : string) : string := str_map toupper s.

(* src/userland/basic/BasicCompileUtils.cpp:13-16 [isReadonlySessionSystemVariable] *)
Definition isReadonlySessionSystemVariable (token : string) : bool :=
  bool_decide (uppercase token ∈ ["@USERNO"; "@ACCOUNT"; "@LOGNAME"; "@DEFDATA"]).

Definition is_suffix (c : ascii) : bool := Ascii.eqb c "$" || Ascii.eqb c "%".

(** All characters but a last $ or %, which a name of one character keeps. *)
Fixpoint name_body (s : string) : bool :=
  match s with
  | "" => true
  | String c "" => isalnum c || is_suffix c
  | String c s' => isalnum c && name_body s'
  end.

(* src/userland/basic/BasicCompileUtils.cpp:18-39 [isValidVariableName] *)
Definition isValidVariableName (token : string) : bool :=
  match token with
  | "" => false
  | String c rest => if Ascii.eqb c "@" then isReadonlySessionSystemVariable token else isalpha c && name_body rest
  end.

(* src/userland/basic/BasicBuiltinNames.h:18-25 [isBuiltinCallName] *)
Definition isBuiltinCallName (upper : string) : bool :=
  bool_decide (upper ∈ ["ABS"; "SGN"; "SEQ"; "LEN"; "TRIM"; "LCASE"; "UCASE"; "SPACE"; "INT"; "MOD"; "RND"; "SIN"; "COS";
                        "TAN"; "EXP"; "LOG"; "DATE"; "TIME"; "SYSTEM"; "INDEX"; "FIELD"; "STR"; "OCONV"; "ICONV"; "NUM";
                        "CONVERT"; "STATUS"]).

(* src/userland/basic/BasicBuiltinNames.h:28-57 [builtinArityBounds] *)
Definition builtinArityBounds (upper : string) : option (Z * Z) :=
  if bool_decide (upper ∈ ["DATE"; "TIME"; "STATUS"]) then Some (0, 0)
  else if bool_decide (upper = "RND") then Some (0, 1)
  else if bool_decide (upper = "MOD") then Some (2, 2)
  else if bool_decide (upper = "INDEX") then Some (2, 3)
  else if bool_decide (upper = "FIELD") then Some (3, 3)
  else if bool_decide (upper ∈ ["OCONV"; "ICONV"]) then Some (2, 2)
  else if bool_decide (upper = "CONVERT") then Some (3, 3)
  else if bool_decide (upper ∈ ["ABS"; "SGN"; "SEQ"; "LEN"; "TRIM"; "LCASE"; "UCASE"; "SPACE"; "INT"; "SIN"; "COS"; "TAN";
                                "EXP"; "LOG"; "SYSTEM"; "STR"; "NUM"]) then Some (1, 1)
  else None.

(** [ABS expects 1 to 1 argument(s), got 2] *)
Definition arity_error (name : string) (lo hi got : Z) : string :=
  name +:+ " expects " +:+ to_string lo +:+ " to " +:+ to_string hi +:+ " argument(s), got " +:+ to_string got.

(** ** Syntax trees *)

(** [UnaryOp] has the one operator [Negate]. *)
(* src/userland/basic/BasicAst.h:24-35 [BinaryOp] *)
Inductive BinaryOp :=
| OpAdd | OpSubtract | OpMultiply | OpDivide | OpEqual | OpNotEqual | OpLessThan | OpLessOrEqual | OpGreaterThan
| OpGreaterOrEqual.

#[global] Instance BinaryOp_eq_dec : EqDecision BinaryOp.
Proof. solve_decision. Defined.

(* src/userland/basic/BasicAst.h:37-108 [Expr] *)
#[warnings="-register-all"] Inductive Expr :=
| IntLiteralExpr (value : Z)
| FloatLiteralExpr (value : double)
| StringLiteralExpr (value : string)
| IdentifierExpr (name : string)
| NegateExpr (operand : Expr)
| BinaryExpr (op : BinaryOp) (left right : Expr)
| GroupedExpr (expression : Expr)
| SubscriptExpr (varName : string) (indexExpr : Expr)
| AttributeAccessExpr (varName : string) (attrExpr : Expr) (valueIndexExpr : option Expr)
| DictFieldExpr (token : string)
| FunctionCallExpr (name : string) (arguments : list Expr).

(** ** Tokens *)

(* src/userland/basic/BasicExpressionParser.cpp:17-36 [ExprTokenType] *)
Inductive ExprTokenType :=
| TokInt | TokFloat | TokString | TokIdent | TokPlus | TokMinus | TokStar | TokSlash | TokEq | TokNe | TokLt | TokLe
| TokGt | TokGe | TokLParen | TokRParen | TokComma | TokEnd.

#[global] Instance ExprTokenType_eq_dec : EqDecision ExprTokenType.
Proof. solve_decision. Defined.

(* src/userland/basic/BasicExpressionParser.cpp:38-45 [ExprToken] *)
Record ExprToken := mkExprToken {
  type : ExprTokenType;
  tlexeme : string;
  intValue : Z;
  rbegin : Z;
  rend : Z;
  strValue : string;
  floatValue : double
}.

Definition plain (t : ExprTokenType) (lexeme : string) (i : Z) : ExprToken :=
  mkExprToken t lexeme 0 i (i + str_size lexeme) "" d_zero.

(* src/userland/basic/BasicExpressionParser.cpp:47-63 [parseIntLiteral] *)
Definition parseIntLiteral (token : string) : option Z :=
  match strtol token with
  | Some (v, "") => if in_int v then Some v else None
  | _ => None
  end.

(* src/userland/basic/BasicExpressionParser.cpp:65-77 [parseFloatLiteral] *)
Definition parseFloatLiteral (token : string) : option double :=
  match strtod token with
  | Some (v, false, "") => Some v
  | _ => None
  end.

(** The fraction and the exponent of a number: the text read, and the rest.
    [None]: an exponent mark without digits. *)
(* src/userland/basic/BasicExpressionParser.cpp:119-126 [tokenizeExpression] *)
Definition fraction_part (s : string) : string * string :=
  match s with
  | String "." r => let '(ds, r') := span isdigit r in (String "." ds, r')
  | _ => ("", s)
  end.

(* src/userland/basic/BasicExpressionParser.cpp:128-143 [tokenizeExpression] *)
Definition exponent_part (s : string) : option (string * string) :=
  match s with
  | String c r =>
      if Ascii.eqb c "E" || Ascii.eqb c "e" then
        let '(sign, r1) := match r with
                           | String c1 r' => if Ascii.eqb c1 "+" || Ascii.eqb c1 "-" then (String c1 "", r') else ("", r)
                           | "" => ("", r)
                           end in
        let '(ds, r2) := span isdigit r1 in
        if str_empty ds then None else Some (String c (sign +:+ ds), r2)
      else Some ("", s)
  | "" => Some ("", s)
  end.

(* src/userland/basic/BasicExpressionParser.cpp:113-171 [tokenizeExpression] *)
Definition number_token (s : string) (i : Z) : checked (ExprToken * string) :=
  let '(ds, r1) := span isdigit s in
  let '(frac, r2) := fraction_part r1 in
  match exponent_part r2 with
  | None => Bad "Invalid float literal"
  | Some (ex, r3) =>
      let literal := ds +:+ frac +:+ ex in
      let e := i + str_size literal in
      if negb (str_empty frac && str_empty ex) then
        match parseFloatLiteral literal with
        | Some v => Good (mkExprToken TokFloat literal 0 i e "" v, r3)
        | None => Bad ("Invalid float literal '" +:+ literal +:+ "'")
        end
      else match parseIntLiteral literal with
           | Some v => Good (mkExprToken TokInt literal v i e "" d_zero, r3)
           | None => Bad ("Invalid integer literal '" +:+ literal +:+ "'")
           end
  end.

(* src/userland/basic/BasicExpressionParser.cpp:91-111 [tokenizeExpression] *)
Definition string_token (r : string) (i : Z) : checked (ExprToken * string) :=
  match str_split_at DQUOTE r with
  | None => Bad "Unterminated string literal"
  | Some (v, r') =>
      let lexeme := String DQUOTE (v +:+ String DQUOTE "") in
      Good (mkExprToken TokString lexeme 0 i (i + str_size lexeme) v d_zero, r')
  end.

(* src/userland/basic/BasicExpressionParser.cpp:173-192 [tokenizeExpression] *)
Definition system_token (r : string) (i : Z) : checked (ExprToken * string) :=
  match r with
  | String c _ =>
      if isalpha c then
        let '(w, r') := span isalnum r in
        let ident := String "@" w in
        if isReadonlySessionSystemVariable ident then Good (plain TokIdent ident i, r')
        else Bad ("Unknown system variable '" +:+ ident +:+ "'")
      else Bad "Invalid identifier after '@'"
  | "" => Bad "Invalid identifier after '@'"
  end.

(* src/userland/basic/BasicExpressionParser.cpp:194-208 [tokenizeExpression] *)
Definition ident_token (s : string) (i : Z) : ExprToken * string :=
  let '(w, r) := span isalnum s in
  match r with
  | String c r' => if is_suffix c then (plain TokIdent (w +:+ String c "") i, r') else (plain TokIdent w i, r)
  | "" => (plain TokIdent w i, r)
  end.

(** The one-character tokens. *)
(* src/userland/basic/BasicExpressionParser.cpp:234-262 [tokenizeExpression] *)
Definition char_token (c : ascii) : option ExprTokenType :=
  if Ascii.eqb c "+" then Some TokPlus else if Ascii.eqb c "-" then Some TokMinus
  else if Ascii.eqb c "*" then Some TokStar else if Ascii.eqb c "/" then Some TokSlash
  else if Ascii.eqb c "=" then Some TokEq else if Ascii.eqb c "<" then Some TokLt
  else if Ascii.eqb c ">" then Some TokGt else if Ascii.eqb c "(" then Some TokLParen
  else if Ascii.eqb c ")" then Some TokRParen else if Ascii.eqb c "," then Some TokComma
  else None.

(** An identifier that ends where the next token starts. *)
Definition adjacent_identifier (prev : option ExprToken) (i : Z) : bool :=
  match prev with Some t => bool_decide (type t = TokIdent) && (rend t =? i) | None => false end.

(** The token that starts with [c] at [i], when [c] is no space; [prev] is the
    token before it. *)
(* src/userland/basic/BasicExpressionParser.cpp:210-262 [tokenizeExpression] *)
Definition operator_token (c : ascii) (r : string) (i : Z) (prev : option ExprToken) : checked (ExprToken * string) :=
  let single := match char_token c with
                | Some t => Good (plain t (String c "") i, r)
                | None => Bad ("Unexpected token '" +:+ String c "'")
                end in
  match r with
  | String c1 r' =>
      if Ascii.eqb c "<" && Ascii.eqb c1 "=" then Good (plain TokLe "<=" i, r')
      else if Ascii.eqb c ">" && Ascii.eqb c1 "=" then Good (plain TokGe ">=" i, r')
      else if Ascii.eqb c "<" && Ascii.eqb c1 ">" then
        if adjacent_identifier prev i then Good (plain TokLt "<" i, r) else Good (plain TokNe "<>" i, r')
      else single
  | "" => single
  end.

Definition next_token (c : ascii) (r : string) (i : Z) (prev : option ExprToken) : checked (ExprToken * string) :=
  if Ascii.eqb c DQUOTE then string_token r i
  else if isdigit c then number_token (String c r) i
  else if Ascii.eqb c "@" then system_token r i
  else if isalpha c then Good (ident_token (String c r) i)
  else operator_token c r i prev.

(* src/userland/basic/BasicExpressionParser.cpp:79-266 [tokenizeExpression] *)
Fixpoint tokenize (fuel : nat) (s : string) (i : Z) (prev : option ExprToken) : checked (list ExprToken) :=
  match fuel with
  | O => NoFuel
  | S fuel' =>
      match s with
      | "" => Good [plain TokEnd "" i]
      | String c r =>
          if isspace c then tokenize fuel' r (i + 1) prev
          else
            '(t, r') ← next_token c r i prev;
            ts ← tokenize fuel' r' (rend t) (Some t);
            Good (t :: ts)
      end
  end.

(* src/userland/basic/BasicExpressionParser.cpp:79-266 [tokenizeExpression] *)
Definition tokenizeExpression (s : string) : checked (list ExprToken) := tokenize (S (String.length s)) s 0 None.

(** ** The parser *)

(** [tokens_[pos_]] and the tokens after it; the last token is the end token,
    which is never consumed. *)
Definition current (ts : list ExprToken) : ExprToken := default (plain TokEnd "" 0) (head ts).
Definition cur_type (ts : list ExprToken) : ExprTokenType := type (current ts).
Definition at_type (t : ExprTokenType) (ts : list ExprToken) : bool := bool_decide (cur_type ts = t).

(** The code's "if the current token is not [t], fail; else advance". *)
Definition accept (t : ExprTokenType) (error : string) (ts : list ExprToken) : checked (list ExprToken) :=
  if at_type t ts then Good (tail ts) else Bad error.

(* src/userland/basic/BasicExpressionParser.cpp:313-327 [ExpressionParser::toBinaryOp] *)
Definition toBinaryOp (t : ExprTokenType) : BinaryOp :=
  match t with
  | TokMinus => OpSubtract | TokStar => OpMultiply | TokSlash => OpDivide | TokEq => OpEqual | TokNe => OpNotEqual
  | TokLt => OpLessThan | TokLe => OpLessOrEqual | TokGt => OpGreaterThan | TokGe => OpGreaterOrEqual | _ => OpAdd
  end.

(* src/userland/basic/BasicExpressionParser.cpp:329-333 [ExpressionParser::isComparisonToken] *)
Definition isComparisonToken (t : ExprTokenType) : bool :=
  match t with TokEq | TokNe | TokLt | TokLe | TokGt | TokGe => true | _ => false end.

Definition unexpected (ts : list ExprToken) : string :=
  match cur_type ts with TokEnd => "empty expression" | _ => "Unexpected token '" +:+ tlexeme (current ts) +:+ "'" end.

(* src/userland/basic/BasicExpressionParser.cpp:342-616 [ExpressionParser] *)
Fixpoint parseComparison (fuel : nat) (ts : list ExprToken) : checked (Expr * list ExprToken) :=
  match fuel with
  | O => NoFuel
  | S n =>
      '(l, ts) ← parseAddSub n ts;
      if isComparisonToken (cur_type ts) then
        '(r, ts') ← parseAddSub n (tail ts);
        Good (BinaryExpr (toBinaryOp (cur_type ts)) l r, ts')
      else Good (l, ts)
  end
with parseAddSub (fuel : nat) (ts : list ExprToken) : checked (Expr * list ExprToken) :=
  match fuel with
  | O => NoFuel
  | S n => '(l, ts) ← parseMulDiv n ts; addsub_loop n l ts
  end
with addsub_loop (fuel : nat) (left : Expr) (ts : list ExprToken) : checked (Expr * list ExprToken) :=
  match fuel with
  | O => NoFuel
  | S n =>
      if at_type TokPlus ts || at_type TokMinus ts then
        '(r, ts') ← parseMulDiv n (tail ts);
        addsub_loop n (BinaryExpr (toBinaryOp (cur_type ts)) left r) ts'
      else Good (left, ts)
  end
with parseMulDiv (fuel : nat) (ts : list ExprToken) : checked (Expr * list ExprToken) :=
  match fuel with
  | O => NoFuel
  | S n => '(l, ts) ← parseUnary n ts; muldiv_loop n l ts
  end
with muldiv_loop (fuel : nat) (left : Expr) (ts : list ExprToken) : checked (Expr * list ExprToken) :=
  match fuel with
  | O => NoFuel
  | S n =>
      if at_type TokStar ts || at_type TokSlash ts then
        '(r, ts') ← parseUnary n (tail ts);
        muldiv_loop n (BinaryExpr (toBinaryOp (cur_type ts)) left r) ts'
      else Good (left, ts)
  end
with parseUnary (fuel : nat) (ts : list ExprToken) : checked (Expr * list ExprToken) :=
  match fuel with
  | O => NoFuel
  | S n =>
      if at_type TokMinus ts then '(e, ts) ← parseUnary n (tail ts); Good (NegateExpr e, ts)
      else parsePrimary n ts
  end
with parsePrimary (fuel : nat) (ts : list ExprToken) : checked (Expr * list ExprToken) :=
  match fuel with
  | O => NoFuel
  | S n =>
      let tok := current ts in
      match type tok with
      | TokInt => Good (IntLiteralExpr (intValue tok), tail ts)
      | TokFloat => Good (FloatLiteralExpr (floatValue tok), tail ts)
      | TokString => Good (StringLiteralExpr (strValue tok), tail ts)
      | TokIdent =>
          let ts := tail ts in
          if at_type TokLParen ts then
            let upper := str_map toupper (tlexeme tok) in
            if isBuiltinCallName upper then parseCall n upper (tail ts)
            else
              '(idx, ts) ← parseAddSub n (tail ts);
              ts ← accept TokRParen "Missing ')' in array subscript" ts;
              Good (SubscriptExpr (tlexeme tok) idx, ts)
          else if at_type TokLt ts && (rbegin (current ts) =? rend tok) then parseAttribute n (tlexeme tok) (tail ts)
          else Good (IdentifierExpr (tlexeme tok), ts)
      | TokLParen =>
          let ts := tail ts in
          if at_type TokRParen ts then Bad "empty expression"
          else
            '(e, ts) ← parseAddSub n ts;
            ts ← accept TokRParen "Missing ')'" ts;
            Good (GroupedExpr e, ts)
      | _ => Bad (unexpected ts)
      end
  end
with parseCall (fuel : nat) (upper : string) (ts : list ExprToken) : checked (Expr * list ExprToken) :=
  match fuel with
  | O => NoFuel
  | S n =>
      match builtinArityBounds upper with
      | None => Bad ("Internal error: missing arity for " +:+ upper)
      | Some (minArgs, maxArgs) =>
          '(args, ts) ←
            (if at_type TokRParen ts then
               if 0 <? minArgs then Bad (upper +:+ " requires an argument") else Good ([], ts)
             else parseArguments n upper ts);
          ts ← accept TokRParen ("Missing ')' after " +:+ upper +:+ " argument") ts;
          let got := Z.of_nat (length args) in
          if (got <? minArgs) || (maxArgs <? got) then Bad (arity_error upper minArgs maxArgs got)
          else Good (FunctionCallExpr upper args, ts)
      end
  end
with parseArguments (fuel : nat) (upper : string) (ts : list ExprToken) : checked (list Expr * list ExprToken) :=
  match fuel with
  | O => NoFuel
  | S n =>
      '(arg, ts) ← parseComparison n ts;
      if at_type TokComma ts then
        let ts := tail ts in
        if at_type TokRParen ts then Bad ("Trailing comma in " +:+ upper +:+ " argument list")
        else '(args, ts) ← parseArguments n upper ts; Good (arg :: args, ts)
      else Good ([arg], ts)
  end
with parseAttribute (fuel : nat) (var : string) (ts : list ExprToken) : checked (Expr * list ExprToken) :=
  match fuel with
  | O => NoFuel
  | S n =>
      if at_type TokComma ts || at_type TokGt ts || at_type TokEnd ts then Bad "Attribute index cannot be empty"
      else
        '(attr, ts) ← parseAddSub n ts;
        '(vi, ts) ←
          (if at_type TokComma ts then
             let ts := tail ts in
             if at_type TokGt ts || at_type TokEnd ts then Bad "Value index cannot be empty"
             else '(v, ts) ← parseAddSub n ts; Good (Some v, ts)
           else Good (None, ts));
        ts ← accept TokGt "Missing '>' in attribute access" ts;
        Good (AttributeAccessExpr var attr vi, ts)
  end.

(** Nine calls at most between two tokens. *)
Definition parse_fuel (ts : list ExprToken) : nat := 10 * length ts + 10.

(* src/userland/basic/BasicExpressionParser.cpp:274-294 [ExpressionParser::parse] *)
Definition parse_tokens (ts : list ExprToken) : checked Expr :=
  if (length ts =? 1)%nat && at_type TokEnd ts then Bad "empty expression"
  else
    '(e, ts) ← parseComparison (parse_fuel ts) ts;
    if at_type TokEnd ts then Good e else Bad ("Unexpected token '" +:+ tlexeme (current ts) +:+ "'").

(* src/userland/basic/BasicExpressionParser.cpp:620-631 [BasicExpressionParser::parse] *)
Definition parseExpression (s : string) : checked Expr := ts ← tokenizeExpression s; parse_tokens ts.

(** ** Emitting stack code *)

(* src/userland/basic/BasicBytecodeEmitter.cpp:15-17 [makeNoOperandInstruction] *)
Definition makeNoOperandInstruction (o : OpCode) : Instruction := instr o (VInt 0).

(* src/userland/basic/BasicBytecodeEmitter.cpp:21-23 [isStringVar] *)
Definition isStringVar (name : string) : bool := bool_decide (str_back name = Some "$"%char).

(* src/userland/basic/BasicBytecodeEmitter.cpp:25-27 [isIntVar] *)
Definition isIntVar (name : string) : bool := bool_decide (str_back name = Some "%"%char).

(* src/userland/basic/BasicBytecodeEmitter.cpp:30-35 [isArithmeticOp] *)
Definition isArithmeticOp (o : BinaryOp) : bool :=
  match o with OpAdd | OpSubtract | OpMultiply | OpDivide => true | _ => false end.

(* src/userland/basic/BasicBytecodeEmitter.cpp:37-40 [readVAttrNeedsDictResolve] *)
Definition readVAttrNeedsDictResolve (e : Expr) : bool :=
  match e with DictFieldExpr _ | StringLiteralExpr _ => true | _ => false end.

(* src/userland/basic/BasicBytecodeEmitter.cpp:68-82 [ExpressionAstEmitter::toOpCode] *)
Definition toOpCode (o : BinaryOp) : OpCode :=
  match o with
  | OpAdd => Add | OpSubtract => Sub | OpMultiply => Mul | OpDivide => Div | OpEqual => Eq | OpNotEqual => Ne
  | OpLessThan => Lt | OpLessOrEqual => Le | OpGreaterThan => Gt | OpGreaterOrEqual => Ge
  end.

(* src/userland/basic/BasicBytecodeEmitter.cpp:208-233 [builtinArgInArithmetic] *)
Definition builtinArgInArithmetic (name : string) (argIndex : Z) : bool :=
  if bool_decide (name = "INDEX") then argIndex =? 2
  else if bool_decide (name = "FIELD") then argIndex =? 2
  else if bool_decide (name = "STR") then true
  else if bool_decide (name = "OCONV") then false
  else if bool_decide (name ∈ ["ICONV"; "CONVERT"; "NUM"]) then false
  else if bool_decide (name ∈ ["SEQ"; "LEN"; "TRIM"; "LCASE"; "UCASE"]) then false
  else if bool_decide (name ∈ ["DATE"; "TIME"]) then false
  else true.

Definition two_argument_index (name : string) (got : Z) : bool := bool_decide (name = "INDEX") && (got =? 2).

(** What follows the arguments of a call: INDEX with two arguments gets a third. *)
(* src/userland/basic/BasicBytecodeEmitter.cpp:259-273 [ExpressionAstEmitter::emitBuiltinCall] *)
Definition call_code (name : string) (got : Z) : checked (list Instruction) :=
  let extra := if two_argument_index name got then [instr PushInt (VInt 1)] else [] in
  let effectiveArgCount := if two_argument_index name got then 3 else got in
  match functionIdForCall name effectiveArgCount with
  | None => Bad ("Internal error: unsupported builtin " +:+ name)
  | Some id => Good (extra ++ [mkInstr CallFunc (VInt 0) (mkCallFunc kNamespaceId id effectiveArgCount)])
  end.

(** [inArithmetic]: an operand of an arithmetic operator, where $ variables are
    refused. The case of [FunctionCallExpr] is [emitBuiltinCall] (lines 235-274). *)
(* src/userland/basic/BasicBytecodeEmitter.cpp:86-202 [ExpressionAstEmitter::emitNode] *)
Fixpoint emitNode (inArithmetic : bool) (e : Expr) : checked (list Instruction) :=
  match e with
  | IntLiteralExpr n => Good [instr PushInt (VInt n)]
  | FloatLiteralExpr d => Good [instr PushFlt (VDbl d)]
  | StringLiteralExpr s => Good [instr PushStr (VStr s)]
  | DictFieldExpr t =>
      if inArithmetic then Bad "DICT field tokens cannot be used in an arithmetic expression"
      else if str_empty t then Bad "DICT field token cannot be empty"
      else Good [instr PushStr (VStr t)]
  | IdentifierExpr name =>
      if negb (isValidVariableName name) then Bad ("Invalid variable name '" +:+ name +:+ "'")
      else if inArithmetic && isStringVar name
      then Bad ("String variable '" +:+ name +:+ "' cannot be used in an arithmetic expression")
      else Good [instr LoadVar (VStr (uppercase name))]
  | NegateExpr operand =>
      code ← emitNode true operand;
      Good (instr PushInt (VInt 0) :: code ++ [makeNoOperandInstruction Sub])
  | BinaryExpr o lhs rhs =>
      l ← emitNode (isArithmeticOp o) lhs;
      r ← emitNode (isArithmeticOp o) rhs;
      Good (l ++ r ++ [makeNoOperandInstruction (toOpCode o)])
  | GroupedExpr inner => emitNode inArithmetic inner
  | SubscriptExpr var index =>
      if negb (isValidVariableName var) then Bad ("Invalid array variable name '" +:+ var +:+ "'")
      else if inArithmetic && isStringVar var
      then Bad ("String array '" +:+ var +:+ "' cannot be used in an arithmetic expression")
      else code ← emitNode false index; Good (code ++ [instr LoadArr (VStr (uppercase var))])
  | AttributeAccessExpr var attr vi =>
      if negb (isValidVariableName var) then Bad ("Invalid variable name '" +:+ var +:+ "'")
      else
        a ← emitNode false attr;
        v ← (match vi with Some v => emitNode false v | None => Good [instr PushInt (VInt 0)] end);
        Good (instr LoadVar (VStr (uppercase var)) :: a ++ v ++ [makeNoOperandInstruction ExtractAttr])
  | FunctionCallExpr name args =>
      match builtinArityBounds name with
      | None => Bad ("Internal error: unsupported builtin " +:+ name)
      | Some (minArgs, maxArgs) =>
          let got := Z.of_nat (length args) in
          if (got <? minArgs) || (maxArgs <? got) then Bad (arity_error name minArgs maxArgs got)
          else
            code ← (fix emit_args (k : Z) (l : list Expr) : checked (list Instruction) :=
                      match l with
                      | [] => Good []
                      | a :: l' => c ← emitNode (builtinArgInArithmetic name k) a; cs ← emit_args (k + 1) l'; Good (c ++ cs)
                      end) 0 args;
            call ← call_code name got;
            Good (code ++ call)
      end
  end.

(* src/userland/basic/BasicBytecodeEmitter.cpp:48-56 [ExpressionAstEmitter::emit] *)
Definition emit_expr (e : Expr) : checked (list Instruction) := emitNode false e.

(** ** Parsing always comes to an end *)

(** [m], started on the tokens [ts], does not run out of fuel and consumes at
    least [k] of them. *)
Definition consumes {A} (k : nat) (ts : list ExprToken) (m : checked (A * list ExprToken)) : Prop :=
  match m with
  | Good (_, ts') => (length ts' + k <= length ts)%nat
  | Bad _ => True
  | NoFuel => False
  end.

Lemma tail_shorter ts : cur_type ts ≠ TokEnd → (S (length (tail ts)) = length ts)%nat.
Proof. by destruct ts. Qed.

Lemma at_type_tail t ts : at_type t ts = true → t ≠ TokEnd → (S (length (tail ts)) = length ts)%nat.
Proof. intros H%bool_decide_eq_true_1 Ht. apply tail_shorter. congruence. Qed.

Lemma comparison_tail ts : isComparisonToken (cur_type ts) = true → (S (length (tail ts)) = length ts)%nat.
Proof. intros H. apply tail_shorter. intros E. by rewrite E in H. Qed.

Lemma consumes_bind {A B} k1 k ts (m : checked (A * list ExprToken)) (f : A * list ExprToken → checked (B * list ExprToken)) :
  consumes k1 ts m → (∀ a ts', (length ts' + k1 <= length ts)%nat → consumes k ts (f (a, ts'))) → consumes k ts (m ≫= f).
Proof. intros Hm Hf. destruct m as [[a ts']| |]; [by apply Hf|done|done]. Qed.

Lemma consumes_accept {B} k t e ts0 ts (f : list ExprToken → checked (B * list ExprToken)) : t ≠ TokEnd →
  ((S (length (tail ts)) = length ts)%nat → consumes k ts0 (f (tail ts))) → consumes k ts0 (accept t e ts ≫= f).
Proof. intros Ht Hf. unfold accept. destruct (at_type t ts) eqn:E; [|done]. by apply Hf, (at_type_tail t). Qed.

Lemma consumes_weaken {A} k k' ts ts' (m : checked (A * list ExprToken)) :
  (length ts' + k' <= length ts + k)%nat → consumes k ts' m → consumes k' ts m.
Proof. intros H. destruct m as [[a r]| |]; cbn; [lia|done|done]. Qed.

(** The fuel each function needs on [ts], beyond ten for each token. *)
Record enough_fuel (n : nat) : Prop := mk_enough {
  f_primary ts : (10 * length ts + 1 <= n)%nat → consumes 1 ts (parsePrimary n ts);
  f_unary ts : (10 * length ts + 2 <= n)%nat → consumes 1 ts (parseUnary n ts);
  f_muldiv_loop l ts : (10 * length ts + 1 <= n)%nat → consumes 0 ts (muldiv_loop n l ts);
  f_muldiv ts : (10 * length ts + 3 <= n)%nat → consumes 1 ts (parseMulDiv n ts);
  f_addsub_loop l ts : (10 * length ts + 1 <= n)%nat → consumes 0 ts (addsub_loop n l ts);
  f_addsub ts : (10 * length ts + 4 <= n)%nat → consumes 1 ts (parseAddSub n ts);
  f_comparison ts : (10 * length ts + 5 <= n)%nat → consumes 1 ts (parseComparison n ts);
  f_arguments u ts : (10 * length ts + 6 <= n)%nat → consumes 1 ts (parseArguments n u ts);
  f_call u ts : (10 * length ts + 7 <= n)%nat → consumes 1 ts (parseCall n u ts);
  f_attribute v ts : (10 * length ts + 5 <= n)%nat → consumes 1 ts (parseAttribute n v ts)
}.

Ltac fuel_step IH :=
  match goal with
  | |- consumes _ _ (Bad _) => exact I
  | |- consumes _ _ (Good _) => cbn; lia
  | |- consumes _ _ (accept _ _ _ ≫= _) => apply consumes_accept; [done|intros ?]
  | |- consumes _ ?ts (_ ≫= _) => eapply (consumes_bind 1 _ ts); [|intros ?? ?; cbn beta iota]
  | |- consumes _ _ (let _ := _ in _) => cbv zeta
  | |- consumes _ _ (if at_type ?t ?ts then _ else _) =>
      let E := fresh in destruct (at_type t ts) eqn:E; [try (apply at_type_tail in E; [|done])|]
  | |- consumes _ _ (if at_type ?t ?ts || at_type ?t' ?ts then _ else _) =>
      let E := fresh in destruct (at_type t ts) eqn:E;
      [try (apply at_type_tail in E; [|done])|
       let E' := fresh in destruct (at_type t' ts) eqn:E'; [try (apply at_type_tail in E'; [|done])|]]; cbn [orb]
  | |- consumes _ _ (if at_type ?t ?ts && ?b then _ else _) =>
      let E := fresh in destruct (at_type t ts) eqn:E; cbn [andb]; [apply at_type_tail in E; [|done]; destruct b|]
  | |- consumes _ _ (if isComparisonToken (cur_type ?ts) then _ else _) =>
      let E := fresh in destruct (isComparisonToken (cur_type ts)) eqn:E; [apply comparison_tail in E|]
  | |- consumes _ _ (if ?b then _ else _) => destruct b
  | |- consumes _ _ (parsePrimary _ _) => eapply consumes_weaken; [|apply (f_primary _ IH)]; lia
  | |- consumes _ _ (parseUnary _ _) => eapply consumes_weaken; [|apply (f_unary _ IH)]; lia
  | |- consumes _ _ (muldiv_loop _ _ _) => eapply consumes_weaken; [|apply (f_muldiv_loop _ IH)]; lia
  | |- consumes _ _ (parseMulDiv _ _) => eapply consumes_weaken; [|apply (f_muldiv _ IH)]; lia
  | |- consumes _ _ (addsub_loop _ _ _) => eapply consumes_weaken; [|apply (f_addsub_loop _ IH)]; lia
  | |- consumes _ _ (parseAddSub _ _) => eapply consumes_weaken; [|apply (f_addsub _ IH)]; lia
  | |- consumes _ _ (parseComparison _ _) => eapply consumes_weaken; [|apply (f_comparison _ IH)]; lia
  | |- consumes _ _ (parseArguments _ _ _) => eapply consumes_weaken; [|apply (f_arguments _ IH)]; lia
  | |- consumes _ _ (parseCall _ _ _) => eapply consumes_weaken; [|apply (f_call _ IH)]; lia
  | |- consumes _ _ (parseAttribute _ _ _) => eapply consumes_weaken; [|apply (f_attribute _ IH)]; lia
  end.

Lemma expression_fuel_enough n : enough_fuel n.
Proof.
  induction n as [|n IH]; [split; lia|]. split; intros; cbn [parsePrimary parseUnary muldiv_loop parseMulDiv addsub_loop
    parseAddSub parseComparison parseArguments parseCall parseAttribute].
  - pose proof (tail_shorter ts) as Ht. unfold cur_type in Ht. destruct (type (current ts)) eqn:E; try exact I;
      specialize (Ht ltac:(done)); repeat fuel_step IH.
  - repeat fuel_step IH.
  - repeat fuel_step IH.
  - repeat fuel_step IH.
  - repeat fuel_step IH.
  - repeat fuel_step IH.
  - repeat fuel_step IH.
  - repeat fuel_step IH.
  - destruct (builtinArityBounds u) as [[lo hi]|]; [|exact I].
    apply (consumes_bind 0 _ ts); [|intros ?? ?; cbn beta iota]; repeat fuel_step IH.
  - repeat fuel_step IH.
Qed.

Lemma span_shorter p s w r : span p s = (w, r) → (String.length r <= String.length s)%nat.
Proof.
  revert w r. induction s as [|c s IH]; cbn; intros w r; [by intros [= <- <-]|].
  destruct (p c); [|by intros [= <- <-]]. destruct (span p s) as [w' r'] eqn:E. intros [= <- <-].
  specialize (IH _ _ eq_refl). lia.
Qed.

Lemma fraction_shorter s w r : fraction_part s = (w, r) → (String.length r <= String.length s)%nat.
Proof.
  unfold fraction_part. intros H. destruct s as [|c s]; [by injection H as <- <-|].
  assert ((∃ w' r', c = "."%char ∧ span isdigit s = (w', r') ∧ r = r') ∨ r = String c s) as [(w' & r' & -> & E & ->)| ->].
  - destruct (decide (c = "."%char)) as [->|Hc].
    + destruct (span isdigit s) as [w' r'] eqn:E. injection H as <- <-. by left; eauto.
    + right. destruct c as [[] [] [] [] [] [] [] []]; try (by injection H as <- <-). done.
  - apply span_shorter in E. cbn. lia.
  - done.
Qed.

Lemma exponent_shorter s w r : exponent_part s = Some (w, r) → (String.length r <= String.length s)%nat.
Proof.
  destruct s as [|c s]; cbn; [by intros [= <- <-]|]. destruct (_ || _); [|by intros [= <- <-]].
  set (p := match s with "" => _ | String _ _ => _ end). assert (String.length p.2 <= String.length s)%nat as Hp.
  { unfold p. destruct s as [|c1 s]; [done|]. destruct (_ || _); cbn; lia. }
  destruct p as [sign r1]. destruct (span isdigit r1) as [ds r2] eqn:E. destruct (str_empty ds); [done|].
  intros [= <- <-]. apply span_shorter in E. cbn in Hp. lia.
Qed.

Lemma str_split_at_shorter c s l r : str_split_at c s = Some (l, r) → (String.length r < String.length s)%nat.
Proof.
  revert l r. induction s as [|x s IH]; cbn; intros l r; [done|]. destruct (Ascii.eqb _ _); [intros [= <- <-]; lia|].
  destruct (str_split_at c s) as [[l' r']|]; [|done]. intros [= <- <-]. specialize (IH _ _ eq_refl). lia.
Qed.

(** Every token takes at least one character. *)
Lemma next_token_shorter c r i prev : isspace c = false →
  match next_token c r i prev with
  | Good (t, r') => (String.length r' <= String.length r)%nat
  | Bad _ => True
  | NoFuel => False
  end.
Proof.
  intros Hc. unfold next_token. destruct (Ascii.eqb c DQUOTE).
  { unfold string_token. destruct (str_split_at DQUOTE r) as [[v r']|] eqn:E; [|done]. apply str_split_at_shorter in E. lia. }
  destruct (isdigit c) eqn:Hd.
  { unfold number_token. cbn [span]. rewrite Hd. destruct (span isdigit r) as [ds r1] eqn:E1. apply span_shorter in E1.
    destruct (fraction_part r1) as [f r2] eqn:E2. apply fraction_shorter in E2.
    destruct (exponent_part r2) as [[ex r3]|] eqn:E3; [apply exponent_shorter in E3|done].
    cbv zeta. destruct (negb _); [destruct (parseFloatLiteral _)|destruct (parseIntLiteral _)]; [lia|done|lia|done]. }
  destruct (Ascii.eqb c "@").
  { unfold system_token. destruct r as [|c1 r']; [done|]. destruct (isalpha c1); [|done].
    destruct (span isalnum (String c1 r')) as [w r1] eqn:E. apply span_shorter in E. cbv zeta.
    by destruct (isReadonlySessionSystemVariable _). }
  destruct (isalpha c) eqn:Ha.
  { unfold ident_token. cbn [span]. unfold isalnum at 1. rewrite Ha. cbn [orb].
    destruct (span isalnum r) as [w r1] eqn:E. apply span_shorter in E. destruct r1 as [|c1 r1]; [cbn in *; lia|].
    destruct (is_suffix c1); cbn in *; lia. }
  unfold operator_token. cbv zeta. destruct r as [|c1 r]; [by destruct (char_token c)|].
  destruct (_ && Ascii.eqb c1 "="); [cbn; lia|]. destruct (_ && Ascii.eqb c1 "="); [cbn; lia|].
  destruct (_ && Ascii.eqb c1 ">"); [destruct (adjacent_identifier prev i); cbn; lia|]. by destruct (char_token c).
Qed.

Lemma tokenize_total fuel : ∀ s i prev, (String.length s < fuel)%nat → tokenize fuel s i prev ≠ NoFuel.
Proof.
  induction fuel as [|fuel IH]; intros s i prev Hf; [lia|]. cbn [tokenize]. destruct s as [|c r]; [done|]. cbn in Hf.
  destruct (isspace c) eqn:Hc; [apply IH; lia|]. pose proof (next_token_shorter c r i prev Hc) as Hn.
  destruct (next_token c r i prev) as [[t r']| |]; [|done|done]. cbn. specialize (IH r' (rend t) (Some t) ltac:(lia)).
  by destruct (tokenize _ _ _ _).
Qed.

(** The parser never runs out of the model's fuel. *)
Lemma parseExpression_ends s : parseExpression s ≠ NoFuel.
Proof.
  unfold parseExpression, tokenizeExpression. pose proof (tokenize_total (S (String.length s)) s 0 None ltac:(lia)) as Ht.
  destruct (tokenize _ _ _ _) as [ts| |]; [|done|done]. cbn. unfold parse_tokens. destruct (_ && _); [done|].
  pose proof (f_comparison _ (expression_fuel_enough (parse_fuel ts)) ts ltac:(unfold parse_fuel; lia)) as Hp.
  destruct (parseComparison _ _) as [[e ts']| |]; [|done|done]. cbn. by destruct (at_type _ _).
Qed.
