(* ===== verification/VmArith.v ===== *)
(** * Integer arithmetic of the virtual machine

    The five arithmetic instructions on two [int]s: exact results at 32 bits,
    and where there is none. *)

From Stdlib Require Import Ascii String Zquot.
From S2P Require Import Prelude CLib Dbl DblFacts DblDiv Records Locks FileSys Conv Bytecode Correl Dict Values Registry Vm VmProps BasicExpr.
From stdpp Require Import options.
Local Open Scope Z_scope.

Section arithmetic.
Context (env : Env) (r : Runtime) (x y : Z) (s : list Value).

(** The instruction replaces the operands by [z] when [z] fits an [int], and is
    undefined behaviour when it does not: it never pushes a wrapped value. *)
Definition computes_int (o : OpCode) (z : Z) : Prop :=
  if in_int z then exec env (makeNoOperandInstruction o) r = (Ok Next, set_stack (VInt z :: s) r)
  else ∃ why, (exec env (makeNoOperandInstruction o) r).1 = Undefined why.

Context (Hx : in_int x = true) (Hy : in_int y = true) (Hs : r_stack r = VInt y :: VInt x :: s).
#[local] Set Default Proof Using "Type*".

Lemma arith_int o f g : exec env (makeNoOperandInstruction o) = exec_arith f g → computes_int o (f x y).
Proof.
  intros He. unfold computes_int. rewrite He. unfold exec_arith, next, mbind, proc_bind, pop. rewrite Hs. cbn [r_stack set_stack].
  unfold lift, int_of. destruct (in_int (f x y)); [done|by eexists].
Qed.

Lemma div_int : y ≠ 0 → computes_int Div (Z.quot x y).
Proof.
  intros Hy0. pose proof Hx as Hxr. pose proof Hy as Hyr. apply in_int_spec in Hxr, Hyr. unfold INT_MIN, INT_MAX in *.
  unfold computes_int. change (exec env (makeNoOperandInstruction Div)) with exec_div.
  unfold exec_div, next, mbind, proc_bind, pop. rewrite Hs. cbn [r_stack set_stack]. unfold coerceToDouble.
  change d_zero with (d_of_Z 0). rewrite d_eqb_exact by lia. rewrite (proj2 (Z.eqb_neq y 0) Hy0).
  unfold lift, d_to_int. rewrite trunc_div by lia. destruct (in_int (Z.quot x y)); [done|by eexists].
Qed.

Lemma mod_int : y ≠ 0 → ¬ (x = INT_MIN ∧ y = -1) → computes_int Mod (Z.rem x y).
Proof.
  intros Hy0 Hmin. pose proof Hx as Hxr. pose proof Hy as Hyr. apply in_int_spec in Hxr, Hyr.
  assert (in_int (Z.rem x y) = true) as Hr.
  { apply in_int_spec. pose proof (Z.rem_bound_abs x y Hy0). unfold INT_MIN, INT_MAX in *. lia. }
  unfold computes_int. rewrite Hr. change (exec env (makeNoOperandInstruction Mod)) with exec_mod.
  unfold exec_mod, next, pop_int, mbind, proc_bind, pop. rewrite Hs. cbn [r_stack set_stack intFromStackValue lift].
  rewrite (proj2 (Z.eqb_neq y 0) Hy0). unfold int_rem, lift.
  destruct (Z.eqb_spec x INT_MIN), (Z.eqb_spec y (-1)); try done. by destruct Hmin.
Qed.
End arithmetic.

Lemma quot_in_int x y : in_int x = true → in_int y = true → y ≠ 0 → in_int (Z.quot x y) = false ↔ x = INT_MIN ∧ y = -1.
Proof.
  intros Hx%in_int_spec Hy%in_int_spec Hy0. split; [|by intros [-> ->]]. intros H.
  assert (¬ (INT_MIN <= Z.quot x y <= INT_MAX)) as Hn by (rewrite <- in_int_spec, H; done). clear H.
  unfold INT_MIN, INT_MAX in *. destruct (Z.eq_dec y (-1)) as [->|Hm].
  - change (-1) with (- (1)) in Hn. rewrite Z.quot_opp_r, Z.quot_1_r in Hn by lia. lia.
  - exfalso. apply Hn. destruct (Z.eq_dec y 1) as [->|H1]; [rewrite Z.quot_1_r; lia|].
    assert (Z.abs (Z.quot x y) <= 1073741824); [|lia]. rewrite <- Z.quot_abs by done.
    rewrite Z.quot_div_nonneg by lia. apply Z.div_le_upper_bound; [lia|]. nia.
Qed.

(** C38. Arithmetic on two [int]s is exact at 32 bits: ADD, SUB and MUL give the
    mathematical result when it fits an [int] and are undefined otherwise; DIV,
    which goes through double division and a cast, gives the quotient truncated
    towards zero, with the one undefined case INT_MIN / -1; MOD gives the
    remainder of that division; a zero divisor is a BASIC error. *)
Theorem int_arithmetic_exact env r x y s : in_int x = true → in_int y = true → r_stack r = VInt y :: VInt x :: s →
  computes_int env r s Add (x + y) ∧ computes_int env r s Sub (x - y) ∧ computes_int env r s Mul (x * y) ∧
  (y = 0 → (exec env (makeNoOperandInstruction Div) r).1 = Throw (RuntimeError "DIV: divide by zero") ∧
           (exec env (makeNoOperandInstruction Mod) r).1 = Throw (RuntimeError "MOD: division by zero")) ∧
  (y ≠ 0 → computes_int env r s Div (Z.quot x y) ∧ (in_int (Z.quot x y) = false ↔ x = INT_MIN ∧ y = -1) ∧
           (¬ (x = INT_MIN ∧ y = -1) → computes_int env r s Mod (Z.rem x y))).
Proof.
  intros Hx Hy Hs. split_and!; try by eapply arith_int.
  - intros ->. unfold exec, makeNoOperandInstruction. cbn [op instr]. unfold exec_div, exec_mod, next, pop_int, mbind, proc_bind, pop.
    rewrite Hs. done.
  - intros Hy0. split_and!; [by eapply div_int|by apply quot_in_int|]. intros Hm. by eapply mod_int.
Qed.

Definition ex_div : Runtime := set_stack [VInt 7; VInt (-2147483648)] machine0.

Lemma int_arithmetic_exact_witness :
  exec ex_env (makeNoOperandInstruction Div) ex_div = (Ok Next, set_stack [VInt (-306783378)] ex_div).
Proof.
  destruct (int_arithmetic_exact ex_env ex_div (-2147483648) 7 []) as (_ & _ & _ & _ & H); [done..|].
  destruct H as [H _]; [done|]. exact H.
Defined.
