(* ===== verification/BasicExprRun.v ===== *)
(** * BASIC expressions: the compiler is correct

    A reference evaluator of expression trees, and the proof that the code
    [emitNode] produces computes it on the virtual machine, errors and the
    random generator included.

    A language function is called with the whole stack of the machine;
    [FramedFunction] says that it uses its own arguments only, which makes the
    value of a call well defined. *)

From Stdlib Require Import Ascii String.
From S2P Require Import Prelude CLib Dbl DblFacts Records Locks FileSys Conv Bytecode Correl Dict Values Registry Vm VmProps VmRuns BasicExpr.
From stdpp Require Import options.
Local Open Scope Z_scope.

(** ** Functions use their arguments only *)

(** With its [n] arguments, the function leaves one value or an error, and
    whatever lies below the arguments makes no difference and is kept. *)
Class FramedFunction (n : nat) (f : LanguageFunctionFn) : Prop := framed_function :
  ∀ cx s rest e, length s = n →
  f cx (mkFnState (s ++ rest) e) =
    (let '(o, st) := f cx (mkFnState s e) in (o, mkFnState (fn_stack st ++ rest) (fn_outside st))) ∧
  ((f cx (mkFnState s e)).1 = Ok tt → ∃ v, fn_stack (f cx (mkFnState s e)).2 = [v]).

(** Code that still has [k] arguments to take. *)
Definition framed (k : nat) (m : proc FnState unit) : Prop := ∀ s rest e, length s = k →
  m (mkFnState (s ++ rest) e) = (let '(o, st) := m (mkFnState s e) in (o, mkFnState (fn_stack st ++ rest) (fn_outside st))) ∧
  ((m (mkFnState s e)).1 = Ok tt → ∃ v, fn_stack (m (mkFnState s e)).2 = [v]).

Lemma framed_pop k f : (∀ v, framed k (f v)) → framed (S k) (v ← fpop; f v).
Proof. intros Hf [|v s] rest e Hs; [done|]. injection Hs as Hs. exact (Hf v s rest e Hs). Qed.

Lemma framed_push v : framed 0 (fpush v).
Proof. intros [|? ?] rest e Hs; [|done]. split; [done|]. intros _. by exists v. Qed.

Lemma framed_fail k what : framed k (ffail what).
Proof. done. Qed.

Lemma framed_lift {A} k (m : outcome A) f : (∀ a, framed k (f a)) → framed k (a ← lift m; f a).
Proof. intros Hf s rest e Hs. destruct m as [a| |]; [exact (Hf a s rest e Hs)|done|done]. Qed.

Lemma framed_if k (b : bool) m1 m2 : framed k m1 → framed k m2 → framed k (if b then m1 else m2).
Proof. by destruct b. Qed.

Lemma framed_sample cx : framed 0 (pushRndSample cx).
Proof.
  intros [|? ?] rest e Hs; [|done]. unfold pushRndSample. cbn. destruct (rng_sample _ _) as [d e']. split; [done|]. by eexists.
Qed.

Lemma framed_seed k g m : framed k m → framed k (modify (λ st, mkFnState (fn_stack st) (set_rng g (fn_outside st)));; m).
Proof. intros Hm s rest e Hs. exact (Hm s rest (set_rng g e) Hs). Qed.

Ltac frames :=
  repeat match goal with
         | |- framed _ (v ← fpop; _) => apply framed_pop; intros ?
         | |- framed _ (_ ← lift _; _) => apply framed_lift; intros ?
         | |- framed _ (modify _;; _) => apply framed_seed
         | |- framed _ (if _ then _ else _) => apply framed_if
         | |- framed _ (ffail _) => apply framed_fail
         | |- framed _ (fpush _) => apply framed_push
         | |- framed _ (pushRndSample _) => apply framed_sample
         | |- framed _ (let _ := _ in _) => cbv zeta
         | |- framed _ (match ?x with _ => _ end) => destruct x
         end.

Lemma framed_class n f : (∀ cx, framed n (f cx)) → FramedFunction n f.
Proof. intros H cx. exact (H cx). Qed.

(** Every BASIC function is framed, with the arity it is registered with. *)
Lemma basic_framed i : ∀ e, basic_functions !! i = Some e → ∃ f, fn e = Some f ∧ FramedFunction (Z.to_nat (arity e)) f.
Proof.
  intros e. revert i e. apply Forall_lookup. unfold basic_functions. repeat apply Forall_cons_2; [..|apply Forall_nil_2].
  all: eexists; split; [reflexivity|]; apply framed_class; intros cx.
  all: match goal with |- framed ?n _ => let k := eval vm_compute in n in change n with k end.
  all: unfold handlerAbs, handlerSgn, handlerSeq, handlerLen, handlerTrim, handlerLcase, handlerUcase, handlerSpace, handlerInt,
    handlerMod, handlerSin, handlerCos, handlerTan, handlerExp, handlerLog, handlerDate, handlerTime, handlerSystem, handlerIndex,
    handlerField, handlerStr, handlerOconv, handlerIconv, handlerNum, handlerConvert, handlerRnd0, handlerRnd1, handlerStatus,
    math_fn; frames.
Qed.

(** ** The reference evaluator *)

Definition arith_value (fint : Z → Z → Z) (fdbl : double → double → double) (a b : Value) : outcome Value :=
  match a, b with
  | VInt x, VInt y => VInt <$> int_of (fint x y)
  | _, _ => arithmeticResultValue a b (fdbl (coerceToDouble a) (coerceToDouble b))
  end.

Definition div_value (a b : Value) : outcome Value :=
  if d_eqb (coerceToDouble b) d_zero then Throw (RuntimeError "DIV: divide by zero")
  else match a, b with
       | VInt _, VInt _ => VInt <$> d_to_int (d_div (coerceToDouble a) (coerceToDouble b))
       | _, _ => Ok (VDbl (d_div (coerceToDouble a) (coerceToDouble b)))
       end.

Definition compare_value (ctx : string) (test : Z → bool) (a b : Value) : outcome Value :=
  (λ c, bool_int (test c)) <$> compareValues a b ctx.

Definition binary_value (o : BinaryOp) : Value → Value → outcome Value :=
  match o with
  | OpAdd => arith_value Z.add d_add
  | OpSubtract => arith_value Z.sub d_sub
  | OpMultiply => arith_value Z.mul d_mul
  | OpDivide => div_value
  | OpEqual => compare_value "EQ" (λ c, c =? 0)
  | OpNotEqual => compare_value "NE" (λ c, negb (c =? 0))
  | OpLessThan => compare_value "LT" (λ c, c <? 0)
  | OpLessOrEqual => compare_value "LE" (λ c, c <=? 0)
  | OpGreaterThan => compare_value "GT" (λ c, 0 <? c)
  | OpGreaterOrEqual => compare_value "GE" (λ c, 0 <=? c)
  end.

(** [A(idx)] *)
Definition element_value (arrays : gmap string (list Value)) (name : string) (idx : Value) : outcome Value :=
  n ← coerceToInt idx;
  match arrays !! name with
  | None => Throw (RuntimeError ("Array not dimensioned: " +:+ name))
  | Some l =>
      if (n <? 1) || (Z.of_nat (length l) <? n) then Throw (RuntimeError ("Array index out of bounds: " +:+ name))
      else match l !! Z.to_nat (n - 1) with Some v => Ok v | None => Throw (RuntimeError "unreachable") end
  end.

(** [R<attr, vi>]: the value index is converted first. *)
Definition attribute_value (rec attr vi : Value) : outcome Value :=
  valueIndex ← coerceToInt vi;
  attrNo ← coerceToInt attr;
  let a := attribute (fromRaw (valueToString rec)) attrNo in
  Ok (VStr (if 0 <? valueIndex then valueAt a valueIndex else raw a)).

Section evaluator.
Context (env : Env) (r : Runtime).

(** The value of a variable: a system variable when the host gives one. *)
Definition variable_value (name : string) : outcome Value :=
  let sysvar := match e_sysvar env with
                | Some reader => if isReadOnlySystemVariableName name then reader name else None
                | None => None
                end in
  match sysvar with
  | Some v => Ok v
  | None =>
      match r_vars r !! name with
      | None => Throw (RuntimeError ("Undefined variable: " +:+ name))
      | Some v => Ok v
      end
  end.

(** A call with the arguments [args] and nothing else on the stack; the state
    is the random engine. *)
Definition call_value (id : Z) (args : list Value) : proc Outside Value := λ g,
  match e_registry env with
  | None => (Throw (RuntimeError "LANG: registry not configured"), g)
  | Some registry =>
      let '(o, st) := dispatch registry kNamespaceId id (Z.of_nat (length args)) (context_of env r) (mkFnState (rev args) g) in
      (match o with
       | Ok _ => match fn_stack st with v :: _ => Ok v | [] => Undefined "no value" end
       | Throw e => Throw e
       | Undefined w => Undefined w
       end, fn_outside st)
  end.

(** Arguments and operands are evaluated from left to right. *)
Fixpoint eval (e : Expr) : proc Outside Value :=
  match e with
  | IntLiteralExpr n => mret (VInt n)
  | FloatLiteralExpr d => mret (VDbl d)
  | StringLiteralExpr s => mret (VStr s)
  | DictFieldExpr t => mret (VStr t)
  | IdentifierExpr name => lift (variable_value (uppercase name))
  | NegateExpr x => v ← eval x; lift (binary_value OpSubtract (VInt 0) v)
  | BinaryExpr o a b => x ← eval a; y ← eval b; lift (binary_value o x y)
  | GroupedExpr x => eval x
  | SubscriptExpr var index => v ← eval index; lift (element_value (r_arrays r) (uppercase var) v)
  | AttributeAccessExpr var attr vi =>
      rec ← lift (variable_value (uppercase var));
      a ← eval attr;
      v ← (match vi with Some v => eval v | None => mret (VInt 0) end);
      lift (attribute_value rec a v)
  | FunctionCallExpr name args =>
      vs ← (fix eval_args (l : list Expr) : proc Outside (list Value) :=
              match l with [] => mret [] | a :: l' => v ← eval a; vs ← eval_args l'; mret (v :: vs) end) args;
      let got := Z.of_nat (length args) in
      let vs := if two_argument_index name got then vs ++ [VInt 1] else vs in
      match functionIdForCall name (Z.of_nat (length vs)) with
      | Some id => call_value id vs
      | None => throw (LogicError "not a function")
      end
  end.
End evaluator.

(** ** Running expression code *)

(** The machine [r] with another stack, random engine and instruction pointer. *)
Definition rt (r : Runtime) (ip : Z) (f : FnState) : Runtime := set_ip ip (set_fn f r).

(** The program has [code] at address [ip]. *)
Definition code_at (prog : list Instruction) (ip : Z) (code : list Instruction) : Prop :=
  0 <= ip ∧ ∀ k i, code !! k = Some i → prog !! (Z.to_nat ip + k)%nat = Some i.

Lemma code_at_app prog ip a b : code_at prog ip (a ++ b) → code_at prog ip a ∧ code_at prog (ip + Z.of_nat (length a)) b.
Proof.
  intros [H0 H]. split; (split; [lia|]); intros k i Hk.
  - apply H. by apply lookup_app_l_Some.
  - replace (Z.to_nat (ip + Z.of_nat (length a)) + k)%nat with (Z.to_nat ip + (length a + k))%nat by lia.
    apply H. rewrite lookup_app_r by lia. by replace (length a + k - length a)%nat with k by lia.
Qed.

Section computes.
Context (env : Env) (r : Runtime).

(** From the state [x] the machine goes on to an instruction whose step ends in [o]. *)
Definition breaks (x : Runtime) (o : outcome bool) (g : Outside) : Prop :=
  ∃ ip f f', steps env x (rt r ip f) ∧ step env (rt r ip f) = (o, rt r ip f') ∧ fn_outside f' = g.

(** On the stack [s] the code computes [m] and leaves the stack [st a] for the
    answer [a]; where [m] fails the code fails in the same way. *)
Definition computes {A} (code : list Instruction) (s : list Value) (m : proc Outside A) (st : A → list Value) : Prop :=
  ∀ ip g, code_at (r_program r) ip code → Z.of_nat (length s + length code) <= INT_MAX →
  match m g with
  | (Ok a, g') =>
      steps env (rt r ip (mkFnState s g)) (rt r (ip + Z.of_nat (length code)) (mkFnState (st a) g')) ∧
      (length (st a) <= length s + length code)%nat
  | (Throw x, g') => breaks (rt r ip (mkFnState s g)) (Throw x) g'
  | (Undefined w, g') => breaks (rt r ip (mkFnState s g)) (Undefined w) g'
  end.

Lemma computes_ext {A} code s (m m' : proc Outside A) st : (∀ g, m g = m' g) → computes code s m st → computes code s m' st.
Proof. intros H Hm ip g Hc Hb. rewrite <- H. by apply Hm. Qed.

Lemma computes_nil {A} s (a : A) st : st a = s → computes [] s (mret a) st.
Proof. intros Hs ip g Hc Hb. cbn. rewrite Hs, Z.add_0_r. split; [apply rtc_refl|]. lia. Qed.

Lemma breaks_after x y o g : steps env x y → breaks y o g → breaks x o g.
Proof. intros Hs (ip & f & f' & H & ?). exists ip, f, f'. split; [by etransitivity|done]. Qed.

Lemma computes_bind {A B} c1 c2 s (m : proc Outside A) (k : A → proc Outside B) st st' :
  computes c1 s m st → (∀ a, (∃ g g', m g = (Ok a, g')) → computes c2 (st a) (k a) st') → computes (c1 ++ c2) s (m ≫= k) st'.
Proof.
  intros Hm Hk ip g [Hc1 Hc2]%code_at_app Hb. rewrite length_app in Hb |- *. specialize (Hm ip g Hc1 ltac:(lia)).
  unfold mbind, proc_bind. destruct (m g) as [[a| |] g1] eqn:Em; [|done|done]. destruct Hm as [Hs Hlen].
  specialize (Hk a (ex_intro _ g (ex_intro _ g1 Em)) _ g1 Hc2 ltac:(lia)).
  destruct (k a g1) as [[b| |] g2]; [|by eapply breaks_after..]. destruct Hk as [Hs2 Hlen2].
  split; [|lia]. rewrite Nat2Z.inj_add, Z.add_assoc. by etransitivity.
Qed.

Lemma code_at_instr ip i f : code_at (r_program r) ip [i] → at_instr (rt r ip f) i.
Proof. intros [H0 H]. split; [done|]. cbn. rewrite <- (Nat.add_0_r (Z.to_nat ip)). by apply H. Qed.

(** One instruction. *)
Lemma computes_instr {A} i s (m : proc Outside A) st :
  (∀ ip g, Z.of_nat (length s) < INT_MAX → ∃ f, exec env i (rt r ip (mkFnState s g)) = ((λ _, Next) <$> (m g).1, rt r ip f) ∧
     fn_outside f = (m g).2 ∧ ∀ a, (m g).1 = Ok a → fn_stack f = st a ∧ (length (st a) <= S (length s))%nat) →
  computes [i] s m st.
Proof.
  intros H ip g Hc Hb. cbn [length] in *. destruct (H ip g ltac:(lia)) as (f & He & Hg & Hs).
  pose proof (code_at_instr ip i (mkFnState s g) Hc) as Hat. destruct (m g) as [[a|x|w] g']; cbn [fst snd] in *.
  - destruct (Hs a eq_refl) as [Hst Hlen]. split; [|lia]. destruct f as [sf gf]. cbn in Hst, Hg. subst sf gf.
    exact (steps_next env _ i _ Hat He).
  - exists ip, (mkFnState s g), f. split; [apply rtc_refl|]. split; [|done].
    rewrite (step_at env _ i Hat), (bind_throw _ _ _ _ _ He). done.
  - exists ip, (mkFnState s g), f. split; [apply rtc_refl|]. split; [|done].
    rewrite (step_at env _ i Hat). unfold mbind, proc_bind. by rewrite He.
Qed.

(** One instruction that computes a value from the stack. *)
Lemma computes_pure i s o s0 : (length s0 <= length s)%nat →
  (∀ ip g, ∃ s', exec env i (rt r ip (mkFnState s g)) = ((λ _, Next) <$> o, rt r ip (mkFnState s' g)) ∧
     ∀ v, o = Ok v → s' = v :: s0) →
  computes [i] s (lift o) (λ v, v :: s0).
Proof.
  intros Hlen H. apply computes_instr. intros ip g _. destruct (H ip g) as (s' & He & Hs). exists (mkFnState s' g).
  split; [done|]. split; [done|]. intros a Ha. cbn. split; [by apply Hs|lia].
Qed.

Lemma computes_push i s v : (∀ ip g, exec env i (rt r ip (mkFnState s g)) = (Ok Next, rt r ip (mkFnState (v :: s) g))) →
  computes [i] s (mret v) (λ v, v :: s).
Proof. intros H. apply (computes_pure i s (Ok v) s); [done|]. intros ip g. eexists. split; [apply H|]. by intros ? [= <-]. Qed.

Lemma canonical_upper name : canonicalVariableName (uppercase name) = uppercase name.
Proof. unfold canonicalVariableName, uppercase. induction name as [|c s IH]; [done|]. cbn. by rewrite toupper_idemp, IH. Qed.

Lemma computes_load name s :
  computes [instr LoadVar (VStr (uppercase name))] s (lift (variable_value env r (uppercase name))) (λ v, v :: s).
Proof.
  apply computes_pure; [done|]. intros ip g. cbn [exec op instr]. unfold exec_load_var, next.
  change (name_operand (instr LoadVar (VStr (uppercase name)))) with (mret (canonicalVariableName (uppercase name)) : proc Runtime string).
  rewrite canonical_upper. unfold variable_value, gets, mbind, proc_bind. cbn [mret proc_ret]. unfold proc_ret.
  destruct (match e_sysvar env with Some reader => _ | None => None end) as [v|].
  { exists (v :: s). split; [done|]. by intros ? [= <-]. }
  cbn [r_vars rt set_ip set_fn]. destruct (r_vars r !! uppercase name) as [v|].
  - exists (v :: s). split; [done|]. by intros ? [= <-].
  - exists s. done.
Qed.

Lemma computes_binary o x y s :
  computes [makeNoOperandInstruction (toOpCode o)] (y :: x :: s) (lift (binary_value o x y)) (λ v, v :: s).
Proof.
  apply computes_pure; [cbn; lia|]. intros ip g.
  destruct o; cbn [exec op makeNoOperandInstruction instr toOpCode binary_value];
    unfold exec_arith, exec_div, exec_compare, next, pop, mbind, proc_bind; cbn [r_stack rt set_ip set_fn fn_stack set_stack];
    unfold arith_value, div_value, compare_value; destruct x, y.
  all: repeat match goal with
         | |- context [int_of ?z] => destruct (int_of z)
         | |- context [arithmeticResultValue ?a ?b ?d] => destruct (arithmeticResultValue a b d)
         | |- context [d_eqb ?a ?b] => destruct (d_eqb a b)
         | |- context [d_to_int ?a] => destruct (d_to_int a)
         | |- context [compareValues ?a ?b ?c] => destruct (compareValues a b c)
         end.
  all: first [exists s; split; [reflexivity|done] | eexists; split; [reflexivity|by intros ? [= <-]]].
Qed.

Lemma computes_element name v s :
  computes [instr LoadArr (VStr (uppercase name))] (v :: s) (lift (element_value (r_arrays r) (uppercase name) v)) (λ v, v :: s).
Proof.
  apply computes_pure; [cbn; lia|]. intros ip g. exists (match element_value (r_arrays r) (uppercase name) v with Ok x => x :: s | _ => s end).
  split; [|by intros x ->]. cbn [exec op instr]. unfold exec_load_arr, next.
  change (name_operand (instr LoadArr (VStr (uppercase name)))) with (mret (canonicalVariableName (uppercase name)) : proc Runtime string).
  rewrite canonical_upper. unfold element_value, pop_coerced, pop, lift, gets, mbind, proc_bind, outcome_bind.
  cbn [mret proc_ret r_stack rt set_ip set_fn fn_stack set_stack]. unfold proc_ret. destruct (coerceToInt v) as [n| |]; [|done|done].
  cbn [r_arrays rt set_stack set_ip set_fn]. destruct (r_arrays r !! uppercase name) as [l|]; [|done].
  destruct (_ || _); [done|]. by destruct (l !! Z.to_nat (n - 1)).
Qed.

Lemma computes_extract rec a v s :
  computes [makeNoOperandInstruction ExtractAttr] (v :: a :: rec :: s) (lift (attribute_value rec a v)) (λ v, v :: s).
Proof.
  apply computes_pure; [cbn; lia|]. intros ip g.
  cbn [exec op instr makeNoOperandInstruction]. unfold exec_extract, next, attribute_value, pop_text, pop_coerced, pop, lift, mbind, proc_bind, outcome_bind.
  cbn [mret proc_ret r_stack rt set_ip set_fn fn_stack set_stack].
  destruct (coerceToInt v) as [vi| |]; [|by exists (a :: rec :: s)..].
  cbn [r_stack set_stack]. destruct (coerceToInt a) as [n| |]; [|by exists (rec :: s)..].
  eexists. split; [reflexivity|]. by intros ? [= <-].
Qed.

(** ** Calls *)

(** The registered functions of the BASIC namespace are framed. *)
Class FramedEnv : Prop := framed_env : ∀ reg l e f, e_registry env = Some reg → namespaces reg !! kNamespaceId = Some l →
  e ∈ functions l → fn e = Some f → FramedFunction (Z.to_nat (arity e)) f.

Lemma dispatch_framed `{Hfr : !FramedEnv} reg id args s g cx : e_registry env = Some reg →
  Z.of_nat (length args + length s) <= INT_MAX →
  let call st := dispatch reg kNamespaceId id (Z.of_nat (length args)) cx (mkFnState st g) in
  call (rev args ++ s) = (let '(o, st) := call (rev args) in (o, mkFnState (fn_stack st ++ s) (fn_outside st))) ∧
  ((call (rev args)).1 = Ok tt → ∃ v, fn_stack (call (rev args)).2 = [v]).
Proof.
  intros Hreg Hb. cbv zeta. unfold dispatch. destruct (namespaces reg !! kNamespaceId) as [l|] eqn:Hl; [|done].
  destruct (functions l !! Z.to_nat id) as [e|] eqn:He; [|done]. destruct (fn e) as [f|] eqn:Hf; [|done].
  destruct (Z.eqb_spec (Z.of_nat (length args)) (arity e)) as [Ha|]; [|done]. cbn [negb fn_stack].
  rewrite !to_int32_id by (apply in_int_spec; unfold INT_MIN; rewrite ?length_app, ?length_rev; lia).
  rewrite (proj2 (Z.ltb_ge _ _)) by (rewrite length_app, length_rev; lia).
  rewrite (proj2 (Z.ltb_ge _ _)) by (rewrite length_rev; lia).
  apply (Hfr reg l e f Hreg Hl); [by eapply list_elem_of_lookup_2|done|]. rewrite length_rev. lia.
Qed.

Lemma computes_call `{!FramedEnv} id args s :
  computes [mkInstr CallFunc (VInt 0) (mkCallFunc kNamespaceId id (Z.of_nat (length args)))] (rev args ++ s)
    (call_value env r id args) (λ v, v :: s).
Proof.
  apply computes_instr. intros ip g Hb. rewrite length_app, length_rev in Hb |- *.
  cbn [exec op callFunc]. unfold exec_call_func, next, call_value. cbn [callFunc namespaceId functionId argCount].
  destruct (e_registry env) as [reg|] eqn:Hreg; [|by exists (mkFnState (rev args ++ s) g)].
  unfold gets, mbind, proc_bind. cbn [r_stack rt set_ip set_fn fn_stack].
  rewrite to_int32_id by (apply in_int_spec; unfold INT_MIN; rewrite ?length_app, ?length_rev; lia).
  rewrite (proj2 (Z.ltb_ge _ _)) by (rewrite length_app, length_rev; lia).
  unfold on_functions. change (context_of env (rt r ip (mkFnState (rev args ++ s) g))) with (context_of env r).
  cbn [r_stack r_outside rt set_ip set_fn fn_stack fn_outside].
  destruct (dispatch_framed reg id args s g (context_of env r) Hreg ltac:(lia)) as [Hd Hv]. rewrite Hd.
  destruct (dispatch _ _ _ _ _ (mkFnState (rev args) g)) as [[[]|e|w] st]; cbn [fst snd] in *.
  - destruct (Hv eq_refl) as [v Hst]. rewrite Hst. exists (mkFnState (v :: s) (fn_outside st)).
    split; [reflexivity|]. split; [done|]. intros ? [= <-]. cbn. split; [done|lia].
  - by exists (mkFnState (fn_stack st ++ s) (fn_outside st)).
  - by exists (mkFnState (fn_stack st ++ s) (fn_outside st)).
Qed.

(** ** Compiled expressions *)

Definition emit_args (name : string) : Z → list Expr → checked (list Instruction) :=
  fix emit_args (k : Z) (l : list Expr) : checked (list Instruction) :=
    match l with
    | [] => Good []
    | a :: l' => c ← emitNode (builtinArgInArithmetic name k) a; cs ← emit_args (k + 1) l'; Good (c ++ cs)
    end.

Definition eval_args : list Expr → proc Outside (list Value) :=
  fix eval_args (l : list Expr) : proc Outside (list Value) :=
    match l with [] => mret [] | a :: l' => v ← eval env r a; vs ← eval_args l'; mret (v :: vs) end.

Lemma checked_bind_inv {A B} (m : checked A) (f : A → checked B) b : m ≫= f = Good b → ∃ a, m = Good a ∧ f a = Good b.
Proof. destruct m; naive_solver. Qed.

(** The induction principle that goes through the arguments of calls. *)
Section expr_induction.
Context (P : Expr → Prop).
Context (Hint : ∀ n, P (IntLiteralExpr n)) (Hflt : ∀ d, P (FloatLiteralExpr d)) (Hstr : ∀ s, P (StringLiteralExpr s)).
Context (Hid : ∀ n, P (IdentifierExpr n)) (Hneg : ∀ e, P e → P (NegateExpr e)).
Context (Hbin : ∀ o a b, P a → P b → P (BinaryExpr o a b)) (Hgrp : ∀ e, P e → P (GroupedExpr e)).
Context (Hsub : ∀ v e, P e → P (SubscriptExpr v e)).
Context (Hattr : ∀ v a vi, P a → (∀ e, vi = Some e → P e) → P (AttributeAccessExpr v a vi)).
Context (Hdict : ∀ t, P (DictFieldExpr t)) (Hcall : ∀ n l, Forall P l → P (FunctionCallExpr n l)).

Fixpoint expr_induction (e : Expr) : P e :=
  match e with
  | IntLiteralExpr n => Hint n
  | FloatLiteralExpr d => Hflt d
  | StringLiteralExpr s => Hstr s
  | IdentifierExpr n => Hid n
  | NegateExpr x => Hneg x (expr_induction x)
  | BinaryExpr o a b => Hbin o a b (expr_induction a) (expr_induction b)
  | GroupedExpr x => Hgrp x (expr_induction x)
  | SubscriptExpr v x => Hsub v x (expr_induction x)
  | AttributeAccessExpr v a vi =>
      Hattr v a vi (expr_induction a)
        (match vi return ∀ e, vi = Some e → P e with
         | Some x => λ e H, eq_ind x P (expr_induction x) e (f_equal (default x) H)
         | None => λ e H, False_ind _ (eq_ind None (λ o, match o with None => True | Some _ => False end) I _ H)
         end)
  | DictFieldExpr t => Hdict t
  | FunctionCallExpr n l =>
      Hcall n l ((fix all (l : list Expr) : Forall P l :=
                    match l with [] => Forall_nil_2 P | x :: l' => Forall_cons_2 P x l' (expr_induction x) (all l') end) l)
  end.
End expr_induction.

(** What the emitter's code does on any stack. *)
Definition compiled_ok (e : Expr) : Prop := ∀ b code s, emitNode b e = Good code → computes code s (eval env r e) (λ v, v :: s).

Lemma args_ok name l : Forall compiled_ok l → ∀ k code s, emit_args name k l = Good code →
  computes code s (eval_args l) (λ vs, rev vs ++ s).
Proof.
  induction 1 as [|e l He _ IH]; intros k code s; cbn; [intros [= <-]; by apply computes_nil|].
  intros (c & Hc & (cs & Hcs & [= <-])%checked_bind_inv)%checked_bind_inv.
  eapply computes_bind; [by eapply He|]. intros v _. rewrite <- (app_nil_r cs).
  eapply computes_bind; [by eapply IH|]. intros vs _. apply computes_nil. cbn. by rewrite <- app_assoc.
Qed.

Lemma eval_args_length l : ∀ g vs g', eval_args l g = (Ok vs, g') → length vs = length l.
Proof.
  induction l as [|e l IH]; intros g vs g'; cbn; [by intros [= <- _]|].
  intros (v & g1 & _ & (ws & g2 & Hw & [= <- _])%proc_bind_inv)%proc_bind_inv. cbn. by rewrite (IH _ _ _ Hw).
Qed.

(** The code after the arguments. *)
Lemma call_ok `{!FramedEnv} name vs code s : call_code name (Z.of_nat (length vs)) = Good code →
  computes code (rev vs ++ s)
    (let vs := if two_argument_index name (Z.of_nat (length vs)) then vs ++ [VInt 1] else vs in
     match functionIdForCall name (Z.of_nat (length vs)) with
     | Some id => call_value env r id vs
     | None => throw (LogicError "not a function")
     end) (λ v, v :: s).
Proof.
  unfold call_code. destruct (two_argument_index name (Z.of_nat (length vs))) eqn:Et; cbv zeta.
  - apply andb_true_iff in Et as [_ Et%Z.eqb_eq]. rewrite length_app. cbn [length].
    replace (Z.of_nat (length vs + 1)) with 3 by lia. destruct (functionIdForCall name 3) as [id|]; [|done]. intros [= <-].
    eapply (computes_ext _ _ (x ← (mret (VInt 1) : proc Outside Value); call_value env r id (vs ++ [x]))); [done|].
    apply (computes_bind [_] [_] _ _ _ (λ v, v :: rev vs ++ s)); [by apply computes_push|]. intros x _.
    pose proof (computes_call id (vs ++ [x]) s) as Hc. rewrite rev_app_distr, length_app in Hc. cbn [length] in Hc.
    by replace (Z.of_nat (length vs + 1)) with 3 in Hc by lia.
  - destruct (functionIdForCall name (Z.of_nat (length vs))) as [id|]; [|done]. intros [= <-]. apply computes_call.
Qed.

Lemma expr_ok `{!FramedEnv} e : compiled_ok e.
Proof.
  induction e as [n|d|t|name|x IH|o a b IHa IHb|x IH|var x IH|var a vi IHa IHvi|t|name l IH] using expr_induction;
    intros ar code s; cbn [emitNode eval].
  - intros [= <-]. by apply computes_push.
  - intros [= <-]. by apply computes_push.
  - intros [= <-]. by apply computes_push.
  - destruct (negb _); [done|]. destruct (ar && _); [done|]. intros [= <-]. apply computes_load.
  - intros (c & Hc & [= <-])%checked_bind_inv.
    eapply (computes_ext _ _ (z ← (mret (VInt 0) : proc Outside Value); v ← eval env r x; lift (binary_value OpSubtract z v))); [done|].
    apply (computes_bind [_] (c ++ _) _ _ _ (λ v, v :: s)); [by apply computes_push|]. intros z _.
    eapply computes_bind; [by eapply IH|]. intros v _. apply (computes_binary OpSubtract).
  - intros (c1 & H1 & (c2 & H2 & [= <-])%checked_bind_inv)%checked_bind_inv.
    eapply computes_bind; [by eapply IHa|]. intros v1 _. eapply computes_bind; [by eapply IHb|]. intros v2 _.
    apply computes_binary.
  - apply IH.
  - destruct (negb _); [done|]. destruct (ar && _); [done|]. intros (c & Hc & [= <-])%checked_bind_inv.
    eapply computes_bind; [by eapply IH|]. intros v _. apply computes_element.
  - destruct (negb _); [done|]. intros (c1 & H1 & (c2 & H2 & [= <-])%checked_bind_inv)%checked_bind_inv.
    apply (computes_bind [_] (c1 ++ _) _ _ _ (λ v, v :: s)); [apply computes_load|]. intros rec _.
    eapply computes_bind; [by eapply IHa|]. intros v1 _.
    apply (computes_bind c2 _ _ _ _ (λ v, v :: v1 :: rec :: s)).
    { destruct vi as [e|]; [by eapply IHvi|]. injection H2 as <-. by apply computes_push. }
    intros v2 _. apply computes_extract.
  - destruct ar; [done|]. destruct (str_empty t); [done|]. intros [= <-]. by apply computes_push.
  - destruct (builtinArityBounds name) as [[lo hi]|]; [|done]. cbv zeta. destruct (_ || _); [done|].
    intros (c1 & H1 & (c2 & H2 & [= <-])%checked_bind_inv)%checked_bind_inv.
    apply (computes_bind c1 c2 _ (eval_args l) _ (λ vs, rev vs ++ s)); [by eapply args_ok|].
    intros vs (g & g' & Hvs). rewrite <- (eval_args_length _ _ _ _ Hvs) in H2 |- *. by apply call_ok.
Qed.
End computes.

(** C36. The expression compiler is correct: wherever the emitted code stands in
    the program and whatever is on the stack, running it pushes the value that
    the reference evaluator gives to the tree, at the instruction after the
    code, with nothing else changed but the random engine; where evaluation
    fails, in any operator, variable, array or language function, the machine
    stops with the same error. *)
Theorem expression_code_correct env r e code :
  FramedEnv env → emit_expr e = Good code → code_at (r_program r) (r_ip r) code →
  Z.of_nat (length (r_stack r) + length code) <= INT_MAX →
  match eval env r e (r_outside r) with
  | (Ok v, g) => steps env r (set_ip (r_ip r + Z.of_nat (length code)) (set_fn (mkFnState (v :: r_stack r) g) r))
  | (Throw x, _) => ∃ r1 r2, steps env r r1 ∧ step env r1 = (Throw x, r2)
  | (Undefined w, _) => ∃ r1 r2, steps env r r1 ∧ step env r1 = (Undefined w, r2)
  end.
Proof.
  intros Hfr He Hc Hb. pose proof (expr_ok env r e false code (r_stack r) He (r_ip r) (r_outside r) Hc Hb) as H.
  replace (rt r (r_ip r) (mkFnState (r_stack r) (r_outside r))) with r in H by (by destruct r).
  destruct (eval env r e (r_outside r)) as [[v|x|w] g].
  - exact (proj1 H).
  - destruct H as (ip & f & f' & Hs & Hx & _). by eexists _, _.
  - destruct H as (ip & f & f' & Hs & Hx & _). by eexists _, _.
Qed.

(** The environment with the BASIC functions is framed. *)
Lemma basic_env_framed host fs plat : FramedEnv (mkEnv host fs None None (Some basic_registry) plat).
Proof.
  intros reg l e f [= <-] Hl (i & He)%list_elem_of_lookup Hf.
  change (namespaces basic_registry) with (<[kNamespaceId := mkRegistered (mkMeta "basic" "1") basic_functions]> (∅ : gmap Z RegisteredNamespace)) in Hl.
  rewrite lookup_insert_eq in Hl. injection Hl as <-. destruct (basic_framed i e He) as (g & Hg & Hfun). by simplify_eq.
Qed.

(** [LEN(N) * 2 + A(1)] with N = HELLO and A(1) = 30. *)
Definition ex_expr : checked Expr := parseExpression "LEN(n) * 2 + A(1)".

Definition ex_expr_code : list Instruction :=
  [instr LoadVar (VStr "N"); mkInstr CallFunc (VInt 0) (mkCallFunc 2 3 1); instr PushInt (VInt 2); instr Mul (VInt 0);
   instr PushInt (VInt 1); instr LoadArr (VStr "A"); instr Add (VInt 0)].

Definition ex_expr_start : Runtime :=
  set_arrays {["A" := [VInt 30]]} (set_vars {["N" := VStr "HELLO"]} (loadProgram ex_expr_code [] machine0)).

Lemma expression_code_correct_witness :
  ∃ e, ex_expr = Good e ∧ emit_expr e = Good ex_expr_code ∧
    steps ex_env ex_expr_start (set_ip 7 (set_stack [VInt 40] ex_expr_start)).
Proof.
  eexists. split; [vm_compute; reflexivity|]. split; [vm_compute; reflexivity|].
  refine (expression_code_correct ex_env ex_expr_start
    (BinaryExpr OpAdd (BinaryExpr OpMultiply (FunctionCallExpr "LEN" [IdentifierExpr "n"]) (IntLiteralExpr 2))
      (SubscriptExpr "A" (IntLiteralExpr 1))) ex_expr_code (basic_env_framed _ _ _) _ _ _).
  - vm_compute. reflexivity.
  - split; [done|]. intros k i Hk. exact Hk.
  - vm_compute. discriminate.
Defined.
