(* ===== verification/BasicStmt.v ===== *)
(** * BASIC statements

    Statement trees ([BasicAst.h]; [BasicNormalizedIr.h] repeats the same types,
    and the semantic analyzer's [toIrStatement] copies one to the other field by
    field, as BasicIr shows, so both are [Stmt] here) and [BasicStatementParser.cpp], one
    definition per keyword.

    A line gives a statement or one error message. A branch of an IF or ELSE is
    parsed by the statement parser itself; [parse_statement] takes fuel for that
    nesting, and [parse_statement_total] shows that a line's length is enough. *)

From Stdlib Require Import Ascii String.
From S2P Require Import Prelude CLib Words Dbl Records Conv Bytecode Correl Values Registry BasicExpr.
From stdpp Require Import options.
Local Open Scope Z_scope.

(** ** Statements *)

(** [BranchArm]: a line number, or one statement. *)
(* src/userland/basic/BasicAst.h:110-279 [StatementNode] *)
#[warnings="-register-all"] Inductive Stmt :=
| LetStmt (variableName : string) (expression : Expr)
| InputStmt (promptExpr : option Expr) (variableName : string)
| ChainStmt (programExpr : Expr)
| GotoStmt (targetLine : Z)
| GosubStmt (targetLine : Z)
| ReturnStmt
| ForStmt (variableName : string) (initExpr limitExpr : Expr) (stepExpr : option Expr)
| NextStmt (variableName : string)
| IfStmt (condition : Expr) (thenArm : Arm) (elseArm : option Arm)
| PrintStmt (expression : Expr) (suppressEol : bool)
| RemStmt
| StopStmt
| EndStmt
| DimStmt (variableName : string) (sizeExpr : Expr)
| LetArrayStmt (variableName : string) (indexExpr valueExpr : Expr)
| ClearStmt
| OpenStmt (fileExpr : Expr) (fileVar : string) (elseArm : option Arm)
| ReadStmt (targetVar fileVar : string) (idExpr : Expr) (elseArm : option Arm)
| ReadUStmt (targetVar fileVar : string) (idExpr : Expr) (elseArm : option Arm)
| WriteStmt (valueExpr : Expr) (fileVar : string) (idExpr : Expr) (elseArm : option Arm)
| WriteUStmt (valueExpr : Expr) (fileVar : string) (idExpr : Expr) (elseArm : option Arm)
| ReadNextStmt (targetVar fileVar : string) (elseArm : option Arm)
| ReadVStmt (targetVar fileVar : string) (idExpr attrExpr : Expr) (valueIndexExpr : option Expr) (elseArm : option Arm)
| WriteVStmt (valueExpr : Expr) (fileVar : string) (idExpr attrExpr : Expr) (valueIndexExpr : option Expr) (elseArm : option Arm)
| CloseStmt (fileVar : string)
| ReleaseStmt (fileVar : string) (idExpr : Expr)
| OnErrorStmt (stop : bool) (targetLine : Z)
| MatAssignStmt (targetArray : string) (rhsExpr : option Expr) (rhsSourceArray : string)
| MatReadStmt (targetArray fileVar : string) (idExpr : Expr) (elseArm : option Arm)
| MatWriteStmt (sourceArray fileVar : string) (idExpr : Expr) (elseArm : option Arm)
with Arm := ArmLine (line : Z) | ArmInline (statement : Stmt).

(* src/userland/basic/BasicAst.h:281-284 [ParsedBasicLine] *)
Record ParsedBasicLine := mkLine { lineNumber : Z; statement : Stmt }.

(* src/userland/basic/BasicAst.h:291-295 [StatementParseResult] *)
Record StatementParseResult := mkParseResult { plines : list ParsedBasicLine; perrors : list (Z * string) }.

(** ** Text helpers *)

(* src/userland/basic/BasicStatementParser.cpp:23-39 [parsePositiveLineNumber] *)
Definition parsePositiveLineNumber (raw : string) : option Z :=
  let token := trim raw in
  if str_empty token || negb (str_forall isdigit token) then None
  else match stoi token with
       | Ok (n, _) => if 0 <? n then Some n else None
       | _ => None
       end.

Definition char_at (s : string) (i : nat) : option ascii := String.get i s.
Definition space_or_none (o : option ascii) : bool := match o with Some c => isspace c | None => true end.

(** The rounds of the search: each one starts further to the right. *)
(* src/userland/basic/BasicStatementParser.cpp:44-54 [findKeywordToken] *)
Fixpoint find_keyword_from (fuel : nat) (upperText keyword : string) (from : nat) : option nat :=
  match fuel with
  | O => None
  | S fuel' =>
      match String.index from keyword upperText with
      | None => None
      | Some pos =>
          let startOk := match pos with O => true | S p => space_or_none (char_at upperText p) end in
          if startOk && space_or_none (char_at upperText (pos + String.length keyword)) then Some pos
          else find_keyword_from fuel' upperText keyword (S pos)
      end
  end.

(* src/userland/basic/BasicStatementParser.cpp:41-54 [findKeywordToken] *)
Definition findKeywordToken (upperText keyword : string) : option nat :=
  find_keyword_from (S (String.length upperText)) upperText keyword 0.

(** The code's three lines: find the keyword in the upper-case text; the trimmed
    text before it and the trimmed text after it. *)
Definition split_keyword (keyword text : string) : option (string * string) :=
  match findKeywordToken (uppercase text) keyword with
  | None => None
  | Some pos => Some (trim (String.substring 0 pos text), trim (str_drop (pos + String.length keyword) text))
  end.

(** [rfind]: the text before and after the last [c]. *)
Fixpoint str_split_last (c : ascii) (s : string) : option (string * string) :=
  match s with
  | "" => None
  | String a s' =>
      match str_split_last c s' with
      | Some (l, r) => Some (String a l, r)
      | None => if Ascii.eqb a c then Some ("", s') else None
      end
  end.

(** [std::string rest; std::getline(iss, rest);] *)
Definition rest_of_line (s : string) : string := match getline NL s with Some (l, _) => l | None => "" end.

(* src/userland/basic/BasicStatementParser.cpp:104-134 [tryParseDictFieldToken] *)
Definition tryParseDictFieldToken (raw : string) : option string :=
  let trimmed := trim raw in
  if str_empty trimmed || negb (starts_with "DICT<" (uppercase trimmed)) then None
  else match str_back trimmed with
       | Some ">"%char =>
           let inner := trim (String.substring 5 (String.length trimmed - 6) trimmed) in
           if str_empty inner then None
           else
             let quoted c := bool_decide (str_front inner = Some c) && bool_decide (str_back inner = Some c) in
             let inner :=
               if (2 <=? str_size inner) && (quoted DQUOTE || quoted "'"%char)
               then trim (String.substring 1 (String.length inner - 2) inner) else inner in
             if str_empty inner then None else Some inner
       | _ => None
       end.

(** ** Pieces shared by the statements *)

(** The code's [if (b) { error; continue; }]. *)
Definition refuse (b : bool) (error : string) : checked unit := if b then Bad error else Good tt.

(** [BasicExpressionParser::parse], its error after [prefix]. *)
Definition expression_of (prefix text : string) : checked Expr :=
  match parseExpression text with Bad e => Bad (prefix +:+ e) | r => r end.

Definition or_error {A} (error : string) (o : option A) : checked A :=
  match o with Some a => Good a | None => Bad error end.

Definition readonly_error (name : string) : string := "Read-only system variable '" +:+ name +:+ "'".

Section statements.
(** The statement parser, for the branches. *)
Context (parse : string → checked Stmt).

(* src/userland/basic/BasicStatementParser.cpp:56-102 [parseBranchArmSpec] *)
Definition parseBranchArmSpec (context rawText : string) : checked Arm :=
  let token := trim rawText in
  if str_empty token then Bad (context +:+ " requires a line number or statement")
  else match parsePositiveLineNumber token with
       | Some n => Good (ArmLine n)
       | None =>
           if str_contains ":" token then Bad (context +:+ " supports exactly one statement")
           else
             let branchOp := uppercase (default "" (fst <$> extract_word token)) in
             if bool_decide (branchOp = "FOR") || bool_decide (branchOp = "NEXT") then Bad (context +:+ " does not allow FOR/NEXT")
             else s ← parse token; Good (ArmInline s)
       end.

(** The optional ELSE of a file statement: its other part and the branch. *)
(* src/userland/basic/BasicStatementParser.cpp:445-459 [BasicStatementParser::parse] *)
Definition else_clause (context rest : string) : checked (string * option Arm) :=
  match split_keyword "ELSE" rest with
  | None => Good (rest, None)
  | Some (mainPart, elseRaw) => arm ← parseBranchArmSpec (context +:+ " ELSE") elseRaw; Good (mainPart, Some arm)
  end.

(* src/userland/basic/BasicStatementParser.cpp:156-233 [BasicStatementParser::parse] *)
Definition parse_let (rest : string) : checked Stmt :=
  '(l, r) ← or_error "LET requires assignment with '='" (str_split_at "=" rest);
  let lhsRaw := trim l in
  let rhsRaw := trim r in
  refuse (str_empty rhsRaw) "LET requires an expression";;
  match str_split_at "(" lhsRaw with
  | Some (base, inside) =>
      let baseName := trim base in
      refuse (negb (isValidVariableName baseName)) ("Invalid array variable name '" +:+ baseName +:+ "'");;
      refuse (isReadonlySessionSystemVariable baseName) (readonly_error baseName);;
      '(idx, _) ← or_error "Missing ')' in array subscript" (str_split_last ")" inside);
      let idxRaw := trim idx in
      refuse (str_empty idxRaw) "Array subscript cannot be empty";;
      idxExpr ← expression_of "Array index error: " idxRaw;
      valExpr ← expression_of "LET expression error: " rhsRaw;
      Good (LetArrayStmt baseName idxExpr valExpr)
  | None =>
      refuse (negb (isValidVariableName lhsRaw)) ("Invalid variable name '" +:+ lhsRaw +:+ "'");;
      refuse (isReadonlySessionSystemVariable lhsRaw) (readonly_error lhsRaw);;
      e ← expression_of "LET expression error: " rhsRaw;
      Good (LetStmt lhsRaw e)
  end.

(* src/userland/basic/BasicStatementParser.cpp:235-274 [BasicStatementParser::parse] *)
Definition parse_dim (rest : string) : checked Stmt :=
  '(base, inside) ← or_error "DIM requires '(' after variable name" (str_split_at "(" rest);
  let baseName := trim base in
  refuse (negb (isValidVariableName baseName)) ("Invalid array variable name '" +:+ baseName +:+ "'");;
  refuse (isReadonlySessionSystemVariable baseName) (readonly_error baseName);;
  '(size, _) ← or_error "DIM missing closing ')'" (str_split_last ")" inside);
  let sizeRaw := trim size in
  refuse (str_empty sizeRaw) "DIM size expression cannot be empty";;
  e ← expression_of "DIM size error: " sizeRaw;
  Good (DimStmt baseName e).

(* src/userland/basic/BasicStatementParser.cpp:276-332 [BasicStatementParser::parse] *)
Definition parse_input (rest : string) : checked Stmt :=
  refuse (str_empty rest) "INPUT requires a variable name";;
  '(prompt, varName) ←
    match str_split_last "," rest with
    | Some (p, v) =>
        let promptRaw := trim p in
        let varRaw := trim v in
        refuse (str_empty promptRaw) "INPUT prompt expression cannot be empty";;
        refuse (str_empty varRaw) "INPUT requires a variable name";;
        e ← expression_of "INPUT prompt expression error: " promptRaw;
        Good (Some e, varRaw)
    | None => match all_words rest with [w] => Good (None, w) | _ => Bad "INPUT requires a variable name" end
    end;
  refuse (negb (isValidVariableName varName)) ("Invalid variable name '" +:+ varName +:+ "'");;
  refuse (isReadonlySessionSystemVariable varName) (readonly_error varName);;
  Good (InputStmt prompt varName).

(* src/userland/basic/BasicStatementParser.cpp:334-351 [BasicStatementParser::parse] *)
Definition parse_chain (rest : string) : checked Stmt :=
  refuse (str_empty rest) "CHAIN requires a program name expression";;
  e ← expression_of "CHAIN program expression error: " rest;
  Good (ChainStmt e).

(* src/userland/basic/BasicStatementParser.cpp:353-363 [BasicStatementParser::parse] *)
Definition parse_goto (rest : string) : checked Stmt :=
  n ← or_error "GOTO requires a line number" (parsePositiveLineNumber rest); Good (GotoStmt n).

(* src/userland/basic/BasicStatementParser.cpp:365-375 [BasicStatementParser::parse] *)
Definition parse_gosub (rest : string) : checked Stmt :=
  n ← or_error "GOSUB requires a line number" (parsePositiveLineNumber rest); Good (GosubStmt n).

(** RETURN, CLEAR, STOP and END. *)
(* src/userland/basic/BasicStatementParser.cpp:377-397 [BasicStatementParser::parse] *)
Definition parse_bare (keyword : string) (s : Stmt) (rest : string) : checked Stmt :=
  refuse (negb (str_empty rest)) (keyword +:+ " takes no arguments");; Good s.

(** [tail] is the line after ON. *)
(* src/userland/basic/BasicStatementParser.cpp:399-434 [BasicStatementParser::parse] *)
Definition parse_on (tail : string) : checked Stmt :=
  let '(w, r) := default ("", "") (extract_word tail) in
  refuse (negb (String.eqb (uppercase w) "ERROR")) "Unknown ON statement";;
  let rest := trim (rest_of_line r) in
  refuse (str_empty rest) "ON ERROR requires GOTO <line> or STOP";;
  if String.eqb (uppercase rest) "STOP" then Good (OnErrorStmt true 0)
  else
    '(_, afterGoto) ← or_error "ON ERROR requires GOTO <line> or STOP" (split_keyword "GOTO" rest);
    n ← or_error "ON ERROR GOTO requires a line number" (parsePositiveLineNumber afterGoto);
    Good (OnErrorStmt false n).

(* src/userland/basic/BasicStatementParser.cpp:436-491 [BasicStatementParser::parse] *)
Definition parse_open (rest : string) : checked Stmt :=
  refuse (str_empty rest) "OPEN requires a file expression and TO <filevar>";;
  '(mainPart, elseArm) ← else_clause "OPEN" rest;
  '(fileExprRaw, fileVar) ← or_error "OPEN requires TO <filevar>" (split_keyword "TO" mainPart);
  refuse (str_empty fileExprRaw) "OPEN requires a file expression";;
  refuse (negb (isValidVariableName fileVar)) "OPEN requires a valid file variable name";;
  e ← expression_of "OPEN file expression error: " fileExprRaw;
  Good (OpenStmt e fileVar elseArm).

(** [FVAR, ID]: the file variable and the identifier expression's text. *)
Definition file_and_id (kw part : string) : checked (string * string) :=
  '(f, i) ← or_error (kw +:+ " requires FVAR, ID") (str_split_at "," part);
  let fileVar := trim f in
  let idExprRaw := trim i in
  refuse (negb (isValidVariableName fileVar)) (kw +:+ " requires a valid file variable name");;
  refuse (str_empty idExprRaw) (kw +:+ " requires an ID expression");;
  Good (fileVar, idExprRaw).

(** READU and READ are the same text but for the keyword. *)
(* src/userland/basic/BasicStatementParser.cpp:493-560 [BasicStatementParser::parse] *)
Definition parse_read (kw : string) (make : string → string → Expr → option Arm → Stmt) (rest : string) : checked Stmt :=
  refuse (str_empty rest) (kw +:+ " requires REC FROM FVAR, ID");;
  '(mainPart, elseArm) ← else_clause kw rest;
  '(targetVar, afterFrom) ← or_error (kw +:+ " requires FROM") (split_keyword "FROM" mainPart);
  refuse (negb (isValidVariableName targetVar)) (kw +:+ " requires a valid target variable name");;
  '(fileVar, idExprRaw) ← file_and_id kw afterFrom;
  idExpr ← expression_of (kw +:+ " ID expression error: ") idExprRaw;
  Good (make targetVar fileVar idExpr elseArm).

(** WRITEU and WRITE likewise. *)
(* src/userland/basic/BasicStatementParser.cpp:631-703 [BasicStatementParser::parse] *)
Definition parse_write (kw : string) (make : Expr → string → Expr → option Arm → Stmt) (rest : string) : checked Stmt :=
  refuse (str_empty rest) (kw +:+ " requires REC ON FVAR, ID");;
  '(mainPart, elseArm) ← else_clause kw rest;
  '(valueExprRaw, afterOn) ← or_error (kw +:+ " requires ON") (split_keyword "ON" mainPart);
  refuse (str_empty valueExprRaw) (kw +:+ " requires a value expression");;
  '(fileVar, idExprRaw) ← file_and_id kw afterOn;
  valueExpr ← expression_of (kw +:+ " value expression error: ") valueExprRaw;
  idExpr ← expression_of (kw +:+ " ID expression error: ") idExprRaw;
  Good (make valueExpr fileVar idExpr elseArm).

(* src/userland/basic/BasicStatementParser.cpp:562-629 [BasicStatementParser::parse] *)
Definition parse_READ : string → checked Stmt := parse_read "READ" ReadStmt.

(* src/userland/basic/BasicStatementParser.cpp:705-777 [BasicStatementParser::parse] *)
Definition parse_WRITE : string → checked Stmt := parse_write "WRITE" WriteStmt.

(* src/userland/basic/BasicStatementParser.cpp:779-828 [BasicStatementParser::parse] *)
Definition parse_readnext (rest : string) : checked Stmt :=
  refuse (str_empty rest) "READNEXT requires <var> FROM <filevar>";;
  '(mainPart, elseArm) ← else_clause "READNEXT" rest;
  '(targetVar, fileVar) ← or_error "READNEXT requires FROM" (split_keyword "FROM" mainPart);
  refuse (negb (isValidVariableName targetVar)) "READNEXT requires a valid target variable name";;
  refuse (negb (isValidVariableName fileVar)) "READNEXT requires a valid file variable name";;
  Good (ReadNextStmt targetVar fileVar elseArm).

(** An attribute: [DICT<token>] or an expression. *)
(* src/userland/basic/BasicStatementParser.cpp:892-915 [BasicStatementParser::parse] *)
Definition attribute_expr (kw text : string) : checked Expr :=
  if starts_with "DICT<" (uppercase (trim text)) then
    t ← or_error (kw +:+ " attribute expression error: malformed DICT field; expected DICT<token>") (tryParseDictFieldToken text);
    Good (DictFieldExpr t)
  else expression_of (kw +:+ " attribute expression error: ") text.

(** [<filevar>, <id>, <attr>[, <value-index>]], cut at every comma. *)
(* src/userland/basic/BasicStatementParser.cpp:867-929 [BasicStatementParser::parse] *)
Definition field_arguments (kw text : string) : checked (string * Expr * Expr * option Expr) :=
  let args := trim <$> getlines "," text in
  match args with
  | file :: id :: attr :: more =>
      refuse (negb (bool_decide (length more <= 1)%nat)) (kw +:+ " requires <filevar>, <id>, <attr>[, <value-index>]");;
      refuse (negb (isValidVariableName file)) (kw +:+ " requires a valid file variable name");;
      refuse (str_empty id || str_empty attr) (kw +:+ " requires non-empty ID and attribute expressions");;
      idExpr ← expression_of (kw +:+ " ID expression error: ") id;
      attrExpr ← attribute_expr kw attr;
      vi ← match more with
           | vi :: _ =>
               refuse (str_empty vi) (kw +:+ " value-index expression cannot be empty");;
               e ← expression_of (kw +:+ " value-index expression error: ") vi; Good (Some e)
           | [] => Good None
           end;
      Good (file, idExpr, attrExpr, vi)
  | _ => Bad (kw +:+ " requires <filevar>, <id>, <attr>[, <value-index>]")
  end.

(* src/userland/basic/BasicStatementParser.cpp:830-940 [BasicStatementParser::parse] *)
Definition parse_readv (rest : string) : checked Stmt :=
  refuse (str_empty rest) "READV requires <var> FROM <filevar>, <id>, <attr>[, <value-index>]";;
  '(mainPart, elseArm) ← else_clause "READV" rest;
  '(targetVar, afterFrom) ← or_error "READV requires FROM" (split_keyword "FROM" mainPart);
  refuse (negb (isValidVariableName targetVar)) "READV requires a valid target variable name";;
  '(file, idExpr, attrExpr, vi) ← field_arguments "READV" afterFrom;
  Good (ReadVStmt targetVar file idExpr attrExpr vi elseArm).

(* src/userland/basic/BasicStatementParser.cpp:942-1057 [BasicStatementParser::parse] *)
Definition parse_writev (rest : string) : checked Stmt :=
  refuse (str_empty rest) "WRITEV requires <value> ON <filevar>, <id>, <attr>[, <value-index>]";;
  '(mainPart, elseArm) ← else_clause "WRITEV" rest;
  '(valueExprRaw, afterOn) ← or_error "WRITEV requires ON" (split_keyword "ON" mainPart);
  refuse (str_empty valueExprRaw) "WRITEV requires a value expression";;
  valueExpr ← expression_of "WRITEV value expression error: " valueExprRaw;
  '(file, idExpr, attrExpr, vi) ← field_arguments "WRITEV" afterOn;
  Good (WriteVStmt valueExpr file idExpr attrExpr vi elseArm).

(* src/userland/basic/BasicStatementParser.cpp:1059-1092 [BasicStatementParser::parse] *)
Definition parse_release (rest : string) : checked Stmt :=
  refuse (str_empty rest) "RELEASE requires FVAR, ID";;
  '(fileVar, idExprRaw) ← file_and_id "RELEASE" rest;
  e ← expression_of "RELEASE ID expression error: " idExprRaw;
  Good (ReleaseStmt fileVar e).

(* src/userland/basic/BasicStatementParser.cpp:1094-1104 [BasicStatementParser::parse] *)
Definition parse_close (rest : string) : checked Stmt :=
  refuse (negb (isValidVariableName rest)) "CLOSE requires a valid file variable name";; Good (CloseStmt rest).

(* src/userland/basic/BasicStatementParser.cpp:1106-1185 [BasicStatementParser::parse] *)
Definition parse_for (rest : string) : checked Stmt :=
  '(v, afterEqRaw) ← or_error "FOR requires '='" (str_split_at "=" rest);
  let varRaw := trim v in
  refuse (negb (isValidVariableName varRaw)) "FOR requires a valid variable name";;
  refuse (isReadonlySessionSystemVariable varRaw) (readonly_error varRaw);;
  '(initRaw, afterTo) ← or_error "FOR requires TO" (split_keyword "TO" (trim afterEqRaw));
  refuse (str_empty initRaw) "FOR requires an initial value";;
  let '(limitRaw, stepRaw) := default (afterTo, "") (split_keyword "STEP" afterTo) in
  refuse (str_empty limitRaw) "FOR requires a limit value";;
  initExpr ← expression_of "FOR init error: " initRaw;
  limitExpr ← expression_of "FOR limit error: " limitRaw;
  stepExpr ← (if str_empty stepRaw then Good None else e ← expression_of "FOR STEP error: " stepRaw; Good (Some e));
  Good (ForStmt varRaw initExpr limitExpr stepExpr).

(* src/userland/basic/BasicStatementParser.cpp:1187-1202 [BasicStatementParser::parse] *)
Definition parse_next (rest : string) : checked Stmt :=
  refuse (negb (str_empty rest) && negb (isValidVariableName rest)) "NEXT requires a valid variable name";;
  refuse (negb (str_empty rest) && isReadonlySessionSystemVariable rest) (readonly_error rest);;
  Good (NextStmt rest).

(* src/userland/basic/BasicStatementParser.cpp:1204-1271 [BasicStatementParser::parse] *)
Definition parse_if (rest : string) : checked Stmt :=
  refuse (str_empty rest) "IF requires THEN <line>";;
  '(conditionExpr, branchPart) ← or_error "IF requires THEN <line>" (split_keyword "THEN" rest);
  refuse (str_empty conditionExpr) "IF requires a condition expression";;
  refuse (str_empty branchPart) "IF THEN requires a line number or statement";;
  let '(thenRaw, elseRaw) := match split_keyword "ELSE" branchPart with
                             | Some (t, e) => (t, Some e)
                             | None => (trim branchPart, None)
                             end in
  thenArm ← parseBranchArmSpec "IF THEN" thenRaw;
  elseArm ← match elseRaw with Some e => a ← parseBranchArmSpec "IF ELSE" e; Good (Some a) | None => Good None end;
  condition ← expression_of "IF condition error: " conditionExpr;
  Good (IfStmt condition thenArm elseArm).

(* src/userland/basic/BasicStatementParser.cpp:1273-1298 [BasicStatementParser::parse] *)
Definition parse_print (rest : string) : checked Stmt :=
  let suppressEol := bool_decide (str_back rest = Some ";"%char) in
  let exprText := if suppressEol then trim (String.substring 0 (String.length rest - 1) rest) else rest in
  refuse (str_empty exprText) "PRINT requires an expression";;
  e ← expression_of "PRINT expression error: " exprText;
  Good (PrintStmt e suppressEol).

(** MAT READ and MAT WRITE: [body] is the line after the second keyword. *)
(* src/userland/basic/BasicStatementParser.cpp:1336-1445 [BasicStatementParser::parse] *)
Definition parse_mat_record (isRead : bool) (body : string) : checked Stmt :=
  let kw := if isRead then "MAT READ" else "MAT WRITE" in
  let connector := if isRead then "FROM" else "ON" in
  refuse (str_empty body) (kw +:+ " requires <arr> " +:+ connector +:+ " FVAR, ID");;
  '(mainPart, elseArm) ← else_clause kw body;
  '(arrayName, afterConnector) ← or_error (kw +:+ " requires " +:+ connector) (split_keyword connector mainPart);
  refuse (negb (isValidVariableName arrayName)) (kw +:+ " requires a valid array name");;
  refuse (isReadonlySessionSystemVariable arrayName) (readonly_error arrayName);;
  '(fileVar, idExprRaw) ← file_and_id kw afterConnector;
  idExpr ← expression_of (kw +:+ " ID expression error: ") idExprRaw;
  Good (if isRead then MatReadStmt arrayName fileVar idExpr elseArm else MatWriteStmt arrayName fileVar idExpr elseArm).

(* src/userland/basic/BasicStatementParser.cpp:1448-1509 [BasicStatementParser::parse] *)
Definition parse_mat_assign (rest : string) : checked Stmt :=
  '(t, r) ← or_error "MAT requires READ, WRITE, or '<arr> ='" (str_split_at "=" rest);
  let targetName := trim t in
  let rhsRaw := trim r in
  refuse (negb (isValidVariableName targetName)) "MAT requires a valid array name";;
  refuse (isReadonlySessionSystemVariable targetName) (readonly_error targetName);;
  refuse (str_empty rhsRaw) "MAT assignment requires an expression";;
  let '(rhsFirst, afterFirst) := default ("", "") (extract_word rhsRaw) in
  if String.eqb (uppercase rhsFirst) "MAT" then
    let srcRaw := trim (rest_of_line afterFirst) in
    refuse (str_empty srcRaw) "MAT copy requires a source array name";;
    match all_words srcRaw with
    | _ :: _ :: _ => Bad "MAT copy source must be a bare array name"
    | ws =>
        let srcName := default "" (head ws) in
        refuse (negb (isValidVariableName srcName)) "MAT copy requires a valid source array name";;
        Good (MatAssignStmt targetName None srcName)
    end
  else e ← expression_of "MAT scalar expression error: " rhsRaw; Good (MatAssignStmt targetName (Some e) "").

(* src/userland/basic/BasicStatementParser.cpp:1322-1334 [BasicStatementParser::parse] *)
Definition parse_mat (rest : string) : checked Stmt :=
  refuse (str_empty rest) "MAT requires READ, WRITE, or '<arr> ='";;
  let '(subKeyword, r) := default ("", "") (extract_word rest) in
  let subUpper := uppercase subKeyword in
  let body := trim (rest_of_line r) in
  if String.eqb subUpper "READ" then parse_mat_record true body
  else if String.eqb subUpper "WRITE" then parse_mat_record false body
  else parse_mat_assign rest.

(** [line]: trimmed and not empty. *)
(* src/userland/basic/BasicStatementParser.cpp:137-154 [BasicStatementParser::parse] *)
Definition parse_keyword (line : string) : checked Stmt :=
  let '(keyword, tail) := default ("", "") (extract_word line) in
  let op := uppercase keyword in
  let rest := trim (rest_of_line tail) in
  if String.eqb op "REM" then Good RemStmt
  else if String.eqb op "LET" then parse_let rest
  else if String.eqb op "DIM" then parse_dim rest
  else if String.eqb op "INPUT" then parse_input rest
  else if String.eqb op "CHAIN" then parse_chain rest
  else if String.eqb op "GOTO" then parse_goto rest
  else if String.eqb op "GOSUB" then parse_gosub rest
  else if String.eqb op "RETURN" then parse_bare "RETURN" ReturnStmt rest
  else if String.eqb op "CLEAR" then parse_bare "CLEAR" ClearStmt rest
  else if String.eqb op "ON" then parse_on tail
  else if String.eqb op "OPEN" then parse_open rest
  else if String.eqb op "READU" then parse_read "READU" ReadUStmt rest
  else if String.eqb op "READ" then parse_READ rest
  else if String.eqb op "WRITEU" then parse_write "WRITEU" WriteUStmt rest
  else if String.eqb op "WRITE" then parse_WRITE rest
  else if String.eqb op "READNEXT" then parse_readnext rest
  else if String.eqb op "READV" then parse_readv rest
  else if String.eqb op "WRITEV" then parse_writev rest
  else if String.eqb op "RELEASE" then parse_release rest
  else if String.eqb op "CLOSE" then parse_close rest
  else if String.eqb op "FOR" then parse_for rest
  else if String.eqb op "NEXT" then parse_next rest
  else if String.eqb op "IF" then parse_if rest
  else if String.eqb op "PRINT" then parse_print rest
  else if String.eqb op "STOP" then parse_bare "STOP" StopStmt rest
  else if String.eqb op "END" then parse_bare "END" EndStmt rest
  else if String.eqb op "MAT" then parse_mat rest
  else Bad ("Unknown keyword '" +:+ op +:+ "'").
End statements.

Fixpoint parse_statement (fuel : nat) (line : string) : checked Stmt :=
  match fuel with
  | O => NoFuel
  | S fuel' => parse_keyword (parse_statement fuel') line
  end.

Definition parse_line (line : string) : checked Stmt := parse_statement (S (String.length line)) line.

(** [NoFuel] does not happen ([parse_statement_total]). *)
(* src/userland/basic/BasicStatementParser.cpp:1512-1516 [BasicStatementParser::parse] *)
Fixpoint parse_program (lines : list (Z * string)) : StatementParseResult :=
  match lines with
  | [] => mkParseResult [] []
  | (n, text) :: lines' =>
      let rest := parse_program lines' in
      let line := trim text in
      if str_empty line then rest
      else match parse_line line with
           | Good s => mkParseResult (mkLine n s :: plines rest) (perrors rest)
           | Bad e => mkParseResult (plines rest) ((n, e) :: perrors rest)
           | NoFuel => mkParseResult (plines rest) ((n, "fuel") :: perrors rest)
           end
  end.

(** ** Every line is parsed *)

Definition ends {A} (m : checked A) : Prop := m ≠ NoFuel.

Lemma ends_then {A B} (m : checked A) (f : A → checked B) : ends m → (∀ a, m = Good a → ends (f a)) → ends (m ≫= f).
Proof. intros Hm Hf. destruct m; [by apply Hf|done|done]. Qed.

Lemma ends_good {A} (a : A) : ends (Good a).
Proof. done. Qed.

Lemma ends_bad {A} e : ends (Bad e : checked A).
Proof. done. Qed.

Lemma ends_refuse b e : ends (refuse b e).
Proof. by destruct b. Qed.

Lemma ends_or_error {A} e (o : option A) : ends (or_error e o).
Proof. by destruct o. Qed.

Lemma ends_expression p t : ends (expression_of p t).
Proof. unfold expression_of. pose proof (parseExpression_ends t). by destruct (parseExpression t). Qed.

#[local] Hint Resolve ends_good ends_bad ends_refuse ends_or_error ends_expression : gemini.

(** Texts get shorter. *)
Abbreviation len := String.length.

Lemma len_ltrim p s : (len (ltrim p s) <= len s)%nat.
Proof. induction s as [|c s IH]; cbn; [lia|]. destruct (p c); cbn; lia. Qed.

Lemma len_rtrim p s : (len (rtrim p s) <= len s)%nat.
Proof. induction s as [|c s IH]; cbn; [lia|]. destruct (rtrim p s); [destruct (p c)|]; cbn in *; lia. Qed.

Lemma len_trim s : (len (trim s) <= len s)%nat.
Proof. unfold trim, trim_by. pose proof (len_rtrim is_blank (ltrim is_blank s)). pose proof (len_ltrim is_blank s). lia. Qed.

Lemma len_drop n s : (len (str_drop n s) <= len s)%nat.
Proof. revert s. induction n as [|n IH]; intros [|c s]; cbn; [lia..|]. specialize (IH s). lia. Qed.

Lemma len_substring n m s : (len (String.substring n m s) <= len s)%nat.
Proof.
  revert n m. induction s as [|c s IH]; intros [|n] [|m]; cbn; try lia.
  - specialize (IH 0%nat m). lia.
  - specialize (IH n 0%nat). lia.
  - specialize (IH n (S m)). lia.
Qed.

Lemma len_getline d s l r : getline d s = Some (l, r) → (len l <= len s)%nat.
Proof.
  revert l r. induction s as [|c s IH]; cbn; intros l r; [done|]. destruct (Ascii.eqb c d); [intros [= <- <-]; cbn; lia|].
  destruct (getline d s) as [[l' r']|]; intros [= <- <-]; cbn; [specialize (IH _ _ eq_refl)|]; lia.
Qed.

Lemma len_rest_of_line s : (len (rest_of_line s) <= len s)%nat.
Proof. unfold rest_of_line. destruct (getline NL s) as [[l r]|] eqn:E; [by eapply len_getline|cbn; lia]. Qed.

Lemma len_read_word s w r : read_word s = (w, r) → (len w + len r = len s)%nat.
Proof.
  revert w r. induction s as [|c s IH]; cbn; intros w r; [by intros [= <- <-]|].
  destruct (isspace c); [by intros [= <- <-]|]. destruct (read_word s) as [w' r']. intros [= <- <-]. cbn. by rewrite (IH _ _ eq_refl).
Qed.

Lemma len_extract_word s w r : extract_word s = Some (w, r) → (len r < len s)%nat.
Proof.
  unfold extract_word. destruct (read_word _) as [w' r'] eqn:E. destruct (str_empty w') eqn:Ew; [done|]. intros [= <- <-].
  apply len_read_word in E. pose proof (len_ltrim isspace s). destruct w'; [done|]. cbn in E. lia.
Qed.

Lemma len_split_keyword kw s a b : split_keyword kw s = Some (a, b) → (len a <= len s)%nat ∧ (len b <= len s)%nat.
Proof.
  unfold split_keyword. destruct (findKeywordToken _ _) as [pos|]; [|done]. intros [= <- <-].
  pose proof (len_trim (String.substring 0 pos s)). pose proof (len_substring 0 pos s).
  pose proof (len_trim (str_drop (pos + len kw) s)). pose proof (len_drop (pos + len kw) s). lia.
Qed.

(** *** Statements whose branches can be parsed *)
Section statements_end.
Context (parse : string → checked Stmt) (n : nat) (Hparse : ∀ t, (len t < n)%nat → ends (parse t)).
#[local] Set Default Proof Using "Type*".

Lemma ends_arm c t : (len t < n)%nat → ends (parseBranchArmSpec parse c t).
Proof.
  intros Ht. unfold parseBranchArmSpec. cbv zeta. destruct (str_empty _); [done|].
  destruct (parsePositiveLineNumber _); [done|]. destruct (str_contains _ _); [done|]. destruct (_ || _); [done|].
  apply ends_then; [apply Hparse; pose proof (len_trim t); lia|]. done.
Qed.

Lemma ends_else c t : (len t < n)%nat → ends (else_clause parse c t).
Proof.
  intros Ht. unfold else_clause. destruct (split_keyword "ELSE" t) as [[a b]|] eqn:E; [|done].
  apply len_split_keyword in E as [_ Hb]. apply ends_then; [apply ends_arm; lia|]. done.
Qed.

Lemma ends_attribute kw t : ends (attribute_expr kw t).
Proof. unfold attribute_expr. destruct (starts_with _ _); [|auto with gemini]. apply ends_then; auto with gemini. Qed.

Lemma ends_file_and_id kw t : ends (file_and_id kw t).
Proof.
  unfold file_and_id. apply ends_then; [auto with gemini|]. intros [f i] _. cbv zeta.
  do 2 (apply ends_then; [auto with gemini|]; intros _ _). done.
Qed.
#[local] Hint Resolve ends_arm ends_else ends_attribute ends_file_and_id : gemini.

Ltac ends_step :=
  match goal with
  | |- ends (_ ≫= _) => apply ends_then; [|intros ? ?]
  | |- ends (let _ := _ in _) => cbv zeta
  | |- ends (if _ then _ else _) => case_match
  | |- ends (match ?x with _ => _ end) => destruct x eqn:?
  | |- ends _ => solve [auto with gemini]
  end.

Lemma ends_fields kw t : ends (field_arguments kw t).
Proof. unfold field_arguments. repeat ends_step. Qed.
#[local] Hint Resolve ends_fields : gemini.

Lemma ends_if t : (len t < n)%nat → ends (parse_if parse t).
Proof.
  intros Ht. unfold parse_if. apply ends_then; [auto with gemini|]. intros _ _.
  destruct (split_keyword "THEN" t) as [[c br]|] eqn:E; [|done]. apply len_split_keyword in E as [_ Hb]. cbn.
  do 2 (apply ends_then; [auto with gemini|]; intros _ _).
  destruct (split_keyword "ELSE" br) as [[th el]|] eqn:E2.
  - apply len_split_keyword in E2 as [Hth Hel]. apply ends_then; [apply ends_arm; lia|]. intros a1 _.
    apply ends_then; [|intros a2 _; repeat ends_step]. apply ends_then; [apply ends_arm; lia|]. done.
  - pose proof (len_trim br). apply ends_then; [apply ends_arm; lia|]. intros a1 _. cbn. repeat ends_step.
Qed.

Lemma ends_mat_record b t : (len t < n)%nat → ends (parse_mat_record parse b t).
Proof. intros Ht. unfold parse_mat_record. repeat ends_step. Qed.

Lemma ends_mat t : (len t < n)%nat → ends (parse_mat parse t).
Proof.
  intros Ht. unfold parse_mat. apply ends_then; [auto with gemini|]. intros _ _.
  destruct (extract_word t) as [[w r]|] eqn:E; cbn [default from_option id].
  - apply len_extract_word in E. pose proof (len_rest_of_line r). pose proof (len_trim (rest_of_line r)). cbv zeta.
    destruct (String.eqb _ _); [apply ends_mat_record; lia|]. destruct (String.eqb _ _); [apply ends_mat_record; lia|].
    unfold parse_mat_assign. repeat ends_step.
  - cbv zeta. cbn. unfold parse_mat_assign. repeat ends_step.
Qed.

Lemma ends_keyword line : (len line <= n)%nat → ends (parse_keyword parse line).
Proof.
  intros Hn. unfold parse_keyword. destruct (extract_word line) as [[w r]|] eqn:E; [|done]. cbn [default from_option id].
  apply len_extract_word in E. pose proof (len_rest_of_line r). pose proof (len_trim (rest_of_line r)). cbv zeta.
  assert (len (trim (rest_of_line r)) < n)%nat as Hr by lia. set (rest := trim (rest_of_line r)) in *. clearbody rest.
  repeat match goal with |- ends (if ?b then _ else _) => destruct b end; try done.
  all: first [by apply ends_if|by apply ends_mat|
    unfold parse_let, parse_dim, parse_input, parse_chain, parse_goto, parse_gosub, parse_bare, parse_on, parse_open, parse_READ,
      parse_WRITE, parse_read, parse_write, parse_readnext, parse_readv, parse_writev, parse_release, parse_close, parse_for,
      parse_next, parse_print; repeat ends_step].
Qed.
End statements_end.

Lemma parse_statement_total fuel : ∀ line, (len line < fuel)%nat → parse_statement fuel line ≠ NoFuel.
Proof.
  induction fuel as [|fuel IH]; intros line Hl; [lia|]. cbn. apply (ends_keyword _ fuel); [|lia]. intros t Ht. by apply IH.
Qed.

(** One statement or one message for each line that is not blank. *)
Lemma parse_line_total line : (∃ s, parse_line line = Good s) ∨ ∃ e, parse_line line = Bad e.
Proof.
  pose proof (parse_statement_total (S (len line)) line ltac:(lia)). unfold parse_line.
  destruct (parse_statement _ _); [by left; eauto|by right; eauto|done].
Qed.
