(* ===== verification/BasicEmit.v ===== *)
(** * The BASIC compiler

    [BasicBytecodeEmitter.cpp] (statements; expressions are [emitNode] of
    BasicExpr), [BasicSemanticAnalyzer.cpp] and [BasicCompiler.cpp]. The emitter
    appends instructions to [result.program] and goes back to write jump
    targets: those inside a statement when the statement is complete, those to
    other lines after the last line. The model keeps that structure: an
    [EmitState] with the fields of the result and the local variables of
    [emit], and one definition per kind of statement. The statements under THEN
    and ELSE ([emitInlineStatement]) and those on a line of their own share
    these definitions where the source repeats the code. *)

From Stdlib Require Import Ascii String.
From S2P Require Import Prelude CLib Dbl Records Conv Bytecode Correl Values Registry BasicExpr BasicStmt.
From stdpp Require Import options.
Local Open Scope Z_scope.

(** ** State *)

(* src/userland/basic/BasicBytecodeEmitter.cpp:276-280 [JumpFixup] *)
Record JumpFixup := mkFixup { fx_sourceLine : Z; instructionIndex : nat; fx_targetLine : Z }.

(** [result.program], [result.errors] and [result.sourceLinePerInstr], then the
    locals. *)
(* src/userland/basic/BasicBytecodeEmitter.cpp:283-287 [BasicBytecodeEmitter::emit] *)
Record EmitState := mkEmit {
  em_program : list Instruction;
  em_errors : list (Z * string);
  em_source : list Z;
  explicitEnd : bool;
  lineToInstructionIndex : gmap Z nat;
  jumpFixups : list JumpFixup;
}.

Definition set_program (p : list Instruction) (s : EmitState) : EmitState :=
  mkEmit p (em_errors s) (em_source s) (explicitEnd s) (lineToInstructionIndex s) (jumpFixups s).
Definition set_errors (e : list (Z * string)) (s : EmitState) : EmitState :=
  mkEmit (em_program s) e (em_source s) (explicitEnd s) (lineToInstructionIndex s) (jumpFixups s).
Definition set_source (l : list Z) (s : EmitState) : EmitState :=
  mkEmit (em_program s) (em_errors s) l (explicitEnd s) (lineToInstructionIndex s) (jumpFixups s).
Definition set_end (b : bool) (s : EmitState) : EmitState :=
  mkEmit (em_program s) (em_errors s) (em_source s) b (lineToInstructionIndex s) (jumpFixups s).
Definition set_index (m : gmap Z nat) (s : EmitState) : EmitState :=
  mkEmit (em_program s) (em_errors s) (em_source s) (explicitEnd s) m (jumpFixups s).
Definition set_fixups (f : list JumpFixup) (s : EmitState) : EmitState :=
  mkEmit (em_program s) (em_errors s) (em_source s) (explicitEnd s) (lineToInstructionIndex s) f.

(** Emitting code: [None] is the code's [return false]. *)
Definition emitting (A : Type) : Type := EmitState → option A * EmitState.

#[global] Instance emitting_ret : MRet emitting := λ A a s, (Some a, s).
#[global] Instance emitting_bind : MBind emitting := λ A B f m s,
  match m s with (Some a, s') => f a s' | (None, s') => (None, s') end.

(** ** Appending and patching *)

(** [result.program.size()] *)
Definition here : emitting nat := λ s, (Some (length (em_program s)), s).

Definition update (f : EmitState → EmitState) : emitting unit := λ s, (Some tt, f s).

Definition push_all (code : list Instruction) : emitting unit :=
  update (λ s, set_program (em_program s ++ code) s).
Definition push_back (i : Instruction) : emitting unit := push_all [i].

Definition set_operand (v : Value) (i : Instruction) : Instruction := mkInstr (op i) v (callFunc i).

(** [static_cast<int>(ip)], a conversion modulo 2^32. *)
Definition address (ip : nat) : Value := VInt (to_int32 (Z.of_nat ip)).

(** [result.program[i].operand = static_cast<int>(target)] *)
Definition patch (i target : nat) : emitting unit :=
  update (λ s, set_program (alter (set_operand (address target)) i (em_program s)) s).

(** [result.errors.push_back({line, message}); return false;] *)
Definition report {A} (line : Z) (message : string) : emitting A := λ s,
  (None, set_errors (em_errors s ++ [(line, message)]) s).

(** [ExpressionAstEmitter(...).emit(e)], its error after [prefix]. The code also
    leaves a part of the expression's instructions behind; the program is thrown
    away when there is an error. *)
Definition emit_expression (line : Z) (prefix : string) (e : Expr) : emitting unit :=
  match emit_expr e with
  | Good code => push_all code
  | Bad error => report line (prefix +:+ error)
  | NoFuel => report line prefix
  end.

(** [makeNoOperandInstruction(CoerceInt)] after the value of a % variable. *)
Definition coercion (var : string) : list Instruction :=
  if isIntVar var then [makeNoOperandInstruction CoerceInt] else [].

Definition named_instr (o : OpCode) (name : string) : Instruction := instr o (VStr (uppercase name)).

(** ** Statements *)

Section statements.
Context (line : Z).

(* src/userland/basic/BasicBytecodeEmitter.cpp:741-757 [BasicBytecodeEmitter::emit] *)
Definition emit_let (var : string) (e : Expr) : emitting unit :=
  emit_expression line "LET expression error: " e;;
  push_all (coercion var ++ [named_instr StoreVar var]).

(* src/userland/basic/BasicBytecodeEmitter.cpp:758-775 [BasicBytecodeEmitter::emit] *)
Definition emit_input (prompt : option Expr) (var : string) : emitting unit :=
  (match prompt with
   | Some e => emit_expression line "INPUT prompt expression error: " e;; push_back (makeNoOperandInstruction PrintVal)
   | None => mret tt
   end);;
  push_all (makeNoOperandInstruction InputStr :: coercion var ++ [named_instr StoreVar var]).

(* src/userland/basic/BasicBytecodeEmitter.cpp:776-788 [BasicBytecodeEmitter::emit] *)
Definition emit_chain (e : Expr) : emitting unit :=
  emit_expression line "CHAIN program expression error: " e;; push_back (makeNoOperandInstruction Chain).

(** A jump to a line: GOTO, GOSUB, ON ERROR GOTO, a line number as a branch. *)
(* src/userland/basic/BasicBytecodeEmitter.cpp:789-798 [BasicBytecodeEmitter::emit] *)
Definition emit_jump (o : OpCode) (target : Z) : emitting unit :=
  jumpIp ← here;
  push_back (instr o (VInt 0));;
  update (λ s, set_fixups (jumpFixups s ++ [mkFixup line jumpIp target]) s).

(* src/userland/basic/BasicBytecodeEmitter.cpp:802-848 [BasicBytecodeEmitter::emit] *)
Definition emit_for (var : string) (init limit : Expr) (step : option Expr) : emitting unit :=
  if isStringVar var
  then report line ("String variable '" +:+ var +:+ "' cannot be used as a FOR loop variable")
  else
    emit_expression line "FOR init error: " init;;
    push_all (coercion var ++ [named_instr StoreVar var]);;
    emit_expression line "FOR limit error: " limit;;
    (match step with
     | Some e => emit_expression line "FOR STEP error: " e
     | None => push_back (instr PushInt (VInt 1))
     end);;
    push_back (named_instr ForSetup var).

(** [thenBranch], [elseBranch]: the emission of the arms; [thenFallsThrough]: the
    THEN arm is not a line number. *)
(* src/userland/basic/BasicBytecodeEmitter.cpp:852-886 [BasicBytecodeEmitter::emit] *)
Definition emit_if (condition : Expr) (thenFallsThrough : bool) (thenBranch : emitting unit) (elseBranch : option (emitting unit)) : emitting unit :=
  emit_expression line "IF condition error: " condition;;
  jzIp ← here;
  push_back (instr JumpIfZero (VInt 0));;
  thenBranch;;
  match elseBranch with
  | None => endIp ← here; patch jzIp endIp
  | Some branch =>
      jumpAfterElseIp ← here;
      (if thenFallsThrough then push_back (instr Jump (VInt 0)) else mret tt);;
      elseStartIp ← here;
      branch;;
      patch jzIp elseStartIp;;
      (if thenFallsThrough then endIp ← here; patch jumpAfterElseIp endIp else mret tt)
  end.

(* src/userland/basic/BasicBytecodeEmitter.cpp:887-902 [BasicBytecodeEmitter::emit] *)
Definition emit_print (e : Expr) (suppressEol : bool) : emitting unit :=
  emit_expression line "PRINT expression error: " e;;
  push_all (makeNoOperandInstruction PrintVal :: if suppressEol then [] else [makeNoOperandInstruction PrintEol]).

(* src/userland/basic/BasicBytecodeEmitter.cpp:912-924 [BasicBytecodeEmitter::emit] *)
Definition emit_dim (var : string) (size : Expr) : emitting unit :=
  emit_expression line "DIM size error: " size;; push_back (named_instr DimArray var).

(* src/userland/basic/BasicBytecodeEmitter.cpp:925-953 [BasicBytecodeEmitter::emit] *)
Definition emit_let_array (var : string) (index value : Expr) : emitting unit :=
  emit_expression line "LET array value error: " value;;
  push_all (coercion var);;
  emit_expression line "LET array index error: " index;;
  push_back (named_instr StoreArr var).

(** The code of a file statement: without ELSE the instruction that traps; with
    ELSE its trying form, a jump over [onSuccess] to the branch when it failed,
    and [onFailure] before the branch. (READ, READU and MAT READ on a line write
    the first address before the branch is emitted, the others after it.) *)
(* src/userland/basic/BasicBytecodeEmitter.cpp:967-981 [BasicBytecodeEmitter::emit] *)
Definition emit_access (o try_o : OpCode) (fileVar : string) (onSuccess onFailure : list Instruction) (elseBranch : option (emitting unit)) : emitting unit :=
  match elseBranch with
  | None => push_all (named_instr o fileVar :: onSuccess)
  | Some branch =>
      push_back (named_instr try_o fileVar);;
      jzIp ← here;
      push_back (instr JumpIfZero (VInt 0));;
      push_all onSuccess;;
      skipElseJumpIp ← here;
      push_back (instr Jump (VInt 0));;
      failPathIp ← here;
      push_all onFailure;;
      branch;;
      patch jzIp failPathIp;;
      endIp ← here;
      patch skipElseJumpIp endIp
  end.

(* src/userland/basic/BasicBytecodeEmitter.cpp:954-982 [BasicBytecodeEmitter::emit] *)
Definition emit_open (e : Expr) (fileVar : string) (elseBranch : option (emitting unit)) : emitting unit :=
  emit_expression line "OPEN file expression error: " e;;
  emit_access OpenFile OpenFileTry fileVar [] [] elseBranch.

(** The record read is left on the stack, a placeholder when there is none. *)
Definition emit_fetch (o try_o : OpCode) (targetVar fileVar : string) (elseBranch : option (emitting unit)) : emitting unit :=
  emit_access o try_o fileVar [named_instr StoreVar targetVar] [makeNoOperandInstruction Drop] elseBranch.

(** READ and READU (lines 1056-1089). *)
(* src/userland/basic/BasicBytecodeEmitter.cpp:983-1016 [BasicBytecodeEmitter::emit] *)
Definition emit_read (kw : string) (o try_o : OpCode) (targetVar fileVar : string) (id : Expr) (elseBranch : option (emitting unit)) : emitting unit :=
  emit_expression line (kw +:+ " ID expression error: ") id;;
  emit_fetch o try_o targetVar fileVar elseBranch.

(** WRITE and WRITEU (lines 1090-1128). *)
(* src/userland/basic/BasicBytecodeEmitter.cpp:1017-1055 [BasicBytecodeEmitter::emit] *)
Definition emit_write (kw : string) (o try_o : OpCode) (value : Expr) (fileVar : string) (id : Expr) (elseBranch : option (emitting unit)) : emitting unit :=
  emit_expression line (kw +:+ " value expression error: ") value;;
  emit_expression line (kw +:+ " ID expression error: ") id;;
  emit_access o try_o fileVar [] [] elseBranch.

(* src/userland/basic/BasicBytecodeEmitter.cpp:1129-1141 [BasicBytecodeEmitter::emit] *)
Definition emit_release (fileVar : string) (id : Expr) : emitting unit :=
  emit_expression line "RELEASE ID expression error: " id;; push_back (named_instr ReleaseRec fileVar).

(* src/userland/basic/BasicBytecodeEmitter.cpp:1142-1150 [BasicBytecodeEmitter::emit] *)
Definition emit_on_error (stop : bool) (target : Z) : emitting unit :=
  if stop then push_back (instr SetOnErrorHandler (VInt 0)) else emit_jump SetOnErrorHandler target.

(* src/userland/basic/BasicBytecodeEmitter.cpp:1151-1172 [BasicBytecodeEmitter::emit] *)
Definition emit_readnext (targetVar fileVar : string) (elseBranch : option (emitting unit)) : emitting unit :=
  emit_fetch ReadNext ReadNextTry targetVar fileVar elseBranch.

(** The value index of READV and WRITEV: 0 when there is none. *)
Definition emit_value_index (kw : string) (valueIndex : option Expr) : emitting unit :=
  match valueIndex with
  | Some e => emit_expression line (kw +:+ " value-index expression error: ") e
  | None => push_back (instr PushInt (VInt 0))
  end.

(* src/userland/basic/BasicBytecodeEmitter.cpp:1173-1220 [BasicBytecodeEmitter::emit] *)
Definition emit_readv (targetVar fileVar : string) (id attr : Expr) (valueIndex : option Expr) (elseBranch : option (emitting unit)) : emitting unit :=
  emit_expression line "READV ID expression error: " id;;
  emit_expression line "READV attribute expression error: " attr;;
  push_all (if readVAttrNeedsDictResolve attr then [named_instr ResolveDictAttr fileVar] else []);;
  emit_value_index "READV" valueIndex;;
  emit_fetch ReadV ReadVTry targetVar fileVar elseBranch.

Definition is_dict_field (e : Expr) : bool := match e with DictFieldExpr _ => true | _ => false end.

(** [resolve]: on a line of its own; a WRITEV under THEN or ELSE (lines 613-659)
    does not resolve a DICT field. *)
(* src/userland/basic/BasicBytecodeEmitter.cpp:1221-1267 [BasicBytecodeEmitter::emit] *)
Definition emit_writev (resolve : bool) (value : Expr) (fileVar : string) (id attr : Expr) (valueIndex : option Expr) (elseBranch : option (emitting unit)) : emitting unit :=
  emit_expression line "WRITEV value expression error: " value;;
  emit_expression line "WRITEV ID expression error: " id;;
  emit_expression line "WRITEV attribute expression error: " attr;;
  push_all (if resolve && is_dict_field attr then [named_instr ResolveDictAttr fileVar] else []);;
  emit_value_index "WRITEV" valueIndex;;
  emit_access WriteV WriteVTry fileVar [] [] elseBranch.

(* src/userland/basic/BasicBytecodeEmitter.cpp:1274-1292 [BasicBytecodeEmitter::emit] *)
Definition emit_mat_assign (target : string) (scalar : option Expr) (source : string) : emitting unit :=
  if negb (str_empty source) then push_back (instr MatCopy (VStr (uppercase target +:+ "|" +:+ uppercase source)))
  else match scalar with
       | None => report line "MAT requires a scalar expression or 'MAT <arr>'"
       | Some e => emit_expression line "MAT scalar expression error: " e;; push_back (named_instr MatInit target)
       end.

(* src/userland/basic/BasicBytecodeEmitter.cpp:1293-1324 [BasicBytecodeEmitter::emit] *)
Definition emit_mat_read (target fileVar : string) (id : Expr) (elseBranch : option (emitting unit)) : emitting unit :=
  emit_expression line "MAT READ ID expression error: " id;;
  emit_access ReadRec ReadRecTry fileVar [named_instr MatLoadFromRec target] [makeNoOperandInstruction Drop] elseBranch.

(* src/userland/basic/BasicBytecodeEmitter.cpp:1325-1355 [BasicBytecodeEmitter::emit] *)
Definition emit_mat_write (source fileVar : string) (id : Expr) (elseBranch : option (emitting unit)) : emitting unit :=
  push_back (named_instr MatStoreToRec source);;
  emit_expression line "MAT WRITE ID expression error: " id;;
  emit_access WriteRec WriteRecTry fileVar [] [] elseBranch.

Definition is_line_arm (a : Arm) : bool := match a with ArmLine _ => true | ArmInline _ => false end.

(** The statements of a branch; [emitBranchArm] is lines 720-733. *)
(* src/userland/basic/BasicBytecodeEmitter.cpp:292-718 [emitInlineStatement] *)
Fixpoint emitInlineStatement (s : Stmt) : emitting unit :=
  match s with
  | LetStmt var e => emit_let var e
  | InputStmt prompt var => emit_input prompt var
  | ChainStmt e => emit_chain e
  | GotoStmt n => emit_jump Jump n
  | GosubStmt n => emit_jump Call n
  | ReturnStmt => push_back (makeNoOperandInstruction Return)
  | IfStmt c th el => emit_if c (negb (is_line_arm th)) (emitBranchArm th) (option_map emitBranchArm el)
  | PrintStmt e b => emit_print e b
  | StopStmt | EndStmt => push_back (makeNoOperandInstruction Halt)
  | OpenStmt e f el => emit_open e f (option_map emitBranchArm el)
  | ReadStmt v f e el => emit_read "READ" ReadRec ReadRecTry v f e (option_map emitBranchArm el)
  | ReadUStmt v f e el => emit_read "READU" ReadRecU ReadRecUTry v f e (option_map emitBranchArm el)
  | WriteUStmt v f e el => emit_write "WRITEU" WriteRecU WriteRecUTry v f e (option_map emitBranchArm el)
  | ReleaseStmt f e => emit_release f e
  | WriteStmt v f e el => emit_write "WRITE" WriteRec WriteRecTry v f e (option_map emitBranchArm el)
  | ReadNextStmt v f el => emit_readnext v f (option_map emitBranchArm el)
  | ReadVStmt v f e a vi el => emit_readv v f e a vi (option_map emitBranchArm el)
  | WriteVStmt v f e a vi el => emit_writev false v f e a vi (option_map emitBranchArm el)
  | CloseStmt f => push_back (named_instr CloseFile f)
  | ClearStmt => push_back (makeNoOperandInstruction ClearVars)
  | RemStmt => mret tt
  | _ => report line "Unsupported inline branch statement"
  end
with emitBranchArm (a : Arm) : emitting unit :=
  match a with ArmLine n => emit_jump Jump n | ArmInline s => emitInlineStatement s end.

(** The statement of a line. *)
(* src/userland/basic/BasicBytecodeEmitter.cpp:738-740 [BasicBytecodeEmitter::emit] *)
Definition emit_statement (s : Stmt) : emitting unit :=
  match s with
  | ForStmt v i l st => emit_for v i l st
  | NextStmt v => push_back (named_instr ForNext v)
  | EndStmt => push_back (makeNoOperandInstruction Halt);; update (set_end true)
  | DimStmt v e => emit_dim v e
  | LetArrayStmt v i e => emit_let_array v i e
  | OnErrorStmt b n => emit_on_error b n
  | WriteVStmt v f e a vi el => emit_writev true v f e a vi (option_map emitBranchArm el)
  | MatAssignStmt t e src => emit_mat_assign t e src
  | MatReadStmt t f e el => emit_mat_read t f e (option_map emitBranchArm el)
  | MatWriteStmt t f e el => emit_mat_write t f e (option_map emitBranchArm el)
  | _ => emitInlineStatement s
  end.
End statements.

(** ** The program *)

(* src/userland/basic/BasicBytecodeEmitter.cpp:735-1371 [BasicBytecodeEmitter::emit] *)
Definition emit_line (l : ParsedBasicLine) (s : EmitState) : EmitState :=
  let n := lineNumber l in
  let lineStartIp := length (em_program s) in
  let s := set_index (<[n := lineStartIp]> (lineToInstructionIndex s)) s in
  match emit_statement n (statement l) s with
  | (None, s') => s'
  | (Some _, s') => set_source (em_source s' ++ replicate (length (em_program s') - lineStartIp) n) s'
  end.

(* src/userland/basic/BasicBytecodeEmitter.cpp:1373-1379 [BasicBytecodeEmitter::emit] *)
Definition apply_fixup (index : gmap Z nat) (p : list Instruction) (f : JumpFixup) : list Instruction :=
  match index !! fx_targetLine f with
  | None => p
  | Some ip => alter (set_operand (address ip)) (instructionIndex f) p
  end.

(* src/userland/basic/BasicBytecodeEmitter.h:12-17 [BasicBytecodeEmissionResult] *)
Record EmissionResult := mkEmission {
  es_success : bool;
  es_program : list Instruction;
  es_source : list Z;
  es_errors : list (Z * string);
}.

Definition empty_emission : EmitState := mkEmit [] [] [] false ∅ [].

Definition is_halt (i : option Instruction) : bool :=
  match i with Some i => bool_decide (op i = Halt) | None => false end.

(* src/userland/basic/BasicBytecodeEmitter.cpp:1381-1395 [BasicBytecodeEmitter::emit] *)
Definition emit (lines : list ParsedBasicLine) : EmissionResult :=
  let s := foldl (λ s l, emit_line l s) empty_emission lines in
  let p := foldl (apply_fixup (lineToInstructionIndex s)) (em_program s) (jumpFixups s) in
  match em_errors s with
  | [] =>
      if explicitEnd s && is_halt (last p) then mkEmission true p (em_source s) []
      else mkEmission true (p ++ [makeNoOperandInstruction Halt]) (em_source s ++ [0]) []
  | errors => mkEmission false [] [] errors
  end.

(** ** Semantic analysis: every line named is a line of the program *)

Section validate.
Context (knownLines : gset Z) (ownerLine : Z).

(* src/userland/basic/BasicSemanticAnalyzer.cpp:37-46 [validateLineTarget] *)
Definition validateLineTarget (targetLine : Z) : list (Z * string) :=
  if bool_decide (targetLine ∈ knownLines) then []
  else [(ownerLine, "Unknown target line " +:+ to_string targetLine)].

(** [validateBranchArm] is lines 54-67. *)
(* src/userland/basic/BasicSemanticAnalyzer.cpp:69-132 [validateStatement] *)
Fixpoint validateStatement (s : Stmt) : list (Z * string) :=
  let branch el := match el with Some a => validateBranchArm a | None => [] end in
  match s with
  | GotoStmt n | GosubStmt n => validateLineTarget n
  | IfStmt _ th el => validateBranchArm th ++ branch el
  | OpenStmt _ _ el | ReadStmt _ _ _ el | WriteStmt _ _ _ el | ReadNextStmt _ _ el | ReadVStmt _ _ _ _ _ el
  | WriteVStmt _ _ _ _ _ el | ReadUStmt _ _ _ el | WriteUStmt _ _ _ el | MatReadStmt _ _ _ el | MatWriteStmt _ _ _ el => branch el
  | OnErrorStmt stop n => if stop then [] else validateLineTarget n
  | _ => []
  end
with validateBranchArm (a : Arm) : list (Z * string) :=
  match a with ArmLine n => validateLineTarget n | ArmInline s => validateStatement s end.
End validate.

(** The errors, or the program; its copy is in BasicIr. *)
(* src/userland/basic/BasicSemanticAnalyzer.cpp:279-302 [BasicSemanticAnalyzer::analyze] *)
Definition analyze (parsed : StatementParseResult) : list (Z * string) + list ParsedBasicLine :=
  match perrors parsed with
  | [] =>
      let knownLines := list_to_set (lineNumber <$> plines parsed) : gset Z in
      match mjoin ((λ l, validateStatement knownLines (lineNumber l) (statement l)) <$> plines parsed) with
      | [] => inr (plines parsed)
      | errors => inl errors
      end
  | errors => inl errors
  end.

(** ** The compiler *)

(* src/userland/basic/BasicCompiler.h:23-30 [BasicCompileResult] *)
Record BasicCompileResult := mkCompiled {
  c_success : bool;
  c_program : list Instruction;
  c_source : list Z;
  instructionCount : Z;
  labelCount : Z;
  c_errors : list (Z * string);
}.

Definition compile_failed (errors : list (Z * string)) : BasicCompileResult := mkCompiled false [] [] 0 0 errors.

(** [lines]: the numbered lines of the program, in order. *)
(* src/userland/basic/BasicCompiler.cpp:10-56 [BasicCompiler::compile] *)
Definition compile (lines : list (Z * string)) : BasicCompileResult :=
  let parsed := parse_program lines in
  match perrors parsed with
  | [] =>
      match analyze parsed with
      | inl errors => compile_failed errors
      | inr program =>
          let e := emit program in
          if es_success e then mkCompiled true (es_program e) (es_source e) (Z.of_nat (length (es_program e))) 0 []
          else compile_failed (es_errors e)
      end
  | errors => compile_failed errors
  end.
