(* ===== verification/BasicLayout.v ===== *)
(** * The BASIC compiler against a layout without patching

    A reference compiler: the code of a statement as a list of [item]s, whose
    jumps inside the statement are relative to their own place and whose jumps to
    lines name the line, put together by [++] and turned into instructions in one
    pass ([place]) once every line's address is known. [emit_layout] shows that
    the emitter's appending and patching computes the same program, line table
    and messages; [compiled_control_flow] what that gives for a program the
    compiler accepts. *)

From Stdlib Require Import Ascii String.
From S2P Require Import Prelude CLib Dbl Records Conv Bytecode Correl Values Registry BasicExpr BasicStmt BasicEmit.
From stdpp Require Import options.
Local Open Scope Z_scope.

(** ** The reference *)

Inductive item :=
| Plain (i : Instruction)
| Skip (o : OpCode) (distance : nat)
| ToLine (o : OpCode) (line : Z).

Abbreviation plain_code := (map Plain).

Definition jump_back (o : OpCode) (target : option nat) : Instruction :=
  instr o (match target with Some ip => address ip | None => VInt 0 end).

(** The instruction of an item at the address [ip]. *)
Definition place_item (index : Z → option nat) (ip : nat) (x : item) : Instruction :=
  match x with
  | Plain i => i
  | Skip o d => jump_back o (Some (ip + d)%nat)
  | ToLine o n => jump_back o (index n)
  end.

Fixpoint place (index : Z → option nat) (ip : nat) (code : list item) : list Instruction :=
  match code with [] => [] | x :: code' => place_item index ip x :: place index (S ip) code' end.

(** Expression code, its message after [prefix]. *)
Definition expression_items (prefix : string) (e : Expr) : checked (list item) :=
  match emit_expr e with
  | Good code => Good (plain_code code)
  | Bad error => Bad (prefix +:+ error)
  | NoFuel => Bad prefix
  end.

(** The items of one part after those of another. *)
Definition follow (a b : checked (list item)) : checked (list item) := x ← a; y ← b; Good (x ++ y).
Infix "▷" := follow (at level 60, right associativity).

Definition ret_items (code : list Instruction) : checked (list item) := Good (plain_code code).

Definition if_items (falls : bool) (th : checked (list item)) (el : option (checked (list item))) : checked (list item) :=
  t ← th;
  match el with
  | None => Good (Skip JumpIfZero (S (length t)) :: t)
  | Some el =>
      e ← el;
      Good (Skip JumpIfZero (S (length t) + if falls then 1 else 0) :: t ++ (if falls then [Skip Jump (S (length e))] else []) ++ e)
  end.

Definition access_items (o try_o : OpCode) (fileVar : string) (onSuccess onFailure : list Instruction) (el : option (checked (list item))) : checked (list item) :=
  match el with
  | None => ret_items (named_instr o fileVar :: onSuccess)
  | Some el =>
      e ← el;
      Good (Plain (named_instr try_o fileVar) :: Skip JumpIfZero (length onSuccess + 2) :: plain_code onSuccess ++
            Skip Jump (S (length onFailure + length e)) :: plain_code onFailure ++ e)
  end.

Definition fetch_items (o try_o : OpCode) (v f : string) := access_items o try_o f [named_instr StoreVar v] [makeNoOperandInstruction Drop].

Definition value_index_items (kw : string) (vi : option Expr) : checked (list item) :=
  match vi with
  | Some e => expression_items (kw +:+ " value-index expression error: ") e
  | None => ret_items [instr PushInt (VInt 0)]
  end.

Definition writev_items (resolve : bool) (v : Expr) (f : string) (e a : Expr) (vi : option Expr) (el : option (checked (list item))) : checked (list item) :=
  expression_items "WRITEV value expression error: " v ▷ expression_items "WRITEV ID expression error: " e ▷
  expression_items "WRITEV attribute expression error: " a ▷
  ret_items (if resolve && is_dict_field a then [named_instr ResolveDictAttr f] else []) ▷
  value_index_items "WRITEV" vi ▷ access_items WriteV WriteVTry f [] [] el.

Fixpoint inline_items (s : Stmt) : checked (list item) :=
  match s with
  | LetStmt var e => expression_items "LET expression error: " e ▷ ret_items (coercion var ++ [named_instr StoreVar var])
  | InputStmt prompt var =>
      (match prompt with
       | Some e => expression_items "INPUT prompt expression error: " e ▷ ret_items [makeNoOperandInstruction PrintVal]
       | None => ret_items []
       end) ▷ ret_items (makeNoOperandInstruction InputStr :: coercion var ++ [named_instr StoreVar var])
  | ChainStmt e => expression_items "CHAIN program expression error: " e ▷ ret_items [makeNoOperandInstruction Chain]
  | GotoStmt n => Good [ToLine Jump n]
  | GosubStmt n => Good [ToLine Call n]
  | ReturnStmt => ret_items [makeNoOperandInstruction Return]
  | IfStmt c th el => expression_items "IF condition error: " c ▷ if_items (negb (is_line_arm th)) (arm_items th) (option_map arm_items el)
  | PrintStmt e b => expression_items "PRINT expression error: " e ▷
      ret_items (makeNoOperandInstruction PrintVal :: if b then [] else [makeNoOperandInstruction PrintEol])
  | StopStmt | EndStmt => ret_items [makeNoOperandInstruction Halt]
  | OpenStmt e f el => expression_items "OPEN file expression error: " e ▷ access_items OpenFile OpenFileTry f [] [] (option_map arm_items el)
  | ReadStmt v f e el => expression_items "READ ID expression error: " e ▷ fetch_items ReadRec ReadRecTry v f (option_map arm_items el)
  | ReadUStmt v f e el => expression_items "READU ID expression error: " e ▷ fetch_items ReadRecU ReadRecUTry v f (option_map arm_items el)
  | WriteUStmt v f e el => expression_items "WRITEU value expression error: " v ▷ expression_items "WRITEU ID expression error: " e ▷
      access_items WriteRecU WriteRecUTry f [] [] (option_map arm_items el)
  | WriteStmt v f e el => expression_items "WRITE value expression error: " v ▷ expression_items "WRITE ID expression error: " e ▷
      access_items WriteRec WriteRecTry f [] [] (option_map arm_items el)
  | ReleaseStmt f e => expression_items "RELEASE ID expression error: " e ▷ ret_items [named_instr ReleaseRec f]
  | ReadNextStmt v f el => fetch_items ReadNext ReadNextTry v f (option_map arm_items el)
  | ReadVStmt v f e a vi el =>
      expression_items "READV ID expression error: " e ▷ expression_items "READV attribute expression error: " a ▷
      ret_items (if readVAttrNeedsDictResolve a then [named_instr ResolveDictAttr f] else []) ▷
      value_index_items "READV" vi ▷ fetch_items ReadV ReadVTry v f (option_map arm_items el)
  | WriteVStmt v f e a vi el => writev_items false v f e a vi (option_map arm_items el)
  | CloseStmt f => ret_items [named_instr CloseFile f]
  | ClearStmt => ret_items [makeNoOperandInstruction ClearVars]
  | RemStmt => ret_items []
  | _ => Bad "Unsupported inline branch statement"
  end
with arm_items (a : Arm) : checked (list item) :=
  match a with ArmLine n => Good [ToLine Jump n] | ArmInline s => inline_items s end.

Definition line_items (s : Stmt) : checked (list item) :=
  match s with
  | ForStmt v i l st =>
      if isStringVar v then Bad ("String variable '" +:+ v +:+ "' cannot be used as a FOR loop variable")
      else
        expression_items "FOR init error: " i ▷ ret_items (coercion v ++ [named_instr StoreVar v]) ▷
        expression_items "FOR limit error: " l ▷
        (match st with Some e => expression_items "FOR STEP error: " e | None => ret_items [instr PushInt (VInt 1)] end) ▷
        ret_items [named_instr ForSetup v]
  | NextStmt v => ret_items [named_instr ForNext v]
  | DimStmt v e => expression_items "DIM size error: " e ▷ ret_items [named_instr DimArray v]
  | LetArrayStmt v i e =>
      expression_items "LET array value error: " e ▷ ret_items (coercion v) ▷
      expression_items "LET array index error: " i ▷ ret_items [named_instr StoreArr v]
  | OnErrorStmt b n => if b then ret_items [instr SetOnErrorHandler (VInt 0)] else Good [ToLine SetOnErrorHandler n]
  | WriteVStmt v f e a vi el => writev_items true v f e a vi (option_map arm_items el)
  | MatAssignStmt t e src =>
      if negb (str_empty src) then ret_items [instr MatCopy (VStr (uppercase t +:+ "|" +:+ uppercase src))]
      else match e with
           | None => Bad "MAT requires a scalar expression or 'MAT <arr>'"
           | Some e => expression_items "MAT scalar expression error: " e ▷ ret_items [named_instr MatInit t]
           end
  | MatReadStmt t f e el => expression_items "MAT READ ID expression error: " e ▷
      access_items ReadRec ReadRecTry f [named_instr MatLoadFromRec t] [makeNoOperandInstruction Drop] (option_map arm_items el)
  | MatWriteStmt t f e el => ret_items [named_instr MatStoreToRec t] ▷ expression_items "MAT WRITE ID expression error: " e ▷
      access_items WriteRec WriteRecTry f [] [] (option_map arm_items el)
  | _ => inline_items s
  end.

(** The items of every line, or the messages of the lines that have none. *)
Fixpoint program_items (lines : list ParsedBasicLine) : list (Z * list item) * list (Z * string) :=
  match lines with
  | [] => ([], [])
  | l :: lines' =>
      let '(items, errors) := program_items lines' in
      match line_items (statement l) with
      | Good code => ((lineNumber l, code) :: items, errors)
      | Bad e => (items, (lineNumber l, e) :: errors)
      | NoFuel => (items, errors)
      end
  end.

(** The address of a line: that of its first item. *)
Fixpoint line_address (ip : nat) (items : list (Z * list item)) (n : Z) : option nat :=
  match items with
  | [] => None
  | (m, code) :: items' =>
      match line_address (ip + length code) items' n with
      | Some a => Some a
      | None => if m =? n then Some ip else None
      end
  end.

Definition is_end (s : Stmt) : bool := match s with EndStmt => true | _ => false end.

Definition reference_emit (lines : list ParsedBasicLine) : EmissionResult :=
  let '(items, errors) := program_items lines in
  match errors with
  | [] =>
      let p := place (line_address 0 items) 0 (mjoin items.*2) in
      let source := mjoin ((λ '(n, code), replicate (length code) n) <$> items) in
      if existsb (is_end ∘ statement) lines && is_halt (last p) then mkEmission true p source []
      else mkEmission true (p ++ [makeNoOperandInstruction Halt]) (source ++ [0]) []
  | _ => mkEmission false [] [] errors
  end.

(** ** Code is appended *)

Lemma length_place index ip code : length (place index ip code) = length code.
Proof. revert ip. induction code as [|x code IH]; intros ip; cbn; [done|by rewrite IH]. Qed.

Lemma place_app index ip a b : place index ip (a ++ b) = place index ip a ++ place index (ip + length a) b.
Proof.
  revert ip. induction a as [|x a IH]; intros ip; cbn; [by rewrite Nat.add_0_r|]. by rewrite IH, Nat.add_succ_comm.
Qed.

Lemma place_plain index ip code : place index ip (plain_code code) = code.
Proof. revert ip. induction code as [|x code IH]; intros ip; cbn; [done|by rewrite IH]. Qed.

(** The fixups of the jumps to lines. *)
Fixpoint fixups_of (line : Z) (ip : nat) (code : list item) : list JumpFixup :=
  match code with
  | [] => []
  | ToLine _ n :: code' => mkFixup line ip n :: fixups_of line (S ip) code'
  | _ :: code' => fixups_of line (S ip) code'
  end.

Lemma fixups_app line ip a b : fixups_of line ip (a ++ b) = fixups_of line ip a ++ fixups_of line (ip + length a) b.
Proof.
  revert ip. induction a as [|x a IH]; intros ip; cbn; [by rewrite Nat.add_0_r|].
  destruct x; cbn; by rewrite IH, Nat.add_succ_comm.
Qed.

Lemma fixups_plain line ip code : fixups_of line ip (plain_code code) = [].
Proof. revert ip. induction code as [|x code IH]; intros ip; cbn; [done|apply IH]. Qed.

Abbreviation size s := (length (em_program s)).

(** The state once the items are emitted, before the jumps to lines are resolved. *)
Definition added (line : Z) (code : list item) (s : EmitState) : EmitState :=
  mkEmit (em_program s ++ place (λ _, None) (size s) code) (em_errors s) (em_source s) (explicitEnd s) (lineToInstructionIndex s)
    (jumpFixups s ++ fixups_of line (size s) code).

Lemma size_added line code s : size (added line code s) = (size s + length code)%nat.
Proof. cbn. by rewrite length_app, length_place. Qed.

Lemma added_app line a b s : added line b (added line a s) = added line (a ++ b) s.
Proof. unfold added at 1 3. rewrite size_added. cbn. by rewrite place_app, fixups_app, !app_assoc. Qed.

Lemma added_nil line s : added line [] s = s.
Proof. destruct s. unfold added. cbn. by rewrite !app_nil_r. Qed.

Section emits.
Context (line : Z).

(** [m] emits the items, or fails with the message; what else a failed [m] did
    to the program and the fixups does not matter. *)
Definition emits (m : emitting unit) (c : checked (list item)) : Prop := ∀ s,
  match c with
  | Good code => m s = (Some tt, added line code s)
  | Bad e => ∃ p f, m s = (None, mkEmit p (em_errors s ++ [(line, e)]) (em_source s) (explicitEnd s) (lineToInstructionIndex s) f)
  | NoFuel => False
  end.

Lemma emits_bind m1 m2 c1 c2 : emits m1 c1 → emits m2 c2 → emits (m1;; m2) (c1 ▷ c2).
Proof.
  intros H1 H2 s. specialize (H1 s).
  assert ((m1;; m2) s = match m1 s with (Some _, s') => m2 s' | (None, s') => (None, s') end) as -> by done.
  destruct c1 as [a|e|]; cbn in H1 |- *; [|by destruct H1 as (p & f & ->); eauto|done].
  specialize (H2 (added line a s)). rewrite H1. destruct c2 as [b|e|]; cbn in H2 |- *; [by rewrite H2, added_app|done|done].
Qed.

Lemma emits_push code : emits (push_all code) (ret_items code).
Proof. intros s. cbn. unfold added, push_all, update. by rewrite place_plain, fixups_plain, app_nil_r. Qed.

Lemma emits_push_back i : emits (push_back i) (ret_items [i]).
Proof. apply emits_push. Qed.

Lemma emits_nil : emits (mret tt) (ret_items []).
Proof. intros s. cbn. by rewrite added_nil. Qed.

Lemma emits_report e : emits (report line e) (Bad e).
Proof. intros s. cbn. by eexists _, _. Qed.

Lemma emits_expression prefix e : emits (emit_expression line prefix e) (expression_items prefix e).
Proof. unfold emit_expression, expression_items. destruct (emit_expr e); [apply emits_push|apply emits_report..]. Qed.

Lemma emits_jump o n : emits (emit_jump line o n) (Good [ToLine o n]).
Proof. intros s. by destruct s. Qed.

(** *** Patching *)

Lemma alter_middle {A} (f : A → A) a x b : alter f (length a) (a ++ x :: b) = a ++ f x :: b.
Proof. induction a as [|y a IH]; cbn; [done|by rewrite <- IH]. Qed.

Lemma patch_jump a o d b s ip target : ip = (size s + length a)%nat → target = (ip + d)%nat →
  patch ip target (added line (a ++ Plain (instr o (VInt 0)) :: b) s) = (Some tt, added line (a ++ Skip o d :: b) s).
Proof.
  intros -> ->. unfold patch, update, added, set_program. cbn. f_equal. f_equal.
  - rewrite !place_app. cbn [place place_item]. rewrite !(app_assoc (em_program s)).
    pose proof (alter_middle (set_operand (address (size s + length a + d))) (em_program s ++ place (λ _, None) (size s) a)) as H.
    rewrite length_app, length_place in H. apply H.
  - by rewrite !fixups_app.
Qed.

(** The same for code written without [++]. *)
Lemma patch_jump_at a o d code b s ip target : code = a ++ Plain (instr o (VInt 0)) :: b →
  ip = (size s + length a)%nat → target = (ip + d)%nat →
  patch ip target (added line code s) = (Some tt, added line (a ++ Skip o d :: b) s).
Proof. intros ->. apply patch_jump. Qed.

(** *** Statements with branches *)

Lemma push_added i code s : push_back i (added line code s) = (Some tt, added line (code ++ [Plain i]) s).
Proof. change (push_back i) with (push_all [i]). by rewrite (emits_push [i]), added_app. Qed.

Lemma push_all_added l code s : push_all l (added line code s) = (Some tt, added line (code ++ plain_code l) s).
Proof. by rewrite (emits_push l), added_app. Qed.

Lemma here_added code s : here (added line code s) = (Some (size s + length code)%nat, added line code s).
Proof. unfold here. by rewrite size_added. Qed.

Lemma ret_added code s : (mret tt : emitting unit) (added line code s) = (Some tt, added line code s).
Proof. done. Qed.

Lemma emits_added m c code s : emits m (Good c) → m (added line code s) = (Some tt, added line (code ++ c) s).
Proof. intros Hm. by rewrite Hm, added_app. Qed.

(** Runs the emission of the parts in turn, on a state [added line code s]. *)
Ltac emission :=
  repeat match goal with
  | |- context [(?m ≫= ?k) ?s] => change ((m ≫= k) s) with (match m s with (Some a, s') => k a s' | (None, s') => (None, s') end)
  | |- context [mret _ (added _ _ _)] => rewrite ret_added
  | |- context [here (added _ _ _)] => rewrite here_added
  | |- context [push_back _ (added _ _ _)] => rewrite push_added
  | |- context [push_all _ (added _ _ _)] => rewrite push_all_added
  end.

Ltac counting := repeat (cbn [length app]; rewrite ?length_app, ?length_map); lia.

Definition failed (e : string) (s : EmitState) (r : option unit * EmitState) : Prop :=
  ∃ p f, r = (None, mkEmit p (em_errors s ++ [(line, e)]) (em_source s) (explicitEnd s) (lineToInstructionIndex s) f).

Lemma emits_good m code : (∀ s, m (added line [] s) = (Some tt, added line code s)) → emits m (Good code).
Proof. intros H s. rewrite <- (H s). by rewrite added_nil. Qed.

Lemma emits_bad m e : (∀ s, failed e s (m (added line [] s))) → emits m (Bad e).
Proof. intros H s. destruct (H s) as (p & f & Hm). rewrite added_nil in Hm. by exists p, f. Qed.

Lemma fails_added m e code s : emits m (Bad e) → ∃ p f,
  m (added line code s) = (None, mkEmit p (em_errors s ++ [(line, e)]) (em_source s) (explicitEnd s) (lineToInstructionIndex s) f).
Proof. intros Hm. apply (Hm (added line code s)). Qed.

Ltac failing H :=
  match type of H with emits ?m (Bad ?e) =>
    match goal with |- context [m (added line ?c ?s)] => destruct (fails_added m e c s H) as (? & ? & ->); by eexists _, _ end
  end.

(** The emission of a branch and its items. *)
Definition emits_branch (m : option (emitting unit)) (c : option (checked (list item))) : Prop :=
  match m, c with
  | Some m, Some c => emits m c
  | None, None => True
  | _, _ => False
  end.

Lemma emits_access o try_o f succ fail el els :
  emits_branch el els → emits (emit_access o try_o f succ fail el) (access_items o try_o f succ fail els).
Proof.
  intros Hel. unfold emit_access, access_items. destruct el as [m|], els as [c|]; try done; [|apply emits_push].
  cbn [emits_branch mbind checked_bind] in *. destruct c as [code|e|]; [| |intros s; by apply (Hel s)].
  - apply emits_good. intros s. emission.
    rewrite (emits_added m _ _ s Hel). rewrite <- !app_assoc. cbn [app]. emission.
    erewrite (patch_jump_at [Plain (named_instr try_o f)] JumpIfZero (length succ + 2)); [|reflexivity|counting..].
    cbn [app]. emission.
    erewrite (patch_jump_at (Plain (named_instr try_o f) :: Skip JumpIfZero (length succ + 2) :: plain_code succ) Jump (S (length fail + length code)));
      [|reflexivity|counting..]. done.
  - apply emits_bad. intros s. emission. failing Hel.
Qed.

Lemma emits_if_arms (falls : bool) th (el : option (emitting unit)) c cs :
  emits th c →
  emits_branch el cs →
  emits (jzIp ← here;
         push_back (instr JumpIfZero (VInt 0));; th;;
         match el with
         | None => endIp ← here; patch jzIp endIp
         | Some branch =>
             jumpAfterElseIp ← here;
             (if falls then push_back (instr Jump (VInt 0)) else mret tt);;
             elseStartIp ← here;
             branch;;
             patch jzIp elseStartIp;;
             (if falls then endIp ← here; patch jumpAfterElseIp endIp else mret tt)
         end) (if_items falls c cs).
Proof.
  intros Hth Hel. unfold if_items. destruct c as [t|e|]; [| |intros s; by apply (Hth s)]; cbn [mbind checked_bind].
  2: { apply emits_bad. intros s. emission. failing Hth. }
  destruct el as [m|], cs as [c|]; try done; cbn [emits_branch] in *.
  - destruct c as [code|e|]; [| |intros s; by apply (Hel s)]; cbn [mbind checked_bind].
    + apply emits_good. intros s. emission. rewrite (emits_added th _ _ s Hth). destruct falls.
      * emission. rewrite (emits_added m _ _ s Hel). rewrite <- !app_assoc. cbn [app]. emission.
        erewrite (patch_jump_at [] JumpIfZero (S (length t) + 1)); [|reflexivity|counting..].
        cbn [app]. emission.
        erewrite (patch_jump_at (Skip JumpIfZero (S (length t) + 1) :: t) Jump (S (length code))); [|reflexivity|counting..]. done.
      * emission. rewrite (emits_added m _ _ s Hel). rewrite <- !app_assoc. cbn [app map]. emission.
        erewrite (patch_jump_at [] JumpIfZero (S (length t) + 0)); [|reflexivity|counting..]. cbn [app]. emission. done.
    + apply emits_bad. intros s. emission. rewrite (emits_added th _ _ s Hth). destruct falls; emission; failing Hel.
  - apply emits_good. intros s. emission. rewrite (emits_added th _ _ s Hth). emission. cbn [app].
    erewrite (patch_jump_at [] JumpIfZero (S (length t))); [|reflexivity|counting..]. done.
Qed.

Lemma emits_value_index kw vi : emits (emit_value_index line kw vi) (value_index_items kw vi).
Proof. destruct vi; [apply emits_expression|apply emits_push]. Qed.

#[local] Hint Resolve emits_bind emits_push emits_push_back emits_nil emits_report emits_expression emits_jump emits_value_index : gemini.

(** Induction on statements and their branches. *)
Section stmt_ind.
Context (P : Stmt → Prop) (Q : Arm → Prop).
Definition on_arm (el : option Arm) : Prop := match el with Some a => Q a | None => True end.
Context (HQ1 : ∀ n, Q (ArmLine n)) (HQ2 : ∀ s, P s → Q (ArmInline s)).
Context (HP : ∀ s, (match s with
  | IfStmt _ th el => Q th ∧ on_arm el
  | OpenStmt _ _ el | ReadStmt _ _ _ el | WriteStmt _ _ _ el | ReadNextStmt _ _ el | ReadVStmt _ _ _ _ _ el
  | WriteVStmt _ _ _ _ _ el | ReadUStmt _ _ _ el | WriteUStmt _ _ _ el | MatReadStmt _ _ _ el | MatWriteStmt _ _ _ el => on_arm el
  | _ => True
  end) → P s).

Fixpoint stmt_induction (s : Stmt) : P s :=
  let branch el := match el return on_arm el with Some a => arm_induction a | None => I end in
  HP s (match s with
  | IfStmt _ th el => conj (arm_induction th) (branch el)
  | OpenStmt _ _ el | ReadStmt _ _ _ el | WriteStmt _ _ _ el | ReadNextStmt _ _ el | ReadVStmt _ _ _ _ _ el
  | WriteVStmt _ _ _ _ _ el | ReadUStmt _ _ _ el | WriteUStmt _ _ _ el | MatReadStmt _ _ _ el | MatWriteStmt _ _ _ el => branch el
  | _ => I
  end)
with arm_induction (a : Arm) : Q a :=
  match a with ArmLine n => HQ1 n | ArmInline s => HQ2 s (stmt_induction s) end.
End stmt_ind.

Lemma emits_arm el : on_arm (λ a, emits (emitBranchArm line a) (arm_items a)) el →
  emits_branch (option_map (emitBranchArm line) el) (option_map arm_items el).
Proof. by destruct el. Qed.

#[local] Hint Resolve emits_arm emits_access emits_if_arms : gemini.

Lemma emits_inline s : emits (emitInlineStatement line s) (inline_items s).
Proof.
  revert s. apply (stmt_induction _ (λ a, emits (emitBranchArm line a) (arm_items a))); [cbn; auto with gemini|done|].
  intros s H. destruct s; cbn [emitInlineStatement inline_items]; try destruct H;
    unfold emit_let, emit_input, emit_chain, emit_if, emit_print, emit_open, emit_read, emit_write, emit_release, emit_readnext, emit_readv,
      emit_writev, emit_fetch, writev_items, fetch_items; auto 10 with gemini.
  destruct promptExpr; auto with gemini.
Qed.

Lemma emits_branches el : emits_branch (option_map (emitBranchArm line) el) (option_map arm_items el).
Proof. apply emits_arm. destruct el as [[n|s]|]; [apply emits_jump|apply emits_inline|done]. Qed.
#[local] Hint Resolve emits_branches : gemini.

Lemma emits_statement s : is_end s = false → emits (emit_statement line s) (line_items s).
Proof.
  intros He. destruct s; try done; try apply emits_inline; cbn [emit_statement line_items];
    unfold emit_for, emit_dim, emit_let_array, emit_on_error, emit_writev, writev_items, emit_mat_assign, emit_mat_read, emit_mat_write;
    repeat case_match; auto 10 with gemini.
Qed.
End emits.

(** ** The lines *)

Lemma emit_line_good l code s : line_items (statement l) = Good code →
  emit_line l s = mkEmit (em_program s ++ place (λ _, None) (size s) code) (em_errors s)
    (em_source s ++ replicate (length code) (lineNumber l)) (explicitEnd s || is_end (statement l))
    (<[lineNumber l := size s]> (lineToInstructionIndex s)) (jumpFixups s ++ fixups_of (lineNumber l) (size s) code).
Proof.
  intros Hc. unfold emit_line. cbv zeta. set (s1 := set_index _ s).
  assert (emit_statement (lineNumber l) (statement l) s1 =
    (Some tt, set_end (explicitEnd s || is_end (statement l)) (added (lineNumber l) code s1))) as ->.
  { destruct (is_end (statement l)) eqn:He.
    - destruct (statement l); try done. injection Hc as <-. unfold added. cbn [emit_statement mbind emitting_bind]. by rewrite orb_true_r, app_nil_r.
    - pose proof (emits_statement (lineNumber l) _ He s1) as H. rewrite Hc in H. rewrite H, orb_false_r. done. }
  cbn. rewrite length_app, length_place. by replace (size s + length code - size s)%nat with (length code) by lia.
Qed.

Lemma emit_line_bad l e s : line_items (statement l) = Bad e → em_errors (emit_line l s) = em_errors s ++ [(lineNumber l, e)].
Proof.
  intros Hc. unfold emit_line. cbv zeta. set (s1 := set_index _ s). destruct (is_end (statement l)) eqn:He; [by destruct (statement l)|].
  pose proof (emits_statement (lineNumber l) _ He s1) as H. rewrite Hc in H. by destruct H as (p & f & ->).
Qed.

Lemma line_items_end s : line_items s ≠ NoFuel.
Proof.
  intros H. destruct (is_end s) eqn:He; [by destruct s|]. pose proof (emits_statement 0 s He empty_emission) as Hs. by rewrite H in Hs.
Qed.

Lemma emit_lines_errors lines : ∀ s, em_errors (foldl (λ s l, emit_line l s) s lines) = em_errors s ++ (program_items lines).2.
Proof.
  induction lines as [|l lines IH]; intros s; cbn; [by rewrite app_nil_r|]. rewrite IH.
  pose proof (line_items_end (statement l)). destruct (program_items lines) as [items errors].
  destruct (line_items (statement l)) as [code|e|] eqn:Hc; [by rewrite (emit_line_good l code)| |done].
  rewrite (emit_line_bad l e) by done. by rewrite <- app_assoc.
Qed.

Fixpoint all_fixups (ip : nat) (items : list (Z * list item)) : list JumpFixup :=
  match items with [] => [] | (n, code) :: items' => fixups_of n ip code ++ all_fixups (ip + length code) items' end.

(** The state after lines that all have items. *)
Definition after_lines (lines : list ParsedBasicLine) (items : list (Z * list item)) (s s' : EmitState) : Prop :=
  em_program s' = em_program s ++ place (λ _, None) (size s) (mjoin items.*2) ∧
  em_source s' = em_source s ++ mjoin ((λ '(n, code), replicate (length code) n) <$> items) ∧
  explicitEnd s' = explicitEnd s || existsb (is_end ∘ statement) lines ∧
  jumpFixups s' = jumpFixups s ++ all_fixups (size s) items ∧
  ∀ n, lineToInstructionIndex s' !! n = match line_address (size s) items n with Some a => Some a | None => lineToInstructionIndex s !! n end.

Lemma emit_lines lines : ∀ items s, program_items lines = (items, []) → after_lines lines items s (foldl (λ s l, emit_line l s) s lines).
Proof.
  induction lines as [|l lines IH]; intros items s H.
  - injection H as <-. cbn. repeat split; by rewrite ?app_nil_r, ?orb_false_r.
  - cbn [program_items] in H. pose proof (line_items_end (statement l)). destruct (program_items lines) as [items' errors].
    destruct (line_items (statement l)) as [code|e|] eqn:Hc; simplify_eq. specialize (IH items' (emit_line l s) eq_refl).
    rewrite (emit_line_good l code s) in IH by done. cbn [foldl]. rewrite (emit_line_good l code s) by done.
    destruct IH as (H1 & H2 & H3 & H4 & H5). cbn [em_program em_source explicitEnd jumpFixups lineToInstructionIndex] in *.
    rewrite length_app, length_place in *. split_and!.
    + rewrite H1. cbn. by rewrite place_app, <- app_assoc.
    + rewrite H2. cbn. by rewrite <- app_assoc.
    + rewrite H3. cbn. by rewrite orb_assoc.
    + rewrite H4. cbn. by rewrite <- app_assoc.
    + intros n. rewrite H5. cbn. destruct (line_address _ items' n); [done|]. destruct (Z.eqb_spec (lineNumber l) n) as [<-|Hn].
      * by rewrite lookup_insert_eq.
      * by rewrite lookup_insert_ne.
Qed.

(** *** Jumps to lines *)

Lemma resolve_code (index : gmap Z nat) line code : ∀ pre post ip, length pre = ip →
  foldl (apply_fixup index) (pre ++ place (λ _, None) ip code ++ post) (fixups_of line ip code) =
  pre ++ place (λ n, index !! n) ip code ++ post.
Proof.
  induction code as [|x code IH]; intros pre post ip Hip; [done|]. cbn [place app].
  assert (∀ i, foldl (apply_fixup index) (pre ++ i :: place (λ _, None) (S ip) code ++ post) (fixups_of line (S ip) code) =
    pre ++ i :: place (λ n, index !! n) (S ip) code ++ post) as Hrest.
  { intros i. specialize (IH (pre ++ [i]) post (S ip)). rewrite <- !app_assoc in IH. apply IH. rewrite length_app. cbn. lia. }
  destruct x as [i|o d|o n]; cbn [fixups_of foldl place_item]; try by apply Hrest.
  rewrite <- Hrest. apply (f_equal (λ p, foldl _ p _)). unfold apply_fixup. cbn [fx_targetLine instructionIndex].
  destruct (index !! n); [|done]. rewrite <- Hip. by rewrite alter_middle.
Qed.

Lemma resolve_all (index : gmap Z nat) items : ∀ pre ip, length pre = ip →
  foldl (apply_fixup index) (pre ++ place (λ _, None) ip (mjoin items.*2)) (all_fixups ip items) =
  pre ++ place (λ n, index !! n) ip (mjoin items.*2).
Proof.
  induction items as [|[n code] items IH]; intros pre ip Hip; [done|]. cbn [all_fixups fmap list_fmap snd mjoin list_join].
  rewrite foldl_app, !place_app, resolve_code by done. rewrite !app_assoc. apply IH. rewrite length_app, length_place. lia.
Qed.

Lemma place_ext (f g : Z → option nat) ip code : (∀ n, f n = g n) → place f ip code = place g ip code.
Proof. intros H. revert ip. induction code as [|[i|o d|o n] code IH]; intros ip; cbn; rewrite ?H, ?IH; done. Qed.

(** ** The theorem *)

(** C37. The emitter, with its jump fixups and its lines' index, is the reference
    layout: for every program it gives the same verdict, the same messages in
    the same order, the same instructions with every jump target, and the same
    source line for each instruction. *)
Theorem emit_layout (lines : list ParsedBasicLine) : emit lines = reference_emit lines.
Proof.
  unfold emit, reference_emit. cbv zeta. pose proof (emit_lines_errors lines empty_emission) as He.
  destruct (program_items lines) as [items errors] eqn:Hp. rewrite He. destruct errors as [|e errors]; [|done]. cbn [em_errors empty_emission app snd].
  destruct (emit_lines lines items empty_emission Hp) as (H1 & H2 & H3 & H4 & H5). set (s' := foldl _ _ _) in *.
  rewrite H2, H3, H4, H1. cbn [em_program em_source explicitEnd jumpFixups empty_emission app length orb].
  pose proof (resolve_all (lineToInstructionIndex s') items [] 0 eq_refl) as Hr. cbn [app] in Hr. rewrite Hr.
  rewrite (place_ext _ (line_address 0 items)); [done|].
  intros n. rewrite H5. cbn. by destruct (line_address 0 items n).
Qed.

(** ** Where the lines of a compiled program are *)

Definition line_size (l : ParsedBasicLine) : nat := match line_items (statement l) with Good code => length code | _ => 0 end.

(** The address of the [k]-th line, that of the end for [k = length ls]. *)
Definition line_start (ls : list ParsedBasicLine) (k : nat) : nat := sum_list_with line_size (take k ls).

(** The address a jump to line [n] goes to. *)
Definition line_index (ls : list ParsedBasicLine) : Z → option nat := line_address 0 (program_items ls).1.

Definition items_of (l : ParsedBasicLine) (x : Z * list item) : Prop := x.1 = lineNumber l ∧ line_items (statement l) = Good x.2.

Lemma program_items_lines ls : ∀ items, program_items ls = (items, []) → Forall2 items_of ls items.
Proof.
  induction ls as [|l ls IH]; intros items H; [by injection H as <-; constructor|]. cbn in H.
  destruct (program_items ls) as [items' errors]. pose proof (line_items_end (statement l)).
  destruct (line_items (statement l)) as [code|e|] eqn:Hc; simplify_eq. constructor; [done|by apply IH].
Qed.

Lemma items_start ls items k : Forall2 items_of ls items → length (mjoin (take k items).*2) = line_start ls k.
Proof.
  intros H. revert k. unfold line_start. induction H as [|l x ls items [_ Hx] H IH]; intros [|k]; [done..|]. cbn.
  rewrite length_app, IH. unfold line_size. by rewrite Hx.
Qed.

Lemma line_address_lookup items : ∀ ip n a, line_address ip items n = Some a →
  ∃ j x, items !! j = Some x ∧ x.1 = n ∧ a = (ip + length (mjoin (take j items).*2))%nat.
Proof.
  induction items as [|[m code] items IH]; intros ip n a; [done|]. cbn. destruct (line_address _ items n) as [b|] eqn:E.
  - intros [= <-]. destruct (IH _ _ _ E) as (j & x & Hj & Hx & ->). exists (S j), x. split_and!; [done..|]. cbn. rewrite length_app. symmetry. apply Nat.add_assoc.
  - destruct (Z.eqb_spec m n) as [<-|]; [|done]. intros [= <-]. exists 0%nat, (m, code). split_and!; [done..|]. cbn. lia.
Qed.

Lemma line_address_known items n : ∀ ip, n ∈ items.*1 → is_Some (line_address ip items n).
Proof.
  induction items as [|[m code] items IH]; intros ip; cbn; [by intros ?%elem_of_nil|]. intros [<-|H]%elem_of_cons.
  - destruct (line_address _ items _); [done|]. by rewrite Z.eqb_refl.
  - by destruct (IH (ip + length code)%nat H) as [a ->].
Qed.

(** A program the compiler accepts: its lines are without errors, every line it
    names is known, and its code is the layout, with or without a last HALT. *)
Record compiled (lines : list (Z * string)) (ls : list ParsedBasicLine) (items : list (Z * list item)) (halt : list Instruction) : Prop := mk_compiled {
  compiled_lines : plines (parse_program lines) = ls;
  compiled_items : program_items ls = (items, []);
  compiled_known : ∀ l, l ∈ ls → validateStatement (list_to_set (lineNumber <$> ls)) (lineNumber l) (statement l) = [];
  compiled_program : c_program (compile lines) = place (line_index ls) 0 (mjoin items.*2) ++ halt;
  compiled_source : c_source (compile lines) = mjoin ((λ '(n, code), replicate (length code) n) <$> items) ++ replicate (length halt) 0;
  compiled_halt : halt = [makeNoOperandInstruction Halt] ∨
    halt = [] ∧ existsb (is_end ∘ statement) ls = true ∧ is_halt (last (place (line_index ls) 0 (mjoin items.*2))) = true
}.

Lemma join_nil {A B} (f : A → list B) l : mjoin (f <$> l) = [] → ∀ x, x ∈ l → f x = [].
Proof.
  induction l as [|y l IH]; cbn; [by intros _ x ?%elem_of_nil|]. intros [Hy Hl]%app_eq_nil x [->|Hx]%elem_of_cons; [done|by apply IH].
Qed.

Lemma compile_accepted lines : c_success (compile lines) = true → ∃ items halt, compiled lines (plines (parse_program lines)) items halt.
Proof.
  unfold compile. cbv zeta. destruct (perrors (parse_program lines)) eqn:Hp; [|done]. unfold analyze at 1. rewrite Hp. cbv zeta.
  set (ls := plines (parse_program lines)). destruct (mjoin _) eqn:Hv; [|done]. intros Hs. pose proof (emit_layout ls) as He.
  unfold reference_emit in He. destruct (program_items ls) as [items errors] eqn:Hi.
  destruct (es_success (emit ls)) eqn:Hok; [|done]. destruct errors as [|]; [|by rewrite He in Hok].
  assert (∀ halt, (es_program (emit ls) = place (line_index ls) 0 (mjoin items.*2) ++ halt) →
    es_source (emit ls) = mjoin ((λ '(n, code), replicate (length code) n) <$> items) ++ replicate (length halt) 0 →
    (halt = [makeNoOperandInstruction Halt] ∨ halt = [] ∧ existsb (is_end ∘ statement) ls = true ∧
      is_halt (last (place (line_index ls) 0 (mjoin items.*2))) = true) → compiled lines ls items halt) as Hmk.
  { intros halt H1 H2 H3. constructor; [done|done| | | |done].
    - by apply (join_nil (λ l, validateStatement _ (lineNumber l) (statement l))).
    - unfold compile. cbv zeta. rewrite Hp. unfold analyze. rewrite Hp. cbv zeta. fold ls. rewrite Hv, Hok. done.
    - unfold compile. cbv zeta. rewrite Hp. unfold analyze. rewrite Hp. cbv zeta. fold ls. rewrite Hv, Hok. done. }
  assert (line_index ls = line_address 0 items) as Hidx by (unfold line_index; by rewrite Hi). rewrite Hidx in *.
  destruct (existsb _ ls && _) eqn:Hend in He; rewrite He in Hmk; cbn in Hmk.
  - apply andb_true_iff in Hend as [? ?]. exists items, []. apply Hmk; rewrite ?app_nil_r; auto.
  - exists items, [makeNoOperandInstruction Halt]. apply Hmk; auto.
Qed.

Lemma line_start_le ls j k : (j <= k)%nat → (line_start ls j <= line_start ls k)%nat.
Proof.
  unfold line_start. revert j k. induction ls as [|l ls IH]; intros [|j] [|k] H; cbn; try lia. specialize (IH j k). lia.
Qed.

Lemma line_start_mono ls k : (line_start ls k <= line_start ls (length ls))%nat.
Proof.
  destruct (decide (k <= length ls)%nat); [by apply line_start_le|]. unfold line_start. by rewrite !take_ge by lia.
Qed.

(** A line that is known has the address of a line of that number. *)
Lemma compiled_line_index lines ls items halt n : compiled lines ls items halt → n ∈ lineNumber <$> ls →
  ∃ j l, ls !! j = Some l ∧ lineNumber l = n ∧ line_index ls n = Some (line_start ls j).
Proof.
  intros [Hls Hitems Hknown Hprog Hsrc Hhalt] Hn. pose proof (program_items_lines ls items Hitems) as HF.
  assert (n ∈ items.*1) as Hn'.
  { clear -HF Hn. induction HF as [|l x ls items [Hx _] _ IH]; [done|]. cbn in *. rewrite Hx. apply elem_of_cons in Hn. apply elem_of_cons.
    destruct Hn; [by left|by right; apply IH]. }
  unfold line_index. rewrite Hitems. cbn [fst]. destruct (line_address_known items n 0 Hn') as [a Ha]. rewrite Ha.
  destruct (line_address_lookup _ _ _ _ Ha) as (j & x & Hj & <- & ->). destruct (Forall2_lookup_r _ _ _ _ _ HF Hj) as (l & Hl & Hx & _).
  exists j, l. split_and!; [done|done|]. rewrite Nat.add_0_l. f_equal. exact (items_start ls items j HF).
Qed.

Lemma compiled_size lines ls items halt k : compiled lines ls items halt →
  Z.of_nat (line_start ls k) <= Z.of_nat (length (c_program (compile lines))).
Proof.
  intros [Hls Hitems Hknown Hprog Hsrc Hhalt]. pose proof (program_items_lines ls items Hitems) as HF.
  rewrite Hprog, length_app, length_place. pose proof (line_start_mono ls k). pose proof (items_start ls items (length ls) HF) as Hall.
  rewrite take_ge in Hall by (by rewrite (Forall2_length _ _ _ HF)). rewrite Hall. lia.
Qed.

Lemma line_index_start ls items n a : program_items ls = (items, []) → line_index ls n = Some a → ∃ j, a = line_start ls j.
Proof.
  intros Hitems. unfold line_index. rewrite Hitems. intros (j & x & _ & _ & ->)%line_address_lookup. exists j.
  exact (items_start ls items j (program_items_lines ls items Hitems)).
Qed.
