(* ===== verification/BasicControl.v ===== *)
(** * The jumps of a compiled program

    Every jump that the compiler writes goes to an instruction of the program or
    to its end; [compiled_control_flow] shows that the loader of bytecode text
    accepts them, unless an END line stands before the last line. *)

From Stdlib Require Import Ascii String.
From S2P Require Import Prelude CLib Dbl Records Locks FileSys Conv Bytecode Correl Dict Values Registry Vm VmProps VmRuns BasicExpr BasicExprRun BasicStmt BasicEmit BasicLayout.
From stdpp Require Import options.
Local Open Scope Z_scope.

Definition is_jump (o : OpCode) : bool := match o with Jump | JumpIfZero | Call => true | _ => false end.

(** ** Expressions do not jump *)

Definition no_jumps (code : list Instruction) : Prop := Forall (λ i, is_jump (op i) = false) code.

Lemma no_jumps_app a b : no_jumps a → no_jumps b → no_jumps (a ++ b).
Proof. apply Forall_app_2. Qed.

Lemma no_jumps_cons i a : is_jump (op i) = false → no_jumps a → no_jumps (i :: a).
Proof. by constructor. Qed.

Lemma no_jumps_nil : no_jumps [].
Proof. constructor. Qed.
#[local] Hint Resolve no_jumps_app no_jumps_cons no_jumps_nil : gemini.

Definition calm (e : Expr) : Prop := ∀ b code, emitNode b e = Good code → no_jumps code.

Lemma calm_args name l : Forall calm l → ∀ k code, emit_args name k l = Good code → no_jumps code.
Proof.
  induction 1 as [|e l He _ IH]; intros k code; cbn [emit_args]; [intros [= <-]; apply no_jumps_nil|].
  intros (c & Hc & (cs & Hcs & [= <-])%checked_bind_inv)%checked_bind_inv. apply no_jumps_app; [by eapply He|by eapply IH].
Qed.

Lemma expr_calm e : calm e.
Proof.
  induction e using expr_induction; intros b code; cbn [emitNode].
  all: try (intros [= <-]; auto with gemini; fail).
  - repeat case_match; try done. intros [= <-]. auto with gemini.
  - intros (c & Hc & [= <-])%checked_bind_inv. eauto 7 with gemini.
  - intros (l & Hl & (r & Hr & [= <-])%checked_bind_inv)%checked_bind_inv. destruct o; eauto 7 with gemini.
  - apply IHe.
  - repeat case_match; try done. intros (c & Hc & [= <-])%checked_bind_inv. eauto 7 with gemini.
  - case_match; [done|]. intros (a & Ha & (w & Hw & [= <-])%checked_bind_inv)%checked_bind_inv.
    assert (no_jumps w) by (destruct vi; [by eapply H|injection Hw as <-; auto with gemini]). eauto 8 with gemini.
  - repeat case_match; try done. intros [= <-]. auto with gemini.
  - destruct (builtinArityBounds n) as [[lo hi]|]; [|done]. destruct (_ || _); [done|].
    change ((emit_args n 0 l ≫= λ code0, call_code n (Z.of_nat (length l)) ≫= λ call, Good (code0 ++ call)) = Good code → no_jumps code).
    intros (c & Hc & (w & Hw & [= <-])%checked_bind_inv)%checked_bind_inv. apply no_jumps_app; [by eapply calm_args|].
    unfold call_code in Hw. destruct (functionIdForCall _ _); [|done]. injection Hw as <-. destruct (two_argument_index _ _); auto with gemini.
Qed.

(** ** Items whose targets exist *)

Section items.
Context (known : gset Z).

(** Jumps inside the code stay in it or go to its end, jumps to lines name known
    lines. *)
Definition code_ok (code : list item) : Prop := ∀ k x, code !! k = Some x →
  match x with
  | Plain i => is_jump (op i) = false
  | Skip _ d => (k + d <= length code)%nat
  | ToLine _ n => n ∈ known
  end.

Lemma code_ok_nil : code_ok [].
Proof. intros k x. by rewrite lookup_nil. Qed.

Lemma code_ok_app a b : code_ok a → code_ok b → code_ok (a ++ b).
Proof.
  intros Ha Hb k x [Hk|[Hl Hk]]%lookup_app_Some; rewrite length_app.
  - specialize (Ha k x Hk). destruct x; [done|lia|done].
  - specialize (Hb _ x Hk). destruct x; [done|lia|done].
Qed.

Lemma code_ok_plain l : no_jumps l → code_ok (plain_code l).
Proof.
  intros H k x Hk. rewrite list_lookup_fmap in Hk. destruct (l !! k) eqn:E; [|done]. injection Hk as <-.
  by eapply Forall_lookup_1 in H.
Qed.

Lemma code_ok_skip o d code : (d <= S (length code))%nat → code_ok code → code_ok (Skip o d :: code).
Proof. intros Hd Hc [|k] x; cbn; [intros [= <-]; lia|]. intros Hk. specialize (Hc k x Hk). destruct x; [done|lia|done]. Qed.

Lemma code_ok_line o n : n ∈ known → code_ok [ToLine o n].
Proof. intros Hn [|k] x; cbn; [by intros [= <-]|done]. Qed.

Definition items_ok (c : checked (list item)) : Prop := ∀ code, c = Good code → code_ok code.

Lemma items_ok_follow a b : items_ok a → items_ok b → items_ok (a ▷ b).
Proof. intros Ha Hb code. destruct a as [x| |], b as [y| |]; try done. intros [= <-]. apply code_ok_app; auto. Qed.

Lemma items_ok_ret l : no_jumps l → items_ok (ret_items l).
Proof. intros H code [= <-]. by apply code_ok_plain. Qed.

Lemma items_ok_expression p e : items_ok (expression_items p e).
Proof.
  intros code. unfold expression_items. destruct (emit_expr e) as [c| |] eqn:E; try done. intros [= <-]. apply code_ok_plain. by eapply expr_calm.
Qed.

Lemma items_ok_value_index kw vi : items_ok (value_index_items kw vi).
Proof. destruct vi; [apply items_ok_expression|apply items_ok_ret; auto with gemini]. Qed.

Lemma items_ok_bad e : items_ok (Bad e).
Proof. by intros code. Qed.

Lemma items_ok_line o n : n ∈ known → items_ok (Good [ToLine o n]).
Proof. intros Hn code [= <-]. by apply code_ok_line. Qed.

Definition branch_ok (c : option (checked (list item))) : Prop := match c with Some c => items_ok c | None => True end.

Lemma items_ok_access o try_o f succ fail el : is_jump o = false → is_jump try_o = false → no_jumps succ → no_jumps fail → branch_ok el →
  items_ok (access_items o try_o f succ fail el).
Proof.
  intros Ho Ht Hs Hf Hel. unfold access_items. destruct el as [c|]; [|apply items_ok_ret; by apply no_jumps_cons].
  intros code Hc. destruct c as [e| |]; try done. injection Hc as <-. specialize (Hel e eq_refl).
  apply (code_ok_app [_] (_ :: _)); [apply (code_ok_plain [_]); auto with gemini|].
  apply code_ok_skip; [rewrite length_app, length_map; cbn; lia|]. apply code_ok_app; [by apply code_ok_plain|].
  apply code_ok_skip; [by rewrite length_app, length_map|]. apply code_ok_app; [by apply code_ok_plain|done].
Qed.

Lemma items_ok_if falls th el : items_ok th → branch_ok el → items_ok (if_items falls th el).
Proof.
  intros Hth Hel code. unfold if_items. destruct th as [t| |]; try done. specialize (Hth t eq_refl).
  destruct el as [c|]; cbn [mbind checked_bind]; [|intros [= <-]; by apply code_ok_skip].
  destruct c as [e| |]; try done. specialize (Hel e eq_refl). intros [= <-]. apply code_ok_skip.
  - rewrite !length_app. destruct falls; cbn; lia.
  - apply code_ok_app; [done|]. destruct falls; [|done]. by apply (code_ok_skip _ _ e).
Qed.
#[local] Hint Resolve items_ok_follow items_ok_ret items_ok_expression items_ok_value_index items_ok_bad items_ok_line items_ok_access items_ok_if : gemini.

Context (owner : Z).

Lemma target_known n : validateLineTarget known owner n = [] → n ∈ known.
Proof. unfold validateLineTarget. by case_bool_decide. Qed.
#[local] Hint Resolve target_known : gemini.

Lemma no_jumps_coercion v l : no_jumps l → no_jumps (coercion v ++ l).
Proof. intros H. unfold coercion. destruct (isIntVar v); [by apply no_jumps_cons|done]. Qed.

Lemma no_jumps_coerce v : no_jumps (coercion v).
Proof. unfold coercion. destruct (isIntVar v); auto with gemini. Qed.

Lemma no_jumps_resolve (b : bool) f : no_jumps (if b then [named_instr ResolveDictAttr f] else []).
Proof. destruct b; auto with gemini. Qed.

Lemma no_jumps_eol (b : bool) : no_jumps (if b then [] else [makeNoOperandInstruction PrintEol]).
Proof. destruct b; auto with gemini. Qed.
#[local] Hint Resolve no_jumps_coercion no_jumps_coerce no_jumps_resolve no_jumps_eol : gemini.

Definition arm_ok (a : Arm) : Prop := validateBranchArm known owner a = [] → items_ok (arm_items a).

Lemma branch_valid el : on_arm arm_ok el → match el with Some a => validateBranchArm known owner a | None => [] end = [] →
  branch_ok (option_map arm_items el).
Proof. destruct el as [a|]; [|done]. intros H Hv. by apply H. Qed.
#[local] Hint Resolve branch_valid : gemini.

Lemma inline_ok s : validateStatement known owner s = [] → items_ok (inline_items s).
Proof.
  revert s. apply (stmt_induction (λ s, validateStatement known owner s = [] → items_ok (inline_items s)) arm_ok); [intros n H; apply items_ok_line; by apply target_known|intros s H; exact H|].
  intros s H Hv. destruct s; cbn [inline_items validateStatement] in *; unfold fetch_items, writev_items; try solve [auto 12 with gemini].
  - destruct promptExpr; auto 12 with gemini.
  - destruct H as [Hth Hel]. apply app_eq_nil in Hv as [Hv1 Hv2]. auto 12 with gemini.
Qed.

Lemma arms_ok el : match el with Some a => validateBranchArm known owner a | None => [] end = [] → branch_ok (option_map arm_items el).
Proof.
  intros Hv. apply branch_valid; [|done]. destruct el as [[n|s]|]; [|intros H; by apply inline_ok|done]. intros H. by apply items_ok_line, target_known.
Qed.
#[local] Hint Resolve arms_ok : gemini.

Lemma line_ok s : validateStatement known owner s = [] → items_ok (line_items s).
Proof.
  intros Hv. destruct s; try (by apply inline_ok); cbn [line_items validateStatement] in *; unfold writev_items; try solve [auto 12 with gemini].
  all: repeat case_match; auto 12 with gemini.
Qed.
End items.

(** ** Placed code *)

Lemma place_lookup index code : ∀ ip k, place index ip code !! k = place_item index (ip + k) <$> code !! k.
Proof.
  induction code as [|x code IH]; intros ip k; cbn; [by rewrite !lookup_nil|]. destruct k as [|k]; cbn; [by rewrite Nat.add_0_r|].
  by rewrite IH, Nat.add_succ_comm.
Qed.

Definition jumps_within (n : nat) (p : list Instruction) : Prop := ∀ i inst, p !! i = Some inst → is_jump (op inst) = true →
  ∃ t, operand inst = VInt t ∧ 0 <= t <= Z.of_nat n.

Lemma placed_jumps known index code n : code_ok known code → (length code <= n)%nat → Z.of_nat n <= INT_MAX →
  (∀ m, m ∈ known → ∃ a, index m = Some a ∧ (a <= n)%nat) → jumps_within n (place index 0 code).
Proof.
  intros Hc Hlen Hn Hidx i inst Hi Hj. rewrite place_lookup in Hi. destruct (code !! i) as [x|] eqn:Hx; [|done]. injection Hi as <-.
  specialize (Hc i x Hx). assert (∀ a, (a <= n)%nat → ∃ t, address a = VInt t ∧ 0 <= t <= Z.of_nat n) as Ha.
  { intros a Hle. exists (Z.of_nat a). unfold address. rewrite to_int32_id by (apply in_int_spec; unfold INT_MIN; lia). split; [done|lia]. }
  destruct x as [i'|o d|o m]; cbn in Hj |- *; [by rewrite Hc in Hj|apply Ha; lia|].
  destruct (Hidx m Hc) as (a & -> & Hle). by apply Ha.
Qed.

Lemma validate_jumps len p : (∀ i inst, p !! i = Some inst → is_jump (op inst) = true → ∃ t, operand inst = VInt t ∧ 0 <= t < len) →
  ∀ n, validate_from n len p = Ok tt.
Proof.
  induction p as [|x p IH]; intros H n; [done|]. cbn.
  assert (validate_from (n + 1) len p = Ok tt) as Hp by (apply IH; intros i; apply (H (S i))).
  case_bool_decide as Hop; [|done]. destruct (H 0%nat x eq_refl) as (t & -> & Ht).
  - rewrite !elem_of_cons, elem_of_nil in Hop. by destruct Hop as [->|[->|[->|[]]]].
  - rewrite (proj2 (Z.ltb_ge t 0)), (proj2 (Z.leb_gt len t)) by lia. done.
Qed.

(** ** Compiled programs *)

Lemma lines_code_ok known ls items : (∀ l, l ∈ ls → validateStatement known (lineNumber l) (statement l) = []) → Forall2 items_of ls items →
  code_ok known (mjoin items.*2).
Proof.
  intros Hv HF. induction HF as [|l x ls items [_ Hx] HF IH]; [apply code_ok_nil|]. cbn. apply code_ok_app.
  - apply (line_ok known (lineNumber l) (statement l)); [apply Hv; by left|done].
  - apply IH. intros l' Hl'. apply Hv. by right.
Qed.

Lemma length_source (items : list (Z * list item)) :
  length (mjoin ((λ '(n, code), replicate (length code) n) <$> items)) = length (mjoin items.*2).
Proof. induction items as [|[n code] items IH]; cbn; [done|]. rewrite !length_app, length_replicate. f_equal. exact IH. Qed.

(** The last line of the program is the only one that may be an END. *)
Definition end_is_last (ls : list ParsedBasicLine) : Prop := ∀ k l, ls !! k = Some l → statement l = EndStmt → S k = length ls.

Lemma compiled_jumps_last lines ls items halt : compiled lines ls items halt → end_is_last ls →
  Z.of_nat (length (c_program (compile lines))) <= INT_MAX →
  jumps_within (length (c_program (compile lines)) - 1) (c_program (compile lines)).
Proof.
  intros Hc Hend Hsz. pose proof Hc as [Hls Hitems Hknown Hprog Hsrc Hhalt]. pose proof (program_items_lines ls items Hitems) as HF.
  assert (∀ n m, m ∈ (list_to_set (lineNumber <$> ls) : gset Z) → (∀ j, (j < length ls)%nat → (line_start ls j <= n)%nat) →
    ∃ a, line_index ls m = Some a ∧ (a <= n)%nat) as Hidx.
  { intros n m Hm Hn. apply elem_of_list_to_set in Hm. destruct (compiled_line_index _ _ _ _ _ Hc Hm) as (j & l & Hj & _ & Hi).
    exists (line_start ls j). split; [done|]. apply Hn. by apply lookup_lt_Some in Hj. }
  pose proof (items_start ls items (length ls) HF) as Hall. rewrite take_ge in Hall by (by rewrite (Forall2_length _ _ _ HF)).
  rewrite Hprog in *. rewrite length_app, length_place in Hsz |- *. destruct Hhalt as [->|(-> & Hex & _)].
  - cbn [length] in *. replace (length (mjoin items.*2) + 1 - 1)%nat with (length (mjoin items.*2)) by lia.
    intros i inst [Hi|[_ Hi]]%lookup_app_Some Hj.
    + eapply placed_jumps; [by eapply lines_code_ok|done|lia| |exact Hi|done]. intros m Hm. apply Hidx; [done|].
      intros j _. rewrite Hall. apply line_start_mono.
    + destruct (i - _)%nat; [by injection Hi as <-|done].
  - apply existsb_exists in Hex as (l & Hl%list_elem_of_In & He). apply list_elem_of_lookup in Hl as [k Hk].
    assert (statement l = EndStmt) as Hs by (cbn in He; by destruct (statement l)). pose proof (Hend k l Hk Hs) as Hlast.
    destruct (Forall2_lookup_l _ _ _ _ _ HF Hk) as ([n code] & Hj & Hn & Hcode). rewrite Hs in Hcode. injection Hcode as <-.
    set (A := mjoin (take k items).*2). assert (mjoin items.*2 = A ++ [Plain (makeNoOperandInstruction Halt)]) as HA.
    { rewrite <- (take_drop_middle items k _ Hj) at 1. rewrite (drop_ge items) by (rewrite <- (Forall2_length _ _ _ HF); lia).
      rewrite fmap_app, join_app. done. }
    pose proof (items_start ls items k HF) as Hk'. fold A in Hk'. rewrite app_nil_r, HA in *. rewrite length_app in *. cbn [length] in *.
    replace (length A + 1 + 0 - 1)%nat with (length A) by lia. rewrite place_app. intros i inst [Hi|[_ Hi]]%lookup_app_Some Hj'.
    + eapply placed_jumps; [|done|lia| |exact Hi|done].
      * eapply (lines_code_ok _ (take k ls)); [|by apply Forall2_take]. intros l' Hl'. apply Hknown. rewrite <- (take_drop k ls). apply elem_of_app. by left.
      * intros m Hm. apply Hidx; [done|]. intros j Hjk. rewrite Hk'. apply line_start_le. lia.
    + destruct (i - _)%nat; [by injection Hi as <-|done].
Qed.

(** C18. The control flow of a compiled program is sound. There is one source line
    for every instruction, in every program that compiles; and when END stands nowhere but on the last line and the program has no more than
    2147483647 instructions, every JUMP, JZ and CALL has an [int] target inside the program, so that the loader
    of saved bytecode accepts it. *)
Theorem compiled_control_flow lines : let r := compile lines in
  c_success r = true →
  length (c_source r) = length (c_program r) ∧ instructionCount r = Z.of_nat (length (c_program r)) ∧
  (end_is_last (plines (parse_program lines)) → Z.of_nat (length (c_program r)) <= INT_MAX →
   validateJumpTargets (c_program r) = Ok tt ∧
   ∀ i inst, c_program r !! i = Some inst → op inst ∈ [Jump; JumpIfZero; Call] →
     ∃ t, operand inst = VInt t ∧ 0 <= t < Z.of_nat (length (c_program r))).
Proof.
  intros r Hs. destruct (compile_accepted lines Hs) as (items & halt & Hc). split; [|split].
  - unfold r. rewrite (compiled_source _ _ _ _ Hc), (compiled_program _ _ _ _ Hc), !length_app, length_replicate, length_place.
    f_equal. apply length_source.
  - unfold r, compile in *. cbv zeta in *. repeat case_match; done.
  - intros Hend Hsz. pose proof (compiled_jumps_last _ _ _ _ Hc Hend Hsz) as Hj. fold r in Hj.
    assert (∀ i inst, c_program r !! i = Some inst → is_jump (op inst) = true →
      ∃ t, operand inst = VInt t ∧ 0 <= t < Z.of_nat (length (c_program r))) as Hin.
    { intros i inst Hi Ho. destruct (Hj i inst Hi Ho) as (t & Ht & Hle). apply lookup_lt_Some in Hi. exists t. split; [done|lia]. }
    split; [by apply validate_jumps|].
    intros i inst Hi Ho. apply (Hin i inst Hi). rewrite !elem_of_cons, elem_of_nil in Ho. by destruct Ho as [->|[->|[->|[]]]].
Qed.

Definition ex_control : list (Z * string) := [(10, "IF X = 1 THEN 30"); (20, "GOSUB 10"); (30, "END")].

Lemma compiled_control_flow_witness : validateJumpTargets (c_program (compile ex_control)) = Ok tt ∧ length (c_program (compile ex_control)) = 7%nat.
Proof.
  assert (H : validateJumpTargets (c_program (compile ex_control)) = Ok tt); [|split; [exact H|vm_compute; reflexivity]].
  eapply compiled_control_flow.
  - vm_compute. reflexivity.
  - assert (plines (parse_program ex_control) = [mkLine 10 (IfStmt (BinaryExpr OpEqual (IdentifierExpr "X") (IntLiteralExpr 1)) (ArmLine 30) None);
      mkLine 20 (GosubStmt 10); mkLine 30 EndStmt]) as -> by (vm_compute; reflexivity).
    intros [|[|[|k]]] l; cbn; by intros [= <-].
  - vm_compute. discriminate.
Defined.

(** With an END before the last line the text of a program the compiler accepts
    can be refused when it is loaded. *)
Lemma end_before_branch_refused : let p := compile [(10, "END"); (20, "IF X THEN STOP")] in
  c_success p = true ∧ validateJumpTargets (c_program p) = Throw (RuntimeError "Control-flow target out of range at instruction 2: 4").
Proof. by vm_compute. Qed.
