(* ===== verification/BasicSaved.v ===== *)
(** * Compiled programs survive their file

    RUN saves the bytecode of a program in the record NAME_OBJ and loads it from there.  This file
    follows a program from its lines through the compiler, the bytecode text and the loader: names come out
    of the parser in a form that the text can carry, numbers in their range, jumps inside the program.
    The parser is followed with [gives]: what holds of its result, if it has one. *)

From Stdlib Require Import Ascii String.
From S2P Require Import Prelude CLib Dbl Records Conv Bytecode Correl Values Registry BasicExpr BasicStmt BasicEmit BasicLayout BasicControl.
From stdpp Require Import options.
Local Open Scope Z_scope.

Definition gives {A} (P : A → Prop) (m : checked A) : Prop := match m with Good a => P a | _ => True end.

Lemma gives_bind {A B} (P : A → Prop) (Q : B → Prop) (m : checked A) (f : A → checked B) :
  gives P m → (∀ a, P a → gives Q (f a)) → gives Q (m ≫= f).
Proof. destruct m; cbn; auto. Qed.

Lemma gives_impl {A} (P Q : A → Prop) m : gives P m → (∀ a, P a → Q a) → gives Q m.
Proof. destruct m; cbn; auto. Qed.

Lemma gives_any {A} (P : A → Prop) m : (∀ a, P a) → gives P m.
Proof. destruct m; cbn; auto. Qed.

Lemma gives_refuse b e : gives (λ _, b = false) (refuse b e).
Proof. by destruct b. Qed.

Lemma gives_or_error {A} e (o : option A) : gives (λ a, o = Some a) (or_error e o).
Proof. by destruct o. Qed.

(** ** Instructions

    An instruction that bytecode text can carry anywhere in any program, but for floats with more than
    six digits. *)
Definition carried (i : Instruction) : Prop :=
  match kind_of (op i), operand i with
  | KNone, VInt 0 => callFunc i = noCall
  | KInt, VInt z => callFunc i = noCall ∧ in_int z = true
  | KFlt, VDbl _ => callFunc i = noCall
  | KStr, VStr _ => callFunc i = noCall
  | KName, VStr s => callFunc i = noCall ∧ name_ok s
  | KCall, VInt 0 => call_ok (callFunc i)
  | _, _ => False
  end.

Definition item_ok (x : item) : Prop :=
  match x with
  | Plain i => carried i ∧ op i ∉ [Jump; JumpIfZero; Call]
  | Skip o _ => o = Jump ∨ o = JumpIfZero
  | ToLine o _ => o = Jump ∨ o = Call ∨ o = SetOnErrorHandler
  end.

Abbreviation sound := (gives (Forall item_ok)).

(** *** Names *)

Definition name_char (c : ascii) : bool := isalnum c || is_suffix c.

Lemma upper_chars (p q : ascii → bool) s : (∀ c, p c = true → q (toupper c) = true) → str_forall p s = true → str_forall q (uppercase s) = true.
Proof. intros H. unfold uppercase. induction s as [|c s IH]; cbn; [done|]. intros [Hc Hs]%andb_prop. rewrite H by done. by apply IH. Qed.

Lemma name_body_chars s : name_body s = true → str_forall name_char s = true.
Proof.
  induction s as [|c s IH]; [done|]. cbn [name_body str_forall]. destruct s as [|d s]; [unfold name_char; by intros ->|].
  intros [Hc Hs]%andb_prop. rewrite IH by done. unfold name_char. by rewrite Hc.
Qed.

Lemma valid_name s : isValidVariableName s = true →
  uppercase s ≠ "" ∧ str_forall plain_char (uppercase s) = true.
Proof.
  destruct s as [|c s]; [done|]. unfold isValidVariableName. destruct (Ascii.eqb_spec c "@") as [->|_].
  - intros H%bool_decide_eq_true. change (uppercase (String "@" s)) with (String "@" (uppercase s)) in *. split; [done|].
    by repeat (apply elem_of_cons in H as [->|H]; [by vm_compute|]); apply elem_of_nil in H.
  - intros [Hc Hs%name_body_chars]%andb_prop. split; [done|]. apply (upper_chars name_char).
    + apply (char_impl (λ c, name_char c) (λ c, plain_char (toupper c))). by vm_compute.
    + cbn. rewrite Hs. unfold name_char, isalnum. by rewrite Hc.
Qed.

Lemma plain_name s : s ≠ "" → str_forall plain_char s = true → name_ok s.
Proof.
  intros Hne Hp. split; [by apply plain_arg|]. destruct s as [|c s]; [done|]. cbn in *. intros [= ->]. by cbn in Hp.
Qed.

Lemma valid_name_ok s : isValidVariableName s = true → name_ok (uppercase s).
Proof. intros [? ?]%valid_name. by apply plain_name. Qed.

Lemma named_ok o s : kind_of o = KName → isValidVariableName s = true → item_ok (Plain (named_instr o s)).
Proof.
  intros Hk Hs. split.
  - unfold carried, named_instr. cbn. rewrite Hk. split; [done|]. by apply valid_name_ok.
  - cbn. intros H. by repeat (apply elem_of_cons in H as [->|H]; [done|]); apply elem_of_nil in H.
Qed.

(** *** Expressions

    The code of an expression, in either context. *)
Definition codes (e : Expr) : Prop := ∀ b, gives (Forall (λ i, item_ok (Plain i))) (emitNode b e).

Ltac not_jump := let H := fresh in intros H; repeat (apply elem_of_cons in H as [H|H]; [try discriminate H|]); try (by apply elem_of_nil in H).

Lemma plain_ok o v : carried (instr o v) → kind_of o ≠ KInt ∨ o = PushInt ∨ o = SetOnErrorHandler → item_ok (Plain (instr o v)).
Proof. intros Hc Ho. split; [done|]. cbn. intros H. repeat (apply elem_of_cons in H as [->|H]; [naive_solver|]). by apply elem_of_nil in H. Qed.

Lemma no_operand_ok o : kind_of o = KNone → item_ok (Plain (makeNoOperandInstruction o)).
Proof. intros H. apply plain_ok; [unfold carried; cbn; by rewrite H|left; congruence]. Qed.

Lemma push_int_ok n : in_int n = true → item_ok (Plain (instr PushInt (VInt n))).
Proof. intros H. apply plain_ok; [by split|by right; left]. Qed.

Lemma codes_int n : in_int n = true → codes (IntLiteralExpr n).
Proof. intros H b. cbn. constructor; [by apply push_int_ok|constructor]. Qed.

Lemma codes_float d : codes (FloatLiteralExpr d).
Proof. intros b. cbn. constructor; [by apply plain_ok; [|left]|constructor]. Qed.

Lemma codes_string s : codes (StringLiteralExpr s).
Proof. intros b. cbn. constructor; [by apply plain_ok; [|left]|constructor]. Qed.

Lemma codes_dict s : codes (DictFieldExpr s).
Proof. intros []; cbn; [done|]. destruct (str_empty s); [done|]. constructor; [by apply plain_ok; [|left]|constructor]. Qed.

Lemma codes_name s : codes (IdentifierExpr s).
Proof.
  intros b. cbn [emitNode]. destruct (isValidVariableName s) eqn:E; [|done]. cbn [negb]. destruct (_ && _); [done|].
  constructor; [by apply (named_ok LoadVar)|constructor].
Qed.

Lemma codes_negate e : codes e → codes (NegateExpr e).
Proof.
  intros He b. cbn [emitNode]. eapply gives_bind; [apply He|]. intros code Hc. constructor; [by apply push_int_ok|].
  apply Forall_app_2; [done|]. constructor; [by apply no_operand_ok|constructor].
Qed.

Lemma codes_binary o l r : codes l → codes r → codes (BinaryExpr o l r).
Proof.
  intros Hl Hr b. cbn [emitNode]. eapply gives_bind; [apply Hl|]. intros cl Hcl. eapply gives_bind; [apply Hr|]. intros cr Hcr.
  cbn. repeat (apply Forall_app_2; [done|]). constructor; [by destruct o; apply no_operand_ok|constructor].
Qed.

Lemma codes_grouped e : codes e → codes (GroupedExpr e).
Proof. intros He b. apply He. Qed.

Lemma codes_subscript v e : codes e → codes (SubscriptExpr v e).
Proof.
  intros He b. cbn [emitNode]. destruct (isValidVariableName v) eqn:E; [|done]. cbn [negb]. destruct (_ && _); [done|].
  eapply gives_bind; [apply He|]. intros c Hc. apply Forall_app_2; [done|]. constructor; [by apply (named_ok LoadArr)|constructor].
Qed.

Lemma codes_attribute v a vi : codes a → (∀ e, vi = Some e → codes e) → codes (AttributeAccessExpr v a vi).
Proof.
  intros Ha Hv b. cbn [emitNode]. destruct (isValidVariableName v) eqn:E; [|done]. cbn [negb].
  eapply gives_bind; [apply Ha|]. intros ca Hca. eapply (gives_bind (Forall (λ i, item_ok (Plain i)))).
  - destruct vi as [e|]; [by apply Hv|]. constructor; [by apply push_int_ok|constructor].
  - intros cv Hcv. constructor; [by apply (named_ok LoadVar)|]. repeat (apply Forall_app_2; [done|]).
    constructor; [by apply no_operand_ok|constructor].
Qed.

Lemma call_code_ok name got : 0 <= got → gives (Forall (λ i, item_ok (Plain i))) (call_code name got).
Proof.
  intros Hgot. unfold call_code. cbv zeta. destruct (functionIdForCall _ _) as [id|] eqn:E; [|done]. cbn.
  assert (Hid : 0 <= id <= UINT32_MAX ∧ (if two_argument_index name got then 3 else got) <= INT_MAX).
  { unfold functionIdForCall in E. destruct (list_find _ _) as [[i [n a]]|] eqn:Ef; [|done]. cbn in E. injection E as <-.
    apply list_find_Some in Ef as (Hi & [= -> Ha] & _). pose proof (lookup_lt_Some _ _ _ Hi) as Hlt.
    assert (Hall : Forall (λ e, e.2 <= INT_MAX) builtin_names) by (unfold builtin_names; repeat constructor; by vm_compute).
    pose proof (Forall_lookup_1 _ _ _ _ Hall Hi) as Hm. cbn in Hm. split; [|congruence].
    vm_compute in Hlt. unfold UINT32_MAX. lia. }
  apply Forall_app_2; [destruct (two_argument_index _ _); repeat constructor; by apply push_int_ok|].
  constructor; [|constructor]. split; [|not_jump]. cbn. unfold call_ok, kNamespaceId, UINT32_MAX in *. cbn.
  split_and!; try lia; destruct (two_argument_index _ _); lia.
Qed.

Lemma codes_call name args : Forall codes args → codes (FunctionCallExpr name args).
Proof.
  intros Hargs b. cbn [emitNode]. destruct (builtinArityBounds name) as [[lo hi]|]; [|done]. cbv zeta. destruct (_ || _); [done|].
  eapply gives_bind; [|intros code Hc; eapply gives_bind; [apply call_code_ok; lia|intros call Hcall; by apply Forall_app_2]].
  generalize 0. induction Hargs as [|a args Ha _ IH]; intros k; [by constructor|].
  eapply gives_bind; [apply Ha|]. intros c Hc. eapply gives_bind; [apply IH|]. intros cs Hcs. by apply Forall_app_2.
Qed.

(** *** The expression parser *)

Definition token_ok (t : ExprToken) : Prop := in_int (intValue t) = true.

Lemma plain_token t l i : token_ok (plain t l i).
Proof. done. Qed.

Abbreviation first_ok := (λ x : ExprToken * string, token_ok x.1).

Lemma number_token_ok s i : gives first_ok (number_token s i).
Proof.
  unfold number_token. destruct (span isdigit s) as [ds r1], (fraction_part r1) as [frac r2]. destruct (exponent_part r2) as [[ex r3]|]; [|done].
  cbv zeta. destruct (negb _); [by destruct (parseFloatLiteral _)|]. unfold parseIntLiteral.
  destruct (strtol _) as [[v rest]|]; [|done]. destruct rest; [|done]. by destruct (in_int v) eqn:E.
Qed.

Lemma next_token_ok c r i prev : gives first_ok (next_token c r i prev).
Proof.
  unfold next_token. destruct (Ascii.eqb c _); [unfold string_token; by destruct (str_split_at _ r) as [[]|]|].
  destruct (isdigit c); [apply number_token_ok|]. destruct (Ascii.eqb c _).
  { unfold system_token. destruct r; [done|]. destruct (isalpha _); [|done]. destruct (span _ _). cbv zeta. by destruct (isReadonlySessionSystemVariable _). }
  destruct (isalpha c); [unfold ident_token; destruct (span _ _) as [w [|d r']]; [done|by destruct (is_suffix d)]|].
  unfold operator_token. cbv zeta. destruct r as [|c1 r']; [by destruct (char_token c)|].
  destruct (_ && _); [done|]. destruct (_ && _); [done|]. destruct (_ && _); [by destruct (adjacent_identifier prev i)|by destruct (char_token c)].
Qed.

Lemma tokenize_ok fuel : ∀ s i prev, gives (Forall token_ok) (tokenize fuel s i prev).
Proof.
  induction fuel as [|fuel IH]; intros [|c r] i prev; try done; [by repeat constructor|]. cbn [tokenize].
  destruct (isspace c); [apply IH|]. eapply gives_bind; [apply next_token_ok|]. intros [t r'] Ht. eapply gives_bind; [apply IH|].
  intros ts Hts. by constructor.
Qed.

Abbreviation parsed := (gives (λ x : Expr * list ExprToken, codes x.1 ∧ Forall token_ok x.2)).

Lemma tail_ok ts : Forall token_ok ts → Forall token_ok (tail ts).
Proof. by destruct 1. Qed.

Lemma current_ok ts : Forall token_ok ts → token_ok (current ts).
Proof. by destruct 1. Qed.

Lemma accept_ok t e ts : Forall token_ok ts → gives (Forall token_ok) (accept t e ts).
Proof. intros H. unfold accept. destruct (at_type t ts); [by apply tail_ok|done]. Qed.
#[local] Hint Resolve tail_ok current_ok accept_ok codes_int codes_float codes_string codes_name codes_negate codes_binary codes_grouped codes_subscript
  codes_call : parses.

(** What each function of the parser gives with this fuel. *)
Record parser_ok (n : nat) : Prop := mk_parser_ok {
  ok_comparison ts : Forall token_ok ts → parsed (parseComparison n ts);
  ok_addsub ts : Forall token_ok ts → parsed (parseAddSub n ts);
  ok_addsub_loop e ts : codes e → Forall token_ok ts → parsed (addsub_loop n e ts);
  ok_muldiv ts : Forall token_ok ts → parsed (parseMulDiv n ts);
  ok_muldiv_loop e ts : codes e → Forall token_ok ts → parsed (muldiv_loop n e ts);
  ok_unary ts : Forall token_ok ts → parsed (parseUnary n ts);
  ok_primary ts : Forall token_ok ts → parsed (parsePrimary n ts);
  ok_call u ts : Forall token_ok ts → parsed (parseCall n u ts);
  ok_arguments u ts : Forall token_ok ts → gives (λ x, Forall codes x.1 ∧ Forall token_ok x.2) (parseArguments n u ts);
  ok_attribute v ts : Forall token_ok ts → parsed (parseAttribute n v ts)
}.

Ltac parses IH :=
  repeat first
    [ solve [auto 10 using tail_ok, current_ok with parses]
    | match goal with
      | |- gives _ (_ ≫= _) => first
          [ eapply gives_bind; [solve [apply IH; auto 10 with parses|apply accept_ok; auto with parses]|]; first [intros [? ?] [? ?]|intros ? ?]
          | eapply (gives_bind (λ x, _ x.1 ∧ Forall token_ok x.2)); [|intros [? ?] [? ?]] ]
      | |- gives _ (if ?b then _ else _) => destruct b
      | |- gives _ (match ?x with _ => _ end) => destruct x eqn:?
      | |- gives _ (Good _) => split; cbn [fst snd]
      | |- gives _ (Bad _) => exact I
      | |- gives _ _ => apply IH
      end ].

Lemma parser_gives n : parser_ok n.
Proof.
  induction n as [|n IH]; split; intros; try done;
    cbn [parseComparison parseAddSub addsub_loop parseMulDiv muldiv_loop parseUnary parsePrimary parseCall parseArguments parseAttribute]; cbv zeta.
  - parses IH.
  - parses IH.
  - parses IH.
  - parses IH.
  - parses IH.
  - parses IH.
  - rename H into Hts. pose proof (current_ok ts Hts) as Ht. apply tail_ok in Hts. destruct (type (current ts)); try done; try (split; cbn; by auto with parses).
    + destruct (at_type TokLParen (tail ts)).
      * destruct (isBuiltinCallName _); [by apply IH, tail_ok|]. apply tail_ok in Hts. parses IH.
      * destruct (_ && _); [by apply IH, tail_ok|]. split; cbn; auto with parses.
    + destruct (at_type _ _); [done|]. parses IH.
  - rename H into Hts. destruct (builtinArityBounds u) as [[lo hi]|]; [|done].
    eapply (gives_bind (λ x, Forall codes x.1 ∧ Forall token_ok x.2)).
    + destruct (at_type _ _); [destruct (0 <? lo); [done|by repeat constructor]|by apply IH].
    + intros [args ts'] [Ha Hts']. parses IH.
  - parses IH.
  - rename H into Hts. destruct (_ || _); [done|]. eapply gives_bind; [by apply IH|]. intros [a ts1] [Ha H1]. cbn [fst snd] in *.
    eapply (gives_bind (λ x, (∀ e, x.1 = Some e → codes e) ∧ Forall token_ok x.2)).
    + destruct (at_type TokComma ts1); [|by repeat constructor]. destruct (_ || _); [done|].
      eapply gives_bind; [apply IH; auto with parses|]. intros [e ts2] [He H2]. split; cbn; [by intros ? [= <-]|done].
    + intros [vi ts2] [Hv H2]. eapply gives_bind; [by apply accept_ok|]. intros ts3 H3. split; [by apply codes_attribute|done].
Qed.

Lemma expression_codes text : gives codes (parseExpression text).
Proof.
  unfold parseExpression. eapply gives_bind; [apply tokenize_ok|]. intros ts Hts. unfold parse_tokens. destruct (_ && _); [done|].
  eapply gives_bind; [by apply parser_gives|]. intros [e ts'] [He _]. by destruct (at_type _ _).
Qed.

Lemma expression_of_codes prefix text : gives codes (expression_of prefix text).
Proof. unfold expression_of. pose proof (expression_codes text). by destruct (parseExpression text). Qed.

(** *** Statements *)

Lemma sound_code code : Forall (λ i, item_ok (Plain i)) code → Forall item_ok (plain_code code).
Proof. induction 1; cbn; by constructor. Qed.

Lemma sound_ret code : Forall (λ i, item_ok (Plain i)) code → sound (ret_items code).
Proof. apply sound_code. Qed.

Lemma sound_follow a b : sound a → sound b → sound (a ▷ b).
Proof. intros Ha Hb. eapply gives_bind; [exact Ha|]. intros x Hx. eapply gives_bind; [exact Hb|]. intros y Hy. by apply Forall_app_2. Qed.

Lemma sound_expression p e : codes e → sound (expression_items p e).
Proof. intros He. unfold expression_items, emit_expr. specialize (He false). destruct (emitNode false e); [by apply sound_code|done..]. Qed.

Lemma sound_if falls th el : sound th → (∀ c, el = Some c → sound c) → sound (if_items falls th el).
Proof.
  intros Ht He. eapply gives_bind; [exact Ht|]. intros t Hok. destruct el as [el|].
  - eapply gives_bind; [by apply He|]. intros e Heok. constructor; [by right|]. repeat (apply Forall_app_2; [done|]).
    apply Forall_app_2; [|done]. destruct falls; repeat constructor; by left.
  - constructor; [by right|done].
Qed.

Definition is_name_op (o : OpCode) : bool := match kind_of o with KName => true | _ => false end.

Lemma named_valid o s : is_name_op o = true → isValidVariableName s = true → item_ok (Plain (named_instr o s)).
Proof. intros H. apply named_ok. unfold is_name_op in H. by destruct (kind_of o). Qed.

Lemma sound_access o t f good bad el : is_name_op o = true → is_name_op t = true → isValidVariableName f = true →
  Forall (λ i, item_ok (Plain i)) good → Forall (λ i, item_ok (Plain i)) bad → (∀ c, el = Some c → sound c) →
  sound (access_items o t f good bad el).
Proof.
  intros Ho Ht Hf Hg Hb He. destruct el as [el|]; cbn.
  - eapply gives_bind; [by apply He|]. intros e Hok. constructor; [by apply named_valid|]. constructor; [by right|].
    apply Forall_app_2; [by apply sound_code|]. constructor; [by left|]. apply Forall_app_2; [by apply sound_code|done].
  - constructor; [by apply named_valid|by apply sound_code].
Qed.

Definition opt_sound (el : option Arm) : Prop := ∀ a, el = Some a → sound (arm_items a).

Lemma opt_sound_map el : opt_sound el → ∀ c, option_map arm_items el = Some c → sound c.
Proof. intros H c. destruct el as [a|]; cbn; [|done]. intros [= <-]. by apply H. Qed.

Lemma sound_fetch o t v f el : is_name_op o = true → is_name_op t = true → isValidVariableName v = true → isValidVariableName f = true →
  opt_sound el → sound (fetch_items o t v f (option_map arm_items el)).
Proof.
  intros Ho Ht Hv Hf He. apply sound_access; try done; [by repeat constructor; apply (named_valid StoreVar)|by repeat constructor; apply no_operand_ok|].
  by apply opt_sound_map.
Qed.

Lemma sound_value_index kw vi : (∀ e, vi = Some e → codes e) → sound (value_index_items kw vi).
Proof. intros H. destruct vi as [e|]; [by apply sound_expression, H|]. apply sound_ret. by repeat constructor; apply push_int_ok. Qed.

Lemma sound_resolve (b : bool) f : isValidVariableName f = true → sound (ret_items (if b then [named_instr ResolveDictAttr f] else [])).
Proof. intros H. apply sound_ret. destruct b; repeat constructor; by apply (named_valid ResolveDictAttr). Qed.

Lemma sound_writev b v f e a vi el : codes v → isValidVariableName f = true → codes e → codes a → (∀ x, vi = Some x → codes x) → opt_sound el →
  sound (writev_items b v f e a vi (option_map arm_items el)).
Proof.
  intros. unfold writev_items. repeat first [apply sound_follow|by apply sound_expression|by apply sound_resolve|by apply sound_value_index].
  apply sound_access; try done. by apply opt_sound_map.
Qed.

Lemma coercion_ok v : Forall (λ i, item_ok (Plain i)) (coercion v).
Proof. unfold coercion. destruct (isIntVar v); repeat constructor; by apply no_operand_ok. Qed.

Lemma sound_coercion v : sound (ret_items (coercion v)).
Proof. apply sound_ret, coercion_ok. Qed.

Lemma coerced_ok v i : item_ok (Plain i) → Forall (λ i, item_ok (Plain i)) (coercion v ++ [i]).
Proof. intros H. apply Forall_app_2; [apply coercion_ok|by constructor]. Qed.

(** The code of a statement, on a line of its own and in a branch.  NEXT without a variable is the exception. *)
Definition stmt_sound (s : Stmt) : Prop := (s = NextStmt "" ∨ sound (line_items s)) ∧ sound (inline_items s).

Ltac items :=
  repeat first
    [ exact I
    | assumption
    | apply sound_follow
    | apply sound_expression; assumption
    | apply sound_resolve; assumption
    | apply sound_value_index; assumption
    | apply sound_writev; assumption
    | apply sound_fetch; [reflexivity|reflexivity|assumption|assumption|assumption]
    | apply sound_access; [reflexivity|reflexivity|assumption| | |apply opt_sound_map; assumption]
    | apply sound_coercion
    | apply sound_ret
    | apply coerced_ok
    | apply Forall_cons_2
    | apply Forall_nil_2
    | apply named_valid; [reflexivity|assumption]
    | apply no_operand_ok; reflexivity
    | apply push_int_ok; reflexivity ].

Lemma simple_sound s : line_items s = inline_items s → sound (inline_items s) → stmt_sound s.
Proof. intros E H. split; [right; by rewrite E|done]. Qed.

Section statements_sound.
Context (parse : string → checked Stmt) (Hparse : ∀ t, gives stmt_sound (parse t)).
#[local] Set Default Proof Using "Type*".

Lemma arm_gives c t : gives (λ a, sound (arm_items a)) (parseBranchArmSpec parse c t).
Proof.
  unfold parseBranchArmSpec. cbv zeta. destruct (str_empty _); [done|].
  destruct (parsePositiveLineNumber _); [cbn; repeat constructor; by left|]. destruct (str_contains _ _); [done|]. destruct (_ || _); [done|].
  eapply gives_bind; [apply Hparse|]. by intros s [_ Hs].
Qed.

Lemma else_gives c t : gives (λ x, opt_sound x.2) (else_clause parse c t).
Proof.
  unfold else_clause. destruct (split_keyword _ _) as [[m e]|]; [|done]. eapply gives_bind; [apply arm_gives|]. intros a Ha. cbn. by intros ? [= <-].
Qed.

Lemma file_gives kw t : gives (λ x, isValidVariableName x.1 = true) (file_and_id kw t).
Proof.
  unfold file_and_id. eapply gives_bind; [apply (gives_any (λ _, True)); done|]. intros [f i] _. cbv zeta.
  eapply gives_bind; [apply gives_refuse|]. intros _ H%negb_false_iff. eapply gives_bind; [apply gives_refuse|]. by intros _ _.
Qed.

Lemma attribute_gives kw t : gives codes (attribute_expr kw t).
Proof.
  unfold attribute_expr. destruct (starts_with _ _); [|apply expression_of_codes].
  eapply gives_bind; [apply (gives_any (λ _, True)); done|]. intros s _. apply codes_dict.
Qed.

(** One step through a statement's parser. *)
Ltac stmt_step :=
  match goal with
  | |- gives _ (let _ := _ in _) => cbv zeta
  | |- gives _ (refuse (negb (isValidVariableName _)) _ ≫= _) => eapply gives_bind; [apply gives_refuse|]; intros _ ?%negb_false_iff
  | |- gives _ (refuse _ _ ≫= _) => eapply gives_bind; [apply (gives_any (λ _, True)); done|]; intros _ _
  | |- gives _ (expression_of _ _ ≫= _) => eapply gives_bind; [apply expression_of_codes|]; intros ? ?
  | |- gives _ (attribute_expr _ _ ≫= _) => eapply gives_bind; [apply attribute_gives|]; intros ? ?
  | |- gives _ (else_clause _ _ _ ≫= _) => eapply gives_bind; [apply else_gives|]; intros [? ?] ?; cbn [snd] in *
  | |- gives _ (file_and_id _ _ ≫= _) => eapply gives_bind; [apply file_gives|]; intros [? ?] ?; cbn [fst] in *
  | |- gives _ (parseBranchArmSpec _ _ _ ≫= _) => eapply gives_bind; [apply arm_gives|]; intros ? ?
  | |- gives _ (or_error _ _ ≫= _) => eapply gives_bind; [apply (gives_any (λ _, True)); done|]; intros ? _
  | |- gives _ (match ?x with _ => _ end) => destruct x
  | |- gives _ (Good _) => cbn [gives]
  | |- gives _ (Bad _) => exact I
  end.

Lemma fields_gives kw t : gives (λ x, isValidVariableName x.1.1.1 = true ∧ codes x.1.1.2 ∧ codes x.1.2 ∧ ∀ e, x.2 = Some e → codes e) (field_arguments kw t).
Proof.
  unfold field_arguments. repeat stmt_step.
  eapply (gives_bind (λ x : option Expr, ∀ e, x = Some e → codes e)); [|by intros vi Hvi].
  repeat stmt_step; [done|]. by intros ? [= <-].
Qed.

Ltac stmt := repeat stmt_step; apply simple_sound; [reflexivity|]; cbn [inline_items]; items.

Lemma let_gives t : gives stmt_sound (parse_let t).
Proof. unfold parse_let. repeat stmt_step; (split; [right|]); cbn [line_items inline_items]; items. Qed.
Lemma dim_gives t : gives stmt_sound (parse_dim t).
Proof. unfold parse_dim. repeat stmt_step; (split; [right|]); cbn [line_items inline_items]; items. Qed.
Lemma chain_gives t : gives stmt_sound (parse_chain t).
Proof. unfold parse_chain. stmt. Qed.
Lemma open_gives t : gives stmt_sound (parse_open parse t).
Proof. unfold parse_open. stmt. Qed.
Lemma readnext_gives t : gives stmt_sound (parse_readnext parse t).
Proof. unfold parse_readnext. stmt. Qed.
Lemma release_gives t : gives stmt_sound (parse_release t).
Proof. unfold parse_release. stmt. Qed.
Lemma close_gives t : gives stmt_sound (parse_close t).
Proof. unfold parse_close. stmt. Qed.
Lemma print_gives t : gives stmt_sound (parse_print t).
Proof. unfold parse_print. repeat stmt_step. apply simple_sound; [reflexivity|]. cbn [inline_items]. items. destruct (bool_decide _); items. Qed.

Lemma input_gives t : gives stmt_sound (parse_input t).
Proof.
  unfold parse_input. stmt_step. eapply (gives_bind (λ x : option Expr * string, ∀ e, x.1 = Some e → codes e)).
  - repeat stmt_step; cbn; [by intros ? [= <-]|done].
  - intros [prompt v] Hp. cbn [fst] in Hp. repeat stmt_step. apply simple_sound; [reflexivity|]. cbn [inline_items].
    apply sound_follow; [|items]. destruct prompt as [e|]; [specialize (Hp e eq_refl)|]; items.
Qed.

Lemma jump_sound s o n : line_items s = inline_items s → inline_items s = Good [ToLine o n] → o = Jump ∨ o = Call ∨ o = SetOnErrorHandler → stmt_sound s.
Proof. intros E1 E2 Ho. apply simple_sound; [done|]. rewrite E2. constructor; [exact Ho|constructor]. Qed.

Lemma goto_gives t : gives stmt_sound (parse_goto t).
Proof. unfold parse_goto. repeat stmt_step. eapply jump_sound; [done|done|]. by left. Qed.

Lemma gosub_gives t : gives stmt_sound (parse_gosub t).
Proof. unfold parse_gosub. repeat stmt_step. eapply jump_sound; [done|done|]. by right; left. Qed.

Lemma bare_gives kw s t : stmt_sound s → gives stmt_sound (parse_bare kw s t).
Proof. intros H. unfold parse_bare. by repeat stmt_step. Qed.

Lemma on_gives t : gives stmt_sound (parse_on t).
Proof.
  unfold parse_on. repeat stmt_step; (split; [right|done]); cbn [line_items].
  - apply sound_ret. constructor; [|constructor]. apply plain_ok; [by split|by right; right].
  - constructor; [by right; right|constructor].
Qed.

Lemma read_gives kw make t : (∀ v f e el, isValidVariableName v = true → isValidVariableName f = true → codes e → opt_sound el → stmt_sound (make v f e el)) →
  gives stmt_sound (parse_read parse kw make t).
Proof. intros H. unfold parse_read. repeat stmt_step. by apply H. Qed.

Lemma write_gives kw make t : (∀ v f e el, codes v → isValidVariableName f = true → codes e → opt_sound el → stmt_sound (make v f e el)) →
  gives stmt_sound (parse_write parse kw make t).
Proof. intros H. unfold parse_write. repeat stmt_step. by apply H. Qed.

Ltac field_step :=
  first
    [ stmt_step
    | match goal with
      | |- gives _ (field_arguments _ _ ≫= _) =>
          eapply gives_bind; [apply fields_gives|]; intros [[[? ?] ?] ?] (? & ? & ? & ?); cbn [fst snd] in *
      end ].

Lemma readv_gives t : gives stmt_sound (parse_readv parse t).
Proof.
  unfold parse_readv. repeat field_step. apply simple_sound; [reflexivity|]. cbn [inline_items]. items.
Qed.

Lemma writev_gives t : gives stmt_sound (parse_writev parse t).
Proof.
  unfold parse_writev. repeat field_step. split; [right|]; cbn [line_items inline_items]; items.
Qed.

Lemma for_gives t : gives stmt_sound (parse_for t).
Proof.
  unfold parse_for. repeat stmt_step.
  all: match goal with |- gives _ (?m ≫= _) => eapply (gives_bind (λ x : option Expr, ∀ e, x = Some e → codes e)) end;
    [repeat stmt_step; try done; by intros ? [= <-]|].
  all: intros st Hst; repeat stmt_step; (split; [right|done]); cbn [line_items]; (destruct (isStringVar _); [done|]);
    destruct st as [e|]; [specialize (Hst e eq_refl)|]; items.
Qed.

Lemma next_gives t : gives stmt_sound (parse_next t).
Proof.
  unfold parse_next. destruct t as [|c t]; [by split; [left|]|]. cbn [str_empty negb andb]. repeat stmt_step.
  split; [right|done]. cbn [line_items]. items.
Qed.

Lemma if_gives t : gives stmt_sound (parse_if parse t).
Proof.
  unfold parse_if. repeat stmt_step.
  all: match goal with |- gives _ (?m ≫= _) => eapply (gives_bind (λ x : option Arm, opt_sound x)) end;
    [repeat stmt_step; try done; by intros ? [= <-]|].
  all: intros el Hel; repeat stmt_step; apply simple_sound; [reflexivity|]; cbn [inline_items]; apply sound_follow; [items|];
    apply sound_if; [done|by apply opt_sound_map].
Qed.

Lemma mat_record_gives b t : gives stmt_sound (parse_mat_record parse b t).
Proof.
  unfold parse_mat_record. destruct b; repeat stmt_step; (split; [right|done]); cbn [line_items]; items.
Qed.

Lemma mat_copy_name a b : isValidVariableName a = true → isValidVariableName b = true → name_ok (uppercase a +:+ "|" +:+ uppercase b).
Proof.
  intros [Ha1 Ha2]%valid_name [_ Hb]%valid_name. apply plain_name; [by destruct (uppercase a)|]. rewrite !str_forall_app, Ha2, Hb. done.
Qed.

Lemma mat_assign_gives t : gives stmt_sound (parse_mat_assign t).
Proof.
  unfold parse_mat_assign. repeat stmt_step; (split; [right|done]); cbn [line_items].
  all: try (destruct (str_empty _); [done|]); cbn [negb str_empty]; items.
  all: apply plain_ok; [split; [done|by apply mat_copy_name]|by left].
Qed.

Lemma mat_gives t : gives stmt_sound (parse_mat parse t).
Proof. unfold parse_mat. repeat stmt_step; first [apply mat_record_gives|apply mat_assign_gives]. Qed.

Lemma keyword_gives t : gives stmt_sound (parse_keyword parse t).
Proof.
  unfold parse_keyword. destruct (default _ _) as [keyword rest]. cbv zeta.
  repeat (match goal with |- gives _ (if ?b then _ else _) => destruct b end;
    [first
      [ apply let_gives | apply dim_gives | apply input_gives | apply chain_gives | apply goto_gives | apply gosub_gives | apply on_gives
      | apply open_gives | apply readnext_gives | apply readv_gives | apply writev_gives | apply release_gives | apply close_gives
      | apply for_gives | apply next_gives | apply if_gives | apply print_gives | apply mat_gives
      | apply bare_gives, simple_sound; [reflexivity|]; cbn [inline_items]; items
      | apply read_gives; intros; apply simple_sound; [reflexivity|]; cbn [inline_items]; items
      | apply write_gives; intros; apply simple_sound; [reflexivity|]; cbn [inline_items]; items
      | apply simple_sound; [reflexivity|]; cbn [inline_items]; items ] |]).
  done.
Qed.
End statements_sound.

Lemma statement_gives fuel : ∀ t, gives stmt_sound (parse_statement fuel t).
Proof. induction fuel as [|fuel IH]; intros t; [done|]. by apply keyword_gives. Qed.

Lemma program_sound lines : Forall (λ l, stmt_sound (statement l)) (plines (parse_program lines)).
Proof.
  induction lines as [|[n text] lines IH]; cbn [parse_program]; [constructor|]. cbv zeta. destruct (str_empty _); [done|].
  pose proof (statement_gives (S (String.length (trim text))) (trim text)) as H. fold (parse_line (trim text)) in H.
  destruct (parse_line _); cbn [plines]; [by constructor|done..].
Qed.

(** Line numbers are those of the lines. *)
Lemma program_numbers lines : Forall (λ l, lineNumber l ∈ lines.*1) (plines (parse_program lines)).
Proof.
  induction lines as [|[n text] lines IH]; cbn [parse_program]; [constructor|]. cbv zeta.
  assert (Forall (λ l, lineNumber l ∈ ((n, text) :: lines).*1) (plines (parse_program lines))) as IH'.
  { eapply Forall_impl; [exact IH|]. intros l Hl. cbn. by right. }
  destruct (str_empty _); [done|]. destruct (parse_line _); cbn [plines]; [|done..]. constructor; [by left|done].
Qed.

(** ** The program *)

(** Every NEXT names its variable. *)
Definition next_named (ls : list ParsedBasicLine) : Prop := Forall (λ l, statement l ≠ NextStmt "") ls.

(** The six digits that the text has are enough for the floats. *)
Definition float_kept (i : Instruction) : Prop :=
  match operand i with VDbl d => stod (format_g 6 d) = Ok (d, "") | _ => True end.

Lemma items_sound ls items : program_items ls = (items, []) → next_named ls → Forall (λ l, stmt_sound (statement l)) ls →
  Forall item_ok (mjoin items.*2).
Proof.
  intros H Hn Hs. pose proof (program_items_lines ls items H) as HF. clear H.
  induction HF as [|l [n code] ls items [E1 E2] _ IH]; cbn; [constructor|].
  apply Forall_cons in Hn as [Hn Hns], Hs as [[Hl _] Hss]. apply Forall_app_2; [|by apply IH].
  cbn in E2. destruct Hl as [?|Hl]; [done|]. by rewrite E2 in Hl.
Qed.

Lemma placed_carried index code : ∀ ip, Forall item_ok code → Forall carried (place index ip code).
Proof.
  induction code as [|x code IH]; intros ip Hc; cbn; [constructor|]. apply Forall_cons in Hc as [Hx Hc]. constructor; [|by apply IH].
  assert (Hj : ∀ o t, o = Jump ∨ o = JumpIfZero ∨ o = Call ∨ o = SetOnErrorHandler → carried (jump_back o t)).
  { intros o t Ho. unfold carried, jump_back. cbn. assert (kind_of o = KInt) as -> by (by destruct Ho as [->|[->|[->| ->]]]).
    destruct t as [t|]; [|by split]. unfold address. split; [done|]. apply to_int32_ok. }
  destruct x as [i|o d|o n]; cbn in Hx |- *; [by destruct Hx|by apply Hj; destruct Hx; auto|by apply Hj; destruct Hx as [|[]]; auto].
Qed.

(** Carried anywhere and with its jumps inside, a program is one that the text can carry. *)
Lemma carried_ok p : Forall carried p → Forall float_kept p → jumps_within (length p - 1) p → Z.of_nat (length p) <= INT_MAX →
  Forall (instr_ok (Z.of_nat (length p))) p.
Proof.
  intros Hc Hf Hj Hsz. apply Forall_lookup_2. intros k i Hi. pose proof (Forall_lookup_1 _ _ _ _ Hc Hi) as Hci.
  pose proof (Forall_lookup_1 _ _ _ _ Hf Hi) as Hfi. specialize (Hj k i Hi). apply lookup_lt_Some in Hi.
  unfold carried, float_kept, instr_ok in *. destruct (kind_of (op i)) eqn:Ek, (operand i) as [z|d|s] eqn:Eo; try done.
  destruct Hci as [Hn Hz]. split; [done|]. case_bool_decide as Ho; [|done].
  destruct Hj as (t & [= <-] & Ht); [rewrite !elem_of_cons, elem_of_nil in Ho; by destruct Ho as [->|[->|[->|[]]]]|]. lia.
Qed.

Lemma source_numbers ls items n : program_items ls = (items, []) →
  n ∈ mjoin ((λ '(n, code), replicate (length code) n) <$> items) → ∃ l, l ∈ ls ∧ n = lineNumber l.
Proof.
  intros H%program_items_lines Hn. induction H as [|l [m code] ls items [E _] _ IH]; cbn in *; [by apply elem_of_nil in Hn|].
  apply elem_of_app in Hn as [[-> _]%elem_of_replicate|Hn]; [exists l; by split; [left|]|]. destruct (IH Hn) as (l' & ? & ->). exists l'. by split; [right|].
Qed.

Lemma compiled_reloads lines : let r := compile lines in
  c_success r = true → end_is_last (plines (parse_program lines)) → next_named (plines (parse_program lines)) →
  Forall float_kept (c_program r) → Z.of_nat (length (c_program r)) <= INT_MAX → Forall (λ l, 0 <= l.1 <= INT_MAX) lines →
  ∃ text, serializeBytecodeText (c_program r) (c_source r) = Ok text ∧ parse text = Ok (mkLoaded (c_program r) ∅ (c_source r)).
Proof.
  cbv zeta. intros Hs Hend Hnext Hf Hsz Hn. destruct (compile_accepted lines Hs) as (items & halt & Hc).
  pose proof (compiled_jumps_last _ _ _ _ Hc Hend Hsz) as Hj. pose proof Hc as [Hls Hitems _ Hprog Hsrc Hhalt].
  assert (Hcar : Forall carried (c_program (compile lines))).
  { rewrite Hprog. apply Forall_app_2.
    - apply placed_carried. eapply items_sound; [exact Hitems|done|apply program_sound].
    - destruct Hhalt as [->|[-> _]]; repeat constructor. }
  assert (Hlen : length (c_source (compile lines)) = length (c_program (compile lines))).
  { by rewrite Hsrc, Hprog, !length_app, length_replicate, length_place, length_source. }
  assert (Hnum : Forall (λ l, 0 <= l <= INT_MAX) (c_source (compile lines))).
  { rewrite Hsrc. apply Forall_app_2; [|apply Forall_replicate; unfold INT_MAX; lia]. apply Forall_forall. intros n Hin.
    destruct (source_numbers _ _ _ Hitems Hin) as (l & Hl & ->). pose proof (proj1 (Forall_forall _ _) (program_numbers lines) l Hl) as Hx.
    cbn in Hx. apply list_elem_of_fmap in Hx as (x & -> & Hx). by apply (proj1 (Forall_forall _ _) Hn). }
  destruct (bytecode_roundtrip (c_program (compile lines)) (c_source (compile lines))) as (text & Et & Ep); [by apply carried_ok|done|by right|].
  exists text. split; [done|]. rewrite Ep. do 2 f_equal. destruct (c_source _); [|done]. cbn in Hlen. by rewrite <- Hlen.
Qed.

(** C17. RUN loads what was compiled.  Take any program text that the compiler accepts, with END on the last line if anywhere, a variable
    after every NEXT and floats that six digits determine, of at most [INT_MAX] instructions and with line numbers in the range of [int].
    Then the bytecode can be written as text, and loading that text gives the same instructions in the same order and the
    same source line for each; the loader refuses nothing. *)
Theorem compiled_program_reloads lines : let r := compile lines in
  c_success r = true → end_is_last (plines (parse_program lines)) → next_named (plines (parse_program lines)) →
  Forall float_kept (c_program r) → Z.of_nat (length (c_program r)) <= INT_MAX → Forall (λ l, 0 <= l.1 <= INT_MAX) lines →
  ∃ text, serializeBytecodeText (c_program r) (c_source r) = Ok text ∧ parse text = Ok (mkLoaded (c_program r) ∅ (c_source r)).
Proof. exact (compiled_reloads lines). Qed.

Definition ex_saved : list (Z * string) :=
  [(10, "LET N% = LEN(A$) * 2.5"); (20, "FOR I = 1 TO N%"); (30, "IF I = 3 THEN PRINT " +:+ quote "ab" +:+ " ELSE 60"); (40, "NEXT I"); (50, "MAT A = MAT B");
   (60, "READ R FROM F, @USERNO ELSE GOTO 10"); (70, "END")].

Lemma compiled_program_reloads_witness :
  ∃ text, serializeBytecodeText (c_program (compile ex_saved)) (c_source (compile ex_saved)) = Ok text ∧
    parse text = Ok (mkLoaded (c_program (compile ex_saved)) ∅ (c_source (compile ex_saved))) ∧ length (c_program (compile ex_saved)) = 30%nat.
Proof.
  destruct (compiled_program_reloads ex_saved) as (text & E1 & E2).
  - vm_compute. reflexivity.
  - intros k l. vm_compute plines. do 7 (destruct k as [|k]; [by intros [= <-]|]). done.
  - unfold next_named. vm_compute plines. by repeat constructor.
  - vm_compute c_program. repeat constructor.
  - vm_compute. discriminate.
  - unfold ex_saved, INT_MAX. repeat constructor; cbn; lia.
  - exists text. split; [exact E1|]. split; [exact E2|]. vm_compute. reflexivity.
Defined.

(** NEXT without a variable is compiled and runs, but the saved program cannot be loaded. *)
Example next_alone : let r := compile [(10, "FOR I = 1 TO 3"); (20, "NEXT")] in
  c_success r = true ∧
  (t ← serializeBytecodeText (c_program r) (c_source r); parse t) = Throw (RuntimeError "FOR_NEXT requires a variable name at line 7").
Proof. split; vm_compute; reflexivity. Qed.
