(* ===== verification/BasicIr.v ===== *)
(** * The normalised program

    [BasicNormalizedIr.h] and the second half of [BasicSemanticAnalyzer.cpp]: what the analyzer hands to the emitter is a copy of
    the statements in types of its own.  The copy is faithful, field by field, so that the emitter (BasicEmit), which the model
    gives the statements themselves, has the same information. *)

From Stdlib Require Import Ascii String.
From S2P Require Import Prelude CLib BasicExpr BasicStmt BasicEmit.
From stdpp Require Import options.
Local Open Scope Z_scope.

(* src/userland/basic/BasicNormalizedIr.h:20-192 [NormalizedStmt] *)
#[warnings="-register-all"] Inductive NormalizedStmt :=
| IrLetStmt (variableName : string) (expression : Expr)
| IrInputStmt (promptExpr : option Expr) (variableName : string)
| IrChainStmt (programExpr : Expr)
| IrGotoStmt (targetLine : Z)
| IrGosubStmt (targetLine : Z)
| IrReturnStmt
| IrForStmt (variableName : string) (initExpr limitExpr : Expr) (stepExpr : option Expr)
| IrNextStmt (variableName : string)
| IrIfStmt (condition : Expr) (thenArm : IrArm) (elseArm : option IrArm)
| IrPrintStmt (expression : Expr) (suppressEol : bool)
| IrRemStmt
| IrStopStmt
| IrEndStmt
| IrDimStmt (variableName : string) (sizeExpr : Expr)
| IrLetArrayStmt (variableName : string) (indexExpr valueExpr : Expr)
| IrClearStmt
| IrOpenStmt (fileExpr : Expr) (fileVar : string) (elseArm : option IrArm)
| IrReadStmt (targetVar fileVar : string) (idExpr : Expr) (elseArm : option IrArm)
| IrReadUStmt (targetVar fileVar : string) (idExpr : Expr) (elseArm : option IrArm)
| IrWriteStmt (valueExpr : Expr) (fileVar : string) (idExpr : Expr) (elseArm : option IrArm)
| IrWriteUStmt (valueExpr : Expr) (fileVar : string) (idExpr : Expr) (elseArm : option IrArm)
| IrReadNextStmt (targetVar fileVar : string) (elseArm : option IrArm)
| IrReadVStmt (targetVar fileVar : string) (idExpr attrExpr : Expr) (valueIndexExpr : option Expr) (elseArm : option IrArm)
| IrWriteVStmt (valueExpr : Expr) (fileVar : string) (idExpr attrExpr : Expr) (valueIndexExpr : option Expr) (elseArm : option IrArm)
| IrCloseStmt (fileVar : string)
| IrReleaseStmt (fileVar : string) (idExpr : Expr)
| IrOnErrorStmt (stop : bool) (targetLine : Z)
| IrMatAssignStmt (targetArray : string) (rhsExpr : option Expr) (rhsSourceArray : string)
| IrMatReadStmt (targetArray fileVar : string) (idExpr : Expr) (elseArm : option IrArm)
| IrMatWriteStmt (sourceArray fileVar : string) (idExpr : Expr) (elseArm : option IrArm)
with IrArm := IrArmLine (line : Z) | IrArmInline (statement : NormalizedStmt).

(* src/userland/basic/BasicNormalizedIr.h:198-202 [NormalizedLine] *)
Record NormalizedLine := mkNormalized { ir_lineNumber : Z; ir_statement : NormalizedStmt }.

(* src/userland/basic/BasicSemanticAnalyzer.cpp:134-276 [toIrStatement] *)
Fixpoint toIrStatement (s : Stmt) : NormalizedStmt :=
  match s with
  | LetStmt variableName expression => IrLetStmt variableName expression
  | InputStmt promptExpr variableName => IrInputStmt promptExpr variableName
  | ChainStmt programExpr => IrChainStmt programExpr
  | GotoStmt targetLine => IrGotoStmt targetLine
  | GosubStmt targetLine => IrGosubStmt targetLine
  | ReturnStmt => IrReturnStmt
  | ForStmt variableName initExpr limitExpr stepExpr => IrForStmt variableName initExpr limitExpr stepExpr
  | NextStmt variableName => IrNextStmt variableName
  | IfStmt condition thenArm elseArm => IrIfStmt condition (toIrBranchArm thenArm) (option_map toIrBranchArm elseArm)
  | PrintStmt expression suppressEol => IrPrintStmt expression suppressEol
  | RemStmt => IrRemStmt
  | StopStmt => IrStopStmt
  | EndStmt => IrEndStmt
  | DimStmt variableName sizeExpr => IrDimStmt variableName sizeExpr
  | LetArrayStmt variableName indexExpr valueExpr => IrLetArrayStmt variableName indexExpr valueExpr
  | ClearStmt => IrClearStmt
  | OpenStmt fileExpr fileVar elseArm => IrOpenStmt fileExpr fileVar (option_map toIrBranchArm elseArm)
  | ReadStmt targetVar fileVar idExpr elseArm => IrReadStmt targetVar fileVar idExpr (option_map toIrBranchArm elseArm)
  | ReadUStmt targetVar fileVar idExpr elseArm => IrReadUStmt targetVar fileVar idExpr (option_map toIrBranchArm elseArm)
  | WriteStmt valueExpr fileVar idExpr elseArm => IrWriteStmt valueExpr fileVar idExpr (option_map toIrBranchArm elseArm)
  | WriteUStmt valueExpr fileVar idExpr elseArm => IrWriteUStmt valueExpr fileVar idExpr (option_map toIrBranchArm elseArm)
  | ReadNextStmt targetVar fileVar elseArm => IrReadNextStmt targetVar fileVar (option_map toIrBranchArm elseArm)
  | ReadVStmt targetVar fileVar idExpr attrExpr valueIndexExpr elseArm => IrReadVStmt targetVar fileVar idExpr attrExpr valueIndexExpr (option_map toIrBranchArm elseArm)
  | WriteVStmt valueExpr fileVar idExpr attrExpr valueIndexExpr elseArm => IrWriteVStmt valueExpr fileVar idExpr attrExpr valueIndexExpr (option_map toIrBranchArm elseArm)
  | CloseStmt fileVar => IrCloseStmt fileVar
  | ReleaseStmt fileVar idExpr => IrReleaseStmt fileVar idExpr
  | OnErrorStmt stop targetLine => IrOnErrorStmt stop targetLine
  | MatAssignStmt targetArray rhsExpr rhsSourceArray => IrMatAssignStmt targetArray rhsExpr rhsSourceArray
  | MatReadStmt targetArray fileVar idExpr elseArm => IrMatReadStmt targetArray fileVar idExpr (option_map toIrBranchArm elseArm)
  | MatWriteStmt sourceArray fileVar idExpr elseArm => IrMatWriteStmt sourceArray fileVar idExpr (option_map toIrBranchArm elseArm)
  end
with toIrBranchArm (a : Arm) : IrArm :=
  match a with ArmLine line => IrArmLine line | ArmInline s => IrArmInline (toIrStatement s) end.

(* src/userland/basic/BasicSemanticAnalyzer.cpp:12-28 [toIrBranchArm, toIrBranchArmOpt] *)
Definition toIrBranchArmOpt (arm : option Arm) : option IrArm := option_map toIrBranchArm arm.

(** The way back. *)
Fixpoint ofIrStatement (s : NormalizedStmt) : Stmt :=
  match s with
  | IrLetStmt variableName expression => LetStmt variableName expression
  | IrInputStmt promptExpr variableName => InputStmt promptExpr variableName
  | IrChainStmt programExpr => ChainStmt programExpr
  | IrGotoStmt targetLine => GotoStmt targetLine
  | IrGosubStmt targetLine => GosubStmt targetLine
  | IrReturnStmt => ReturnStmt
  | IrForStmt variableName initExpr limitExpr stepExpr => ForStmt variableName initExpr limitExpr stepExpr
  | IrNextStmt variableName => NextStmt variableName
  | IrIfStmt condition thenArm elseArm => IfStmt condition (ofIrArm thenArm) (option_map ofIrArm elseArm)
  | IrPrintStmt expression suppressEol => PrintStmt expression suppressEol
  | IrRemStmt => RemStmt
  | IrStopStmt => StopStmt
  | IrEndStmt => EndStmt
  | IrDimStmt variableName sizeExpr => DimStmt variableName sizeExpr
  | IrLetArrayStmt variableName indexExpr valueExpr => LetArrayStmt variableName indexExpr valueExpr
  | IrClearStmt => ClearStmt
  | IrOpenStmt fileExpr fileVar elseArm => OpenStmt fileExpr fileVar (option_map ofIrArm elseArm)
  | IrReadStmt targetVar fileVar idExpr elseArm => ReadStmt targetVar fileVar idExpr (option_map ofIrArm elseArm)
  | IrReadUStmt targetVar fileVar idExpr elseArm => ReadUStmt targetVar fileVar idExpr (option_map ofIrArm elseArm)
  | IrWriteStmt valueExpr fileVar idExpr elseArm => WriteStmt valueExpr fileVar idExpr (option_map ofIrArm elseArm)
  | IrWriteUStmt valueExpr fileVar idExpr elseArm => WriteUStmt valueExpr fileVar idExpr (option_map ofIrArm elseArm)
  | IrReadNextStmt targetVar fileVar elseArm => ReadNextStmt targetVar fileVar (option_map ofIrArm elseArm)
  | IrReadVStmt targetVar fileVar idExpr attrExpr valueIndexExpr elseArm => ReadVStmt targetVar fileVar idExpr attrExpr valueIndexExpr (option_map ofIrArm elseArm)
  | IrWriteVStmt valueExpr fileVar idExpr attrExpr valueIndexExpr elseArm => WriteVStmt valueExpr fileVar idExpr attrExpr valueIndexExpr (option_map ofIrArm elseArm)
  | IrCloseStmt fileVar => CloseStmt fileVar
  | IrReleaseStmt fileVar idExpr => ReleaseStmt fileVar idExpr
  | IrOnErrorStmt stop targetLine => OnErrorStmt stop targetLine
  | IrMatAssignStmt targetArray rhsExpr rhsSourceArray => MatAssignStmt targetArray rhsExpr rhsSourceArray
  | IrMatReadStmt targetArray fileVar idExpr elseArm => MatReadStmt targetArray fileVar idExpr (option_map ofIrArm elseArm)
  | IrMatWriteStmt sourceArray fileVar idExpr elseArm => MatWriteStmt sourceArray fileVar idExpr (option_map ofIrArm elseArm)
  end
with ofIrArm (a : IrArm) : Arm :=
  match a with IrArmLine line => ArmLine line | IrArmInline s => ArmInline (ofIrStatement s) end.

(* src/userland/basic/BasicSemanticAnalyzer.cpp:304-311 [BasicSemanticAnalyzer::analyze] *)
Definition normalize (lines : list ParsedBasicLine) : list NormalizedLine :=
  (λ l, mkNormalized (lineNumber l) (toIrStatement (statement l))) <$> lines.

Definition restore (lines : list NormalizedLine) : list ParsedBasicLine :=
  (λ l, mkLine (ir_lineNumber l) (ofIrStatement (ir_statement l))) <$> lines.

(** ** Nothing is lost *)

Lemma restored_statement : ∀ s, ofIrStatement (toIrStatement s) = s
with restored_arm : ∀ a, ofIrArm (toIrBranchArm a) = a.
Proof.
  - destruct s; cbn; rewrite ?restored_arm; repeat match goal with el : option Arm |- _ => destruct el; cbn; rewrite ?restored_arm end; reflexivity.
  - destruct a; cbn; rewrite ?restored_statement; reflexivity.
Qed.

Lemma normalized_statement : ∀ s, toIrStatement (ofIrStatement s) = s
with normalized_arm : ∀ a, toIrBranchArm (ofIrArm a) = a.
Proof.
  - destruct s; cbn; rewrite ?normalized_arm; repeat match goal with el : option IrArm |- _ => destruct el; cbn; rewrite ?normalized_arm end; reflexivity.
  - destruct a; cbn; rewrite ?normalized_statement; reflexivity.
Qed.

(** The normalised programs are the statements, one for one. *)
Lemma normalization lines ir : normalize lines = ir ↔ lines = restore ir.
Proof.
  split; [intros <-|intros ->]; unfold normalize, restore; rewrite <- list_fmap_compose.
  - induction lines as [|[n s] lines IH]; cbn; [done|]. by rewrite restored_statement, <- IH.
  - induction ir as [|[n s] ir IH]; cbn; [done|]. by rewrite normalized_statement, IH.
Qed.
