(* ===== verification/BasicRun.v ===== *)
(** * Running compiled BASIC statements

    A reference interpreter for statements: expressions by the evaluator of
    BasicExprRun, branches by ordinary recursion, the primitive operations (a
    store, a print, a file access) by the machine's operation of that name, and
    no program counter: a statement answers where to go on. [line_code_correct]
    shows that the machine, run on the code the compiler laid out, does what the
    interpreter says, for every kind of statement. *)

From Stdlib Require Import Ascii String.
From S2P Require Import Prelude CLib Dbl Records Locks FileSys Conv Bytecode Correl Dict Values Registry Vm VmProps VmRuns BasicExpr BasicExprRun BasicStmt BasicEmit BasicLayout.
From stdpp Require Import options.
Local Open Scope Z_scope.

(** ** The operations do not look at the program or at the instruction pointer *)

Definition with_code (p : list Instruction) (ip : Z) (r : Runtime) : Runtime :=
  mkRuntime p (r_lines r) (r_stack r) (r_calls r) (r_fors r) (r_vars r) (r_arrays r) (r_files r) ip
    (r_interrupted r) (r_status r) (r_onerr r) (r_out r) (r_in r) (r_outside r) (r_world r).

(** [m] does the same with another program and another instruction pointer, both
    of which it leaves alone; only with an answer in [j] does it set the pointer. *)
Definition relocatable {A} (j : A → bool) (m : proc Runtime A) : Prop := ∀ r p k,
  m (with_code p k r) = ((m r).1, with_code p (match (m r).1 with Ok a => if j a then r_ip (m r).2 else k | _ => k end) (m r).2).

Abbreviation stays := (λ _, false).
Definition jumps (f : flow) : bool := match f with Jumped => true | _ => false end.

Lemma relocatable_bind {A B} j (m : proc Runtime A) (f : A → proc Runtime B) :
  relocatable stays m → (∀ a, relocatable j (f a)) → relocatable j (m ≫= f).
Proof.
  intros Hm Hf r p k. unfold mbind, proc_bind. rewrite Hm. destruct (m r) as [[a|x|w] r']; cbn; [|done..]. apply Hf.
Qed.

Lemma relocatable_ret {A} (j : A → bool) a : j a = false → relocatable j (mret a).
Proof. intros Hj r p k. cbn. by rewrite Hj. Qed.

Lemma relocatable_throw {A} (j : A → bool) x : relocatable j (throw x).
Proof. done. Qed.

Lemma relocatable_lift {A} (o : outcome A) : relocatable stays (lift o).
Proof. intros r p k. cbn. by destruct o. Qed.

Lemma relocatable_gets {A} (f : Runtime → A) : (∀ r p k, f (with_code p k r) = f r) → relocatable stays (gets f).
Proof. intros H r p k. unfold gets. cbn [fst snd]. by rewrite H. Qed.

Lemma relocatable_modify f : (∀ r p k, f (with_code p k r) = with_code p k (f r)) → relocatable stays (modify f).
Proof. intros H r p k. unfold modify. cbn [fst snd]. by rewrite H. Qed.

Lemma relocatable_catch {A} j (m : proc Runtime A) h : relocatable j m → (∀ e m', h e = Some m' → relocatable j m') → relocatable j (try_catch m h).
Proof.
  intros Hm Hh r p k. unfold try_catch. rewrite Hm. destruct (m r) as [[a|x|w] r']; cbn; try done.
  destruct (h x) eqn:E; [|done]. by apply (Hh x).
Qed.

Lemma relocatable_pop : relocatable stays pop.
Proof. intros r p k. unfold pop. cbn. by destruct (r_stack r). Qed.

Lemma relocatable_on_world {A} (m : proc World A) : relocatable stays (on_world m).
Proof. intros r p k. unfold on_world, zoom. cbn. by destruct (m (r_world r)) as [[] ?]. Qed.

Lemma relocatable_conflict o : relocatable jumps (handleRecordLockConflict o).
Proof. intros r p k. unfold handleRecordLockConflict. cbn. by destruct (r_onerr r). Qed.

Lemma relocatable_input : relocatable stays readInputLine.
Proof. intros r p k. unfold readInputLine. cbn. by destruct (getline NL (r_in r)) as [[]|]. Qed.

Lemma relocatable_return : relocatable jumps exec_return.
Proof. intros r p k. unfold exec_return. cbn. by destruct (r_calls r). Qed.

#[local] Hint Resolve relocatable_return relocatable_throw relocatable_lift relocatable_pop relocatable_on_world relocatable_conflict
  relocatable_input : gemini.

Ltac relocate :=
  cbv zeta;
  repeat (lazymatch goal with
  | |- relocatable _ (next _) => apply relocatable_bind; [|intros ?]
  | |- relocatable _ (mret _) => by apply relocatable_ret
  | |- relocatable _ (push _) => by apply relocatable_modify
  | |- relocatable _ (modify _) => by apply relocatable_modify
  | |- relocatable _ (gets _) => by apply relocatable_gets
  | |- relocatable _ (try_catch _ _) => apply relocatable_catch; [|intros ? ? ?; repeat case_match; simplify_eq]
  | |- relocatable _ (fail _) => apply relocatable_throw
  | |- relocatable _ (string_operand _) => done
  | |- relocatable _ (name_operand _) => unfold name_operand
  | |- relocatable _ (pop_int _) => unfold pop_int
  | |- relocatable _ (pop_string _) => unfold pop_string
  | |- relocatable _ pop_coerced => unfold pop_coerced
  | |- relocatable _ pop_text => unfold pop_text
  | |- relocatable _ (push_some _) => unfold push_some
  | |- relocatable _ push_none => unfold push_none
  | |- relocatable _ (read_only _ _) => unfold read_only
  | |- relocatable _ (with_file _ _ _ _) => unfold with_file
  | |- relocatable _ (with_file_else _ _ _ _) => unfold with_file_else
  | |- relocatable _ (on_fs_error _ _) => unfold on_fs_error
  | |- relocatable _ (on_std_error _ _) => unfold on_std_error
  | |- relocatable _ (on_lock_conflict _ _) => unfold on_lock_conflict
  | |- relocatable _ (open_into _ _ _ _) => unfold open_into
  | |- relocatable _ (push_next_record _ _ _) => unfold push_next_record
  | |- relocatable _ (evaluateDictFieldCell _ _ _ _ _) => unfold evaluateDictFieldCell
  | |- relocatable _ (put_file _ _) => unfold put_file
  | |- relocatable _ (put_array _ _) => unfold put_array
  | |- relocatable _ (reset_cursor _ _) => unfold reset_cursor
  | |- relocatable _ (write_out _) => unfold write_out
  | |- relocatable _ (modify (set_ip _) ≫= _) => done
  | |- relocatable _ (_ ≫= _) => apply relocatable_bind; [|intros ?]
  | |- relocatable _ (if ?b then _ else _) => destruct b
  | |- relocatable _ (match ?x with _ => _ end) => destruct x
  | |- relocatable _ _ => solve [eauto with gemini]
  end; cbv zeta).

(** Instructions whose operand is of the kind they want and that do not jump. *)
Definition self_contained (i : Instruction) : bool :=
  match op i, operand i with
  | (CoerceInt | PrintVal | PrintEol | InputStr | Chain | Return | Drop | ClearVars), _ => true
  | (StoreVar | DimArray | StoreArr | MatInit | MatCopy | MatLoadFromRec | MatStoreToRec | ForNext | OpenFile | OpenFileTry
     | ReadRec | ReadRecTry | ReadRecU | ReadRecUTry | WriteRec | WriteRecTry | WriteRecU | WriteRecUTry | ReleaseRec
     | ReadNext | ReadNextTry | ReadV | ReadVTry | WriteV | WriteVTry | ResolveDictAttr | CloseFile), VStr _ => true
  | (PushInt | SetOnErrorHandler), VInt _ => true
  | _, _ => false
  end.

Lemma relocatable_exec env i : self_contained i = true → relocatable jumps (exec env i).
Proof.
  destruct i as [o v c]. unfold self_contained. cbn [op operand].
  destruct o; try done; destruct v as [n|d|s]; try done; intros _; unfold exec; cbn [op].
  all: unfold exec_print, exec_input, exec_coerce, exec_return, exec_for_next, exec_dim, exec_store_arr, exec_mat_init, exec_mat_copy,
    exec_mat_load, exec_mat_store, exec_open, exec_open_try, exec_read_u, exec_read_u_try, exec_read, exec_read_try, exec_write_u,
    exec_write_u_try, exec_write, exec_write_try, exec_release, exec_read_next, exec_read_next_try, exec_read_v, exec_read_v_try,
    exec_write_v, exec_write_v_try, exec_resolve_dict, exec_chain, exec_store_var; relocate.
Qed.

(** ** The interpreter *)

(** Where a statement goes on: after itself, at a line, at a line as a
    subroutine, at the address it has set itself (a RETURN, a NEXT, an ON ERROR
    handler), or nowhere. *)
Inductive control := Continue | Goto (line : Z) | Gosub (line : Z) | Elsewhere | Halted.

Section interpreter.
Context (env : Env).

Definition perform (i : Instruction) : proc Runtime control :=
  f ← exec env i; mret (match f with Next => Continue | Jumped => Elsewhere | Stopped => Halted end).

Definition and_then (m k : proc Runtime control) : proc Runtime control :=
  c ← m; match c with Continue => k | _ => mret c end.
Infix "▸" := and_then (at level 60, right associativity).

Fixpoint performs (l : list Instruction) : proc Runtime control :=
  match l with [] => mret Continue | i :: l' => perform i ▸ performs l' end.

Definition code_length (e : Expr) : nat := match emit_expr e with Good code => length code | _ => 0 end.

(** Pushes the expression's value; there is no answer when the operand stack
    would have more than [INT_MAX] values. *)
Definition expression (e : Expr) : proc Runtime control := λ r,
  if INT_MAX <? Z.of_nat (length (r_stack r) + code_length e) then (Undefined "operand stack", r)
  else match eval env r e (r_outside r) with
       | (Ok v, g) => (Ok Continue, set_fn (mkFnState (v :: r_stack r) g) r)
       | (Throw x, _) => (Throw x, r)
       | (Undefined w, _) => (Undefined w, r)
       end.

(** The test of an IF, and of the flag that a trying operation leaves. *)
Definition branch (th el : proc Runtime control) : proc Runtime control :=
  v ← pop_int (opCodeName JumpIfZero); if v =? 0 then el else th.

Definition access (o try_o : OpCode) (f : string) (onSuccess onFailure : list Instruction) (el : option (proc Runtime control)) : proc Runtime control :=
  match el with
  | None => performs (named_instr o f :: onSuccess)
  | Some arm => perform (named_instr try_o f) ▸ branch (performs onSuccess) (performs onFailure ▸ arm)
  end.

Definition fetch (o try_o : OpCode) (v f : string) := access o try_o f [named_instr StoreVar v] [makeNoOperandInstruction Drop].

Definition value_index (vi : option Expr) : proc Runtime control :=
  match vi with Some e => expression e | None => performs [instr PushInt (VInt 0)] end.

Definition writev (resolve : bool) (v : Expr) (f : string) (e a : Expr) (vi : option Expr) (el : option (proc Runtime control)) : proc Runtime control :=
  expression v ▸ expression e ▸ expression a ▸
  performs (if resolve && is_dict_field a then [named_instr ResolveDictAttr f] else []) ▸
  value_index vi ▸ access WriteV WriteVTry f [] [] el.

Fixpoint run_inline (s : Stmt) : proc Runtime control :=
  match s with
  | LetStmt var e => expression e ▸ performs (coercion var ++ [named_instr StoreVar var])
  | InputStmt prompt var =>
      (match prompt with Some e => expression e ▸ performs [makeNoOperandInstruction PrintVal] | None => performs [] end) ▸
      performs (makeNoOperandInstruction InputStr :: coercion var ++ [named_instr StoreVar var])
  | ChainStmt e => expression e ▸ performs [makeNoOperandInstruction Chain]
  | GotoStmt n => mret (Goto n)
  | GosubStmt n => mret (Gosub n)
  | ReturnStmt => performs [makeNoOperandInstruction Return]
  | IfStmt c th el => expression c ▸ branch (run_arm th) (match el with Some a => run_arm a | None => mret Continue end)
  | PrintStmt e b => expression e ▸ performs (makeNoOperandInstruction PrintVal :: if b then [] else [makeNoOperandInstruction PrintEol])
  | StopStmt | EndStmt => mret Halted
  | OpenStmt e f el => expression e ▸ access OpenFile OpenFileTry f [] [] (option_map run_arm el)
  | ReadStmt v f e el => expression e ▸ fetch ReadRec ReadRecTry v f (option_map run_arm el)
  | ReadUStmt v f e el => expression e ▸ fetch ReadRecU ReadRecUTry v f (option_map run_arm el)
  | WriteUStmt v f e el => expression v ▸ expression e ▸ access WriteRecU WriteRecUTry f [] [] (option_map run_arm el)
  | WriteStmt v f e el => expression v ▸ expression e ▸ access WriteRec WriteRecTry f [] [] (option_map run_arm el)
  | ReleaseStmt f e => expression e ▸ performs [named_instr ReleaseRec f]
  | ReadNextStmt v f el => fetch ReadNext ReadNextTry v f (option_map run_arm el)
  | ReadVStmt v f e a vi el =>
      expression e ▸ expression a ▸
      performs (if readVAttrNeedsDictResolve a then [named_instr ResolveDictAttr f] else []) ▸
      value_index vi ▸ fetch ReadV ReadVTry v f (option_map run_arm el)
  | WriteVStmt v f e a vi el => writev false v f e a vi (option_map run_arm el)
  | CloseStmt f => performs [named_instr CloseFile f]
  | ClearStmt => performs [makeNoOperandInstruction ClearVars]
  | _ => mret Continue
  end
with run_arm (a : Arm) : proc Runtime control :=
  match a with ArmLine n => mret (Goto n) | ArmInline s => run_inline s end.

(** A loop's body begins on the line after the FOR. *)
Definition for_setup (next_line : Z) (v : string) : proc Runtime control :=
  step ← pop_coerced; lim ← pop_coerced;
  if step =? 0 then fail "FOR: STEP cannot be zero"
  else modify (λ r, set_fors (mkFrame (canonicalVariableName (uppercase v)) lim step next_line :: r_fors r) r);; mret Continue.

(** [index]: the address of a line; [next_line]: that of the line after this one. *)
Definition run_line (index : Z → option nat) (next_line : Z) (s : Stmt) : proc Runtime control :=
  match s with
  | ForStmt v i l st =>
      expression i ▸ performs (coercion v ++ [named_instr StoreVar v]) ▸ expression l ▸
      (match st with Some e => expression e | None => performs [instr PushInt (VInt 1)] end) ▸ for_setup next_line v
  | NextStmt v => performs [named_instr ForNext v]
  | DimStmt v e => expression e ▸ performs [named_instr DimArray v]
  | LetArrayStmt v i e => expression e ▸ performs (coercion v) ▸ expression i ▸ performs [named_instr StoreArr v]
  | OnErrorStmt b n => performs [if b then instr SetOnErrorHandler (VInt 0) else jump_back SetOnErrorHandler (index n)]
  | WriteVStmt v f e a vi el => writev true v f e a vi (option_map run_arm el)
  | MatAssignStmt t e src =>
      if negb (str_empty src) then performs [instr MatCopy (VStr (uppercase t +:+ "|" +:+ uppercase src))]
      else match e with
           | None => mret Continue
           | Some e => expression e ▸ performs [named_instr MatInit t]
           end
  | MatReadStmt t f e el => expression e ▸
      access ReadRec ReadRecTry f [named_instr MatLoadFromRec t] [makeNoOperandInstruction Drop] (option_map run_arm el)
  | MatWriteStmt t f e el => performs [named_instr MatStoreToRec t] ▸ expression e ▸
      access WriteRec WriteRecTry f [] [] (option_map run_arm el)
  | _ => run_inline s
  end.

(** ** What it means that the machine does the same *)

Context (index : Z → option nat).

(** The address written into a jump to a line. *)
Definition target (n : Z) : Z := match index n with Some a => Z.of_nat a | None => 0 end.

(** The machine in [r] does what the interpreter answered, the statement's code
    ending at [e]. A subroutine is called with a return address from which the
    machine goes on to [e]. *)
Definition lands (r : Runtime) (e : Z) (res : outcome control * Runtime) : Prop :=
  match res with
  | (Ok Continue, r') => steps env r (set_ip e r')
  | (Ok (Goto n), r') => steps env r (set_ip (target n) r')
  | (Ok (Gosub n), r') => ∃ back, steps env r (set_ip (target n) (set_calls (back :: r_calls r') r')) ∧
      ∀ r1, r_program r1 = r_program r → steps env (set_ip back r1) (set_ip e r1)
  | (Ok Elsewhere, r') => steps env r r'
  | (Ok Halted, r') => ∃ r1 ip, steps env r r1 ∧ step env r1 = (Ok false, set_ip ip r')
  | (Throw x, _) => ∃ r1 r2, steps env r r1 ∧ step env r1 = (Throw x, r2)
  | (Undefined _, _) => True
  end.

Definition elsewhere (c : control) : bool := match c with Elsewhere => true | _ => false end.
Definition is_gosub (c : control) : bool := match c with Gosub _ => true | _ => false end.

Definition simulates (code : list item) (m : proc Runtime control) : Prop :=
  relocatable elsewhere m ∧
  ∀ r, psize r <= INT_MAX → code_at (r_program r) (r_ip r) (place index (Z.to_nat (r_ip r)) code) →
    lands r (r_ip r + Z.of_nat (length code)) (m r).

(** Code that can be followed by other code: it calls no subroutine. *)
Definition straight (code : list item) (m : proc Runtime control) : Prop :=
  simulates code m ∧ ∀ r c r', m r = (Ok c, r') → is_gosub c = false.
End interpreter.
Infix "▸" := and_then (at level 60, right associativity).

(** ** Moving along the code *)

Lemma relocatable_program {A} (j : A → bool) m r o r' : relocatable j m → m r = (o, r') → r_program r' = r_program r.
Proof.
  intros Hm Hr. specialize (Hm r (r_program r) (r_ip r)). rewrite Hr in Hm. replace (with_code (r_program r) (r_ip r) r) with r in Hm by (by destruct r).
  rewrite Hr in Hm. cbn [fst snd] in Hm. injection Hm as ->. done.
Qed.

Section simulation.
Context (env : Env) (index : Z → option nat) (Hindex : ∀ n a, index n = Some a → Z.of_nat a <= INT_MAX) `{Hframed : !FramedEnv env}.
#[local] Set Default Proof Using "Type*".
Abbreviation lands := (lands env index).
Abbreviation simulates := (simulates env index).
Abbreviation straight := (straight env index).

(** The machine may have come to [r] from another state of the same program. *)
Lemma lands_after r0 r e res : steps env r0 r → r_program r0 = r_program r → lands r e res → lands r0 e res.
Proof.
  intros Hs Hp. unfold BasicRun.lands. rewrite <- Hp. destruct res as [[[]| |] r'].
  - intros H. by etransitivity.
  - intros H. by etransitivity.
  - intros (back & H & Hb). exists back. split; [by etransitivity|done].
  - intros H. by etransitivity.
  - intros (r1 & ip & H & Hb). exists r1, ip. split; [by etransitivity|done].
  - intros (r1 & r2 & H & Hb). exists r1, r2. split; [by etransitivity|done].
  - done.
Qed.

(** More code after the end that only moves the instruction pointer. *)
Lemma lands_before r e e' m : relocatable elsewhere m →
  (∀ r1, r_program r1 = r_program r → steps env (set_ip e r1) (set_ip e' r1)) → lands r e (m r) → lands r e' (m r).
Proof.
  intros Hm He. destruct (m r) as [o r'] eqn:Hr. pose proof (relocatable_program _ _ _ _ _ Hm Hr) as Hp. unfold BasicRun.lands.
  destruct o as [[]| |]; try done.
  - intros H. etransitivity; [exact H|]. by apply He.
  - intros (back & H & Hb). exists back. split; [done|]. intros r1 H1. etransitivity; [by apply Hb|]. by apply He.
Qed.

(** Where a relocated interpreter's answer lands. *)
Lemma lands_relocated k e m r : relocatable elsewhere m → lands (set_ip k r) e (m (set_ip k r)) → lands (set_ip k r) e (m r).
Proof.
  intros Hm. change (set_ip k r) with (with_code (r_program r) k r) at 2. rewrite (Hm r (r_program r) k).
  destruct (m r) as [o r'] eqn:Hr. pose proof (relocatable_program _ _ _ _ _ Hm Hr) as Hp. cbn [fst snd]. destruct r'. cbn in Hp. subst.
  destruct o as [[]| |]; cbn; try done.
Qed.

Lemma place_at prog ip a b : 0 <= ip → code_at prog ip (place index (Z.to_nat ip) (a ++ b)) →
  code_at prog ip (place index (Z.to_nat ip) a) ∧
  code_at prog (ip + Z.of_nat (length a)) (place index (Z.to_nat (ip + Z.of_nat (length a))) b).
Proof.
  intros H0. rewrite place_app. intros [Ha Hb]%code_at_app. rewrite length_place in Hb. split; [done|].
  by replace (Z.to_nat (ip + Z.of_nat (length a))) with (Z.to_nat ip + length a)%nat by lia.
Qed.

Lemma relocatable_then m k : relocatable elsewhere m → relocatable elsewhere k → relocatable elsewhere (m ▸ k).
Proof.
  intros Hm Hk r p i. unfold and_then, mbind, proc_bind. rewrite Hm. destruct (m r) as [[c|x|w] r']; cbn [fst snd]; try done.
  by destruct c.
Qed.

(** The same for code whose end is known to be at [e]. *)
Definition simulates_to (e : Z) (code : list item) (m : proc Runtime control) : Prop :=
  relocatable elsewhere m ∧
  ∀ r, r_ip r + Z.of_nat (length code) = e → psize r <= INT_MAX → code_at (r_program r) (r_ip r) (place index (Z.to_nat (r_ip r)) code) →
    lands r e (m r).

Lemma simulates_all code m : (∀ e, simulates_to e code m) ↔ simulates code m.
Proof.
  split.
  - intros H. split; [apply (H 0)|]. intros r Hsz Hc. by apply (H _).
  - intros [Hr H] e. split; [done|]. intros r <-. apply H.
Qed.

Lemma simulates_app_to e c1 c2 m1 m2 : straight c1 m1 → simulates_to e c2 m2 → simulates_to e (c1 ++ c2) (m1 ▸ m2).
Proof.
  intros [[Hr1 H1] Hg] [Hr2 H2]. split; [by apply relocatable_then|]. intros r Hend Hsz Hcode.
  assert (0 <= r_ip r) as Hip by apply Hcode. apply place_at in Hcode as [Hc1 Hc2]; [|done].
  rewrite length_app, Nat2Z.inj_add, Z.add_assoc in Hend. specialize (H1 r Hsz Hc1). unfold and_then, mbind, proc_bind.
  destruct (m1 r) as [o r'] eqn:E. pose proof (relocatable_program _ _ _ _ _ Hr1 E) as Hp. destruct o as [c|x|w]; [|done..].
  specialize (Hg r c r' E). destruct c; try done. cbn in H1. unfold psize in Hsz. rewrite <- Hp in Hsz, Hc2.
  eapply lands_after; [exact H1|done|]. apply lands_relocated; [done|]. by apply H2.
Qed.

Lemma simulates_app c1 c2 m1 m2 : straight c1 m1 → simulates c2 m2 → simulates (c1 ++ c2) (m1 ▸ m2).
Proof. intros H1 H2. apply simulates_all. intros e. apply simulates_app_to; [done|]. by apply simulates_all. Qed.

Lemma straight_app c1 c2 m1 m2 : straight c1 m1 → straight c2 m2 → straight (c1 ++ c2) (m1 ▸ m2).
Proof.
  intros H1 H2. split; [by apply simulates_app; [|apply H2]|]. intros r c r'. unfold and_then, mbind, proc_bind.
  destruct (m1 r) as [[c1'|x|w] r1] eqn:E; [|done..]. destruct H1 as [_ Hg]. specialize (Hg r c1' r1 E).
  destruct c1'; try done; try (by intros [= <- _]). apply H2.
Qed.

(** *** One instruction *)

Lemma place_one i ip : place index ip [Plain i] = [i].
Proof. done. Qed.

Lemma at_one r i : code_at (r_program r) (r_ip r) [i] → at_instr r i.
Proof. intros [H0 H]. split; [done|]. rewrite <- (Nat.add_0_r (Z.to_nat (r_ip r))). by apply H. Qed.

Lemma at_psize r i : at_instr r i → r_ip r < psize r.
Proof. intros [H0 Hi]. apply lookup_lt_Some in Hi. unfold psize. lia. Qed.

Lemma relocatable_perform i : self_contained i = true → relocatable elsewhere (perform env i).
Proof.
  intros Hi r p k. unfold perform, mbind, proc_bind. rewrite (relocatable_exec env i Hi). destruct (exec env i r) as [[[]| |] r']; done.
Qed.

Lemma step_throw r i x r' : at_instr r i → exec env i r = (Throw x, r') → step env r = (Throw x, r').
Proof. intros Hi He. rewrite (step_at env r i Hi). unfold mbind, proc_bind. by rewrite He. Qed.

Lemma straight_perform i : self_contained i = true → straight [Plain i] (perform env i).
Proof.
  intros Hi. split; [split; [by apply relocatable_perform|]|].
  - intros r Hsz Hc%at_one. cbn [length]. unfold perform, mbind, proc_bind. destruct (exec env i r) as [o r'] eqn:He.
    destruct o as [f|x|w]; [destruct f| |done]; cbn.
    + pose proof (steps_next env r i r' Hc He) as Hs.
      assert (r_ip r' = r_ip r) as Hip; [|by rewrite <- Hip].
      pose proof (relocatable_exec env i Hi r (r_program r) (r_ip r)) as H. replace (with_code (r_program r) (r_ip r) r) with r in H by (by destruct r).
      rewrite He in H. cbn in H. injection H as ->. done.
    + by eapply steps_jump.
    + exists r, (r_ip r'). split; [apply rtc_refl|]. rewrite (step_at env r i Hc). unfold mbind, proc_bind. rewrite He. by destruct r'.
    + exists r, r'. split; [apply rtc_refl|]. by apply (step_throw r i).
  - intros r c r'. unfold perform, mbind, proc_bind. destruct (exec env i r) as [[[]| |] r1]; by intros [= <- _].
Qed.

Lemma straight_nil : straight [] (mret Continue).
Proof.
  split; [split; [done|]|by intros r c r' [= <- _]]. intros r _ _. cbn. rewrite Z.add_0_r. replace (set_ip (r_ip r) r) with r by (by destruct r).
  apply rtc_refl.
Qed.

Lemma straight_performs l : forallb self_contained l = true → straight (plain_code l) (performs env l).
Proof.
  induction l as [|i l IH]; [intros _; apply straight_nil|]. intros [Hi Hl]%andb_true_iff.
  apply (straight_app [Plain i]); [by apply straight_perform|by apply IH].
Qed.

Lemma place_code ip code : place index ip (plain_code code) = code.
Proof. apply place_plain. Qed.

Lemma straight_expression prefix e code : expression_items prefix e = Good code → straight code (expression env e).
Proof.
  unfold expression_items. destruct (emit_expr e) as [c|x|] eqn:He; [|done..]. intros [= <-]. split; [split|].
  - intros r p k. unfold expression. cbn [r_stack r_outside with_code].
    replace (eval env (with_code p k r) e (r_outside r)) with (eval env r e (r_outside r)) by done.
    destruct (_ <? _); [done|]. by destruct (eval env r e (r_outside r)) as [[]].
  - intros r Hsz Hc. rewrite place_code in Hc. unfold expression, code_length. rewrite He, length_map. destruct (Z.ltb_spec INT_MAX (Z.of_nat (length (r_stack r) + length c))) as [|Hle]; [done|].
    pose proof (expr_ok env r e false c (r_stack r) He (r_ip r) (r_outside r) Hc ltac:(lia)) as H.
    replace (rt r (r_ip r) (mkFnState (r_stack r) (r_outside r))) with r in H by (by destruct r).
    destruct (eval env r e (r_outside r)) as [[v|x|w] g]; [exact (proj1 H)| |done].
    destruct H as (ip & f & f' & Hs & Hx & _). by eexists _, _.
  - intros r x r'. unfold expression. destruct (_ <? _); [done|]. by destruct (eval env r e (r_outside r)) as [[]]; intros [= <- _].
Qed.

(** *** Jumps *)

Lemma wrap_address a : Z.of_nat a <= INT_MAX → wrap64 (to_int32 (Z.of_nat a)) = Z.of_nat a.
Proof.
  intros Ha. rewrite to_int32_id by (apply in_int_spec; unfold INT_MIN; lia). unfold wrap64. apply Z.mod_small. unfold INT_MAX in Ha. lia.
Qed.

Lemma exec_jump_at r a : Z.of_nat a <= INT_MAX → exec env (jump_back Jump (Some a)) r = (Ok Jumped, set_ip (Z.of_nat a) r).
Proof.
  intros Ha. transitivity (Ok Jumped, set_ip (wrap64 (to_int32 (Z.of_nat a))) r); [done|]. by rewrite wrap_address.
Qed.

Lemma jump_line o n : jump_back o (index n) = instr o (VInt (to_int32 (target index n))).
Proof. unfold jump_back, target. by destruct (index n). Qed.

Lemma wrap_target n : wrap64 (to_int32 (target index n)) = target index n.
Proof. unfold target. destruct (index n) eqn:E; [|done]. apply wrap_address. by eapply Hindex. Qed.

Lemma simulates_goto n : simulates [ToLine Jump n] (mret (Goto n)).
Proof.
  split; [done|]. intros r _ Hc%at_one. cbn in Hc |- *. rewrite jump_line in Hc. rewrite <- wrap_target. by eapply steps_jump.
Qed.

Lemma simulates_gosub n : simulates [ToLine Call n] (mret (Gosub n)).
Proof.
  split; [done|]. intros r _ Hc%at_one. cbn in Hc |- *. rewrite jump_line in Hc. exists (r_ip r + 1). split; [|intros; apply rtc_refl].
  rewrite <- wrap_target. by eapply steps_jump.
Qed.

Lemma simulates_halt i : op i = Halt → simulates [Plain i] (mret Halted).
Proof.
  intros Hi. split; [done|]. intros r _ Hc%at_one. cbn. exists r, (psize r). split; [apply rtc_refl|]. rewrite (step_at env r i Hc).
  unfold exec. by rewrite Hi.
Qed.

(** *** Branches *)

Lemma relocatable_branch th el : relocatable elsewhere th → relocatable elsewhere el → relocatable elsewhere (branch th el).
Proof.
  intros Ht He. unfold branch. apply relocatable_bind; [unfold pop_int; relocate|]. intros v. by destruct (v =? 0).
Qed.

Lemma branch_lands r d th el e : relocatable elsewhere th → relocatable elsewhere el →
  at_instr r (jump_back JumpIfZero (Some (Z.to_nat (r_ip r) + d)%nat)) → r_ip r + Z.of_nat d <= INT_MAX →
  (∀ r1, r_program r1 = r_program r → r_ip r1 = r_ip r + 1 → lands r1 e (th r1)) →
  (∀ r1, r_program r1 = r_program r → r_ip r1 = r_ip r + Z.of_nat d → lands r1 e (el r1)) → lands r e (branch th el r).
Proof.
  intros Hrt Hre Hi Hd Hth Hel. assert (0 <= r_ip r) as H0 by apply Hi. unfold branch, mbind, proc_bind.
  destruct (pop_int (opCodeName JumpIfZero) r) as [o r1] eqn:Hpop.
  assert (relocatable stays (pop_int (opCodeName JumpIfZero))) as Hrel by (unfold pop_int; relocate).
  pose proof (relocatable_program _ _ _ _ _ Hrel Hpop) as Hp.
  assert (exec env (jump_back JumpIfZero (Some (Z.to_nat (r_ip r) + d)%nat)) r =
    match o with
    | Ok v => if v =? 0 then (Ok Jumped, set_ip (r_ip r + Z.of_nat d) r1) else (Ok Next, r1)
    | Throw x => (Throw x, r1)
    | Undefined w => (Undefined w, r1)
    end) as He.
  { unfold exec, jump_back, address. cbn [op instr]. unfold exec_jump. cbn [op].
    assert (wrap64 (to_int32 (Z.of_nat (Z.to_nat (r_ip r) + d))) = r_ip r + Z.of_nat d) as Hw by (rewrite wrap_address; lia).
    change (int_operand (instr JumpIfZero (VInt (to_int32 (Z.of_nat (Z.to_nat (r_ip r) + d)))))) with
      (mret (to_int32 (Z.of_nat (Z.to_nat (r_ip r) + d))) : proc Runtime Z).
    unfold mbind, proc_bind. cbn [mret proc_ret op instr]. rewrite Hpop. destruct o as [v|x|w]; [|done..].
    destruct (v =? 0); [|done]. unfold jump_to, modify, mbind, proc_bind. by rewrite Hw. }
  destruct o as [v|x|w]; [|by exists r, r1; split; [apply rtc_refl|by eapply step_throw]|done].
  assert (r_ip r1 = r_ip r) as Hip.
  { pose proof (Hrel r (r_program r) (r_ip r)) as H. replace (with_code (r_program r) (r_ip r) r) with r in H by (by destruct r).
    rewrite Hpop in H. cbn in H. by injection H as ->. }
  destruct (v =? 0).
  - pose proof (steps_jump env r _ _ Hi He) as Hs. eapply lands_after; [exact Hs|done|]. apply lands_relocated; [done|]. by apply Hel.
  - pose proof (steps_next env r _ _ Hi He) as Hs. rewrite Hip in Hs. eapply lands_after; [exact Hs|done|]. apply lands_relocated; [done|]. by apply Hth.
Qed.

Lemma code_at_size prog ip code : code_at prog ip code → code ≠ [] → ip + Z.of_nat (length code) <= Z.of_nat (length prog).
Proof.
  intros [H0 H] Hne. destruct (last code) as [i|] eqn:E; [|by apply last_None in E].
  rewrite last_lookup in E. apply H, lookup_lt_Some in E. destruct code; [done|]. cbn in *. lia.
Qed.

(** A jump inside a statement, at the end of a piece of its code. *)
Lemma steps_skip r1 ip d : psize r1 <= INT_MAX → code_at (r_program r1) ip (place index (Z.to_nat ip) [Skip Jump d]) →
  ip + Z.of_nat d <= psize r1 → steps env (set_ip ip r1) (set_ip (ip + Z.of_nat d) r1).
Proof.
  intros Hsz Hc Hd. assert (0 <= ip) as H0 by apply Hc. pose proof (at_one (set_ip ip r1) _ Hc) as Hi.
  eapply steps_jump; [exact Hi|]. cbn [place_item]. rewrite exec_jump_at by lia. by replace (Z.of_nat (Z.to_nat ip + d)) with (ip + Z.of_nat d) by lia.
Qed.

Lemma simulates_at r ip m code : simulates code m → psize r <= INT_MAX → code_at (r_program r) ip (place index (Z.to_nat ip) code) →
  ∀ r1, r_program r1 = r_program r → r_ip r1 = ip → lands r1 (ip + Z.of_nat (length code)) (m r1).
Proof. intros [_ H] Hsz Hc r1 Hp <-. apply H; [unfold psize; by rewrite Hp|by rewrite Hp]. Qed.

Lemma simulates_if t mt : simulates t mt → simulates (Skip JumpIfZero (S (length t)) :: t) (branch mt (mret Continue)).
Proof.
  intros Ht. split; [apply relocatable_branch; [apply Ht|done]|]. intros r Hsz Hc. assert (0 <= r_ip r) as H0 by apply Hc.
  pose proof (code_at_size _ _ _ Hc ltac:(done)) as Hlen. rewrite length_place in Hlen. cbn [length] in *. unfold psize in Hsz.
  apply (place_at _ _ [_]) in Hc as [Hj Hct]; [|done]. cbn [length] in Hct.
  apply (branch_lands r (S (length t))); [apply Ht|done|by apply at_one in Hj|lia| |].
  - intros r1 Hp Hip. replace (r_ip r + Z.of_nat (S (length t))) with (r_ip r + 1 + Z.of_nat (length t)) by lia.
    by apply (simulates_at r _ mt t).
  - intros r1 Hp Hip. cbn. rewrite <- Hip. replace (set_ip (r_ip r1) r1) with r1 by (by destruct r1). apply rtc_refl.
Qed.

Lemma simulates_if_else t e mt me : simulates t mt → simulates e me →
  simulates (Skip JumpIfZero (S (length t) + 1) :: t ++ [Skip Jump (S (length e))] ++ e) (branch mt me).
Proof.
  intros Ht He. split; [apply relocatable_branch; [apply Ht|apply He]|]. intros r Hsz Hc. assert (0 <= r_ip r) as H0 by apply Hc.
  pose proof (code_at_size _ _ _ Hc ltac:(done)) as Hlen. rewrite length_place in Hlen. cbn [length] in *.
  rewrite !length_app in *. cbn [length] in *. unfold psize in Hsz.
  apply (place_at _ _ [_]) in Hc as [Hj Hc]; [|done]. cbn [length] in Hc. apply place_at in Hc as [Hct Hc]; [|lia].
  apply place_at in Hc as [Hcj Hce]; [|lia]. cbn [length] in *.
  set (stop := r_ip r + Z.of_nat (S (length t + (1 + length e)))).
  apply (branch_lands r (S (length t) + 1)); [apply Ht|apply He|by apply at_one in Hj|lia| |].
  - intros r1 Hp Hip. pose proof (simulates_at r _ mt t Ht Hsz Hct r1 Hp Hip) as H. eapply lands_before; [apply Ht| |exact H].
    intros r2 Hp2. rewrite Hp in Hp2. replace stop with (r_ip r + Z.of_nat 1 + Z.of_nat (length t) + Z.of_nat (S (length e))) by (unfold stop; lia).
    apply steps_skip; unfold psize; rewrite Hp2; [done|done|lia].
  - intros r1 Hp Hip. replace stop with (r_ip r + Z.of_nat 1 + Z.of_nat (length t) + Z.of_nat 1 + Z.of_nat (length e)) by (unfold stop; lia).
    apply (simulates_at r _ me e He Hsz Hce); [done|lia].
Qed.

Lemma simulates_if_goto n e me : simulates e me →
  simulates (Skip JumpIfZero (S 1) :: [ToLine Jump n] ++ e) (branch (mret (Goto n)) me).
Proof.
  intros He. split; [apply relocatable_branch; [done|apply He]|]. intros r Hsz Hc. assert (0 <= r_ip r) as H0 by apply Hc.
  pose proof (code_at_size _ _ _ Hc ltac:(done)) as Hlen. rewrite length_place in Hlen. cbn [length app] in *. unfold psize in Hsz.
  apply (place_at _ _ [_]) in Hc as [Hj Hc]; [|done]. cbn [length] in Hc. apply (place_at _ _ [_]) in Hc as [Hct Hce]; [|lia]. cbn [length] in *.
  apply (branch_lands r 2); [done|apply He|by apply at_one in Hj|lia| |].
  - intros r1 Hp Hip. pose proof (simulates_at r _ _ _ (simulates_goto n) Hsz Hct r1 Hp Hip) as H. exact H.
  - intros r1 Hp Hip. replace (r_ip r + Z.of_nat (S (S (length e)))) with (r_ip r + Z.of_nat 1 + Z.of_nat 1 + Z.of_nat (length e)) by lia.
    apply (simulates_at r _ me e He Hsz Hce); [done|lia].
Qed.

(** *** Statements *)

Definition simulated (c : checked (list item)) (m : proc Runtime control) : Prop := ∀ code, c = Good code → simulates code m.
Definition straightly (c : checked (list item)) (m : proc Runtime control) : Prop := ∀ code, c = Good code → straight code m.

Lemma follow_inv a b code : a ▷ b = Good code → ∃ x y, a = Good x ∧ b = Good y ∧ code = x ++ y.
Proof. destruct a as [x| |], b as [y| |]; try done. intros [= <-]. by exists x, y. Qed.

Lemma simulated_follow c1 c2 m1 m2 : straightly c1 m1 → simulated c2 m2 → simulated (c1 ▷ c2) (m1 ▸ m2).
Proof. intros H1 H2 code (x & y & Hx & Hy & ->)%follow_inv. apply simulates_app; auto. Qed.

Lemma straightly_follow c1 c2 m1 m2 : straightly c1 m1 → straightly c2 m2 → straightly (c1 ▷ c2) (m1 ▸ m2).
Proof. intros H1 H2 code (x & y & Hx & Hy & ->)%follow_inv. apply straight_app; auto. Qed.

Lemma straightly_simulated c m : straightly c m → simulated c m.
Proof. intros H code Hc. apply (H code Hc). Qed.

Lemma straightly_ret l : forallb self_contained l = true → straightly (ret_items l) (performs env l).
Proof. intros Hl code [= <-]. by apply straight_performs. Qed.

Lemma straightly_expression p e : straightly (expression_items p e) (expression env e).
Proof. intros code Hc. by eapply straight_expression. Qed.

Lemma straightly_value_index kw vi : straightly (value_index_items kw vi) (value_index env vi).
Proof. destruct vi; [apply straightly_expression|by apply straightly_ret]. Qed.

Lemma simulated_good code m : simulates code m → simulated (Good code) m.
Proof. by intros H code' [= <-]. Qed.

Lemma simulated_bad e m : simulated (Bad e) m.
Proof. by intros code. Qed.

Lemma halt_simulated : simulated (ret_items [makeNoOperandInstruction Halt]) (mret Halted).
Proof. by apply simulated_good, simulates_halt. Qed.

(** The branches of a statement. *)
Definition branches (c : option (checked (list item))) (m : option (proc Runtime control)) : Prop :=
  match c, m with
  | Some c, Some m => simulated c m
  | None, None => True
  | _, _ => False
  end.

Definition arm_simulated (a : Arm) : Prop := simulated (arm_items a) (run_arm env a).

Lemma branches_arm el : on_arm arm_simulated el → branches (option_map arm_items el) (option_map (run_arm env) el).
Proof. by destruct el. Qed.

Lemma simulated_access o try_o f succ fail c m : self_contained (named_instr o f) = true → self_contained (named_instr try_o f) = true →
  forallb self_contained succ = true → forallb self_contained fail = true → branches c m →
  simulated (access_items o try_o f succ fail c) (access env o try_o f succ fail m).
Proof.
  intros Ho Ht Hs Hf Hel. unfold access_items, access. destruct c as [c|], m as [m|]; try done.
  - intros code Hc. destruct c as [e| |]; try done. injection Hc as <-. specialize (Hel e eq_refl).
    pose proof (straight_performs succ Hs) as [Hsucc _].
    pose proof (simulates_app _ _ _ _ (straight_performs fail Hf) Hel) as Hfail.
    pose proof (simulates_if_else _ _ _ _ Hsucc Hfail) as Hif. rewrite length_app, !length_map in Hif.
    replace (S (length succ) + 1)%nat with (length succ + 2)%nat in Hif by lia.
    exact (simulates_app [_] _ _ _ (straight_perform _ Ht) Hif).
  - apply straightly_simulated, straightly_ret. cbn. by rewrite Ho.
Qed.

Lemma simulated_if th el : arm_simulated th → on_arm arm_simulated el →
  simulated (if_items (negb (is_line_arm th)) (arm_items th) (option_map arm_items el))
    (branch (run_arm env th) (match el with Some a => run_arm env a | None => mret Continue end)).
Proof.
  intros Hth Hel code. unfold if_items. destruct (arm_items th) as [t| |] eqn:Et; try done. specialize (Hth t Et).
  destruct el as [a|]; cbn [option_map mbind checked_bind]; [|intros [= <-]; by apply simulates_if].
  destruct (arm_items a) as [e| |] eqn:Ee; try done. specialize (Hel e Ee). intros [= <-].
  destruct th as [n|s]; cbn [is_line_arm negb].
  - injection Et as <-. by apply (simulates_if_goto n e).
  - by apply simulates_if_else.
Qed.
#[local] Hint Resolve simulated_follow straightly_follow straightly_simulated straightly_ret straightly_expression straightly_value_index
  simulated_good simulated_bad branches_arm simulated_access simulated_if simulates_goto simulates_gosub halt_simulated : gemini.

Lemma coercion_contained v l : forallb self_contained l = true → forallb self_contained (coercion v ++ l) = true.
Proof. intros H. unfold coercion. by destruct (isIntVar v). Qed.

Lemma input_contained v : forallb self_contained (makeNoOperandInstruction InputStr :: coercion v ++ [named_instr StoreVar v]) = true.
Proof. by apply (coercion_contained v [_]). Qed.

Lemma resolve_contained (b : bool) f : forallb self_contained (if b then [named_instr ResolveDictAttr f] else []) = true.
Proof. by destruct b. Qed.

Lemma eol_contained (b : bool) : forallb self_contained (makeNoOperandInstruction PrintVal :: if b then [] else [makeNoOperandInstruction PrintEol]) = true.
Proof. by destruct b. Qed.
#[local] Hint Resolve coercion_contained input_contained resolve_contained eol_contained : gemini.
#[local] Hint Extern 1 (forallb self_contained _ = true) => reflexivity : gemini.

Lemma inline_simulated s : simulated (inline_items s) (run_inline env s).
Proof.
  revert s. apply (stmt_induction _ arm_simulated); [intros n; apply simulated_good, simulates_goto|done|].
  intros s H. destruct s; cbn [run_inline inline_items]; try destruct H; unfold fetch, fetch_items, writev, writev_items; auto 12 with gemini.
  destruct promptExpr; auto 12 with gemini.
Qed.

Lemma arms_simulated el : branches (option_map arm_items el) (option_map (run_arm env) el).
Proof. apply branches_arm. destruct el as [[n|s]|]; [apply simulated_good, simulates_goto|apply inline_simulated|done]. Qed.
#[local] Hint Resolve arms_simulated inline_simulated : gemini.

(** *** FOR, whose loop starts at the end of its code *)

Definition simulated_to (e : Z) (c : checked (list item)) (m : proc Runtime control) : Prop := ∀ code, c = Good code → simulates_to e code m.

Lemma simulated_to_end e c m : simulated c m → simulated_to e c m.
Proof. intros H code Hc. by apply simulates_all, H. Qed.

Lemma simulated_to_follow e c1 c2 m1 m2 : straightly c1 m1 → simulated_to e c2 m2 → simulated_to e (c1 ▷ c2) (m1 ▸ m2).
Proof. intros H1 H2 code (x & y & Hx & Hy & ->)%follow_inv. apply simulates_app_to; auto. Qed.

Lemma simulated_for e v : simulated_to e (ret_items [named_instr ForSetup v]) (for_setup e v).
Proof.
  intros code [= <-]. split.
  { unfold for_setup. relocate. }
  intros r Hend _ Hc%at_one. cbn [length] in Hend.
  assert (exec env (named_instr ForSetup v) r = (match (for_setup e v r).1 with Ok _ => Ok Next | Throw x => Throw x | Undefined w => Undefined w end,
    (for_setup e v r).2) ∧ r_ip (for_setup e v r).2 = r_ip r ∧ ∀ c, (for_setup e v r).1 = Ok c → c = Continue) as (He & Hip & Hcont).
  { unfold exec. cbn [op named_instr instr]. unfold exec_for_setup, for_setup, next, pop_coerced.
    change (name_operand _) with (mret (canonicalVariableName (uppercase v)) : proc Runtime string).
    unfold mbind, proc_bind, pop, lift. cbn [mret proc_ret]. unfold proc_ret.
    destruct (r_stack r) as [|a [|b s]]; [done| |]; cbn [r_stack set_stack]; destruct (coerceToInt a) as [x| |]; try done; cbn [r_stack set_stack].
    destruct (coerceToInt b) as [y| |]; try done. destruct (x =? 0); [done|]. unfold modify. cbn. rewrite <- Hend. split_and!; [done..|by intros c [= <-]]. }
  destruct (for_setup e v r) as [o r'] eqn:Ef. cbn [fst snd] in *. destruct o as [c|x|w]; [|by exists r, r'; split; [apply rtc_refl|by eapply step_throw]|done].
  rewrite (Hcont c eq_refl). cbn. pose proof (steps_next env r _ _ Hc He) as Hs. rewrite Hip in Hs. by rewrite <- Hend.
Qed.
#[local] Hint Resolve simulated_to_end simulated_to_follow simulated_for : gemini.

Lemma set_handler_contained b n : forallb self_contained [if b : bool then instr SetOnErrorHandler (VInt 0) else jump_back SetOnErrorHandler (index n)] = true.
Proof. destruct b; [done|]. unfold jump_back. by destruct (index n). Qed.

Lemma simulated_on_error n : simulated (Good [ToLine SetOnErrorHandler n]) (performs env [jump_back SetOnErrorHandler (index n)]).
Proof.
  intros code [= <-]. pose proof (straight_performs _ (set_handler_contained false n)) as [[Hr H] _]. by split.
Qed.

#[local] Hint Resolve simulated_on_error set_handler_contained : gemini.

Lemma coercion_only v : forallb self_contained (coercion v) = true.
Proof. unfold coercion. by destruct (isIntVar v). Qed.
#[local] Hint Resolve coercion_only : gemini.

Lemma line_simulated e s : simulated_to e (line_items s) (run_line env index e s).
Proof.
  destruct s; cbn [run_line line_items]; auto with gemini; unfold writev, writev_items; try solve [auto 12 with gemini].
  all: repeat case_match; auto 12 with gemini.
Qed.
End simulation.

(** ** The lines of a compiled program *)

(** The parts of the program: what is before the [k]-th line, the line, the rest. *)
Lemma compiled_line_code lines ls items halt k l : compiled lines ls items halt → ls !! k = Some l →
  ∃ code, line_items (statement l) = Good code ∧ line_start ls (S k) = (line_start ls k + length code)%nat ∧
    code_at (c_program (compile lines)) (Z.of_nat (line_start ls k)) (place (line_index ls) (line_start ls k) code).
Proof.
  intros [Hls Hitems Hknown Hprog Hsrc Hhalt] Hk. pose proof (program_items_lines ls items Hitems) as HF.
  destruct (Forall2_lookup_l _ _ _ _ _ HF Hk) as ([n code] & Hj & Hn & Hc). exists code. split; [done|].
  rewrite <- (items_start ls items k HF), <- (items_start ls items (S k) HF).
  assert (mjoin (take (S k) items).*2 = mjoin (take k items).*2 ++ code) as HS.
  { rewrite (take_S_r _ _ _ Hj), fmap_app, join_app. cbn. by rewrite app_nil_r. }
  rewrite HS, length_app. split; [done|]. split; [lia|]. intros i x Hx. rewrite Hprog.
  assert (mjoin items.*2 = mjoin (take k items).*2 ++ code ++ mjoin (drop (S k) items).*2) as ->.
  { rewrite <- (take_drop (S k) items) at 1. by rewrite fmap_app, join_app, HS, <- app_assoc. }
  rewrite Nat2Z.id. pose proof (lookup_lt_Some _ _ _ Hx) as Hlt. rewrite !place_app, <- !app_assoc, !Nat.add_0_l.
  rewrite lookup_app_r by (rewrite length_place; lia). rewrite length_place. rewrite lookup_app_l by lia.
  by replace (length (mjoin (take k items).*2) + i - length (mjoin (take k items).*2))%nat with i by lia.
Qed.

(** C4. The BASIC compiler is correct, line by line: in a program it accepts,
    every line number leads to the start of a line of that number, and the
    machine, started at any line in any state, does what the interpreter says:
    it goes on to the start of the next line or of the line named, calls a
    subroutine with a return address from which it comes to the next line,
    continues where a RETURN, a NEXT or an ON ERROR handler sends it, or stops,
    with the same variables, arrays, files, output and stack; and it fails with
    the same error. *)
Theorem line_code_correct env lines (r : Runtime) : FramedEnv env →
  let ls := plines (parse_program lines) in
  let start k := Z.of_nat (line_start ls k) in
  c_success (compile lines) = true → r_program r = c_program (compile lines) → psize r <= INT_MAX →
  (∀ n, n ∈ lineNumber <$> ls → ∃ j l, ls !! j = Some l ∧ lineNumber l = n ∧ target (line_index ls) n = start j) ∧
  ∀ k l, ls !! k = Some l → r_ip r = start k →
    lands env (line_index ls) r (start (S k)) (run_line env (line_index ls) (start (S k)) (statement l) r).
Proof.
  intros Hfr ls start (items & halt & Hc)%compile_accepted Hp Hsz. fold ls in Hc. unfold psize in Hsz. rewrite Hp in Hsz. split.
  - intros n Hn. destruct (compiled_line_index _ _ _ _ n Hc Hn) as (j & l & Hj & Hl & Hi). exists j, l. unfold target. by rewrite Hi.
  - intros k l Hk Hip. destruct (compiled_line_code _ _ _ _ k l Hc Hk) as (code & Hcode & HS & Hat).
    assert (∀ n a, line_index ls n = Some a → Z.of_nat a <= INT_MAX) as Hidx.
    { intros n a Ha. destruct (line_index_start ls items n a (compiled_items _ _ _ _ Hc) Ha) as [j ->]. pose proof (compiled_size _ _ _ _ j Hc). lia. }
    apply (line_simulated env (line_index ls) Hidx (start (S k)) (statement l) code Hcode).
    + rewrite Hip. unfold start. rewrite HS. lia.
    + unfold psize. by rewrite Hp.
    + rewrite Hip, Hp. unfold start. by rewrite Nat2Z.id.
Qed.

(** [GOSUB] in a branch: the return address is that of the jump over the ELSE. *)
Definition ex_basic : list (Z * string) :=
  [(10, "IF N% > 1 THEN GOSUB 30 ELSE PRINT N%"); (20, "STOP"); (30, "LET N% = N% * 2"); (40, "RETURN")].

Definition ex_basic_start : Runtime := set_vars {["N%" := VInt 3]} (loadProgram (c_program (compile ex_basic)) [] machine0).

Definition ex_basic_if : Stmt :=
  IfStmt (BinaryExpr OpGreaterThan (IdentifierExpr "N%") (IntLiteralExpr 1))
    (ArmInline (GosubStmt 30)) (Some (ArmInline (PrintStmt (IdentifierExpr "N%") false))).

Lemma line_code_correct_witness : ∃ back, steps ex_env ex_basic_start (set_ip 10 (set_calls [back] ex_basic_start)).
Proof.
  destruct (line_code_correct ex_env ex_basic ex_basic_start (basic_env_framed _ _ _)) as [_ H]; [vm_compute; reflexivity|done|vm_compute; discriminate|].
  specialize (H 0%nat (mkLine 10 ex_basic_if) ltac:(vm_compute; reflexivity) ltac:(vm_compute; reflexivity)).
  assert (∀ idx e, run_line ex_env idx e ex_basic_if ex_basic_start = (Ok (Gosub 30), ex_basic_start)) as Hrun by (intros; vm_compute; reflexivity).
  cbn [statement] in H. rewrite Hrun in H. destruct H as (back & H & _). exists back.
  assert (target (line_index (plines (parse_program ex_basic))) 30 = 10) as Ht by (vm_compute; reflexivity).
  rewrite Ht in H. exact H.
Defined.
