(* ===== verification/BasicProg.v ===== *)
(** * The BASIC program buffer and its editor

    [BasicProgram.cpp], the numbered lines of the program being edited, and
    [BasicShell.cpp], the commands of BASIC mode. The lines are a [std::map], an
    association list in increasing order ([Records]). What the host gives the
    editor (where programs are stored, reading and writing a record, running a
    program, the line editor) is the record [Host] of functions that may be
    missing; [W] is the state they work on. *)

From Stdlib Require Import Ascii String.
From S2P Require Import Prelude CLib Words Dbl Records Conv Bytecode Correl Values Registry BasicExpr BasicStmt BasicEmit.
From stdpp Require Import options.
Local Open Scope Z_scope.

(** ** The program *)

(* src/userland/basic/BasicProgram.h:42-44 [BasicProgram] *)
Record BasicProgram := mkProgram { pname : option string; plist : list (Z * string) }.

(* src/userland/basic/BasicProgram.cpp:130-132 [BasicProgram::setName] *)
Definition setName (name : option string) (p : BasicProgram) : BasicProgram := mkProgram name (plist p).

Definition set_lines (l : list (Z * string)) (p : BasicProgram) : BasicProgram := mkProgram (pname p) l.

(* src/userland/basic/BasicProgram.cpp:134-136 [BasicProgram::clearLines] *)
Definition clearLines (p : BasicProgram) : BasicProgram := set_lines [] p.

(* src/userland/basic/BasicProgram.cpp:138-140 [BasicProgram::setLine] *)
Definition setLine (n : Z) (text : string) (p : BasicProgram) : BasicProgram := set_lines (map_set n text (plist p)) p.

(* src/userland/basic/BasicProgram.cpp:142-144 [BasicProgram::hasLine] *)
Definition hasLine (n : Z) (p : BasicProgram) : bool := match map_find n (plist p) with Some _ => true | None => false end.

(* src/userland/basic/BasicProgram.cpp:146-152 [BasicProgram::lineText] *)
Definition lineText (n : Z) (p : BasicProgram) : option string := map_find n (plist p).

(* src/userland/basic/BasicProgram.cpp:154-156 [BasicProgram::deleteLine] *)
Definition deleteLine (n : Z) (p : BasicProgram) : BasicProgram := set_lines (filter (λ l, l.1 ≠ n) (plist p)) p.

(** The lines from [lower_bound(startLine)] up to [upper_bound(endLine)]. *)
(* src/userland/basic/BasicProgram.cpp:158-167 [BasicProgram::deleteRange] *)
Definition deleteRange (startLine endLine : Z) (p : BasicProgram) : BasicProgram :=
  if endLine <? startLine then p
  else set_lines (filter (λ l, ¬ (startLine <= l.1 <= endLine)) (plist p)) p.

(** One line of a listing; the saved source has the same lines. *)
(* src/userland/basic/BasicProgram.cpp:186-194 [BasicProgram::list] *)
Definition list_line (l : Z * string) : string :=
  to_string l.1 +:+ (if str_empty l.2 then "" else " " +:+ l.2) +:+ String NL "".

Definition list_text (p : BasicProgram) : string := foldr (λ l s, list_line l +:+ s) "" (plist p).

(** ** Renumbering *)

(* src/userland/basic/BasicProgram.cpp:36-45 [joinTokens] *)
Definition joinTokens (tokens : list string) : string := str_join " " tokens.

(** A positive [int] written with digits only. *)
(* src/userland/basic/BasicProgram.cpp:19-34 [parsePositiveLineNumber] *)
Definition line_number_token (token : string) : option Z :=
  if str_empty token || negb (str_forall isdigit token) then None
  else match stoi token with
       | Ok (n, _) => if 0 <? n then Some n else None
       | _ => None
       end.

(** The first and the last word after the first one that is [key]. *)
Definition is_word (key : string) (t : string) : Prop := uppercase t = key.
#[global] Instance is_word_dec key t : Decision (is_word key t) := decide (uppercase t = key).

Definition first_word (key : string) (tokens : list string) : option nat :=
  match list_find (is_word key) (tail tokens) with Some (i, _) => Some (S i) | None => None end.

Definition last_word (key : string) (tokens : list string) : option nat :=
  match list_find (is_word key) (reverse (tail tokens)) with
  | Some (i, _) => Some (length tokens - 1 - i)%nat
  | None => None
  end.

Section rewrite.
Context (lineMap : Z → option Z).

(** The word at [i], a line number of the program, replaced by its new number. *)
Definition retarget (i : nat) (target : Z) (tokens : list string) : list string :=
  match lineMap target with Some n => <[i := to_string n]> tokens | None => tokens end.

(* src/userland/basic/BasicProgram.cpp:74-124 [rewriteRenumberTargets] *)
Definition rewrite_if (text : string) (tokens : list string) : string :=
  match first_word "THEN" tokens with
  | None => text
  | Some thenPos =>
      if (length tokens <=? thenPos + 1)%nat then text
      else
        let thenTarget := line_number_token (default "" (tokens !! (thenPos + 1)%nat)) in
        match last_word "ELSE" tokens with
        | None =>
            if negb (thenPos + 2 =? length tokens)%nat then text
            else match thenTarget with
                 | None => text
                 | Some n =>
                     match lineMap n with
                     | Some _ => joinTokens (retarget (thenPos + 1) n tokens)
                     | None => text
                     end
                 end
        | Some elsePos =>
            if negb (elsePos =? thenPos + 2)%nat || negb (elsePos + 1 =? length tokens - 1)%nat then text
            else match thenTarget, line_number_token (default "" (tokens !! (elsePos + 1)%nat)) with
                 | Some n, Some m => joinTokens (retarget (elsePos + 1) m (retarget (thenPos + 1) n tokens))
                 | _, _ => text
                 end
        end
  end.

(* src/userland/basic/BasicProgram.cpp:47-127 [rewriteRenumberTargets] *)
Definition rewriteRenumberTargets (text : string) : string :=
  match all_words text with
  | [] => text
  | o :: rest =>
      let op := uppercase o in
      if String.eqb op "GOTO" && (length rest =? 1)%nat then
        match line_number_token (default "" (head rest)) with
        | None => text
        | Some n => match lineMap n with Some m => joinTokens [o; to_string m] | None => text end
        end
      else if String.eqb op "IF" then rewrite_if text (o :: rest)
      else text
  end.
End rewrite.

(** [lineMap]: the new number of each line; [mapped += increment] overflows
    after the last line too. *)
(* src/userland/basic/BasicProgram.cpp:169-175 [BasicProgram::renumber] *)
Fixpoint number_lines (next increment : Z) (l : list (Z * string)) : outcome (list (Z * Z)) :=
  match l with
  | [] => Ok []
  | (old, _) :: l' => next' ← int_of (next + increment); m ← number_lines next' increment l'; Ok ((old, next) :: m)
  end.

(* src/userland/basic/BasicProgram.cpp:177-184 [BasicProgram::renumber] *)
Definition renumber (first increment : Z) (p : BasicProgram) : outcome BasicProgram :=
  lineMap ← number_lines first increment (plist p);
  let renumbered := foldl (λ m '((_, n), (_, text)), map_set n (rewriteRenumberTargets (λ k, map_find k lineMap) text) m)
                          [] (zip lineMap (plist p)) in
  Ok (set_lines renumbered p).

(** ** The editor *)

Section editor.
Context {W : Type}.

(* src/userland/basic/BasicShell.h:30-33 [ProgramLocation] *)
Record ProgramLocation := mkLocation { fileName : string; recordKey : string }.

(** The functions the host sets; they may throw.  [objectRecord] is the flag of the record
    functions, [None] from [writeRecordFn] means that it succeeded.  A program and the line
    editor write; what they have written is there when they throw, too. *)
(* src/userland/basic/BasicShell.h:26-38 [BasicShell] *)
Record Host := mkHost {
  executeProgramFn : option (list Instruction → list Z → BasicProgram → W → outcome unit * (W * string));
  resolveProgramLocationFn : option (string → proc W ProgramLocation);
  readRecordFn : option (ProgramLocation → bool → proc W (option string));
  writeRecordFn : option (ProgramLocation → bool → string → proc W (option string));
  runLineRecordEditorFn : option (ProgramLocation → option Z → W → outcome unit * (W * string))
}.

(* src/userland/basic/BasicShell.h:61-74 [BasicShell] *)
Record Editor := mkEditor { active : bool; eprogram : BasicProgram; world : W; screen : string }.

Context (host : Host).

Definition set_program_of (p : BasicProgram) (e : Editor) : Editor := mkEditor (active e) p (world e) (screen e).
Definition say (s : string) : proc Editor unit := modify (λ e, mkEditor (active e) (eprogram e) (world e) (screen e +:+ s)).
Definition edit_program (f : BasicProgram → BasicProgram) : proc Editor unit := modify (λ e, set_program_of (f (eprogram e)) e).
Definition on_host {A} (f : proc W A) : proc Editor A := λ e,
  let '(a, w) := f (world e) in (a, mkEditor (active e) (eprogram e) w (screen e)).
Definition on_console (f : W → outcome unit * (W * string)) : proc Editor unit := λ e,
  let '(a, (w, shown)) := f (world e) in (a, mkEditor (active e) (eprogram e) w (screen e +:+ shown)).

Definition line (s : string) : string := s +:+ String NL "".

(** [!program_.name() || program_.name()->empty()] *)
Definition program_name : proc Editor (option string) :=
  gets (λ e, match pname (eprogram e) with Some n => if str_empty n then None else Some n | None => None end).

(* src/userland/basic/BasicShell.cpp:74-83 [BasicShell::joinTokens] *)
Definition joinTokensFrom (startIndex : nat) (tokens : list string) : string := joinTokens (drop startIndex tokens).

(* src/userland/basic/BasicShell.cpp:85-101 [BasicShell::parseDeleteRange] *)
Definition parseDeleteRange (token : string) : option (Z * Z) :=
  match str_split_at "-" token with
  | None => match line_number_token token with Some n => Some (n, n) | None => None end
  | Some (a, b) =>
      match line_number_token a, line_number_token b with
      | Some s, Some e => if s <=? e then Some (s, e) else None
      | _, _ => None
      end
  end.

(* src/userland/basic/BasicShell.cpp:103-113 [BasicShell::physicalRowForBasicLine] *)
Definition physicalRowForBasicLine (n : Z) (p : BasicProgram) : option Z :=
  match list_find (λ l, l.1 = n) (plist p) with Some (i, _) => Some (Z.of_nat i + 1) | None => None end.

(* src/userland/basic/BasicShell.cpp:115-140 [BasicShell::flushProgramSourceToDisk] *)
Definition flushProgramSourceToDisk : proc Editor bool :=
  name ← program_name;
  match name with
  | None => say (line "No program name");; mret false
  | Some name =>
      match resolveProgramLocationFn host, writeRecordFn host with
      | Some resolve, Some write =>
          p ← gets eprogram;
          location ← on_host (resolve name);
          error ← on_host (write location false (list_text p));
          match error with
          | Some e => say (line ("Error: " +:+ e));; mret false
          | None => mret true
          end
      | _, _ => say (line "Error: BASIC storage not configured");; mret false
      end
  end.

(** A line of a saved program. *)
Definition load_line (p : BasicProgram) (text : string) : BasicProgram :=
  let tokens := all_words text in
  match line_number_token (default "" (head tokens)) with
  | Some n => setLine n (joinTokensFrom 1 tokens) p
  | None => p
  end.

(* src/userland/basic/BasicShell.cpp:341-370 [BasicShell::loadProgramIfPresent] *)
Definition loadProgramIfPresent : proc Editor unit :=
  name ← program_name;
  match name, resolveProgramLocationFn host, readRecordFn host with
  | Some name, Some resolve, Some read =>
      location ← on_host (resolve name);
      source ← on_host (read location false);
      match source with
      | Some text => edit_program (λ p, foldl load_line (clearLines p) (getlines NL text))
      | None => mret tt
      end
  | _, _, _ => mret tt
  end.

(* src/userland/basic/BasicShell.cpp:372-379 [BasicShell::saveProgram] *)
Definition saveProgram (name : string) : proc Editor unit :=
  match resolveProgramLocationFn host, writeRecordFn host with
  | Some _, Some _ => edit_program (setName (Some name));; flushProgramSourceToDisk;; mret tt
  | _, _ => say (line "Error: BASIC storage not configured")
  end.

(* src/userland/basic/BasicShell.cpp:34-39 [BasicShell::enter] *)
Definition enter (name : option string) : proc Editor unit :=
  modify (λ e, mkEditor true (clearLines (setName name (eprogram e))) (world e) (screen e));;
  loadProgramIfPresent.

(* src/userland/basic/BasicShell.cpp:398-402 [BasicShell::printCompileSuccess] *)
Definition printCompileSuccess (c : BasicCompileResult) : proc Editor unit :=
  say (line "Compiled successfully.");; say (line ("Instructions: " +:+ to_string (instructionCount c)));;
  say (line ("Labels: " +:+ to_string (labelCount c))).

(* src/userland/basic/BasicShell.cpp:404-409 [BasicShell::printCompileFailure] *)
Definition printCompileFailure (c : BasicCompileResult) : proc Editor unit :=
  say (foldr (λ '(n, m) s, line ("Error on line " +:+ to_string n +:+ ": " +:+ m) +:+ s) "" (c_errors c));;
  say (line "Compilation failed.").

(* src/userland/basic/BasicShell.cpp:381-396 [BasicShell::saveObjectCode] *)
Definition saveObjectCode (name : string) (c : BasicCompileResult) : proc Editor bool :=
  match resolveProgramLocationFn host, writeRecordFn host with
  | Some resolve, Some write =>
      location ← on_host (resolve name);
      text ← lift (serializeBytecodeText (c_program c) (c_source c));
      error ← on_host (write location true text);
      match error with
      | Some e => say (line ("Error: " +:+ e));; mret false
      | None => mret true
      end
  | _, _ => say (line "Error: BASIC storage not configured");; mret false
  end.

(** *** Commands *)

(* src/userland/basic/BasicShell.cpp:154-185 [BasicShell::registerBasicCommands] *)
Definition cmd_edit (tokens : list string) : proc Editor unit :=
  if (2 <? length tokens)%nat then say (line "EDIT takes no arguments or one line number")
  else
    name ← program_name;
    match name with
    | None => say (line "No program name")
    | Some name =>
        p ← gets eprogram;
        let open_at (row : option Z) :=
          match runLineRecordEditorFn host with
          | None => say (line "Error: line editor not configured")
          | Some editor =>
              ok ← flushProgramSourceToDisk;
              if negb ok then mret tt
              else match resolveProgramLocationFn host with
                   | None => throw (RuntimeError "bad_function_call")
                   | Some resolve =>
                       location ← on_host (resolve name);
                       on_console (editor location row);; loadProgramIfPresent
                   end
          end in
        match tokens with
        | [_; arg] =>
            match line_number_token arg with
            | None => say (line "EDIT requires a line number")
            | Some n =>
                if hasLine n p then open_at (physicalRowForBasicLine n p)
                else say (line ("No such line: " +:+ to_string n))
            end
        | _ => open_at None
        end
    end.

(* src/userland/basic/BasicShell.cpp:187-199 [BasicShell::registerBasicCommands] *)
Definition cmd_delete (tokens : list string) : proc Editor unit :=
  match tokens with
  | [_; range] =>
      match parseDeleteRange range with
      | Some (s, e) => edit_program (deleteRange s e)
      | None => say (line "DELETE requires a line number or range")
      end
  | _ => say (line "DELETE requires a line number or range")
  end.

(* src/userland/basic/BasicShell.cpp:200-206 [BasicShell::registerBasicCommands] *)
Definition cmd_renum (tokens : list string) : proc Editor unit :=
  if (1 <? length tokens)%nat then say (line "RENUM takes no arguments")
  else p ← gets eprogram; p' ← lift (renumber 10 10 p); edit_program (λ _, p').

(** LOAD and SAVE: the name given, or else that of the program. *)
Definition chosen_name (tokens : list string) : proc Editor (option string) :=
  match tokens with
  | [_; n] => mret (if str_empty n then None else Some n)
  | _ => program_name
  end.

(* src/userland/basic/BasicShell.cpp:215-233 [BasicShell::registerBasicCommands] *)
Definition cmd_load (tokens : list string) : proc Editor unit :=
  if (2 <? length tokens)%nat then say (line "LOAD takes at most one filename")
  else
    name ← chosen_name tokens;
    match name with
    | None => say (line "No program name specified")
    | Some n => edit_program (λ p, clearLines (setName (Some n) p));; loadProgramIfPresent
    end.

(* src/userland/basic/BasicShell.cpp:234-251 [BasicShell::registerBasicCommands] *)
Definition cmd_save (tokens : list string) : proc Editor unit :=
  if (2 <? length tokens)%nat then say (line "SAVE takes at most one filename")
  else
    name ← chosen_name tokens;
    match name with
    | None => say (line "No program name")
    | Some n => edit_program (setName (Some n));; flushProgramSourceToDisk;; mret tt
    end.

(** COMPILE, and the start of RUN: [k] is told the name and the compiled program. *)
Definition with_compiled (k : string → BasicCompileResult → proc Editor unit) : proc Editor unit :=
  name ← program_name;
  match name with
  | None => say (line "No program name")
  | Some n =>
      p ← gets eprogram;
      let c := compile (plist p) in
      if c_success c then k n c else printCompileFailure c
  end.

Definition save_compiled (n : string) (c : BasicCompileResult) : proc Editor unit :=
  ok ← saveObjectCode n c; if ok : bool then printCompileSuccess c else mret tt.

(* src/userland/basic/BasicShell.cpp:252-270 [BasicShell::registerBasicCommands] *)
Definition cmd_compile (tokens : list string) : proc Editor unit :=
  if (1 <? length tokens)%nat then say (line "COMPILE takes no arguments") else with_compiled save_compiled.

(* src/userland/basic/BasicShell.cpp:271-298 [BasicShell::registerBasicCommands] *)
Definition cmd_run (tokens : list string) : proc Editor unit :=
  let compileOnly := match tokens with [_; a] => String.eqb a "(C" | _ => false end in
  if negb ((length tokens =? 1)%nat || compileOnly) then say (line "RUN takes no arguments or (C")
  else with_compiled (λ n c,
    if compileOnly then save_compiled n c
    else match executeProgramFn host with
         | None => say (line "Error: BASIC runtime not configured")
         | Some execute => p ← gets eprogram; on_console (execute (c_program c) (c_source c) p)
         end).

(* src/userland/basic/BasicShell.cpp:303-319 [BasicShell::registerBasicCommands] *)
Definition help_text : string :=
  foldr (λ l s, line l +:+ s) ""
    ["BASIC commands:"; "  <n> <text>     set BASIC line n"; "  <n>            delete BASIC line n"; "  LIST";
     "  EDIT [n]       open system line editor (TCL EDIT); optional BASIC line n for context"; "  DELETE <n>|<n-m>"; "  RENUM";
     "  RENUMBER"; "  NEW"; "  LOAD [name]"; "  SAVE [name]"; "  COMPILE"; "  RUN"; "  RUN (C"; "  QUIT"].

(** A command that takes no arguments. *)
Definition bare (name : string) (tokens : list string) (m : proc Editor unit) : proc Editor unit :=
  if (1 <? length tokens)%nat then say (line (name +:+ " takes no arguments")) else m.

(** The answer is [leaveBasicMode]. *)
(* src/userland/basic/BasicShell.cpp:322-339 [BasicShell::handleBasicCommand] *)
Definition handleBasicCommand (tokens : list string) : proc Editor bool :=
  match tokens with
  | [] => lift (Undefined "tokens[0] of no tokens")
  | t :: rest =>
      match line_number_token t with
      | Some n =>
          edit_program (match rest with [] => deleteLine n | _ => setLine n (joinTokensFrom 1 tokens) end);; mret false
      | None =>
          if String.eqb t "LIST" then bare t tokens (p ← gets eprogram; say (list_text p));; mret false
          else if String.eqb t "EDIT" then cmd_edit tokens;; mret false
          else if String.eqb t "DELETE" then cmd_delete tokens;; mret false
          else if String.eqb t "RENUM" || String.eqb t "RENUMBER" then cmd_renum tokens;; mret false
          else if String.eqb t "NEW" then bare t tokens (edit_program clearLines);; mret false
          else if String.eqb t "LOAD" then cmd_load tokens;; mret false
          else if String.eqb t "SAVE" then cmd_save tokens;; mret false
          else if String.eqb t "COMPILE" then cmd_compile tokens;; mret false
          else if String.eqb t "RUN" then cmd_run tokens;; mret false
          else if String.eqb t "QUIT" then modify (λ e, mkEditor false (eprogram e) (world e) (screen e));; mret true
          else if String.eqb t "HELP" then say help_text;; mret false
          else say (line ("Unknown command: " +:+ t));; mret false
      end
  end.

(* src/userland/basic/BasicShell.cpp:49-55 [BasicShell::handleCommand] *)
Definition handleCommand (tokens : list string) : proc Editor bool :=
  a ← gets active; if a : bool then handleBasicCommand tokens else mret false.
(** A line typed in BASIC mode: the shell cuts it into words at white space. *)
(* src/userland/tcl/Shell.cpp:749-757 [Shell::tokenizeDebuggerLine] *)
Definition tokenizeDebuggerLine (s : string) : list string := all_words s.

(* src/userland/tcl/Shell.cpp:356-363 [Shell::handleLine] *)
Definition handleLine (s : string) : proc Editor unit :=
  match tokenizeDebuggerLine s with [] => mret tt | tokens => handleCommand tokens;; mret tt end.

(** The lines typed since BASIC mode was entered. *)
Fixpoint session (typed : list string) : proc Editor unit :=
  match typed with [] => mret tt | s :: typed' => handleLine s;; session typed' end.
End editor.

(** ** Words *)
Lemma all_words_join ws : Forall isword ws → all_words (joinTokens ws) = ws.
Proof. apply all_words_of_join. Qed.

Lemma join_empty ws : Forall isword ws → str_empty (joinTokens ws) = bool_decide (ws = []).
Proof. intros H. destruct H as [|w [|w' ws] [Hw _] _]; [done|by destruct w|]. unfold joinTokens. rewrite str_join_cons by done. by destruct w. Qed.

(** ** Line numbers *)
Lemma line_number_to_string n : 0 < n ≤ INT_MAX → line_number_token (to_string n) = Some n.
Proof.
  intros Hn. unfold line_number_token. rewrite to_string_digits by lia.
  replace (str_empty (to_string n)) with false by (pose proof (to_string_nonempty n); by destruct (to_string n)). cbn.
  rewrite stoi_to_string by (apply in_int_spec; unfold INT_MIN; lia). by rewrite (proj2 (Z.ltb_lt 0 n)) by lia.
Qed.

Lemma line_number_range t n : line_number_token t = Some n → 0 < n ≤ INT_MAX.
Proof.
  unfold line_number_token. destruct (_ || _); [done|]. unfold stoi. destruct (strtol t) as [[m r]|]; [|done].
  destruct (in_int m) eqn:E; [|done]. apply in_int_spec in E. destruct (Z.ltb_spec 0 m); [|done]. intros [= <-]. lia.
Qed.

(** ** Well-formed programs

    The lines are in order, their numbers are positive [int]s and their texts are
    words with one blank between two of them. *)
Definition tidy_line (l : Z * string) : Prop := 0 < l.1 ≤ INT_MAX ∧ ∃ ws, Forall isword ws ∧ l.2 = joinTokens ws.
Definition tidy (p : BasicProgram) : Prop := map_ordered 0 (plist p) ∧ Forall tidy_line (plist p).

Lemma map_set_Forall {A} (P : Z * A → Prop) k a m : P (k, a) → Forall P m → Forall P (map_set k a m).
Proof.
  intros Hk. induction 1 as [|[k' a'] m Hx Hm IH]; cbn; [by repeat constructor|].
  destruct (k <? k'); [by repeat constructor|]. destruct (k =? k'); by constructor.
Qed.

Lemma map_set_last {A} k (a : A) m : Forall (λ x, x.1 < k) m → map_set k a m = m ++ [(k, a)].
Proof.
  induction 1 as [|[k' a'] m Hx Hm IH]; cbn in *; [done|].
  destruct (Z.ltb_spec k k'), (Z.eqb_spec k k'); [lia..|]. by rewrite IH.
Qed.

Lemma map_ordered_filter {A} (P : Z * A → Prop) `{!∀ x, Decision (P x)} lo m : map_ordered lo m → map_ordered lo (filter P m).
Proof.
  revert lo. induction m as [|[k a] m IH]; intros lo; [done|]. cbn [map_ordered]. intros [Hlo Hm]. rewrite filter_cons.
  case_decide; cbn; [by auto|]. apply map_ordered_weaken with k; [lia|auto].
Qed.

Lemma map_ordered_above {A} lo (m : list (Z * A)) : map_ordered lo m → Forall (λ x, lo < x.1) m.
Proof.
  revert lo. induction m as [|[k a] m IH]; intros lo; [by constructor|]. cbn. intros [Hk Hm]. constructor; [done|].
  eapply Forall_impl; [by apply IH|]. cbn. lia.
Qed.

Lemma tidy_setLine n ws p : 0 < n ≤ INT_MAX → Forall isword ws → tidy p → tidy (setLine n (joinTokens ws) p).
Proof.
  intros Hn Hws [Ho Hl]. split; cbn; [apply map_set_ordered; [lia|done]|]. apply map_set_Forall; [|done]. split; [done|eauto].
Qed.

Lemma tidy_filter (P : Z * string → Prop) `{!∀ x, Decision (P x)} p : tidy p → tidy (set_lines (filter P (plist p)) p).
Proof. intros [Ho Hl]. split; cbn; [by apply map_ordered_filter|]. rewrite Forall_forall in *. intros x [_ Hx]%list_elem_of_filter. auto. Qed.

Lemma tidy_clear p : tidy (clearLines p).
Proof. split; cbn; done. Qed.

Lemma tidy_load_line p text : tidy p → tidy (load_line p text).
Proof.
  intros Hp. unfold load_line. pose proof (all_words_are_words text) as Hw. destruct (all_words text) as [|w ws]; [done|]. cbn.
  destruct (line_number_token w) as [n|] eqn:E; [|done]. apply tidy_setLine; [by eapply line_number_range| |done].
  rewrite drop_0. by inv Hw.
Qed.

Lemma tidy_load ls p : tidy p → tidy (foldl load_line p ls).
Proof. revert p. induction ls as [|l ls IH]; intros p Hp; [done|]. cbn. by apply IH, tidy_load_line. Qed.

(** *** A saved program is read back *)
Definition saved_line (l : Z * string) : string := if str_empty l.2 then to_string l.1 else to_string l.1 +:+ " " +:+ l.2.

Lemma saved_words n ws : Forall isword ws → saved_line (n, joinTokens ws) = joinTokens (to_string n :: ws).
Proof.
  intros Hws. unfold saved_line. cbn [snd fst]. rewrite join_empty by done. case_bool_decide as E; [by rewrite E|].
  unfold joinTokens. by rewrite str_join_cons.
Qed.

Lemma load_saved_line l p : tidy_line l → load_line p (saved_line l) = setLine l.1 l.2 p.
Proof.
  destruct l as [n text]. intros [Hn [ws [Hws Ht]]]. cbn in Hn, Ht |- *. subst text. rewrite saved_words by done.
  unfold load_line. rewrite all_words_join by (constructor; [apply to_string_word; lia|done]). change (default "" (head (to_string n :: ws))) with (to_string n).
  rewrite line_number_to_string by done. reflexivity.
Qed.

Lemma getlines_listing l : Forall tidy_line l → getlines NL (foldr (λ l s, list_line l +:+ s) "" l) = saved_line <$> l.
Proof.
  induction 1 as [|[n text] l [Hn [ws [Hws Ht]]] Hl IH]; [done|]. cbn in Hn, Ht |- *. subst text. rewrite <- IH.
  rewrite <- getlines_cons.
  - f_equal. rewrite saved_words by done. unfold list_line. cbn [fst snd].
    rewrite <- (saved_words n ws) by done. unfold saved_line. cbn [fst snd]. destruct (str_empty _); by autorewrite with gemini.
  - rewrite saved_words by done. apply join_one_line. constructor; [apply to_string_word; lia|done].
Qed.

Lemma load_saved_lines l : ∀ p k, Forall tidy_line l → map_ordered k l → Forall (λ x, x.1 <= k) (plist p) →
  plist (foldl load_line p (saved_line <$> l)) = plist p ++ l.
Proof.
  induction l as [|[n text] l IH]; intros p k Hl Ho Hp; [by rewrite app_nil_r|]. cbn in Ho. destruct Ho as [Hk Ho].
  inv Hl. cbn [fmap list_fmap foldl]. rewrite load_saved_line by done. cbn [fst snd].
  assert (plist (setLine n text p) = plist p ++ [(n, text)]) as E.
  { apply map_set_last. eapply Forall_impl; [exact Hp|]. cbn. lia. }
  rewrite (IH _ n), E, <- app_assoc; [done|done|done|]. rewrite E. apply Forall_app. split; [|by repeat constructor].
  eapply Forall_impl; [exact Hp|]. cbn. lia.
Qed.

Lemma load_listing p q : tidy p → plist (foldl load_line (clearLines q) (getlines NL (list_text p))) = plist p.
Proof. intros [Ho Hl]. unfold list_text. rewrite getlines_listing by done. exact (load_saved_lines _ (clearLines q) 0 Hl Ho (Forall_nil_2 _)). Qed.

(** ** Renumbering keeps a program well formed *)
Lemma retarget_words f i n ws : (∀ k m, f k = Some m → 0 < m) → Forall isword ws → Forall isword (retarget f i n ws).
Proof.
  intros Hf Hws. unfold retarget. destruct (f n) as [m|] eqn:E; [|done]. apply Forall_insert; [done|]. eapply to_string_word, Hf, E.
Qed.

Lemma rewrite_tidy f ws : (∀ k m, f k = Some m → 0 < m) → Forall isword ws →
  ∃ ws', Forall isword ws' ∧ rewriteRenumberTargets f (joinTokens ws) = joinTokens ws'.
Proof.
  intros Hf Hws. pose proof (λ i n, retarget_words f i n ws Hf Hws) as Hr.
  pose proof (λ i j n m, retarget_words f i n _ Hf (Hr j m)) as Hr2.
  unfold rewriteRenumberTargets. rewrite all_words_join by done. destruct ws as [|o rest]; [by exists []|].
  assert (Hsame : ∃ ws', Forall isword ws' ∧ joinTokens (o :: rest) = joinTokens ws') by eauto.
  repeat case_match; try exact Hsame.
  - exists [o; to_string z0]. split; [|done]. inv Hws. constructor; [done|]. constructor; [by eapply to_string_word, Hf|constructor].
  - unfold rewrite_if. repeat case_match; try exact Hsame; eauto.
Qed.

Lemma number_lines_entries l : ∀ next inc m, number_lines next inc l = Ok m → 0 < next → 0 < inc → next ≤ INT_MAX →
  map fst m = map fst l ∧ map_ordered (next - 1) (map (λ x, (x.2, x.1)) m) ∧ Forall (λ x, 0 < x.2 ≤ INT_MAX) m.
Proof.
  induction l as [|[old text] l IH]; intros next inc m; [by intros [= <-]|]. cbn. intros H Hn Hi Hm.
  apply outcome_bind_inv in H as (next' & [-> Hin]%int_of_ok & H). apply in_int_spec in Hin.
  apply outcome_bind_inv in H as (m' & Hm' & [= <-]).
  destruct (IH _ _ _ Hm' ltac:(lia) Hi ltac:(lia)) as (E & Ho & Hall). cbn. split_and!; [by rewrite E|lia| |by constructor; [cbn; lia|]].
  eapply map_ordered_weaken; [|exact Ho]. lia.
Qed.

Definition renumbered_line (g : string → string) (x : Z * Z) (l : Z * string) : Z * string := (x.2, g l.2).

Lemma renumbered_lines g : ∀ m l acc k, map_ordered k (map (λ x, (x.2, x.1)) m) → Forall (λ x, x.1 <= k) acc →
  foldl (λ acc '((_, n), (_, text)), map_set n (g text) acc) acc (zip m l) = acc ++ zip_with (renumbered_line g) m l.
Proof.
  induction m as [|[old n] m IH]; intros l acc k; [by rewrite app_nil_r|]. destruct l as [|[old' text] l]; [by rewrite app_nil_r|].
  cbn [map map_ordered fst snd]. intros [Hk Ho] Hacc. cbn [zip_with foldl]. rewrite map_set_last.
  - rewrite (IH _ _ n); [by rewrite <- app_assoc|done|]. apply Forall_app. split; [|by repeat constructor].
    eapply Forall_impl; [exact Hacc|]. cbn. lia.
  - eapply Forall_impl; [exact Hacc|]. cbn. lia.
Qed.

(** What RENUM does: the [i]th line gets the [i]th number, its text is rewritten. *)
Lemma renumber_spec first inc p p' : renumber first inc p = Ok p' → 0 < first ≤ INT_MAX → 0 < inc →
  ∃ m, number_lines first inc (plist p) = Ok m ∧ map fst m = map fst (plist p) ∧
       map_ordered 0 (map (λ x, (x.2, x.1)) m) ∧ Forall (λ x, 0 < x.2 ≤ INT_MAX) m ∧
       plist p' = zip_with (renumbered_line (rewriteRenumberTargets (λ k, map_find k m))) m (plist p).
Proof.
  intros (m & Hm & [= <-])%outcome_bind_inv Hf Hi. exists m. destruct (number_lines_entries _ _ _ _ Hm) as (E & Ho & Hall); [lia..|].
  split_and!; [done|done| |done|]; [eapply map_ordered_weaken; [|exact Ho]; lia|]. cbn. by erewrite renumbered_lines.
Qed.

Lemma renumbered_ordered g : ∀ m l k, map_ordered k (map (λ x, (x.2, x.1)) m) → map_ordered k (zip_with (renumbered_line g) m l).
Proof. induction m as [|[old n] m IH]; intros [|y l] k; cbn; try done. naive_solver. Qed.

Lemma map_find_In {A} k (a : A) m : map_find k m = Some a → (k, a) ∈ m.
Proof.
  induction m as [|[k' a'] m IH]; cbn; [done|]. destruct (Z.eqb_spec k k') as [->|]; [intros [= ->]; by left|]. intros H. right. by apply IH.
Qed.

Lemma tidy_renumber first inc p p' : renumber first inc p = Ok p' → 0 < first ≤ INT_MAX → 0 < inc → tidy p → tidy p'.
Proof.
  intros Hr Hf Hi [Ho Hl]. destruct (renumber_spec _ _ _ _ Hr Hf Hi) as (m & _ & _ & Hm & Hall & E). split; rewrite E; [by apply renumbered_ordered|].
  set (f := λ k, map_find k m). assert (Hpos : ∀ k n, f k = Some n → 0 < n).
  { intros k n Hk%map_find_In. rewrite Forall_forall in Hall. apply Hall in Hk. cbn in Hk. lia. }
  clearbody f. clear -Hall Hl Hpos. revert Hl Hall. generalize (plist p). induction m as [|x m IH]; intros [|[n text] l] Hl Hall; try by constructor.
  inv Hl. inv Hall. cbn. constructor; [|by apply IH]. split; [done|].
  match goal with H : tidy_line _ |- _ => destruct H as [_ [ws [Hws E]]] end. cbn in E |- *. subst text. by apply rewrite_tidy.
Qed.

(** ** The commands keep the program well formed *)
Section commands.
Context {W : Type} (host : @Host W).

Abbreviation keeps := (preserves (λ e : @Editor W, tidy (eprogram e))).

Lemma keeps_say s : keeps (say s).
Proof. by intros e He. Qed.

Lemma keeps_on_host {A} (f : proc W A) : keeps (on_host f).
Proof. intros e He. unfold on_host. by destruct (f (world e)). Qed.

Lemma keeps_on_console (f : W → outcome unit * (W * string)) : keeps (on_console f).
Proof. intros e He. unfold on_console. by destruct (f (world e)) as [? []]. Qed.

Lemma keeps_edit f : (∀ p, tidy p → tidy (f p)) → keeps (edit_program f).
Proof. intros Hf. apply preserves_modify. intros e He. by apply Hf. Qed.

Lemma keeps_name n : keeps (edit_program (setName n)).
Proof. by apply keeps_edit. Qed.

Lemma keeps_quit : keeps (modify (λ e, mkEditor false (eprogram e) (world e) (screen e))).
Proof. by apply preserves_modify. Qed.
End commands.

#[export] Hint Resolve keeps_say keeps_on_host keeps_on_console keeps_name keeps_quit : preserves.

Section editor_invariant.
Context {W : Type} (host : @Host W).
Abbreviation keeps := (preserves (λ e : @Editor W, tidy (eprogram e))).

Lemma keeps_flush : keeps (flushProgramSourceToDisk host).
Proof. unfold flushProgramSourceToDisk, program_name. preserves. Qed.

Lemma keeps_load : keeps (loadProgramIfPresent host).
Proof. unfold loadProgramIfPresent, program_name. preserves. apply keeps_edit. intros. apply tidy_load, tidy_clear. Qed.

#[local] Hint Resolve keeps_flush keeps_load : preserves.

Lemma keeps_object n c : keeps (saveObjectCode host n c).
Proof. unfold saveObjectCode. preserves. Qed.

#[local] Hint Resolve keeps_object : preserves.

Lemma keeps_save_compiled n c : keeps (save_compiled host n c).
Proof. unfold save_compiled, printCompileSuccess. preserves. Qed.

Lemma keeps_with_compiled (k : string → BasicCompileResult → proc (@Editor W) unit) : (∀ n c, keeps (k n c)) → keeps (with_compiled k).
Proof. intros Hk. unfold with_compiled, program_name, printCompileFailure. preserves. Qed.

Lemma keeps_edit_command tokens : keeps (cmd_edit host tokens).
Proof. unfold cmd_edit, program_name. preserves. Qed.

Lemma keeps_renum tokens : keeps (cmd_renum (W:=W) tokens).
Proof.
  unfold cmd_renum. case_match; [preserves|]. intros e He. unfold mbind, proc_bind, gets, lift. cbn.
  destruct (renumber 10 10 (eprogram e)) as [p'| |] eqn:E; [|done..]. cbn. unfold INT_MAX in *. by apply (tidy_renumber _ _ _ _ E).
Qed.

Lemma keeps_bare n tokens (m : proc (@Editor W) unit) : keeps m → keeps (bare n tokens m).
Proof. intros Hm. unfold bare. by preserves. Qed.

Lemma keeps_chosen tokens : keeps (chosen_name (W:=W) tokens).
Proof. unfold chosen_name, program_name. preserves. Qed.

#[local] Hint Resolve keeps_save_compiled keeps_edit_command keeps_renum keeps_bare keeps_chosen : preserves.

Lemma tidy_delete s e p : tidy p → tidy (deleteRange s e p).
Proof. unfold deleteRange. case_match; [done|]. apply tidy_filter. Qed.

Lemma keeps_load_command tokens : keeps (cmd_load host tokens).
Proof. unfold cmd_load. preserves. apply keeps_edit. intros. apply tidy_clear. Qed.

Lemma keeps_save tokens : keeps (cmd_save host tokens).
Proof. unfold cmd_save. preserves. Qed.

Lemma keeps_delete tokens : keeps (cmd_delete (W:=W) tokens).
Proof. unfold cmd_delete. preserves. apply keeps_edit. intros. by apply tidy_delete. Qed.

Lemma keeps_compile tokens : keeps (cmd_compile host tokens).
Proof. unfold cmd_compile. case_match; [preserves|]. apply keeps_with_compiled. auto with preserves. Qed.

Lemma keeps_run tokens : keeps (cmd_run host tokens).
Proof. unfold cmd_run. cbv zeta. case_match; [preserves|]. apply keeps_with_compiled. intros. preserves. Qed.

Lemma keeps_list : keeps (p ← gets eprogram; say (list_text p) : proc (@Editor W) unit).
Proof. preserves. Qed.

Lemma keeps_new : keeps (edit_program clearLines : proc (@Editor W) unit).
Proof. apply keeps_edit. intros. apply tidy_clear. Qed.

#[local] Hint Resolve keeps_load_command keeps_save keeps_delete keeps_compile keeps_run keeps_list keeps_new : preserves.

Lemma keeps_command tokens : Forall isword tokens → keeps (handleBasicCommand host tokens).
Proof.
  intros Ht. unfold handleBasicCommand. destruct tokens as [|t rest]; [preserves|].
  destruct (line_number_token t) as [n|] eqn:En; [|preserves].
  apply preserves_bind; [|preserves]. apply keeps_edit. intros p Hp. destruct rest as [|w rest]; [by apply tidy_filter|].
  apply tidy_setLine; [by eapply line_number_range|by inv Ht|done].
Qed.

Lemma keeps_session typed : keeps (session host typed).
Proof.
  induction typed as [|s typed IH]; [apply preserves_ret|]. cbn [session]. apply preserves_bind; [|by intros].
  unfold handleLine, tokenizeDebuggerLine. pose proof (all_words_are_words s). case_match; [preserves|]. apply preserves_bind; [|preserves].
  unfold handleCommand. apply preserves_bind; [apply preserves_gets|]. intros a. destruct a; [by apply keeps_command|preserves].
Qed.

Lemma handleLine_words ws e : Forall isword ws → ws ≠ [] → active e = true →
  handleLine host (joinTokens ws) e = (handleBasicCommand host ws;; mret tt) e.
Proof.
  intros Hws Hne Ha. unfold handleLine, tokenizeDebuggerLine. rewrite all_words_join by done. destruct ws as [|w ws]; [done|].
  unfold handleCommand. unfold mbind, proc_bind, gets. by rewrite Ha.
Qed.

Lemma foldl_load_name ls : ∀ p, pname (foldl load_line p ls) = pname p.
Proof. induction ls as [|l ls IH]; intros p; [done|]. cbn. rewrite IH. unfold load_line. by case_match. Qed.

(** Entering BASIC mode leaves a well-formed program, whatever the store holds. *)
Lemma enter_tidy name e : tidy (eprogram (enter host name e).2).
Proof. unfold enter. cbv [mbind proc_bind modify]. apply keeps_load. apply tidy_clear. Qed.
End editor_invariant.

(** ** SAVE and LOAD *)

(** In the state [w] the store keeps [text] under the name [n]: the name is resolved, the text is written, and what a
    lookup and a read then give is that text. *)
Definition keeps_text {W} (host : @Host W) (n text : string) (w : W) : Prop :=
  match resolveProgramLocationFn host, readRecordFn host, writeRecordFn host with
  | Some resolve, Some read, Some write => ∃ loc w1 w2 w3 w4,
      resolve n w = (Ok loc, w1) ∧ write loc false text w1 = (Ok None, w2) ∧ resolve n w2 = (Ok loc, w3) ∧ read loc false w3 = (Ok (Some text), w4)
  | _, _, _ => False
  end.

Section save_load.
Context {W : Type} (host : @Host W).

Lemma flush_and_load n p q w out : pname p = Some n → pname q = Some n → n ≠ "" → keeps_text host n (list_text p) w → ∃ w' w'',
  flushProgramSourceToDisk host (mkEditor true p w out) = (Ok true, mkEditor true p w' out) ∧
  loadProgramIfPresent host (mkEditor true q w' out) = (Ok tt, mkEditor true (foldl load_line (clearLines q) (getlines NL (list_text p))) w'' out).
Proof.
  unfold keeps_text, flushProgramSourceToDisk, loadProgramIfPresent, program_name. intros Hp Hq Hn H.
  destruct (resolveProgramLocationFn host) as [resolve|]; [|done]. destruct (readRecordFn host) as [read|]; [|done].
  destruct (writeRecordFn host) as [write|]; [|done]. destruct H as (loc & w1 & w2 & w3 & w4 & E1 & E2 & E3 & E4). exists w2, w4.
  cbv [mbind proc_bind gets on_host mret proc_ret]. cbn -[list_text]. rewrite Hp, Hq. destruct n as [|c n]; [done|]. cbn -[list_text].
  rewrite E1. cbn -[list_text]. rewrite E2. cbn -[list_text]. rewrite E3. cbn -[list_text]. rewrite E4. done.
Qed.

Lemma cut_command v ws e : Forall isword (v :: ws) → active e = true →
  handleLine host (joinTokens (v :: ws)) e = (handleBasicCommand host (v :: ws);; mret tt) e.
Proof. intros. by rewrite handleLine_words. Qed.

Lemma command_done (b : bool) v ws e e' : Forall isword (v :: ws) → active e = true → handleBasicCommand host (v :: ws) e = (Ok b, e') →
  handleLine host (joinTokens (v :: ws)) e = (Ok tt, e').
Proof. intros Hw Ha H. rewrite cut_command by done. by rewrite (proc_bind_ok _ _ _ _ _ H). Qed.

Lemma new_line p w out : handleLine host "NEW" (mkEditor true p w out) = (Ok tt, mkEditor true (clearLines p) w out).
Proof. reflexivity. Qed.

Lemma save_command n p w w' out : n ≠ "" →
  flushProgramSourceToDisk host (mkEditor true (setName (Some n) p) w out) = (Ok true, mkEditor true (setName (Some n) p) w' out) →
  handleBasicCommand host ["SAVE"; n] (mkEditor true p w out) = (Ok false, mkEditor true (setName (Some n) p) w' out).
Proof.
  intros Hn Hf. destruct n as [|c n]; [done|].
  change (((flushProgramSourceToDisk host;; mret tt);; mret false) (mkEditor true (setName (Some (String c n)) p) w out) =
          (Ok false, mkEditor true (setName (Some (String c n)) p) w' out)).
  by rewrite (proc_bind_ok _ _ _ _ _ (proc_bind_ok _ _ _ _ _ Hf)).
Qed.

Lemma load_command n p w w' out q : n ≠ "" →
  loadProgramIfPresent host (mkEditor true (clearLines (setName (Some n) p)) w out) = (Ok tt, mkEditor true q w' out) →
  handleBasicCommand host ["LOAD"; n] (mkEditor true p w out) = (Ok false, mkEditor true q w' out).
Proof.
  intros Hn Hf. destruct n as [|c n]; [done|].
  change ((loadProgramIfPresent host;; mret false) (mkEditor true (clearLines (setName (Some (String c n)) p)) w out) =
          (Ok false, mkEditor true q w' out)).
  by rewrite (proc_bind_ok _ _ _ _ _ Hf).
Qed.

(** SAVE and LOAD are inverse in BASIC mode. Whatever was typed after entering BASIC
    mode (with any name, any stored text, any sequence of lines of any characters), when the
    editor is still in BASIC mode and the store keeps the listing under the name [n], the lines
    [SAVE n], [NEW], [LOAD n] succeed, print nothing and leave exactly the program that
    was there: the same line numbers with the same texts, under the name [n]. *)
Lemma save_then_load name typed n e0 e :
  isword n → (enter host name;; session host typed) e0 = (Ok tt, e) → active e = true → keeps_text host n (list_text (eprogram e)) (world e) →
  ∃ e', session host ["SAVE " +:+ n; "NEW"; "LOAD " +:+ n] e = (Ok tt, e') ∧
        plist (eprogram e') = plist (eprogram e) ∧ pname (eprogram e') = Some n ∧ screen e' = screen e ∧ active e' = true.
Proof.
  intros Hn Hrun Ha Hk. assert (Ht : tidy (eprogram e)).
  { apply proc_bind_inv in Hrun as ([] & e1 & E1 & E2). pose proof (enter_tidy host name e0) as H1. rewrite E1 in H1.
    pose proof (keeps_session host typed e1 H1) as H2. by rewrite E2 in H2. }
  clear Hrun e0. destruct e as [a p w out]. cbn in Ha, Ht, Hk. subst a. assert (n ≠ "") as Hne by apply Hn.
  set (p0 := setName (Some n) p). set (q := clearLines (setName (Some n) (clearLines p0))).
  destruct (flush_and_load n p0 q w out eq_refl eq_refl Hne Hk) as (w' & w'' & Hflush & Hload).
  assert (Hv : ∀ v, isword v → Forall isword [v; n]) by (intros; by constructor; [|constructor]).
  assert (isword "SAVE" ∧ isword "LOAD") as [Hs Hl] by done.
  pose proof (command_done _ _ _ (mkEditor true p w out) _ (Hv _ Hs) eq_refl (save_command _ _ _ _ _ Hne Hflush)) as H1.
  pose proof (command_done _ _ _ (mkEditor true (clearLines p0) w' out) _ (Hv _ Hl) eq_refl
                (load_command _ _ _ _ _ _ Hne Hload)) as H2.
  eexists. split.
  - cbn [session]. rewrite (proc_bind_ok _ _ _ _ _ H1).
    rewrite (proc_bind_ok _ _ _ _ _ (new_line p0 w' out)).
    by rewrite (proc_bind_ok _ _ _ _ _ H2).
  - split_and!; [|by cbn; rewrite foldl_load_name|done..]. by apply (load_listing p0).
Qed.
End save_load.

(** ** RENUM *)

(** RENUM rewrites the targets of GOTO and of IF, not those of GOSUB. *)
Example renum_leaves_gosub :
  renumber 10 10 (mkProgram None [(5, "GOSUB 7"); (6, "GOTO 7"); (7, "RETURN")]) =
  Ok (mkProgram None [(10, "GOSUB 7"); (20, "GOTO 30"); (30, "RETURN")]).
Proof. by vm_compute. Qed.
