(* ===== verification/Proc.v ===== *)
(** * PROC scripts

    [ProcInterpreter.cpp]: a script is a list of lines, cut into words; labels are
    lines ending in a colon, LOOP and REPEAT lines are paired before the script runs.
    The interpreter keeps the variables, a stack of the loops that were entered, and
    a line number. What the host does (TCL commands, SELECT, READNEXT, record
    locks, the session's names) is a record of functions over the host's state [W]. *)

From Stdlib Require Import Ascii String.
From S2P Require Import Prelude CLib Words.
From stdpp Require Import options.
Local Open Scope Z_scope.

(** ** Words *)

(* src/userland/proc/ProcInterpreter.cpp:13-23 [trim] *)
Definition trim (s : string) : string := trim_by isspace s.

(* src/userland/proc/ProcInterpreter.cpp:25-30 [upperAscii] *)
Definition upperAscii (s : string) : string := str_map toupper s.

(* src/userland/proc/ProcInterpreter.cpp:32-35 [isReadonlySessionAtTarget] *)
Definition isReadonlySessionAtTarget (token : string) : bool :=
  bool_decide (upperAscii token ∈ ["@USERNO"; "@ACCOUNT"; "@LOGNAME"; "@DEFDATA"]).

(* src/userland/proc/ProcInterpreter.cpp:37-45 [tokenize] *)
Definition tokenize (line : string) : list string := all_words line.

(* src/userland/proc/ProcInterpreter.cpp:47-56 [joinTokens] *)
Definition joinTokens (tokens : list string) (startIndex : nat) : string := str_join " " (drop startIndex tokens).

(* src/userland/proc/ProcInterpreter.cpp:123-134 [tokenEq] *)
Definition tokenEq (token target : string) : bool := String.eqb (upperAscii token) (upperAscii target).

(** ** Statements *)

(* src/userland/proc/ProcInterpreter.cpp:85-104 [Command] *)
Inductive Command :=
| Display | Input | If | Go | Tcl | End_ | Return_ | Loop | Repeat | Exit | ExitIf | Select | ReadNext | ReadU | WriteU | Release
| Assignment | Unknown.

(* src/userland/proc/ProcInterpreter.cpp:191-242 [canonicalKeyword] *)
Definition canonicalKeyword (token : string) : string :=
  let up := upperAscii token in
  let among (names : list string) := bool_decide (up ∈ names) in
  if among ["DISPLAY"; "D"] then "DISPLAY"
  else if among ["INPUT"; "I"] then "INPUT"
  else if among ["IF"] then "IF"
  else if among ["GO"; "G"] then "GO"
  else if among ["TCL"; "T"] then "TCL"
  else if among ["END"; "E"] then "END"
  else if among ["RETURN"] then "RETURN"
  else if among ["LOOP"] then "LOOP"
  else if among ["REPEAT"] then "REPEAT"
  else if among ["EXIT"] then "EXIT"
  else if among ["EXITIF"] then "EXITIF"
  else if among ["SELECT"; "S"] then "SELECT"
  else if among ["READNEXT"; "RN"] then "READNEXT"
  else if among ["READU"] then "READU"
  else if among ["WRITEU"] then "WRITEU"
  else if among ["RELEASE"] then "RELEASE"
  else up.

(* src/userland/proc/ProcInterpreter.cpp:244-294 [commandFromCanonical] *)
Definition commandFromCanonical (keyword : string) : Command :=
  let k := String.eqb keyword in
  if k "DISPLAY" then Display
  else if k "INPUT" then Input
  else if k "IF" then If
  else if k "GO" then Go
  else if k "TCL" then Tcl
  else if k "END" then End_
  else if k "RETURN" then Return_
  else if k "LOOP" then Loop
  else if k "REPEAT" then Repeat
  else if k "EXIT" then Exit
  else if k "EXITIF" then ExitIf
  else if k "SELECT" then Select
  else if k "READNEXT" then ReadNext
  else if k "READU" then ReadU
  else if k "WRITEU" then WriteU
  else if k "RELEASE" then Release
  else Unknown.

(* src/userland/proc/ProcInterpreter.cpp:296-309 [parseStatement] *)
Definition parseStatement (tokens : list string) : Command :=
  match tokens with
  | [] => Unknown
  | t :: rest =>
      if (3 <=? length tokens)%nat && bool_decide (tokens !! 1%nat = Some "=") then Assignment
      else commandFromCanonical (canonicalKeyword t)
  end.

(* src/userland/proc/ProcInterpreter.cpp:111-116 [IfParts] *)
Record IfParts := mkIf { lhsTokens : list string; rhsTokens : list string; thenTokens : list string; elseTokens : list string }.

(** The first word that is [key], from the second one on. *)
Definition find_token (p : string → bool) (tokens : list string) : option nat :=
  match list_find (λ t, p t = true) (tail tokens) with Some (i, _) => Some (S i) | None => None end.

(** The words from [a] up to [b], [b] excluded. *)
Definition slice (a b : nat) (tokens : list string) : list string := take (b - a) (drop a tokens).

(* src/userland/proc/ProcInterpreter.cpp:324-367 [parseIfParts] *)
Definition parseIfParts (tokens : list string) : option IfParts :=
  if (length tokens <? 6)%nat || negb (String.eqb (canonicalKeyword (default "" (head tokens))) "IF") then None
  else match find_token (String.eqb "=") tokens, find_token (λ t, tokenEq t "THEN") tokens with
       | Some eqPos, Some thenPos =>
           if (eqPos <=? 1)%nat || (thenPos <=? eqPos + 1)%nat || (length tokens <=? thenPos + 1)%nat then None
           else
             let lhs := slice 1 eqPos tokens in
             let rhs := slice (eqPos + 1) thenPos tokens in
             match find_token (λ t, tokenEq t "ELSE") tokens with
             | None => Some (mkIf lhs rhs (drop (thenPos + 1) tokens) [])
             | Some elsePos =>
                 if (elsePos <=? thenPos + 1)%nat then None
                 else Some (mkIf lhs rhs (slice (thenPos + 1) elsePos tokens) (drop (elsePos + 1) tokens))
             end
       | _, _ => None
       end.

(* src/userland/proc/ProcInterpreter.cpp:369-388 [parseExitIfCondition] *)
Definition parseExitIfCondition (tokens : list string) : option (list string * list string) :=
  if (length tokens <? 3)%nat then None
  else match find_token (String.eqb "=") tokens with
       | Some eqPos => if (eqPos <=? 1)%nat then None else Some (slice 1 eqPos tokens, drop (eqPos + 1) tokens)
       | None => None
       end.

(** ** The host and the interpreter's state *)

(* src/userland/proc/ProcInterpreter.h:14-19 [ProcLockOutcome] *)
Inductive ProcLockOutcome := Success | Locked | MissingRecord | HardError.

Section interpreter.
Context {W : Type}.

(** The functions the host passes to a script; all but the first may be empty, and they may throw. A TCL
    command may read from the script's input. The last component of a result is the message of an error. *)
(* src/userland/proc/ProcInterpreter.h:23-31 [ProcInterpreter] *)
Record ProcHost := mkProcHost {
  tclBridgeFn : string → W → string → outcome unit * (W * string * string);
  sessionAt : option (W → string → option string);
  selectFn : option (string → proc W (bool * string));
  readNextFn : option (proc W (option string * string));
  readUFn : option (string → string → proc W (ProcLockOutcome * string * string));
  writeUFn : option (string → string → string → proc W (ProcLockOutcome * string));
  releaseFn : option (string → string → proc W (bool * string))
}.

(* src/userland/proc/ProcInterpreter.cpp:118-121 [LoopFrame] *)
Record LoopFrame := mkFrame { loopPc : Z; repeatPc : Z }.

(** The local variables of [runScript]; the head of [loopFrames] is the vector's back. *)
Record Machine := mkMachine {
  variables : gmap string string;
  loopFrames : list LoopFrame;
  input : string;
  output : string;
  world : W
}.

Definition set_variables (v : gmap string string) (m : Machine) : Machine := mkMachine v (loopFrames m) (input m) (output m) (world m).
Definition set_frames (f : list LoopFrame) (m : Machine) : Machine := mkMachine (variables m) f (input m) (output m) (world m).

Definition print (s : string) : proc Machine unit :=
  modify (λ m, mkMachine (variables m) (loopFrames m) (input m) (output m +:+ s) (world m)).

(** [out << "Error: ..."; return false;] *)
Definition refuse (s : string) : proc Machine (option Z) := print ("Error: " +:+ s +:+ String NL "");; mret None.

(** [variables[name] = value] *)
Definition assign (name value : string) : proc Machine unit := modify (λ m, set_variables (<[name := value]> (variables m)) m).

(** A call of a host function. *)
Definition call_host {A} (f : proc W A) : proc Machine A := λ m,
  let '(a, w) := f (world m) in (a, mkMachine (variables m) (loopFrames m) (input m) (output m) w).

(** The next line of the input; nothing at its end. *)
Definition next_input : proc Machine string := λ m,
  match getline NL (input m) with
  | Some (l, r) => (Ok l, mkMachine (variables m) (loopFrames m) r (output m) (world m))
  | None => (Ok "", m)
  end.

Context (host : ProcHost).

(* src/userland/proc/ProcInterpreter.cpp:58-71 [substituteToken] *)
Definition substituteToken (m : Machine) (token : string) : string :=
  match variables m !! token with
  | Some v => v
  | None =>
      match sessionAt host with
      | Some at_ => match at_ (world m) token with Some v => v | None => token end
      | None => token
      end
  end.

(* src/userland/proc/ProcInterpreter.cpp:73-83 [substituteTokens] *)
Definition substituteTokens (m : Machine) (tokens : list string) (startIndex : nat) : list string :=
  substituteToken m <$> drop startIndex tokens.

(* src/userland/proc/ProcInterpreter.cpp:390-400 [evalValue] *)
Definition evalValue (m : Machine) (tokens : list string) : string :=
  match tokens with
  | [] => ""
  | [t] => substituteToken m t
  | _ => joinTokens (substituteTokens m tokens 0) 0
  end.

(* src/userland/proc/ProcInterpreter.cpp:139-150 [defaultDataFile] *)
Definition defaultDataFile (m : Machine) : option string :=
  match sessionAt host with
  | Some at_ => match at_ (world m) "@DEFDATA" with Some v => if str_empty v then None else Some v | None => None end
  | None => None
  end.

(* src/userland/proc/ProcInterpreter.cpp:157-168 [parseFileRecordPair] *)
Definition parseFileRecordPair (m : Machine) (operands : list string) : option (string * string) :=
  match operands with
  | [f; i] => Some (f, i)
  | [i] => match defaultDataFile m with Some d => Some (d, i) | None => None end
  | _ => None
  end.

(* src/userland/proc/ProcInterpreter.cpp:170-181 [parseReadUOperands] *)
Definition parseReadUOperands (m : Machine) (operands : list string) : option (string * string) :=
  match operands with
  | [f; i] => Some (f, i)
  | [i] => match defaultDataFile m with Some d => Some (d, i) | None => None end
  | _ => None
  end.

(* src/userland/proc/ProcInterpreter.cpp:183-185 [clearProcErr] *)
Definition clearProcErr : proc Machine unit := assign "PROCERR" "".

(* src/userland/proc/ProcInterpreter.cpp:187-189 [setProcLocked] *)
Definition setProcLocked : proc Machine unit := assign "PROCERR" "?LOCKED?".

(** ** The script *)

(** What is computed before a script runs: its lines, their words, the line of each
    label, the REPEAT of each LOOP and the LOOP of each REPEAT ([-1]: none). *)
Record Script := mkScript {
  lines : list string;
  lineTokens : list (list string);
  labels : gmap string Z;
  loopToRepeat : list Z;
  repeatToLoop : list Z
}.

Definition is_label (line : string) : bool := bool_decide (str_back line = Some ":"%char).
Definition skipped (line : string) : bool := let t := trim line in str_empty t || is_label t.

(* src/userland/proc/ProcInterpreter.cpp:462-478 [ProcInterpreter::runScript] *)
Fixpoint collect_labels (i : Z) (ls : list string) (labels : gmap string Z) : gmap string Z + string :=
  match ls with
  | [] => inl labels
  | l :: ls' =>
      let line := trim l in
      if str_empty line || negb (is_label line) then collect_labels (i + 1) ls' labels
      else
        let label := trim (String.substring 0 (String.length line - 1) line) in
        if str_empty label then inr "Invalid label line"
        else
          let canon := upperAscii label in
          match labels !! canon with
          | Some _ => inr ("Duplicate label: " +:+ canon)
          | None => collect_labels (i + 1) ls' (<[canon := i]> labels)
          end
  end.

(** The two vectors, and the LOOPs not yet closed. *)
(* src/userland/proc/ProcInterpreter.cpp:402-434 [buildLoopPairs] *)
Fixpoint build_pairs (i : nat) (ls : list (string * list string)) (loopToRepeat repeatToLoop : list Z) (loopStack : list nat) :
    list Z * list Z + string :=
  match ls with
  | [] => match loopStack with [] => inl (loopToRepeat, repeatToLoop) | _ => inr "LOOP without REPEAT" end
  | (l, tokens) :: ls' =>
      if skipped l then build_pairs (S i) ls' loopToRepeat repeatToLoop loopStack
      else match parseStatement tokens with
           | Loop => build_pairs (S i) ls' loopToRepeat repeatToLoop (i :: loopStack)
           | Repeat =>
               match loopStack with
               | [] => inr "REPEAT without LOOP"
               | loop :: loopStack' =>
                   build_pairs (S i) ls' (<[loop := Z.of_nat i]> loopToRepeat) (<[i := Z.of_nat loop]> repeatToLoop) loopStack'
               end
           | _ => build_pairs (S i) ls' loopToRepeat repeatToLoop loopStack
           end
  end.

(* src/userland/proc/ProcInterpreter.cpp:455-483 [ProcInterpreter::runScript] *)
Definition load (lines : list string) : Script + string :=
  let lineTokens := (λ l, tokenize (trim l)) <$> lines in
  match collect_labels 0 lines ∅ with
  | inr e => inr e
  | inl labels =>
      let none := replicate (length lines) (-1) in
      match build_pairs 0 (zip lines lineTokens) none none [] with
      | inr e => inr e
      | inl (ltr, rtl) => inl (mkScript lines lineTokens labels ltr rtl)
      end
  end.

(** *** Statements *)
Section statements.
Context (script : Script).

(* src/userland/proc/ProcInterpreter.cpp:494-501 [ProcInterpreter::runScript] *)
Definition syncLoopFramesForPc (currentPc : Z) : proc Machine unit :=
  modify (λ m, set_frames (filter (λ f, ¬ (currentPc <= loopPc f ∨ repeatPc f < currentPc)) (loopFrames m)) m).

(** The end of a statement that does not jump. *)
Definition next (inlineStmt : bool) (activePc : Z) : proc Machine (option Z) := mret (Some (if inlineStmt then activePc else activePc + 1)).

(* src/userland/proc/ProcInterpreter.cpp:311-322 [resolveLabelPc] *)
Definition resolveLabelPc (token : string) : proc Machine (option Z) :=
  match labels script !! upperAscii token with
  | Some pc => mret (Some pc)
  | None => refuse ("Unknown label: " +:+ token)
  end.

(** [EXIT]: out of the innermost loop that was entered. *)
(* src/userland/proc/ProcInterpreter.cpp:611-619 [ProcInterpreter::runScript] *)
Definition leave_loop (activePc : Z) : proc Machine (option Z) :=
  syncLoopFramesForPc activePc;;
  frames ← gets loopFrames;
  match frames with
  | [] => refuse "EXIT outside LOOP"
  | f :: frames' => modify (set_frames frames');; mret (Some (repeatPc f + 1))
  end.

(* src/userland/proc/ProcInterpreter.cpp:508-514 [ProcInterpreter::runScript] *)
Definition exec_display (inlineStmt : bool) (tokens : list string) (activePc : Z) : proc Machine (option Z) :=
  m ← get; print (joinTokens (substituteTokens m tokens 1) 0 +:+ String NL "");; next inlineStmt activePc.

(* src/userland/proc/ProcInterpreter.cpp:515-533 [ProcInterpreter::runScript] *)
Definition exec_input (inlineStmt : bool) (tokens : list string) (activePc : Z) : proc Machine (option Z) :=
  match tokens with
  | [_; name] =>
      if isReadonlySessionAtTarget name then refuse "Read-only system variable"
      else value ← next_input; assign name value;; next inlineStmt activePc
  | _ => refuse "INPUT requires a variable name"
  end.

(* src/userland/proc/ProcInterpreter.cpp:564-570 [ProcInterpreter::runScript] *)
Definition exec_go (tokens : list string) : proc Machine (option Z) :=
  match tokens with [_; label] => resolveLabelPc label | _ => refuse "GO requires a label" end.

(* src/userland/proc/ProcInterpreter.cpp:571-578 [ProcInterpreter::runScript] *)
Definition exec_tcl (inlineStmt : bool) (tokens : list string) (activePc : Z) : proc Machine (option Z) := λ m,
  let '(r, (w, i, o)) := tclBridgeFn host (joinTokens (substituteTokens m tokens 1) 0) (world m) (input m) in
  (r ;; Ok (Some (if inlineStmt then activePc else activePc + 1)), mkMachine (variables m) (loopFrames m) i (output m +:+ o) w).

(* src/userland/proc/ProcInterpreter.cpp:587-600 [ProcInterpreter::runScript] *)
Definition exec_loop (inlineStmt : bool) (activePc : Z) : proc Machine (option Z) :=
  let repeat_ := default (-1) (loopToRepeat script !! Z.to_nat activePc) in
  if repeat_ <? 0 then refuse "LOOP without REPEAT"
  else
    modify (λ m, if bool_decide (loopPc <$> head (loopFrames m) = Some activePc) then m
                 else set_frames (mkFrame activePc repeat_ :: loopFrames m) m);;
    next inlineStmt activePc.

(* src/userland/proc/ProcInterpreter.cpp:601-609 [ProcInterpreter::runScript] *)
Definition exec_repeat (activePc : Z) : proc Machine (option Z) :=
  let loop := default (-1) (repeatToLoop script !! Z.to_nat activePc) in
  if loop <? 0 then refuse "REPEAT without LOOP" else mret (Some (loop + 1)).

(* src/userland/proc/ProcInterpreter.cpp:621-641 [ProcInterpreter::runScript] *)
Definition exec_exitif (inlineStmt : bool) (tokens : list string) (activePc : Z) : proc Machine (option Z) :=
  match parseExitIfCondition tokens with
  | None => refuse "EXITIF requires EXITIF <lhs> = <rhs>"
  | Some (lhs, rhs) =>
      m ← get;
      if String.eqb (evalValue m lhs) (evalValue m rhs) then leave_loop activePc else next inlineStmt activePc
  end.

(* src/userland/proc/ProcInterpreter.cpp:642-660 [ProcInterpreter::runScript] *)
Definition exec_select (inlineStmt : bool) (tokens : list string) (activePc : Z) : proc Machine (option Z) :=
  match tokens with
  | [_; file] =>
      match selectFn host with
      | None => refuse "SELECT not available in this PROC host"
      | Some select =>
          m ← get;
          r ← call_host (select (substituteToken m file));
          let '(ok, error) := r in
          if negb ok then refuse error else next inlineStmt activePc
      end
  | _ => refuse "SELECT requires a filename"
  end.

(* src/userland/proc/ProcInterpreter.cpp:661-688 [ProcInterpreter::runScript] *)
Definition exec_readnext (inlineStmt : bool) (tokens : list string) (activePc : Z) : proc Machine (option Z) :=
  match tokens with
  | [_; name] =>
      if isReadonlySessionAtTarget name then refuse "Read-only system variable"
      else match readNextFn host with
           | None => refuse "READNEXT not available in this PROC host"
           | Some readNext =>
               r ← call_host readNext;
               match r with
               | (Some nextId, _) => assign name nextId;; next inlineStmt activePc
               | (None, error) => if negb (str_empty error) then refuse error else assign name "";; next inlineStmt activePc
               end
           end
  | _ => refuse "READNEXT requires a variable name"
  end.

(* src/userland/proc/ProcInterpreter.cpp:689-729 [ProcInterpreter::runScript] *)
Definition exec_readu (inlineStmt : bool) (tokens : list string) (activePc : Z) : proc Machine (option Z) :=
  match tokens with
  | _ :: name :: _ :: _ =>
      if isReadonlySessionAtTarget name then refuse "Read-only system variable"
      else match readUFn host with
           | None => refuse "READU not available in this PROC host"
           | Some readU =>
               m ← get;
               match parseReadUOperands m (substituteTokens m tokens 2) with
               | None => refuse "READU requires <var> <file> <id> or <var> <id> when MD DEFDATA is set"
               | Some (file, id) =>
                   r ← call_host (readU file id);
                   let '(outcome, recordBody, hardError) := r in
                   match outcome with
                   | Locked => setProcLocked;; next inlineStmt activePc
                   | Success => assign name recordBody;; clearProcErr;; next inlineStmt activePc
                   | MissingRecord => refuse "No such record"
                   | HardError => refuse hardError
                   end
               end
           end
  | _ => refuse "READU requires a variable and file/record operands"
  end.

(** The file, the identifier and the value of a WRITEU. *)
(* src/userland/proc/ProcInterpreter.cpp:741-752 [ProcInterpreter::runScript] *)
Definition writeu_operands (m : Machine) (operands : list string) : option (string * string) * string :=
  match operands with
  | file :: id :: _ :: _ => (Some (file, id), joinTokens operands 2)
  | [id; value] => match defaultDataFile m with Some d => (Some (d, id), value) | None => (None, "") end
  | _ => (None, "")
  end.

(* src/userland/proc/ProcInterpreter.cpp:730-771 [ProcInterpreter::runScript] *)
Definition exec_writeu (inlineStmt : bool) (tokens : list string) (activePc : Z) : proc Machine (option Z) :=
  if (length tokens <? 3)%nat then refuse "WRITEU requires file/record/value operands"
  else match writeUFn host with
       | None => refuse "WRITEU not available in this PROC host"
       | Some writeU =>
           m ← get;
           let '(target, value) := writeu_operands m (substituteTokens m tokens 1) in
           match target with
           | Some (file, id) =>
               if str_empty value then refuse "WRITEU requires <file> <id> <value> or <id> <value> when MD DEFDATA is set"
               else
                 r ← call_host (writeU file id value);
                 let '(outcome, hardError) := r in
                 match outcome with
                 | Locked => setProcLocked;; next inlineStmt activePc
                 | Success => clearProcErr;; next inlineStmt activePc
                 | _ => refuse hardError
                 end
           | None => refuse "WRITEU requires <file> <id> <value> or <id> <value> when MD DEFDATA is set"
           end
       end.

(* src/userland/proc/ProcInterpreter.cpp:772-798 [ProcInterpreter::runScript] *)
Definition exec_release (inlineStmt : bool) (tokens : list string) (activePc : Z) : proc Machine (option Z) :=
  if (length tokens <? 2)%nat then refuse "RELEASE requires file/record operands"
  else match releaseFn host with
       | None => refuse "RELEASE not available in this PROC host"
       | Some release =>
           m ← get;
           match parseFileRecordPair m (substituteTokens m tokens 1) with
           | None => refuse "RELEASE requires <file> <id> or <id> when MD DEFDATA is set"
           | Some (file, id) =>
               r ← call_host (release file id);
               let '(ok, hardError) := r in
               if negb ok then refuse hardError else clearProcErr;; next inlineStmt activePc
           end
       end.

(* src/userland/proc/ProcInterpreter.cpp:799-809 [ProcInterpreter::runScript] *)
Definition exec_assignment (inlineStmt : bool) (tokens : list string) (activePc : Z) : proc Machine (option Z) :=
  match tokens with
  | name :: _ =>
      if isReadonlySessionAtTarget name then refuse "Read-only system variable"
      else m ← get; assign name (joinTokens (substituteTokens m tokens 2) 0);; next inlineStmt activePc
  | [] => refuse "Unknown PROC statement"
  end.

(** The chosen branch of an IF is a statement that runs inline, from the IF's line:
    a line number that it leaves alone means that it did not jump. *)
(* src/userland/proc/ProcInterpreter.cpp:534-563 [ProcInterpreter::runScript] *)
Definition exec_if (exec : bool → list string → Z → proc Machine (option Z))
    (inlineStmt : bool) (tokens : list string) (activePc : Z) : proc Machine (option Z) :=
  match parseIfParts tokens with
  | None => refuse "IF requires IF <lhs> = <rhs> THEN GO <label>"
  | Some parts =>
      m ← get;
      let truthy := String.eqb (evalValue m (lhsTokens parts)) (evalValue m (rhsTokens parts)) in
      match (if truthy then thenTokens parts else elseTokens parts) with
      | [] => next inlineStmt activePc
      | branchTokens =>
          r ← exec true branchTokens activePc;
          match r with
          | None => mret None
          | Some branchPc =>
              if inlineStmt then mret (Some branchPc)
              else if branchPc =? activePc then next false activePc
              else mret (Some branchPc)
          end
      end
  end.

(** [fuel]: the nesting of IFs; the number of words is enough ([exec_fuel]). *)
(* src/userland/proc/ProcInterpreter.cpp:503-813 [ProcInterpreter::runScript] *)
Fixpoint execStatement (fuel : nat) (inlineStmt : bool) (tokens : list string) (activePc : Z) : proc Machine (option Z) :=
  match fuel with
  | O => lift (Undefined "out of fuel")
  | S fuel' =>
      match parseStatement tokens with
      | Display => exec_display inlineStmt tokens activePc
      | Input => exec_input inlineStmt tokens activePc
      | If => exec_if (execStatement fuel') inlineStmt tokens activePc
      | Go => exec_go tokens
      | Tcl => exec_tcl inlineStmt tokens activePc
      | End_ => mret (Some (Z.of_nat (length (lines script))))
      | Return_ => mret (Some (Z.of_nat (length (lines script))))
      | Loop => exec_loop inlineStmt activePc
      | Repeat => exec_repeat activePc
      | Exit => leave_loop activePc
      | ExitIf => exec_exitif inlineStmt tokens activePc
      | Select => exec_select inlineStmt tokens activePc
      | ReadNext => exec_readnext inlineStmt tokens activePc
      | ReadU => exec_readu inlineStmt tokens activePc
      | WriteU => exec_writeu inlineStmt tokens activePc
      | Release => exec_release inlineStmt tokens activePc
      | Assignment => exec_assignment inlineStmt tokens activePc
      | Unknown => refuse "Unknown PROC statement"
      end
  end.

(** One turn of the main loop: the next line number, [None] when the script fails. *)
(* src/userland/proc/ProcInterpreter.cpp:816-829 [ProcInterpreter::runScript] *)
Definition turn (pc : Z) : proc Machine (option Z) :=
  if skipped (default "" (lines script !! Z.to_nat pc)) then mret (Some (pc + 1))
  else
    syncLoopFramesForPc pc;;
    match default [] (lineTokens script !! Z.to_nat pc) with
    | [] => mret (Some (pc + 1))
    | tokens => execStatement (S (length tokens)) false tokens pc
    end.

(** The main loop for at most [fuel] turns; [None]: it goes on. *)
(* src/userland/proc/ProcInterpreter.cpp:815-829 [ProcInterpreter::runScript] *)
Fixpoint run (fuel : nat) (pc : Z) : proc Machine (option bool) :=
  match fuel with
  | O => mret None
  | S fuel' =>
      if (0 <=? pc) && (pc <? Z.of_nat (length (lines script))) then
        r ← turn pc;
        match r with None => mret (Some false) | Some pc' => run fuel' pc' end
      else mret (Some true)
  end.
End statements.

(* src/userland/proc/ProcInterpreter.cpp:485-488 [ProcInterpreter::runScript] *)
Definition parameters (params : list string) : gmap string string :=
  list_to_map (imap (λ i p, ("P" +:+ to_string (Z.of_nat i + 1), p)) params).

(** [runScript] for at most [fuel] turns. *)
(* src/userland/proc/ProcInterpreter.cpp:437-493 [ProcInterpreter::runScript] *)
Definition runScript (fuel : nat) (lines params : list string) (stdin : string) (w : W) : outcome (option bool) * Machine :=
  let start := mkMachine (parameters params) [] stdin "" w in
  match load lines with
  | inr e => (Ok (Some false), (print ("Error: " +:+ e +:+ String NL "") start).2)
  | inl script => run script fuel 0 start
  end.
End interpreter.
