(* ===== verification/ProcRun.v ===== *)
(** * What PROC scripts compute

    A reference semantics for scripts without GO: a script is a tree of lines and
    loops, a statement has an effect on the variables, the input, the output and the
    host and tells how to go on, a loop repeats its body until EXIT leaves it. The
    theorem of this file is that the interpreter's line numbers, its table of
    LOOP/REPEAT pairs and its stack of loop frames implement exactly this, whether
    the script ends or not. A second theorem is about all scripts: the names of the
    session are never shadowed. *)

From Stdlib Require Import Ascii String.
From S2P Require Import Prelude CLib Words Proc.
From stdpp Require Import options.
Local Open Scope Z_scope.

(** ** The reference semantics *)
Inductive flow := Continue | Leave | Halt | Failed.

Section reference.
Context {W : Type} (host : @ProcHost W).

(** The statements that do not jump. *)
Definition simple (c : Command) : option (bool → list string → Z → proc (@Machine W) (option Z)) :=
  match c with
  | Display => Some (exec_display host)
  | Input => Some exec_input
  | Tcl => Some (exec_tcl host)
  | Select => Some (exec_select host)
  | ReadNext => Some (exec_readnext host)
  | ReadU => Some (exec_readu host)
  | WriteU => Some (exec_writeu host)
  | Release => Some (exec_release host)
  | Assignment => Some (exec_assignment host)
  | _ => None
  end.

Definition fail (s : string) : proc (@Machine W) flow := refuse s;; mret Failed.

Fixpoint statement (fuel : nat) (tokens : list string) : proc (@Machine W) flow :=
  match fuel with
  | O => lift (Undefined "out of fuel")
  | S fuel' =>
      match parseStatement tokens with
      | If =>
          match parseIfParts tokens with
          | None => fail "IF requires IF <lhs> = <rhs> THEN GO <label>"
          | Some parts =>
              m ← get;
              match (if String.eqb (evalValue host m (lhsTokens parts)) (evalValue host m (rhsTokens parts))
                     then thenTokens parts else elseTokens parts) with
              | [] => mret Continue
              | branch => statement fuel' branch
              end
          end
      | End_ | Return_ => mret Halt
      | Exit => mret Leave
      | ExitIf =>
          match parseExitIfCondition tokens with
          | None => fail "EXITIF requires EXITIF <lhs> = <rhs>"
          | Some (lhs, rhs) => m ← get; mret (if String.eqb (evalValue host m lhs) (evalValue host m rhs) then Leave else Continue)
          end
      | Loop => fail "LOOP without REPEAT"
      | Repeat => fail "REPEAT without LOOP"
      | Unknown => fail "Unknown PROC statement"
      | c =>
          match simple c with
          | Some exec => r ← exec true tokens 0; mret (match r : option Z with Some _ => Continue | None => Failed end)
          | None => mret Failed
          end
      end
  end.

(** A script as a tree. *)
Inductive block := Nil | Line (text : string) (rest : block) | Loops (open : string) (body : block) (close : string) (rest : block).

(** [fuel]: how many times loops may begin their body. *)
Fixpoint eval (fuel : nat) : block → proc (@Machine W) (option flow) :=
  fix go b :=
    match b with
    | Nil => mret (Some Continue)
    | Line text rest =>
        if skipped text then go rest
        else
          f ← statement (S (length (tokenize (trim text)))) (tokenize (trim text));
          match f with Continue => go rest | _ => mret (Some f) end
    | Loops _ body _ rest =>
        match fuel with
        | O => mret None
        | S fuel' =>
            r ← go body;
            match r with
            | Some Continue => eval fuel' b
            | Some Leave => go rest
            | _ => mret r
            end
        end
    end.

(** The script's result: [None], not yet; [false] after an error. *)
Definition reference (fuel : nat) (b : block) : proc (@Machine W) (option bool) :=
  r ← eval fuel b;
  match r with
  | None => mret None
  | Some Failed => mret (Some false)
  | Some Leave => refuse "EXIT outside LOOP";; mret (Some false)
  | Some _ => mret (Some true)
  end.
End reference.

(** The lines of a tree, and the condition that the tree is the structure of its
    lines: no GO, LOOP and REPEAT where the tree says. *)
Fixpoint render (b : block) : list string :=
  match b with
  | Nil => []
  | Line text rest => text :: render rest
  | Loops open body close rest => open :: render body ++ close :: render rest
  end.

Fixpoint no_go (fuel : nat) (tokens : list string) : bool :=
  match fuel with
  | O => true
  | S fuel' =>
      match parseStatement tokens with
      | Go => false
      | If => match parseIfParts tokens with
              | Some parts => no_go fuel' (thenTokens parts) && no_go fuel' (elseTokens parts)
              | None => true
              end
      | _ => true
      end
  end.

Definition command_of (line : string) : option Command :=
  if skipped line then None else Some (parseStatement (tokenize (trim line))).

Fixpoint structured (b : block) : Prop :=
  match b with
  | Nil => True
  | Line text rest =>
      command_of text ≠ Some Loop ∧ command_of text ≠ Some Repeat ∧
      no_go (S (length (tokenize (trim text)))) (tokenize (trim text)) = true ∧ structured rest
  | Loops open body close rest => command_of open = Some Loop ∧ structured body ∧ command_of close = Some Repeat ∧ structured rest
  end.

(** ** Statements and loop frames *)
Section frames.
Context {W : Type} (host : @ProcHost W).
Abbreviation Machine := (@Machine W).

(** [p] neither reads nor writes the loop frames. *)
Definition unframed {A} (p : proc Machine A) : Prop := ∀ F m, p (set_frames F m) = ((p m).1, set_frames F (p m).2).

Lemma unframed_bind {A B} (p : proc Machine A) (f : A → proc Machine B) : unframed p → (∀ a, unframed (f a)) → unframed (p ≫= f).
Proof. intros Hp Hf F m. unfold mbind, proc_bind. rewrite Hp. destruct (p m) as [[a|e|u] m']; cbn; [apply Hf|done..]. Qed.

Lemma unframed_ret {A} (a : A) : unframed (mret a).
Proof. done. Qed.

Lemma unframed_print s : unframed (print s).
Proof. done. Qed.

Lemma unframed_refuse s : unframed (refuse s).
Proof. done. Qed.

Lemma unframed_assign n v : unframed (assign n v).
Proof. done. Qed.

Lemma unframed_call {A} (f : proc W A) : unframed (call_host f).
Proof. intros F m. unfold call_host. cbn. by destruct (f (world m)). Qed.

Lemma unframed_input : unframed next_input.
Proof. intros F m. unfold next_input. cbn. by destruct (getline NL (input m)) as [[l r]|]. Qed.

Lemma unframed_next i pc : unframed (next i pc).
Proof. done. Qed.

(** Reading the whole machine, to look at the variables and at the host only. *)
Lemma unframed_get {B} (f : Machine → proc Machine B) : (∀ m F, f (set_frames F m) = f m) → (∀ m, unframed (f m)) → unframed (m ← get; f m).
Proof. intros Hf Hu F m. unfold get. cbv [mbind proc_bind]. rewrite Hf. apply Hu. Qed.

Lemma unframed_tcl i tokens pc : unframed (exec_tcl host i tokens pc).
Proof. intros F m. unfold exec_tcl. cbn. by destruct (tclBridgeFn _ _ _ _) as [r [[w i'] o]]. Qed.
End frames.

Create HintDb unframed.
#[export] Hint Resolve unframed_ret unframed_print unframed_refuse unframed_assign unframed_call unframed_input unframed_next unframed_tcl : unframed.
Ltac unframed := repeat first
  [ match goal with
    | |- unframed (get ≫= _) => apply unframed_get; [reflexivity|intros]
    | |- unframed (_ ≫= _) => apply unframed_bind; [solve [auto with unframed]|intros]
    end
  | solve [auto with unframed] | case_match ].

Section simple_statements.
Context {W : Type} (host : @ProcHost W).
Abbreviation Machine := (@Machine W).

Lemma simple_unframed c exec i tokens pc : simple host c = Some exec → unframed (exec i tokens pc).
Proof.
  destruct c; intros [= <-]; try solve [unfold exec_display, exec_input, exec_select, exec_readnext, exec_readu, exec_writeu, exec_release,
    exec_assignment, clearProcErr, setProcLocked; unframed].
Qed.

(** A statement that does not jump goes on with the next line. *)
Definition onward (p : bool → Z → proc Machine (option Z)) : Prop := ∀ i pc m,
  p i pc m = (match (p true 0 m).1 with Ok (Some _) => Ok (Some (if i then pc else pc + 1)) | o => o end, (p true 0 m).2).

Lemma onward_next : onward next.
Proof. done. Qed.

Lemma onward_refuse s : onward (λ _ _, refuse s).
Proof. done. Qed.

Lemma onward_bind {A} (q : proc Machine A) (f : A → bool → Z → proc Machine (option Z)) :
  (∀ a, onward (f a)) → onward (λ i pc, q ≫= λ a, f a i pc).
Proof. intros Hf i pc m. unfold mbind, proc_bind. destruct (q m) as [[a|e|u] m']; cbn; [apply Hf|done..]. Qed.

Lemma onward_tcl tokens : onward (λ i, exec_tcl host i tokens).
Proof. intros i pc m. unfold exec_tcl. destruct (tclBridgeFn _ _ _ _) as [[u|e|u] [[w i'] o]]; done. Qed.

Lemma simple_onward c exec tokens : simple host c = Some exec → onward (λ i, exec i tokens).
Proof.
  destruct c; intros [= <-]; try apply onward_tcl;
  unfold exec_display, exec_input, exec_select, exec_readnext, exec_readu, exec_writeu, exec_release, exec_assignment, clearProcErr, setProcLocked;
  repeat first
    [ match goal with
      | |- onward (λ i pc, next i pc) => apply onward_next
      | |- onward (λ _ _, refuse _) => apply onward_refuse
      | |- onward (λ _ _, _ ≫= _) => apply onward_bind; intros
      end | progress cbn beta | case_match ].
Qed.
End simple_statements.

(** ** A statement of the interpreter is a statement of the reference *)
Section refinement.
Context {W : Type} (host : @ProcHost W) (script : Script).
Abbreviation Machine := (@Machine W).
Abbreviation size_ := (Z.of_nat (length (lines script))).

(** How the interpreter goes on after a statement at line [pc], in the loops [F]. *)
Definition followed (inlineStmt : bool) (pc : Z) (F : list LoopFrame) (r : outcome flow * Machine) : outcome (option Z) * Machine :=
  match r with
  | (Ok Continue, m) => (Ok (Some (if inlineStmt then pc else pc + 1)), set_frames F m)
  | (Ok Leave, m) => match F with [] => refuse "EXIT outside LOOP" (set_frames F m) | f :: F' => (Ok (Some (repeatPc f + 1)), set_frames F' m) end
  | (Ok Halt, m) => (Ok (Some size_), set_frames F m)
  | (Ok Failed, m) => (Ok None, set_frames F m)
  | (Throw e, m) => (Throw e, set_frames F m)
  | (Undefined u, m) => (Undefined u, set_frames F m)
  end.

Definition encloses (pc : Z) (f : LoopFrame) : Prop := loopPc f < pc ≤ repeatPc f.

Lemma sync_enclosed pc F (m : Machine) : Forall (encloses pc) F → syncLoopFramesForPc pc (set_frames F m) = (Ok tt, set_frames F m).
Proof.
  intros HF. unfold syncLoopFramesForPc, modify.
  assert (filter (λ f, ¬ (pc <= loopPc f ∨ repeatPc f < pc)) F = F) as E; [|cbn; by rewrite E].
  induction HF as [|f F Hf HF IH]; [done|]. rewrite filter_cons. rewrite decide_True by (unfold encloses in Hf; lia). by rewrite IH.
Qed.

Lemma leave_loop_follows i pc F (m : Machine) : Forall (encloses pc) F → leave_loop pc (set_frames F m) = followed i pc F (Ok Leave, m).
Proof.
  intros HF. unfold leave_loop. rewrite (proc_bind_ok _ _ _ _ _ (sync_enclosed pc F m HF)). by destruct F.
Qed.

(** In a line that is neither LOOP nor REPEAT. *)
Definition unpaired (pc : Z) : Prop := loopToRepeat script !! Z.to_nat pc = Some (-1) ∧ repeatToLoop script !! Z.to_nat pc = Some (-1).

Definition effect (exec : bool → list string → Z → proc Machine (option Z)) (tokens : list string) : proc Machine flow :=
  r ← exec true tokens 0; mret (match r : option Z with Some _ => Continue | None => Failed end).

Lemma simple_statement c exec i tokens pc F m : simple host c = Some exec →
  exec i tokens pc (set_frames F m) = followed i pc F (effect exec tokens m).
Proof.
  intros Hc. rewrite (simple_onward _ _ _ tokens Hc), (simple_unframed _ _ _ _ _ _ Hc). unfold effect, mbind, proc_bind.
  by destruct (exec true tokens 0 m) as [[[z|]|e|u] m'].
Qed.

Lemma fail_follows s i pc F m : refuse s (set_frames F m) = followed i pc F (fail s m).
Proof. done. Qed.

(** The end of an IF. *)
Definition after_branch (i : bool) (pc : Z) (r : option Z) : proc Machine (option Z) :=
  match r with
  | None => mret None
  | Some branchPc => if i then mret (Some branchPc) else if branchPc =? pc then next false pc else mret (Some branchPc)
  end.

Definition run_branch (fuel : nat) (i : bool) (tokens : list string) (pc : Z) : proc Machine (option Z) :=
  match tokens with [] => next i pc | t :: ts => r ← execStatement host script fuel true (t :: ts) pc; after_branch i pc r end.

Lemma branch_follows i pc F r : Forall (encloses pc) F → pc < size_ →
  match followed true pc F r with
  | (Ok a, m) => after_branch i pc a m
  | (Throw e, m) => (Throw e, m)
  | (Undefined u, m) => (Undefined u, m)
  end = followed i pc F r.
Proof.
  intros HF Hs. destruct r as [[[]|e|u] m]; cbn; try done.
  - destruct i; [done|]. cbn. by rewrite Z.eqb_refl.
  - destruct HF as [|f F Hf HF]; [done|]. cbn. destruct i; [done|]. by rewrite (proj2 (Z.eqb_neq _ _)) by (unfold encloses in Hf; lia).
  - destruct i; [done|]. by rewrite (proj2 (Z.eqb_neq _ _)) by lia.
Qed.

Lemma evalValue_frames F m tokens : evalValue host (set_frames F m) tokens = evalValue host m tokens.
Proof. done. Qed.

Lemma statement_refines fuel : ∀ i tokens pc F m,
  Forall (encloses pc) F → unpaired pc → pc < size_ → no_go fuel tokens = true →
  (i = false → parseStatement tokens ≠ Loop ∧ parseStatement tokens ≠ Repeat) →
  execStatement host script fuel i tokens pc (set_frames F m) = followed i pc F (statement host fuel tokens m).
Proof.
  induction fuel as [|fuel IH]; intros i tokens pc F m HF Hpc Hs Hgo Hi; [done|].
  cbn [execStatement no_go statement] in *.
  destruct (parseStatement tokens) eqn:Ec; try done; try match goal with |- context [simple host ?c] => refine (simple_statement c _ i tokens pc F m eq_refl) end.
  - unfold exec_if. destruct (parseIfParts tokens) as [parts|]; [|by apply fail_follows].
    unfold get, mbind, proc_bind. rewrite !evalValue_frames. apply andb_true_iff in Hgo as [Ht He].
    assert (Hbranch : ∀ ts, no_go fuel ts = true → run_branch fuel i ts pc (set_frames F m) =
      followed i pc F (match ts with [] => mret Continue | t :: ts' => statement host fuel (t :: ts') end m)).
    { intros [|t ts] Hts; [done|]. unfold run_branch, mbind, proc_bind. rewrite IH by done. by apply branch_follows. }
    by destruct (String.eqb _ _); [exact (Hbranch _ Ht)|exact (Hbranch _ He)].
  - unfold exec_loop. destruct Hpc as [-> _]. cbn. apply fail_follows.
  - unfold exec_repeat. destruct Hpc as [_ ->]. cbn. apply fail_follows.
  - by apply leave_loop_follows.
  - unfold exec_exitif. destruct (parseExitIfCondition tokens) as [[lhs rhs]|]; [|by apply fail_follows].
    unfold get, mbind, proc_bind. rewrite !evalValue_frames. destruct (String.eqb _ _); [by apply leave_loop_follows|done].
Qed.

(** A line that is not skipped has a word. *)
Lemma ltrim_head p s : ltrim p s = "" ∨ ∃ c r, ltrim p s = String c r ∧ p c = false.
Proof. induction s as [|c s IH]; cbn; [by left|]. destruct (p c) eqn:E; [done|]. right. eauto. Qed.

Lemma rtrim_head p c r : p c = false → ∃ r', rtrim p (String c r) = String c r'.
Proof. intros H. cbn. rewrite H. destruct (rtrim p r); eauto. Qed.

Lemma words_of_line l : skipped l = false → tokenize (trim l) ≠ [].
Proof.
  unfold skipped. intros [He _]%orb_false_iff. unfold trim, trim_by in *. destruct (ltrim_head isspace l) as [E|(c & r & E & Hc)]; rewrite E in *; [done|].
  destruct (rtrim_head isspace c r Hc) as [r' E']. rewrite E'. unfold tokenize, all_words. cbn [words]. unfold extract_word. rewrite ltrim_keep by done. cbn. rewrite Hc.
  by destruct (read_word r').
Qed.

(** ** Blocks *)
Fixpoint size (b : block) : nat :=
  match b with
  | Nil => 0
  | Line _ rest => 1 + size rest
  | Loops _ body _ rest => 2 + size body + size rest
  end.

Lemma length_render b : length (render b) = size b.
Proof. induction b; cbn; [done|by f_equal|]. rewrite length_app. cbn. lia. Qed.

(** The lines of [b] start at [i], and its loops are paired there. *)
Fixpoint paired (ltr rtl : list Z) (i : nat) (b : block) : Prop :=
  match b with
  | Nil => True
  | Line _ rest => ltr !! i = Some (-1) ∧ rtl !! i = Some (-1) ∧ paired ltr rtl (S i) rest
  | Loops _ body _ rest =>
      ltr !! i = Some (Z.of_nat (i + 1 + size body)) ∧ rtl !! (i + 1 + size body)%nat = Some (Z.of_nat i) ∧
      paired ltr rtl (S i) body ∧ paired ltr rtl (i + 2 + size body) rest
  end.

Definition placed (i : nat) (ls : list string) : Prop := ∀ k l, ls !! k = Some l → lines script !! (i + k)%nat = Some l.

Context (Htokens : lineTokens script = (λ l, tokenize (trim l)) <$> lines script).

Lemma placed_head i l ls : placed i (l :: ls) → lines script !! i = Some l ∧ placed (S i) ls.
Proof. intros H. split; [rewrite <- (Nat.add_0_r i); by apply H|]. intros k x Hk. rewrite Nat.add_succ_comm. by apply H. Qed.

Lemma placed_app i l1 l2 : placed i (l1 ++ l2) → placed i l1 ∧ placed (i + length l1) l2.
Proof.
  intros H. split; intros k x Hk; [apply H; by apply lookup_app_l_Some|]. rewrite <- Nat.add_assoc. apply H.
  rewrite lookup_app_r by lia. by rewrite Nat.add_comm, Nat.add_sub.
Qed.

Lemma placed_range i l ls : placed i (l :: ls) → Z.of_nat i < size_.
Proof. intros [H _]%placed_head. apply lookup_lt_Some in H. lia. Qed.

(** *** The main loop *)
Definition result := nat → outcome (option bool) * Machine.

(** From line [pc] the interpreter comes to [c] after some turns. *)
Definition reaches (pc : Z) (m : Machine) (c : result) : Prop := ∃ k, ∀ j, run host script (k + j) pc m = c j.

Lemma reaches_now pc m : reaches pc m (λ j, run host script j pc m).
Proof. by exists 0%nat. Qed.

Lemma reaches_trans pc m pc' m' c : reaches pc m (λ j, run host script j pc' m') → reaches pc' m' c → reaches pc m c.
Proof. intros [k Hk] [k' Hk']. exists (k + k')%nat. intros j. by rewrite <- Nat.add_assoc, Hk, Hk'. Qed.

Lemma run_turn i j m : Z.of_nat i < size_ → run host script (S j) (Z.of_nat i) m =
  (r ← turn host script (Z.of_nat i); match r with None => mret (Some false) | Some pc' => run host script j pc' end) m.
Proof. intros Hi. cbn [run]. by rewrite (proj2 (Z.leb_le 0 (Z.of_nat i))), (proj2 (Z.ltb_lt _ _)) by lia. Qed.

Definition continues (r : outcome (option Z) * Machine) : result := λ j,
  match r with
  | (Ok (Some pc'), m) => run host script j pc' m
  | (Ok None, m) => (Ok (Some false), m)
  | (Throw e, m) => (Throw e, m)
  | (Undefined u, m) => (Undefined u, m)
  end.

Lemma run_statement i l j F m : lines script !! i = Some l → skipped l = false → Forall (encloses (Z.of_nat i)) F →
  run host script (S j) (Z.of_nat i) (set_frames F m) =
  continues (execStatement host script (S (length (tokenize (trim l)))) false (tokenize (trim l)) (Z.of_nat i) (set_frames F m)) j.
Proof using Htokens.
  intros Hl Hs HF. rewrite run_turn by (apply lookup_lt_Some in Hl; lia). unfold turn. rewrite Nat2Z.id, Hl. cbn [from_option id default]. rewrite Hs.
  assert (lineTokens script !! i = Some (tokenize (trim l))) as -> by (rewrite Htokens, list_lookup_fmap, Hl; done). cbn [from_option id default].
  pose proof (words_of_line l Hs) as Hne. destruct (tokenize (trim l)) as [|t ts]; [done|].
  rewrite (proc_bind_ok _ _ _ _ _ (proc_bind_ok _ _ _ _ _ (sync_enclosed _ F m HF))) || idtac.
  unfold mbind at 1. unfold proc_bind at 1. unfold mbind at 1, proc_bind at 1. rewrite (sync_enclosed _ F m HF).
  unfold continues. destruct (execStatement _ _ _ _ _ _ _) as [[[]| |] ?]; done.
Qed.

Lemma run_skipped i l j m : lines script !! i = Some l → skipped l = true →
  run host script (S j) (Z.of_nat i) m = run host script j (Z.of_nat (S i)) m.
Proof.
  intros Hl Hs. rewrite run_turn by (apply lookup_lt_Some in Hl; lia). unfold turn. rewrite Nat2Z.id, Hl. cbn [from_option id default]. rewrite Hs.
  unfold mbind, proc_bind. cbn. f_equal. lia.
Qed.

(** How the interpreter goes on after a block that ends at line [e], in the loops [F]. *)
Definition after_block (e : nat) (F : list LoopFrame) (r : outcome (option flow) * Machine) : result := λ j,
  match r with
  | (Ok (Some f), m) => continues (followed true (Z.of_nat e) F (Ok f, m)) j
  | (Ok None, m) => (Ok None, m)
  | (Throw e, m) => (Throw e, set_frames F m)
  | (Undefined u, m) => (Undefined u, set_frames F m)
  end.

(** The state before LOOP, and at the head of the body when the loop is repeated. *)
Definition frame_of (i : nat) (body : block) : LoopFrame := mkFrame (Z.of_nat i) (Z.of_nat (i + 1 + size body)).

Definition covers (i n : nat) (f : LoopFrame) : Prop := loopPc f < Z.of_nat i ∧ Z.of_nat (i + n) ≤ repeatPc f.

Lemma covers_encloses i n F : Forall (covers i n) F → Forall (encloses (Z.of_nat i)) F.
Proof. intros H. eapply Forall_impl; [exact H|]. unfold covers, encloses. intros f. lia. Qed.

Lemma run_loop i body close rest open j F m : placed i (render (Loops open body close rest)) → command_of open = Some Loop →
  paired (loopToRepeat script) (repeatToLoop script) i (Loops open body close rest) → Forall (covers i (size (Loops open body close rest))) F →
  run host script (S j) (Z.of_nat i) (set_frames F m) = run host script j (Z.of_nat (S i)) (set_frames (frame_of i body :: F) m).
Proof using Htokens.
  intros Hp Ho Hpair HF. apply placed_head in Hp as [Hl _]. unfold command_of in Ho. destruct (skipped open) eqn:Es; [done|]. injection Ho as Ho.
  rewrite (run_statement _ _ _ _ _ Hl Es (covers_encloses _ _ _ HF)). cbn [execStatement]. rewrite Ho. unfold exec_loop.
  rewrite Nat2Z.id. destruct Hpair as [-> _]. cbn [from_option id default]. rewrite (proj2 (Z.ltb_ge _ 0)) by lia.
  unfold mbind, proc_bind, modify. rewrite bool_decide_false.
  - cbn. f_equal. lia.
  - destruct F as [|f F]; [done|]. cbn. inv HF. unfold covers in *. intros [= E]. lia.
Qed.

Lemma run_repeat i body close rest open j F m : placed i (render (Loops open body close rest)) → command_of close = Some Repeat →
  paired (loopToRepeat script) (repeatToLoop script) i (Loops open body close rest) → Forall (covers i (size (Loops open body close rest))) F →
  run host script (S j) (Z.of_nat (S i + size body)) (set_frames (frame_of i body :: F) m) =
  run host script j (Z.of_nat (S i)) (set_frames (frame_of i body :: F) m).
Proof using Htokens.
  intros Hp Ho (_ & Hr & _) HF. apply placed_head in Hp as [_ Hp]. apply placed_app in Hp as [_ Hp]. rewrite length_render in Hp.
  apply placed_head in Hp as [Hl _]. unfold command_of in Ho. destruct (skipped close) eqn:Es; [done|]. injection Ho as Ho.
  rewrite (run_statement _ _ _ _ _ Hl Es).
  - cbn [execStatement]. rewrite Ho. unfold exec_repeat. rewrite Nat2Z.id. replace (S i + size body)%nat with (i + 1 + size body)%nat by lia. rewrite Hr.
    cbn [from_option id default]. rewrite (proj2 (Z.ltb_ge _ 0)) by lia. cbn. f_equal. lia.
  - constructor; [unfold encloses; cbn; lia|]. eapply Forall_impl; [exact HF|]. unfold covers, encloses. cbn. lia.
Qed.

(** *** The simulation *)
Lemma run_less j pc m : (run host script (S j) pc m).1 = Ok None → (run host script j pc m).1 = Ok None.
Proof.
  revert pc m. induction j as [|j IH]; intros pc m; [done|]. intros H. cbn [run] in *. case_match; [|done].
  unfold mbind, proc_bind in *. destruct (turn host script pc m) as [[[pc'|]|e|u] m']; [|done..]. by apply IH.
Qed.

Lemma run_less_le j j' pc m : (j ≤ j')%nat → (run host script j' pc m).1 = Ok None → (run host script j pc m).1 = Ok None.
Proof. induction 1 as [|j' Hj IH]; [done|]. intros H. by apply IH, run_less. Qed.

(** What the simulation promises for a result [r] of the reference with fuel [n]. A
    script that ends inside loops leaves their frames behind. *)
Definition in_loops (r : outcome (option flow)) : Prop := match r with Ok (Some Continue) | Ok (Some Leave) => True | _ => False end.

Definition simulates (n : nat) (pc : Z) (m : Machine) (e : nat) (F : list LoopFrame) (r : outcome (option flow) * Machine) : Prop :=
  match r with
  | (Ok None, _) => (run host script n pc m).1 = Ok None
  | _ => ∃ F', (in_loops r.1 → F' = F) ∧ reaches pc m (after_block e F' r)
  end.

Lemma simulates_after n pc m k pc' m' e F r : (∀ j, run host script (k + j) pc m = run host script j pc' m') →
  simulates n pc' m' e F r → simulates n pc m e F r.
Proof.
  intros Hk. destruct r as [[[f|]|x|u] m1]; unfold simulates; try (intros (F' & HF' & Hr); exists F'; split; [exact HF'|]; eapply reaches_trans; [by exists k|exact Hr]).
  intros H. apply (run_less_le n (k + n)); [lia|]. by rewrite Hk.
Qed.

(** After at least one turn, a turn of fuel less will do. *)
Lemma simulates_turn n pc m k pc' m' e F r : (∀ j, run host script (S k + j) pc m = run host script j pc' m') →
  simulates n pc' m' e F r → simulates (S n) pc m e F r.
Proof.
  intros Hk. destruct r as [[[f|]|x|u] m1]; unfold simulates; try (intros (F' & HF' & Hr); exists F'; split; [exact HF'|]; eapply reaches_trans; [by exists (S k)|exact Hr]).
  intros H. apply (run_less_le (S n) (S k + n)); [lia|]. by rewrite Hk.
Qed.

Lemma block_placed i body close rest open : placed i (render (Loops open body close rest)) →
  placed (S i) (render body) ∧ placed (i + 2 + size body) (render rest).
Proof.
  intros [_ Hp]%placed_head. apply placed_app in Hp as [Hb Hp]. split; [done|]. rewrite length_render in Hp.
  apply placed_head in Hp as [_ Hp]. by replace (i + 2 + size body)%nat with (S (S i + size body)) by lia.
Qed.

Lemma covers_less i n i' n' F : (i ≤ i')%nat → (i' + n' ≤ i + n)%nat → Forall (covers i n) F → Forall (covers i' n') F.
Proof. intros Hi Hn H. eapply Forall_impl; [exact H|]. unfold covers. intros f. lia. Qed.

Definition refines (b : block) : Prop := ∀ n i F m, structured b → placed i (render b) →
  paired (loopToRepeat script) (repeatToLoop script) i b → Forall (covers i (size b)) F →
  simulates n (Z.of_nat i) (set_frames F m) (i + size b) F (eval host n b m).

Lemma refines_line text rest : refines rest → refines (Line text rest).
Proof using Htokens.
  intros IH n i F m (H1 & H2 & Hgo & Hst) Hp (Hl & Hr & Hpair) HF. pose proof Hp as Hrange%placed_range.
  apply placed_head in Hp as [Htext Hp]. assert (HF' : Forall (covers (S i) (size rest)) F) by (eapply covers_less; [..|exact HF]; cbn; lia).
  replace (i + size (Line text rest))%nat with (S i + size rest)%nat by (cbn; lia).
  assert (eval host n (Line text rest) m = if skipped text then eval host n rest m else
    (f ← statement host (S (length (tokenize (trim text)))) (tokenize (trim text));
     match f with Continue => eval host n rest | _ => mret (Some f) end) m) as -> by (destruct n; cbn; by case_match).
  destruct (skipped text) eqn:Es.
  { apply (simulates_after _ _ _ 1 (Z.of_nat (S i)) (set_frames F m)); [|by apply IH]. intros j. by apply run_skipped with text. }
  assert (Hcmd : parseStatement (tokenize (trim text)) ≠ Loop ∧ parseStatement (tokenize (trim text)) ≠ Repeat).
  { unfold command_of in H1, H2. rewrite Es in H1, H2. split; congruence. }
  assert (Hturn : ∀ j, run host script (S j) (Z.of_nat i) (set_frames F m) =
    continues (followed false (Z.of_nat i) F (statement host (S (length (tokenize (trim text)))) (tokenize (trim text)) m)) j).
  { intros j. rewrite (run_statement _ _ _ _ _ Htext Es (covers_encloses _ _ _ HF)). f_equal.
    apply statement_refines; [by eapply covers_encloses|unfold unpaired; by rewrite Nat2Z.id|done|done|done]. }
  unfold mbind at 1, proc_bind at 1. destruct (statement _ _ _ m) as [[f|e|u] m1]; [|by exists F; split; [|exists 1%nat]..].
  destruct f; try (by exists F; split; [|exists 1%nat]).
  apply (simulates_after _ _ _ 1 (Z.of_nat (S i)) (set_frames F m1)); [|by apply IH]. intros j. cbn [Nat.add]. rewrite Hturn. cbn. f_equal. lia.
Qed.

Lemma refines_loops open body close rest : refines body → refines rest → refines (Loops open body close rest).
Proof using Htokens.
  intros IHb IHr n i F m (Ho & Hsb & Hc & Hsr) Hp Hpair HF. pose proof (block_placed _ _ _ _ _ Hp) as [Hpb Hpr].
  pose proof Hpair as (_ & _ & Hpairb & Hpairr).
  assert (HFb : Forall (covers (S i) (size body)) (frame_of i body :: F)).
  { constructor; [unfold covers; cbn; lia|]. eapply covers_less; [..|exact HF]; cbn; lia. }
  assert (HFr : Forall (covers (i + 2 + size body) (size rest)) F) by (eapply covers_less; [..|exact HF]; cbn; lia).
  set (e := (i + size (Loops open body close rest))%nat). set (b := Loops open body close rest) in *.
  apply (simulates_after _ _ _ 1 (Z.of_nat (S i)) (set_frames (frame_of i body :: F) m)).
  { intros j. by apply run_loop with close rest open. }
  revert m. induction n as [|n IHn]; intros m; [done|].
  change (eval host (S n) b m) with ((r ← eval host (S n) body;
    match r with Some Continue => eval host n b | Some Leave => eval host (S n) rest | _ => mret r end) m).
  specialize (IHb (S n) (S i) (frame_of i body :: F) m Hsb Hpb Hpairb HFb). unfold mbind, proc_bind.
  destruct (eval host (S n) body m) as [[[f|]|x|u] m1]; unfold simulates in IHb.
  - destruct f.
    + destruct IHb as (F' & HF' & k & Hk). rewrite HF' in Hk by done. apply (simulates_turn _ _ _ k (Z.of_nat (S i)) (set_frames (frame_of i body :: F) m1)); [|apply IHn].
      intros j. replace (S k + j)%nat with (k + S j)%nat by lia. rewrite Hk. unfold after_block. cbn [followed continues].
      by apply run_repeat with close rest open.
    + destruct IHb as (F' & HF' & k & Hk). rewrite HF' in Hk by done. apply (simulates_after _ _ _ k (Z.of_nat (i + 2 + size body)) (set_frames F m1)).
      * intros j. rewrite Hk. cbn. f_equal. lia.
      * replace e with (i + 2 + size body + size rest)%nat by (unfold e, b; cbn; lia). by apply IHr.
    + destruct IHb as (F' & _ & Hr). by exists F'.
    + destruct IHb as (F' & _ & Hr). by exists F'.
  - exact IHb.
  - destruct IHb as (F' & _ & Hr). by exists F'.
  - destruct IHb as (F' & _ & Hr). by exists F'.
Qed.

Lemma block_refines b : refines b.
Proof using Htokens.
  induction b as [|text rest IH|open body IHb close rest IHr]; [|by apply refines_line|by apply refines_loops].
  intros n i F m _ _ _ _. replace (eval host n Nil m) with (Ok (Some Continue), m) by (by destruct n).
  exists F. split; [done|]. exists 0%nat. intros j. cbn. f_equal. lia.
Qed.
End refinement.

(** ** The table of loops *)
Definition parsed (ls : list string) : list (string * list string) := (λ l, (l, tokenize (trim l))) <$> ls.

Lemma paired_agree b : ∀ i ltr rtl ltr' rtl',
  (∀ k, (i ≤ k < i + size b)%nat → ltr' !! k = ltr !! k ∧ rtl' !! k = rtl !! k) → paired ltr rtl i b → paired ltr' rtl' i b.
Proof.
  induction b as [|text rest IH|open body IHb close rest IHr]; intros i ltr rtl ltr' rtl' Hk; cbn [paired size] in *; [done| |].
  - intros (H1 & H2 & H3). destruct (Hk i) as [-> ->]; [lia|]. split_and!; [done..|]. eapply IH; [|exact H3]. intros k ?. apply Hk. lia.
  - intros (H1 & H2 & H3 & H4). destruct (Hk i) as [-> _]; [lia|]. destruct (Hk (i + 1 + size body)%nat) as [_ ->]; [lia|].
    split_and!; [done..| |]; [eapply IHb; [|exact H3]|eapply IHr; [|exact H4]]; intros k ?; apply Hk; lia.
Qed.

Lemma build_pairs_line i l ls ltr rtl stack : command_of l ≠ Some Loop → command_of l ≠ Some Repeat →
  build_pairs i (parsed (l :: ls)) ltr rtl stack = build_pairs (S i) (parsed ls) ltr rtl stack.
Proof. unfold command_of. cbn. destruct (skipped l); [done|]. by destruct (parseStatement _). Qed.

Lemma build_pairs_loop i l ls ltr rtl stack : command_of l = Some Loop →
  build_pairs i (parsed (l :: ls)) ltr rtl stack = build_pairs (S i) (parsed ls) ltr rtl (i :: stack).
Proof. unfold command_of. cbn. destruct (skipped l); [done|]. by intros [= ->]. Qed.

Lemma build_pairs_repeat i l ls ltr rtl loop stack : command_of l = Some Repeat →
  build_pairs i (parsed (l :: ls)) ltr rtl (loop :: stack) =
  build_pairs (S i) (parsed ls) (<[loop := Z.of_nat i]> ltr) (<[i := Z.of_nat loop]> rtl) stack.
Proof. unfold command_of. cbn. destruct (skipped l); [done|]. by intros [= ->]. Qed.

(** A structured block is paired as the tree says, whatever is around it. *)
Lemma pairs_block b : structured b → ∀ i rest ltr rtl stack,
  (∀ k, (i ≤ k < i + size b)%nat → ltr !! k = Some (-1) ∧ rtl !! k = Some (-1)) →
  ∃ ltr' rtl', build_pairs i (parsed (render b ++ rest)) ltr rtl stack = build_pairs (i + size b) (parsed rest) ltr' rtl' stack ∧
    paired ltr' rtl' i b ∧ ∀ k, ¬ (i ≤ k < i + size b)%nat → ltr' !! k = ltr !! k ∧ rtl' !! k = rtl !! k.
Proof.
  induction b as [|text rest' IH|open body IHb close rest' IHr]; cbn [structured size render paired]; intros Hs i rest ltr rtl stack Hk.
  - exists ltr, rtl. rewrite Nat.add_0_r. done.
  - destruct Hs as (H1 & H2 & _ & Hs). cbn [app]. rewrite build_pairs_line by done.
    destruct (IH Hs (S i) rest ltr rtl stack) as (ltr' & rtl' & E & Hp & Hout); [intros k ?; apply Hk; lia|].
    exists ltr', rtl'. replace (i + (1 + size rest'))%nat with (S i + size rest')%nat by lia.
    destruct (Hout i) as [E1 E2]; [lia|]. destruct (Hk i) as [E3 E4]; [lia|]. split_and!; [done|congruence|congruence|done|].
    intros k ?. apply Hout. lia.
  - destruct Hs as (Ho & Hsb & Hc & Hsr). cbn [app]. rewrite build_pairs_loop by done. rewrite <- app_assoc. cbn [app].
    destruct (IHb Hsb (S i) (close :: render rest' ++ rest) ltr rtl (i :: stack)) as (ltr1 & rtl1 & -> & Hpb & Hout1); [intros k ?; apply Hk; lia|].
    rewrite build_pairs_repeat by done. set (r := (S i + size body)%nat) in *.
    assert (Hmid : ∀ k, (i + 2 + size body ≤ k < i + (2 + size body + size rest'))%nat →
      <[i := Z.of_nat r]> ltr1 !! k = Some (-1) ∧ <[r := Z.of_nat i]> rtl1 !! k = Some (-1)).
    { intros k ?. rewrite !list_lookup_insert_ne by lia. destruct (Hout1 k) as [-> ->]; [lia|]. apply Hk. lia. }
    destruct (IHr Hsr (S r) rest (<[i := Z.of_nat r]> ltr1) (<[r := Z.of_nat i]> rtl1) stack) as (ltr2 & rtl2 & E & Hpr & Hout2); [intros k ?; apply Hmid; lia|].
    exists ltr2, rtl2. replace (i + (2 + size body + size rest'))%nat with (S r + size rest')%nat by lia.
    assert (Hi : ltr1 !! i = Some (-1) ∧ rtl1 !! r = Some (-1)).
    { destruct (Hout1 i) as [-> _]; [lia|]. destruct (Hout1 r) as [_ ->]; [lia|]. split; apply Hk; lia. }
    replace (i + 1 + size body)%nat with r by lia. replace (i + 2 + size body)%nat with (S r) by lia.
    split_and!; [done|..].
    + destruct (Hout2 i) as [-> _]; [lia|]. apply list_lookup_insert_eq. by eapply lookup_lt_Some, Hi.
    + destruct (Hout2 r) as [_ ->]; [lia|]. apply list_lookup_insert_eq. by eapply lookup_lt_Some, Hi.
    + eapply paired_agree; [|exact Hpb]. intros k ?. destruct (Hout2 k) as [-> ->]; [lia|]. by rewrite !list_lookup_insert_ne by lia.
    + done.
    + intros k ?. destruct (Hout2 k) as [-> ->]; [lia|]. rewrite !list_lookup_insert_ne by lia. apply Hout1. lia.
Qed.

Lemma zip_parsed ls : zip ls ((λ l, tokenize (trim l)) <$> ls) = parsed ls.
Proof. induction ls as [|l ls IH]; [done|]. cbn. f_equal. exact IH. Qed.

Lemma load_structured b labels : structured b → collect_labels 0 (render b) ∅ = inl labels →
  ∃ ltr rtl, load (render b) = inl (mkScript (render b) ((λ l, tokenize (trim l)) <$> render b) labels ltr rtl) ∧ paired ltr rtl 0 b.
Proof.
  intros Hs Hl. unfold load. rewrite Hl, zip_parsed.
  destruct (pairs_block b Hs 0 [] (replicate (length (render b)) (-1)) (replicate (length (render b)) (-1)) []) as (ltr & rtl & E & Hp & _).
  - intros k ?. rewrite lookup_replicate_2 by (rewrite length_render; lia). done.
  - rewrite app_nil_r in E. rewrite E. exists ltr, rtl. done.
Qed.

(** ** Structured scripts *)
Lemma set_frames_twice {W} F F' (m : @Machine W) : set_frames F (set_frames F' m) = set_frames F m.
Proof. done. Qed.

(** C19. The interpreter runs scripts without GO as their structure says. For every such
    script (lines, and loops that may be nested to any depth and left by EXIT or
    EXITIF, also inside IF statements), every host, all parameters and every input: when
    the labels are not refused, the script with its pairs of LOOP and REPEAT, its program
    counter and its stack of frames ends exactly when the reference does, with the same
    result (success, failure, or the exception of a TCL command), the same output, the
    same variables, the same rest of the input and the same host state; and it runs for
    ever when the reference does. *)
Theorem structured_scripts {W} (host : @ProcHost W) b params stdin w labels :
  structured b → collect_labels 0 (render b) ∅ = inl labels → ∀ n,
  let r := reference host n b (mkMachine (parameters params) [] stdin "" w) in
  (r.1 = Ok None → (runScript host n (render b) params stdin w).1 = Ok None) ∧
  (r.1 ≠ Ok None → ∃ k F, ∀ j, runScript host (k + j) (render b) params stdin w = (r.1, set_frames F r.2)).
Proof.
  intros Hs Hl n r. destruct (load_structured b labels Hs Hl) as (ltr & rtl & Hload & Hpair).
  unfold runScript. rewrite Hload. set (script := mkScript _ _ _ _ _) in *. set (m := mkMachine _ _ _ _ _) in *.
  pose proof (block_refines host script eq_refl b n 0%nat [] m Hs (λ k l H, H) Hpair ltac:(constructor)) as Hsim.
  change (set_frames [] m) with m in Hsim. unfold r, reference. unfold mbind, proc_bind.
  change (Z.of_nat 0) with 0 in Hsim. rewrite Nat.add_0_l in Hsim.
  assert (Hend : ∀ j m', run host script (S j) (Z.of_nat (length (lines script))) m' = (Ok (Some true), m')).
  { intros j m'. cbn [run]. by rewrite Z.ltb_irrefl, andb_false_r. }
  destruct (eval host n b m) as [[[f|]|e|u] m1]; unfold simulates in Hsim.
  - destruct Hsim as (F' & HF' & k & Hk). split; [by destruct f|]. intros _. destruct f.
    + exists (S k), F'. intros j. replace (S k + j)%nat with (k + S j)%nat by lia. rewrite Hk. cbn [after_block followed continues].
      rewrite <- (length_render b). apply Hend.
    + rewrite HF' in Hk by done. exists k, []. intros j. rewrite Hk. done.
    + exists (S k), F'. intros j. replace (S k + j)%nat with (k + S j)%nat by lia. rewrite Hk. apply Hend.
    + exists k, F'. intros j. by rewrite Hk.
  - split; [by intros _|done].
  - destruct Hsim as (F' & _ & k & Hk). split; [done|]. intros _. exists k, F'. intros j. by rewrite Hk.
  - destruct Hsim as (F' & _ & k & Hk). split; [done|]. intros _. exists k, F'. intros j. by rewrite Hk.
Qed.

(** A host with one list of two items and no more. *)
Definition small_host : @ProcHost (list string) :=
  mkProcHost (λ c w i, (Ok tt, (w, i, "[" +:+ c +:+ "]"))) None
    (Some (λ _ _, (Ok (true, ""), ["A"; "B"])))
    (Some (λ w, match w with x :: w' => (Ok (Some x, ""), w') | [] => (Ok (None, ""), []) end)) None None None.

(** SELECT, and a loop over the items. *)
Definition items_loop : block :=
  Line "SELECT F" (Loops "LOOP" (Line "READNEXT ID" (Line "IF ID = P9 THEN EXIT" (Line "EXITIF ID = NONE"
    (Line "IF ID = B THEN EXIT ELSE DISPLAY ITEM ID" Nil)))) "REPEAT" (Line "TCL DONE ID" Nil)).

Lemma structured_scripts_witness :
  runScript small_host 20 (render items_loop) [] "" [] =
    (Ok (Some true), mkMachine {["ID" := "B"]} [] "" ("ITEM A" +:+ String NL "[DONE B]") []) ∧
  let r := reference small_host 2 items_loop (mkMachine (parameters []) [] "" "" []) in
  (r.1 = Ok None → (runScript small_host 2 (render items_loop) [] "" []).1 = Ok None) ∧
  (r.1 ≠ Ok None → ∃ k F, ∀ j, runScript small_host (k + j) (render items_loop) [] "" [] = (r.1, set_frames F r.2)).
Proof.
  split; [by vm_compute|]. refine (structured_scripts small_host items_loop [] "" [] ∅ _ _ 2); [|by vm_compute].
  repeat split; vm_compute; congruence.
Defined.

(** ** Words are fuel enough *)
Lemma slice_short a b ts : (length (slice a b ts) ≤ length ts - a)%nat.
Proof. unfold slice. rewrite length_take, length_drop. lia. Qed.

Lemma parts_short tokens parts : parseIfParts tokens = Some parts →
  (length (thenTokens parts) < length tokens)%nat ∧ (length (elseTokens parts) < length tokens)%nat.
Proof.
  unfold parseIfParts. destruct (_ || _) eqn:E; [done|]. apply orb_false_iff in E as [E _]. apply Nat.ltb_ge in E.
  intros H. repeat case_match; simplify_eq; cbn; rewrite ?length_drop;
    try match goal with |- context [slice ?a ?b tokens] => pose proof (slice_short a b tokens) end; lia.
Qed.

(** More fuel than words changes nothing. *)
Lemma exec_fuel {W} (host : @ProcHost W) script n : ∀ n' tokens i pc m, (length tokens < n)%nat → (length tokens < n')%nat →
  execStatement host script n i tokens pc m = execStatement host script n' i tokens pc m.
Proof.
  induction n as [|n IH]; intros [|n'] tokens i pc m Hn Hn'; [lia..|]. cbn [execStatement].
  destruct (parseStatement tokens); try done. unfold exec_if. destruct (parseIfParts tokens) as [parts|] eqn:Ep; [|done].
  destruct (parts_short _ _ Ep) as [Ht He]. unfold get, mbind, proc_bind.
  assert (Hb : ∀ b, (length b < length tokens)%nat → execStatement host script n true b pc m = execStatement host script n' true b pc m) by (intros; apply IH; lia).
  destruct (String.eqb _ _); [destruct (thenTokens parts)|destruct (elseTokens parts)]; try done; by rewrite Hb.
Qed.

(** ** The session's names *)

(** No variable of the script has the name of a session variable, in any case. *)
Definition unshadowed {W} (m : @Machine W) : Prop := ∀ name, isReadonlySessionAtTarget name = true → variables m !! name = None.

Section session_names.
Context {W : Type} (host : @ProcHost W) (script : Script).
Abbreviation keeps := (preserves (unshadowed (W:=W))).

Lemma unshadowed_print s : keeps (print s).
Proof. by apply preserves_modify. Qed.

Lemma unshadowed_refuse s : keeps (refuse s).
Proof. apply preserves_bind; [apply unshadowed_print|]. intros. apply preserves_ret. Qed.

Lemma unshadowed_assign name v : isReadonlySessionAtTarget name = false → keeps (assign name v).
Proof.
  intros Hn. apply preserves_modify. intros m Hm k Hk. cbn. rewrite lookup_insert_ne; [by apply Hm|]. by intros ->; rewrite Hk in Hn.
Qed.

Lemma unshadowed_call {A} (f : proc W A) : keeps (call_host f).
Proof. intros m Hm. unfold call_host. by destruct (f (world m)). Qed.

Lemma unshadowed_input : keeps next_input.
Proof. intros m Hm. unfold next_input. by destruct (getline NL (input m)) as [[l r]|]. Qed.

Lemma unshadowed_next i pc : keeps (next i pc).
Proof. apply preserves_ret. Qed.

Lemma unshadowed_tcl i tokens pc : keeps (exec_tcl host i tokens pc).
Proof. intros m Hm. unfold exec_tcl. by destruct (tclBridgeFn _ _ _ _) as [r [[w i'] o]]. Qed.

Lemma unshadowed_sync pc : keeps (syncLoopFramesForPc pc).
Proof. by apply preserves_modify. Qed.

Lemma unshadowed_set_frames F : keeps (modify (set_frames F)).
Proof. by apply preserves_modify. Qed.

Lemma unshadowed_procerr v : keeps (assign "PROCERR" v).
Proof. by apply unshadowed_assign. Qed.

Hint Resolve unshadowed_print unshadowed_refuse unshadowed_call unshadowed_input unshadowed_next unshadowed_tcl unshadowed_sync unshadowed_set_frames unshadowed_procerr unshadowed_assign : preserves.

Lemma unshadowed_leave pc : keeps (leave_loop pc).
Proof. unfold leave_loop. preserves. Qed.

Lemma unshadowed_simple c exec i tokens pc : simple host c = Some exec → keeps (exec i tokens pc).
Proof.
  destruct c; intros [= <-]; try solve [apply unshadowed_tcl];
  unfold exec_display, exec_input, exec_select, exec_readnext, exec_readu, exec_writeu, exec_release, exec_assignment, clearProcErr, setProcLocked; preserves.
Qed.

Lemma unshadowed_loop i pc : keeps (exec_loop script i pc).
Proof. unfold exec_loop. preserves. apply preserves_modify. intros m Hm. by case_match. Qed.

Lemma unshadowed_exec fuel : ∀ i tokens pc, keeps (execStatement host script fuel i tokens pc).
Proof.
  induction fuel as [|fuel IH]; intros i tokens pc; [apply preserves_lift|]. cbn [execStatement].
  pose proof (λ c exec, unshadowed_simple c exec i tokens pc) as Hs.
  destruct (parseStatement tokens); try solve [preserves |
    by apply (Hs Display) | by apply (Hs Input) | by apply (Hs Select) | by apply (Hs ReadNext) | by apply (Hs ReadU) |
    by apply (Hs WriteU) | by apply (Hs Release) | by apply (Hs Assignment)].
  - unfold exec_if. preserves; apply IH.
  - unfold exec_go, resolveLabelPc. preserves.
  - apply unshadowed_loop.
  - unfold exec_repeat. preserves.
  - apply unshadowed_leave.
  - unfold exec_exitif. preserves; apply unshadowed_leave.
Qed.

Lemma unshadowed_run fuel : ∀ pc, keeps (run host script fuel pc).
Proof.
  induction fuel as [|fuel IH]; intros pc; cbn [run]; [apply preserves_ret|]. unfold turn. preserves; try apply IH; apply unshadowed_exec.
Qed.
End session_names.

Lemma parameters_unshadowed params name : isReadonlySessionAtTarget name = true → parameters params !! name = None.
Proof.
  intros Hn. unfold parameters. apply not_elem_of_list_to_map. rewrite list_elem_of_fmap. intros ((k & p) & -> & Hk). cbn in Hn.
  apply elem_of_lookup_imap in Hk as (i & x & [= -> ->] & _). discriminate Hn.
Qed.

(** A script cannot hide the session. However a script runs and wherever it is looked at
    (after any number of turns, also when it fails or a TCL command throws), no variable has the name @USERNO, @ACCOUNT, @LOGNAME or
    @DEFDATA in any mixture of cases, so that the word still stands for the
    session's own value whenever the host knows one. *)
Theorem session_names_not_shadowed {W} (host : @ProcHost W) fuel lines params stdin w name :
  upperAscii name ∈ ["@USERNO"; "@ACCOUNT"; "@LOGNAME"; "@DEFDATA"] →
  let m := (runScript host fuel lines params stdin w).2 in
  variables m !! name = None ∧
  substituteToken host m name = match sessionAt host with Some f => default name (f (world m) name) | None => name end.
Proof.
  intros Hn m. apply (bool_decide_eq_true_2 _) in Hn. assert (variables m !! name = None) as E.
  { unfold m, runScript. destruct (load lines) as [script|e]; [|by apply parameters_unshadowed].
    apply (unshadowed_run host script fuel 0); [|done]. intros k Hk. by apply parameters_unshadowed. }
  split; [done|]. unfold substituteToken. rewrite E. destruct (sessionAt host) as [f|]; [|done]. by destruct (f (world m) name).
Qed.

Lemma session_names_not_shadowed_witness :
  upperAscii "@UserNo" ∈ ["@USERNO"; "@ACCOUNT"; "@LOGNAME"; "@DEFDATA"] ∧
  let m := (runScript small_host 9 ["INPUT X"; "X = @UserNo"; "READNEXT @UserNo"] ["A"] "7" []).2 in
  variables m !! "@UserNo" = None ∧
  substituteToken small_host m "@UserNo" = match sessionAt small_host with Some f => default "@UserNo" (f (world m) "@UserNo") | None => "@UserNo" end.
Proof.
  assert (upperAscii "@UserNo" ∈ ["@USERNO"; "@ACCOUNT"; "@LOGNAME"; "@DEFDATA"]) as H by (by apply (bool_decide_eq_true_1 _)).
  split; [exact H|]. exact (session_names_not_shadowed small_host 9 ["INPUT X"; "X = @UserNo"; "READNEXT @UserNo"] ["A"] "7" [] "@UserNo" H).
Defined.

(** A statement whose last word ends in a colon is taken for a label: it is not run,
    and a second one like it stops the script. *)
Example prompt_is_a_label :
  (runScript small_host 9 ["DISPLAY Name:"; "INPUT N"; "DISPLAY N"] [] "Ann" []).2.(output) = "Ann" +:+ String NL "" ∧
  (runScript small_host 9 ["DISPLAY Name:"; "DISPLAY Name:"] [] "" []).2.(output) = "Error: Duplicate label: DISPLAY NAME" +:+ String NL "".
Proof. by vm_compute. Qed.
