(* ===== verification/EnglishQuery.v ===== *)
(** * ENGLISH queries

    [EnglishTypes.h] and [EnglishParser.cpp]: the words of a LIST, SORT, COUNT or
    SELECT command to a [Query]. *)

From Stdlib Require Import Ascii String.
From S2P Require Import Prelude CLib.
From stdpp Require Import options.
Local Open Scope Z_scope.

(* src/core/english/EnglishTypes.h:17-22 [Verb] *)
Inductive Verb := LIST | COUNT | SELECT | SORT.

#[global] Instance Verb_eq_dec : EqDecision Verb.
Proof. solve_decision. Defined.

(* src/core/english/EnglishTypes.h:31-34 [SortKeySpec] *)
Record SortKeySpec := mkKey { fieldToken : string; descending : bool }.

(* src/core/english/EnglishTypes.h:36-54 [Query] *)
Record Query := mkQuery {
  verb : Verb;
  fileName : string;
  fields : list string;
  sortKeys : list SortKeySpec;
  heading : option string;
  breakOnField : option string;
  totalField : option string;
  idSupp : bool;
  footing : option string
}.

(* src/core/english/EnglishParser.h:11-16 [ParseContext] *)
Record ParseContext := mkContext { implicitFile : bool; imposedFileName : option string }.

(** ** Keywords *)

(* src/core/english/EnglishParser.cpp:8-18 [ieq] *)
Definition ieq (a b : string) : bool := String.eqb (str_map tolower a) (str_map tolower b).

(* src/core/english/EnglishParser.cpp:20-22 [isBy] *)
Definition isBy (t : string) : bool := ieq t "BY".
(* src/core/english/EnglishParser.cpp:24-26 [isByDsnd] *)
Definition isByDsnd (t : string) : bool := ieq t "BY-DSND".
(* src/core/english/EnglishParser.cpp:28-30 [isWith] *)
Definition isWith (t : string) : bool := ieq t "WITH".
(* src/core/english/EnglishParser.cpp:32-34 [isHeading] *)
Definition isHeading (t : string) : bool := ieq t "HEADING".
(* src/core/english/EnglishParser.cpp:36-38 [isFooting] *)
Definition isFooting (t : string) : bool := ieq t "FOOTING".
(* src/core/english/EnglishParser.cpp:40-42 [isBreakOn] *)
Definition isBreakOn (t : string) : bool := ieq t "BREAK-ON".
(* src/core/english/EnglishParser.cpp:44-46 [isTotal] *)
Definition isTotal (t : string) : bool := ieq t "TOTAL".
(* src/core/english/EnglishParser.cpp:48-50 [isIdSupp] *)
Definition isIdSupp (t : string) : bool := ieq t "ID-SUPP".

(* src/core/english/EnglishParser.cpp:54-57 [isStructuralKeyword] *)
Definition isStructuralKeyword (t : string) : bool :=
  isBy t || isByDsnd t || isWith t || isHeading t || isFooting t || isBreakOn t || isTotal t || isIdSupp t.

(* src/core/english/EnglishParser.cpp:59-73 [verbFrom] *)
Definition verbFrom (t : string) : option Verb :=
  if ieq t "LIST" then Some LIST
  else if ieq t "COUNT" then Some COUNT
  else if ieq t "SELECT" then Some SELECT
  else if ieq t "SORT" then Some SORT
  else None.

(** ** The formatting clauses *)

(** The local variables that collect them. *)
Record Clauses := mkClauses {
  c_heading : option string;
  c_footing : option string;
  c_breakOn : option string;
  c_total : option string;
  c_idSupp : bool
}.

Definition no_clauses : Clauses := mkClauses None None None None false.

(** The words that are left, and the clauses; [with_argument] is the part that the four
    clauses with an argument share. *)
(* src/core/english/EnglishParser.cpp:131-203 [EnglishParser::parse] *)
Fixpoint strip_clauses (ts : list string) (c : Clauses) : list string * Clauses + string :=
  match ts with
  | [] => inl ([], c)
  | t :: rest =>
      let with_argument (there : option string) (name what : string) (set : string → Clauses) :=
        match there, rest with
        | Some _, _ => inr (name +:+ " can only appear once")
        | None, [] => inr (name +:+ " requires a " +:+ what)
        | None, a :: rest' =>
            if isStructuralKeyword a then inr (name +:+ " requires a " +:+ what) else strip_clauses rest' (set a)
        end in
      let '(mkClauses h f b tot ids) := c in
      if isHeading t then with_argument h "HEADING" "quoted string" (λ a, mkClauses (Some a) f b tot ids)
      else if isFooting t then with_argument f "FOOTING" "quoted string" (λ a, mkClauses h (Some a) b tot ids)
      else if isBreakOn t then with_argument b "BREAK-ON" "field" (λ a, mkClauses h f (Some a) tot ids)
      else if isTotal t then with_argument tot "TOTAL" "field" (λ a, mkClauses h f b (Some a) ids)
      else if isIdSupp t then
        if ids then inr "ID-SUPP can only appear once" else strip_clauses rest (mkClauses h f b tot true)
      else match strip_clauses rest c with inl (ts', c') => inl (t :: ts', c') | inr e => inr e end
  end.

(** ** The sort section and the query *)

(* src/core/english/EnglishParser.cpp:84-113 [parseSortSection] *)
Fixpoint parseSortSection (ts : list string) (nextDesc : bool) : list SortKeySpec + string :=
  match ts with
  | [] => if nextDesc then inr "BY-DSND without following field" else inl []
  | t :: ts' =>
      if isBy t then parseSortSection ts' nextDesc
      else if isByDsnd t then parseSortSection ts' true
      else if str_empty t then inr "Empty BY field"
      else match parseSortSection ts' false with inl keys => inl (mkKey t nextDesc :: keys) | inr e => inr e end
  end.

(** The words before the first one that is [p], and those from it on. *)
Fixpoint split_before (p : string → bool) (ts : list string) : list string * list string :=
  match ts with
  | [] => ([], [])
  | t :: ts' => if p t then ([], ts) else let '(a, b) := split_before p ts' in (t :: a, b)
  end.

(* src/core/english/EnglishParser.cpp:75-82 [findFirstBy] *)
Definition findFirstBy (ts : list string) : list string * list string := split_before isBy ts.

Definition query_of (v : Verb) (file : string) (c : Clauses) (fs : list string) (keys : list SortKeySpec) : Query :=
  mkQuery v file fs keys (c_heading c) (c_breakOn c) (c_total c) (c_idSupp c) (c_footing c).

(** The file named by the caller, [None] when there is none. *)
Definition imposed (ctx : ParseContext) : option string :=
  match imposedFileName ctx with Some f => if str_empty f then None else Some f | None => None end.

(** Fields, WITH (whose words are dropped) and BY. *)
(* src/core/english/EnglishParser.cpp:247-286 [EnglishParser::parse] *)
Definition parse_fields (v : Verb) (file : string) (c : Clauses) (ts : list string) : Query + string :=
  let '(before, by_) := findFirstBy ts in
  if negb (bool_decide (by_ = [])) && negb (bool_decide (v = SORT)) then inr "BY is only valid with SORT"
  else
    let fs := (split_before isWith before).1 in
    match by_ with
    | [] => inl (query_of v file c fs [])
    | _ => match parseSortSection by_ false with inl keys => inl (query_of v file c fs keys) | inr e => inr e end
    end.

(* src/core/english/EnglishParser.cpp:116-287 [EnglishParser::parse] *)
Definition parse (rawTokens : list string) (ctx : ParseContext) : Query + string :=
  match rawTokens with
  | [] => inr "Empty query"
  | t0 :: rest =>
      match verbFrom t0 with
      | None => inr "Unsupported ENGLISH verb"
      | Some v =>
          match strip_clauses rest no_clauses with
          | inr e => inr e
          | inl (ts, c) =>
              if bool_decide (v = COUNT) && bool_decide (ts = []) then
                match (if implicitFile ctx then imposed ctx else None) with
                | None => inr "COUNT requires filename or active-list scope"
                | Some f => inl (query_of v f c [] [])
                end
              else if implicitFile ctx then
                match imposed ctx with
                | None => inr "Internal: implicit scope requires imposed filename"
                | Some f => parse_fields v f c ts
                end
              else match ts with
                   | [] => inr "Command requires filename"
                   | f :: ts' => if str_empty f then inr "Filename must be non-empty" else parse_fields v f c ts'
                   end
          end
      end
  end.

(** ** Writing a query *)

Inductive Clause := Heading (a : string) | Footing (a : string) | BreakOn (a : string) | Total (a : string) | IdSupp.

Definition kind (c : Clause) : nat := match c with Heading _ => 0 | Footing _ => 1 | BreakOn _ => 2 | Total _ => 3 | IdSupp => 4 end.

Definition add_clause (s : Clauses) (c : Clause) : Clauses :=
  let '(mkClauses h f b t i) := s in
  match c with
  | Heading a => mkClauses (Some a) f b t i
  | Footing a => mkClauses h (Some a) b t i
  | BreakOn a => mkClauses h f (Some a) t i
  | Total a => mkClauses h f b (Some a) i
  | IdSupp => mkClauses h f b t true
  end.

(** The words of a clause: its keyword in any case, and its argument. *)
Definition argument_ok (a : string) : Prop := isStructuralKeyword a = false.

Inductive spells : Clause → list string → Prop :=
| spell_heading k a : isHeading k = true → argument_ok a → spells (Heading a) [k; a]
| spell_footing k a : isFooting k = true → argument_ok a → spells (Footing a) [k; a]
| spell_break k a : isBreakOn k = true → argument_ok a → spells (BreakOn a) [k; a]
| spell_total k a : isTotal k = true → argument_ok a → spells (Total a) [k; a]
| spell_idsupp k : isIdSupp k = true → spells IdSupp [k].

(** [mix base cs ts]: the words [ts] are those of [base], in order, with the clauses
    [cs] anywhere between them. *)
Inductive mix : list string → list Clause → list string → Prop :=
| mix_end : mix [] [] []
| mix_word t base cs ts : mix base cs ts → mix (t :: base) cs (t :: ts)
| mix_clause c ws base cs ts : spells c ws → mix base cs ts → mix base (c :: cs) (ws ++ ts).

Definition clause_keyword (t : string) : bool := isHeading t || isFooting t || isBreakOn t || isTotal t || isIdSupp t.

(** The clause's variable is not set. *)
Definition unset (s : Clauses) (k : nat) : Prop :=
  match k with
  | 0 => c_heading s = None | 1 => c_footing s = None | 2 => c_breakOn s = None | 3 => c_total s = None | _ => c_idSupp s = false
  end%nat.

Lemma unset_add s c k : k ≠ kind c → (k < 5)%nat → unset s k → unset (add_clause s c) k.
Proof. destruct s, c; cbn; intros Hk Hlt; do 5 (destruct k as [|k]; [cbn; congruence|]); lia. Qed.

Lemma kind_lt c : (kind c < 5)%nat.
Proof. destruct c; cbn; lia. Qed.

(** A word is at most one keyword. *)
Lemma ieq_other a b c : ieq a b = true → ieq b c = false → ieq a c = false.
Proof. unfold ieq. intros ->%String.eqb_eq. done. Qed.

Ltac no_other_keyword H :=
  unfold isHeading, isFooting, isBreakOn, isTotal, isIdSupp, isBy, isByDsnd, isWith in *;
  repeat match goal with
  | |- context [ieq ?k ?w] =>
      match type of H with ieq k ?v = true => first [rewrite H | rewrite (ieq_other k v w H eq_refl)] end
  end.

Lemma strip_clause c ws ts s : spells c ws → unset s (kind c) → strip_clauses (ws ++ ts) s = strip_clauses ts (add_clause s c).
Proof.
  intros Hc Hs. destruct s as [h f b t i]. destruct Hc as [k a Hk Ha|k a Hk Ha|k a Hk Ha|k a Hk Ha|k Hk]; cbn in Hs |- *; subst; no_other_keyword Hk;
    try unfold argument_ok in Ha; rewrite ?Ha; done.
Qed.

Lemma strip_word t ts s : clause_keyword t = false →
  strip_clauses (t :: ts) s = match strip_clauses ts s with inl (ts', s') => inl (t :: ts', s') | inr e => inr e end.
Proof.
  unfold clause_keyword. rewrite !orb_false_iff. intros ((((H1 & H2) & H3) & H4) & H5). destruct s. cbn.
  by rewrite H1, H2, H3, H4, H5.
Qed.

Lemma strip_mix base cs ts : mix base cs ts → ∀ s, Forall (λ t, clause_keyword t = false) base → NoDup (kind <$> cs) →
  Forall (λ c, unset s (kind c)) cs → strip_clauses ts s = inl (base, foldl add_clause s cs).
Proof.
  induction 1 as [|t base cs ts H IH|c ws base cs ts Hc H IH]; intros s Hb Hnd Hs; [done| |].
  - inv Hb. rewrite strip_word by done. by rewrite IH.
  - inv Hs. rewrite (strip_clause c) by done. cbn in Hnd. apply NoDup_cons in Hnd as [Hn Hnd]. cbn. apply IH; [done|done|].
    rewrite Forall_forall in *. intros c' Hc'. apply unset_add; [|apply kind_lt|auto]. intros E. apply Hn. rewrite <- E. by apply list_elem_of_fmap_2.
Qed.

(** ** The fields and the sort keys *)
Definition plain (t : string) : Prop := isStructuralKeyword t = false.

Definition with_words (w : option (list string)) : list string := match w with Some junk => "WITH" :: junk | None => [] end.

Definition key_words (k : SortKeySpec) : list string := if descending k then ["BY-DSND"; fieldToken k] else [fieldToken k].

Definition by_words (keys : list SortKeySpec) : list string := match keys with [] => [] | _ => "BY" :: mjoin (key_words <$> keys) end.

Definition key_ok (k : SortKeySpec) : Prop := plain (fieldToken k) ∧ fieldToken k ≠ "".

Lemma plain_not t : plain t → isBy t = false ∧ isByDsnd t = false ∧ isWith t = false ∧ clause_keyword t = false.
Proof. unfold plain, isStructuralKeyword, clause_keyword. rewrite !orb_false_iff. tauto. Qed.

Lemma parse_key k rest : key_ok k →
  parseSortSection (key_words k ++ rest) false = match parseSortSection rest false with inl keys => inl (k :: keys) | inr e => inr e end.
Proof.
  destruct k as [t d]. intros [Ht Hne]. cbn in Ht, Hne. destruct (plain_not t Ht) as (H1 & H2 & _).
  assert (str_empty t = false) as He by (by destruct t). destruct d; cbn -[isBy isByDsnd str_empty]; rewrite H1, H2, He; done.
Qed.

Lemma parse_key_words keys : Forall key_ok keys → parseSortSection (mjoin (key_words <$> keys)) false = inl keys.
Proof. induction 1 as [|k keys Hk Hks IH]; [done|]. change (mjoin (key_words <$> k :: keys)) with (key_words k ++ mjoin (key_words <$> keys)). by rewrite parse_key, IH. Qed.

Lemma parse_by_words keys : Forall key_ok keys → keys ≠ [] → parseSortSection (by_words keys) false = inl keys.
Proof. intros Hk Hne. destruct keys as [|k keys]; [done|]. by apply (parse_key_words (k :: keys)). Qed.

Lemma split_before_app p a b : Forall (λ t, p t = false) a → match b with t :: _ => p t = true | [] => True end →
  split_before p (a ++ b) = (a, b).
Proof.
  intros Ha Hb. induction Ha as [|t a Ht Ha IH]; cbn.
  - destruct b as [|t b]; [done|]. cbn. by rewrite Hb.
  - by rewrite Ht, IH.
Qed.

Lemma parse_fields_words v file c fs w keys : Forall plain fs → Forall (λ t, isBy t = false) (default [] w) → Forall key_ok keys →
  keys = [] ∨ v = SORT → parse_fields v file c (fs ++ with_words w ++ by_words keys) = inl (query_of v file c fs keys).
Proof.
  intros Hf Hw Hk Hv. assert (Hby : Forall (λ t, isBy t = false) (fs ++ with_words w)).
  { apply Forall_app. split; [eapply Forall_impl; [exact Hf|]; intros t Ht; by apply plain_not|]. destruct w; [by constructor|constructor]. }
  unfold parse_fields, findFirstBy. rewrite app_assoc, (split_before_app isBy) by (try done; by destruct keys).
  rewrite (split_before_app isWith); [|eapply Forall_impl; [exact Hf|]; intros t Ht; by apply plain_not|by destruct w].
  destruct keys as [|k keys]; [done|]. destruct Hv as [Hv|Hv]; [done|subst v].
  rewrite bool_decide_false, bool_decide_true by done. cbn [negb andb fst]. rewrite parse_by_words by done. done.
Qed.

Lemma clause_not_by t : isStructuralKeyword t = false → clause_keyword t = false.
Proof. intros H. by apply plain_not. Qed.

(** How the words name the file: by their first word, or not at all because the active list does. *)
Definition names_file (ctx : ParseContext) (file : string) (prefix : list string) : Prop :=
  if implicitFile ctx then imposedFileName ctx = Some file ∧ prefix = [] else prefix = [file].

Lemma base_words prefix fs w keys : Forall plain prefix → Forall plain fs →
  Forall (λ t, isBy t = false ∧ clause_keyword t = false) (default [] w) → Forall key_ok keys →
  Forall (λ t, clause_keyword t = false) (prefix ++ fs ++ with_words w ++ by_words keys).
Proof.
  intros Hp Hf Hw Hk. assert (Hplain : ∀ l, Forall plain l → Forall (λ t, clause_keyword t = false) l).
  { intros l H. eapply Forall_impl; [exact H|]. intros t. apply clause_not_by. }
  rewrite !Forall_app. split_and!; [by apply Hplain..| |].
  - destruct w as [junk|]; [|constructor]. constructor; [done|]. eapply Forall_impl; [exact Hw|]. by intros t [_ H].
  - destruct keys as [|k keys]; [constructor|]. unfold by_words. constructor; [done|]. revert Hk. generalize (k :: keys). clear.
    induction l as [|[t d] l IH]; intros Hk; [constructor|]. inv Hk. change (mjoin (key_words <$> mkKey t d :: l)) with (key_words (mkKey t d) ++ mjoin (key_words <$> l)).
    apply Forall_app. split; [|by apply IH]. destruct H1 as [Ht _]. apply clause_not_by in Ht. by destruct d; repeat constructor.
Qed.

(** C40. A query is read back from its words. Let the words be a verb (in any case), the file
    (unless the active list supplies it), fields, an optional WITH with any words, and sort
    keys after BY (for SORT), and let the clauses HEADING, FOOTING, BREAK-ON, TOTAL
    and ID-SUPP, each at most once and with keywords in any case, stand anywhere after the verb, in
    any order, even between BY and a key. If the file, the fields and the keys are
    not keywords, the parser returns exactly the query with that verb, file, fields, keys and
    clauses; the words of WITH change nothing. *)
Theorem query_parses v vt ctx file prefix fs w keys cs ts :
  verbFrom vt = Some v → names_file ctx file prefix → file ≠ "" →
  Forall plain prefix → Forall plain fs → Forall (λ t, isBy t = false ∧ clause_keyword t = false) (default [] w) → Forall key_ok keys →
  (keys = [] ∨ v = SORT) → NoDup (kind <$> cs) →
  mix (prefix ++ fs ++ with_words w ++ by_words keys) cs ts →
  parse (vt :: ts) ctx = inl (query_of v file (foldl add_clause no_clauses cs) fs keys).
Proof.
  intros Hvt Hctx Hfile Hp Hf Hw Hk Hv Hnd Hmix. unfold parse. rewrite Hvt.
  rewrite (strip_mix _ _ _ Hmix); [|by apply base_words|done|]; cycle 1.
  { apply Forall_true. by intros []. }
  assert (Himp : imposedFileName ctx = Some file → imposed ctx = Some file).
  { intros H. unfold imposed. rewrite H. by destruct file. }
  pose proof (parse_fields_words v file (foldl add_clause no_clauses cs) fs w keys Hf (Forall_impl _ _ _ Hw (λ t H, proj1 H)) Hk Hv) as Hparse.
  unfold names_file in Hctx. destruct (implicitFile ctx).
  - destruct Hctx as [Hi ->]. cbn [app]. rewrite (Himp Hi). destruct (_ && _) eqn:E; [|done].
    apply andb_true_iff in E as [Ev%bool_decide_eq_true Ef%bool_decide_eq_true].
    apply app_eq_nil in Ef as [-> Ef]. apply app_eq_nil in Ef as [_ Ef]. by destruct keys.
  - subst prefix. cbn [app]. rewrite (bool_decide_false (_ :: _ = [])), andb_false_r by done. destruct file; [done|]. exact Hparse.
Qed.

Lemma query_parses_witness :
  parse ["sort"; "Heading"; "My list @PAGE"; "CUST"; "NAME"; "WITH"; "X"; "total"; "AMT"; "BY"; "CITY"; "ID-SUPP"; "BY-DSND"; "AMT"] (mkContext false None) =
  inl (mkQuery SORT "CUST" ["NAME"] [mkKey "CITY" false; mkKey "AMT" true] (Some "My list @PAGE") None (Some "AMT") true None).
Proof.
  refine (query_parses SORT "sort" (mkContext false None) "CUST" ["CUST"] ["NAME"] (Some ["X"]) [mkKey "CITY" false; mkKey "AMT" true]
    [Heading "My list @PAGE"; Total "AMT"; IdSupp] _ _ _ _ _ _ _ _ _ _ _); try done; try (by repeat constructor); try (by right).
  - by apply (bool_decide_unpack (NoDup [0; 3; 4]%nat)).
  - apply (mix_clause (Heading _) ["Heading"; _]); [by constructor|]. do 4 apply mix_word.
    apply (mix_clause (Total _) ["total"; _]); [by constructor|]. do 2 apply mix_word.
    apply (mix_clause IdSupp ["ID-SUPP"]); [by constructor|]. do 2 apply mix_word. constructor.
Defined.
