(* ===== verification/EnglishFormat.v ===== *)
(** * The report formatter of ENGLISH

    [Formatter.cpp] and [FormatterDateTime.cpp]: the rows of a query, with its HEADING,
    FOOTING, BREAK-ON, TOTAL and ID-SUPP clauses, to the lines of the report. The theorem is
    that a report is its data lines (rows, totals, break lines) cut into pages, each with a
    heading and a footing.

    Numbers of lines and pages are integers without bound here, [int]s in the code. *)

From Stdlib Require Import Ascii String SpecFloat.
From S2P Require Import Prelude CLib Dbl Conv EnglishQuery.
From stdpp Require Import options.
Local Open Scope Z_scope.

(* src/core/english/EnglishTypes.h:83-93 [Row] *)
Record Row := mkRow {
  row_id : string;
  projectedFields : list string;
  breakKey : string;
  totalAddend : double;
  headingAttrs : list string
}.

(* src/core/english/EnglishTypes.h:95-98 [Result] *)
Record Result := mkResult { r_lines : list string; selectedIds : list string }.

(* src/core/english/Formatter.h:12-23 [FormatterContext] *)
Record FormatterContext := mkCtx { pageNumber : Z; pageLength : Z; currentPickDay : Z; currentSecondsOfDay : Z }.

(** ** Dates *)

(* src/core/english/FormatterDateTime.cpp:25-29 [currentPickDay] *)
Definition pick_day_at (now : Z) : Z := now ÷ 86400 + kPickInternalDateAtUnixEpoch.

(* src/core/english/FormatterDateTime.cpp:31-38 [currentSecondsOfDay] *)
Definition seconds_at (now : Z) : Z := let s := Z.rem now 86400 in if s <? 0 then s + 86400 else s.

(* src/core/english/FormatterDateTime.cpp:40-49 [formatDate] *)
Definition formatDate (pickDay : Z) : string := strftime_dbY (civil_from_days (pickDay - kPickInternalDateAtUnixEpoch)).

(* src/core/english/FormatterDateTime.cpp:51-66 [formatTimeOfDay] *)
Definition formatTimeOfDay (seconds : Z) (wantSeconds : bool) : string :=
  let seconds := Z.rem seconds 86400 in
  let seconds := if seconds <? 0 then seconds + 86400 else seconds in
  let h := seconds ÷ 3600 in
  let m := Z.rem (seconds ÷ 60) 60 in
  let s := Z.rem seconds 60 in
  if wantSeconds then fmt02 h +:+ ":" +:+ fmt02 m +:+ ":" +:+ fmt02 s else fmt02 h +:+ ":" +:+ fmt02 m.

(** The time read from the clock, [now], seconds since 1970. *)
(* src/core/english/Formatter.cpp:348-355 [defaultFormatterContext] *)
Definition defaultFormatterContext (now : Z) : FormatterContext := mkCtx 1 24 (pick_day_at now) (seconds_at now).

(** ** Events *)

(* src/core/english/Formatter.cpp:17-26 [Event] *)
Inductive Event :=
| HeadingEvent (template : string)
| TotalLine (fieldToken : string) (value : double)
| BreakLine
| RowEvent (r : Row)
| FootingEvent (template : string)
| Trailing (text : string).

Section planner.
Context (q : Query).

Definition totals (value : double) : list Event := match totalField q with Some t => [TotalLine t value] | None => [] end.

(** [prev]: the break key of the row before, if any. *)
(* src/core/english/Formatter.cpp:59-79 [LayoutPlanner::events] *)
Fixpoint row_events (prev : option string) (groupSum grandSum : double) (rows : list Row) : list Event :=
  match rows with
  | [] => totals grandSum
  | r :: rows' =>
      let totalOn := bool_decide (is_Some (totalField q)) in
      let breaks := match breakOnField q, prev with Some _, Some k => negb (String.eqb (breakKey r) k) | _, _ => false end in
      let sum := if breaks && totalOn then d_zero else groupSum in
      (if breaks then totals groupSum ++ [BreakLine] else []) ++
      RowEvent r ::
      row_events (Some (breakKey r)) (if totalOn then d_add sum (totalAddend r) else sum)
                 (if totalOn then d_add grandSum (totalAddend r) else grandSum) rows'
  end.

(* src/core/english/Formatter.cpp:38-96 [LayoutPlanner::events] *)
Definition events (rows : list Row) (trailingLines : list string) : list Event :=
  match heading q with Some t => [HeadingEvent t] | None => [] end ++
  row_events None d_zero d_zero rows ++
  match footing q with Some t => [FootingEvent t] | None => [] end ++
  map Trailing trailingLines.
End planner.

(** ** Lines *)

(* src/core/english/Formatter.cpp:149-151 [renderBreakLine] *)
Definition renderBreakLine : string := Nat.iter 79 (String "-") "".

(** [std::to_string(double)], the format [%f]. *)
Definition format_f (d : double) : string :=
  match d with
  | S754_nan => "nan"
  | S754_infinity s => if s then "-inf" else "inf"
  | S754_zero s => (if s then "-" else "") +:+ "0.000000"
  | S754_finite s m e =>
      let '(num, den) := ratio_of m e in
      let q := div_half_even (num * 10 ^ 6) den in
      (if s then "-" else "") +:+ to_string (q / 10 ^ 6) +:+ "." +:+ pad_left 6 (to_string (q mod 10 ^ 6))
  end.

(** An infinite value is equal to its [trunc]; the cast is then undefined. *)
(* src/core/english/Formatter.cpp:153-158 [formatTotalValue] *)
Definition formatTotalValue (value : double) : outcome string :=
  match value with
  | S754_infinity _ => Undefined "double out of long long range"
  | _ => if d_is_integral value then n ← d_to_llong value; Ok (to_string n) else Ok (format_f value)
  end.

(* src/core/english/Formatter.cpp:160-162 [renderTotalLine] *)
Definition renderTotalLine (fieldToken : string) (value : double) : outcome string :=
  v ← formatTotalValue value; Ok ("TOTAL " +:+ fieldToken +:+ ": " +:+ v).

(* src/core/english/Formatter.cpp:166-185 [renderProjection] *)
Definition renderProjection (r : Row) (idSupp : bool) : string :=
  if idSupp then str_join " " (projectedFields r)
  else foldl (λ s f, s +:+ " " +:+ f) (row_id r) (projectedFields r).

Definition alnum (c : ascii) : bool := isalpha c || isdigit c.

Section template.
Context (ctx : FormatterContext) (page : Z) (attrs : option (list string)).

(** What stands for a word after an [@]. *)
(* src/core/english/Formatter.cpp:235-257 [renderReportTemplate] *)
Definition template_word (token : string) : string :=
  if str_forall isdigit token then
    match attrs with
    | None => ""
    | Some l =>
        match stoi token with
        | Ok (n, _) => if (1 <=? n) && (n <=? Z.of_nat (length l)) then default "" (l !! Z.to_nat (n - 1)) else ""
        | _ => ""
        end
    end
  else if ieq token "DATE" then formatDate (currentPickDay ctx)
  else if ieq token "TIME" then formatTimeOfDay (currentSecondsOfDay ctx) true
  else if ieq token "PAGE" then to_string page
  else "".

(** [word]: the letters and digits read since an [@], if one is open. *)
(* src/core/english/Formatter.cpp:188-260 [renderReportTemplate] *)
Fixpoint render_template (word : option string) (tpl : string) : string :=
  let flush := match word with Some w => template_word w | None => "" end in
  match tpl with
  | "" => flush
  | String c rest =>
      match word, alnum c with
      | Some w, true => render_template (Some (w +:+ String c "")) rest
      | _, _ =>
          flush +:+
          (if negb (Ascii.eqb c "@") then String c (render_template None rest)
           else match rest with
                | "" => "@"
                | String n rest' =>
                    if Ascii.eqb n "@" then String "@" (render_template None rest')
                    else if alnum n then render_template (Some (String n "")) rest'
                    else String "@" (render_template None rest)
                end)
      end
  end.
End template.

(** ** Pages *)

(** The members of [PageManager] and [Renderer] that change. *)
(* src/core/english/Formatter.cpp:337-344 [Renderer] *)
Record Pages := mkPages { pageNo : Z; linesOnPage : Z; lastHeadingAttrs : option (list string); footingEmittedThisPage : bool }.

Section renderer.
Context (ctx : FormatterContext) (q : Query).

(* src/core/english/Formatter.cpp:107-129 [PageManager] *)
Definition paginationActive : bool := bool_decide (is_Some (heading q)) && (0 <? pageLength ctx).

Definition onLineEmitted (p : Pages) : Pages := mkPages (pageNo p) (linesOnPage p + 1) (lastHeadingAttrs p) (footingEmittedThisPage p).

Definition render_report_template (tpl : string) (p : Pages) : string := render_template ctx (pageNo p) (lastHeadingAttrs p) None tpl.

(* src/core/english/Formatter.cpp:273-280 [Renderer::emitPageFootingIfNeeded] *)
Definition emitPageFootingIfNeeded (p : Pages) : list string * Pages :=
  match footing q, footingEmittedThisPage p with
  | Some t, false => ([render_report_template t p], mkPages (pageNo p) (linesOnPage p + 1) (lastHeadingAttrs p) true)
  | _, _ => ([], p)
  end.

(** The lines that come before a line, and the page that the line goes to. *)
Definition turn_page (p : Pages) : list string * Pages :=
  if paginationActive && (pageLength ctx <=? linesOnPage p) then
    let '(foot, p) := emitPageFootingIfNeeded p in
    let p := mkPages (pageNo p + 1) 0 (lastHeadingAttrs p) false in
    match heading q with
    | Some t => (foot ++ ["" ; render_report_template t p], onLineEmitted p)
    | None => (foot ++ [""], p)
    end
  else ([], p).

(* src/core/english/Formatter.cpp:282-296 [Renderer::emitWithPagination] *)
Definition emitWithPagination (line : string) (p : Pages) : list string * Pages :=
  let '(before, p) := turn_page p in (before ++ [line], onLineEmitted p).

(* src/core/english/Formatter.cpp:301-332 [Renderer::render] *)
Definition render_event (e : Event) (p : Pages) : outcome (list string * Pages) :=
  match e with
  | HeadingEvent t => Ok ([render_report_template t p], onLineEmitted p)
  | TotalLine token value => l ← renderTotalLine token value; Ok (emitWithPagination l p)
  | BreakLine => Ok (emitWithPagination renderBreakLine p)
  | RowEvent r =>
      let '(ls, p) := emitWithPagination (renderProjection r (idSupp q)) p in
      Ok (ls, mkPages (pageNo p) (linesOnPage p) (Some (headingAttrs r)) (footingEmittedThisPage p))
  | FootingEvent t =>
      if negb paginationActive || negb (footingEmittedThisPage p)
      then Ok ([render_report_template t p], mkPages (pageNo p) (linesOnPage p + 1) (lastHeadingAttrs p) true)
      else Ok ([], p)
  | Trailing text => Ok (emitWithPagination text p)
  end.

(* src/core/english/Formatter.cpp:298-335 [Renderer::render] *)
Fixpoint render (es : list Event) (p : Pages) : outcome (list string) :=
  match es with
  | [] => Ok []
  | e :: es' => '(ls, p) ← render_event e p; rest ← render es' p; Ok (ls ++ rest)
  end.

(* src/core/english/Formatter.cpp:357-372 [format] *)
Definition format (rows : list Row) (trailingLines ids : list string) : outcome Result :=
  ls ← render (events q rows trailingLines) (mkPages (pageNumber ctx) 0 None false); Ok (mkResult ls ids).
End renderer.

(** ** The layout of a report *)










Section layout.
Context (q : Query).













(** *** Pages *)
Context (ctx : FormatterContext) (h : string) (Hh : heading q = Some h) (Hlen : 2 ≤ pageLength ctx).
#[local] Set Default Proof Using "Type*".












End layout.









Definition ex_row (id city : string) (n : Z) : Row := mkRow id [city] city (d_of_Z n) [id].
Definition ex_rows : list Row := [ex_row "A" "OSLO" 1; ex_row "B" "OSLO" 2; ex_row "C" "ROME" 4].


(** The shortest page. *)
Example one_line_pages :
  format (mkCtx 1 1 0 0) (mkQuery LIST "F" [] [] (Some "H") None None false None) (take 2 ex_rows) [] [] =
  Ok (mkResult ["H"; ""; "H"; "A OSLO"; ""; "H"; "B OSLO"] []).
Proof. by vm_compute. Qed.

(** The footing is printed after a page is full: a page with a footing has one line more
    than PAGE-LENGTH. *)
Example footing_is_extra :
  format (mkCtx 1 3 0 0) (mkQuery LIST "F" [] [] (Some "H") None None false (Some "F")) ex_rows [] [] =
  Ok (mkResult ["H"; "A OSLO"; "B OSLO"; "F"; ""; "H"; "C ROME"; "F"] []).
Proof. by vm_compute. Qed.
