(* ===== verification/EnglishExec.v ===== *)
(** * Running ENGLISH queries

    [Executor.cpp], [Planner.h] and [EnglishService.cpp]: the records of a query to rows (in the order
    of the file, of the active list, or sorted) and to a report. *)

From Stdlib Require Import Ascii String SpecFloat.
From S2P Require Import Prelude CLib Dbl Records Locks FileSys Correl Dict EnglishQuery EnglishFormat.
From stdpp Require Import options.
Local Open Scope Z_scope.

(** ** Sort keys *)

(* src/core/english/Executor.cpp:13-22 [KeyPart] *)
Inductive KeyPart := StringKey (s : string) | NumberKey (n : double).

(** The member [str]; empty in a number. *)
Definition key_str (p : KeyPart) : string := match p with StringKey s => s | NumberKey _ => "" end.

(* src/core/english/Executor.cpp:33-55 [tryParseNumeric] *)
Definition tryParseNumeric (raw : string) : option double :=
  let blank (c : ascii) := if Ascii.eqb c "," || Ascii.eqb c "$" then " "%char else c in
  let s := trim_by isspace (str_map blank (trim_by isspace raw)) in
  if str_empty s then None else match stod s with Ok (v, _) => Some v | _ => None end.

(* src/core/english/Executor.cpp:57-72 [makeSortPart] *)
Definition makeSortPart (rawFirstValue : string) (conv : ConversionCode) : KeyPart :=
  match conv with
  | ConvNone => StringKey rawFirstValue
  | _ => match tryParseNumeric rawFirstValue with Some n => NumberKey n | None => StringKey rawFirstValue end
  end.

Definition str_ltb (a b : string) : bool := match String.compare a b with Lt => true | _ => false end.

(* src/core/english/Executor.cpp:74-91 [comparePartsAsc] *)
Definition comparePartsAsc (a b : KeyPart) : Z :=
  match a, b with
  | NumberKey x, NumberKey y => if d_ltb x y then -1 else if d_ltb y x then 1 else 0
  | _, _ => if str_ltb (key_str a) (key_str b) then -1 else if str_ltb (key_str b) (key_str a) then 1 else 0
  end.

(* src/core/english/Executor.cpp:93-96 [comparePartsWithDesc] *)
Definition comparePartsWithDesc (a b : KeyPart) (desc : bool) : Z := if desc then - comparePartsAsc a b else comparePartsAsc a b.

(** The first difference; a missing direction is ascending. *)
Fixpoint compare_keys (ka kb : list KeyPart) (desc : list bool) : Z :=
  match ka, kb with
  | a :: ka', b :: kb' =>
      let c := comparePartsWithDesc a b (default false (head desc)) in
      if c =? 0 then compare_keys ka' kb' (tail desc) else c
  | _, _ => 0
  end.

(* src/core/english/Executor.cpp:364-375 [Executor::produceRows] *)
Definition cmpRows (desc : list bool) (a b : list KeyPart * string) : bool :=
  let c := compare_keys a.1 b.1 desc in if c =? 0 then str_ltb a.2 b.2 else c <? 0.

(** ** [std::stable_sort]

    The comparison must be a strict weak order on the elements; otherwise the
    behaviour is undefined. *)
Section stable_sort.
Context {A : Type} (less : A → A → bool).

Definition incomparable (a b : A) : bool := negb (less a b) && negb (less b a).

Definition strict_weak (l : list A) : bool :=
  forallb (λ a, negb (less a a) &&
    forallb (λ b, forallb (λ c,
      (negb (less a b && less b c) || less a c) && (negb (incomparable a b && incomparable b c) || incomparable a c)) l) l) l.

Fixpoint insert_sorted (x : A) (l : list A) : list A :=
  match l with [] => [x] | y :: l' => if less y x then y :: insert_sorted x l' else x :: l end.

Definition stable_sort (l : list A) : outcome (list A) :=
  if strict_weak l then Ok (foldr insert_sorted [] l) else Undefined "stable_sort without a strict weak order".
End stable_sort.

(** ** Rows *)

(* src/core/english/Executor.cpp:103-115 [materializeProjection] *)
Definition materializeProjection (rec : option PickRecord) (fields : list FieldRef) : outcome (list string) :=
  match rec with None => Ok [] | Some r => mapM (λ f, evaluateFieldCell f (structured r)) fields end.

(* src/core/english/Executor.cpp:117-122 [materializeBreakKey] *)
Definition materializeBreakKey (rec : option PickRecord) (breakRef : FieldRef) : outcome string :=
  match rec with None => Ok "" | Some r => evaluateFieldCell breakRef (structured r) end.

(* src/core/english/Executor.cpp:124-129 [materializeTotalCell] *)
Definition materializeTotalCell (rec : option PickRecord) (totalRef : FieldRef) : outcome string :=
  match rec with None => Ok "" | Some r => evaluateFieldCell totalRef (structured r) end.

(** The number after an [@], if [word] is one, against the largest so far. *)
Definition larger_index (word : string) (largest : Z) : Z :=
  if str_forall isdigit word then match stoi word with Ok (n, _) => Z.max largest n | _ => largest end else largest.

(* src/core/english/Executor.cpp:132-179 [maxTemplateAttributeIndex] *)
Fixpoint max_index (word : option string) (tpl : string) (largest : Z) : Z :=
  let largest' := match word with Some w => larger_index w largest | None => largest end in
  match tpl with
  | "" => largest'
  | String c rest =>
      match word, alnum c with
      | Some w, true => max_index (Some (w +:+ String c "")) rest largest
      | _, _ =>
          if negb (Ascii.eqb c "@") then max_index None rest largest'
          else match rest with
               | "" => largest'
               | String n rest' =>
                   if Ascii.eqb n "@" then max_index None rest' largest'
                   else if isdigit n then max_index (Some (String n "")) rest' largest'
                   else max_index None rest largest'
               end
      end
  end.

Definition maxTemplateAttributeIndex (tpl : string) : Z := max_index None tpl 0.

(* src/core/english/Executor.cpp:181-197 [materializeHeadingAttrs] *)
Definition materializeHeadingAttrs (rec : PickRecord) (maxAttr : Z) : list string :=
  map (λ i, let n := Z.of_nat (S i) in
            if hasAttribute (structured rec) n then firstValue (attribute (structured rec) n) else "")
      (List.seq 0 (Z.to_nat maxAttr)).

(* src/core/english/Executor.cpp:199-208 [materializeSortKeys] *)
Definition materializeSortKeys (rec : PickRecord) (refs : list FieldRef) : outcome (list KeyPart) :=
  mapM (λ ref, cell ← evaluateFieldCell ref (structured rec); Ok (makeSortPart cell (conversion ref))) refs.

(* src/core/english/Executor.cpp:210-215 [itemIdKey] *)
Definition itemIdKey (id : string) : list KeyPart := [StringKey id].

(* src/core/english/Executor.cpp:217-227 [firstUnresolvedFieldError] *)
Fixpoint firstUnresolvedFieldError (refs : list FieldRef) (dataFile : string) : option string :=
  match refs with
  | [] => None
  | r :: refs' =>
      if fieldRefIsResolved r then firstUnresolvedFieldError refs' dataFile
      else Some ("Unknown ENGLISH field " +:+ String DQUOTE (token r +:+ String DQUOTE "") +:+ " (not in " +:+
                 scopedDictLogicalName dataFile +:+ " nor DICT)")
  end.

(** ** The executor *)

(* src/core/english/EnglishTypes.h:100-107 [EnglishRunOptions] *)
Record EnglishRunOptions := mkOptions { constrainRecordIds : option (list string); o_pageLength : option Z }.

(** The out-parameters, and the message ([""]: none). *)
Record Produced := mkProduced { p_rows : list Row; p_trailing : list string; p_selected : list string; p_error : string }.

Section executor.
Context (host : HostFs) (fs : FileSystem) (q : Query).

Definition stop (e : string) : proc World Produced := mret (mkProduced [] [] [] e).

(** A field of the query: what it stands for, or the message. *)
(* src/core/english/Executor.cpp:270-279 [Executor::produceRows] *)
Definition clause_field (clause : option string) : proc World (option FieldRef + string) :=
  match clause with
  | None => mret (inl None)
  | Some f =>
      ref ← resolveField host fs (fileName q) f;
      mret (match firstUnresolvedFieldError [ref] (fileName q) with Some e => inr e | None => inl (Some ref) end)
  end.

(* src/core/english/Executor.cpp:308-324 [Executor::produceRows] *)
Definition read_row (fields : list FieldRef) (breakRef totalRef : option FieldRef) (maxAttr : Z) (id : string) : proc World (Row * option PickRecord) :=
  rec ← read host fs (fileName q) id;
  projected ← lift (materializeProjection rec fields);
  brk ← match breakRef with Some r => lift (materializeBreakKey rec r) | None => mret "" end;
  total ← match totalRef with
          | Some r => cell ← lift (materializeTotalCell rec r); mret (default d_zero (tryParseNumeric cell))
          | None => mret d_zero
          end;
  let attrs := match rec with Some r => if 0 <? maxAttr then materializeHeadingAttrs r maxAttr else [] | None => [] end in
  mret (mkRow id projected brk total attrs, rec).

(** The rows and records read, the identifiers seen, and the message of an exception. *)
(* src/core/english/Executor.cpp:303-329 [Executor::produceRows] *)
Fixpoint scan (one : string → proc World (Row * option PickRecord)) (ids : list string) : proc World (list (Row * option PickRecord) * list string * option string) :=
  match ids with
  | [] => mret ([], [], None)
  | id :: ids' =>
      r ← caught (one id);
      match r with
      | inr e => mret ([], [id], Some e)
      | inl x => r' ← scan one ids'; let '(xs, seen, e) := r' in mret (x :: xs, id :: seen, e)
      end
  end.

(** The sort key of each row. *)
(* src/core/english/Executor.cpp:352-362 [Executor::produceRows] *)
Fixpoint row_keys (refs : list FieldRef) (rows : list (Row * option PickRecord)) (ids : list string) : outcome (list (list KeyPart)) :=
  match rows, ids with
  | (_, rec) :: rows', id :: ids' =>
      k ← (if bool_decide (refs = []) then Ok (itemIdKey id)
           else match rec with Some r => materializeSortKeys r refs | None => Ok (replicate (length refs) (StringKey "")) end);
      ks ← row_keys refs rows' ids'; Ok (k :: ks)
  | _, _ => Ok []
  end.

(** The rows in the order of their keys. The code sorts the positions of the rows. *)
(* src/core/english/Executor.cpp:336-387 [Executor::produceRows] *)
Definition sort_rows (refs : list FieldRef) (desc : list bool) (rows : list (Row * option PickRecord)) (ids : list string) : outcome (list Row) :=
  keys ← row_keys refs rows ids;
  sorted ← stable_sort (λ a b, cmpRows desc a.1 b.1) (zip (zip keys ids) rows.*1);
  Ok sorted.*2.

(* src/core/english/Executor.cpp:291-297 [Executor::produceRows] *)
Definition template_max : Z :=
  let index t := match t with Some tpl => maxTemplateAttributeIndex tpl | None => 0 end in
  Z.max (Z.max 0 (index (heading q))) (index (footing q)).

(* src/core/english/Executor.cpp:230-387 [Executor::produceRows] *)
Definition produceRows (opts : EnglishRunOptions) : proc World Produced :=
  listed ← match constrainRecordIds opts with
           | Some ids => mret (inl ids)
           | None => caught (listRecordNames host fs (fileName q))
           end;
  match listed with
  | inr e => stop e
  | inl ids =>
      if bool_decide (verb q = COUNT) then mret (mkProduced [] [to_string (Z.of_nat (length ids))] [] "")
      else
        fields ← resolveFields host fs (fileName q) (fields q);
        match (if bool_decide (EnglishQuery.fields q = []) then None else firstUnresolvedFieldError fields (fileName q)) with
        | Some e => stop e
        | None =>
            brk ← clause_field (breakOnField q);
            match brk with
            | inr e => stop e
            | inl breakRef =>
                tot ← clause_field (totalField q);
                match tot with
                | inr e => stop e
                | inl totalRef =>
                    if bool_decide (verb q = SELECT) then
                      mret (mkProduced [] [to_string (Z.of_nat (length ids)) +:+ " records selected"] ids "")
                    else
                      scanned ← scan (read_row fields breakRef totalRef template_max) ids;
                      let '(rows, seen, err) := scanned in
                      match err with
                      | Some e => mret (mkProduced rows.*1 [] seen e)
                      | None =>
                          if bool_decide (verb q = SORT) then
                            refs ← resolveFields host fs (fileName q) (fieldToken <$> sortKeys q);
                            match firstUnresolvedFieldError refs (fileName q) with
                            | Some e => mret (mkProduced rows.*1 [] seen e)
                            | None => sorted ← lift (sort_rows refs (descending <$> sortKeys q) rows ids); mret (mkProduced sorted [] seen "")
                            end
                          else mret (mkProduced rows.*1 [] seen "")
                      end
                end
            end
        end
  end.

(** The result and the message. *)
(* src/core/english/Executor.cpp:389-410 [Executor::execute] *)
Definition execute (opts : EnglishRunOptions) (now : Z) : proc World (Result * string) :=
  p ← produceRows opts;
  if negb (str_empty (p_error p)) then mret (mkResult [] [], p_error p)
  else
    let ctx := defaultFormatterContext now in
    let ctx := match o_pageLength opts with
               | Some n => mkCtx (pageNumber ctx) n (currentPickDay ctx) (currentSecondsOfDay ctx)
               | None => ctx
               end in
    r ← lift (format ctx q (p_rows p) (p_trailing p) (p_selected p));
    mret (r, "").
End executor.

(** [inr]: the message. *)
(* src/core/english/EnglishService.cpp:4-19 [EnglishService::run] *)
Definition english (host : HostFs) (fs : FileSystem) (tokens : list string) (ctx : ParseContext) (opts : EnglishRunOptions) (now : Z) :
    proc World (Result + string) :=
  match parse tokens ctx with
  | inr e => mret (inr e)
  | inl q =>
      r ← execute host fs q opts now;
      let '(result, error) := r in
      mret (if str_empty error then inl result else inr error)
  end.

(** ** Three-way comparisons

    [c a b] is negative, zero or positive; on [P] it is a total preorder. *)
Record three_way {A} (P : A → A → Prop) (c : A → A → Z) : Prop := {
  tw_opp a b : P a b → c b a = - c a b;
  tw_trans a b d : P a b → P b d → P a d → c a b ≤ 0 → c b d ≤ 0 → c a d ≤ 0
}.

Lemma three_way_strict {A} (P : A → A → Prop) (c : A → A → Z) a b d : three_way P c → (∀ x y, P x y → P y x) → P a b → P b d → P a d →
  c a b ≤ 0 → c b d ≤ 0 → c a b < 0 ∨ c b d < 0 → c a d < 0.
Proof.
  intros [Ho Ht] Hs Hab Hbd Had H1 H2 H3. pose proof (Ht a b d Hab Hbd Had H1 H2). destruct (Z.eq_dec (c a d) 0) as [E|]; [|lia].
  pose proof (Ho a d Had). pose proof (Ho a b Hab). pose proof (Ho b d Hbd).
  assert (c b a ≤ 0) by (apply (Ht b d a); auto; lia). assert (c d b ≤ 0) by (apply (Ht d a b); auto; lia). lia.
Qed.

Lemma three_way_zero {A} (P : A → A → Prop) (c : A → A → Z) a b d : three_way P c → (∀ x y, P x y → P y x) → P a b → P b d → P a d →
  c a b = 0 → c b d = 0 → c a d = 0.
Proof.
  intros [Ho Ht] Hs Hab Hbd Had H1 H2. pose proof (Ho a d Had). pose proof (Ho a b Hab). pose proof (Ho b d Hbd).
  assert (c a d ≤ 0) by (apply (Ht a b d); auto; lia). assert (c d a ≤ 0) by (apply (Ht d b a); auto; lia). lia.
Qed.

(** From a strict order that is total up to equality of ranks. *)
Definition compare_by {A} (lt : A → A → bool) (a b : A) : Z := if lt a b then -1 else if lt b a then 1 else 0.

Lemma compare_by_le {A} (lt : A → A → bool) a b : (lt a b = true → lt b a = false) → compare_by lt a b ≤ 0 ↔ lt b a = false.
Proof. unfold compare_by. intros H. destruct (lt a b), (lt b a); try (split; [done|lia]). by specialize (H eq_refl). Qed.

Lemma compare_by_three_way {A} (P : A → A → Prop) (lt : A → A → bool) :
  (∀ a b, P a b → lt a b = true → lt b a = false) →
  (∀ a b d, P a b → P b d → P a d → lt d a = true → lt b a = true ∨ lt d b = true) →
  three_way P (compare_by lt).
Proof.
  intros Has Hneg. split.
  - unfold compare_by. intros a b Hab. pose proof (Has a b Hab) as H. destruct (lt a b) eqn:E1, (lt b a) eqn:E2; try done. by specialize (H eq_refl).
  - intros a b d Hab Hbd Had. rewrite !compare_by_le by auto.
    intros H1 H2. destruct (lt d a) eqn:E; [|done]. destruct (Hneg a b d Hab Hbd Had E); congruence.
Qed.

(** *** Numbers *)

(** The order of [SFltb]: sign, then exponent, then mantissa. *)
Definition rank (d : double) : Z * Z * Z :=
  match d with
  | S754_nan => (0, 0, 0)
  | S754_zero _ => (0, 0, 0)
  | S754_infinity s => ((if s then -2 else 2), 0, 0)
  | S754_finite true m e => (-1, - e, - Z.pos m)
  | S754_finite false m e => (1, e, Z.pos m)
  end.

Definition rank_lt (a b : Z * Z * Z) : Prop :=
  let '(a1, a2, a3) := a in let '(b1, b2, b3) := b in a1 < b1 ∨ (a1 = b1 ∧ (a2 < b2 ∨ (a2 = b2 ∧ a3 < b3))).

Lemma d_ltb_rank x y : d_is_nan x = false → d_is_nan y = false → d_ltb x y = true ↔ rank_lt (rank x) (rank y).
Proof.
  unfold d_ltb, SFltb, rank_lt. intros Hx Hy.
  destruct x as [sx|[]| |[] mx ex], y as [sy|[]| |[] my ey]; try done; cbn; try (split; intros; try done; lia).
  - change (Pos.compare_cont Eq mx my) with (Z.compare (Z.pos mx) (Z.pos my)).
    destruct (Z.compare_spec ex ey), (Z.compare_spec (Z.pos mx) (Z.pos my)); cbn; split; intros; try done; lia.
  - change (Pos.compare_cont Eq mx my) with (Z.compare (Z.pos mx) (Z.pos my)).
    destruct (Z.compare_spec ex ey), (Z.compare_spec (Z.pos mx) (Z.pos my)); cbn; split; intros; try done; lia.
Qed.

(** *** Keys *)

(** Two key parts that the code can compare: two numbers, or two strings. *)
Definition same_kind (a b : KeyPart) : Prop :=
  match a, b with
  | NumberKey x, NumberKey y => d_is_nan x = false ∧ d_is_nan y = false
  | StringKey _, StringKey _ => True
  | _, _ => False
  end.

Lemma same_kind_sym a b : same_kind a b → same_kind b a.
Proof. destruct a, b; cbn; tauto. Qed.

Lemma str_ltb_lt a b : str_ltb a b = true ↔ str_lt a b.
Proof. unfold str_ltb, str_lt. destruct (String.compare a b); naive_solver. Qed.

Lemma str_ltb_asym a b : str_ltb a b = true → str_ltb b a = false.
Proof.
  rewrite str_ltb_lt. intros H. destruct (str_ltb b a) eqn:E; [|done]. apply str_ltb_lt in E.
  destruct (str_lt_irrefl a). by apply str_lt_trans with b.
Qed.

Lemma str_lt_total a b : str_lt a b ∨ a = b ∨ str_lt b a.
Proof.
  destruct (str_leq_total a b) as [H|H]; apply str_leq_lt in H; naive_solver.
Qed.

Lemma str_three_way : three_way (λ _ _, True) (compare_by str_ltb).
Proof.
  apply compare_by_three_way; [intros a b _; apply str_ltb_asym|]. intros a b d _ _ _. rewrite !str_ltb_lt. intros H.
  destruct (str_lt_total a b) as [H1|[->|H1]]; [right|by right|by left]. by apply str_lt_trans with a.
Qed.

Lemma d_three_way : three_way (λ x y, d_is_nan x = false ∧ d_is_nan y = false) (compare_by d_ltb).
Proof.
  apply compare_by_three_way.
  - intros a b [Ha Hb] H. apply (d_ltb_rank a b Ha Hb) in H. destruct (d_ltb b a) eqn:E; [|done]. apply (d_ltb_rank b a Hb Ha) in E.
    unfold rank_lt in *. destruct (rank a) as [[? ?] ?], (rank b) as [[? ?] ?]. lia.
  - intros a b d [Ha Hb] [_ Hd] _. rewrite !d_ltb_rank by done.
    unfold rank_lt. destruct (rank a) as [[? ?] ?], (rank b) as [[? ?] ?], (rank d) as [[? ?] ?]. lia.
Qed.

Lemma part_three_way : three_way same_kind comparePartsAsc.
Proof.
  destruct str_three_way as [So St], d_three_way as [Do Dt]. split.
  - intros [x|x] [y|y]; cbn; try done; intros H; [by apply So|by apply Do].
  - intros [x|x] [y|y] [z|z]; cbn; try done; intros H1 H2 H3; [by apply St|by apply Dt].
Qed.

Lemma desc_three_way d : three_way same_kind (λ a b, comparePartsWithDesc a b d).
Proof.
  destruct part_three_way as [Ho Ht]. unfold comparePartsWithDesc. destruct d; [|by split]. split.
  - intros a b H. by rewrite (Ho a b H).
  - intros a b x H1 H2 H3. pose proof (Ho _ _ H1). pose proof (Ho _ _ H2). pose proof (Ho _ _ H3).
    intros ??. enough (comparePartsAsc x a ≤ 0) by lia. apply (Ht x b a); auto using same_kind_sym; lia.
Qed.

Lemma keys_three_way desc : three_way (Forall2 same_kind) (λ a b, compare_keys a b desc).
Proof.
  assert (Hs : ∀ a b, same_kind a b → same_kind b a) by apply same_kind_sym. split.
  - intros a b H. revert desc. induction H as [|x y a b Hxy H IH]; intros desc; cbn; [done|].
    set (d := default false (head desc)). destruct (desc_three_way d) as [Ho _]. rewrite (Ho x y Hxy).
    destruct (Z.eqb_spec (comparePartsWithDesc x y d) 0) as [->|Hne]; [apply IH|]. by rewrite (proj2 (Z.eqb_neq _ 0)) by lia.
  - intros a b c Hab. revert desc c. induction Hab as [|x y a b Hxy Hab IH]; intros desc c Hbc Hac; inv Hbc; [done|]. inv Hac. cbn.
    match goal with H : same_kind y ?w |- _ => rename w into z, H into Hyz end.
    set (d := default false (head desc)).
    pose proof (three_way_strict _ _ x y z (desc_three_way d) Hs Hxy Hyz ltac:(done)) as Hlt.
    pose proof (three_way_zero _ _ x y z (desc_three_way d) Hs Hxy Hyz ltac:(done)) as Hz. cbn in Hlt, Hz.
    destruct (Z.eqb_spec (comparePartsWithDesc x y d) 0) as [E1|E1], (Z.eqb_spec (comparePartsWithDesc y z d) 0) as [E2|E2].
    + rewrite (Hz E1 E2). cbn. by apply IH.
    + intros _ H. pose proof (Hlt ltac:(lia) H ltac:(lia)). rewrite (proj2 (Z.eqb_neq _ 0)) by lia. lia.
    + intros H _. pose proof (Hlt H ltac:(lia) ltac:(lia)). rewrite (proj2 (Z.eqb_neq _ 0)) by lia. lia.
    + intros H1 H2. pose proof (Hlt H1 H2 ltac:(lia)). rewrite (proj2 (Z.eqb_neq _ 0)) by lia. lia.
Qed.

(** Keys, and the identifier when the keys are equal. *)
Definition compare_rows (desc : list bool) (a b : list KeyPart * string) : Z :=
  let c := compare_keys a.1 b.1 desc in if c =? 0 then compare_by str_ltb a.2 b.2 else c.

Definition comparable (a b : list KeyPart * string) : Prop := Forall2 same_kind a.1 b.1.

Lemma comparable_sym a b : comparable a b → comparable b a.
Proof. unfold comparable. intros H. apply Forall2_flip. eapply Forall2_impl; [exact H|]. intros x y. apply same_kind_sym. Qed.

Lemma rows_three_way desc : three_way comparable (compare_rows desc).
Proof.
  destruct (keys_three_way desc) as [Ho Ht]. destruct str_three_way as [So St].
  assert (Hs : ∀ a b, Forall2 same_kind a b → Forall2 same_kind b a).
  { intros a b H. apply Forall2_flip. eapply Forall2_impl; [exact H|]. intros x y. apply same_kind_sym. }
  unfold comparable, compare_rows. split.
  - intros [a i] [b j] H. cbn in *. rewrite (Ho a b H).
    destruct (Z.eqb_spec (compare_keys a b desc) 0) as [->|Hne]; [by apply So|]. by rewrite (proj2 (Z.eqb_neq _ 0)) by lia.
  - intros [a i] [b j] [c k] Hab Hbc Hac. cbn in *.
    pose proof (three_way_strict _ _ a b c (keys_three_way desc) Hs Hab Hbc Hac) as Hlt.
    pose proof (three_way_zero _ _ a b c (keys_three_way desc) Hs Hab Hbc Hac) as Hz. cbn in Hlt, Hz.
    destruct (Z.eqb_spec (compare_keys a b desc) 0) as [E1|E1], (Z.eqb_spec (compare_keys b c desc) 0) as [E2|E2].
    + rewrite (Hz E1 E2). by apply St.
    + intros _ H. pose proof (Hlt ltac:(lia) H ltac:(lia)). rewrite (proj2 (Z.eqb_neq _ 0)) by lia. lia.
    + intros H _. pose proof (Hlt H ltac:(lia) ltac:(lia)). rewrite (proj2 (Z.eqb_neq _ 0)) by lia. lia.
    + intros H1 H2. pose proof (Hlt H1 H2 ltac:(lia)). rewrite (proj2 (Z.eqb_neq _ 0)) by lia. lia.
Qed.

Lemma cmpRows_spec desc a b : cmpRows desc a b = (compare_rows desc a b <? 0).
Proof.
  unfold cmpRows, compare_rows. destruct (_ =? 0); [|done]. unfold compare_by.
  destruct (str_ltb a.2 b.2); [done|]. by destruct (str_ltb b.2 a.2).
Qed.

(** *** The sort *)
Section sort.
Context {A : Type} (less : A → A → bool) (c : A → A → Z) (P : A → A → Prop).
Context (Hless : ∀ a b, less a b = (c a b <? 0)) (Hc : three_way P c) (Hsym : ∀ a b, P a b → P b a).
#[local] Set Default Proof Using "Type*".

Definition all_comparable (l : list A) : Prop := ∀ a b, a ∈ l → b ∈ l → P a b.

Lemma strict_weak_holds l : all_comparable l → strict_weak less l = true.
Proof.
  intros Hl. unfold strict_weak. apply forallb_forall. intros a Ha%list_elem_of_In. apply andb_true_iff. split.
  { rewrite Hless. destruct Hc as [Ho _]. pose proof (Ho a a (Hl a a Ha Ha)). apply negb_true_iff, Z.ltb_ge. lia. }
  apply forallb_forall. intros b Hb%list_elem_of_In. apply forallb_forall. intros d Hd%list_elem_of_In.
  pose proof (three_way_strict P c a b d Hc Hsym) as H1. pose proof (three_way_zero P c a b d Hc Hsym) as H2.
  pose proof Hc as [Ho _]. pose proof (Hl a b Ha Hb) as Hab. pose proof (Hl b d Hb Hd) as Hbd. pose proof (Hl a d Ha Hd) as Had.
  unfold incomparable. rewrite !Hless, (Ho a b Hab), (Ho b d Hbd), (Ho a d Had).
  apply andb_true_iff. split.
  - destruct (Z.ltb_spec (c a b) 0), (Z.ltb_spec (c b d) 0), (Z.ltb_spec (c a d) 0); cbn; try done. specialize (H1 Hab Hbd Had). lia.
  - destruct (Z.ltb_spec (c a b) 0), (Z.ltb_spec (- c a b) 0), (Z.ltb_spec (c b d) 0), (Z.ltb_spec (- c b d) 0); cbn; try done.
    specialize (H2 Hab Hbd Had ltac:(lia) ltac:(lia)). by rewrite H2.
Qed.

Lemma insert_perm x l : insert_sorted less x l ≡ₚ x :: l.
Proof using Type. induction l as [|y l IH]; cbn; [done|]. destruct (less y x); [|done]. rewrite IH. by constructor. Qed.

Lemma sort_perm l : foldr (insert_sorted less) [] l ≡ₚ l.
Proof using Type. induction l as [|x l IH]; cbn; [done|]. by rewrite insert_perm, IH. Qed.

Lemma insert_ordered x l : (∀ a b, a ∈ x :: l → b ∈ x :: l → P a b) → StronglySorted (λ a b, c a b ≤ 0) l →
  StronglySorted (λ a b, c a b ≤ 0) (insert_sorted less x l).
Proof.
  pose proof Hc as [Ho Ht]. induction l as [|y l IH]; intros Hl Hs; cbn; [by repeat constructor|].
  assert (Hxy : P x y) by (apply Hl; set_solver). rewrite Hless. inv Hs. destruct (Z.ltb_spec (c y x) 0).
  - constructor; [apply IH; [|done]; intros a b Ha Hb; apply Hl; set_solver|].
    rewrite insert_perm. constructor; [lia|done].
  - pose proof (Ho x y Hxy). constructor; [by constructor|]. constructor; [lia|]. rewrite Forall_forall in *. intros z Hz.
    apply (Ht x y z); [done|apply Hl; set_solver|apply Hl; set_solver|lia|auto].
Qed.

Lemma sort_ordered l : all_comparable l → StronglySorted (λ a b, c a b ≤ 0) (foldr (insert_sorted less) [] l).
Proof.
  induction l as [|x l IH]; intros Hl; cbn; [constructor|]. apply insert_ordered.
  - intros a b Ha Hb. apply Hl; [revert Ha|revert Hb]; rewrite !elem_of_cons, sort_perm; done.
  - apply IH. intros a b Ha Hb. apply Hl; set_solver.
Qed.

(** Elements that compare equal to [x] keep their order. *)
Lemma insert_stable x y l : all_comparable (x :: y :: l) → StronglySorted (λ a b, c a b ≤ 0) l →
  filter (λ z, c x z = 0) (insert_sorted less y l) = filter (λ z, c x z = 0) (y :: l).
Proof.
  pose proof Hc as [Ho Ht]. induction l as [|z l IH]; intros Hl Hs; cbn [insert_sorted]; [done|]. inv Hs. rewrite Hless.
  destruct (Z.ltb_spec (c z y) 0) as [Hlt|]; [|done]. rewrite filter_cons, IH; [|intros a b Ha Hb; apply Hl; set_solver|done].
  assert (Hzy : P z y) by (apply Hl; set_solver). assert (Hxz : P x z) by (apply Hl; set_solver). assert (Hxy : P x y) by (apply Hl; set_solver).
  pose proof (Ho _ _ Hxy). pose proof (Ho _ _ Hxz). pose proof (Ho _ _ Hzy).
  rewrite !filter_cons. destruct (decide (c x z = 0)) as [Ez|], (decide (c x y = 0)) as [Ey|]; try done.
  exfalso. assert (c z y = 0) by (apply (three_way_zero P c z x y Hc Hsym); auto; lia). lia.
Qed.

Lemma sort_stable x l : all_comparable (x :: l) → filter (λ z, c x z = 0) (foldr (insert_sorted less) [] l) = filter (λ z, c x z = 0) l.
Proof.
  induction l as [|y l IH]; intros Hl; cbn [foldr]; [done|]. rewrite insert_stable.
  - rewrite !filter_cons, IH; [done|]. intros a b Ha Hb. apply Hl; set_solver.
  - intros a b Ha Hb. apply Hl; [revert Ha|revert Hb]; rewrite !elem_of_cons, sort_perm; done.
  - apply sort_ordered. intros a b Ha Hb. apply Hl; set_solver.
Qed.
End sort.

Lemma row_keys_length refs rows : ∀ ids keys, row_keys refs rows ids = Ok keys → length rows = length ids → length keys = length ids.
Proof.
  induction rows as [|[r rec] rows IH]; intros [|id ids] keys; cbn; try done; [by intros [= <-]|].
  intros (k & _ & (ks & Hks & [= <-])%outcome_bind_inv)%outcome_bind_inv [= Hl]. cbn. f_equal. by apply IH.
Qed.

(** What the rows of a SORT are compared by: the keys of the records, or the identifiers. *)
Definition keyed (desc : list bool) (a b : list KeyPart * string * Row) : Z := compare_rows desc a.1 b.1.

(** C22. SORT sorts. Let the sort keys be comparable, that is, in each key the cells of all records are
    numbers (none of them NaN), or the cells of all records are text. Then the comparison
    that the code passes to [std::stable_sort] is a strict weak order, so that the call is defined, and
    the rows come out as a permutation of the rows read, in the order of the keys (each ascending or
    descending; the first difference decides) and of the identifiers where all keys are
    equal; rows equal in both keep their order. Without BY the keys are the identifiers. *)
Theorem sort_rows_correct refs desc rows ids keys :
  row_keys refs rows ids = Ok keys → length rows = length ids → (∀ a b, a ∈ keys → b ∈ keys → Forall2 same_kind a b) →
  ∃ sorted, sort_rows refs desc rows ids = Ok sorted.*2 ∧ sorted ≡ₚ zip (zip keys ids) rows.*1 ∧ sorted.*2 ≡ₚ rows.*1 ∧
    StronglySorted (λ a b, keyed desc a b ≤ 0) sorted ∧
    ∀ x, x ∈ sorted → filter (λ y, keyed desc x y = 0) sorted = filter (λ y, keyed desc x y = 0) (zip (zip keys ids) rows.*1).
Proof.
  intros Hkeys Hlen Hcmp. set (l := zip (zip keys ids) rows.*1). set (less := λ a b : list KeyPart * string * Row, cmpRows desc a.1 b.1).
  set (P := λ a b : list KeyPart * string * Row, comparable a.1 b.1).
  assert (Hless : ∀ a b, less a b = (keyed desc a b <? 0)) by (intros; apply cmpRows_spec).
  assert (Htw : three_way P (keyed desc)).
  { destruct (rows_three_way desc) as [Ho Ht]. split; unfold P, keyed; [intros a b; apply Ho|intros a b d; apply Ht]. }
  assert (Hsym : ∀ a b, P a b → P b a) by (intros; by apply comparable_sym).
  assert (Hall : all_comparable P l).
  { intros [[k i] r] [[k' i'] r'] H1%elem_of_zip_l%elem_of_zip_l H2%elem_of_zip_l%elem_of_zip_l. by apply Hcmp. }
  pose proof (row_keys_length _ _ _ _ Hkeys Hlen) as Hkl.
  pose proof (sort_perm less l) as Hperm. exists (foldr (insert_sorted less) [] l). split_and!.
  - unfold sort_rows. rewrite Hkeys. cbn [mbind outcome_bind]. fold less l. unfold stable_sort. by rewrite (strict_weak_holds less (keyed desc) P Hless Htw Hsym l Hall).
  - done.
  - rewrite Hperm. unfold l. rewrite snd_zip; [done|]. rewrite length_zip_with, length_fmap. lia.
  - by apply (sort_ordered less (keyed desc) P).
  - intros x Hx. apply (sort_stable less (keyed desc) P); try done. rewrite Hperm in Hx. intros a b [->|Ha]%elem_of_cons [->|Hb]%elem_of_cons; by apply Hall.
Qed.

Definition age_ref : FieldRef := makeAttributeRef "AGE" (Some 1) ConvMD.
Definition aged (id age : string) : Row * option PickRecord := (mkRow id [age] "" d_zero [], Some (makeRecord id age)).

Lemma sort_rows_correct_witness :
  let rows := [aged "A" "30"; aged "B" "4"; aged "C" "30"] in
  sort_rows [age_ref] [true] rows ["A"; "B"; "C"] = Ok [(aged "A" "30").1; (aged "C" "30").1; (aged "B" "4").1] ∧
  ∃ keys sorted, row_keys [age_ref] rows ["A"; "B"; "C"] = Ok keys ∧ sort_rows [age_ref] [true] rows ["A"; "B"; "C"] = Ok sorted.*2 ∧
    sorted.*2 ≡ₚ rows.*1 ∧ StronglySorted (λ a b, keyed [true] a b ≤ 0) sorted.
Proof.
  split; [by vm_compute|]. exists [[NumberKey (d_of_Z 30)]; [NumberKey (d_of_Z 4)]; [NumberKey (d_of_Z 30)]].
  destruct (sort_rows_correct [age_ref] [true] [aged "A" "30"; aged "B" "4"; aged "C" "30"] ["A"; "B"; "C"]
    [[NumberKey (d_of_Z 30)]; [NumberKey (d_of_Z 4)]; [NumberKey (d_of_Z 30)]]) as (sorted & H1 & _ & H2 & H3 & _).
  - by vm_compute.
  - done.
  - intros a b Ha Hb. rewrite !elem_of_cons in Ha, Hb. destruct Ha as [->|[->|[->|[]%not_elem_of_nil]]], Hb as [->|[->|[->|[]%not_elem_of_nil]]]; repeat constructor.
  - exists sorted. split; [by vm_compute|]. exact (conj H1 (conj H2 H3)).
Defined.

(** An empty cell is a text, and in the comparison it is equal to every number: B has no
    age, A comes before B and B before C by their identifiers, C before A by
    their ages. The comparison is not an order and the sort is undefined. *)
Example sort_with_empty_cell : ∃ why,
  sort_rows [age_ref] [false] [aged "A" "2"; aged "B" ""; aged "C" "1"] ["A"; "B"; "C"] = Undefined why.
Proof. eexists. by vm_compute. Qed.

(** The whole service on a small store. *)
Definition ex_people : World := mkWorld
  {["root" := {["CUST" := NDir (<["R1.item" := EFile "ANN"]> (<["R2.item" := EFile "BOB"]> ∅))]}]} ∅ 0.

Example english_sorts :
  english ex_host (mkFs "root" false "") ["SORT"; "CUST"; "1"; "BY"; "BY-DSND"; "1"] (mkContext false None) (mkOptions None None) 0 ex_people =
  (Ok (inl (mkResult ["R2 BOB"; "R1 ANN"] ["R1"; "R2"])), ex_people).
Proof. by vm_compute. Qed.

Example english_unknown_field :
  (english ex_host (mkFs "root" false "") ["LIST"; "CUST"; "AGE"] (mkContext false None) (mkOptions None None) 0 ex_people).1 =
  Ok (inr ("Unknown ENGLISH field " +:+ String DQUOTE ("AGE" +:+ String DQUOTE "") +:+ " (not in DICT-CUST nor DICT)")).
Proof. by vm_compute. Qed.
