(* ===== verification/Session.v ===== *)
(** * Sessions

    [PickShell::GeminiSession] and [PickShell::TclEnvironment]: the state of a user's
    session, who is logged on, its variables, its program, its place in the record
    store and in the lock table.

    The streams are the rest of the input, [s_in], and what was written, [s_out].  The
    disk and the lock table, which sessions share, are [s_world].  The machine
    ([Vm.Runtime]) has fields for them too; [on_vm] gives it those of the session and takes
    them back. *)

From Stdlib Require Import Ascii String.
From S2P Require Import Prelude CLib Words Records Locks FileSys Bytecode Correl Dict Voc Login Values Registry Vm.
From stdpp Require Import options.
Local Open Scope Z_scope.

(** ** TCL variables *)

Abbreviation TclEnvironment := (gmap string string).

(* src/userland/tcl/TclEnvironment.cpp:8-14 [TclEnvironment::canonicalVariableName] *)
Definition canonicalVariableName (name : string) : string := str_map toupper name.

(** False: the name is empty. *)
(* src/userland/tcl/TclEnvironment.cpp:16-22 [TclEnvironment::set] *)
Definition env_set (name value : string) (e : TclEnvironment) : bool * TclEnvironment :=
  if str_empty name then (false, e) else (true, <[canonicalVariableName name := value]> e).

(* src/userland/tcl/TclEnvironment.cpp:24-31 [TclEnvironment::get] *)
Definition env_get (name : string) (e : TclEnvironment) : option string := e !! canonicalVariableName name.

(* src/userland/tcl/TclEnvironment.cpp:33-36 [TclEnvironment::unset] *)
Definition env_unset (name : string) (e : TclEnvironment) : bool * TclEnvironment :=
  (bool_decide (is_Some (env_get name e)), delete (canonicalVariableName name) e).

Definition sort_strings (l : list string) : list string := merge_sort str_leq l.

(* src/userland/tcl/TclEnvironment.cpp:38-46 [TclEnvironment::names] *)
Definition env_names (e : TclEnvironment) : list string := sort_strings (map_to_list e).*1.

(** ** State *)

(** The program that was loaded, and the debugger's state. *)
(* src/userland/tcl/GeminiSession.h:172-177 [GeminiSession] *)
Record VmContext := mkVmContext {
  runtime_ : Runtime;
  lastLoaded_ : option LoadedBytecode;
  trace_ : bool;
  breakpoints_ : gset Z;
  suspended_ : bool;
  resumePastBreakpointIp_ : option Z
}.

(* src/userland/tcl/GeminiSession.h:163-168 [GeminiSession] *)
Record Identity := mkIdentity {
  loggedIn : bool;
  whoPort : Z;
  daemonPortAssigned_ : bool;
  sessionUsername : string;
  sessionAccount : string;
  userNo_ : string
}.

(** [filesystemRoot_] is the root of [fileSystem_].  [lockTable_]: there is one; it is part of the world. *)
(* src/userland/tcl/GeminiSession.h:159-162 [GeminiSession] *)
Record Store := mkStore {
  fileSystem_ : FileSystem;
  voc_ : gmap string VocEntry * bool;
  geminiCatalogRoot : option string;
  lockTable_ : bool;
  sessionLockId_ : string
}.

(* src/userland/tcl/GeminiSession.h:169-171 [GeminiSession] *)
Record Vars := mkVars {
  env_ : TclEnvironment;
  defaultDataFile : option string;
  activeList : list string;
  activeListSourceFile : option string;
  reportPageLength : Z
}.

(* src/userland/tcl/GeminiSession.h:183-185 [GeminiSession] *)
Record Io := mkIo { s_in : string; s_out : string; s_world : World }.

Record Session := mkGemini { vm : VmContext; ident : Identity; store : Store; vars : Vars; io : Io }.

Definition set_vm (x : VmContext) (s : Session) : Session := mkGemini x (ident s) (store s) (vars s) (io s).
Definition set_ident (x : Identity) (s : Session) : Session := mkGemini (vm s) x (store s) (vars s) (io s).
Definition set_store (x : Store) (s : Session) : Session := mkGemini (vm s) (ident s) x (vars s) (io s).
Definition set_vars (x : Vars) (s : Session) : Session := mkGemini (vm s) (ident s) (store s) x (io s).
Definition set_io (x : Io) (s : Session) : Session := mkGemini (vm s) (ident s) (store s) (vars s) x.

Definition set_world (w : World) (s : Session) : Session := set_io (mkIo (s_in (io s)) (s_out (io s)) w) s.
Definition set_fs (fs : FileSystem) (s : Session) : Session :=
  let x := store s in set_store (mkStore fs (voc_ x) (geminiCatalogRoot x) (lockTable_ x) (sessionLockId_ x)) s.
Definition set_voc (v : gmap string VocEntry * bool) (s : Session) : Session :=
  let x := store s in set_store (mkStore (fileSystem_ x) v (geminiCatalogRoot x) (lockTable_ x) (sessionLockId_ x)) s.
Definition set_env (e : TclEnvironment) (s : Session) : Session :=
  let x := vars s in set_vars (mkVars e (defaultDataFile x) (activeList x) (activeListSourceFile x) (reportPageLength x)) s.

(** ** Streams, records and the VOC *)

Section session.
Context (host : HostFs).

Definition print (t : string) : proc Session unit :=
  modify (λ s, set_io (mkIo (s_in (io s)) (s_out (io s) +:+ t) (s_world (io s))) s).
Definition println (t : string) : proc Session unit := print (t +:+ String NL "").

Definition read_line : proc Session (option string) := λ s,
  match getline NL (s_in (io s)) with
  | Some (l, rest) => (Ok (Some l), set_io (mkIo rest (s_out (io s)) (s_world (io s))) s)
  | None => (Ok None, set_io (mkIo "" (s_out (io s)) (s_world (io s))) s)
  end.

(** A call of the session's [FileSystem]; of its [VocResolver]. *)
Definition on_files {A} (m : HostFs → FileSystem → proc World A) : proc Session A := λ s,
  let '(a, w) := m host (fileSystem_ (store s)) (s_world (io s)) in (a, set_world w s).

Definition on_voc {A} (m : HostFs → FileSystem → proc VocResolver A) : proc Session A := λ s,
  let '(a, v) := m host (fileSystem_ (store s)) (mkVoc (voc_ (store s)).1 (voc_ (store s)).2 (s_world (io s))) in
  (a, set_world (vworld v) (set_voc (table_ v, loaded_ v) s)).

(** [vocResolver_.invalidate()] *)
Definition invalidate_voc : proc Session unit := on_voc (λ _ _, Voc.invalidate).

(** ** Locks *)

(* src/userland/tcl/GeminiSession.cpp:221-227 [GeminiSession::syncLockContextToFileSystem] *)
Definition syncLockContextToFileSystem (s : Session) : Session :=
  let x := store s in
  set_fs (if lockTable_ x && negb (str_empty (sessionLockId_ x)) then setLockContext (fileSystem_ x) true (sessionLockId_ x)
          else clearLockContext (fileSystem_ x)) s.

(* src/userland/tcl/GeminiSession.cpp:229-233 [GeminiSession::releaseSessionLocks] *)
Definition releaseSessionLocks (s : Session) : Session :=
  let x := store s in
  if lockTable_ x && negb (str_empty (sessionLockId_ x))
  then let w := s_world (io s) in set_world (set_locks (releaseAllForSession (sessionLockId_ x) (locks w)).2 w) s
  else s.

(* src/userland/tcl/GeminiSession.cpp:216-219 [GeminiSession::bindLockSession] *)
Definition bindLockSession (sessionLockId : string) (s : Session) : Session :=
  let x := store s in
  syncLockContextToFileSystem (set_store (mkStore (fileSystem_ x) (voc_ x) (geminiCatalogRoot x) (lockTable_ x) sessionLockId) s).

(* src/userland/tcl/GeminiSession.cpp:203-206 [GeminiSession::setSharedLockTable] *)
Definition setSharedLockTable (s : Session) : Session :=
  let x := store s in
  syncLockContextToFileSystem (set_store (mkStore (fileSystem_ x) (voc_ x) (geminiCatalogRoot x) true (sessionLockId_ x)) s).

(* src/userland/tcl/GeminiSession.cpp:208-214 [GeminiSession::makeSessionLockId] *)
Definition makeSessionLockId (port : Z) (account username : string) : string :=
  "S:" +:+ to_string port +:+ ":" +:+ account +:+ ":" +:+ username.

(** ** Variables and lists *)

(* src/userland/tcl/GeminiSession.cpp:189-192 [GeminiSession::setActiveList] *)
Definition setActiveList (ids : list string) (sourceFile : string) (s : Session) : Session :=
  let x := vars s in set_vars (mkVars (env_ x) (defaultDataFile x) ids (Some sourceFile) (reportPageLength x)) s.

(* src/userland/tcl/GeminiSession.cpp:194-197 [GeminiSession::clearActiveList] *)
Definition clearActiveList (s : Session) : Session :=
  let x := vars s in set_vars (mkVars (env_ x) (defaultDataFile x) [] None (reportPageLength x)) s.

(* src/userland/tcl/GeminiSession.h:143-143 [GeminiSession::setReportPageLength] *)
Definition setReportPageLength (n : Z) (s : Session) : Session :=
  let x := vars s in set_vars (mkVars (env_ x) (defaultDataFile x) (activeList x) (activeListSourceFile x) (if n <? 1 then 1 else n)) s.

Definition set_defdata (d : option string) (s : Session) : Session :=
  let x := vars s in set_vars (mkVars (env_ x) d (activeList x) (activeListSourceFile x) (reportPageLength x)) s.

(* src/userland/tcl/GeminiSession.cpp:199-201 [GeminiSession::reloadMdDefaultDataFile] *)
Definition reloadMdDefaultDataFile : proc Session unit :=
  d ← on_files (λ h fs, loadDefaultDataFileFromMd h fs); modify (set_defdata d).

(* src/userland/tcl/GeminiSession.cpp:235-238 [GeminiSession::isSessionSystemVariableName] *)
Definition isSessionSystemVariableName (name : string) : bool :=
  bool_decide (canonicalVariableName name ∈ ["@USERNO"; "@ACCOUNT"; "@LOGNAME"; "@DEFDATA"]).

(* src/userland/tcl/GeminiSession.cpp:240-258 [GeminiSession::resolveSystemVariable] *)
Definition resolveSystemVariable (name : string) (s : Session) : option string :=
  let key := canonicalVariableName name in
  if String.eqb key "@USERNO" then Some (userNo_ (ident s))
  else if String.eqb key "@ACCOUNT" then Some (sessionAccount (ident s))
  else if String.eqb key "@LOGNAME" then Some (sessionUsername (ident s))
  else if String.eqb key "@DEFDATA" then Some (default "" (defaultDataFile (vars s)))
  else None.

(** ** Logging on and off *)

(* src/userland/tcl/GeminiSession.cpp:58-65 [GeminiSession::setFileSystemRoot] *)
Definition setFileSystemRoot (root : string) : proc Session unit :=
  modify (λ s, set_fs (setRoot (fileSystem_ (store s)) root) s);;
  invalidate_voc;;
  reloadMdDefaultDataFile;;
  modify clearActiveList;;
  modify syncLockContextToFileSystem.

(* src/userland/tcl/GeminiSession.cpp:121-131 [GeminiSession::reset] *)
Definition reset (s : Session) : Session :=
  let s := releaseSessionLocks s in
  let s := set_vm (mkVmContext (loadProgram [] [] (runtime_ (vm s))) None false ∅ false None) s in
  clearActiveList (set_env ∅ s).

(* src/userland/tcl/GeminiSession.cpp:133-146 [GeminiSession::detach] *)
Definition detach (s : Session) : Session :=
  let s := bindLockSession "" (releaseSessionLocks s) in
  let i := ident s in
  let s := set_ident (mkIdentity false (if daemonPortAssigned_ i then whoPort i else 0) (daemonPortAssigned_ i) "" "" "0") s in
  clearActiveList (setReportPageLength 24 (set_defdata None s)).

(* src/userland/tcl/GeminiSession.cpp:148-157 [GeminiSession::destroy] *)
Definition destroy (s : Session) : Session := reset (if loggedIn (ident s) then detach s else s).

(* src/userland/tcl/GeminiSession.cpp:183-187 [GeminiSession::setSessionIdentity] *)
Definition setSessionIdentity (port : Z) (username account : string) (s : Session) : Session :=
  let i := ident s in set_ident (mkIdentity (loggedIn i) port (daemonPortAssigned_ i) username account (userNo_ i)) s.

(* src/userland/tcl/GeminiSession.cpp:178-181 [GeminiSession::setDaemonPort] *)
Definition setDaemonPort (port : Z) (s : Session) : Session :=
  let i := ident s in set_ident (mkIdentity (loggedIn i) port true (sessionUsername i) (sessionAccount i) (userNo_ i)) s.

(* src/userland/tcl/GeminiSession.h:109-109 [GeminiSession::setLoggedIn] *)
Definition setLoggedIn (userNo : string) (s : Session) : Session :=
  let i := ident s in set_ident (mkIdentity true (whoPort i) (daemonPortAssigned_ i) (sessionUsername i) (sessionAccount i) userNo) s.

(** A [UserSession] has the port 0 and the user number 0. *)
(* src/userland/tcl/GeminiSession.cpp:167-176 [GeminiSession::attach] *)
Definition attach (u : UserSession) : proc Session unit :=
  modify (λ s, let x := store s in
    set_store (mkStore (fileSystem_ x) (voc_ x) (Some (catalogRoot u)) (lockTable_ x) (sessionLockId_ x)) s);;
  setFileSystemRoot (pickRoot u);;
  modify reset;;
  port ← gets (λ s, if daemonPortAssigned_ (ident s) then whoPort (ident s) else 0);
  modify (setSessionIdentity port (username u) (accountName u));;
  modify (setLoggedIn "0");;
  modify (bindLockSession (makeSessionLockId port (accountName u) (username u))).

(** ** Programs *)

Context (registry : option LanguageRegistry) (platform : Platform).

(** [SystemVarReaderScope] *)
(* src/userland/tcl/Shell.cpp:40-52 [SystemVarReaderScope] *)
Definition vm_env (s : Session) : Env :=
  mkEnv host (Some (fileSystem_ (store s))) (Some (λ n, VStr <$> resolveSystemVariable n s)) None registry platform.

Definition set_runtime (r : Runtime) (s : Session) : Session :=
  let x := vm s in
  set_io (mkIo (r_in r) (r_out r) (r_world r))
    (set_vm (mkVmContext r (lastLoaded_ x) (trace_ x) (breakpoints_ x) (suspended_ x) (resumePastBreakpointIp_ x)) s).

(** Without a [SystemVarReaderScope]. *)
Definition plain_env (s : Session) : Env := mkEnv host (Some (fileSystem_ (store s))) None None registry platform.

(** A method of the machine, with the session's streams and world. *)
Definition on_vm_in {A} (env : Session → Env) (m : Env → proc Runtime A) : proc Session A := λ s,
  let r := Vm.set_world (s_world (io s)) (Vm.set_in (s_in (io s)) (Vm.set_out (s_out (io s)) (runtime_ (vm s)))) in
  let '(a, r') := m (env s) r in (a, set_runtime r' s).

Definition on_vm {A} (m : Env → proc Runtime A) : proc Session A := on_vm_in vm_env m.

Definition set_debug (trace : bool) (bps : gset Z) (suspended : bool) (resume : option Z) (s : Session) : Session :=
  set_vm (mkVmContext (runtime_ (vm s)) (lastLoaded_ (vm s)) trace bps suspended resume) s.
Definition set_suspended (b : bool) (s : Session) : Session := set_debug (trace_ (vm s)) (breakpoints_ (vm s)) b (resumePastBreakpointIp_ (vm s)) s.
Definition set_resume (r : option Z) (s : Session) : Session := set_debug (trace_ (vm s)) (breakpoints_ (vm s)) (suspended_ (vm s)) r s.
Definition set_breakpoints (b : gset Z) (s : Session) : Session := set_debug (trace_ (vm s)) b (suspended_ (vm s)) (resumePastBreakpointIp_ (vm s)) s.
Definition set_trace (b : bool) (s : Session) : Session := set_debug b (breakpoints_ (vm s)) (suspended_ (vm s)) (resumePastBreakpointIp_ (vm s)) s.
Definition set_loaded (l : option LoadedBytecode) (s : Session) : Session :=
  let x := vm s in set_vm (mkVmContext (runtime_ x) l (trace_ x) (breakpoints_ x) (suspended_ x) (resumePastBreakpointIp_ x)) s.

Definition ip_of (s : Session) : Z := r_ip (runtime_ (vm s)).
Definition size_of (l : LoadedBytecode) : Z := Z.of_nat (length (program l)).

(* src/userland/tcl/GeminiSession.cpp:67-69 [GeminiSession::programImageLoaded] *)
Definition programImageLoaded (s : Session) : bool :=
  bool_decide (is_Some (lastLoaded_ (vm s))) && negb (bool_decide (r_program (runtime_ (vm s)) = [])).

Definition sorted_numbers (l : gset Z) : list Z := merge_sort Z.le (elements l).
Definition numbers_text (l : gset Z) : string := foldr (λ n t, " " +:+ to_string n +:+ t) "" (sorted_numbers l).

(* src/userland/tcl/GeminiSession.cpp:71-89 [GeminiSession::pruneBreakpointsForProgram] *)
Definition pruneBreakpointsForProgram (programSize : Z) : proc Session unit :=
  bps ← gets (λ s, breakpoints_ (vm s));
  let removed := filter (λ b, programSize <= b) bps in
  modify (set_breakpoints (filter (λ b, b < programSize) bps));;
  if bool_decide (removed = ∅) then mret tt else println ("Removed invalid breakpoint(s):" +:+ numbers_text removed).

(** The text of the instruction at [ip], which is in the program. *)
Definition print_instruction (ip : Z) (l : LoadedBytecode) : proc Session unit :=
  match program l !! Z.to_nat ip with
  | None => lift (Undefined "instruction out of range")
  | Some i => t ← lift (formatInstructionLine ip i (Some (sourceLines l))); println t
  end.

(** At most [fuel] steps. *)
Fixpoint vm_loop (fuel : nat) (l : LoadedBytecode) : proc Session unit :=
  match fuel with
  | O => lift (Undefined "running")
  | S fuel' =>
      s ← get;
      let ip := ip_of s in
      if size_of l <=? ip then mret tt
      else
        let skipBpOnce := bool_decide (resumePastBreakpointIp_ (vm s) = Some ip) in
        (if skipBpOnce then modify (set_resume None) else mret tt);;
        if negb skipBpOnce && bool_decide (ip ∈ breakpoints_ (vm s)) then
          println ("Breakpoint hit at " +:+ to_string ip);; modify (set_suspended true)
        else
          (if trace_ (vm s) then print_instruction ip l else mret tt);;
          more ← on_vm step;
          if more : bool then vm_loop fuel' l else modify (set_suspended false)
  end.

(* src/userland/tcl/GeminiSession.cpp:91-119 [GeminiSession::executeVmLoop] *)
Definition executeVmLoop (fuel : nat) : proc Session unit :=
  l ← gets (λ s, lastLoaded_ (vm s));
  match l with None => mret tt | Some l => vm_loop fuel l end.
End session.
