(* ===== verification/TclFiles.v ===== *)
(** * TCL commands on files, records, the VOC and dictionaries

    The commands of [PickShell::Shell] that use the record store, the VOC, dictionaries
    and the ENGLISH processor: one definition per [cmd...] function of
    [src/userland/tcl/Shell.cpp].  [tokens] has the verb first. *)

From Stdlib Require Import Ascii String.
From S2P Require Import Prelude CLib Words Records Locks FileSys Correl Dict Voc Login EnglishQuery EnglishFormat EnglishExec LineEditor Session.
From stdpp Require Import options.
Local Open Scope Z_scope.

(** ** Words *)

(* src/userland/tcl/Shell.cpp:54-64 [asciiUpperCopy] *)
Definition asciiUpperCopy (s : string) : string := str_map toupper s.

(* src/userland/tcl/Shell.cpp:66-77 [kwEq] *)
Definition kwEq (a b : string) : bool := String.eqb (asciiUpperCopy a) (asciiUpperCopy b).

(* src/userland/tcl/Shell.cpp:79-86 [hasEnglishClauseKeywords] *)
Definition hasEnglishClauseKeywords (tokens : list string) : bool :=
  existsb (λ t, kwEq t "WITH" || kwEq t "BY" || kwEq t "BY-DSND") (drop 1 tokens).

(* src/userland/tcl/Shell.cpp:88-90 [activeListReady] *)
Definition activeListReady (s : Session) : bool :=
  negb (bool_decide (activeList (vars s) = [])) && bool_decide (is_Some (activeListSourceFile (vars s))).

(** [std::stoi(token) > 0]; what follows the number is ignored. *)
(* src/userland/tcl/Shell.cpp:738-747 [Shell::parsePositiveInt] *)
Definition positive_int (token : string) : option Z :=
  match stoi token with Ok (n, _) => if 0 <? n then Some n else None | _ => None end.

(* src/userland/tcl/Shell.cpp:2247-2256 [joinTokensFrom] *)
Definition joinTokensFrom (start : nat) (tokens : list string) : string := str_join " " (drop start tokens).

Section commands.
Context (host : HostFs) (now : Session → Z).

(** [catch (const std::exception &e)] around a command. *)
Definition reported (m : proc Session unit) : proc Session unit :=
  r ← caught m; match r with inl _ => mret tt | inr e => println ("Error: " +:+ e) end.

(** [if (name == "VOC") vocResolver().invalidate();] *)
Definition voc_written (fileName : string) : proc Session unit :=
  if String.eqb fileName "VOC" then invalidate_voc host else mret tt.

Definition print_lines (indent : string) (l : list string) : proc Session unit :=
  print (foldr (λ x t, indent +:+ x +:+ String NL t) "" l).

(** ** Files *)

(* src/userland/tcl/Shell.cpp:1787-1800 [Shell::cmdCreateFile] *)
Definition cmdCreateFile (tokens : list string) : proc Session unit :=
  match tokens with
  | [_; name] => reported (on_files host (λ h fs, createFile h fs name);; voc_written name)
  | _ => println "CREATE-FILE requires a filename"
  end.

(* src/userland/tcl/Shell.cpp:1802-1815 [Shell::cmdDeleteFile] *)
Definition cmdDeleteFile (tokens : list string) : proc Session unit :=
  match tokens with
  | [_; name] => reported (on_files host (λ h fs, deleteFile h fs name);; voc_written name)
  | _ => println "DELETE-FILE requires a filename"
  end.

(* src/userland/tcl/Shell.cpp:1817-1835 [Shell::cmdListFiles] *)
Definition cmdListFiles (tokens : list string) : proc Session unit :=
  if (1 <? length tokens)%nat then println "LIST-FILES takes no arguments"
  else reported (
    names ← on_files host (λ h fs, listFiles h fs);
    match names with
    | [] => println "No files"
    | _ => println "Files:";; print_lines "  " names
    end).

(** ** Records *)

(** The file and the record; the value's first word. *)
(* src/userland/tcl/Shell.cpp:2213-2223 [parseFileRecordReadOperands] *)
Definition parseFileRecordReadOperands (tokens : list string) (defaultDataFile : option string) : option (string * string) :=
  match tokens, defaultDataFile with
  | [_; f; r], _ => Some (f, r)
  | [_; r], Some f => Some (f, r)
  | _, _ => None
  end.

(* src/userland/tcl/Shell.cpp:2225-2235 [parseFileRecordWriteOperands] *)
Definition parseFileRecordWriteOperands (tokens : list string) (defaultDataFile : option string) : option (string * string * nat) :=
  match tokens, defaultDataFile with
  | _ :: f :: r :: _ :: _, _ => Some (f, r, 3%nat)
  | [_; r; _], Some f => Some (f, r, 2%nat)
  | _, _ => None
  end.

(* src/userland/tcl/Shell.cpp:2237-2240 [fileRecordReadArityMessage] *)
Definition fileRecordReadArityMessage (verb : string) : string :=
  verb +:+ " requires a file and record name (or " +:+ verb +:+ " <record> when MD DEFDATA is set)".

(* src/userland/tcl/Shell.cpp:2242-2245 [fileRecordWriteArityMessage] *)
Definition fileRecordWriteArityMessage (verb : string) : string :=
  verb +:+ " requires a file, record name, and value (or " +:+ verb +:+ " <record> <value> when MD DEFDATA is set)".

Definition read_command (verb : string) (rd : HostFs → FileSystem → string → string → proc World (option PickRecord)) (tokens : list string) : proc Session unit :=
  d ← gets (λ s, defaultDataFile (vars s));
  match parseFileRecordReadOperands tokens d with
  | None => println (fileRecordReadArityMessage verb)
  | Some (f, r) => reported (
      record ← on_files host (λ h fs, rd h fs f r);
      match record with
      | None => println "No such record"
      | Some rec => println (value rec)
      end)
  end.

Definition write_command (verb : string) (wr : HostFs → FileSystem → string → PickRecord → proc World unit) (tokens : list string) : proc Session unit :=
  d ← gets (λ s, defaultDataFile (vars s));
  match parseFileRecordWriteOperands tokens d with
  | None => println (fileRecordWriteArityMessage verb)
  | Some (f, r, start) => reported (
      on_files host (λ h fs, wr h fs f (makeRecord r (joinTokensFrom start tokens)));; voc_written f)
  end.

(* src/userland/tcl/Shell.cpp:2259-2277 [Shell::cmdRead] *)
Definition cmdRead (tokens : list string) : proc Session unit := read_command "READ" read tokens.

(* src/userland/tcl/Shell.cpp:2279-2296 [Shell::cmdWrite] *)
Definition cmdWrite (tokens : list string) : proc Session unit := write_command "WRITE" write tokens.

(* src/userland/tcl/Shell.cpp:2298-2316 [Shell::cmdReadU] *)
Definition cmdReadU (tokens : list string) : proc Session unit := read_command "READU" readU tokens.

(* src/userland/tcl/Shell.cpp:2318-2335 [Shell::cmdWriteU] *)
Definition cmdWriteU (tokens : list string) : proc Session unit := write_command "WRITEU" writeU tokens.

(* src/userland/tcl/Shell.cpp:2337-2349 [Shell::cmdRelease] *)
Definition cmdRelease (tokens : list string) : proc Session unit :=
  d ← gets (λ s, defaultDataFile (vars s));
  match parseFileRecordReadOperands tokens d with
  | None => println (fileRecordReadArityMessage "RELEASE")
  | Some (f, r) => reported (on_files host (λ h fs, releaseRecord fs f r);; mret tt)
  end.

(** *** The line editor *)

(* src/userland/tcl/Shell.cpp:2351-2382 [Shell::runLineRecordEditorForLocation] *)
Definition runLineRecordEditorForLocation (fileName recordKey : string) (highlightPhysicalLine : option Z) : proc Session unit :=
  r ← caught (on_files host (λ h fs, read h fs fileName recordKey));
  match r with
  | inr e => println ("Error: " +:+ e)
  | inl rec =>
      act (λ s,
        let lines := match rec with Some x => getlines NL (value x) | None => [] end in
        let e := mkEditor lines (s_in (io s)) (s_out (io s)) [] (s_world (io s)) in
        let '(a, e') := run host (fileSystem_ (store s)) fileName recordKey true highlightPhysicalLine e in
        let s' := set_io (mkIo (e_in e') (e_out e') (e_store e')) s in
        (a, if bool_decide ("VOC" ∈ e_saved e') then (invalidate_voc host s').2 else s'))
  end.

(* src/userland/tcl/Shell.cpp:2384-2411 [Shell::cmdEdit] *)
Definition cmdEdit (tokens : list string) : proc Session unit :=
  match tokens with
  | [_; programName] =>
      if str_empty programName || negb (no_char "." programName) then println "EDIT expects a program name without extension"
      else
        resolved ← on_voc host (λ h fs, resolveProgramLocation h fs programName);
        runLineRecordEditorForLocation (Voc.fileName resolved) (recordKey resolved) None
  | [_; f; r] => runLineRecordEditorForLocation f r None
  | _ => if (length tokens <? 2)%nat then println "EDIT requires a program name or a file and record name"
         else println "EDIT takes a program name or a file and record name"
  end.

(** ** The VOC *)

(* src/userland/tcl/Shell.cpp:2101-2110 [canonicalVocType] *)
Definition canonicalVocType (token : string) : option ascii :=
  match token with
  | String c "" => let u := toupper c in if bool_decide (u ∈ ["A"; "D"; "F"; "Q"; "V"; "X"]%char) then Some u else None
  | _ => None
  end.

Definition strip_line_end (s : string) : string := rtrim (λ c, Ascii.eqb c CR || Ascii.eqb c NL) s.

(* src/userland/tcl/Shell.cpp:2112-2140 [detectVocTypeOrInvalid] *)
Definition detectVocTypeOrInvalid (raw : string) : string :=
  match getline NL raw with
  | None => "INVALID"
  | Some (first, _) =>
      match all_words (strip_line_end first) with
      | [] => "INVALID"
      | firstToken :: rest =>
          match canonicalVocType firstToken with
          | Some t => String t ""
          | None =>
              if (String.length firstToken =? 3)%nat && str_forall isdigit firstToken then
                match rest with
                | secondToken :: _ => match canonicalVocType secondToken with Some t2 => String t2 "" | None => "INVALID" end
                | [] => "INVALID"
                end
              else "INVALID"
          end
      end
  end.

(* src/userland/tcl/Shell.cpp:2143-2167 [Shell::cmdCreateVoc] *)
Definition cmdCreateVoc (tokens : list string) : proc Session unit :=
  match tokens with
  | _ :: id :: type :: target :: rest =>
      match canonicalVocType type with
      | None => println "CREATE-VOC type must be one of A,D,F,Q,V,X"
      | Some t => reported (
          voc ← on_files host (λ h fs, openFile h fs "VOC");
          let body := String t (String NL (foldr (λ x y, x +:+ String NL y) "" (target :: rest))) in
          on_files host (λ h fs, writeRecord h fs voc (makeRecord id body));;
          invalidate_voc host)
      end
  | _ => println "CREATE-VOC requires <item-id> <type> <target...>"
  end.

(* src/userland/tcl/Shell.cpp:2169-2181 [Shell::cmdDeleteVoc] *)
Definition cmdDeleteVoc (tokens : list string) : proc Session unit :=
  match tokens with
  | [_; id] => reported (
      voc ← on_files host (λ h fs, openFile h fs "VOC");
      on_files host (λ h fs, deleteRecord h fs voc id);;
      invalidate_voc host)
  | _ => println "DELETE-VOC requires an item-id"
  end.

Fixpoint each (l : list string) (m : string → proc Session unit) : proc Session unit :=
  match l with [] => mret tt | x :: l' => m x;; each l' m end.

(* src/userland/tcl/Shell.cpp:2183-2199 [Shell::cmdListVoc] *)
Definition cmdListVoc (tokens : list string) : proc Session unit :=
  match tokens with
  | [_] => reported (
      voc ← on_files host (λ h fs, openFile h fs "VOC");
      ids ← on_files host (λ h fs, listRecords h voc);
      each ids (λ id,
        rec ← on_files host (λ h fs, readRecord h fs voc id);
        println (id +:+ " " +:+ match rec with Some r => detectVocTypeOrInvalid (value r) | None => "INVALID" end)))
  | _ => println "LIST-VOC takes no arguments"
  end.

(** ** Dictionaries *)

Definition dict_missing (verb dictFile : string) : string :=
  verb +:+ " requires dictionary file " +:+ dictFile +:+ "; use CREATE-FILE first".

(** Only a [FileSystemError] of [openFile] is caught. *)
(* src/userland/tcl/Shell.cpp:2043-2070 [Shell::cmdDefineField] *)
Definition cmdDefineField (tokens : list string) : proc Session unit :=
  match tokens with
  | [_; dictFile; fieldName; attrToken] =>
      match positive_int attrToken with
      | None => println "DEFINE-FIELD requires a positive integer attribute-number"
      | Some attrNo =>
          there ← on_fs_error (on_files host (λ h fs, openFile h fs dictFile);; mret true) (mret false);
          if negb (there : bool) then println (dict_missing "DEFINE-FIELD" dictFile)
          else reported (on_files host (λ h fs, write h fs dictFile (makeRecord fieldName ("A" +:+ String NL (to_string attrNo +:+ String NL "")))))
      end
  | _ => println "DEFINE-FIELD takes <dict-file> <field-name> <attribute-number>"
  end.

(* src/userland/tcl/Shell.cpp:2072-2098 [Shell::cmdListDict] *)
Definition cmdListDict (tokens : list string) : proc Session unit :=
  match tokens with
  | [_; dictFile] =>
      reported (on_fs_error (
        handle ← on_files host (λ h fs, openFile h fs dictFile);
        ids ← on_files host (λ h fs, listRecords h handle);
        each (sort_strings ids) (λ id,
          rec ← on_files host (λ h fs, readRecord h fs handle id);
          match rec with
          | None => println (id +:+ " INVALID INVALID")
          | Some r =>
              summary ← lift (classify (structured r));
              println (id +:+ " " +:+ typeLabel summary +:+ " " +:+ if valid summary then "VALID" else "INVALID")
          end))
        (println (dict_missing "LIST-DICT" dictFile)))
  | _ => println "LIST-DICT takes <dict-file>"
  end.

Definition unknown_field : string := "Resolved attribute: (none — unknown field)".

(** The record a dictionary has for [field]: of the file's own dictionary, else of DICT. *)
Definition dict_record (scopedDict field : string) : proc Session (option PickRecord) :=
  own ← on_fs_error (on_files host (λ h fs, openFile h fs scopedDict);; on_files host (λ h fs, read h fs scopedDict field)) (mret None);
  match own with
  | Some r => mret (Some r)
  | None => on_fs_error (on_files host (λ h fs, read h fs "DICT" field)) (mret None)
  end.

(* src/userland/tcl/Shell.cpp:2001-2013 [Shell::cmdResolveField] *)
Definition show_resolved (ref : FieldRef) : proc Session unit :=
  println ("Field kind: " +:+ describeFieldKind ref);;
  match fkind ref, fCorrelative ref, iCorrelative ref, attributeNo ref with
  | FCorrelativeField, Some f, _, _ =>
      println ("Source attribute: " +:+ to_string (sourceAttributeNo f));;
      println ("Selector: " +:+ describeFSelector f);;
      println ("Tail (raw): " +:+ tailRaw f)
  | ICorrelativeField, _, Some i, _ => println ("Expression: " +:+ expressionRaw i)
  | _, _, _, Some n => println ("Resolved attribute: " +:+ to_string n)
  | _, _, _, None => mret tt
  end.

(* src/userland/tcl/Shell.cpp:2014-2034 [Shell::cmdResolveField] *)
Definition show_unresolved (attrs : StructuredRecord) : proc Session unit :=
  summary ← lift (classify attrs);
  println ("Field kind: " +:+ if String.eqb (typeLabel summary) "INVALID" then "unknown" else typeLabel summary);;
  (if valid summary then mret tt
   else
     println "Validity: INVALID";;
     if str_empty (serror summary) then mret tt else println ("Error: " +:+ serror summary));;
  if String.eqb (typeLabel summary) "F" then
    println ("Source attribute: " +:+ firstValue (attribute attrs 2));;
    println ("Tail (raw): " +:+ firstValue (attribute attrs 3))
  else if String.eqb (typeLabel summary) "I" then
    let expression := firstValue (attribute attrs 2) in
    println ("Expression: " +:+ if str_empty expression then "(empty)" else expression)
  else println unknown_field.

(* src/userland/tcl/Shell.cpp:1970-2041 [Shell::cmdResolveField] *)
Definition cmdResolveField (tokens : list string) : proc Session unit :=
  match tokens with
  | [_; dataFile; field] =>
      ref ← on_files host (λ h fs, resolveField h fs dataFile field);
      let scopedDict := scopedDictLogicalName dataFile in
      dictRec ← dict_record scopedDict field;
      println ("Data file: " +:+ dataFile);;
      println ("Field token: " +:+ field);;
      println ("File-scoped dict: " +:+ scopedDict);;
      (if fieldRefIsResolved ref then show_resolved ref
       else match dictRec with
            | Some r => show_unresolved (structured r)
            | None => println ("Field kind: " +:+ describeFieldKind ref);; println unknown_field
            end);;
      println ("Conversion hint (D/MD/MC): " +:+ describeConversion ref)
  | _ => println "RESOLVE-FIELD takes <data-file> <field-token>"
  end.

(** ** ENGLISH *)

(** Only a [FileSystemError] is caught. *)
(* src/userland/tcl/Shell.cpp:92-99 [logicalPickFileExists] *)
Definition logicalPickFileExists (name : string) : proc Session bool :=
  on_fs_error (on_files host (λ h fs, listRecordNames h fs name);; mret true) (mret false).

(** The context and the options, or the message.  [pc] and [eo] are fresh: the page length is set in [eo]. *)
(* src/userland/tcl/Shell.cpp:102-129 [englishImplicitSetup] *)
Definition englishImplicitSetup (tokens : list string) (eo : EnglishRunOptions) : proc Session ((ParseContext * EnglishRunOptions) + string) :=
  let plain := inl (mkContext false None, eo) in
  match tokens with
  | [] => mret plain
  | t :: operands =>
      wantImplicit ←
        (if kwEq t "COUNT" then mret (bool_decide (operands = []))
         else if kwEq t "LIST" || kwEq t "SORT" then
           match operands with
           | a :: b :: _ => mret (kwEq a "BY" || kwEq a "WITH")
           | [a] => there ← logicalPickFileExists a; mret (negb there)
           | [] => mret false
           end
         else mret false);
      if negb (wantImplicit : bool) then mret plain
      else
        s ← get;
        if negb (activeListReady s) then mret (inr "No active list for implicit ENGLISH scope")
        else mret (inl (mkContext true (activeListSourceFile (vars s)), mkOptions (Some (activeList (vars s))) (o_pageLength eo)))
  end.

(* src/userland/tcl/Shell.cpp:131-145 [shellIsEnglishList] *)
Definition shellIsEnglishList (t : list string) : proc Session bool :=
  match t with
  | [] => mret false
  | v :: operands =>
      if negb (kwEq v "LIST") then mret false
      else if hasEnglishClauseKeywords t || (2 <? length t)%nat then mret true
      else match operands with
           | [a] => there ← logicalPickFileExists a; ready ← gets activeListReady; mret (negb there && ready)
           | _ => mret false
           end
  end.

(* src/userland/tcl/Shell.cpp:147-155 [shellIsEnglishCount] *)
Definition shellIsEnglishCount (t : list string) : proc Session bool :=
  match t with
  | [] => mret false
  | v :: operands =>
      if negb (kwEq v "COUNT") then mret false
      else match operands with [] => gets activeListReady | _ => mret true end
  end.

(** A single operand: a file, or there is an active list. *)
(* src/userland/tcl/Shell.cpp:157-174 [shellIsEnglishSort] *)
Definition shellIsEnglishSort (t : list string) : proc Session bool :=
  match t with
  | [] => mret false
  | v :: operands =>
      if negb (kwEq v "SORT") then mret false
      else if hasEnglishClauseKeywords t || (2 <? length t)%nat then mret true
      else match operands with
           | [a] =>
               there ← logicalPickFileExists a;
               if there : bool then mret true
               else ready ← gets activeListReady; again ← (if ready : bool then logicalPickFileExists a else mret true);
                    mret (ready && negb again)
           | _ => mret false
           end
  end.

(** [EnglishService::run] on the session's records. *)
Definition run_english (tokens : list string) (pc : ParseContext) (eo : EnglishRunOptions) : proc Session (Result + string) :=
  t ← gets now; on_files host (λ h fs, english h fs tokens pc eo t).

Definition run_options : proc Session EnglishRunOptions := gets (λ s, mkOptions None (Some (reportPageLength (vars s)))).

(** What LIST, COUNT and SORT have in common. *)
Definition english_report (tokens : list string) : proc Session unit :=
  eo ← run_options;
  setup ← englishImplicitSetup tokens eo;
  match setup with
  | inr e => println ("Error: " +:+ e)
  | inl (pc, eo) =>
      r ← run_english tokens pc eo;
      match r with
      | inr e => println ("Error: " +:+ e)
      | inl result => print_lines "" (r_lines result)
      end
  end.

(* src/userland/tcl/Shell.cpp:1837-1875 [Shell::cmdList] *)
Definition cmdList (tokens : list string) : proc Session unit :=
  e ← shellIsEnglishList tokens;
  if (e : bool) then english_report tokens
  else match tokens with
       | [_; f] => reported (
           names ← on_files host (λ h fs, listRecordNames h fs f);
           match names with
           | [] => println "No records"
           | _ => println "Records:";; print_lines "  " names
           end)
       | _ => println "LIST requires a filename"
       end.

(* src/userland/tcl/Shell.cpp:1877-1899 [Shell::cmdCount] *)
Definition cmdCount (tokens : list string) : proc Session unit :=
  e ← shellIsEnglishCount tokens;
  if negb (e : bool) then println "COUNT requires a filename or active-list scope" else english_report tokens.

(* src/userland/tcl/Shell.cpp:1901-1920 [Shell::cmdSelect] *)
Definition cmdSelect (tokens : list string) : proc Session unit :=
  match tokens with
  | _ :: f :: _ =>
      eo ← run_options;
      r ← run_english tokens (mkContext false None) eo;
      match r with
      | inr e => println ("Error: " +:+ e)
      | inl result => modify (setActiveList (selectedIds result) f);; print_lines "" (r_lines result)
      end
  | _ => println "SELECT requires a filename"
  end.

(* src/userland/tcl/Shell.cpp:1922-1944 [Shell::cmdSort] *)
Definition cmdSort (tokens : list string) : proc Session unit :=
  e ← shellIsEnglishSort tokens;
  if negb (e : bool) then println "SORT: ENGLISH syntax not detected; legacy Tcl SORT is not implemented" else english_report tokens.

(* src/userland/tcl/Shell.cpp:1946-1959 [Shell::cmdListList] *)
Definition cmdListList (tokens : list string) : proc Session unit :=
  if (1 <? length tokens)%nat then println "LIST-LIST takes no arguments"
  else
    l ← gets (λ s, activeList (vars s));
    match l with [] => println "No active list" | _ => println "Active list:";; print_lines "  " l end.

(* src/userland/tcl/Shell.cpp:1961-1968 [Shell::cmdClearList] *)
Definition cmdClearList (tokens : list string) : proc Session unit :=
  if (1 <? length tokens)%nat then println "CLEAR-LIST takes no arguments"
  else modify clearActiveList;; println "Active list cleared".
End commands.
