(* ===== verification/Help.v ===== *)
(** * HELP and the report on language modules

    [PickShell::HelpTopics]: the topics in the HELP file of the account, of the system
    account, and those built in.  [formatLanguagesReport] and the log of the modules
    loaded at boot ([src/core/languages]), which SYSTEM LANGUAGES prints. *)

From Stdlib Require Import Ascii String.
From S2P Require Import Prelude CLib Words Records Locks FileSys Dict Voc Login Values Registry Session TclFiles.
From stdpp Require Import options.
Local Open Scope Z_scope.

(** ** Topics *)

Definition dq : string := String DQUOTE "".
Definition text_of (l : list string) : string := foldr (λ x t, x +:+ String NL t) "" l.

(* src/userland/tcl/HelpTopics.cpp:230-232 [helpZeroArgumentFallbackLine] *)
Definition helpZeroArgumentFallbackLine : string := text_of ["HELP [topic...]  Type HELP-LIST for topics.  See docs/tcl-shell.md."].

(* src/userland/tcl/HelpTopics.cpp:15-21 [kEnglishFormattingClausesHelp] *)
Definition kEnglishFormattingClausesHelp : string := text_of
  ["  Formatting clauses (any position after verb/file):"; "    HEADING " +:+ dq +:+ "text" +:+ dq +:+ "  FOOTING " +:+ dq +:+ "text" +:+ dq +:+ " — @DATE @TIME @PAGE @<n>"; "    BREAK-ON <field>  TOTAL <field>  ID-SUPP"; "  FOOTING once at end without HEADING; per-page with HEADING + PAGE-LENGTH"; "  Pagination: SET PAGE-LENGTH n | GET PAGE-LENGTH (when HEADING present)"; "  See docs/english-formatting.md"].

(* src/userland/tcl/HelpTopics.cpp:156-228 [builtinHelpBodies] *)
Definition builtinHelpBodies : list (string * string) :=
  [("HELP", helpZeroArgumentFallbackLine);
   ("VERSION", text_of ["VERSION"]);
   ("SYSTEM", text_of ["SYSTEM"]);
   ("ABOUT", text_of ["ABOUT"]);
   ("WHO", text_of ["WHO"]);
   ("ECHO", text_of ["ECHO <text...>"]);
   ("SET", text_of ["SET <name> <words...>"]);
   ("GET", text_of ["GET <name>"]);
   ("LIST-VARS", text_of ["LIST-VARS"]);
   ("UNSET", text_of ["UNSET <name>"]);
   ("LOGTO", text_of ["LOGTO <account>"]);
   ("LOGOFF", text_of ["LOGOFF"]);
   ("BASIC", text_of ["BASIC [name]"]);
   ("ASM", text_of ["ASM [name]"]);
   ("RUN", text_of ["RUN <name>"]);
   ("PROC", text_of ["HELP PROC"; "  PROC <name> [args...]"; "  Host PROC interpreter with R83 aliases and long-form command support."; "  See docs/proc.md for full statement and substitution semantics."]);
   ("LIST-PROGRAMS", text_of ["LIST-PROGRAMS"]);
   ("CREATE-FILE", text_of ["CREATE-FILE <name>"]);
   ("DELETE-FILE", text_of ["DELETE-FILE <name>"]);
   ("LIST-FILES", text_of ["LIST-FILES"]);
   ("LIST", text_of ["HELP LIST"; "  LIST <file> [fields... | WITH ...]"] +:+ kEnglishFormattingClausesHelp);
   ("COUNT", text_of ["COUNT <file> [fields...] | COUNT"]);
   ("SELECT", text_of ["HELP SELECT"; "  SELECT <file> [fields...]"] +:+ kEnglishFormattingClausesHelp);
   ("SORT", text_of ["HELP SORT"; "  SORT <file> [fields...] BY <field> [BY-DSND ...]"] +:+ kEnglishFormattingClausesHelp);
   ("LIST-LIST", text_of ["LIST-LIST"]);
   ("CLEAR-LIST", text_of ["CLEAR-LIST"]);
   ("RESOLVE-FIELD", text_of ["RESOLVE-FIELD <data-file> <field-token>"; "  Resolves A-, F-, and I-type DICT items; invalid F/I rows show Validity INVALID."]);
   ("DEFINE-FIELD", text_of ["DEFINE-FIELD <dict-file> <field-name> <attribute-number>"]);
   ("LIST-DICT", text_of ["LIST-DICT <dict-file>"; "  Lists DICT items sorted by id: <id> <type> VALID|INVALID."]);
   ("CREATE-VOC", text_of ["CREATE-VOC <item-id> <type> <target...>"]);
   ("DELETE-VOC", text_of ["DELETE-VOC <item-id>"]);
   ("LIST-VOC", text_of ["LIST-VOC"]);
   ("READ", text_of ["READ <file> <record-name>"]);
   ("READU", text_of ["READU <file> <record-name>"; "  Acquire a READU lock then read (same output as READ)."]);
   ("WRITE", text_of ["WRITE <file> <record-name> <value...>"]);
   ("WRITEU", text_of ["WRITEU <file> <record-name> <value...>"; "  Acquire a WRITEU lock then write (same behaviour as WRITE)."]);
   ("RELEASE", text_of ["RELEASE <file> <record-name>"; "  Release a record lock held by this session."]);
   ("EDIT", text_of ["EDIT <file> <record> | EDIT <programName>"]);
   ("DUMP-STACK", text_of ["DUMP-STACK"]);
   ("QUIT", text_of ["QUIT"]);
   ("TCL", text_of ["HELP TCL"; "  Tcl host shell command surface and tokenization behavior."; "  Use HELP <command> for specific command usage."; "  See docs/tcl-shell.md for full shell semantics."]);
   ("VOC", text_of ["HELP VOC"; "  CREATE-VOC <item-id> <type> <target...>"; "  DELETE-VOC <item-id>"; "  LIST-VOC"]);
   ("HELP-LIST", text_of ["HELP-LIST"]);
   ("HELP-EDIT", text_of ["HELP-EDIT <topic...>"])].

(** A run of spaces is written as one, when something follows it; none comes first. *)
(* src/userland/tcl/HelpTopics.cpp:29-45 [trimCollapseAsciiSpace] *)
Fixpoint collapse (written inSpace : bool) (s : string) : string :=
  match s with
  | "" => ""
  | String c s' =>
      if isspace c then collapse written true s'
      else (if inSpace && written then " " else "") +:+ String c (collapse true false s')
  end.

(* src/userland/tcl/HelpTopics.cpp:75-84 [joinOperandsDisplay] *)
Definition joinOperandsDisplay (tokens : list string) (operandStart : nat) : string := str_join " " (drop operandStart tokens).

(* src/userland/tcl/HelpTopics.cpp:103-114 [storageRecordIdFromCanonical] *)
Definition storageRecordIdFromCanonical (key : string) : string := str_map (λ c, if Ascii.eqb c " " then "_"%char else c) key.

(* src/userland/tcl/HelpTopics.cpp:116-127 [canonicalTopicFromStorageRecordId] *)
Definition canonicalTopicFromStorageRecordId (id : string) : string := str_map (λ c, if Ascii.eqb c "_" then " "%char else c) id.

(** [operator==] of paths: the same components. *)
Definition path_components (p : string) : bool * bool * list string :=
  (is_absolute p, bool_decide (str_back p = Some "/"%char), filter (λ c, c ≠ "") (getlines "/" p)).
Definition path_eq (a b : string) : bool := bool_decide (path_components a = path_components b).

Section help.
Context (host : HostFs) (weakly_canonical : string → option string).

(* src/userland/tcl/HelpTopics.cpp:86-101 [canonicalTopicKey] *)
Definition canonicalTopicKey (tokens : list string) (operandStart : nat) : proc Session string :=
  match drop operandStart tokens with
  | [] => mret ""
  | [t] => resolved ← on_voc host (λ h fs, resolveVerbName h fs t); mret (asciiUpperCopy resolved)
  | _ => mret (asciiUpperCopy (collapse false false (joinOperandsDisplay tokens operandStart)))
  end.

(* src/userland/tcl/HelpTopics.cpp:47-58 [tryReadHelpRecordBody] *)
Definition tryReadHelpRecordBody (fs : FileSystem) (storageId : string) : proc World (option string) :=
  on_fs_error (rec ← read host fs "HELP" storageId; mret (value <$> rec)) (mret None).

(** [None] of [weakly_canonical]: it failed. *)
(* src/userland/tcl/HelpTopics.cpp:60-72 [filesystemRootsAreEquivalent] *)
Definition filesystemRootsAreEquivalent (a b : string) : bool :=
  match weakly_canonical a with
  | None => path_eq a b
  | Some ca => match weakly_canonical b with None => path_eq a b | Some cb => path_eq ca cb end
  end.

(* src/userland/tcl/HelpTopics.cpp:129-154 [resolveHelpBody] *)
Definition resolveHelpBody (canonicalKey : string) : proc Session (option string) :=
  s ← get;
  let storageId := storageRecordIdFromCanonical canonicalKey in
  local ← on_files host (λ _ fs, tryReadHelpRecordBody fs storageId);
  match local with
  | Some body => mret (Some body)
  | None =>
      sys ← match geminiCatalogRoot (store s) with
            | None => mret None
            | Some catalog =>
                let systemPickRoot := path_join (path_join catalog "accounts") "SYSPROG" in
                if filesystemRootsAreEquivalent (root (fileSystem_ (store s))) systemPickRoot then mret None
                else on_files host (λ _ _, tryReadHelpRecordBody (mkFs systemPickRoot false "") storageId)
            end;
      match sys with
      | Some body => mret (Some body)
      | None => mret (snd <$> find (λ e : string * string, String.eqb e.1 canonicalKey) builtinHelpBodies)
      end
  end.

(* src/userland/tcl/HelpTopics.cpp:234-248 [listCanonicalHelpTopicsSorted] *)
Definition listCanonicalHelpTopicsSorted : proc Session (list string) :=
  on_fs_error (ids ← on_files host (λ h fs, listRecordNames h fs "HELP"); mret (sorted_unique (canonicalTopicFromStorageRecordId <$> ids)))
    (mret []).
End help.

(** ** The language modules *)

(* src/core/languages/LanguageModuleBootLog.h:9-13 [LanguageModuleBootEntry] *)
Record LanguageModuleBootEntry := mkBootEntry { b_fileName : string; b_loaded : bool; b_detail : string }.

(* src/core/languages/LanguageModuleBootLog.h:33-36 [LanguageModuleBootLog] *)
Record LanguageModuleBootLog := mkBootLog {
  entries : list LanguageModuleBootEntry; attemptedCount : Z; loadedCount : Z; failedCount : Z }.

(* src/core/languages/LanguageModuleBootLog.cpp:4-9 [LanguageModuleBootLog::clear] *)
Definition clear_boot_log : LanguageModuleBootLog := mkBootLog [] 0 0 0.

(* src/core/languages/LanguageModuleBootLog.cpp:11-19 [LanguageModuleBootLog::append] *)
Definition append_boot (fileName : string) (loaded : bool) (detail : string) (l : LanguageModuleBootLog) : LanguageModuleBootLog :=
  mkBootLog (entries l ++ [mkBootEntry fileName loaded detail]) (attemptedCount l + 1)
    (if loaded then loadedCount l + 1 else loadedCount l) (if loaded then failedCount l else failedCount l + 1).

(* src/core/languages/LanguageRegistryFormat.cpp:4-45 [formatLanguagesReport] *)
Definition formatLanguagesReport (registry : LanguageRegistry) (bootLog : LanguageModuleBootLog) (verbose : bool) : string :=
  let namespaces := listNamespaces registry in
  text_of (
    ("Language namespaces (" +:+ to_string (Z.of_nat (length namespaces)) +:+ "):") ::
    mjoin ((λ ns : Z * LanguageNamespaceMetadata * Z,
      let '(id, meta, count) := ns in
      ("  " +:+ to_string id +:+ " " +:+ ns_name meta +:+ " " +:+ ns_version meta +:+ " " +:+ to_string count) ::
      (if verbose then
         (λ slot : Z * Z * bool, let '(sid, arity, implemented) := slot in
            "    " +:+ to_string sid +:+ " " +:+ if implemented then to_string arity else "-") <$> functionSlotSummaries registry id
       else [])) <$> namespaces) ++
    (if 0 <? attemptedCount bootLog
     then ["Module boot: " +:+ to_string (loadedCount bootLog) +:+ " loaded, " +:+ to_string (failedCount bootLog) +:+ " failed (" +:+
           to_string (attemptedCount bootLog) +:+ " attempted)"] else []) ++
    (if 0 <? failedCount bootLog
     then "Boot failures:" ::
          ((λ e, "  " +:+ b_fileName e +:+ if str_empty (b_detail e) then "" else ": " +:+ b_detail e) <$>
             filter (λ e, b_loaded e = false) (entries bootLog))
     else [])).
