(* ===== verification/Tcl.v ===== *)
(** * TCL: lines, variables, the session and the daemon

    [PickShell::Shell]: the words of a line, variables, logging on to another account,
    and the commands that look at the daemon or change it.  The state of a shell is
    that of its session, of its debugger and its BASIC editor, and [ext], that of the rest of
    the daemon, which only [ShellAdminQueries] reach. *)

From Stdlib Require Import Ascii String.
From S2P Require Import Prelude CLib Words Records Locks FileSys Bytecode Dict Voc Login Sched Values Registry Vm BasicProg Session TclFiles Help.
From stdpp Require Import options.
Local Open Scope Z_scope.

(** ** Words *)

(** The characters from here, with the word so far and the reader's flags. *)
(* src/userland/tcl/Shell.cpp:272-319 [Shell::tokenize] *)
Fixpoint tokenize_from (current : string) (inQuotes sawQuote escaping : bool) (s : string) : list string + string :=
  let flush := if str_empty current && negb sawQuote then [] else [current] in
  match s with
  | "" =>
      if escaping then inr "Invalid escape sequence"
      else if inQuotes then inr "Unterminated quoted string"
      else inl flush
  | String ch s' =>
      if escaping then tokenize_from (current +:+ String ch "") inQuotes sawQuote false s'
      else if Ascii.eqb ch BACKSLASH then tokenize_from current inQuotes sawQuote true s'
      else if Ascii.eqb ch DQUOTE then tokenize_from current (negb inQuotes) true false s'
      else if negb inQuotes && isspace ch then
        match tokenize_from "" inQuotes false false s' with inl ts => inl (flush ++ ts) | inr e => inr e end
      else tokenize_from (current +:+ String ch "") inQuotes sawQuote false s'
  end.

Definition tokenize (line : string) : list string + string := tokenize_from "" false false false line.

(* src/userland/tcl/Shell.cpp:956-958 [echoVarNameChar] *)
Definition echoVarNameChar (c : ascii) : bool := isalpha c || isdigit c || Ascii.eqb c "_".

Fixpoint take_name (s : string) : string * string :=
  match s with
  | String c s' => if echoVarNameChar c then let '(n, r) := take_name s' in (String c n, r) else ("", s)
  | "" => ("", "")
  end.

Definition echo_value (name : string) (s : Session) : string :=
  match env_get name (env_ (vars s)) with
  | Some v => v
  | None => if isSessionSystemVariableName name then default "" (resolveSystemVariable name s) else ""
  end.

(** Every round takes a character at least. *)
Fixpoint expand_echo (rounds : nat) (s : Session) (t : string) : string :=
  match rounds, t with
  | O, _ | _, "" => ""
  | S rounds', String c t' =>
      if negb (Ascii.eqb c "$") then String c (expand_echo rounds' s t')
      else match t' with
           | String d t'' =>
               if Ascii.eqb d "$" then String "$" (expand_echo rounds' s t'')
               else if Ascii.eqb d "@" then
                 let '(n, rest) := take_name t'' in echo_value (String "@" n) s +:+ expand_echo rounds' s rest
               else if echoVarNameChar d then
                 let '(n, rest) := take_name t' in echo_value n s +:+ expand_echo rounds' s rest
               else String "$" (expand_echo rounds' s t')
           | "" => "$"
           end
  end.

(* src/userland/tcl/Shell.cpp:961-1001 [Shell::expandEchoToken] *)
Definition expandEchoToken (t : string) (s : Session) : string := expand_echo (String.length t) s t.

(** The words after the verb, but names of variables and of programs. *)
(* src/userland/tcl/Shell.cpp:176-200 [expandSessionAtOperands] *)
Definition expandSessionAtOperands (s : Session) (tokens : list string) : list string :=
  match tokens with
  | [] => []
  | verb :: operands =>
      let keeps := bool_decide (asciiUpperCopy verb ∈ ["SET"; "GET"; "UNSET"; "RUN"; "PROC"]) in
      verb :: imap (λ i t,
        if keeps && (i =? 0)%nat then t
        else if negb (starts_with "@" t) || negb (isSessionSystemVariableName t) then t
        else default t (resolveSystemVariable t s)) operands
  end.

(** ** What the shell does not compute *)

(** [weakly_canonical]: [None] when it fails.  [version], [build_date]: set when the program is built. *)
Record ShellHost := mkShellHost {
  login_host : LoginHost;
  now : Session → Z;
  registry : LanguageRegistry;
  boot_log : LanguageModuleBootLog;
  platform : Platform;
  version : string;
  build_date : string;
  weakly_canonical : string → option string
}.

Definition records (x : ShellHost) : HostFs := record_host (login_host x).

Definition system_title : string := "Gemini System Developer Edition".

(** ** Variables *)

Section variables.
Context (x : ShellHost).

(* src/userland/tcl/Shell.cpp:1003-1011 [Shell::cmdEcho] *)
Definition cmdEcho (tokens : list string) : proc Session unit :=
  s ← get; println (str_join " " ((λ t, expandEchoToken t s) <$> drop 1 tokens)).

(** The number, when it is all of the word. *)
Definition page_length (t : string) : option Z :=
  match stoi t with Ok (n, "") => if n <? 1 then None else Some n | _ => None end.

(* src/userland/tcl/Shell.cpp:1355-1396 [Shell::cmdSet] *)
Definition cmdSet (tokens : list string) : proc Session unit :=
  match tokens with
  | _ :: name :: words =>
      if kwEq name "PAGE-LENGTH" then
        match words with
        | [t] => match page_length t with
                 | Some n => modify (setReportPageLength n)
                 | None => println "SET PAGE-LENGTH requires a positive integer"
                 end
        | _ => println "SET PAGE-LENGTH requires a positive integer"
        end
      else if isSessionSystemVariableName name then println "Read-only system variable"
      else
        s ← get;
        let '(ok, e) := env_set name (str_join " " words) (env_ (vars s)) in
        modify (set_env e);; if (ok : bool) then mret tt else println "Invalid variable name"
  | _ => println "SET requires a variable name"
  end.

(* src/userland/tcl/Shell.cpp:1398-1417 [Shell::cmdGet] *)
Definition cmdGet (tokens : list string) : proc Session unit :=
  match tokens with
  | [_; name] =>
      s ← get;
      if kwEq name "PAGE-LENGTH" then println (to_string (reportPageLength (vars s)))
      else match resolveSystemVariable name s with
           | Some v => println v
           | None => match env_get name (env_ (vars s)) with
                     | Some v => println v
                     | None => println ("No such variable: " +:+ name)
                     end
           end
  | _ => println "GET requires a variable name"
  end.

(* src/userland/tcl/Shell.cpp:1419-1443 [Shell::cmdListVars] *)
Definition cmdListVars (tokens : list string) : proc Session unit :=
  if (1 <? length tokens)%nat then println "LIST-VARS takes no arguments"
  else
    s ← get;
    let names := sorted_unique (env_names (env_ (vars s)) ++
      (if loggedIn (ident s) then ["@ACCOUNT"; "@LOGNAME"; "@USERNO"] else []) ++
      (if bool_decide (is_Some (defaultDataFile (vars s))) then ["@DEFDATA"] else [])) in
    match names with
    | [] => println "No variables"
    | _ => println "Variables:";; print_lines "  " names
    end.

(* src/userland/tcl/Shell.cpp:1445-1457 [Shell::cmdUnset] *)
Definition cmdUnset (tokens : list string) : proc Session unit :=
  match tokens with
  | [_; name] =>
      if isSessionSystemVariableName name then println "Read-only system variable"
      else
        s ← get;
        let '(ok, e) := env_unset name (env_ (vars s)) in
        modify (set_env e);; if (ok : bool) then mret tt else println "No such variable"
  | _ => println "UNSET requires a variable name"
  end.

(** ** HELP *)

(* src/userland/tcl/Shell.cpp:1493-1519 [Shell::generatedHelpCommandsBody] *)
Definition generatedHelpCommandsBody (verbs : list string) : proc Session string :=
  t ← on_voc (records x) (λ h fs, Voc.table h fs);
  let aliases := filter (λ k, asciiUpperCopy (verb_name t k) ∈ verbs) (map_to_list t).*1 in
  mret (text_of ["HELP COMMANDS lists the TCL command verbs available in this account.";
                 "It shows the command names only; use HELP <command> for usage and details.";
                 "This topic reflects the current VOC and command surface, and may differ";
                 "between accounts depending on local overrides or site configuration."] +:+
        text_of (sorted_unique (verbs ++ aliases))).

(** [verbs]: the commands that are registered. *)
(* src/userland/tcl/Shell.cpp:1459-1491 [Shell::cmdHelpLookup] *)
Definition cmdHelpLookup (verbs : list string) (tokens : list string) : proc Session unit :=
  let resolve := resolveHelpBody (records x) (weakly_canonical x) in
  match drop 1 tokens with
  | [] => zero ← resolve "HELP"; print (default helpZeroArgumentFallbackLine zero)
  | operands =>
      key ← canonicalTopicKey (records x) tokens 1;
      let canonical := match operands with [t] => if kwEq t "COMMANDS" then "HELP COMMANDS" else key | _ => key end in
      body ← resolve canonical;
      match body with
      | Some b => print b
      | None =>
          if String.eqb canonical "HELP COMMANDS" then b ← generatedHelpCommandsBody verbs; print b
          else println ("No help available for " +:+ dq +:+ joinOperandsDisplay tokens 1 +:+ dq +:+ ".")
      end
  end.

(* src/userland/tcl/Shell.cpp:1521-1534 [Shell::cmdHelpList] *)
Definition cmdHelpList (tokens : list string) : proc Session unit :=
  match tokens with
  | [_] => topics ← listCanonicalHelpTopicsSorted (records x);
           match topics with [] => println "No HELP topics" | _ => print_lines "" topics end
  | _ => println "HELP-LIST takes no arguments"
  end.

(** [openFile], and [createFile] when it says that there is no such file. *)
Definition open_or_create (f : string) : proc Session unit :=
  try_catch (on_files (records x) (λ h fs, openFile h fs f);; mret tt)
    (λ e, match e with
          | FileSystemError w => Some (if starts_with "File not found: " w then on_files (records x) (λ h fs, createFile h fs f) else throw e)
          | _ => None
          end).

(* src/userland/tcl/Shell.cpp:1536-1558 [Shell::cmdHelpEdit] *)
Definition cmdHelpEdit (tokens : list string) : proc Session unit :=
  if (length tokens <? 2)%nat then println "HELP-EDIT requires a topic"
  else
    canonical ← canonicalTopicKey (records x) tokens 1;
    reported (
      open_or_create "HELP";;
      runLineRecordEditorForLocation (records x) "HELP" (storageRecordIdFromCanonical canonical) None).

(** ** Who and what *)

(* src/userland/tcl/Shell.cpp:1560-1563 [Shell::cmdVersion] *)
Definition cmdVersion : proc Session unit :=
  println (system_title +:+ " " +:+ version x);; println ("Build: " +:+ build_date x).

(* src/userland/tcl/Shell.cpp:1618-1623 [Shell::cmdShowModules] *)
Definition cmdShowModules : proc Session unit := print (formatLanguagesReport (registry x) (boot_log x) false).

Definition who_line (s : Session) : string :=
  if loggedIn (ident s) then to_string (whoPort (ident s)) +:+ " " +:+ sessionUsername (ident s) +:+ " " +:+ sessionAccount (ident s)
  else "0 - -".

(* src/userland/tcl/Shell.cpp:1625-1631 [Shell::cmdWho] *)
Definition cmdWho : proc Session unit := s ← get; println (who_line s).

(* src/userland/tcl/Shell.cpp:1566-1582 [Shell::cmdSystem] *)
Definition show_system : proc Session unit :=
  s ← get;
  println ("System: " +:+ system_title);;
  println ("Version: " +:+ version x);;
  println ("Build: " +:+ build_date x);;
  println ("Session: " +:+ who_line s);;
  println ("Pick root: " +:+ root (fileSystem_ (store s)));;
  println ("Account context: " +:+ if loggedIn (ident s) then sessionAccount (ident s) else "(none)");;
  println ("Catalogue root: " +:+ default "(none)" (geminiCatalogRoot (store s))).

(** ** Changing accounts *)

(** A method of the login service, on the session's streams and records. *)
Definition on_console {A} (m : proc Console A) : proc Session A := λ s,
  let '(a, c) := m (mkConsole (s_in (io s)) (s_out (io s)) (s_world (io s))) in
  (a, set_io (mkIo (c_in c) (c_out c) (c_store c)) s).

(** The first account of that name. *)
(* src/userland/tcl/Shell.cpp:2427-2470 [Shell::cmdLogto] *)
Definition cmdLogto (tokens : list string) : proc Session unit :=
  s ← get;
  if negb (loggedIn (ident s)) then println "Not logged in."
  else match tokens with
  | [_; accountName] =>
      match geminiCatalogRoot (store s) with
      | None => println "No Gemini catalogue configured."
      | Some cat =>
          match loadAccounts (login_host x) (path_join cat "ACCOUNTS.json") with
          | None => println "Cannot read ACCOUNTS.json."
          | Some accounts =>
              match findAccountRow accounts accountName with
              | None => println "Unknown account."
              | Some acct =>
                  password ← on_console (readPasswordLineIfAccountRequires (Some acct));
                  match password with
                  | None => println "EOF"
                  | Some password =>
                      sess ← lift (authenticateAccount (login_host x) cat accountName password);
                      match sess with
                      | inl u => attach (records x) u
                      | inr e => println e
                      end
                  end
              end
          end
      end
  | _ => println "LOGTO requires an account name"
  end.
End variables.

(** ** The shell *)

(* src/userland/tcl/AdminQueries.h:18-25 [AdminSessionRow] *)
Record AdminSessionRow := mkAdminRow {
  a_port : Z; consoleBound : bool; a_loggedIn : bool; a_username : string; a_account : string; runState : SessionRunState }.

(* src/userland/tcl/AdminQueries.h:27-32 [AdminDaemonStatus] *)
Record AdminDaemonStatus := mkAdminStatus { a_maxSessions : Z; sessionCount : Z; socketPath : string; a_version : string }.

(** [listSessions] sees the session that asks, which is one of the daemon's.  [killSession] answers with the error, if there is one. *)
(* src/userland/tcl/AdminQueries.h:34-39 [ShellAdminQueries] *)
Record ShellAdminQueries (E : Type) := mkQueries {
  listSessions : option (E → Session → list AdminSessionRow);
  status : option (E → AdminDaemonStatus);
  killSession : option (Z → proc E (option string));
  requestShutdown : option (proc E unit)
}.
Arguments listSessions {E} _.
Arguments status {E} _.
Arguments killSession {E} _.
Arguments requestShutdown {E} _.

(** [interrupts]: for each BASIC program to be run, after how many steps Ctrl-C is typed, if it is. *)
(* src/userland/tcl/Shell.h:241-245 [Shell] *)
Record Shell (E : Type) := mkShell {
  sess : Session;
  assembler : bool;
  basic : bool * BasicProgram;
  basicBreakpoints_ : gset Z;
  basicResumePastLine_ : option Z;
  basicTrace_ : bool;
  procReadNextIndex_ : nat;
  sessionEndRequested_ : bool;
  interrupts : list (option nat);
  ext : E
}.
Arguments mkShell {E} _ _ _ _ _ _ _ _ _ _.
Arguments sess {E} _.
Arguments assembler {E} _.
Arguments basic {E} _.
Arguments basicBreakpoints_ {E} _.
Arguments basicResumePastLine_ {E} _.
Arguments basicTrace_ {E} _.
Arguments procReadNextIndex_ {E} _.
Arguments sessionEndRequested_ {E} _.
Arguments interrupts {E} _.
Arguments ext {E} _.

Section shell.
Context {E : Type}.

Definition set_sess (s : Session) (t : Shell E) : Shell E :=
  mkShell s (assembler t) (basic t) (basicBreakpoints_ t) (basicResumePastLine_ t) (basicTrace_ t) (procReadNextIndex_ t)
    (sessionEndRequested_ t) (interrupts t) (ext t).
Definition set_assembler (b : bool) (t : Shell E) : Shell E :=
  mkShell (sess t) b (basic t) (basicBreakpoints_ t) (basicResumePastLine_ t) (basicTrace_ t) (procReadNextIndex_ t)
    (sessionEndRequested_ t) (interrupts t) (ext t).
Definition set_basic (b : bool * BasicProgram) (t : Shell E) : Shell E :=
  mkShell (sess t) (assembler t) b (basicBreakpoints_ t) (basicResumePastLine_ t) (basicTrace_ t) (procReadNextIndex_ t)
    (sessionEndRequested_ t) (interrupts t) (ext t).
Definition set_debugger (bps : gset Z) (resume : option Z) (trace : bool) (t : Shell E) : Shell E :=
  mkShell (sess t) (assembler t) (basic t) bps resume trace (procReadNextIndex_ t) (sessionEndRequested_ t) (interrupts t) (ext t).
Definition set_read_next (n : nat) (t : Shell E) : Shell E :=
  mkShell (sess t) (assembler t) (basic t) (basicBreakpoints_ t) (basicResumePastLine_ t) (basicTrace_ t) n
    (sessionEndRequested_ t) (interrupts t) (ext t).
Definition set_ended (b : bool) (t : Shell E) : Shell E :=
  mkShell (sess t) (assembler t) (basic t) (basicBreakpoints_ t) (basicResumePastLine_ t) (basicTrace_ t) (procReadNextIndex_ t)
    b (interrupts t) (ext t).
Definition set_interrupts (l : list (option nat)) (t : Shell E) : Shell E :=
  mkShell (sess t) (assembler t) (basic t) (basicBreakpoints_ t) (basicResumePastLine_ t) (basicTrace_ t) (procReadNextIndex_ t)
    (sessionEndRequested_ t) l (ext t).
Definition set_ext (e : E) (t : Shell E) : Shell E :=
  mkShell (sess t) (assembler t) (basic t) (basicBreakpoints_ t) (basicResumePastLine_ t) (basicTrace_ t) (procReadNextIndex_ t)
    (sessionEndRequested_ t) (interrupts t) e.

Definition on_session {A} (m : proc Session A) : proc (Shell E) A := zoom sess set_sess m.
Definition on_ext {A} (m : proc E A) : proc (Shell E) A := zoom ext set_ext m.
Definition out (t : string) : proc (Shell E) unit := on_session (println t).

Context (x : ShellHost) (queries : ShellAdminQueries E).

(** ** Commands of the system account *)

(* src/userland/tcl/Shell.cpp:1633-1639 [Shell::requireSysprog] *)
Definition requireSysprog (command : string) : proc (Shell E) bool :=
  t ← get;
  let i := ident (sess t) in
  if loggedIn i && String.eqb (sessionAccount i) "SYSPROG" then mret true
  else out (command +:+ " requires SYSPROG");; mret false.

(* src/userland/tcl/Shell.cpp:1641-1651 [Shell::runStateLabel] *)
Definition runStateLabel (s : SessionRunState) : string :=
  match s with Runnable => "Runnable" | Running => "Running" | WaitingForInput => "WaitingForInput" end.

(* src/userland/tcl/Shell.cpp:1653-1664 [Shell::formatListSessions] *)
Definition formatListSessions (rows : list AdminSessionRow) : string :=
  text_of ("PORT BOUND USER ACCOUNT STATE" ::
    ((λ r, to_string (a_port r) +:+ " " +:+ (if consoleBound r then "yes" else "no") +:+ " " +:+
           (if a_loggedIn r then a_username r +:+ " " +:+ a_account r else "- -") +:+ " " +:+ runStateLabel (runState r)) <$> rows)).

(* src/userland/tcl/Shell.cpp:1666-1676 [Shell::formatStatus] *)
Definition formatStatus (s : AdminDaemonStatus) : string :=
  text_of ["Gemini System " +:+ a_version s;
           "sessions=" +:+ to_string (sessionCount s) +:+ " maxSessions=" +:+ to_string (a_maxSessions s);
           "socket=" +:+ if str_empty (socketPath s) then "none" else socketPath s].

(* src/userland/tcl/Shell.cpp:1678-1689 [Shell::fallbackAdminSessions] *)
Definition fallbackAdminSessions (s : Session) : list AdminSessionRow :=
  let i := ident s in
  [mkAdminRow (wrap32 (whoPort i)) false (loggedIn i) (if loggedIn i then sessionUsername i else "")
     (if loggedIn i then sessionAccount i else "") Runnable].

(* src/userland/tcl/Shell.cpp:1691-1697 [Shell::fallbackAdminStatus] *)
Definition fallbackAdminStatus : AdminDaemonStatus := mkAdminStatus 1 1 "" (version x).

(* src/userland/tcl/Shell.cpp:1699-1706 [Shell::cmdListSessions] *)
Definition cmdListSessions : proc (Shell E) unit :=
  ok ← requireSysprog "LISTSESSIONS";
  if negb (ok : bool) then mret tt
  else
    t ← get;
    on_session (print (formatListSessions (match listSessions queries with Some f => f (ext t) (sess t) | None => fallbackAdminSessions (sess t) end))).

(* src/userland/tcl/Shell.cpp:1708-1714 [Shell::cmdStatus] *)
Definition cmdStatus : proc (Shell E) unit :=
  ok ← requireSysprog "STATUS";
  if negb (ok : bool) then mret tt
  else
    t ← get;
    on_session (print (formatStatus (match status queries with Some f => f (ext t) | None => fallbackAdminStatus end))).

(* src/userland/tcl/Shell.cpp:1716-1744 [Shell::cmdKillSession] *)
Definition cmdKillSession (tokens : list string) : proc (Shell E) unit :=
  ok ← requireSysprog "KILLSESSION";
  if negb (ok : bool) then mret tt
  else match tokens with
  | [_; arg] =>
      match positive_int arg with
      | None => out "KILLSESSION requires a session port"
      | Some port =>
          t ← get;
          if port =? whoPort (ident (sess t)) then out "KILLSESSION: cannot kill current session"
          else match killSession queries with
               | None => out "KILLSESSION: not available"
               | Some kill =>
                   error ← on_ext (kill port);
                   match error with
                   | Some e => out ("KILLSESSION: " +:+ e)
                   | None => out ("Session " +:+ to_string port +:+ " killed")
                   end
               end
      end
  | _ => out "KILLSESSION requires a session port"
  end.

(** True: the shell is to be left. *)
(* src/userland/tcl/Shell.cpp:1746-1757 [Shell::cmdShutdown] *)
Definition cmdShutdown : proc (Shell E) bool :=
  ok ← requireSysprog "SHUTDOWN";
  if negb (ok : bool) then mret false
  else match requestShutdown queries with
       | None => out "SHUTDOWN: not available";; mret false
       | Some f => on_ext f;; out "Shutting down";; mret true
       end.

(* src/userland/tcl/Shell.cpp:1585-1616 [Shell::cmdSystem] *)
Definition cmdSystem (tokens : list string) : proc (Shell E) bool :=
  let unknown sub := out ("SYSTEM: unknown subcommand " +:+ dq +:+ sub +:+ dq);; mret false in
  match drop 1 tokens with
  | [] => on_session (show_system x);; mret false
  | sub :: rest =>
      if String.eqb sub "LANGUAGES" then
        match rest with
        | [] => on_session (cmdShowModules x);; mret false
        | [v] => if String.eqb v "VERBOSE" then on_session (print (formatLanguagesReport (registry x) (boot_log x) true));; mret false
                 else unknown v
        | _ => out "SYSTEM LANGUAGES takes at most one argument";; mret false
        end
      else match rest with
           | [] => if String.eqb sub "STATUS" then cmdStatus;; mret false
                   else if String.eqb sub "SHUTDOWN" then cmdShutdown
                   else unknown sub
           | _ => unknown sub
           end
  end.

(* src/userland/tcl/Shell.cpp:2472-2485 [Shell::cmdLogoff] *)
Definition cmdLogoff (tokens : list string) : proc (Shell E) unit :=
  match tokens with
  | [_] =>
      t ← get;
      if negb (loggedIn (ident (sess t))) then out "Not logged in."
      else
        on_session (modify detach);; on_session (modify reset);; modify (set_ended true);; out "Logged off."
  | _ => out "LOGOFF takes no arguments"
  end.
End shell.
