(* ===== verification/TclRun.v ===== *)
(** * TCL: programs, the BASIC debugger and the assembler shell

    [PickShell::Shell]'s commands that compile, load and run programs, the debugger of a
    BASIC program that was interrupted or that failed, and ASM mode
    ([AssemblerShell], [VmDebugService]).  [fuel] bounds the steps of the machine from one command,
    and [depth] the programs that CHAIN starts one after the other; a command
    that needs more is [Undefined]. *)

From Stdlib Require Import Ascii String.
From S2P Require Import Prelude CLib Words Records Locks FileSys Bytecode Dict Voc Login Values Registry Vm BasicEmit BasicProg Session TclFiles Help Tcl.
From stdpp Require Import options.
Local Open Scope Z_scope.

Section run.
Context (x : ShellHost).

(** A method of the session's machine; with the session's system variables. *)
Definition with_names : Session → Env := vm_env (records x) (Some (registry x)) (platform x).
Definition without_names : Session → Env := plain_env (records x) (Some (registry x)) (platform x).
Definition on_machine {A} (m : proc Runtime A) : proc Session A := on_vm_in with_names (λ _, m).

(** ** Stored programs *)

(* src/userland/tcl/Shell.cpp:1251-1253 [Shell::programObjectRecordKey] *)
Definition programObjectRecordKey (recordKey : string) : string := recordKey +:+ "_OBJ".

Definition stored_key (location : ProgramLocation) (objectRecord : bool) : string :=
  if objectRecord then programObjectRecordKey (recordKey location) else recordKey location.

(* src/userland/tcl/Shell.cpp:212-215 [Shell::Shell] *)
Definition program_location (programName : string) : proc Session ProgramLocation :=
  r ← on_voc (records x) (λ h fs, Voc.resolveProgramLocation h fs programName);
  mret (mkLocation (Voc.fileName r) (Voc.recordKey r)).

(* src/userland/tcl/Shell.cpp:1255-1267 [Shell::readProgramRecord] *)
Definition readProgramRecord (location : ProgramLocation) (objectRecord : bool) : proc Session (option string) :=
  on_fs_error
    (rec ← on_files (records x) (λ h fs, FileSys.read h fs (fileName location) (stored_key location objectRecord)); mret (value <$> rec))
    (mret None).

(** [None]: it succeeded. *)
(* src/userland/tcl/Shell.cpp:1269-1292 [Shell::writeProgramRecord] *)
Definition writeProgramRecord (location : ProgramLocation) (objectRecord : bool) (payload : string) : proc Session (option string) :=
  r ← caught (
    open_or_create x (fileName location);;
    on_files (records x) (λ h fs, FileSys.write h fs (fileName location) (makeRecord (stored_key location objectRecord) payload));;
    voc_written (records x) (fileName location));
  mret (match r with inl _ => None | inr e => Some e end).

(** A line of a stored program: its number, and the rest of it but one blank. *)
(* src/userland/tcl/Shell.cpp:1310-1330 [Shell::ensureProgramObjectExistsForRun] *)
Definition stored_line (p : BasicProgram) (text : string) : BasicProgram :=
  match extract_word text with
  | None => p
  | Some (w, rest) =>
      match stoi w with
      | Ok (n, _) =>
          if 0 <? n then setLine n (match rest with String " " rest' => rest' | _ => rest end) p else p
      | _ => p
      end
  end.

Definition stored_program (name text : string) : BasicProgram :=
  foldl stored_line (mkProgram (Some name) []) (getlines NL text).

(* src/userland/tcl/Shell.cpp:1294-1353 [Shell::ensureProgramObjectExistsForRun] *)
Definition ensureProgramObjectExistsForRun (programName : string) : proc Session bool :=
  location ← program_location programName;
  object ← readProgramRecord location true;
  match object with
  | Some _ => mret true
  | None =>
      source ← readProgramRecord location false;
      match source with
      | None => println ("Error: Cannot open bytecode file for program: " +:+ programName);; mret false
      | Some text =>
          let c := compile (plist (stored_program programName text)) in
          if negb (c_success c) then
            print_lines "" ((λ '(n, m), "Error on line " +:+ to_string n +:+ ": " +:+ m) <$> c_errors c);;
            println "Compilation failed.";; mret false
          else
            object ← lift (serializeBytecodeText (c_program c) (c_source c));
            error ← writeProgramRecord location true object;
            match error with
            | Some e => println ("Error: " +:+ e);; mret false
            | None => mret true
            end
      end
  end.

(** ** RUN *)

(** RUN of no program, and ASM's CONT: there is no [try]. *)
(* src/userland/tcl/Shell.cpp:1014-1034 [Shell::cmdRun] *)
Definition resume (fuel : nat) : proc Session unit :=
  s ← get;
  if negb (suspended_ (vm s)) then println "RUN requires a filename"
  else if negb (programImageLoaded s) then modify (set_suspended false);; println "RUN requires a filename"
  else
    modify (set_resume (Some (ip_of s)));;
    executeVmLoop (records x) (Some (registry x)) (platform x) fuel.

(* src/userland/tcl/Shell.cpp:1054-1081 [Shell::cmdRun] *)
Definition run_object (fuel : nat) (programName : string) : proc Session unit :=
  reported (
    location ← program_location programName;
    object ← readProgramRecord location true;
    match object with
    | None => println ("Error: Cannot open bytecode file for program: " +:+ programName)
    | Some text =>
        loaded ← lift (Bytecode.parse text);
        pruneBreakpointsForProgram (size_of loaded);;
        modify (set_loaded (Some loaded));;
        on_machine (modify (loadProgram (program loaded) (sourceLines loaded)));;
        modify (set_suspended false);; modify (set_resume None);;
        executeVmLoop (records x) (Some (registry x)) (platform x) fuel
    end).

(* src/userland/tcl/Shell.cpp:1013-1082 [Shell::cmdRun] *)
Definition cmdRun (fuel : nat) (tokens : list string) : proc Session unit :=
  match tokens with
  | [_] => resume fuel
  | [_; programName] =>
      if str_empty programName then println "RUN requires a program name"
      else if str_contains "." programName then println "RUN expects a program name without extension"
      else
        ok ← ensureProgramObjectExistsForRun programName;
        if negb (ok : bool) then mret tt else run_object fuel programName
  | _ => println "RUN takes exactly one program name"
  end.

(* src/userland/tcl/Shell.cpp:1759-1763 [Shell::cmdDumpStack] *)
Definition cmdDumpStack : proc Session unit := on_machine dumpStack.

Definition is_object_name (name : string) : bool := String.eqb (substring (String.length name - 4) 4 name) "_OBJ".

(** The records that are not object code. *)
Definition program_names (fileName : string) : proc Session (list string) :=
  on_fs_error
    (names ← on_files (records x) (λ h fs, listRecordNames h fs fileName); mret (filter (λ n, is_object_name n = false) names))
    (mret []).

Fixpoint all_program_names (files : list string) : proc Session (list string) :=
  match files with
  | [] => mret []
  | f :: files' => l ← program_names f; l' ← all_program_names files'; mret (l ++ l')
  end.

(* src/userland/tcl/Shell.cpp:1765-1785 [Shell::cmdListPrograms] *)
Definition cmdListPrograms : proc Session unit :=
  files ← on_voc (records x) (λ h fs, Voc.listProgramFiles h fs);
  names ← all_program_names files;
  println "Programs:";; print_lines "  " (sorted_unique names).

(** ** One step *)

(* src/userland/assembler/VmDebugService.h:26-29 [VmDebugService::StepResult] *)
Inductive StepResult := NoProgramLoaded | Advanced | Halted | Interrupted | RuntimeFailed (runtimeError : string).

(* src/userland/assembler/VmDebugService.cpp:95-112 [VmDebugService::stepRuntime] *)
Definition stepRuntime (env : Session → Env) (traceEnabled : bool) (l : LoadedBytecode) : proc Session StepResult :=
  ip ← gets ip_of;
  (if traceEnabled && (ip <? size_of l) then print_instruction ip l else mret tt);;
  try_catch (more ← on_vm_in env step; mret (if more : bool then Advanced else Halted))
    (λ e, match e with
          | UserInterrupt => Some (mret Interrupted)
          | RuntimeError w | FileSystemError w => Some (mret (RuntimeFailed w))
          | _ => None
          end).

(** ** The debugger of BASIC programs *)

(* src/userland/tcl/Shell.cpp:759-767 [Shell::sourceLinesFromMetadata] *)
Definition sourceLinesFromMetadata (sourceLinePerInstr : list Z) : gset Z := list_to_set (filter (λ n, 0 < n) sourceLinePerInstr).

(* src/userland/tcl/Shell.cpp:769-799 [Shell::parseBasicListRange] *)
Definition parseBasicListRange (tokens : list string) : option (Z * Z) :=
  match tokens with
  | [_] => Some (1, INT_MAX)
  | [_; arg] =>
      match str_split_at "-" arg with
      | None => n ← positive_int arg; Some (n, n)
      | Some (a, b) => s ← positive_int a; e ← positive_int b; if e <? s then None else Some (s, e)
      end
  | _ => None
  end.

(* src/userland/tcl/Shell.cpp:801-815 [Shell::listBasicSourceRange] *)
Definition listBasicSourceRange (p : BasicProgram) (startLine endLine : Z) : string :=
  list_text (set_lines (filter (λ l, startLine <= l.1 <= endLine) (plist p)) p).

(* src/userland/tcl/Shell.cpp:817-825 [Shell::firstInstructionForSourceLine] *)
Definition firstInstructionForSourceLine (sourceLinePerInstr : list Z) (sourceLine : Z) : option Z :=
  match list_find (λ n, n = sourceLine) sourceLinePerInstr with Some (i, _) => Some (Z.of_nat i) | None => None end.

(* src/userland/tcl/Shell.cpp:937-948 [Shell::handleBasicDebuggerCommand] *)
Definition debugger_help : list string :=
  ["Debugger commands:"; "  CONT"; "  STEP"; "  BREAKPOINT <line>"; "  BREAKPOINTS"; "  CLEAR-BREAKPOINT <line>";
   "  CLEAR-BREAKPOINTS"; "  TRACE ON|OFF"; "  LIST [line|start-end]"; "  GOTO <line>"; "  QUIT"].

(** A command with one argument, a line number. *)
Definition line_argument (tokens : list string) : option Z := match tokens with [_; t] => positive_int t | _ => None end.

Section debugger.
Context {E : Type}.

Definition currentSourceLine (t : Shell E) : Z := sourceLineAtInstruction (ip_of (sess t)) (runtime_ (vm (sess t))).

Definition set_breaks (b : gset Z) (t : Shell E) : Shell E := set_debugger b (basicResumePastLine_ t) (basicTrace_ t) t.
Definition put (text : string) : proc (Shell E) unit := on_session (print text).
Definition out_failed (what : string) : proc (Shell E) unit := put (String NL ("Runtime error: " +:+ what +:+ String NL "")).
Definition out_break : proc (Shell E) unit :=
  put (String NL ("Break" +:+ String NL ""));; on_session (on_machine (modify (set_interrupted false))).

(** The program that is being run: its instructions, their lines, its text. *)
Record Running := mkRunning { code : list Instruction; code_lines : list Z; text : BasicProgram }.

Definition code_size (p : Running) : Z := Z.of_nat (length (code p)).
Definition leave_program (p : Running) : proc (Shell E) unit := on_session (on_machine (setInstructionPointer (code_size p))).

(** True: the program is at its end. *)
(* src/userland/tcl/Shell.cpp:700-735 [Shell::runBasicUntilStop] *)
Fixpoint until_stop (fuel : nat) (p : Running) (initialLine : Z) (stopAtNextBasicLine : bool) : proc (Shell E) bool :=
  match fuel with
  | O => lift (Undefined "running")
  | S fuel' =>
      t ← get;
      let ip := ip_of (sess t) in
      if code_size p <=? ip then mret true
      else
        let sourceLine := default 0 (code_lines p !! Z.to_nat ip) in
        let skip := bool_decide (0 < sourceLine) && bool_decide (basicResumePastLine_ t = Some sourceLine) in
        (if skip then modify (set_debugger (basicBreakpoints_ t) None (basicTrace_ t)) else mret tt);;
        if negb skip && bool_decide (0 < sourceLine) && bool_decide (sourceLine ∈ basicBreakpoints_ t) then
          out ("Breakpoint hit at line " +:+ to_string sourceLine);; mret false
        else
          r ← on_session (stepRuntime with_names (basicTrace_ t) (mkLoaded (code p) ∅ (code_lines p)));
          match r with
          | Halted => mret true
          | Interrupted => out_break;; mret false
          | RuntimeFailed w => out_failed w;; mret false
          | NoProgramLoaded | Advanced =>
              currentLine ← gets currentSourceLine;
              if stopAtNextBasicLine && (0 <? currentLine) && negb (currentLine =? initialLine) then mret false
              else until_stop fuel' p initialLine stopAtNextBasicLine
          end
  end.

(* src/userland/tcl/Shell.cpp:693-736 [Shell::runBasicUntilStop] *)
Definition runBasicUntilStop (fuel : nat) (p : Running) (stopAtNextBasicLine : bool) : proc (Shell E) bool :=
  initialLine ← gets currentSourceLine; until_stop fuel p initialLine stopAtNextBasicLine.

(** True: the debugger is to be left. *)
(* src/userland/tcl/Shell.cpp:827-953 [Shell::handleBasicDebuggerCommand] *)
Definition handleBasicDebuggerCommand (fuel : nat) (p : Running) (tokens : list string) : proc (Shell E) bool :=
  match tokens with
  | [] => mret false
  | cmd :: _ =>
      let named := String.eqb cmd in
      t ← get;
      let bps := basicBreakpoints_ t in
      if named "CONT" then runBasicUntilStop fuel p false
      else if named "STEP" then runBasicUntilStop fuel p true
      else if named "BREAKPOINT" then
        (match line_argument tokens with
         | None => out "BREAKPOINT requires a BASIC line number"
         | Some n => if bool_decide (n ∈ sourceLinesFromMetadata (code_lines p)) then modify (set_breaks ({[n]} ∪ bps))
                     else out "No such BASIC line in compiled program"
         end);; mret false
      else if named "BREAKPOINTS" then
        (if bool_decide (bps = ∅) then out "No breakpoints" else out ("Breakpoints:" +:+ numbers_text bps));; mret false
      else if named "CLEAR-BREAKPOINT" then
        (match line_argument tokens with
         | None => out "CLEAR-BREAKPOINT requires a BASIC line number"
         | Some n => modify (set_breaks (bps ∖ {[n]}));; if bool_decide (n ∈ bps) then mret tt else out "No such breakpoint"
         end);; mret false
      else if named "CLEAR-BREAKPOINTS" then modify (set_breaks ∅);; mret false
      else if named "TRACE" then
        (match tokens with
         | [_; a] => if String.eqb a "ON" || String.eqb a "OFF" then modify (set_debugger bps (basicResumePastLine_ t) (String.eqb a "ON"))
                     else out "TRACE requires ON or OFF"
         | _ => out "TRACE requires ON or OFF"
         end);; mret false
      else if named "LIST" then
        (match parseBasicListRange tokens with
         | None => out "LIST takes no args, LIST <line>, or LIST <start-end>"
         | Some (s, e) => put (listBasicSourceRange (text p) s e)
         end);; mret false
      else if named "GOTO" then
        (match line_argument tokens with
         | None => out "GOTO requires a BASIC line number"
         | Some n => match firstInstructionForSourceLine (code_lines p) n with
                     | None => out "No such BASIC line in compiled program"
                     | Some ip => on_session (on_machine (setInstructionPointer ip))
                     end
         end);; mret false
      else if named "QUIT" || named "END" then leave_program p;; mret true
      else if named "HELP" then on_session (print_lines "" debugger_help);; mret false
      else out ("Unknown debugger command: " +:+ cmd);; mret false
  end.

(** Every round reads a line. *)
(* src/userland/tcl/Shell.cpp:660-671 [Shell::executeCompiledBasicProgram] *)
Fixpoint debug_loop (rounds fuel : nat) (p : Running) : proc (Shell E) unit :=
  match rounds with
  | O => lift (Undefined "debugging")
  | S rounds' =>
      ip ← gets (λ t, ip_of (sess t));
      if code_size p <=? ip then mret tt
      else
        put "* ";;
        l ← on_session read_line;
        match l with
        | None => leave_program p
        | Some l =>
            done ← handleBasicDebuggerCommand fuel p (tokenizeDebuggerLine l);
            if done : bool then mret tt else debug_loop rounds' fuel p
        end
  end.

Definition debug (fuel : nat) (p : Running) : proc (Shell E) unit :=
  t ← get; debug_loop (S (String.length (s_in (io (sess t))))) fuel p.

(** ** BASIC programs *)

(** Ctrl-C, while the next program runs. *)
Definition take_interrupt : proc (Shell E) (nat → bool) :=
  t ← get;
  modify (set_interrupts (tail (interrupts t)));;
  mret (λ k, match interrupts t with Some n :: _ => (k =? n)%nat | _ => false end).

(** [catch (const std::exception &)], when CHAIN starts a program; [a]: then. *)
Definition chain_failed {A} (m : proc (Shell E) A) (a : A) : proc (Shell E) A :=
  r ← caught m; match r with inl b => mret b | inr e => out_failed ("CHAIN failed: " +:+ e);; mret a end.

(** The program that CHAIN names; [None]: the reason is printed. *)
(* src/userland/tcl/Shell.cpp:605-657 [Shell::executeCompiledBasicProgram] *)
Definition chained (name : string) : proc (Shell E) (option Running) :=
  if str_empty name then out_failed "CHAIN requires a program name";; mret None
  else if str_contains "." name then out_failed "CHAIN expects a program name without extension";; mret None
  else
    ok ← on_session (ensureProgramObjectExistsForRun name);
    if negb (ok : bool) then mret None
    else
      chain_failed (
        location ← on_session (program_location name);
        object ← on_session (readProgramRecord location true);
        match object with
        | None => out_failed ("CHAIN target has no object code: " +:+ name);; mret None
        | Some t =>
            loaded ← lift (Bytecode.parse t);
            source ← on_session (readProgramRecord location false);
            mret (Some (mkRunning (program loaded) (sourceLines loaded)
                          (default (mkProgram (Some name) []) (stored_program name <$> source))))
        end) None.

(* src/userland/tcl/Shell.cpp:581-691 [Shell::executeCompiledBasicProgram] *)
Fixpoint executeCompiledBasicProgram (depth fuel : nat) (p : Running) : proc (Shell E) unit :=
  match depth with
  | O => lift (Undefined "chaining")
  | S depth' =>
      modify (set_debugger ∅ None false);;
      on_session (on_machine (modify (loadProgram (code p) (code_lines p))));;
      signal ← take_interrupt;
      try_catch
        (ended ← on_session (on_vm_in with_names (λ env, Vm.run env fuel signal));
         match ended with Some _ => mret tt | None => lift (Undefined "running") end)
        (λ e, match e with
              | ChainRequest name => Some (
                  next ← chained name;
                  match next with
                  | None => mret tt
                  | Some q => chain_failed (executeCompiledBasicProgram depth' fuel q) tt
                  end)
              | UserInterrupt => Some (out_break;; debug fuel p)
              | RuntimeError w | FileSystemError w => Some (out_failed w;; debug fuel p)
              | _ => None
              end)
  end.
End debugger.
End run.
