(* ===== verification/Assembler.v ===== *)
(** * ASM mode

    [AssemblerShell] and the [VmDebugService] under it: the commands that step through the
    program that RUN loaded, with breakpoints at instructions. *)

From Stdlib Require Import Ascii String.
From S2P Require Import Prelude CLib Words Bytecode Values Registry Vm BasicProg Session TclFiles Help Tcl TclRun.
From stdpp Require Import options.
Local Open Scope Z_scope.

(** ** Numbers *)

Definition ULLONG_MAX : Z := 2 ^ 64 - 1.

(** [std::stoull] of the token; what follows the number is ignored, and the negative of a number is
    taken modulo 2^64. *)
(* src/userland/assembler/AssemblerShell.cpp:107-108 [AssemblerShell::registerCommands] *)
Definition stoull (token : string) : option Z :=
  match strtol token with
  | Some (n, _) => if ULLONG_MAX <? Z.abs n then None else Some (wrap64 n)
  | None => None
  end.

Section debug_service.
Context (x : ShellHost).

(** ** [VmDebugService] *)

(* src/userland/assembler/VmDebugService.cpp:42-47 [VmDebugService::endProgramContext] *)
Definition endProgramContext (s : Session) : Session :=
  let s := set_resume None (set_suspended false (set_loaded None s)) in
  set_vm (let v := vm s in mkVmContext (loadProgram [] [] (runtime_ v)) (lastLoaded_ v) (trace_ v) (breakpoints_ v) (suspended_ v)
            (resumePastBreakpointIp_ v)) s.

(** The instructions from [ip] on. *)
Fixpoint dump_from (ip : Z) (lines : list Z) (code : list Instruction) : proc Session unit :=
  match code with
  | [] => mret tt
  | i :: code' => t ← lift (formatInstructionLine ip i (Some lines)); println t;; dump_from (ip + 1) lines code'
  end.

Definition with_loaded (k : LoadedBytecode → proc Session unit) : proc Session unit :=
  s ← get;
  match (if programImageLoaded s then lastLoaded_ (vm s) else None) with
  | None => println "No program loaded"
  | Some l => k l
  end.

(* src/userland/assembler/VmDebugService.cpp:49-57 [VmDebugService::dumpProgram] *)
Definition dumpProgram : proc Session unit := with_loaded (λ l, dump_from 0 (sourceLines l) (program l)).

Definition label_le (a b : string * Z) : Prop := str_leq a.1 b.1.
#[global] Instance label_le_dec a b : Decision (label_le a b).
Proof. unfold label_le. apply _. Defined.

(* src/userland/assembler/VmDebugService.cpp:59-74 [VmDebugService::dumpLabels] *)
Definition dumpLabels : proc Session unit := with_loaded (λ l,
  if bool_decide (labels l = ∅) then println "No labels"
  else print_lines "" ((λ '(n, ip), n +:+ " -> " +:+ to_string ip) <$> merge_sort label_le (map_to_list (labels l)))).

(** The machine has no system variables here. *)
(* src/userland/assembler/VmDebugService.cpp:76-93 [VmDebugService::stepVm] *)
Definition stepVm : proc Session StepResult :=
  s ← get;
  match (if programImageLoaded s then lastLoaded_ (vm s) else None) with
  | None => mret NoProgramLoaded
  | Some l =>
      let ip := ip_of s in
      if size_of l <=? ip then mret Halted
      else
        modify (set_suspended false);; modify (set_resume None);;
        print_instruction ip l;;
        stepRuntime (without_names x) false l
  end.

(** ** [AssemblerShell] *)

(* src/userland/assembler/AssemblerShell.cpp:157-172 [AssemblerShell::cmdHelp] *)
Definition asm_help : list string :=
  ["ASM commands:"; "  RUN [name]"; "  CONT"; "  STEP"; "  TRACE ON|OFF"; "  BREAKPOINT <n>"; "  BREAKPOINTS"; "  CLEAR-BREAKPOINT <n>";
   "  CLEAR-BREAKPOINTS"; "  DUMP-STACK"; "  DUMP-PROGRAM"; "  DUMP-LABELS"; "  END            exit VM debugger context"; "  QUIT"].

(* src/userland/assembler/AssemblerShell.cpp:88-101 [AssemblerShell::registerCommands] *)
Definition asm_step (tokens : list string) : proc Session unit :=
  match tokens with
  | [_] =>
      r ← stepVm;
      match r with
      | NoProgramLoaded => println "No program loaded"
      | Halted => println "Program finished"
      | RuntimeFailed w => println ("Runtime error: " +:+ w)
      | Advanced | Interrupted => mret tt
      end
  | _ => println "STEP takes no arguments"
  end.

(* src/userland/assembler/AssemblerShell.cpp:102-112 [AssemblerShell::registerCommands] *)
Definition asm_breakpoint (tokens : list string) : proc Session unit :=
  match tokens with
  | [_; t] =>
      match stoull t with
      | Some n => modify (λ s, set_breakpoints ({[n]} ∪ breakpoints_ (vm s)) s)
      | None => println "BREAKPOINT requires a non-negative integer index"
      end
  | _ => println "BREAKPOINT requires an index"
  end.

(* src/userland/assembler/AssemblerShell.cpp:125-138 [AssemblerShell::registerCommands] *)
Definition asm_clear_breakpoint (tokens : list string) : proc Session unit :=
  match tokens with
  | [_; t] =>
      match stoull t with
      | Some n =>
          bps ← gets (λ s, breakpoints_ (vm s));
          modify (set_breakpoints (bps ∖ {[n]}));;
          if bool_decide (n ∈ bps) then mret tt else println "No such breakpoint"
      | None => println "CLEAR-BREAKPOINT requires a non-negative integer index"
      end
  | _ => println "CLEAR-BREAKPOINT requires an index"
  end.

(** All commands but QUIT. *)
(* src/userland/assembler/AssemblerShell.cpp:50-155 [AssemblerShell::registerCommands] *)
Definition asm_command (fuel : nat) (tokens : list string) : proc Session unit :=
  match tokens with
  | [] => mret tt
  | cmd :: rest =>
      let named := String.eqb cmd in
      if named "HELP" then print_lines "" asm_help
      else if named "END" then
        s ← get; if programImageLoaded s then modify endProgramContext else println "No program loaded"
      else if named "RUN" then cmdRun x fuel tokens
      else if named "CONT" then match rest with [] => cmdRun x fuel ["RUN"] | _ => println "CONT takes no arguments" end
      else if named "TRACE" then
        match rest with
        | [a] => if String.eqb a "ON" || String.eqb a "OFF" then modify (set_trace (String.eqb a "ON")) else println "TRACE requires ON or OFF"
        | _ => println "TRACE requires ON or OFF"
        end
      else if named "STEP" then asm_step tokens
      else if named "BREAKPOINT" then asm_breakpoint tokens
      else if named "BREAKPOINTS" then
        bps ← gets (λ s, breakpoints_ (vm s));
        if bool_decide (bps = ∅) then println "No breakpoints" else println ("Breakpoints:" +:+ numbers_text bps)
      else if named "CLEAR-BREAKPOINT" then asm_clear_breakpoint tokens
      else if named "CLEAR-BREAKPOINTS" then modify (set_breakpoints ∅)
      else if named "DUMP-PROGRAM" then dumpProgram
      else if named "DUMP-LABELS" then dumpLabels
      else if named "DUMP-STACK" then cmdDumpStack x
      else println ("Unknown command: " +:+ cmd)
  end.

Context {E : Type}.

(* src/userland/assembler/AssemblerShell.cpp:20-26 [AssemblerShell::enter] *)
Definition asm_enter : proc (Shell E) unit :=
  t ← get; if assembler t then out "Already in ASM mode" else modify (set_assembler true).

(* src/userland/assembler/AssemblerShell.cpp:36-48 [AssemblerShell::handleCommand] *)
Definition asm_handle (fuel : nat) (tokens : list string) : proc (Shell E) unit :=
  t ← get;
  match tokens with
  | [] => mret tt
  | cmd :: _ =>
      if negb (assembler t) then mret tt
      else if String.eqb cmd "QUIT" then modify (set_assembler false)
      else on_session (asm_command fuel tokens)
  end.
End debug_service.
