(* ===== verification/Shell.v ===== *)
(** * TCL: the shell

    [PickShell::Shell]: the table of commands, PROC and BASIC mode, what a line typed does
    in each mode, and the loop that reads lines.  [fuel] bounds the steps of a program and the
    turns of a PROC script, [depth] the nesting of PROC scripts and the programs that CHAIN starts;
    a command that needs more is [Undefined]. *)

From Stdlib Require Import Ascii String.
From S2P Require Import Prelude CLib Words Records Locks FileSys Bytecode Dict Voc Login Sched EnglishQuery EnglishFormat EnglishExec Values Registry Vm BasicEmit Proc BasicProg Session TclFiles Help Tcl TclRun Assembler.
From stdpp Require Import options.
Local Open Scope Z_scope.

Section shell.
Context {E : Type} (x : ShellHost) (queries : ShellAdminQueries E).

(** ** Streams *)

Definition set_streams (i o : string) (t : Shell E) : Shell E :=
  set_sess (set_io (mkIo i o (s_world (io (sess t)))) (sess t)) t.
Definition stdin (t : Shell E) : string := s_in (io (sess t)).
Definition stdout (t : Shell E) : string := s_out (io (sess t)).

(** What [m] writes, apart. *)
Definition captured {A} (m : proc (Shell E) A) (t : Shell E) : outcome A * (Shell E * string) :=
  let '(a, t') := m (set_streams (stdin t) "" t) in (a, (set_streams (stdin t') (stdout t) t', stdout t')).

(** ** What a PROC script asks of the shell *)

(** The conflict that a [FileSystemError] tells of; any other exception is the script's error. *)
(* src/userland/tcl/Shell.cpp:1160-1169 [Shell::procReadU] *)
Definition lock_errors {A} (m : proc Session (ProcLockOutcome * A)) (none : A) (failed : string → A) : proc Session (ProcLockOutcome * A) :=
  try_catch m (λ e,
    match e with
    | FileSystemError w => Some (mret (if isRecordLockConflict w then (Locked, none) else (HardError, failed w)))
    | _ => match what e with Some w => Some (mret (HardError, failed w)) | None => None end
    end).

(* src/userland/tcl/Shell.cpp:1148-1170 [Shell::procReadU] *)
Definition procReadU (fileName recordKey : string) : proc Session (ProcLockOutcome * string * string) :=
  r ← lock_errors
    (record ← on_files (records x) (λ h fs, readU h fs fileName recordKey);
     mret (match record with None => (MissingRecord, ("", "")) | Some r => (Success, (value r, "")) end))
    ("", "") (λ w, ("", w));
  mret (r.1, r.2.1, r.2.2).

(* src/userland/tcl/Shell.cpp:1172-1192 [Shell::procWriteU] *)
Definition procWriteU (fileName recordKey value : string) : proc Session (ProcLockOutcome * string) :=
  lock_errors
    (on_files (records x) (λ h fs, writeU h fs fileName (makeRecord recordKey value));;
     voc_written (records x) fileName;; mret (Success, ""))
    "" (λ w, w).

(* src/userland/tcl/Shell.cpp:1194-1204 [Shell::procRelease] *)
Definition procRelease (fileName recordKey : string) : proc Session (bool * string) :=
  r ← caught (on_files (records x) (λ h fs, releaseRecord fs fileName recordKey));
  mret (match r with inl _ => (true, "") | inr e => (false, e) end).

(* src/userland/tcl/Shell.cpp:1232-1234 [Shell::resetProcReadNextCursor] *)
Definition resetProcReadNextCursor : proc (Shell E) unit := modify (set_read_next 0).

(* src/userland/tcl/Shell.cpp:1206-1218 [Shell::procSelect] *)
Definition procSelect (fileName : string) : proc (Shell E) (bool * string) :=
  r ← on_session (run_english (records x) (now x) ["SELECT"; fileName] (EnglishQuery.mkContext false None) (mkOptions None None));
  match r with
  | inr e => mret (false, e)
  | inl result => on_session (modify (setActiveList (selectedIds result) fileName));; resetProcReadNextCursor;; mret (true, "")
  end.

(* src/userland/tcl/Shell.cpp:1220-1230 [Shell::procReadNext] *)
Definition procReadNext : proc (Shell E) (option string * string) :=
  t ← get;
  match activeListSourceFile (vars (sess t)) with
  | None => mret (None, "No active list")
  | Some _ =>
      match activeList (vars (sess t)) !! procReadNextIndex_ t with
      | None => mret (None, "")
      | Some id => modify (set_read_next (S (procReadNextIndex_ t)));; mret (Some id, "")
      end
  end.

(** ** PROC *)

(** [bridge]: runs a line of TCL for a script. *)
Definition proc_host (bridge : string → proc (Shell E) unit) : @ProcHost (Shell E) :=
  mkProcHost
    (λ line t input, let '(r, t') := bridge line (set_streams input "" t) in (r, (t', stdin t', stdout t')))
    (Some (λ t n, resolveSystemVariable n (sess t)))
    (Some procSelect) (Some procReadNext)
    (Some (λ f r, on_session (procReadU f r))) (Some (λ f r v, on_session (procWriteU f r v)))
    (Some (λ f r, on_session (procRelease f r))).

Definition run_script (bridge : string → proc (Shell E) unit) (fuel : nat) (lines params : list string) : proc (Shell E) unit := λ t,
  let '(r, m) := runScript (proc_host bridge) fuel lines params (stdin t) t in
  (match r with Ok (Some _) => Ok tt | Ok None => Undefined "running" | Throw e => Throw e | Undefined w => Undefined w end,
   set_streams (Proc.input m) (stdout t +:+ Proc.output m) (Proc.world m)).

(* src/userland/tcl/Shell.cpp:1084-1146 [Shell::cmdProc] *)
Definition cmdProc (bridge : string → proc (Shell E) unit) (fuel : nat) (tokens : list string) : proc (Shell E) unit :=
  match tokens with
  | _ :: name :: params =>
      if str_empty name || str_contains "." name then out "PROC expects a program name without extension"
      else
        r ← on_session (on_voc (records x) (λ h fs, Voc.resolveProcScriptLocation h fs name));
        script ← on_session (readProgramRecord x (mkLocation (Voc.fileName r) (Voc.recordKey r)) false);
        match script with
        | None => out ("Error: Cannot open PROC script: " +:+ name)
        | Some text => resetProcReadNextCursor;; run_script bridge fuel (getlines NL text) params
        end
  | _ => out "PROC requires a program name"
  end.

(** ** BASIC mode *)

(* src/userland/tcl/Shell.cpp:204-238 [Shell::Shell] *)
Definition basic_host (depth fuel : nat) : @Host (Shell E) :=
  mkHost
    (Some (λ program lines source, captured (executeCompiledBasicProgram x depth fuel (mkRunning program lines source))))
    (Some (λ name, on_session (program_location x name)))
    (Some (λ location objectRecord, on_session (readProgramRecord x location objectRecord)))
    (Some (λ location objectRecord payload, on_session (writeProgramRecord x location objectRecord payload)))
    (Some (λ location row, captured (on_session (runLineRecordEditorForLocation (records x) (BasicProg.fileName location) (BasicProg.recordKey location) row)))).

(** A method of the BASIC editor, which writes to the session's stream. *)
Definition on_basic {A} (m : proc (@Editor (Shell E)) A) : proc (Shell E) A := λ t,
  let '(a, e) := m (mkEditor (basic t).1 (basic t).2 t "") in
  let t' := BasicProg.world e in
  (a, set_basic (active e, eprogram e) (set_streams (stdin t') (stdout t' +:+ screen e) t')).

(** ** The commands *)

Abbreviation command := (list string → proc (Shell E) bool).

(** A command that does not leave the shell; a command without arguments; a command of the session. *)
Definition stays (m : list string → proc (Shell E) unit) : command := λ tokens, m tokens;; mret false.
Definition alone (name : string) (m : proc (Shell E) bool) : command := λ tokens,
  match tokens with [_] => m | _ => out (name +:+ " takes no arguments");; mret false end.
Definition local (m : list string → proc Session unit) : command := stays (λ tokens, on_session (m tokens)).

(* src/userland/tcl/Shell.cpp:405-409 [Shell::registerTclCommands] *)
Definition cmd_quit : proc (Shell E) bool := out "Exiting shell";; on_session (modify reset);; mret true.

(* src/userland/tcl/Shell.cpp:520-529 [Shell::registerTclCommands] *)
Definition cmd_asm (fuel : nat) (tokens : list string) : proc (Shell E) unit :=
  match tokens with
  | _ :: _ :: _ :: _ => out "ASM takes at most one program name"
  | [_; name] => asm_enter;; on_session (cmdRun x fuel ["RUN"; name])
  | _ => asm_enter
  end.

(* src/userland/tcl/Shell.cpp:536-546 [Shell::registerTclCommands] *)
Definition cmd_basic (depth fuel : nat) (tokens : list string) : proc (Shell E) unit :=
  match tokens with
  | _ :: _ :: _ :: _ => out "BASIC takes at most one program name"
  | _ => on_basic (enter (basic_host depth fuel) (tokens !! 1%nat))
  end.

(** The answer of a command is [quit].  [bridge] runs the TCL lines of a PROC script. *)
(* src/userland/tcl/Shell.cpp:404-550 [Shell::registerTclCommands] *)
Definition tclCommands (verbs : list string) (bridge : string → proc (Shell E) unit) (depth fuel : nat) : list (string * command) :=
  let h := records x in
  [("QUIT", λ _, cmd_quit); ("HELP", local (cmdHelpLookup x verbs)); ("HELP-LIST", local (cmdHelpList x));
   ("HELP-EDIT", local (cmdHelpEdit x)); ("VERSION", alone "VERSION" (on_session (cmdVersion x);; mret false));
   ("SYSTEM", cmdSystem x queries); ("ABOUT", alone "ABOUT" (cmdSystem x queries ["ABOUT"];; mret false));
   ("SHOW-MODULES", alone "SHOW-MODULES" (on_session (cmdShowModules x);; mret false));
   ("WHO", alone "WHO" (on_session cmdWho;; mret false));
   ("LISTSESSIONS", alone "LISTSESSIONS" (cmdListSessions queries;; mret false));
   ("STATUS", alone "STATUS" (cmdStatus x queries;; mret false));
   ("KILLSESSION", stays (cmdKillSession queries)); ("SHUTDOWN", alone "SHUTDOWN" (cmdShutdown queries));
   ("ECHO", local cmdEcho); ("RUN", local (cmdRun x fuel)); ("PROC", stays (cmdProc bridge fuel));
   ("DUMP-STACK", alone "DUMP-STACK" (on_session (cmdDumpStack x);; mret false));
   ("LIST-PROGRAMS", alone "LIST-PROGRAMS" (on_session (cmdListPrograms x);; mret false));
   ("CREATE-FILE", local (cmdCreateFile h)); ("DELETE-FILE", local (cmdDeleteFile h)); ("LIST-FILES", local (cmdListFiles h));
   ("LIST", local (cmdList h (now x))); ("COUNT", local (cmdCount h (now x))); ("SELECT", local (cmdSelect h (now x)));
   ("SORT", local (cmdSort h (now x))); ("LIST-LIST", local cmdListList); ("CLEAR-LIST", local cmdClearList);
   ("RESOLVE-FIELD", local (cmdResolveField h)); ("DEFINE-FIELD", local (cmdDefineField h)); ("LIST-DICT", local (cmdListDict h));
   ("CREATE-VOC", local (cmdCreateVoc h)); ("DELETE-VOC", local (cmdDeleteVoc h)); ("LIST-VOC", local (cmdListVoc h));
   ("READ", local (cmdRead h)); ("WRITE", local (cmdWrite h)); ("READU", local (cmdReadU h)); ("WRITEU", local (cmdWriteU h));
   ("RELEASE", local (cmdRelease h)); ("ASM", stays (cmd_asm fuel));
   ("SET", local cmdSet); ("GET", local cmdGet); ("LIST-VARS", local cmdListVars); ("UNSET", local cmdUnset);
   ("BASIC", stays (cmd_basic depth fuel)); ("EDIT", local (cmdEdit h)); ("LOGTO", local (cmdLogto x)); ("LOGOFF", stays cmdLogoff)].

Fixpoint assoc {A} (k : string) (l : list (string * A)) : option A :=
  match l with [] => None | (k', a) :: l' => if String.eqb k k' then Some a else assoc k l' end.

(** The names that are registered. *)
Definition verbs : list string := (tclCommands [] (λ _, mret tt) 0 0).*1.

Definition resolve_verb (token : string) : proc (Shell E) string :=
  on_session (on_voc (records x) (λ h fs, Voc.resolveVerbName h fs token)).

(* src/userland/tcl/Shell.cpp:566-579 [Shell::handleTclCommand] *)
Definition handle_with (bridge : string → proc (Shell E) unit) (depth fuel : nat) (tokensIn : list string) : proc (Shell E) bool :=
  match tokensIn with
  | [] => lift (Undefined "work[0] of no tokens")
  | token :: operands =>
      verb ← resolve_verb token;
      s ← gets sess;
      let work := expandSessionAtOperands s (asciiUpperCopy verb :: operands) in
      match assoc (asciiUpperCopy verb) (tclCommands verbs bridge depth fuel) with
      | None => out ("Unknown command: " +:+ asciiUpperCopy verb);; mret false
      | Some m => m work
      end
  end.

(** QUIT in a script does not leave the shell: the answer is dropped. *)
(* src/userland/tcl/Shell.cpp:1236-1249 [Shell::executeProcTclCommand] *)
Definition executeProcTclCommand (handle : list string → proc (Shell E) bool) (line : string) : proc (Shell E) unit :=
  match tokenize line with
  | inr e => out ("Error: " +:+ e)
  | inl [] => mret tt
  | inl (token :: operands) => verb ← resolve_verb token; handle (verb :: operands);; mret tt
  end.

(** [depth]: scripts in scripts. *)
(* src/userland/tcl/Shell.cpp:566-579 [Shell::handleTclCommand] *)
Fixpoint handleTclCommand (depth fuel : nat) (tokens : list string) : proc (Shell E) bool :=
  match depth with
  | O => lift (Undefined "nesting")
  | S depth' => handle_with (executeProcTclCommand (handleTclCommand depth' fuel)) depth fuel tokens
  end.

(** ** Lines *)

(* src/userland/tcl/Shell.cpp:552-564 [Shell::dispatch] *)
Definition dispatch (depth fuel : nat) (tokens : list string) : proc (Shell E) bool :=
  t ← get;
  if assembler t then asm_handle x fuel tokens;; mret false
  else if (basic t).1 then on_basic (handleCommand (basic_host depth fuel) tokens);; mret false
  else handleTclCommand depth fuel tokens.

(* src/userland/tcl/Shell.cpp:356-372 [Shell::handleLine] *)
Definition handleLine (depth fuel : nat) (line : string) : proc (Shell E) bool :=
  t ← get;
  if assembler t || (basic t).1 then
    match tokenizeDebuggerLine line with [] => mret false | tokens => dispatch depth fuel tokens end
  else
    match tokenize line with
    | inr e => out ("Error: " +:+ e);; mret false
    | inl [] => mret false
    | inl tokens => dispatch depth fuel tokens
    end.

(* src/userland/tcl/Shell.cpp:390-398 [Shell::prompt] *)
Definition prompt (t : Shell E) : string := if assembler t then "ASM> " else if (basic t).1 then "BASIC> " else "TCL> ".

(* src/userland/tcl/Shell.cpp:347-354 [Shell::readPromptedInputLine] *)
Definition readPromptedInputLine (promptText : string) : proc (Shell E) (option string) :=
  on_session (print promptText);; on_session read_line.

(* src/userland/tcl/Shell.h:31-34 [ShellRunResult] *)
Inductive ShellRunResult := ExitProcess | EndSession.

(** Every round reads a line. *)
(* src/userland/tcl/Shell.cpp:331-344 [Shell::runTclRepl] *)
Fixpoint repl (rounds depth fuel : nat) : proc (Shell E) ShellRunResult :=
  match rounds with
  | O => lift (Undefined "reading")
  | S rounds' =>
      t ← get;
      line ← readPromptedInputLine (prompt t);
      match line with
      | None => mret ExitProcess
      | Some line =>
          quit ← handleLine depth fuel line;
          ended ← gets sessionEndRequested_;
          if quit : bool then mret ExitProcess
          else if ended : bool then mret EndSession
          else repl rounds' depth fuel
      end
  end.

(* src/userland/tcl/Shell.cpp:327-329 [Shell::runTclRepl] *)
Definition banner : string := text_of ["Gemini/TCL Developer Shell"; "Type HELP for usage; HELP-LIST lists HELP topics."].

(* src/userland/tcl/Shell.cpp:321-345 [Shell::runTclRepl] *)
Definition runTclRepl (depth fuel : nat) : proc (Shell E) ShellRunResult :=
  modify (set_ended false);;
  on_session (print banner);;
  t ← get;
  repl (S (String.length (stdin t))) depth fuel.
End shell.
