(* ===== verification/ShellRun.v ===== *)
(** * What the shell does

    Theorems about [Shell.v] and the files under it: the words of a line, logging off, and a
    record that passes from one session to another.  At the end, whole sessions on a concrete host,
    with what is on the screen. *)

From Stdlib Require Import Ascii String.
From S2P Require Import Prelude CLib Words Records Locks FileSys Bytecode Dict Voc Login Sched EnglishQuery EnglishFormat EnglishExec Values Registry Vm BasicEmit Proc BasicProg Session TclFiles Help Tcl TclRun Assembler Shell.
From stdpp Require Import options.
Local Open Scope Z_scope.

(** ** Quoting

    Any word can be typed: between quotes, with a backslash before a quote and before a backslash. *)
Fixpoint escaped (s : string) : string :=
  match s with
  | "" => ""
  | String c s' => if Ascii.eqb c BACKSLASH || Ascii.eqb c DQUOTE then String BACKSLASH (String c (escaped s')) else String c (escaped s')
  end.

Definition quoted (s : string) : string := String DQUOTE (escaped s +:+ String DQUOTE "").

Lemma tokenize_escaped t : ∀ cur q rest,
  tokenize_from cur true q false (escaped t +:+ rest) = tokenize_from (cur +:+ t) true q false rest.
Proof.
  induction t as [|c t IH]; intros cur q rest; [by autorewrite with gemini|].
  replace (cur +:+ String c t) with ((cur +:+ String c "") +:+ t) by (by rewrite str_app_assoc).
  rewrite <- IH. cbn [escaped].
  destruct (Ascii.eqb_spec c BACKSLASH) as [->|Hb]; [done|]. destruct (Ascii.eqb_spec c DQUOTE) as [->|Hq]; [done|]. cbn [orb].
  rewrite str_app_cons. cbn [tokenize_from]. by rewrite (proj2 (Ascii.eqb_neq _ _) Hb), (proj2 (Ascii.eqb_neq _ _) Hq).
Qed.

Lemma tokenize_quoted t rest : tokenize_from "" false false false (quoted t +:+ rest) = tokenize_from t false true false rest.
Proof.
  unfold quoted. rewrite str_app_cons. change (tokenize_from "" false false false (String DQUOTE ?s)) with (tokenize_from "" true true false s).
  rewrite str_app_assoc. by rewrite tokenize_escaped.
Qed.

(** After a quoted word: the end of the line, or a blank. *)
Lemma tokenize_end t : tokenize_from t false true false "" = inl [t].
Proof. cbn. by rewrite andb_false_r. Qed.

Lemma tokenize_blank t rest :
  tokenize_from t false true false (String " " rest) = match tokenize rest with inl ts => inl (t :: ts) | inr e => inr e end.
Proof. unfold tokenize. cbn. by rewrite andb_false_r. Qed.

(** The words of a line round trip: a line of words in quotes, a quote and a backslash in them with a
    backslash before it, is cut into exactly those words.  Words may be empty and may
    have any characters, so every command can be given any operands. *)
Theorem quoting_roundtrip ts : tokenize (str_join " " (quoted <$> ts)) = inl ts.
Proof.
  induction ts as [|t ts IH]; [done|]. cbn [fmap list_fmap]. unfold tokenize. destruct ts as [|t' ts].
  - cbn [str_join fmap list_fmap]. by rewrite <- (str_app_nil_r (quoted t)), tokenize_quoted, tokenize_end.
  - rewrite str_join_cons by done. by rewrite tokenize_quoted, tokenize_blank, IH.
Qed.

(** ** LOGOFF *)

Definition world_of (s : Session) : World := s_world (io s).

(** The locks that are left when the session gives up its own. *)
Definition others_locks (sid : string) (o : Owners) : Owners :=
  filter (λ kv : (string * string) * LockEntry, ownerSessionId kv.2 ≠ sid) o.

Lemma release_own s o : lockTable_ (store s) = true → table_wf (locks (world_of s)) → represents (locks (world_of s)) o →
  let w := world_of (releaseSessionLocks s) in
  table_wf (locks w) ∧ represents (locks w) (others_locks (sessionLockId_ (store s)) o) ∧ disk w = disk (world_of s).
Proof.
  intros Ht Hwf Ho. destruct (refines_release_session (sessionLockId_ (store s)) _ _ Hwf Ho) as (_ & Hwf' & Ho').
  cbn [run_op spec_op snd] in Hwf', Ho'. unfold releaseSessionLocks. rewrite Ht. cbn [andb]. unfold releaseAllForSession, isValidKey in *.
  destruct (str_empty (sessionLockId_ (store s))); by split_and!.
Qed.

Lemma release_none s : sessionLockId_ (store s) = "" → releaseSessionLocks s = s.
Proof. intros E. unfold releaseSessionLocks. rewrite E. by rewrite andb_false_r. Qed.

(** What is left of a session that was logged on. *)
Record blank (s : Session) : Prop := {
  blank_user : ident s = mkIdentity false (whoPort (ident s)) (daemonPortAssigned_ (ident s)) "" "" "0";
  blank_vars : vars s = mkVars ∅ None [] None 24;
  blank_locks : lockingEnabled (fileSystem_ (store s)) = false;
  blank_program : programImageLoaded s = false;
  blank_machine : let r := runtime_ (vm s) in r_stack r = [] ∧ r_vars r = ∅ ∧ r_arrays r = ∅ ∧ r_files r = ∅
}.

Lemma detached s : lockTable_ (store s) = true →
  reset (detach s) = clearActiveList (set_env ∅ (set_vm (mkVmContext (loadProgram [] [] (runtime_ (vm (detach s)))) None false ∅ false None) (detach s))).
Proof. intros H. unfold reset. by rewrite release_none by reflexivity. Qed.

Lemma logged_off s : lockTable_ (store s) = true → blank (reset (detach s)) ∧ io (reset (detach s)) = io (releaseSessionLocks s).
Proof.
  intros H. rewrite detached by done. unfold detach.
  assert (lockTable_ (store (releaseSessionLocks s)) = true) as Ht by (unfold releaseSessionLocks; by destruct (_ && _)).
  revert Ht. generalize (releaseSessionLocks s). intros [v i st va o] Ht. cbn in Ht. split; [|done].
  split; [done..| |done|done]. cbn. by rewrite Ht.
Qed.

Lemma end_session {E} (f g : Session → Session) (m : string) (t : Shell E) : ∃ t',
  (on_session (modify f);; on_session (modify g);; modify (set_ended true);; out m) t = (Ok tt, t') ∧
  sessionEndRequested_ t' = true ∧ sess t' = (println m (g (f (sess t)))).2.
Proof. eexists. split; [reflexivity|done]. Qed.

Lemma blank_println m s : blank s → blank (println m s).2.
Proof. intros []. by split. Qed.

Lemma world_println m s : world_of (println m s).2 = world_of s.
Proof. done. Qed.

Lemma logoff_run {E} (t : Shell E) : loggedIn (ident (sess t)) = true → lockTable_ (store (sess t)) = true → ∃ t',
  cmdLogoff ["LOGOFF"] t = (Ok tt, t') ∧ sessionEndRequested_ t' = true ∧ blank (sess t') ∧
  world_of (sess t') = world_of (releaseSessionLocks (sess t)).
Proof.
  intros Hl Ht. destruct (logged_off _ Ht) as [Hb Hio]. destruct (end_session detach reset "Logged off." t) as (t' & E1 & E2 & E3).
  exists t'. rewrite E3, world_println. split_and!; [|done|by apply blank_println|unfold world_of; by rewrite Hio].
  unfold cmdLogoff, get. rewrite (proc_bind_ok _ _ t t t) by done. by rewrite Hl.
Qed.

(** C16. LOGOFF leaves nothing of the user behind.  It succeeds and ends the session's loop; exactly the locks that
    the session held are given up (those of the other sessions stay, and no record changes), the
    user and the account are gone, and so are the variables, the active list, the default file, the program with its variables,
    stack and open files; the record store has no lock context until somebody logs on. *)
Theorem logoff_clears {E} (t : Shell E) (o : Owners) :
  let s := sess t in
  loggedIn (ident s) = true → lockTable_ (store s) = true →
  table_wf (locks (world_of s)) → represents (locks (world_of s)) o →
  ∃ t', cmdLogoff ["LOGOFF"] t = (Ok tt, t') ∧ sessionEndRequested_ t' = true ∧ blank (sess t') ∧
        represents (locks (world_of (sess t'))) (others_locks (sessionLockId_ (store s)) o) ∧
        disk (world_of (sess t')) = disk (world_of s).
Proof.
  cbv zeta. intros Hl Ht Hwf Ho. destruct (release_own _ _ Ht Hwf Ho) as (_ & Hr & Hd).
  destruct (logoff_run t Hl Ht) as (t' & E1 & E2 & E3 & E4). exists t'. rewrite E4. by split_and!.
Qed.

(** ** Two sessions and one record *)

Lemma gets_bind {S A B} (g : S → A) (k : A → proc S B) s : (gets g ≫= k) s = k (g s) s.
Proof. done. Qed.

Lemma lookup_owner t o f r : table_wf t → represents t o → lock_lookup f r t = o !! (f, r).
Proof. intros Hwf Ho. destruct (refines_lookup f r t o Hwf Ho) as [[= H] _]. exact H. Qed.

(** A free lock is given to who asks. *)
Lemma acquire_free fs f r ty w o : lockingEnabled fs = true → f ≠ "" → r ≠ "" → table_wf (locks w) → represents (locks w) o →
  o !! (f, r) = None →
  ∃ t, acquireRecordLock fs f r ty w = (Ok tt, set_locks t w) ∧ table_wf t ∧
       represents t (<[(f, r) := Locks.mkEntry (lockSessionId fs) ty (clock w)]> o).
Proof.
  intros Hen Hf Hr Hwf Ho Hfree. destruct (refines_acquire (lockSessionId fs) f r ty (clock w) _ _ Hwf Ho) as (Ha & Hwf' & Ho').
  unfold acquireRecordLock. rewrite Hen. cbn [negb]. unfold lockingEnabled in Hen. apply andb_true_iff in Hen as [_ Hsid].
  cbn [run_op spec_op] in *. destruct (tryAcquire _ _ _ _ _ _) as [[ok c] t].
  rewrite Hfree in Ha, Ho'. destruct (str_empty (lockSessionId fs)); [done|].
  destruct (str_empty f) eqn:Ef; [by destruct f|]. destruct (str_empty r) eqn:Er; [by destruct r|].
  cbn in Ha. injection Ha as -> ->. by exists t.
Qed.

(** A session that is logged on: its record store takes locks in its name. *)
Record logged_on (s : Session) : Prop := {
  on_user : loggedIn (ident s) = true;
  on_table : lockTable_ (store s) = true;
  on_enabled : lockingEnabled (fileSystem_ (store s)) = true;
  on_name : lockSessionId (fileSystem_ (store s)) = sessionLockId_ (store s)
}.

Lemma reported_ok m s s' : m s = (Ok tt, s') → reported m s = (Ok tt, s').
Proof. intros H. unfold reported, caught, try_catch, mbind, proc_bind. by rewrite H. Qed.

Lemma reported_refused m s s' w : m s = (Throw (FileSystemError w), s') → reported m s = println ("Error: " +:+ w) s'.
Proof. intros H. unfold reported, caught, try_catch, mbind, proc_bind. by rewrite H. Qed.

Section commands.
Context (host : HostFs) (v f r : string) (s : Session).

Lemma on_files_at {A} (m : HostFs → FileSystem → proc World A) a w w' :
  m host (fileSystem_ (store s)) w = (a, w') → on_files host m (set_world w s) = (a, set_world w' s).
Proof. intros H. unfold on_files. cbn. by rewrite H. Qed.

Lemma read_command_at verb rd w w' rec : rd host (fileSystem_ (store s)) f r w = (Ok rec, w') →
  read_command host verb rd [v; f; r] (set_world w s) =
  println (match rec with None => "No such record" | Some x => value x end) (set_world w' s).
Proof.
  intros H. unfold read_command. rewrite gets_bind. cbn [parseFileRecordReadOperands].
  destruct rec as [x|]; (erewrite reported_ok; [reflexivity|]); rewrite (proc_bind_ok _ _ _ _ _ (on_files_at _ _ _ _ H)); done.
Qed.

Context (ws : list string) (Hws : ws ≠ []).
#[local] Set Default Proof Using "Type*".

Lemma write_operands d : parseFileRecordWriteOperands (v :: f :: r :: ws) d = Some (f, r, 3%nat).
Proof. by destruct ws. Qed.

Lemma write_command_at verb wr w w' : f ≠ "VOC" →
  wr host (fileSystem_ (store s)) f (makeRecord r (str_join " " ws)) w = (Ok tt, w') →
  write_command host verb wr (v :: f :: r :: ws) (set_world w s) = (Ok tt, set_world w' s).
Proof.
  intros Hf H. unfold write_command. rewrite gets_bind, write_operands. apply reported_ok.
  unfold joinTokensFrom. cbn [drop]. rewrite (proc_bind_ok _ _ _ _ _ (on_files_at _ _ _ _ H)).
  unfold voc_written. by destruct (String.eqb_spec f "VOC").
Qed.

Lemma write_command_refused verb wr w e :
  wr host (fileSystem_ (store s)) f (makeRecord r (str_join " " ws)) w = (Throw (FileSystemError e), w) →
  write_command host verb wr (v :: f :: r :: ws) (set_world w s) = println ("Error: " +:+ e) (set_world w s).
Proof.
  intros H. unfold write_command. rewrite gets_bind, write_operands. apply reported_refused.
  unfold joinTokensFrom. cbn [drop]. unfold mbind, proc_bind. by rewrite (on_files_at _ _ _ _ H).
Qed.
End commands.

Lemma set_world_own s : set_world (world_of s) s = s.
Proof. by destruct s as [? ? ? ? []]. Qed.

(** Nobody is kept from a record whose lock is free. *)
Lemma free_accessible fs f r w o : table_wf (locks w) → represents (locks w) o → o !! (f, r) = None → accessible fs f r w.
Proof. intros Hwf Ho Hn _ e He. rewrite (lookup_owner _ o) in He by done. congruence. Qed.

Lemma ready_disk fs fs' f r w w' : root fs' = root fs → disk w' = disk w → ready fs f r w → accessible fs' f r w' → ready fs' f r w'.
Proof. intros Hr Hd [He _] Ha. split; [|done]. by rewrite Hr, Hd. Qed.

Section handover.
Context (host : HostFs) (Hhost : healthy host) (f r : string) (w : World) (o : Owners).
Context (Hf : isValidName f = true) (Hr : isValidName r = true).
Context (Hwf : table_wf (locks w)) (Ho : represents (locks w) o).
#[local] Set Default Proof Using "Type*".

Lemma valid_nonempty n : isValidName n = true → n ≠ "".
Proof using Type. by destruct n. Qed.

(** READU of a free record locks it. *)
Lemma readU_free fs : lockingEnabled fs = true → o !! (f, r) = None → ready fs f r w →
  ∃ rec t, readU host fs f r w = (Ok rec, set_locks t w) ∧ table_wf t ∧
           represents t (<[(f, r) := Locks.mkEntry (lockSessionId fs) Locks.ReadU (clock w)]> o).
Proof.
  intros Hen Hfree Hready. destruct (acquire_free fs f r Locks.ReadU w o) as (t & E & Hwf' & Ho'); [done|by apply valid_nonempty..|done|done|done|].
  destruct (read_ready host fs f r (set_locks t w) Hhost Hf Hr) as (rec & Erec).
  { eapply (ready_disk fs); [done| |exact Hready|]; [done|]. intros _ e He. cbn [locks set_locks] in He. rewrite (lookup_owner t _ f r Hwf' Ho'), lookup_insert_eq in He.
    by injection He as <-. }
  exists rec, t. split; [|done]. unfold readU. by rewrite (proc_bind_ok _ _ _ _ _ E).
Qed.
End handover.

(** C12. A record passes from one session to another.  Two sessions are logged on to the same records and nobody has the
    lock on a record.  When the first has typed READU, the other's WRITE prints that the record is
    locked, by whom, and changes nothing; when the first has typed LOGOFF, the same WRITE
    succeeds without a word and READ shows the words that were written. *)
Theorem record_handover {E} host (a : Shell E) (b : Session) f r ws w o :
  healthy host → isValidName f = true → isValidName r = true → f ≠ "VOC" → ws ≠ [] →
  logged_on (sess a) → logged_on b → root (fileSystem_ (store (sess a))) = root (fileSystem_ (store b)) →
  sessionLockId_ (store (sess a)) ≠ sessionLockId_ (store b) →
  ready (fileSystem_ (store b)) f r w → table_wf (locks w) → represents (locks w) o → o !! (f, r) = None →
  ∃ a1 w1, on_session (cmdReadU host ["READU"; f; r]) (set_sess (set_world w (sess a)) a) = (Ok tt, a1) ∧
    world_of (sess a1) = w1 ∧ disk w1 = disk w ∧
    cmdWrite host ("WRITE" :: f :: r :: ws) (set_world w1 b) =
      println ("Error: " +:+ describeLockConflict (mkConflict f r (sessionLockId_ (store (sess a))) Locks.ReadU)) (set_world w1 b) ∧
  ∃ a2 w2 w3, cmdLogoff ["LOGOFF"] a1 = (Ok tt, a2) ∧ world_of (sess a2) = w2 ∧
    cmdWrite host ("WRITE" :: f :: r :: ws) (set_world w2 b) = (Ok tt, set_world w3 b) ∧
    cmdRead host ["READ"; f; r] (set_world w3 b) = println (str_join " " ws) (set_world w3 b).
Proof.
  intros Hhost Hf Hr Hvoc Hws [Hau Hat Hae Han] [Hbu Hbt Hbe Hbn] Hroot Hid Hready Hwf Ho Hfree.
  destruct (readU_free host Hhost f r w o Hf Hr Hwf Ho (fileSystem_ (store (sess a)))) as (rec & t & Eread & Hwf1 & Ho1); [done..| |].
  { eapply ready_disk; [exact Hroot|reflexivity|exact Hready|by apply (free_accessible _ _ _ _ o)]. }
  pose proof (read_command_at host "READU" f r (sess a) "READU" FileSys.readU _ _ _ Eread) as Ea.
  eexists _, (set_locks t w). split; [unfold on_session, zoom; cbn [sess set_sess]; unfold cmdReadU; rewrite Ea; reflexivity|].
  split; [done|]. split; [done|]. rewrite Han in Ho1. split.
  - destruct Hready as [(es & Hes & _) _]. apply write_command_refused; [done|].
    apply (FileSys.write_locked host Hhost _ f r (set_locks t w) (Locks.mkEntry (sessionLockId_ (store (sess a))) Locks.ReadU (clock w))); try done;
      [|by rewrite Hbn]. cbn [locks set_locks]. by rewrite (lookup_owner t _ f r Hwf1 Ho1), lookup_insert_eq.
  - match goal with |- ∃ _ _ _, cmdLogoff _ ?t1 = _ ∧ _ => destruct (logoff_run t1) as (a2 & E1 & _ & _ & E4); [done..|] end.
    match type of E4 with _ = world_of (releaseSessionLocks ?s1) => destruct (release_own s1 _ Hat Hwf1 Ho1) as (Hwf2 & Ho2 & Hd2) end.
    rewrite <- E4 in Hwf2, Ho2, Hd2. clear E4. set (w2 := world_of (sess a2)) in *.
    assert (Hready2 : ready (fileSystem_ (store b)) f r w2).
    { apply (ready_disk (fileSystem_ (store b)) _ f r w); [done|exact Hd2|exact Hready|]. eapply free_accessible; [exact Hwf2|exact Ho2|].
      apply map_lookup_filter_None. right. intros e [= <-]%lookup_insert_rev. naive_solver. }
    destruct (write_ready host _ f r (str_join " " ws) w2 Hhost Hf Hr Hready2) as (w3 & Hw & _ & _ & Hread).
    exists a2, w2, w3. split_and!; [exact E1|done|by apply write_command_at|].
    pose proof (read_command_at host "READ" f r b "READ" FileSys.read _ _ _ Hread) as Hshow. cbn [value makeRecord] in Hshow.
    by rewrite toRaw_fromRaw in Hshow.
Qed.

(** ** Saving a program

    Where the shell keeps the program [n]: the VOC, which has been read, says that it is a record of [f], and the session can use that record. *)
Record keeps_program {E} (x : ShellHost) (t : Shell E) (n f : string) : Prop := mkKeeps {
  kp_host : healthy (records x);
  kp_voc : (voc_ (store (sess t))).2 = true;
  kp_file : default "BP" (resolveFileFromVocKey (voc_ (store (sess t))).1 n ∅) = f;
  kp_not_voc : f ≠ "VOC";
  kp_valid_file : isValidName f = true;
  kp_valid_name : isValidName n = true;
  kp_ready : ready (fileSystem_ (store (sess t))) f n (world_of (sess t))
}.

Section saving.
Context {E : Type} (x : ShellHost) (n f : string).

Lemma location_at s w : (voc_ (store s)).2 = true → default "BP" (resolveFileFromVocKey (voc_ (store s)).1 n ∅) = f →
  program_location x n (set_world w s) = (Ok (BasicProg.mkLocation f n), set_world w s).
Proof. destruct s as [? ? [? [? ?] ? ? ?] ? []]. cbn. intros -> <-. reflexivity. Qed.

Lemma write_program_at s w w' text : f ≠ "VOC" → isValidName f = true → healthy (records x) → ready (fileSystem_ (store s)) f n w →
  FileSys.write (records x) (fileSystem_ (store s)) f (makeRecord n text) w = (Ok tt, w') →
  writeProgramRecord x (BasicProg.mkLocation f n) false text (set_world w s) = (Ok None, set_world w' s).
Proof.
  intros Hv Hf Hh [(es & Hd & _) _] Hw. unfold writeProgramRecord. cbn [BasicProg.fileName stored_key BasicProg.recordKey].
  assert (open_or_create x f (set_world w s) = (Ok tt, set_world w s)) as Ho.
  { unfold open_or_create, try_catch. by rewrite (proc_bind_ok _ _ _ _ _ (on_files_at (records x) s (λ h fs, openFile h fs f) _ _ _ (openFile_healthy Hh _ f w es Hf Hd))). }
  rewrite (proc_bind_ok _ _ _ (inl tt) (set_world w' s)); [done|]. unfold caught, try_catch.
  rewrite (proc_bind_ok _ _ _ tt (set_world w' s)); [done|]. rewrite (proc_bind_ok _ _ _ _ _ Ho).
  rewrite (proc_bind_ok _ _ _ _ _ (on_files_at (records x) s (λ h fs, FileSys.write h fs f (makeRecord n text)) _ _ _ Hw)).
  unfold voc_written. by rewrite (proj2 (String.eqb_neq f "VOC")).
Qed.

Lemma read_program_at s w text : FileSys.read (records x) (fileSystem_ (store s)) f n w = (Ok (Some (makeRecord n text)), w) →
  readProgramRecord x (BasicProg.mkLocation f n) false (set_world w s) = (Ok (Some text), set_world w s).
Proof.
  intros Hr. unfold readProgramRecord, on_fs_error, try_catch. cbn [BasicProg.fileName stored_key BasicProg.recordKey].
  rewrite (proc_bind_ok _ _ _ _ _ (on_files_at (records x) s (λ h fs, FileSys.read h fs f n) _ _ _ Hr)). cbn.
  by rewrite toRaw_fromRaw.
Qed.

(** The editor's host keeps what is saved there. *)
Lemma shell_keeps_text depth fuel text (t : Shell E) : keeps_program x t n f → keeps_text (basic_host x depth fuel) n text t.
Proof.
  intros [Hh Hvoc Hfile Hv Hf Hn Hready].
  destruct (write_ready (records x) _ f n text _ Hh Hf Hn Hready) as (w' & Hw & _ & _ & Hr).
  pose proof (location_at (sess t) (world_of (sess t)) Hvoc Hfile) as E1. pose proof (location_at (sess t) w' Hvoc Hfile) as E3.
  pose proof (write_program_at (sess t) _ _ text Hv Hf Hh Hready Hw) as E2. pose proof (read_program_at (sess t) _ _ Hr) as E4.
  rewrite set_world_own in E1, E2. unfold keeps_text, basic_host. cbn [resolveProgramLocationFn readRecordFn writeRecordFn].
  unfold on_session, zoom. exists (BasicProg.mkLocation f n), t, (set_sess (set_world w' (sess t)) t), (set_sess (set_world w' (sess t)) t), (set_sess (set_world w' (sess t)) t).
  rewrite E1, E2. destruct t. cbn in *. by rewrite E3, E4.
Qed.
End saving.

(** C39. In the shell's BASIC mode, SAVE with a name, NEW and LOAD of that name give back the program, whatever was typed before: the same line numbers
    and texts, under that name, and nothing is printed.  The program is one that any session of the editor can have made; the name is one that the shell can
    store: its record's file is there and is not VOC, the names are valid, and no other session has the record locked. *)
Theorem save_load_roundtrip {E} (x : ShellHost) depth fuel start typed n f e0 (e : @Editor (Shell E)) :
  let host := basic_host x depth fuel in
  isword n → (enter host start;; session host typed) e0 = (Ok tt, e) → active e = true → keeps_program x (world e) n f →
  ∃ e', session host ["SAVE " +:+ n; "NEW"; "LOAD " +:+ n] e = (Ok tt, e') ∧
        plist (eprogram e') = plist (eprogram e) ∧ pname (eprogram e') = Some n ∧ screen e' = screen e ∧ active e' = true.
Proof. intros host Hn Hrun Ha Hk. eapply save_then_load; [done..|]. by apply (shell_keeps_text x n f). Qed.

(** ** Concrete sessions *)

Definition ex_runtime : Runtime := mkRuntime [] [] [] [] [] ∅ ∅ ∅ 0 false 0 None "" "" (mkOutside 0 None) (mkWorld ∅ ∅ 0).

(** Logged on to [account] at [port], with what will be typed, on the records of ["root"]. *)
Definition ex_session (port : Z) (account typed : string) (w : World) : Session :=
  let id := makeSessionLockId port account "u" in
  mkGemini (mkVmContext ex_runtime None false ∅ false None) (mkIdentity true port true "u" account "0")
    (mkStore (mkFs "root" true id) (∅, false) (Some "/g") true id) (mkVars ∅ None [] None 24) (mkIo typed "" w).

Definition ex_shell (port : Z) (account typed : string) (w : World) : Shell unit :=
  mkShell (ex_session port account typed w) false (false, mkProgram None []) ∅ None false 0 false [] tt.

(** One file without records; nothing is locked. *)
Definition ex_files (f : string) : World := mkWorld {["root" := {[f := NDir ∅]}]} ∅ 0.

Lemma ex_logged_on port account typed w : logged_on (ex_session port account typed w).
Proof. by split. Qed.

Lemma ex_ready port account typed w : ready (fileSystem_ (store (ex_session port account typed w))) "F" "R" (ex_files "F").
Proof. split; [exists ∅; split; [done|intros k; by rewrite lookup_empty]|]. intros _ e. by vm_compute. Qed.

Lemma record_handover_witness :
  ∃ a1 w1, on_session (cmdReadU ex_host ["READU"; "F"; "R"]) (ex_shell 1 "A" "" (ex_files "F")) = (Ok tt, a1) ∧
    world_of (sess a1) = w1 ∧
    cmdWrite ex_host ["WRITE"; "F"; "R"; "new"; "text"] (set_world w1 (ex_session 2 "B" "" (ex_files "F"))) =
      println "Error: RECORD LOCKED: F R (owner S:1:A:u, READU)" (set_world w1 (ex_session 2 "B" "" (ex_files "F"))).
Proof.
  destruct (record_handover ex_host (ex_shell 1 "A" "" (ex_files "F")) (ex_session 2 "B" "" (ex_files "F")) "F" "R" ["new"; "text"] (ex_files "F") ∅)
    as (a1 & w1 & E1 & E2 & _ & E3 & _); try done; try (by apply ex_logged_on); try (by apply ex_ready); try (by apply ex_healthy).
  exists a1, w1. split; [exact E1|]. split; [exact E2|]. rewrite E3. reflexivity.
Defined.

(** Two sessions hold a lock each. *)
Definition ex_acquires : list lock_op :=
  [OpAcquire "S:1:A:u" "F" "R" Locks.ReadU 0; OpAcquire "S:2:B:u" "F" "Q" Locks.ReadU 0].
Definition ex_locked : World := mkWorld {["root" := {["F" := NDir ∅]}]} (run_ops run_op ex_acquires ∅).2 0.

Lemma logoff_clears_witness :
  ∃ t', cmdLogoff ["LOGOFF"] (ex_shell 1 "A" "" ex_locked) = (Ok tt, t') ∧ blank (sess t') ∧
        (locks (world_of (sess t')) !! "F" ≫= λ recs, recs !! "R") = None ∧
        (locks (world_of (sess t')) !! "F" ≫= λ recs, recs !! "Q") = Some (Locks.mkEntry "S:2:B:u" Locks.ReadU 0).
Proof.
  destruct (run_ops_refines ex_acquires ∅ ∅ table_wf_empty represents_empty) as (_ & Hwf & Ho).
  destruct (logoff_clears (ex_shell 1 "A" "" ex_locked) (run_ops spec_op ex_acquires ∅).2) as (t' & E1 & _ & E3 & E4 & _);
    [done|done|exact Hwf|exact Ho|].
  exists t'. split; [exact E1|]. split; [exact E3|]. rewrite <- !E4. split; by vm_compute.
Defined.

(** *** Whole sessions

    A session types the lines [typed]; the answer is how the loop ends, and what is on the screen after
    the banner. *)
Definition ex_shell_host : ShellHost :=
  mkShellHost ex_login_host (λ _, 0) emptyRegistry clear_boot_log ex_platform "1.0" "today" Some.

Definition no_queries : ShellAdminQueries unit := mkQueries unit None None None None.

Definition play (typed : list string) (w : World) : outcome ShellRunResult * Shell unit :=
  runTclRepl ex_shell_host no_queries 4 200 (ex_shell 1 "A" (str_join NL typed) w).

Definition shown (r : outcome ShellRunResult * Shell unit) : outcome ShellRunResult * list string :=
  (r.1, drop 2 (getlines NL (stdout r.2))).

(** A program from the editor to the machine: stored, run, compiled by RUN. *)
Example a_program :
  shown (play ["CREATE-FILE BP"; "BASIC T"; "10 LET X = 3"; "20 PRINT X + 1"; "SAVE"; "RUN"; "QUIT"; "RUN T"; "LIST BP"; "LOGOFF"] (ex_files "F")) =
  (Ok EndSession,
   ["TCL> TCL> BASIC> BASIC> BASIC> BASIC> 4"; "BASIC> TCL> 4"; "TCL> Records:"; "  T"; "  T_OBJ"; "TCL> Logged off."]).
Proof. by vm_compute. Qed.

(** CHAIN works in BASIC mode only.  From TCL's RUN it leaves the loop as an exception that nobody catches. *)
Example chain_escapes :
  (play ["CREATE-FILE BP"; "BASIC T"; "10 CHAIN " +:+ quote "T"; "SAVE"; "QUIT"; "RUN T"] (ex_files "F")).1 = Throw (ChainRequest "T").
Proof. by vm_compute. Qed.

(** A program that stops at a breakpoint and is resumed fails outside of any [try]. *)
Example resumed_error_escapes :
  (play ["CREATE-FILE BP"; "BASIC T"; "10 LET X = 0"; "20 PRINT 1 / X"; "SAVE"; "QUIT"; "ASM"; "BREAKPOINT 1"; "RUN T"; "CONT"] (ex_files "F")).1 =
  Throw (RuntimeError "DIV: divide by zero").
Proof. by vm_compute. Qed.

(** So does the number of an attribute that is no [int]. *)
Example large_attribute_escapes : (play ["RESOLVE-FIELD F 99999999999"] (ex_files "F")).1 = Throw (OutOfRange "stoi").
Proof. by vm_compute. Qed.

(** The debugger does not get past a breakpoint: CONT and STEP stop at the line they are on. *)
Example breakpoint_holds :
  shown (play ["CREATE-FILE BP"; "BASIC T"; "10 LET X = 0"; "20 PRINT 1 / X"; "30 PRINT 7"; "SAVE"; "RUN";
               "BREAKPOINT 30"; "GOTO 30"; "CONT"; "CONT"; "STEP"; "QUIT"; "QUIT"] (ex_files "F")) =
  (Ok ExitProcess,
   ["TCL> TCL> BASIC> BASIC> BASIC> BASIC> BASIC> "; "Runtime error: DIV: divide by zero"; "* * * Breakpoint hit at line 30";
    "* Breakpoint hit at line 30"; "* Breakpoint hit at line 30"; "* BASIC> TCL> "]).
Proof. by vm_compute. Qed.

(** QUIT in a script clears the session's variables and says that the shell is left, which it is not. *)
Example script_quit :
  shown (play ["CREATE-FILE PROC"; "WRITE PROC P " +:+ quote "TCL QUIT"; "SET A 1"; "PROC P"; "GET A"; "WHO"] (ex_files "F")) =
  (Ok ExitProcess, ["TCL> TCL> TCL> TCL> Exiting shell"; "TCL> No such variable: A"; "TCL> 1 u A"; "TCL> "]).
Proof. by vm_compute. Qed.

(** A lock on a record of VOC: the next command of any other session that loads its VOC ends its loop with an exception. *)
Example locked_voc_escapes :
  let w := world_of (sess (play ["CREATE-FILE VOC"; "WRITE VOC X V"; "READU VOC X"] (ex_files "F")).2) in
  (runTclRepl ex_shell_host no_queries 4 200 (ex_shell 2 "B" "WHO" w)).1 =
  Throw (FileSystemError "RECORD LOCKED: VOC X (owner S:1:A:u, READU)").
Proof. by vm_compute. Qed.

(** A program is typed into a session that was entered by the name of another, which is not there. *)
Definition ex_editing : outcome unit * @Editor (Shell unit) :=
  let host := basic_host ex_shell_host 4 200 in
  (enter host (Some "DRAFT");; session host ["20 PRINT X"; "10 LET X = 2"; "LIST"])
    (mkEditor false (mkProgram None []) (ex_shell 1 "A" "" (ex_files "BP")) "").

Lemma save_load_roundtrip_witness :
  ∃ e', session (basic_host ex_shell_host 4 200) ["SAVE T"; "NEW"; "LOAD T"] ex_editing.2 = (Ok tt, e') ∧
        plist (eprogram e') = [(10, "LET X = 2"); (20, "PRINT X")] ∧ pname (eprogram e') = Some "T".
Proof.
  assert (keeps_program ex_shell_host (world ex_editing.2) "T" "BP") as Hk.
  { split; [apply ex_healthy|vm_compute; reflexivity|vm_compute; reflexivity|discriminate|reflexivity|reflexivity|].
    split; [exists ∅; split; [vm_compute; reflexivity|intros k; by rewrite lookup_empty]|]. intros _ e. by vm_compute. }
  assert (ex_editing.1 = Ok tt) as E by (vm_compute; reflexivity).
  destruct (save_load_roundtrip ex_shell_host 4 200 (Some "DRAFT") ["20 PRINT X"; "10 LET X = 2"; "LIST"] "T" "BP"
    (mkEditor false (mkProgram None []) (ex_shell 1 "A" "" (ex_files "BP")) "") ex_editing.2) as (e' & H1 & H2 & H3 & _).
  - split; [discriminate|reflexivity].
  - rewrite <- E. unfold ex_editing. cbv zeta. apply surjective_pairing.
  - vm_compute. reflexivity.
  - exact Hk.
  - exists e'. split; [exact H1|]. rewrite H2. split; [vm_compute; reflexivity|exact H3].
Defined.
