(* ===== verification/Input.v ===== *)
(** * What is read from a console

    The lines that may still be read all satisfy a predicate: a property that reading a line
    keeps.  The files [Input...] follow it through the machine, the record editor, scripts and
    the BASIC editor; [Authority.v] uses it. *)

From Stdlib Require Import Ascii String.
From S2P Require Import Prelude CLib Words.
From stdpp Require Import options.
Local Open Scope Z_scope.

(** ** Lines *)

(** Every line of the input satisfies [ok]. *)
Definition only (ok : string → Prop) (s : string) : Prop := Forall ok (getlines NL s).

Lemma only_getline ok s l rest : only ok s → getline NL s = Some (l, rest) → ok l ∧ only ok rest.
Proof. unfold only. intros H E. rewrite getlines_getline, E in H. by inv H. Qed.

Lemma only_nil ok : only ok "".
Proof. constructor. Qed.

Section catch.
Context {S : Type} (P : S → Prop).

Lemma preserves_try {A} (m : proc S A) h : preserves P m → (∀ e k, h e = Some k → preserves P k) → preserves P (try_catch m h).
Proof.
  intros Hm Hh s Hs. unfold try_catch. specialize (Hm s Hs). destruct (m s) as [[|e|] s']; [done| |done].
  destruct (h e) eqn:E; [by eapply Hh|done].
Qed.

Lemma preserves_caught {A} (m : proc S A) : preserves P m → preserves P (caught m).
Proof.
  intros Hm. apply preserves_try; [apply preserves_bind; [done|intros; apply preserves_ret]|].
  intros e k. destruct (what e); [intros [= <-]; apply preserves_ret|done].
Qed.

(** An operation of a part of the state. *)
Lemma preserves_zoom {T A} (view : S → T) (put : T → S → S) (Q : T → Prop) (m : proc T A) :
  (∀ s, P s → Q (view s)) → (∀ t s, P s → Q t → P (put t s)) → preserves Q m → preserves P (zoom view put m).
Proof. intros H1 H2 Hm s Hs. unfold zoom. cbn. apply H2; [done|]. by apply Hm, H1. Qed.
End catch.

(** Through a method's code. *)
Ltac through := intros; repeat first
  [ solve [auto with preserves]
  | match goal with |- preserves _ (modify _) => apply preserves_modify; intros ? ?; assumption end
  | match goal with
    | |- preserves _ (_ ≫= _) => apply preserves_bind; [|intros]
    | |- preserves _ (try_catch _ _) => apply preserves_try; [|intros ? ? ?]
    | H : Some _ = Some _ |- _ => injection H as <-
    | H : None = Some _ |- _ => discriminate H
    end
  | case_match ].
