(* ===== verification/InputVm.v ===== *)
(** * The machine and its input

    Only the INPUT instructions read from the console, whole lines. *)

From Stdlib Require Import Ascii String.
From S2P Require Import Prelude CLib Words Records Locks FileSys Bytecode Dict Values Registry Vm Input.
From stdpp Require Import options.
Local Open Scope Z_scope.

(** ** The machine *)

Section machine.
Context (ok : string → Prop).
Definition typed (r : Runtime) : Prop := only ok (r_in r).
Abbreviation keeps := (preserves typed).

Lemma typed_same r r' : r_in r' = r_in r → typed r → typed r'.
Proof. unfold typed. by intros ->. Qed.

Lemma vm_keeps_read : keeps readInputLine.
Proof. intros r Hr. unfold readInputLine. destruct (getline NL (r_in r)) as [[]|] eqn:E; [|done]. by apply (only_getline ok) in E as []. Qed.

Lemma vm_keeps_modify f : (∀ r, r_in (f r) = r_in r) → keeps (modify f).
Proof. intros Hf. apply preserves_modify. intros r. by apply typed_same. Qed.

(** An operation that leaves the input alone. *)
Lemma vm_keeps_raw {A} (m : proc Runtime A) : (∀ r, r_in (m r).2 = r_in r) → keeps m.
Proof. intros Hm r. by apply typed_same. Qed.

Ltac raw := apply vm_keeps_raw; intros r; repeat case_match; simplify_eq; done.

Lemma vm_keeps_pop : keeps pop.
Proof. unfold pop. raw. Qed.

Lemma vm_keeps_int_operand i : keeps (int_operand i).
Proof. raw. Qed.
Lemma vm_keeps_string_operand i : keeps (string_operand i).
Proof. raw. Qed.
Lemma vm_keeps_float_operand i : keeps (float_operand i).
Proof. raw. Qed.
Lemma vm_keeps_conflict o : keeps (handleRecordLockConflict o).
Proof. unfold handleRecordLockConflict. cbv zeta. raw. Qed.
Lemma vm_keeps_world {A} (m : proc World A) : keeps (on_world m).
Proof. raw. Qed.
Lemma vm_keeps_functions env m : keeps (on_functions env m).
Proof. apply vm_keeps_raw. intros r. unfold on_functions. by destruct (m _ _). Qed.
Lemma vm_keeps_dup : keeps exec_dup.
Proof. unfold exec_dup. apply vm_keeps_raw. intros r. by destruct (r_stack r). Qed.
Lemma vm_keeps_return : keeps exec_return.
Proof. unfold exec_return. raw. Qed.
End machine.

#[export] Hint Resolve vm_keeps_read vm_keeps_pop vm_keeps_int_operand vm_keeps_string_operand vm_keeps_float_operand vm_keeps_conflict vm_keeps_world
  vm_keeps_functions vm_keeps_dup vm_keeps_return : preserves.

Section instructions.
Context (ok : string → Prop) (env : Env).
Abbreviation keeps := (preserves (typed ok)).

Lemma vm_keeps_exec i : keeps (exec env i).
Proof.
  unfold exec. destruct (op i).
  all: unfold exec_push, exec_arith, exec_div, exec_mod, exec_compare, exec_concat, exec_print, exec_coerce, exec_input, exec_jump, exec_call,
    exec_for_setup, exec_for_next, exec_dim, exec_load_arr, exec_store_arr, exec_mat_init, exec_mat_copy, exec_mat_load, exec_mat_store,
    exec_clear, exec_number, exec_store_var, exec_chain, exec_set_handler, exec_builtin, exec_call_func, exec_open, exec_open_try,
    exec_read_u, exec_read_u_try, exec_write_u, exec_write_u_try, exec_read, exec_read_try, exec_write, exec_write_try, exec_release,
    exec_read_next, exec_read_next_try, exec_read_v, exec_read_v_try, exec_extract, exec_resolve_dict, exec_write_v, exec_write_v_try,
    exec_close, exec_load_var, push_next_record, evaluateDictFieldCell, open_into, on_lock_conflict, Vm.on_std_error, on_fs_error, with_file,
    with_file_else, push_none, push_some, reset_cursor, put_file, put_array, read_only, jump_to, next, write_out, name_operand, pop_int,
    pop_string, pop_coerced, pop_text, push, fail; cbv zeta.
  all: through.
Qed.

Lemma vm_keeps_step : keeps (step env).
Proof.
  intros r Hr. unfold step. destruct (psize r <=? r_ip r); [done|]. destruct (r_program r !! _) as [i|]; [|done].
  revert r Hr. change (keeps (f ← exec env i; match f with Next => modify (λ r, set_ip (r_ip r + 1) r);; gets (λ r, r_ip r <? psize r)
    | Jumped => gets (λ r, r_ip r <? psize r) | Stopped => mret false end)).
  apply preserves_bind; [apply vm_keeps_exec|]. intros []; through.
Qed.

Lemma vm_keeps_run fuel : ∀ signal, keeps (run env fuel signal).
Proof.
  induction fuel as [|fuel IH]; intros signal; cbn [run]; [through|]. apply preserves_bind; [apply vm_keeps_step|]. intros []; through.
Qed.

Lemma vm_keeps_dump : keeps dumpStack.
Proof. by apply vm_keeps_raw. Qed.

Lemma vm_keeps_pointer ip : keeps (setInstructionPointer ip).
Proof. apply vm_keeps_raw. intros r. unfold setInstructionPointer. by destruct (_ <? _). Qed.
End instructions.

#[export] Hint Resolve vm_keeps_step vm_keeps_run vm_keeps_dump vm_keeps_pointer : preserves.
