(* ===== verification/InputEd.v ===== *)
(** * The record editor and its input *)

From Stdlib Require Import Ascii String.
From S2P Require Import Prelude CLib Words Records Locks FileSys LineEditor Input.
From stdpp Require Import options.
Local Open Scope Z_scope.

Section editor.
Context (ok : string → Prop) (host : HostFs) (fs : FileSystem) (f r : string).

Definition typed (e : Editor) : Prop := only ok (e_in e).
Abbreviation keeps := (preserves typed).

Lemma ed_keeps_say s : keeps (say s).
Proof. by intros e He. Qed.
Lemma ed_keeps_prompt : keeps prompt.
Proof. by intros e He. Qed.
Lemma ed_keeps_files {A} (m : proc World A) : keeps (on_files m).
Proof. by intros e He. Qed.
#[local] Hint Resolve ed_keeps_say ed_keeps_prompt ed_keeps_files : preserves.

Lemma ed_keeps_list_lines a b l : ∀ i, keeps (list_lines a b i l).
Proof. induction l as [|x l IH]; intros i; cbn [list_lines]; through. Qed.

Lemma ed_keeps_read_block fuel : keeps (read_block fuel).
Proof.
  induction fuel as [|fuel IH]; intros e He; [done|]. cbn [read_block]. destruct (getline NL (e_in e)) as [[l rest]|] eqn:E; [|done].
  apply (only_getline ok) in E as [_ Hrest]; [|done]. destruct (String.eqb _ _); [done|].
  assert (keeps (b ← read_block fuel; mret (cons l <$> b))) as Hk by through. by apply Hk.
Qed.

Lemma ed_keeps_block : keeps readPeriodTerminatedBlock.
Proof. intros e He. unfold readPeriodTerminatedBlock. by apply ed_keeps_read_block. Qed.
#[local] Hint Resolve ed_keeps_list_lines ed_keeps_block : preserves.

Lemma ed_keeps_insert_block n : keeps (insert_block n).
Proof. unfold insert_block. through. Qed.
#[local] Hint Resolve ed_keeps_insert_block : preserves.

Lemma ed_keeps_reported m : keeps m → keeps (reported m).
Proof. intros Hm. unfold reported. apply preserves_bind; [by apply preserves_caught|through]. Qed.

Lemma ed_keeps_ensure : keeps (ensureFileExistsForWrite host fs f).
Proof.
  unfold ensureFileExistsForWrite. apply preserves_try; [through|]. intros [] k; try done. intros [= <-].
  case_match; [through|]. apply ed_keeps_reported. apply ed_keeps_files.
Qed.
#[local] Hint Resolve ed_keeps_reported ed_keeps_ensure : preserves.

Lemma ed_keeps_command hook line : keeps (command host fs f r hook line).
Proof.
  unfold command, cmdHelp, cmdList, cmdInsert, cmdReplace, cmdDelete, cmdSave. cbv zeta. through.
  all: apply ed_keeps_reported; through.
Qed.

Lemma ed_keeps_rounds fuel hook : keeps (rounds host fs f r fuel hook).
Proof.
  induction fuel as [|fuel IH]; [apply preserves_lift|]. cbn [rounds]. apply preserves_bind; [apply ed_keeps_prompt|]. intros _ e He.
  unfold get. rewrite (proc_bind_ok _ _ e e e) by done. destruct (getline NL (e_in e)) as [[l rest]|] eqn:E; [|done].
  apply (only_getline ok) in E as [_ Hrest]; [|done]. revert e He Hrest.
  assert (keeps (quit ← command host fs f r hook l; if quit : bool then mret tt else rounds host fs f r fuel hook)) as Hk.
  { apply preserves_bind; [apply ed_keeps_command|]. intros []; [through|done]. }
  intros e He Hrest. by apply Hk.
Qed.

Lemma ed_keeps_run hook row : keeps (run host fs f r hook row).
Proof.
  unfold run. apply preserves_bind; [through|]. intros l. apply preserves_bind; [unfold cmdList; through|]. intros _ e He.
  by apply ed_keeps_rounds.
Qed.
End editor.
