(* ===== verification/InputProc.v ===== *)
(** * Scripts and their input *)

From Stdlib Require Import Ascii String.
From S2P Require Import Prelude CLib Words Proc Input.
From stdpp Require Import options.
Local Open Scope Z_scope.

(** A host whose functions keep [Q], and whose TCL commands read whole lines. *)
Class HostKeeps {W} (ok : string → Prop) (Q : W → Prop) (host : @ProcHost W) : Prop := {
  keep_tcl line w i : Q w → only ok i → let '(_, (w', i', _)) := tclBridgeFn host line w i in Q w' ∧ only ok i';
  keep_select f x : selectFn host = Some f → preserves Q (f x);
  keep_next f : readNextFn host = Some f → preserves Q f;
  keep_readU f x y : readUFn host = Some f → preserves Q (f x y);
  keep_writeU f x y z : writeUFn host = Some f → preserves Q (f x y z);
  keep_release f x y : releaseFn host = Some f → preserves Q (f x y)
}.

Section scripts.
Context {W : Type} (ok : string → Prop) (Q : W → Prop) (host : @ProcHost W) `{!HostKeeps ok Q host} (script : Script).

Definition typed (m : @Machine W) : Prop := only ok (input m) ∧ Q (world m).
Abbreviation keeps := (preserves typed).
#[local] Set Default Proof Using "Type*".

Lemma proc_keeps_print s : keeps (print s).
Proof using Type. by intros m []. Qed.
Lemma proc_keeps_refuse s : keeps (refuse s).
Proof using Type. by intros m []. Qed.
Lemma proc_keeps_assign n v : keeps (assign n v).
Proof using Type. by intros m []. Qed.
Lemma proc_keeps_frames f : keeps (modify (λ m, set_frames (f m) m)).
Proof using Type. by intros m []. Qed.

Lemma proc_keeps_call {A} (f : proc W A) : preserves Q f → keeps (call_host f).
Proof using Type. intros Hf m [Hi Hw]. specialize (Hf (world m) Hw). unfold call_host. by destruct (f (world m)). Qed.

Lemma proc_keeps_next_input : keeps next_input.
Proof using Type.
  intros m [Hi Hw]. unfold next_input. destruct (getline NL (input m)) as [[]|] eqn:E; [|done]. by apply (only_getline ok) in E as [].
Qed.

Lemma proc_keeps_tcl i tokens pc : keeps (exec_tcl host i tokens pc).
Proof.
  intros m [Hi Hw]. unfold exec_tcl. pose proof (keep_tcl (joinTokens (substituteTokens host m tokens 1) 0) (world m) (input m) Hw Hi) as H.
  destruct (tclBridgeFn _ _ _ _) as [? [[] ?]]. by destruct H.
Qed.

#[local] Hint Resolve proc_keeps_print proc_keeps_refuse proc_keeps_assign proc_keeps_frames proc_keeps_next_input proc_keeps_tcl : preserves.

Ltac host_call := match goal with
  | H : selectFn _ = Some ?f |- preserves _ (call_host (?f _)) => apply proc_keeps_call; by apply keep_select
  | H : readNextFn _ = Some ?f |- preserves _ (call_host ?f) => apply proc_keeps_call; by apply keep_next
  | H : readUFn _ = Some ?f |- preserves _ (call_host (?f _ _)) => apply proc_keeps_call; by apply keep_readU
  | H : writeUFn _ = Some ?f |- preserves _ (call_host (?f _ _ _)) => apply proc_keeps_call; by apply keep_writeU
  | H : releaseFn _ = Some ?f |- preserves _ (call_host (?f _ _)) => apply proc_keeps_call; by apply keep_release
  end.

Lemma proc_keeps_leave pc : keeps (leave_loop pc).
Proof using Type. unfold leave_loop, syncLoopFramesForPc. through. Qed.
#[local] Hint Resolve proc_keeps_leave : preserves.

Lemma proc_keeps_statement fuel : ∀ i tokens pc, keeps (execStatement host script fuel i tokens pc).
Proof.
  induction fuel as [|fuel IH]; intros i tokens pc; [apply preserves_lift|]. cbn [execStatement]. destruct (parseStatement tokens).
  all: unfold exec_display, exec_input, exec_if, exec_go, exec_loop, exec_repeat, exec_exitif, exec_select, exec_readnext, exec_readu, exec_writeu,
    exec_release, exec_assignment, resolveLabelPc, next, clearProcErr, setProcLocked; cbv zeta.
  all: through; try host_call.
  intros m Hm. cbn. by case_bool_decide.
Qed.
#[local] Hint Resolve proc_keeps_statement : preserves.

Lemma proc_keeps_turns fuel : ∀ pc, keeps (run host script fuel pc).
Proof.
  induction fuel as [|fuel IH]; intros pc; cbn [run]; [apply preserves_ret|]. unfold turn, syncLoopFramesForPc. through.
Qed.
End scripts.

(** A script reads whole lines, and keeps what the host's functions keep. *)
Lemma runScript_keeps {W} (ok : string → Prop) (Q : W → Prop) (host : @ProcHost W) `{!HostKeeps ok Q host} fuel ls params i w :
  only ok i → Q w → typed ok Q (runScript host fuel ls params i w).2.
Proof. intros Hi Hw. unfold runScript. destruct (load ls) as [script|e]; [by apply proc_keeps_turns|done]. Qed.
