(* ===== verification/InputBasic.v ===== *)
(** * The BASIC editor and its host

    The editor changes its host's state through the host's functions only. *)

From Stdlib Require Import Ascii String.
From S2P Require Import Prelude CLib Words Records Bytecode Values Registry BasicExpr BasicStmt BasicEmit BasicProg Input.
From stdpp Require Import options.
Local Open Scope Z_scope.

Class BasicHostKeeps {W} (Q : W → Prop) (host : @Host W) : Prop := {
  keep_execute f p l s w : executeProgramFn host = Some f → Q w → Q (f p l s w).2.1;
  keep_resolve f n : resolveProgramLocationFn host = Some f → preserves Q (f n);
  keep_read f l o : readRecordFn host = Some f → preserves Q (f l o);
  keep_write f l o t : writeRecordFn host = Some f → preserves Q (f l o t);
  keep_editor f l r w : runLineRecordEditorFn host = Some f → Q w → Q (f l r w).2.1
}.

Section editor.
Context {W : Type} (Q : W → Prop) (host : @Host W) `{!BasicHostKeeps Q host}.
Abbreviation keeps := (preserves (λ e : @Editor W, Q (world e))).
#[local] Set Default Proof Using "Type*".

Lemma basic_keeps_say s : keeps (say s).
Proof using Type. by intros e. Qed.
Lemma basic_keeps_edit f : keeps (edit_program f).
Proof using Type. by intros e. Qed.
Lemma basic_keeps_call {A} (f : proc W A) : preserves Q f → keeps (on_host f).
Proof using Type. intros Hf e He. specialize (Hf _ He). unfold on_host. by destruct (f (world e)). Qed.
Lemma basic_keeps_console f : (∀ w, Q w → Q (f w).2.1) → keeps (on_console f).
Proof using Type. intros Hf e He. specialize (Hf _ He). unfold on_console. by destruct (f (world e)) as [? []]. Qed.
#[local] Hint Resolve basic_keeps_say basic_keeps_edit : preserves.

Ltac host_call := match goal with
  | H : resolveProgramLocationFn _ = Some ?f |- preserves _ (on_host (?f _)) => apply basic_keeps_call; by apply keep_resolve
  | H : readRecordFn _ = Some ?f |- preserves _ (on_host (?f _ _)) => apply basic_keeps_call; by apply keep_read
  | H : writeRecordFn _ = Some ?f |- preserves _ (on_host (?f _ _ _)) => apply basic_keeps_call; by apply keep_write
  | H : executeProgramFn _ = Some ?f |- preserves _ (on_console (?f _ _ _)) => apply basic_keeps_console; intros; by apply keep_execute
  | H : runLineRecordEditorFn _ = Some ?f |- preserves _ (on_console (?f _ _)) => apply basic_keeps_console; intros; by apply keep_editor
  end.

Lemma basic_keeps_flush : keeps (flushProgramSourceToDisk host).
Proof. unfold flushProgramSourceToDisk, program_name. through; try host_call. Qed.
Lemma basic_keeps_load : keeps (loadProgramIfPresent host).
Proof. unfold loadProgramIfPresent, program_name. through; try host_call. Qed.
Lemma basic_keeps_object n c : keeps (saveObjectCode host n c).
Proof. unfold saveObjectCode. through; try host_call. Qed.
#[local] Hint Resolve basic_keeps_flush basic_keeps_load basic_keeps_object : preserves.

Lemma basic_keeps_enter name : keeps (enter host name).
Proof. unfold enter. through. Qed.

Lemma basic_keeps_command tokens : keeps (handleBasicCommand host tokens).
Proof.
  unfold handleBasicCommand, cmd_edit, cmd_delete, cmd_renum, cmd_load, cmd_save, cmd_compile, cmd_run, with_compiled, save_compiled, chosen_name,
    printCompileSuccess, printCompileFailure, program_name, bare. cbv zeta. through; try host_call.
Qed.

Lemma basic_keeps_handle tokens : keeps (handleCommand host tokens).
Proof. unfold handleCommand. apply preserves_bind; [through|]. intros []; [apply basic_keeps_command|through]. Qed.
End editor.
