(* ===== verification/Authority.v ===== *)
(** * Who reaches the daemon

    The commands that stop the daemon or end other sessions are for the account SYSPROG.  This file
    follows what is typed at a console through the machine, the editors, scripts and the shell,
    and shows that who does not know the password of SYSPROG cannot use those commands. *)

From Stdlib Require Import Ascii String.
From S2P Require Import Prelude CLib Words Records Locks FileSys Bytecode Dict Voc Login Sched EnglishQuery EnglishFormat EnglishExec LineEditor Values Registry Vm BasicEmit Proc BasicProg Session TclFiles Help Tcl TclRun Assembler Shell ShellRun Input InputVm InputEd InputProc InputBasic.
From stdpp Require Import options.
Local Open Scope Z_scope.

(** ** The password of SYSPROG *)

Section secret.
Context (host : LoginHost).

Definition sysprog_row (acct : GeminiAccountRow) : Prop :=
  ∃ catalog accounts, loadAccounts host (path_join catalog "ACCOUNTS.json") = Some accounts ∧ acct ∈ accounts ∧ a_name acct = "SYSPROG".

(** The accounts called SYSPROG have a password. *)
Definition sysprog_has_password : Prop :=
  ∀ acct, sysprog_row acct → ∃ h, passwordHash acct = Some h ∧ passwordPlaceholderSkipsVerify h = false.

(** A line that, as a password, is not that of SYSPROG. *)
Definition not_the_password (line : string) : Prop :=
  ∀ acct, sysprog_row acct → passwordHash acct ≠ Some (trimTrailingAsciiWs line).

Lemma find_account_in accounts name acct : findAccountRow accounts name = Some acct → acct ∈ accounts.
Proof.
  induction accounts as [|a accounts IH]; cbn; [done|]. destruct (iequalsAscii _ _); [intros [= ->]; by left|]. intros H. right. by apply IH.
Qed.

Lemma wrong_password catalog name password u : sysprog_has_password →
  (password = "" ∨ ∃ line, not_the_password line ∧ password = trimTrailingAsciiWs line) →
  authenticateAccount host catalog name password = Ok (inl u) → accountName u ≠ "SYSPROG".
Proof.
  intros Hset Hpw. unfold authenticateAccount. destruct (path_exists host _) as [[]|e|w]; [|done..]. unfold mbind, outcome_bind. cbn [negb].
  destruct (loadAccounts host _) as [accounts|] eqn:Ea; [|done]. destruct (firstInvalidAccountRowReason accounts); [done|].
  destruct (findAccountRow accounts name) as [acct|] eqn:Ef; [|done]. intros H Hu.
  assert (Hrow : a_name acct = "SYSPROG" → sysprog_row acct).
  { intros Hn. exists catalog, accounts. split_and!; [done| |done]. by eapply find_account_in. }
  assert (Hname : a_name acct = "SYSPROG").
  { rewrite <- Hu. repeat case_match; simplify_eq; done. }
  destruct (Hset acct (Hrow Hname)) as (h & Eh & Hskip). rewrite Eh, Hskip in H.
  destruct Hpw as [->|(line & Hline & ->)]; [done|]. destruct (str_empty _); [done|].
  destruct (String.eqb_spec (trimTrailingAsciiWs line) h) as [E|]; [|done].
  destruct (Hline acct (Hrow Hname)). by rewrite Eh, E.
Qed.
End secret.

(** ** The session *)

Section session.
Context (x : ShellHost).

Definition host : LoginHost := login_host x.

(** Not in the account SYSPROG, and its password will not be typed. *)
Definition stranger (s : Session) : Prop := sessionAccount (ident s) ≠ "SYSPROG" ∧ only (not_the_password host) (s_in (io s)).
Abbreviation keeps := (preserves stranger).

Lemma keeps_print t : keeps (print t).
Proof. by intros s []. Qed.
Lemma keeps_println t : keeps (println t).
Proof. by intros s []. Qed.
Lemma keeps_read_line : keeps read_line.
Proof.
  intros s [Hs Hi]. unfold read_line. destruct (getline NL (s_in (io s))) as [[]|] eqn:E; [|by split; [|apply only_nil]].
  apply (only_getline (not_the_password host)) in E as []; [|done]. by split.
Qed.
Lemma keeps_on_files {A} h (m : HostFs → FileSystem → proc World A) : keeps (on_files h m).
Proof. intros s []. unfold on_files. by destruct (m _ _ _). Qed.
Lemma keeps_on_voc {A} h (m : HostFs → FileSystem → proc VocResolver A) : keeps (on_voc h m).
Proof. intros s []. unfold on_voc. by destruct (m _ _ _). Qed.
Lemma keeps_invalidate h : keeps (invalidate_voc h).
Proof. apply keeps_on_voc. Qed.
Lemma keeps_vm {A} env (m : Env → proc Runtime A) : (∀ e, preserves (InputVm.typed (not_the_password host)) (m e)) → keeps (on_vm_in env m).
Proof.
  intros Hm s [Hs Hi]. unfold on_vm_in. set (r := Vm.set_world _ _). specialize (Hm (env s) r Hi). destruct (m (env s) r) as [a r'].
  by split.
Qed.
#[local] Hint Resolve keeps_print keeps_println keeps_read_line keeps_on_files keeps_on_voc keeps_invalidate : preserves.

Lemma keeps_caught {A} (m : proc Session A) : keeps m → keeps (caught m).
Proof. apply preserves_caught. Qed.
Lemma keeps_fs_error {A} (m h : proc Session A) : keeps m → keeps h → keeps (on_fs_error m h).
Proof. intros Hm Hh. apply preserves_try; [done|]. intros [] k; try done. by intros [= <-]. Qed.
Lemma keeps_reported m : keeps m → keeps (reported m).
Proof. intros Hm. unfold reported. apply preserves_bind; [by apply keeps_caught|through]. Qed.

Ltac walk := intros; repeat first
  [ solve [auto with preserves]
  | match goal with
    | |- preserves _ (_ ≫= _) => apply preserves_bind; [|intros]
    | |- preserves _ (reported _) => apply keeps_reported
    | |- preserves _ (caught _) => apply preserves_caught
    | |- preserves _ (on_fs_error _ _) => apply keeps_fs_error
    | |- preserves _ (modify _) => apply preserves_modify; intros ? ?; assumption
    end
  | case_match ].

Lemma keeps_each l m : (∀ s, keeps (m s)) → keeps (each l m).
Proof. intros Hm. induction l as [|y l IH]; cbn [each]; walk. Qed.

Lemma keeps_print_lines i l : keeps (print_lines i l).
Proof. unfold print_lines. walk. Qed.

Lemma keeps_voc_written h f : keeps (voc_written h f).
Proof. unfold voc_written. walk. Qed.

Lemma keeps_file_exists h f : keeps (logicalPickFileExists h f).
Proof. unfold logicalPickFileExists. walk. Qed.
#[local] Hint Resolve keeps_print_lines keeps_voc_written keeps_file_exists : preserves.

Lemma keeps_report h now tokens : keeps (english_report h now tokens).
Proof. unfold english_report, run_options, englishImplicitSetup, run_english. cbv zeta. walk. Qed.

Lemma keeps_is_english h t : keeps (shellIsEnglishList h t) ∧ keeps (shellIsEnglishCount t) ∧ keeps (shellIsEnglishSort h t).
Proof. unfold shellIsEnglishList, shellIsEnglishCount, shellIsEnglishSort. split_and!; walk. Qed.

Lemma keeps_record_editor h f r row : keeps (runLineRecordEditorForLocation h f r row).
Proof.
  unfold runLineRecordEditorForLocation. apply preserves_bind; [walk|]. intros []; [|walk]. intros s [Hs Hi]. unfold act. cbv zeta.
  match goal with |- context [LineEditor.run ?h ?fs ?f ?r ?b ?row ?e] =>
    pose proof (InputEd.ed_keeps_run (not_the_password host) h fs f r b row e Hi) as Hrun; destruct (LineEditor.run h fs f r b row e) as [a e'] end.
  case_bool_decide; [|by split]. apply keeps_invalidate. by split.
Qed.
#[local] Hint Resolve keeps_report keeps_record_editor : preserves.

Lemma keeps_file_commands h tokens :
  keeps (cmdCreateFile h tokens) ∧ keeps (cmdDeleteFile h tokens) ∧ keeps (cmdListFiles h tokens) ∧ keeps (cmdRead h tokens) ∧
  keeps (cmdWrite h tokens) ∧ keeps (cmdReadU h tokens) ∧ keeps (cmdWriteU h tokens) ∧ keeps (cmdRelease h tokens) ∧
  keeps (cmdEdit h tokens) ∧ keeps (cmdCreateVoc h tokens) ∧ keeps (cmdDeleteVoc h tokens) ∧ keeps (cmdListVoc h tokens) ∧
  keeps (cmdDefineField h tokens) ∧ keeps (cmdListDict h tokens) ∧ keeps (cmdResolveField h tokens).
Proof.
  unfold cmdCreateFile, cmdDeleteFile, cmdListFiles, cmdRead, cmdWrite, cmdReadU, cmdWriteU, cmdRelease, cmdEdit, cmdCreateVoc, cmdDeleteVoc,
    cmdListVoc, cmdDefineField, cmdListDict, cmdResolveField, read_command, write_command, dict_record, show_resolved, show_unresolved.
  cbv zeta. split_and!; walk; apply keeps_each; walk.
Qed.

Lemma keeps_list_commands h now tokens :
  keeps (cmdList h now tokens) ∧ keeps (cmdCount h now tokens) ∧ keeps (cmdSelect h now tokens) ∧ keeps (cmdSort h now tokens) ∧
  keeps (cmdListList tokens) ∧ keeps (cmdClearList tokens).
Proof.
  destruct (keeps_is_english h tokens) as (? & ? & ?).
  unfold cmdList, cmdCount, cmdSelect, cmdSort, cmdListList, cmdClearList, run_english, run_options. split_and!; walk.
Qed.

Lemma keeps_open_or_create f : keeps (open_or_create x f).
Proof. unfold open_or_create. apply preserves_try; [walk|]. intros [] k; try done. intros [= <-]. walk. Qed.
#[local] Hint Resolve keeps_open_or_create : preserves.

Lemma keeps_help tokens n : keeps (canonicalTopicKey (records x) tokens n) ∧ (∀ k, keeps (resolveHelpBody (records x) (weakly_canonical x) k)) ∧
  keeps (listCanonicalHelpTopicsSorted (records x)).
Proof. unfold canonicalTopicKey, resolveHelpBody, listCanonicalHelpTopicsSorted. cbv zeta. split_and!; walk. Qed.

Lemma keeps_variable_commands tokens :
  keeps (cmdEcho tokens) ∧ keeps (cmdSet tokens) ∧ keeps (cmdGet tokens) ∧ keeps (cmdListVars tokens) ∧ keeps (cmdUnset tokens) ∧
  keeps (cmdVersion x) ∧ keeps (cmdShowModules x) ∧ keeps cmdWho ∧ keeps (show_system x).
Proof.
  unfold cmdEcho, cmdSet, cmdGet, cmdListVars, cmdUnset, cmdVersion, cmdShowModules, cmdWho, show_system. cbv zeta. split_and!; walk.
Qed.

Lemma keeps_help_commands verbs tokens : keeps (cmdHelpLookup x verbs tokens) ∧ keeps (cmdHelpList x tokens) ∧ keeps (cmdHelpEdit x tokens).
Proof.
  destruct (keeps_help tokens 1) as (? & ? & ?).
  unfold cmdHelpLookup, cmdHelpList, cmdHelpEdit, generatedHelpCommandsBody. cbv zeta. split_and!; walk.
Qed.

(** *** Logging on and off *)

Lemma keeps_release s : stranger s → stranger (releaseSessionLocks s).
Proof. unfold releaseSessionLocks. by case_match. Qed.

Lemma keeps_reset s : stranger s → stranger (reset s).
Proof. intros H. unfold reset. by apply keeps_release. Qed.

(** Who logs on to an account is who [attach] says. *)
Lemma keeps_attach u : accountName u ≠ "SYSPROG" → keeps (attach (records x) u).
Proof.
  intros Hu. unfold attach, setFileSystemRoot, reloadMdDefaultDataFile. walk.
  - apply preserves_modify. apply keeps_reset.
  - intros s [Hs Hi]. by split.
Qed.

(** What LOGTO takes for a password is a line that was typed, or nothing. *)
Definition is_password (p : string) : Prop := p = "" ∨ ∃ line, not_the_password host line ∧ p = trimTrailingAsciiWs line.

Lemma typed_password acct s : stranger s →
  let r := on_console (readPasswordLineIfAccountRequires acct) s in stranger r.2 ∧ ∀ p, r.1 = Ok (Some p) → is_password p.
Proof.
  intros [Hs Hi]. unfold on_console, readPasswordLineIfAccountRequires. destruct (acct ≫= passwordHash) as [h|].
  2: { cbn. split; [done|]. intros p [= <-]. by left. }
  destruct (passwordPlaceholderSkipsVerify h); [cbn; split; [done|]; intros p [= <-]; by left|].
  unfold mbind, proc_bind, Login.read_line. cbn [c_in c_out c_store]. destruct (getline NL (s_in (io s))) as [[line rest]|] eqn:E; [|done].
  apply (only_getline (not_the_password host)) in E as [Hline Hrest]; [|done]. cbn. split; [done|]. intros p [= <-]. right. by exists line.
Qed.

(** A bind, when something is known about the answer. *)
Lemma keeps_bind_known {A B} (m : proc Session A) (k : A → proc Session B) (R : A → Prop) :
  (∀ s, stranger s → stranger (m s).2 ∧ ∀ a, (m s).1 = Ok a → R a) → (∀ a, R a → keeps (k a)) → keeps (m ≫= k).
Proof.
  intros Hm Hk s Hs. specialize (Hm s Hs). unfold mbind, proc_bind. destruct (m s) as [[a|e|w] s']; cbn in Hm; destruct Hm as [H1 H2]; [|done..].
  apply Hk; [by apply H2|done].
Qed.

Lemma keeps_logto tokens : sysprog_has_password host → keeps (cmdLogto x tokens).
Proof.
  intros Hset. unfold cmdLogto. apply preserves_bind; [auto with preserves|]. intros s0.
  repeat (case_match; try solve [auto with preserves]).
  apply (keeps_bind_known _ _ (λ o, ∀ p, o = Some p → is_password p)).
  { intros s' Hs. match goal with |- context [readPasswordLineIfAccountRequires ?a] => destruct (typed_password a s' Hs) as [H1' H2'] end.
    split; [done|]. intros o Ho p ->. by apply H2'. }
  intros [p|] Hp; [|walk]. specialize (Hp p eq_refl).
  apply (keeps_bind_known _ _ (λ r, ∀ u, r = inl u → accountName u ≠ "SYSPROG")).
  { intros s' Hs. split; [done|]. cbn. intros r Hr u ->. by eapply wrong_password. }
  intros [u|e] Hu; [|walk]. apply keeps_attach. by apply Hu.
Qed.

(** *** Programs *)

Lemma keeps_location name : keeps (program_location x name).
Proof. unfold program_location. walk. Qed.
Lemma keeps_read_program l o : keeps (readProgramRecord x l o).
Proof. unfold readProgramRecord. walk. Qed.
Lemma keeps_write_program l o p : keeps (writeProgramRecord x l o p).
Proof. unfold writeProgramRecord. walk. Qed.
#[local] Hint Resolve keeps_location keeps_read_program keeps_write_program : preserves.

Lemma keeps_object_for name : keeps (ensureProgramObjectExistsForRun x name).
Proof. unfold ensureProgramObjectExistsForRun. cbv zeta. walk. Qed.

Lemma keeps_prune n : keeps (pruneBreakpointsForProgram n).
Proof. unfold pruneBreakpointsForProgram. cbv zeta. walk. Qed.
Lemma keeps_instruction ip l : keeps (print_instruction ip l).
Proof. unfold print_instruction. walk. Qed.
Lemma keeps_on_machine {A} (m : proc Runtime A) : preserves (InputVm.typed (not_the_password host)) m → keeps (on_machine x m).
Proof. intros Hm. by apply keeps_vm. Qed.
#[local] Hint Resolve keeps_object_for keeps_prune keeps_instruction : preserves.

Lemma keeps_vm_step env : keeps (on_vm_in env step).
Proof. apply keeps_vm. intros e. apply InputVm.vm_keeps_step. Qed.
Lemma keeps_vm_load p l : keeps (on_machine x (modify (loadProgram p l))).
Proof. apply keeps_on_machine. by apply preserves_modify. Qed.
#[local] Hint Resolve keeps_vm_step keeps_vm_load : preserves.

Lemma keeps_vm_loop fuel l : keeps (vm_loop (records x) (Some (registry x)) (platform x) fuel l).
Proof. induction fuel as [|fuel IH]; cbn [vm_loop]; unfold on_vm; cbv zeta; walk. Qed.
Lemma keeps_execute fuel : keeps (executeVmLoop (records x) (Some (registry x)) (platform x) fuel).
Proof. unfold executeVmLoop. pose proof (keeps_vm_loop fuel). walk. Qed.
#[local] Hint Resolve keeps_execute : preserves.

Lemma keeps_cmd_run fuel tokens : keeps (cmdRun x fuel tokens).
Proof. unfold cmdRun, resume, run_object. walk. Qed.

Lemma keeps_dump_stack : keeps (cmdDumpStack x).
Proof. apply keeps_on_machine, InputVm.vm_keeps_dump. Qed.

Lemma keeps_list_programs : keeps (cmdListPrograms x).
Proof.
  assert (Hl : ∀ l, keeps (all_program_names x l)).
  { induction l; cbn [all_program_names]; unfold program_names; walk. }
  unfold cmdListPrograms. walk.
Qed.

Lemma keeps_step_runtime env trace l : keeps (stepRuntime env trace l).
Proof.
  unfold stepRuntime. walk. apply preserves_try; [walk|]. intros [] k; try done; intros [= <-]; walk.
Qed.
#[local] Hint Resolve keeps_cmd_run keeps_dump_stack keeps_step_runtime : preserves.

Lemma keeps_dump_from code : ∀ ip lines, keeps (dump_from ip lines code).
Proof. induction code; intros; cbn [dump_from]; walk. Qed.
#[local] Hint Resolve keeps_dump_from : preserves.

Lemma keeps_asm fuel tokens : keeps (asm_command x fuel tokens).
Proof.
  unfold asm_command, asm_step, asm_breakpoint, asm_clear_breakpoint, dumpProgram, dumpLabels, stepVm, with_loaded. cbv zeta. walk.
Qed.
End session.

(** ** The shell *)

Section shell.
Context {E : Type} (x : ShellHost) (queries : ShellAdminQueries E) (e0 : E).
Abbreviation ok := (not_the_password (host x)).

(** A stranger's shell, with the rest of the daemon as it was. *)
Definition outsider (t : Shell E) : Prop := stranger x (sess t) ∧ ext t = e0.
Abbreviation keeps := (preserves outsider).

Lemma outside_session {A} (m : proc Session A) : preserves (stranger x) m → keeps (on_session m).
Proof. intros Hm. apply (preserves_zoom outsider sess set_sess (stranger x)); [by intros ? []|by intros ? ? []|done]. Qed.

Lemma outside_modify f : (∀ t, sess (f t) = sess t ∧ ext (f t) = ext t) → keeps (modify f).
Proof. intros Hf. apply preserves_modify. intros t [Hs He]. unfold outsider. by destruct (Hf t) as [-> ->]. Qed.

#[local] Hint Resolve outside_session keeps_print keeps_println keeps_read_line keeps_print_lines keeps_on_files keeps_on_voc keeps_location
  keeps_voc_written keeps_read_program keeps_write_program keeps_object_for keeps_step_runtime keeps_vm_load : preserves.

Ltac walk := intros; repeat first
  [ solve [auto with preserves]
  | match goal with
    | |- preserves _ (_ ≫= _) => apply preserves_bind; [|intros]
    | |- preserves _ (caught _) => apply preserves_caught
    | |- preserves _ (modify _) => apply outside_modify; by intros []
    | |- preserves outsider (on_session _) => apply outside_session
    end
  | case_match ].

Lemma outside_out s : keeps (out s).
Proof. unfold out. walk. Qed.
Lemma outside_put s : keeps (put s).
Proof. unfold put. walk. Qed.
Lemma outside_out_failed s : keeps (out_failed s).
Proof. apply outside_put. Qed.
Lemma outside_machine {A} (m : proc Runtime A) : preserves (InputVm.typed ok) m → keeps (on_session (on_machine x m)).
Proof. intros Hm. by apply outside_session, keeps_on_machine. Qed.
#[local] Hint Resolve outside_out outside_put outside_out_failed : preserves.

Lemma outside_leave p : keeps (leave_program x p).
Proof. apply outside_machine, InputVm.vm_keeps_pointer. Qed.
Lemma outside_break : keeps (out_break x).
Proof. unfold out_break. walk. by apply keeps_on_machine, preserves_modify. Qed.
#[local] Hint Resolve outside_leave outside_break : preserves.

(** *** BASIC programs *)

Lemma outside_until fuel p n b : keeps (until_stop x fuel p n b).
Proof. induction fuel as [|fuel IH]; cbn [until_stop]; cbv zeta; walk. Qed.
#[local] Hint Resolve outside_until : preserves.

Lemma outside_debugger fuel p tokens : keeps (handleBasicDebuggerCommand x fuel p tokens).
Proof.
  unfold handleBasicDebuggerCommand, runBasicUntilStop, set_breaks. cbv zeta. walk.
  apply keeps_on_machine, InputVm.vm_keeps_pointer.
Qed.
#[local] Hint Resolve outside_debugger : preserves.

Lemma outside_debug fuel p : keeps (debug x fuel p).
Proof.
  unfold debug. apply preserves_bind; [walk|]. intros t. generalize (S (String.length (s_in (io (sess t))))). intros rounds.
  induction rounds as [|rounds IH]; cbn [debug_loop]; walk.
Qed.

Lemma outside_chain_failed {A} (m : proc (Shell E) A) a : keeps m → keeps (chain_failed m a).
Proof. intros Hm. unfold chain_failed. walk. Qed.
#[local] Hint Resolve outside_debug outside_chain_failed : preserves.

Lemma outside_chained name : keeps (chained x name).
Proof. unfold chained. walk. apply outside_chain_failed. walk. Qed.
#[local] Hint Resolve outside_chained : preserves.

Lemma outside_execute depth fuel : ∀ p, keeps (executeCompiledBasicProgram x depth fuel p).
Proof.
  induction depth as [|depth IH]; intros p; cbn [executeCompiledBasicProgram]; [walk|].
  apply preserves_bind; [walk|intros]. apply preserves_bind; [walk|intros]. apply preserves_bind; [unfold take_interrupt; walk|intros signal].
  apply preserves_try.
  - walk. apply keeps_vm. intros e. apply InputVm.vm_keeps_run.
  - intros [] k; try done; intros [= <-]; walk.
Qed.

(** *** Streams *)

Lemma outside_streams i o t : only ok i → outsider t → outsider (set_streams i o t).
Proof. intros Hi [[Hs _] He]. by split. Qed.
Lemma outside_stdin t : outsider t → only ok (stdin t).
Proof. by intros [[_ Hi] _]. Qed.

Lemma outside_captured {A} (m : proc (Shell E) A) t : keeps m → outsider t → outsider (captured m t).2.1.
Proof.
  intros Hm Ht. unfold captured. specialize (Hm (set_streams (stdin t) "" t)).
  assert (Ht' : outsider (set_streams (stdin t) "" t)) by (apply outside_streams; [by apply outside_stdin|done]).
  apply Hm in Ht'. clear Hm. destruct (m _) as [a t']. apply outside_streams; [by apply outside_stdin|done].
Qed.

(** *** BASIC mode *)

#[local] Instance basic_outside depth fuel : BasicHostKeeps outsider (basic_host x depth fuel).
Proof.
  split; cbn; intros f **; simplify_eq.
  - apply outside_captured; [apply outside_execute|done].
  - walk.
  - walk.
  - walk.
  - apply outside_captured; [|done]. apply outside_session, keeps_record_editor.
Qed.

Lemma outside_basic {A} (m : proc (@Editor (Shell E)) A) :
  preserves (λ e : @Editor (Shell E), outsider (BasicProg.world e)) m → keeps (on_basic m).
Proof.
  intros Hm t Ht. unfold on_basic. specialize (Hm (mkEditor (basic t).1 (basic t).2 t "") Ht).
  destruct (m _) as [a e]. cbn in Hm |- *. exact (outside_streams _ (stdout t +:+ screen e) _ (outside_stdin _ Hm) Hm).
Qed.

(** *** PROC scripts *)

Section bridge.
Context (bridge : string → proc (Shell E) unit) (Hbridge : ∀ line, keeps (bridge line)).

Lemma outside_lock_errors {A} (m : proc Session (ProcLockOutcome * A)) none failed :
  preserves (stranger x) m → preserves (stranger x) (lock_errors m none failed).
Proof. intros Hm. apply preserves_try; [done|]. intros e k. destruct e; cbn; intros [= <-]; apply preserves_ret. Qed.

#[local] Instance proc_outside : HostKeeps ok outsider (proc_host x bridge).
Proof using Hbridge.
  split; cbn.
  - intros line t i Ht Hi. assert (Ht' : outsider (set_streams i "" t)) by by apply outside_streams.
    apply (Hbridge line) in Ht'. destruct (bridge _ _) as [r t']. split; [done|by apply outside_stdin].
  - intros f a [= <-]. unfold procSelect, run_english, resetProcReadNextCursor. walk.
  - intros f [= <-]. unfold procReadNext. walk.
  - intros f a b [= <-]. apply outside_session. unfold procReadU. apply preserves_bind; [|walk]. apply outside_lock_errors. walk.
  - intros f a b c [= <-]. apply outside_session. unfold procWriteU. apply outside_lock_errors. walk.
  - intros f a b [= <-]. apply outside_session. unfold procRelease. walk.
Qed.

Lemma outside_run_script fuel lines params : keeps (run_script x bridge fuel lines params).
Proof using Hbridge.
  intros t Ht. unfold run_script.
  pose proof (runScript_keeps ok outsider (proc_host x bridge) fuel lines params (stdin t) t (outside_stdin t Ht) Ht) as [H1 H2].
  destruct (runScript _ _ _ _ _ _) as [r m]. by apply outside_streams.
Qed.

Lemma outside_proc fuel tokens : keeps (cmdProc x bridge fuel tokens).
Proof using Hbridge.
  pose proof outside_run_script. unfold cmdProc, resetProcReadNextCursor. walk.
Qed.

(** *** Commands *)

(** What SYSPROG only may do. *)
Lemma refused command t : outsider t → (requireSysprog command t).1 = Ok false ∧ outsider (requireSysprog command t).2.
Proof using Type.
  intros Ht. split; [|revert t Ht; change (keeps (requireSysprog command)); unfold requireSysprog; walk].
  destruct Ht as [[Hs _] _]. unfold requireSysprog, get, mbind, proc_bind. by rewrite (proj2 (String.eqb_neq _ _) Hs), andb_false_r.
Qed.

Lemma outside_sysprog {A} command (k : bool → proc (Shell E) A) : keeps (k false) → keeps (requireSysprog command ≫= k).
Proof using Type.
  intros Hk t Ht. destruct (refused command t Ht) as [H1 H2]. destruct (requireSysprog command t) as [r t'] eqn:Eq.
  cbn in H1, H2. subst r. rewrite (proc_bind_ok _ _ t false t') by done. by apply Hk.
Qed.

Lemma outside_admin tokens :
  keeps (cmdListSessions queries) ∧ keeps (cmdStatus x queries) ∧ keeps (cmdKillSession queries tokens) ∧ keeps (cmdShutdown queries).
Proof using Type.
  unfold cmdListSessions, cmdStatus, cmdKillSession, cmdShutdown. split_and!; apply outside_sysprog; cbn [negb]; walk.
Qed.

Lemma outside_system tokens : keeps (cmdSystem x queries tokens).
Proof using Type.
  destruct (outside_admin []) as (? & ? & ? & ?). destruct (keeps_variable_commands x []) as (_ & _ & _ & _ & _ & _ & ? & _ & ?).
  unfold cmdSystem. cbv zeta. walk.
Qed.

Lemma outside_logoff tokens : keeps (cmdLogoff tokens).
Proof using Type.
  unfold cmdLogoff, out. walk; apply preserves_modify; intros s' Hs.
  - unfold detach. destruct (keeps_release x s' Hs) as [_ Hi]. by split.
  - by apply keeps_reset.
Qed.

Context (Hset : sysprog_has_password (host x)).

Lemma outside_stays m tokens : keeps (m tokens) → keeps (stays m tokens).
Proof using Type. intros Hm. unfold stays. walk. Qed.
Lemma outside_local m tokens : preserves (stranger x) (m tokens) → keeps (local m tokens).
Proof using Type. intros Hm. by apply outside_stays, outside_session. Qed.
Lemma outside_alone name m tokens : keeps m → keeps (alone name m tokens).
Proof using Type. intros Hm. unfold alone. walk. Qed.

Lemma outside_modes depth fuel tokens : keeps (cmd_asm x fuel tokens) ∧ keeps (cmd_basic x depth fuel tokens) ∧ keeps cmd_quit.
Proof using Type.
  split_and!.
  - unfold cmd_asm, asm_enter. walk; apply keeps_cmd_run.
  - pose proof (basic_keeps_enter outsider (basic_host x depth fuel)). unfold cmd_basic. walk; by apply outside_basic.
  - unfold cmd_quit. walk. apply preserves_modify, keeps_reset.
Qed.

Lemma outside_commands depth fuel tokens : Forall (λ c, keeps (c.2 tokens)) (tclCommands x queries (verbs x queries) bridge depth fuel).
Proof using Hbridge Hset.
  pose proof (keeps_file_commands x (records x) tokens). pose proof (keeps_list_commands x (records x) (now x) tokens).
  pose proof (keeps_variable_commands x tokens). pose proof (keeps_help_commands x (verbs x queries) tokens). pose proof (outside_admin tokens).
  pose proof (outside_modes depth fuel tokens). pose proof (keeps_logto x tokens Hset). pose proof (outside_logoff tokens).
  pose proof (outside_proc fuel tokens). pose proof (keeps_cmd_run x fuel tokens). pose proof (keeps_dump_stack x).
  pose proof (keeps_list_programs x). pose proof (outside_system tokens). pose proof (outside_system ["ABOUT"]). destruct_and?.
  unfold tclCommands. cbv zeta.
  repeat apply Forall_cons_2; cbn [snd]; try apply Forall_nil_2;
    repeat match goal with
      | H : ?g |- ?g => exact H
      | |- preserves _ (local _ _) => apply outside_local
      | |- preserves _ (stays _ _) => apply outside_stays
      | |- preserves _ (alone _ _ _) => apply outside_alone
      | |- preserves _ (on_session _) => apply outside_session
      | |- preserves _ (_ ≫= _) => apply preserves_bind; [|intros; auto with preserves]
      end.
Qed.

Lemma outside_handle_with depth fuel tokens : keeps (handle_with x queries bridge depth fuel tokens).
Proof using Hbridge Hset.
  unfold handle_with, resolve_verb. destruct tokens as [|token operands]; [walk|]. apply preserves_bind; [walk|]. intros verb.
  apply preserves_bind; [walk|]. intros s. cbv zeta. destruct (assoc _ _) as [m|] eqn:Em; [|walk].
  revert Em. generalize (expandSessionAtOperands s (asciiUpperCopy verb :: operands)). intros work Em.
  pose proof (outside_commands depth fuel work) as Hall. revert Em Hall.
  generalize (tclCommands x queries (verbs x queries) bridge depth fuel) as l.
  induction l as [|[n c] l IH]; cbn [assoc]; [done|]. intros Em [H1 H2]%Forall_cons.
  destruct (String.eqb _ _); [by injection Em as <-|by apply IH].
Qed.
End bridge.

(** ** Lines *)

Section lines.
Context (Hset : sysprog_has_password (host x)).
#[local] Set Default Proof Using "Hset".

Lemma outside_command depth fuel : ∀ tokens, keeps (handleTclCommand x queries depth fuel tokens).
Proof.
  induction depth as [|depth IH]; intros tokens; cbn [handleTclCommand]; [walk|]. apply outside_handle_with; [|done].
  intros line. unfold executeProcTclCommand, resolve_verb. walk.
Qed.

Lemma outside_line depth fuel line : keeps (handleLine x queries depth fuel line).
Proof.
  assert (Hd : ∀ tokens, keeps (dispatch x queries depth fuel tokens)).
  { intros tokens. unfold dispatch, asm_handle. pose proof (keeps_asm x fuel). pose proof (outside_command depth fuel).
    pose proof (basic_keeps_handle outsider (basic_host x depth fuel) tokens). walk. by apply outside_basic. }
  unfold handleLine. walk.
Qed.

Lemma outside_repl depth fuel rounds : keeps (repl x queries rounds depth fuel).
Proof.
  pose proof (outside_line depth fuel). induction rounds as [|rounds IH]; cbn [repl]; unfold readPromptedInputLine; walk.
Qed.

Lemma outside_shell depth fuel : keeps (runTclRepl x queries depth fuel).
Proof. pose proof (outside_repl depth fuel). unfold runTclRepl. walk. Qed.
End lines.
End shell.

(** C1. Where the accounts called SYSPROG have a password, who does not know it has no power over the daemon.  Take any session that is not in the account SYSPROG,
    any lines typed to it none of which is that account's password, and the whole shell: the commands of TCL, LOGTO and
    LOGOFF, PROC scripts with the TCL lines they run, BASIC mode, programs and CHAIN, the debuggers, the editors.  Whatever
    is typed, in whatever mode, and however it ends, the state of the daemon is as it was: no session is
    killed, no shutdown is requested.  (Without a password LOGTO asks for none: [shipped_catalogue_is_open].) *)
Theorem strangers_cannot_administer {E} (x : ShellHost) (queries : ShellAdminQueries E) (depth fuel : nat) (t : Shell E) :
  sysprog_has_password (login_host x) →
  sessionAccount (ident (sess t)) ≠ "SYSPROG" →
  only (not_the_password (login_host x)) (stdin t) →
  ext (runTclRepl x queries depth fuel t).2 = ext t.
Proof. intros Hset Ha Hi. by apply (outside_shell x queries (ext t) Hset depth fuel t). Qed.

(** ** Examples

    The rest of the daemon is whether somebody has used its commands. *)
Definition ex_queries : ShellAdminQueries bool :=
  mkQueries bool None None (Some (λ _, modify (λ _, true);; mret None)) (Some (modify (λ _, true))).

Definition ex_terminal (typed : list string) : Shell bool :=
  mkShell (ex_session 1 "A" (str_join NL typed) (ex_files "F")) false (false, mkProgram None []) ∅ None false 0 false [] false.

Definition ex_attempts : list string :=
  ["SHUTDOWN"; "KILLSESSION 2"; "SYSTEM SHUTDOWN"; "CREATE-FILE PROC"; "WRITE PROC P " +:+ quote "TCL SHUTDOWN"; "PROC P";
   "LOGTO sysprog"; "Secret"; "ASM"; "SHUTDOWN"; "QUIT"; "BASIC T"; "SHUTDOWN"; "QUIT"; "SHUTDOWN"].

Lemma ex_sysprog acct : sysprog_row ex_login_host acct → passwordHash acct = Some "secret".
Proof.
  intros (catalog & accounts & Hl & Hin & Hn). unfold loadAccounts in Hl. cbn in Hl. destruct (String.eqb _ "/g/ACCOUNTS.json"); [|done].
  vm_compute in Hl. injection Hl as <-. by repeat (apply elem_of_cons in Hin as [->|Hin]; [done|]); apply elem_of_nil in Hin.
Qed.

Lemma ex_has_password : sysprog_has_password ex_login_host.
Proof. intros acct H%ex_sysprog. by exists "secret". Qed.

Lemma ex_not_secret line : trimTrailingAsciiWs line ≠ "secret" → not_the_password ex_login_host line.
Proof. intros Hn acct H%ex_sysprog. rewrite H. intros [= E]. by apply Hn. Qed.

Lemma strangers_cannot_administer_witness : ext (runTclRepl ex_shell_host ex_queries 4 200 (ex_terminal ex_attempts)).2 = false.
Proof.
  apply (strangers_cannot_administer ex_shell_host ex_queries 4 200 (ex_terminal ex_attempts) ex_has_password); [done|].
  unfold only. vm_compute getlines. repeat constructor; by apply ex_not_secret.
Defined.

(** What is shown of it; and with the password the commands do reach the daemon. *)
Example attempts_refused :
  drop 2 (getlines NL (stdout (runTclRepl ex_shell_host ex_queries 4 200 (ex_terminal ex_attempts)).2)) =
  ["TCL> SHUTDOWN requires SYSPROG"; "TCL> KILLSESSION requires SYSPROG"; "TCL> SHUTDOWN requires SYSPROG";
   "TCL> TCL> TCL> SHUTDOWN requires SYSPROG"; "TCL> Login failed."; "TCL> ASM> Unknown command: SHUTDOWN";
   "ASM> TCL> BASIC> Unknown command: SHUTDOWN"; "BASIC> TCL> SHUTDOWN requires SYSPROG"; "TCL> "].
Proof. vm_compute. reflexivity. Qed.

Example sysprog_may : ext (runTclRepl ex_shell_host ex_queries 4 200 (ex_terminal ["LOGTO sysprog"; "secret"; "SHUTDOWN"])).2 = true.
Proof. vm_compute. reflexivity. Qed.

(** The condition is not met by the catalogue in the repository (gemini/ACCOUNTS.json): its SYSPROG has no password, so that LOGTO asks for none. *)
Definition shipped_accounts : json :=
  JObject [("accounts", JArray [JObject [("name", JString "SYSPROG"); ("root", JString "accounts/SYSPROG")]])].

Definition shipped_host : ShellHost :=
  mkShellHost
    (mkLoginHost (λ p, if String.eqb p "/g/ACCOUNTS.json" then Some shipped_accounts else None) (λ _, Ok true)
      (λ p, bool_decide (p ∈ ["/g/accounts/SYSPROG"; "/g/accounts/SYSPROG/VOC"])) (λ _, None) ex_host)
    (λ _, 0) emptyRegistry clear_boot_log ex_platform "1.0" "today" Some.

Example shipped_catalogue_is_open : ext (runTclRepl shipped_host ex_queries 4 200 (ex_terminal ["LOGTO SYSPROG"; "SHUTDOWN"])).2 = true.
Proof. vm_compute. reflexivity. Qed.
