(* ===== verification/Config.v ===== *)
(** * Configuration

    Where the daemon's and the console's settings come from: the command line, the
    environment, a file of [key=value] lines, and defaults ([DaemonConfig.cpp], [ConsoleConfig.cpp],
    [HostBootstrap.cpp]).  The theorem is the order of precedence that the daemon documents. *)

From Stdlib Require Import Ascii String.
From S2P Require Import Prelude CLib Words Login Help.
From stdpp Require Import options.
Local Open Scope Z_scope.

(** ** The host

    [current_path] may throw.  [contents]: the text of a file, [None] when it cannot be opened. *)
Record ConfigHost := mkConfigHost {
  c_getenv : string → option string;
  current_path : outcome string;
  c_is_directory : string → bool;
  contents : string → option string
}.

(** ** Settings *)

(* src/core/host/HostBootstrap.h:12-16 [DefaultHostPaths] *)
Record DefaultHostPaths := mkPaths { pickFilesystemRoot : option string; geminiCatalogRoot : option string; geminiModulesRoot : option string }.

(* src/core/daemon/DaemonConfig.h:16-22 [DaemonConfig] *)
Record DaemonConfig := mkConfig { c_socketPath : string; maxSessions : Z; hostPaths : DefaultHostPaths }.

(* src/core/daemon/DaemonConfig.h:24-28 [DaemonConfigResolution] *)
Record DaemonConfigResolution := mkResolution { config : DaemonConfig; showHelp : bool; error : option string }.

Definition set_pick (v : string) (p : DefaultHostPaths) : DefaultHostPaths := mkPaths (Some v) (geminiCatalogRoot p) (geminiModulesRoot p).
Definition set_catalog (v : string) (p : DefaultHostPaths) : DefaultHostPaths := mkPaths (pickFilesystemRoot p) (Some v) (geminiModulesRoot p).
Definition set_modules (v : string) (p : DefaultHostPaths) : DefaultHostPaths := mkPaths (pickFilesystemRoot p) (geminiCatalogRoot p) (Some v).

Definition set_socket (v : string) (c : DaemonConfig) : DaemonConfig := mkConfig v (maxSessions c) (hostPaths c).
Definition set_max (n : Z) (c : DaemonConfig) : DaemonConfig := mkConfig (c_socketPath c) n (hostPaths c).
Definition on_paths (f : DefaultHostPaths → DefaultHostPaths) (c : DaemonConfig) : DaemonConfig :=
  mkConfig (c_socketPath c) (maxSessions c) (f (hostPaths c)).

(** ** Numbers *)

(** What a C string of that text is: up to the first NUL. *)
Definition c_str (s : string) : string := match getlines (ascii_of_nat 0) s with l :: _ => l | [] => "" end.

(** Overflow gives the largest [unsigned long], and the number after a minus sign is negated modulo 2^64. *)
Definition strtoul (s : string) : option (Z * string) :=
  match strtol s with
  | Some (n, rest) => Some (if ULLONG_MAX <? Z.abs n then ULLONG_MAX else wrap64 n, rest)
  | None => None
  end.

(* src/core/daemon/DaemonConfig.cpp:22-32 [parsePositiveSize] *)
Definition parsePositiveSize (text : string) : option Z :=
  match strtoul (c_str text) with
  | Some (value, "") => if value <? 1 then None else Some value
  | _ => None
  end.

(* src/core/daemon/ConsoleConfig.cpp:12-22 [parsePort] *)
Definition parsePort (text : string) : option Z :=
  match strtoul (c_str text) with
  | Some (value, "") => Some (wrap32 value)
  | _ => None
  end.

Section config.
Context (host : ConfigHost).

(** An environment variable that is set and not empty. *)
Definition env (name : string) : option string :=
  match c_getenv host name with Some v => if str_empty v then None else Some v | None => None end.

(** ** Defaults *)

(** [marker]: the current directory is that of the sources. *)
(* src/core/host/HostBootstrap.cpp:7-28 [resolveModulesRoot] *)
Definition resolveModulesRoot (out : DefaultHostPaths) : outcome DefaultHostPaths :=
  match env "GEMINI_MODULES_PATH" with
  | Some v => Ok (set_modules v out)
  | None =>
      match geminiCatalogRoot out with
      | Some cat => Ok (set_modules (path_join cat "modules") out)
      | None =>
          cwd ← current_path host;
          Ok (if c_is_directory host (path_join cwd "gemini/accounts/SYSPROG/VOC") then set_modules (path_join cwd "gemini/modules") out else out)
      end
  end.

(* src/core/host/HostBootstrap.cpp:31-57 [resolveDefaultHostPaths] *)
Definition resolveDefaultHostPaths : outcome DefaultHostPaths :=
  match env "GEMINI_FILESYSTEM_ROOT" with
  | Some v => resolveModulesRoot (mkPaths (Some v) (env "GEMINI_CATALOG_ROOT") None)
  | None =>
      cwd ← current_path host;
      resolveModulesRoot
        (if c_is_directory host (path_join cwd "gemini/accounts/SYSPROG/VOC")
         then mkPaths (Some (path_join cwd "gemini/accounts/SYSPROG")) (Some (path_join cwd "gemini")) None
         else mkPaths None None None)
  end.

(* src/core/daemon/DaemonConfig.cpp:134-141 [defaultDaemonSocketPath] *)
Definition defaultDaemonSocketPath : string :=
  match env "XDG_RUNTIME_DIR" with Some dir => path_join dir "gemini.sock" | None => "/tmp/gemini.sock" end.

(* src/core/daemon/DaemonConfig.cpp:143-148 [DaemonConfig::embedded] *)
Definition embedded : outcome DaemonConfig := paths ← resolveDefaultHostPaths; Ok (mkConfig "" 1 paths).

(** ** The environment *)

Definition override {A} (v : option string) (f : string → A → A) (a : A) : A := match v with Some v => f v a | None => a end.

(* src/core/daemon/DaemonConfig.cpp:41-57 [applyHostPathEnvOverrides] *)
Definition applyHostPathEnvOverrides (p : DefaultHostPaths) : DefaultHostPaths :=
  override (env "GEMINI_MODULES_PATH") set_modules
    (override (env "GEMINI_CATALOG_ROOT") set_catalog (override (env "GEMINI_FILESYSTEM_ROOT") set_pick p)).

Definition set_max_text (v : string) (c : DaemonConfig) : DaemonConfig :=
  match parsePositiveSize v with Some n => set_max n c | None => c end.

(* src/core/daemon/DaemonConfig.cpp:59-69 [applyEnvOverrides] *)
Definition applyEnvOverrides (c : DaemonConfig) : DaemonConfig :=
  override (env "GEMINI_DAEMON_SOCKET") set_socket
    (override (c_getenv host "GEMINI_MAX_SESSIONS") set_max_text (on_paths applyHostPathEnvOverrides c)).

(** ** The file *)

Definition needs_value (key value : string) (c : DaemonConfig) : DaemonConfig + string :=
  if str_empty value then inr ("config key " +:+ dq +:+ key +:+ dq +:+ " requires a non-empty value") else inl c.

(* src/core/daemon/DaemonConfig.cpp:71-109 [applyConfigKey] *)
Definition applyConfigKey (c : DaemonConfig) (key value : string) : DaemonConfig + string :=
  if String.eqb key "socket" then needs_value key value (set_socket value c)
  else if String.eqb key "max_sessions" then
    match parsePositiveSize value with
    | Some n => inl (set_max n c)
    | None => inr ("config key " +:+ dq +:+ "max_sessions" +:+ dq +:+ " requires a positive integer")
    end
  else if String.eqb key "pick_root" then needs_value key value (on_paths (set_pick value) c)
  else if String.eqb key "catalog_root" then needs_value key value (on_paths (set_catalog value) c)
  else if String.eqb key "modules_root" then needs_value key value (on_paths (set_modules value) c)
  else inr ("unknown config key " +:+ dq +:+ key +:+ dq).

(** [None]: nothing but a comment. *)
Definition config_line (line : string) : option string :=
  let l := trim_by isspace (match str_split_at "#" line with Some (before, _) => before | None => line end) in
  if str_empty l then None else Some l.

(** The lines from number [n] on; on an error the settings so far stay. *)
(* src/core/daemon/DaemonConfig.cpp:156-185 [loadDaemonConfigFile] *)
Fixpoint config_lines (n : Z) (lines : list string) (c : DaemonConfig) : DaemonConfig * option (Z * string) :=
  match lines with
  | [] => (c, None)
  | line :: lines' =>
      match config_line line with
      | None => config_lines (n + 1) lines' c
      | Some l =>
          match str_split_at "=" l with
          | None => (c, Some (n, "expected key=value"))
          | Some (k, v) =>
              let key := trim_by isspace k in
              if str_empty key then (c, Some (n, "empty key"))
              else match applyConfigKey c key (trim_by isspace v) with
                   | inl c' => config_lines (n + 1) lines' c'
                   | inr e => (c, Some (n, e))
                   end
          end
      end
  end.

(* src/core/daemon/DaemonConfig.cpp:150-186 [loadDaemonConfigFile] *)
Definition loadDaemonConfigFile (path : string) (c : DaemonConfig) : DaemonConfig * option string :=
  match contents host path with
  | None => (c, Some ("cannot open config file " +:+ dq +:+ path +:+ dq))
  | Some text =>
      let '(c', e) := config_lines 1 (getlines NL text) c in
      (c', (λ '(n, m), "config file " +:+ dq +:+ path +:+ dq +:+ " line " +:+ to_string n +:+ ": " +:+ m) <$> e)
  end.

(** ** The command line *)

Inductive config_scan := ScanHelp | ScanError | ScanFile (path : option string).

Definition value_option (arg : string) : bool :=
  bool_decide (arg ∈ ["--socket"; "--max-sessions"; "--pick-root"; "--catalog-root"; "--modules-root"]).

(** The first pass looks for [--help] and [--config]. *)
(* src/core/daemon/DaemonConfig.cpp:194-215 [resolveDaemonConfig] *)
Fixpoint scan_args (args : list string) (path : option string) : config_scan :=
  match args with
  | [] => ScanFile path
  | arg :: rest =>
      if String.eqb arg "--help" || String.eqb arg "-h" then ScanHelp
      else if String.eqb arg "--config" then
        match rest with [] => ScanError | v :: rest' => scan_args rest' (Some v) end
      else if value_option arg then
        match rest with [] => ScanFile path | _ :: rest' => scan_args rest' path end
      else scan_args rest path
  end.

Definition apply_option (arg v : string) (c : DaemonConfig) : DaemonConfig :=
  if String.eqb arg "--socket" then set_socket v c
  else if String.eqb arg "--max-sessions" then set_max_text v c
  else if String.eqb arg "--pick-root" then on_paths (set_pick v) c
  else if String.eqb arg "--catalog-root" then on_paths (set_catalog v) c
  else if String.eqb arg "--modules-root" then on_paths (set_modules v) c
  else c.

(** The second pass takes the settings. *)
(* src/core/daemon/DaemonConfig.cpp:235-263 [resolveDaemonConfig] *)
Fixpoint apply_args (args : list string) (c : DaemonConfig) : DaemonConfig :=
  match args with
  | arg :: ((v :: rest') as rest) =>
      if String.eqb arg "--config" || value_option arg then apply_args rest' (apply_option arg v c) else apply_args rest c
  | _ => c
  end.

(** [args]: after the program's name. *)
(* src/core/daemon/DaemonConfig.cpp:188-269 [resolveDaemonConfig] *)
Definition resolveDaemonConfig (args : list string) : outcome DaemonConfigResolution :=
  paths ← resolveDefaultHostPaths;
  let c := mkConfig defaultDaemonSocketPath 64 paths in
  match scan_args args None with
  | ScanHelp => Ok (mkResolution c true None)
  | ScanError => Ok (mkResolution c false (Some "--config requires a path argument"))
  | ScanFile cli =>
      let '(c, e) := match (match cli with Some p => Some p | None => env "GEMINI_DAEMON_CONFIG" end) with
                     | Some path => loadDaemonConfigFile path c
                     | None => (c, None)
                     end in
      match e with
      | Some m => Ok (mkResolution c false (Some m))
      | None =>
          let c := apply_args args (applyEnvOverrides c) in
          Ok (mkResolution (if maxSessions c <? 1 then set_max 1 c else c) false None)
      end
  end.

(* src/core/daemon/DaemonConfig.cpp:112-132 [printDaemonUsage] *)
Definition printDaemonUsage (name : string) : string := text_of
  ["Usage: " +:+ name +:+ " [options]"; "Options:";
   "  --config PATH           Load key=value settings from a config file";
   "  --socket PATH           Unix domain socket path";
   "  --max-sessions N        Maximum concurrent session objects";
   "  --pick-root PATH        Pick account filesystem root";
   "  --catalog-root PATH     Gemini catalogue root";
   "  --modules-root PATH     Language modules directory";
   "  --help                  Show this help"; "Environment:";
   "  GEMINI_DAEMON_CONFIG    Config file path (overridden by --config)";
   "  GEMINI_DAEMON_SOCKET    Default socket path";
   "  GEMINI_MAX_SESSIONS     Default session limit";
   "  GEMINI_FILESYSTEM_ROOT  Pick account root";
   "  GEMINI_CATALOG_ROOT     Catalogue root";
   "  GEMINI_MODULES_PATH     Modules directory";
   "Config file keys: socket, max_sessions, pick_root, catalog_root, modules_root";
   "Precedence: CLI > environment > config file > defaults"].

(** ** The console *)

(* src/core/daemon/ConsoleConfig.cpp:25-34 [printConsoleUsage] *)
Definition printConsoleUsage (name : string) : string := text_of
  ["Usage: " +:+ name +:+ " [options]"; "Options:";
   "  --socket PATH     Daemon Unix domain socket path";
   "  --port N          Attach to existing session port (omit to create)";
   "  --help            Show this help"; "Environment:";
   "  GEMINI_DAEMON_SOCKET   Default socket path"].

(* src/core/daemon/ConsoleConfig.h:13-16 [ConsoleConfig] *)
Record ConsoleConfig := mkConsoleConfig { cc_socketPath : string; requestedPort : Z }.

(* src/core/daemon/ConsoleConfig.cpp:46-62 [resolveConsoleConfig] *)
Fixpoint console_args (args : list string) (c : ConsoleConfig) : ConsoleConfig * bool :=
  match args with
  | [] => (c, false)
  | arg :: rest =>
      if String.eqb arg "--help" || String.eqb arg "-h" then (c, true)
      else match rest with
           | [] => (c, false)
           | v :: rest' =>
               if String.eqb arg "--socket" then console_args rest' (mkConsoleConfig v (requestedPort c))
               else if String.eqb arg "--port" then
                 console_args rest' (match parsePort v with Some p => mkConsoleConfig (cc_socketPath c) p | None => c end)
               else console_args rest c
           end
  end.

(** True: the help is to be shown. *)
(* src/core/daemon/ConsoleConfig.cpp:36-65 [resolveConsoleConfig] *)
Definition resolveConsoleConfig (args : list string) : ConsoleConfig * bool :=
  console_args args (mkConsoleConfig (default defaultDaemonSocketPath (env "GEMINI_DAEMON_SOCKET")) 0).
End config.

(** ** Precedence

    The settings, by their names on the command line, in the environment and in the file. *)
Inductive Setting := Socket | MaxSessions | PickRoot | CatalogRoot | ModulesRoot.

#[global] Instance Setting_eq_dec : EqDecision Setting.
Proof. solve_decision. Defined.

Definition option_setting (arg : string) : option Setting :=
  if String.eqb arg "--socket" then Some Socket
  else if String.eqb arg "--max-sessions" then Some MaxSessions
  else if String.eqb arg "--pick-root" then Some PickRoot
  else if String.eqb arg "--catalog-root" then Some CatalogRoot
  else if String.eqb arg "--modules-root" then Some ModulesRoot
  else None.

Definition key_setting (key : string) : option Setting :=
  if String.eqb key "socket" then Some Socket
  else if String.eqb key "max_sessions" then Some MaxSessions
  else if String.eqb key "pick_root" then Some PickRoot
  else if String.eqb key "catalog_root" then Some CatalogRoot
  else if String.eqb key "modules_root" then Some ModulesRoot
  else None.

Definition env_name (s : Setting) : string :=
  match s with
  | Socket => "GEMINI_DAEMON_SOCKET" | MaxSessions => "GEMINI_MAX_SESSIONS" | PickRoot => "GEMINI_FILESYSTEM_ROOT"
  | CatalogRoot => "GEMINI_CATALOG_ROOT" | ModulesRoot => "GEMINI_MODULES_PATH"
  end.

(** The options of a command line with their values, [--config] too. *)
Fixpoint options_of (args : list string) : list (string * string) :=
  match args with
  | arg :: ((v :: rest') as rest) =>
      if String.eqb arg "--config" || value_option arg then (arg, v) :: options_of rest' else options_of rest
  | _ => []
  end.

(** The keys of a file with their values. *)
Definition key_value (line : string) : option (string * string) :=
  l ← config_line line; p ← str_split_at "=" l; Some (trim_by isspace p.1, trim_by isspace p.2).

Definition named {A} (name : A → option Setting) (s : Setting) (l : list (A * string)) : list string :=
  omap (λ p, if decide (name p.1 = Some s) then Some p.2 else None) l.

(** What can be a value: any text, but for a number of sessions. *)
Definition accepts (s : Setting) (v : string) : Prop := s = MaxSessions → is_Some (parsePositiveSize v).

#[global] Instance accepts_dec s v : Decision (accepts s v).
Proof. unfold accepts. apply _. Defined.

Definition has_value (s : Setting) (v : string) (c : DaemonConfig) : Prop :=
  match s with
  | Socket => c_socketPath c = v
  | MaxSessions => parsePositiveSize v = Some (maxSessions c)
  | PickRoot => pickFilesystemRoot (hostPaths c) = Some v
  | CatalogRoot => geminiCatalogRoot (hostPaths c) = Some v
  | ModulesRoot => geminiModulesRoot (hostPaths c) = Some v
  end.

Definition same_value (s : Setting) (c d : DaemonConfig) : Prop :=
  match s with
  | Socket => c_socketPath c = c_socketPath d
  | MaxSessions => maxSessions c = maxSessions d
  | PickRoot => pickFilesystemRoot (hostPaths c) = pickFilesystemRoot (hostPaths d)
  | CatalogRoot => geminiCatalogRoot (hostPaths c) = geminiCatalogRoot (hostPaths d)
  | ModulesRoot => geminiModulesRoot (hostPaths c) = geminiModulesRoot (hostPaths d)
  end.

(** The value that counts is the last one that is acceptable; else the default. *)
Definition settled (s : Setting) (given : list string) (d c : DaemonConfig) : Prop :=
  match last (filter (accepts s) given) with Some v => has_value s v c | None => same_value s c d end.

(** *** Proof *)

Definition give (c : DaemonConfig) (p : Setting * string) : DaemonConfig :=
  match p.1 with
  | Socket => set_socket p.2 c
  | MaxSessions => set_max_text p.2 c
  | PickRoot => on_paths (set_pick p.2) c
  | CatalogRoot => on_paths (set_catalog p.2) c
  | ModulesRoot => on_paths (set_modules p.2) c
  end.

Definition of_setting (s : Setting) (l : list (Setting * string)) : list string := named Some s l.

Lemma of_setting_app s l1 l2 : of_setting s (l1 ++ l2) = of_setting s l1 ++ of_setting s l2.
Proof. unfold of_setting, named. by rewrite omap_app. Qed.

Lemma give_settled d l : ∀ s, settled s (of_setting s l) d (foldl give d l).
Proof.
  induction l as [|[s' v] l IH] using rev_ind; intros s; [by destruct s|].
  specialize (IH s). rewrite foldl_app, of_setting_app. cbn [foldl]. revert IH. generalize (foldl give d l). intros c IH.
  unfold settled in *. rewrite filter_app. unfold of_setting at 2, named. cbn [omap list_omap fst snd].
  destruct (decide (Some s' = Some s)) as [[= ->]|Hne].
  - destruct (decide (accepts s v)) as [Ha|Ha].
    + rewrite filter_cons_True, filter_nil, last_snoc by done. destruct s; try done. cbn. unfold set_max_text.
      destruct (Ha eq_refl) as [n E]. by rewrite E.
    + rewrite filter_cons_False, filter_nil, app_nil_r by done. destruct s; try (by destruct Ha). unfold give, set_max_text. cbn.
      destruct (parsePositiveSize v) eqn:E; [destruct Ha; intros _; by rewrite E|done].
  - rewrite filter_nil, app_nil_r. destruct (last _), s, s'; try done; cbn; unfold set_max_text; by destruct (parsePositiveSize v).
Qed.

(** The command line. *)
Definition cli (args : list string) : list (Setting * string) := omap (λ p, s ← option_setting p.1; Some (s, p.2)) (options_of args).

Lemma value_option_spec arg : value_option arg = bool_decide (is_Some (option_setting arg)).
Proof.
  unfold value_option. apply bool_decide_ext. rewrite !elem_of_cons, elem_of_nil. unfold option_setting.
  repeat (match goal with |- context [String.eqb ?a ?b] => destruct (String.eqb_spec a b) as [->|?] end;
    [split; intros _; [by eexists|auto 8]|]).
  split; [naive_solver|by intros [? [=]]].
Qed.

Lemma apply_option_give arg v c : apply_option arg v c = match option_setting arg with Some s => give c (s, v) | None => c end.
Proof. unfold apply_option, option_setting. by repeat destruct (String.eqb _ _). Qed.

(** Two arguments at a time. *)
Lemma args_ind (P : list string → Prop) : P [] → (∀ a, P [a]) → (∀ a v l, P l → P (v :: l) → P (a :: v :: l)) → ∀ l, P l.
Proof.
  intros H0 H1 H2 l. enough (P l ∧ ∀ a, P (a :: l)) by tauto. induction l as [|v l [IH1 IH2]]; [done|]. split; [done|]. intros a. by apply H2.
Qed.

Lemma apply_args_give args : ∀ c, apply_args args c = foldl give c (cli args).
Proof.
  unfold cli. induction args as [|a|a v l IH1 IH2] using args_ind; [done..|]. intros c. cbn [apply_args options_of].
  destruct (String.eqb a "--config" || value_option a) eqn:E; [|apply IH2]. cbn [omap list_omap fst snd]. rewrite IH1, apply_option_give.
  by destruct (option_setting a).
Qed.

Lemma cli_named s args : of_setting s (cli args) = named option_setting s (options_of args).
Proof.
  unfold cli, of_setting, named. induction (options_of args) as [|[a v] l IH]; [done|]. cbn. destruct (option_setting a) as [s'|] eqn:E; cbn.
  - rewrite <- IH. by destruct (decide (Some s' = Some s)).
  - by rewrite IH.
Qed.

(** The first pass sees the same options. *)
Definition config_of (args : list string) : option string :=
  last (omap (λ p : string * string, if String.eqb p.1 "--config" then Some p.2 else None) (options_of args)).

Lemma last_app_default {A} (l : list A) a o : match last l with Some x => Some x | None => Some a end = o → last (a :: l) = o.
Proof. intros <-. destruct l as [|b l]; [done|]. cbn [last]. destruct (last (b :: l)) eqn:E; [done|]. by apply last_None in E. Qed.

Lemma scan_config args : ∀ p q, scan_args args p = ScanFile q → q = match config_of args with Some x => Some x | None => p end.
Proof.
  unfold config_of. induction args as [|a|a v l IH1 IH2] using args_ind; intros p q; cbn [scan_args options_of].
  - by intros [= ->].
  - destruct (_ || _); [done|]. destruct (String.eqb a "--config"); [done|]. by destruct (value_option a); intros [= ->].
  - destruct (_ || _); [done|]. destruct (String.eqb a "--config") eqn:E; cbn [orb].
    + intros ->%IH1. cbn [omap list_omap fst snd]. rewrite E. by erewrite last_app_default; [|done]; destruct (last _).
    + destruct (value_option a) eqn:Ev; [|apply IH2]. intros ->%IH1. cbn [omap list_omap fst snd]. by rewrite E.
Qed.

(** The file. *)
Definition file_pairs (lines : list string) : list (Setting * string) := omap (λ p, s ← key_setting p.1; Some (s, p.2)) (omap key_value lines).

Lemma applyConfigKey_give c k v c' : applyConfigKey c k v = inl c' → ∃ s, key_setting k = Some s ∧ c' = give c (s, v).
Proof.
  unfold applyConfigKey, key_setting, needs_value, give, set_max_text.
  repeat (match goal with |- context [String.eqb k ?b] => destruct (String.eqb k b) end;
    [intros H; eexists; split; [reflexivity|]; cbn; repeat case_match; by simplify_eq|]).
  done.
Qed.

Lemma config_lines_give lines : ∀ n c c', config_lines n lines c = (c', None) → c' = foldl give c (file_pairs lines).
Proof.
  unfold file_pairs. induction lines as [|line lines IH]; intros n c c'; cbn [config_lines]; [by intros [= <-]|].
  unfold omap at 2. cbn [omap list_omap]. unfold key_value at 1. destruct (config_line line) as [l|]; [|apply IH].
  cbn [mbind option_bind]. destruct (str_split_at "=" l) as [[k v]|]; [|done]. cbn [mbind option_bind fst snd].
  destruct (str_empty _); [done|]. destruct (applyConfigKey _ _ _) as [c1|] eqn:E; [|done].
  apply applyConfigKey_give in E as (s & Es & ->). intros ->%IH. cbn [omap list_omap fst snd]. by rewrite Es.
Qed.

Lemma file_named s lines : of_setting s (file_pairs lines) = named key_setting s (omap key_value lines).
Proof.
  unfold file_pairs, of_setting, named. induction (omap key_value lines) as [|[k v] l IH]; [done|]. cbn. destruct (key_setting k) as [s'|]; cbn.
  - rewrite <- IH. by destruct (decide (Some s' = Some s)).
  - by rewrite IH.
Qed.

(** The environment. *)
Definition env_pairs (host : ConfigHost) : list (Setting * string) :=
  omap (λ s, v ← env host (env_name s); Some (s, v)) [PickRoot; CatalogRoot; ModulesRoot; MaxSessions; Socket].

Lemma applyEnv_give host c : applyEnvOverrides host c = foldl give c (env_pairs host).
Proof.
  unfold applyEnvOverrides, applyHostPathEnvOverrides, env_pairs, override. cbn [omap list_omap env_name].
  assert (c_getenv host "GEMINI_MAX_SESSIONS" = Some "" ∨ c_getenv host "GEMINI_MAX_SESSIONS" = env host "GEMINI_MAX_SESSIONS") as Hmax.
  { unfold env. destruct (c_getenv host "GEMINI_MAX_SESSIONS") as [[|]|]; cbn; auto. }
  assert (env host "GEMINI_MAX_SESSIONS" = None ∨ c_getenv host "GEMINI_MAX_SESSIONS" ≠ Some "") as Hnone.
  { unfold env. destruct (c_getenv host "GEMINI_MAX_SESSIONS") as [[|]|]; cbn; auto. }
  destruct c as [so mx [pk ct md]].
  destruct Hmax as [E|E]; [destruct Hnone as [->|]; [|done]|]; rewrite E; try (change (set_max_text "" ?c) with c);
    repeat match goal with |- context [env host ?n] => destruct (env host n) end; done.
Qed.

Lemma env_named host s : of_setting s (env_pairs host) = option_list (env host (env_name s)).
Proof.
  unfold env_pairs, of_setting, named. cbn [omap list_omap env_name].
  destruct s; cbn [env_name]; repeat match goal with |- context [env host ?n] => destruct (env host n) end; done.
Qed.

(** *** The theorem *)

(** The file that is read. *)
Definition config_file (host : ConfigHost) (args : list string) : option string :=
  match config_of args with Some p => Some p | None => env host "GEMINI_DAEMON_CONFIG" end.

Definition file_lines (host : ConfigHost) (args : list string) : list string :=
  match config_file host args ≫= contents host with Some text => getlines NL text | None => [] end.

(** The values given to a setting, those that count most last. *)
Definition given (host : ConfigHost) (args : list string) (s : Setting) : list string :=
  named key_setting s (omap key_value (file_lines host args)) ++
  option_list (env host (env_name s)) ++
  named option_setting s (options_of args).

Lemma loaded_file host path d c : loadDaemonConfigFile host path d = (c, None) →
  ∃ text, contents host path = Some text ∧ c = foldl give d (file_pairs (getlines NL text)).
Proof.
  unfold loadDaemonConfigFile. destruct (contents host path) as [text|]; [|done]. destruct (config_lines 1 _ d) as [c' [[n m]|]] eqn:E; [done|].
  intros [= <-]. exists text. split; [done|]. by eapply config_lines_give.
Qed.

Lemma resolved_gives host args r : resolveDaemonConfig host args = Ok r → showHelp r = false → error r = None →
  ∃ paths, resolveDefaultHostPaths host = Ok paths ∧
    let c := foldl give (mkConfig (defaultDaemonSocketPath host) 64 paths) (file_pairs (file_lines host args) ++ env_pairs host ++ cli args) in
    config r = if maxSessions c <? 1 then set_max 1 c else c.
Proof.
  unfold resolveDaemonConfig. destruct (resolveDefaultHostPaths host) as [paths|e|w]; [|done..]. cbn [mbind outcome_bind].
  destruct (scan_args args None) as [| |q] eqn:Es; [by intros [= <-]|by intros [= <-]|]. apply scan_config in Es.
  assert (Eq : (match q with Some p => Some p | None => env host "GEMINI_DAEMON_CONFIG" end) = config_file host args).
  { unfold config_file. rewrite Es. by destruct (config_of args). }
  rewrite Eq. unfold file_lines. set (d := mkConfig _ _ _). intros H Hh He. exists paths. split; [done|]. cbv zeta. rewrite !foldl_app.
  rewrite <- applyEnv_give, <- apply_args_give. destruct (config_file host args) as [path|]; [|by injection H as <-].
  destruct (loadDaemonConfigFile host path d) as [c [m|]] eqn:El; [by injection H as <-|]. injection H as <-.
  apply loaded_file in El as (text & Et & ->). cbn [mbind option_bind]. by rewrite Et.
Qed.

Lemma give_max_bound l : ∀ c, 1 <= maxSessions c <= ULLONG_MAX → 1 <= maxSessions (foldl give c l) <= ULLONG_MAX.
Proof.
  induction l as [|[s v] l IH]; intros c Hc; [done|]. apply IH. destruct s; try done. unfold give, set_max_text. cbn [fst snd].
  destruct (parsePositiveSize v) as [n|] eqn:E; [|done]. revert E. unfold parsePositiveSize, strtoul, wrap64, ULLONG_MAX.
  destruct (strtol _) as [[m rest]|]; [|done]. destruct rest; [|done]. destruct (18446744073709551615 <? Z.abs m).
  - cbn. by intros [= <-].
  - pose proof (Z.mod_pos_bound m (2 ^ 64)). destruct (_ <? 1) eqn:E1; [done|]. intros [= <-]. cbn. lia.
Qed.

(** C33. The daemon's documented order of precedence holds.  When [resolveDaemonConfig] neither fails nor is asked for help, the
    value of each of the five settings is the last acceptable one among those of the configuration file, the
    environment variable if it is not empty, and the command line, so that the command line wins over the environment and the
    environment over the file; with none of them it is the default.  Both passes over the command line agree on what is
    an option and what is its value; the file is that of the last [--config], or else of GEMINI_DAEMON_CONFIG.
    The number of sessions is then between 1 and the largest 64-bit number. *)
Theorem config_precedence host args r :
  resolveDaemonConfig host args = Ok r → showHelp r = false → error r = None →
  ∃ paths, resolveDefaultHostPaths host = Ok paths ∧
    (∀ s, settled s (given host args s) (mkConfig (defaultDaemonSocketPath host) 64 paths) (config r)) ∧
    1 <= maxSessions (config r) <= ULLONG_MAX.
Proof.
  intros H Hh He. destruct (resolved_gives _ _ _ H Hh He) as (paths & Ep & Ec). exists paths. split; [done|].
  pose proof (give_max_bound (file_pairs (file_lines host args) ++ env_pairs host ++ cli args)
    (mkConfig (defaultDaemonSocketPath host) 64 paths)) as Hb. cbv zeta in Ec. set (c := foldl give _ _) in *.
  assert (Hc : 1 <= maxSessions c <= ULLONG_MAX) by (apply Hb; cbn; unfold ULLONG_MAX; lia).
  rewrite (proj2 (Z.ltb_ge _ 1)) in Ec by lia. rewrite Ec. split; [|done]. intros s. unfold given.
  rewrite <- file_named, <- env_named, <- cli_named, <- !of_setting_app. apply give_settled.
Qed.

Definition ex_config_host : ConfigHost :=
  mkConfigHost (λ n, if String.eqb n "GEMINI_DAEMON_SOCKET" then Some "/run/env.sock" else if String.eqb n "GEMINI_MAX_SESSIONS" then Some "8" else None)
    (Ok "/home/pick") (λ _, false)
    (λ p, if String.eqb p "/etc/gemini.conf" then Some (text_of ["# Gemini"; "socket = /run/file.sock"; "catalog_root=/srv/gemini # here"; "max_sessions=3"]) else None).

Lemma config_precedence_witness :
  ∃ r, resolveDaemonConfig ex_config_host ["--config"; "/etc/gemini.conf"; "--max-sessions"; "many"; "--socket"; "/tmp/a"; "--socket"; "/tmp/b"] = Ok r ∧
    c_socketPath (config r) = "/tmp/b" ∧ maxSessions (config r) = 8 ∧ geminiCatalogRoot (hostPaths (config r)) = Some "/srv/gemini" ∧
    geminiModulesRoot (hostPaths (config r)) = None.
Proof.
  set (args := ["--config"; _; _; _; _; _; _; _]). destruct (resolveDaemonConfig ex_config_host args) as [r| |] eqn:E; [|by vm_compute in E..].
  destruct (config_precedence ex_config_host args r E) as (paths & Ep & Hs & _); [by vm_compute in E; injection E as <-..|].
  exists r. split; [done|].
  pose proof (Hs Socket) as H1. pose proof (Hs MaxSessions) as H2. pose proof (Hs CatalogRoot) as H3. pose proof (Hs ModulesRoot) as H4.
  vm_compute in Ep. injection Ep as <-. unfold settled in *. vm_compute in H1, H2, H3, H4 |- *. by injection H2 as <-.
Defined.

(** What is not a positive number of sessions on the command line is ignored; a negative number
    counts as a large one. *)
Example negative_sessions : maxSessions <$> (config <$> resolveDaemonConfig ex_config_host ["--max-sessions"; "-1"]) = Ok ULLONG_MAX.
Proof. vm_compute. reflexivity. Qed.

(** A port number is taken modulo 2^32; port 0 asks for a new session. *)
Example large_port : resolveConsoleConfig ex_config_host ["--port"; "4294967296"] = (mkConsoleConfig "/run/env.sock" 0, false).
Proof. vm_compute. reflexivity. Qed.
