(* ===== verification/Client.v ===== *)
(** * The console

    [PickCore::DaemonIpcClient] and the program [gemini-console]: frames of typed input to the daemon,
    frames of output to the terminal.  What [poll], [read] and [write] answer is given: one [fd] for each
    call of [tryReadDaemonIpcFrame], as in Server.v.  A call that waits for something that never comes is
    [Undefined] with the reason "blocked". *)

From Stdlib Require Import Ascii String.
From S2P Require Import Prelude CLib Ipc Channel Server Login Help Config.
From stdpp Require Import options.
Local Open Scope Z_scope.

(** ** The client's state *)

(** Answers of [write]: so many bytes were taken; [EAGAIN]; another error.  None left: [EAGAIN]. *)
Inductive write_answer := WTook (n : nat) | WAgain | WError.

(** Answers of [poll] while a frame is awaited; a time-out, or a signal, is [WaitMore]. *)
Inductive wait_answer := WaitMore | WaitFailed | WaitHangup.

(** The terminal: [STDIN_FILENO], or another stream with so many characters left. *)
Inductive Input := FromFd (f : fd) | FromStream (rest : bytes).

(** [c_out], [c_err]: what was written to the two streams; [c_sent]: to the socket. *)
(* src/core/daemon/DaemonIpcClient.h:53-58 [DaemonIpcClient] *)
Record Client := mkClient {
  fd_ : bool;
  readBuffer_ : bytes;
  pendingWrite_ : bytes;
  attachedPort_ : option Z;
  stopRequested_ : bool;
  c_writes : list write_answer;
  c_waits : list (fd * wait_answer);
  c_input : Input;
  c_sent : bytes;
  c_out : bytes;
  c_err : bytes
}.

Definition set_fd (b : bool) (c : Client) : Client :=
  mkClient b (readBuffer_ c) (pendingWrite_ c) (attachedPort_ c) (stopRequested_ c) (c_writes c) (c_waits c) (c_input c) (c_sent c) (c_out c) (c_err c).
Definition set_read (buf : bytes) (w : list (fd * wait_answer)) (c : Client) : Client :=
  mkClient (fd_ c) buf (pendingWrite_ c) (attachedPort_ c) (stopRequested_ c) (c_writes c) w (c_input c) (c_sent c) (c_out c) (c_err c).
Definition set_pending (p : bytes) (r : list write_answer) (sent : bytes) (c : Client) : Client :=
  mkClient (fd_ c) (readBuffer_ c) p (attachedPort_ c) (stopRequested_ c) r (c_waits c) (c_input c) sent (c_out c) (c_err c).
Definition set_port (p : option Z) (c : Client) : Client :=
  mkClient (fd_ c) (readBuffer_ c) (pendingWrite_ c) p (stopRequested_ c) (c_writes c) (c_waits c) (c_input c) (c_sent c) (c_out c) (c_err c).
Definition set_stop (b : bool) (c : Client) : Client :=
  mkClient (fd_ c) (readBuffer_ c) (pendingWrite_ c) (attachedPort_ c) b (c_writes c) (c_waits c) (c_input c) (c_sent c) (c_out c) (c_err c).
Definition set_input (i : Input) (c : Client) : Client :=
  mkClient (fd_ c) (readBuffer_ c) (pendingWrite_ c) (attachedPort_ c) (stopRequested_ c) (c_writes c) (c_waits c) i (c_sent c) (c_out c) (c_err c).
Definition set_streams (o e : bytes) (c : Client) : Client :=
  mkClient (fd_ c) (readBuffer_ c) (pendingWrite_ c) (attachedPort_ c) (stopRequested_ c) (c_writes c) (c_waits c) (c_input c) (c_sent c) o e.

Definition out_bytes (b : bytes) : proc Client unit := modify (λ c, set_streams (c_out c ++ b) (c_err c) c).
Definition err_bytes (b : bytes) : proc Client unit := modify (λ c, set_streams (c_out c) (c_err c ++ b) c).
Definition err_line (s : string) : proc Client unit := err_bytes (string_bytes ("gemini-console: " +:+ s +:+ String NL "")).

(** [DaemonIpcClientError] *)
Definition client_error {A} (s : string) : proc Client A := throw (RuntimeError s).

(** ** Frames *)

(** Is it all right, what is left, what was taken. *)
Fixpoint flush_writes (results : list write_answer) (b : bytes) : bool * bytes * bytes * list write_answer :=
  match b, results with
  | [], _ => (true, [], [], results)
  | _, [] => (true, b, [], [])
  | _, WAgain :: r => (true, b, [], r)
  | _, WError :: r => (false, b, [], r)
  | _, WTook n :: r => let '(ok, rest, sent, r') := flush_writes r (drop n b) in (ok, rest, take n b ++ sent, r')
  end.

(* src/core/daemon/DaemonIpcClient.cpp:93-106 [DaemonIpcClient::flushPendingWrite] *)
Definition flushPendingWrite : proc Client bool := λ c,
  let '(ok, rest, sent, r) := flush_writes (c_writes c) (pendingWrite_ c) in
  (Ok ok, set_pending rest r (c_sent c ++ sent) c).

(* src/core/daemon/DaemonIpcClient.cpp:81-91 [DaemonIpcClient::sendFrame] *)
Definition sendFrame (fr : DaemonIpcFrame) : proc Client unit :=
  modify (λ c, set_pending (pendingWrite_ c ++ encodeDaemonIpcFrame fr) (c_writes c) (c_sent c) c);;
  ok ← flushPendingWrite;
  if ok : bool then mret tt else client_error "failed to send IPC frame".

(** What is read while waiting, and the poll that follows. *)
Fixpoint recv_loop (waits : list (fd * wait_answer)) (buffer : bytes) : outcome DaemonIpcFrame * bytes * list (fd * wait_answer) :=
  let '(r, buffer', _) := tryReadDaemonIpcFrame (default [RAgain] (head waits.*1)) buffer in
  match status r, frame r with
  | FrameReady, Some fr => (Ok fr, buffer', tail waits)
  | ConnectionClosed, _ | ProtocolError, _ => (Throw (RuntimeError "connection closed while reading IPC frame"), buffer', tail waits)
  | _, _ =>
      match waits with
      | [] => (Undefined "blocked", buffer', [])
      | (_, WaitFailed) :: w => (Throw (RuntimeError "poll failed while waiting for IPC frame"), buffer', w)
      | (_, WaitHangup) :: w => (Throw (RuntimeError "connection closed while waiting for IPC frame"), buffer', w)
      | (_, WaitMore) :: w => recv_loop w buffer'
      end
  end.

(* src/core/daemon/DaemonIpcClient.cpp:108-130 [DaemonIpcClient::recvFrameBlocking] *)
Definition recvFrameBlocking : proc Client DaemonIpcFrame := λ c,
  let '(r, buffer, w) := recv_loop (c_waits c) (readBuffer_ c) in (r, set_read buffer w c).

(** ** Requests *)

(** Frames of the client have the version that a new frame has. *)
Definition client_frame := plain_frame.

(** The message of an ERROR frame. *)
Definition error_text (fr : DaemonIpcFrame) (otherwise : string) : string :=
  match decodeErrorPayload (payload fr) with Some e => message e | None => otherwise end.

(* src/core/daemon/DaemonIpcClient.cpp:132-152 [DaemonIpcClient::handshake] *)
Definition handshake : proc Client unit :=
  c ← get;
  if negb (fd_ c) then client_error "not connected"
  else
    sendFrame (client_frame MessageType.Handshake (encodeHandshakePayload (mkHandshake kDaemonIpcProtocolVersion)));;
    ack ← recvFrameBlocking;
    if is_type ack MessageType.Error then client_error (error_text ack "handshake failed")
    else if negb (is_type ack MessageType.HandshakeAck) then client_error "unexpected response to handshake"
    else mret tt.

(* src/core/daemon/DaemonIpcClient.cpp:154-187 [DaemonIpcClient::attachSession] *)
Definition attachSession (requestedPort : Z) : proc Client Z :=
  c ← get;
  if negb (fd_ c) then client_error "not connected"
  else match attachedPort_ c with
  | Some _ => client_error "already attached to a session"
  | None =>
      sendFrame (client_frame MessageType.AttachSession (encodeAttachSessionPayload (mkAttach requestedPort)));;
      response ← recvFrameBlocking;
      if is_type response MessageType.Error then client_error (error_text response "attach session failed")
      else if negb (is_type response MessageType.AttachSessionAck) then client_error "unexpected response to attach session"
      else match decodeAttachSessionAckPayload (payload response) with
           | None => client_error "invalid attach session ack payload"
           | Some ack => modify (set_port (Some (Ipc.attachedPort ack)));; mret (Ipc.attachedPort ack)
           end
  end.

(** Output that is still on its way is dropped.  Every round takes a frame. *)
Fixpoint await_detach (fuel : nat) : proc Client unit :=
  match fuel with
  | O => lift (Undefined "frames")
  | S fuel' =>
      response ← recvFrameBlocking;
      if is_type response MessageType.Error then client_error (error_text response "detach session failed")
      else if is_type response MessageType.DetachSessionAck then modify (set_port None)
      else if is_type response MessageType.SessionOutput || is_type response MessageType.SessionDiagnostic then await_detach fuel'
      else client_error "unexpected response to detach session"
  end.

(** Bytes that are or may be in the buffer. *)
Definition wait_rounds (c : Client) : nat := S (length (readBuffer_ c) + sum_list_with (λ w, sum_list_with event_size w.1) (c_waits c)).

(* src/core/daemon/DaemonIpcClient.cpp:189-216 [DaemonIpcClient::detachSession] *)
Definition detachSession : proc Client unit :=
  c ← get;
  if negb (fd_ c) || bool_decide (attachedPort_ c = None) then modify (set_port None)
  else
    sendFrame (client_frame MessageType.DetachSession []);;
    n ← gets wait_rounds; await_detach n.

(* src/core/daemon/DaemonIpcClient.cpp:218-234 [DaemonIpcClient::disconnect] *)
Definition disconnect : proc Client unit :=
  c ← get;
  if negb (fd_ c) then mret tt
  else
    (if bool_decide (attachedPort_ c = None) then mret tt
     else try_catch detachSession (λ e, match e with RuntimeError _ => Some (modify (set_port None)) | _ => None end));;
    modify (λ c, set_pending [] (c_writes c) (c_sent c) (set_read [] (c_waits c) (set_fd false c))).

(** What [socket] and [connect] do.  A path of [sun_path] has 107 characters at most. *)
Inductive connecting := SocketFails | ConnectFails | Connects.

(* src/core/daemon/DaemonIpcClient.cpp:53-79 [DaemonIpcClient::connect] *)
Definition connect (socketPath : string) (a : connecting) : proc Client unit :=
  c ← get;
  if fd_ c then mret tt
  else match a with
  | SocketFails => client_error "failed to create socket"
  | _ =>
      if (108 <=? String.length socketPath)%nat then client_error "socket path too long"
      else match a with Connects => modify (set_fd true) | _ => client_error "failed to connect to daemon socket" end
  end.

(** ** The pump *)

(* src/core/daemon/DaemonIpcClient.cpp:236-268 [DaemonIpcClient::dispatchIncomingFrame] *)
Definition dispatchIncomingFrame (fr : DaemonIpcFrame) : proc Client unit :=
  if is_type fr MessageType.SessionOutput then
    match decodeSessionDataPayload (payload fr) with Some p => out_bytes (data p) | None => mret tt end
  else if is_type fr MessageType.SessionDiagnostic then
    match decodeSessionDataPayload (payload fr) with Some p => err_bytes (data p) | None => mret tt end
  else if is_type fr MessageType.Error then client_error (error_text fr "IPC error")
  else client_error "unexpected IPC frame during session I/O pump".

Definition input_frame (b : bytes) : DaemonIpcFrame := client_frame MessageType.SessionInput (encodeSessionDataPayload (mkData b)).

Definition piece_size : nat := Z.to_nat kDaemonIpcMaxSessionDataSize.

(** What was read, in pieces that fit a frame. *)
(* src/core/daemon/DaemonIpcClient.cpp:361-373 [DaemonIpcClient::runIoPump] *)
Fixpoint send_pieces (fuel : nat) (b : bytes) : proc Client unit :=
  match fuel, b with
  | _, [] => mret tt
  | O, _ => lift (Undefined "pieces")
  | S fuel', _ => sendFrame (input_frame (take piece_size b));; send_pieces fuel' (drop piece_size b)
  end.

(** The array has room for 4096 characters, but up to 65532 are read into it. *)
(* src/core/daemon/DaemonIpcClient.cpp:270-290 [DaemonIpcClient::pumpInputFromStream] *)
Definition pumpInputFromStream (rest : bytes) : proc Client unit :=
  if 4096 <? size rest then lift (Undefined "write past the end of an array")
  else modify (set_input (FromStream []));; sendFrame (input_frame rest).

(** [p_result], and [revents] of the socket and of the terminal; [p_reads]: the calls that read frames;
    [p_signal]: a signal arrives afterwards. *)
Record Polled := mkPolled {
  p_result : Z; p_hup : bool; p_out : bool; p_in : bool; p_stdin : bool; p_reads : list fd; p_signal : bool }.

(** A signal interrupts the call. *)
Inductive poll_event := PollFails | Interrupted | Polls (p : Polled).

Definition interrupted : Polled := mkPolled (-1) false false false false [] false.

(** [None]: the connection is closed; else whether a frame was read.  A frame takes 12 bytes at least. *)
(* src/core/daemon/DaemonIpcClient.cpp:341-352 [DaemonIpcClient::runIoPump] *)
Fixpoint pump_frames (fuel : nat) (reads : list fd) (got : bool) : proc Client (option bool) :=
  match fuel with
  | O => lift (Undefined "frames")
  | S fuel' =>
      c ← get;
      let '(r, buffer, _) := tryReadDaemonIpcFrame (default [RAgain] (head reads)) (readBuffer_ c) in
      modify (set_read buffer (c_waits c));;
      match status r, frame r with
      | Incomplete, _ => mret (Some got)
      | FrameReady, Some fr => dispatchIncomingFrame fr;; pump_frames fuel' (tail reads) true
      | _, _ => mret None
      end
  end.

Definition pump_rounds (c : Client) (reads : list fd) : nat := S (length (readBuffer_ c) + sum_list_with (sum_list_with event_size) reads).

(** The answer: is the input at its end. *)
(* src/core/daemon/DaemonIpcClient.cpp:355-381 [DaemonIpcClient::runIoPump] *)
Definition pump_input (ready eof : bool) : proc Client bool :=
  c ← get;
  match c_input c with
  | FromFd f =>
      if ready && negb eof then
        match sys_read 4096 f with
        | (AData b, f') => modify (set_input (FromFd f'));; send_pieces (length b) b;; mret eof
        | (AEof, f') => modify (set_input (FromFd f'));; mret true
        | (_, f') => modify (set_input (FromFd f'));; mret eof
        end
      else mret eof
  | FromStream [] => mret true
  | FromStream rest => pumpInputFromStream rest;; mret eof
  end.

Definition flush_or_fail : proc Client bool :=
  ok ← flushPendingWrite; if ok : bool then mret true else err_line "failed to write to daemon";; mret false.

(** [inl]: the pump's answer; [inr]: polls without events since the end of the input, and the end of the input. *)
(* src/core/daemon/DaemonIpcClient.cpp:327-392 [DaemonIpcClient::runIoPump] *)
Definition pump_round (p : Polled) (idle : nat) (eof : bool) : proc Client (Z + nat * bool) :=
  if p_hup p then mret (inl 0)
  else
    c ← get;
    ok ← (if p_out p || negb (bool_decide (pendingWrite_ c = [])) then flush_or_fail else mret true);
    if negb (ok : bool) then mret (inl 1)
    else
      c ← get;
      read ← (if p_in p then pump_frames (pump_rounds c (p_reads p)) (p_reads p) false else mret (Some false));
      match read with
      | None => mret (inl 0)
      | Some got =>
          eof ← pump_input (p_stdin p) eof;
          (if p_signal p then modify (set_stop true) else mret tt);;
          if negb (eof : bool) then mret (inr (idle, false))
          else if got || (0 <? p_result p) then mret (inr (O, true))
          else if negb (p_result p =? 0) then mret (inr (idle, true))
          else if (5 <=? S idle)%nat then c ← get; mret (inl (if stopRequested_ c then 130 else 0))
          else mret (inr (S idle, true))
      end.

(** [None]: the pump waits in [poll]. *)
(* src/core/daemon/DaemonIpcClient.cpp:301-395 [DaemonIpcClient::runIoPump] *)
Fixpoint pump_loop (events : list poll_event) (idle : nat) (eof : bool) : proc Client (option Z) :=
  c ← get;
  if stopRequested_ c then mret (Some 130)
  else
    ok ← (if bool_decide (pendingWrite_ c = []) then mret true else flush_or_fail);
    if negb (ok : bool) then mret (Some 1)
    else match events with
    | [] => mret None
    | PollFails :: _ => err_line "poll failed";; mret (Some 1)
    | e :: events' =>
        (match e with Interrupted => modify (set_stop true) | _ => mret tt end);;
        r ← pump_round (match e with Polls p => p | _ => interrupted end) idle eof;
        match r with inl rc => mret (Some rc) | inr (idle', eof') => pump_loop events' idle' eof' end
    end.

(* src/core/daemon/DaemonIpcClient.cpp:292-396 [DaemonIpcClient::runIoPump] *)
Definition runIoPump (events : list poll_event) : proc Client (option Z) :=
  c ← get;
  if negb (fd_ c) || bool_decide (attachedPort_ c = None) then client_error "session not attached" else pump_loop events 0 false.

(** ** The program *)

(** The destructor disconnects. *)
(* src/console/Main.cpp:27-45 [main] *)
Definition console_main (config : ConsoleConfig) (a : connecting) (events : list poll_event) : proc Client (option Z) :=
  r ← try_catch
    (connect (cc_socketPath config) a;;
     handshake;;
     attachSession (Config.requestedPort config);;
     rc ← runIoPump events;
     match rc with Some n => disconnect;; mret (Some n) | None => mret None end)
    (λ e, match e with RuntimeError w => Some (disconnect;; err_line w;; mret (Some 1)) | _ => None end);
  mret r.

(** ** The console is transparent

    What the daemon sends for a session: data for the terminal's output ([false]) or its diagnostics ([true]). *)
Definition data_frame (x : bool * bytes) : DaemonIpcFrame :=
  client_frame (if x.1 then MessageType.SessionDiagnostic else MessageType.SessionOutput) (encodeSessionDataPayload (mkData x.2)).

Definition fits (x : bool * bytes) : Prop := data_ok (mkData x.2).

Definition shown_on (err : bool) (l : list (bool * bytes)) : bytes := concat (omap (λ x, if Bool.eqb x.1 err then Some x.2 else None) l).

(** The bytes that reads will find. *)
Definition fd_bytes (f : fd) : bytes := concat ((λ e, match e with RData b => b | _ => [] end) <$> f).
Definition typed (i : Input) : bytes := match i with FromFd f => fd_bytes f | FromStream rest => rest end.

(** *** What is sent *)

(** Since [c0], whole frames with what was typed in the meantime. *)
Definition sends (c0 c : Client) : Prop := ∃ pieces,
  c_sent c ++ pendingWrite_ c = c_sent c0 ++ pendingWrite_ c0 ++ stream (input_frame <$> pieces) ∧
  concat pieces ++ typed (c_input c) = typed (c_input c0).

Lemma sends_same c0 c c' : c_sent c' ++ pendingWrite_ c' = c_sent c ++ pendingWrite_ c → c_input c' = c_input c → sends c0 c → sends c0 c'.
Proof. intros E1 E2 (pieces & H1 & H2). exists pieces. by rewrite E1, E2. Qed.

Lemma sends_refl c : sends c c.
Proof. exists []. cbn. by rewrite app_nil_r. Qed.

Lemma flush_writes_all results : ∀ b, let '(ok, rest, sent, _) := flush_writes results b in sent ++ rest = b.
Proof.
  induction results as [|[n| |] results IH]; intros [|x b]; try done. cbn [flush_writes]. specialize (IH (drop n (x :: b))).
  destruct (flush_writes _ _) as [[[ok rest] sent] r]. by rewrite <- app_assoc, IH, take_drop.
Qed.

(** What a flush changes. *)
Lemma flush_spec c : ∃ ok rest r sent, flushPendingWrite c = (Ok ok, set_pending rest r (c_sent c ++ sent) c) ∧ sent ++ rest = pendingWrite_ c.
Proof.
  unfold flushPendingWrite. pose proof (flush_writes_all (c_writes c) (pendingWrite_ c)) as H. destruct (flush_writes _ _) as [[[ok rest] sent] r].
  by exists ok, rest, r, sent.
Qed.

(** What depends on the bytes for the socket and on the input only. *)
Section sent.
Context (P : Client → Prop).
Hypothesis same : ∀ c c', c_sent c' ++ pendingWrite_ c' = c_sent c ++ pendingWrite_ c → c_input c' = c_input c → P c → P c'.
Abbreviation keeps := (preserves P).
#[local] Set Default Proof Using "same".

Lemma keeps_flush_pending : keeps flushPendingWrite.
Proof.
  intros c Hc. destruct (flush_spec c) as (ok & rest & r & sent & -> & E). revert Hc. apply same; [|done]. cbn. by rewrite <- app_assoc, E.
Qed.

Lemma keeps_streams o e : keeps (modify (λ c, set_streams (o c) (e c) c)).
Proof. apply preserves_modify. intros c. by apply same. Qed.

Lemma keeps_err_line s : keeps (err_line s).
Proof. apply (keeps_streams c_out). Qed.

Lemma keeps_flush_or_fail : keeps flush_or_fail.
Proof.
  unfold flush_or_fail. apply preserves_bind; [apply keeps_flush_pending|]. intros []; [apply preserves_ret|].
  apply preserves_bind; [apply keeps_err_line|]. intros. apply preserves_ret.
Qed.

Lemma keeps_dispatch fr : keeps (dispatchIncomingFrame fr).
Proof.
  unfold dispatchIncomingFrame, out_bytes, err_bytes, client_error. repeat (case_match; try apply preserves_ret; try apply preserves_throw).
  - apply (keeps_streams (λ c, c_out c ++ _) c_err).
  - apply (keeps_streams c_out (λ c, c_err c ++ _)).
Qed.

Lemma keeps_frames fuel : ∀ reads got, keeps (pump_frames fuel reads got).
Proof.
  induction fuel as [|fuel IH]; intros reads got; cbn [pump_frames]; [apply preserves_lift|].
  apply preserves_bind; [apply preserves_get|]. intros c. destruct (tryReadDaemonIpcFrame _ _) as [[r buffer] ?].
  apply preserves_bind; [apply preserves_modify; intros c'; by apply same|]. intros _.
  repeat case_match; try apply preserves_ret. apply preserves_bind; [apply keeps_dispatch|]. intros. apply IH.
Qed.

End sent.

(** Sending what was just read. *)
Lemma send_input c0 b c : sends c0 (set_input (match c_input c with FromFd f => FromFd (RData b :: f) | FromStream _ => FromStream b end) c) →
  match c_input c with FromStream (_ :: _) => False | _ => True end →
  sends c0 (sendFrame (input_frame b) c).2.
Proof.
  intros (pieces & H1 & H2) Hi. unfold sendFrame. cbn [mbind].
  set (c1 := set_pending (pendingWrite_ c ++ encodeDaemonIpcFrame (input_frame b)) (c_writes c) (c_sent c) c).
  assert (Hc1 : sends c0 c1).
  { exists (pieces ++ [b]). rewrite fmap_app, concat_app. unfold stream in *. rewrite fmap_app, concat_app. cbn [fmap list_fmap concat].
    rewrite !app_nil_r. cbn [c1 c_sent pendingWrite_ c_input set_pending set_input] in *. split.
    - rewrite app_assoc, H1. by rewrite <- !app_assoc.
    - rewrite <- H2, <- app_assoc. f_equal. destruct (c_input c) as [f|[|]]; try done. cbn. by rewrite app_nil_r. }
  apply (preserves_bind (sends c0) flushPendingWrite (λ ok, if ok : bool then mret tt else client_error "failed to send IPC frame"));
    [apply keeps_flush_pending, sends_same| |exact Hc1]. intros []; [apply preserves_ret|apply preserves_throw].
Qed.

Lemma sys_read_bytes n f : (0 < n)%nat → match sys_read n f with
  | (AData b, f') => fd_bytes f = b ++ fd_bytes f' ∧ (length b <= n)%nat
  | (_, f') => fd_bytes f = fd_bytes f'
  end.
Proof.
  intros Hn. destruct f as [|[b| | |] f]; try done. unfold sys_read. destruct (take n b) as [|x t] eqn:E.
  - destruct b as [|y b]; [done|]. destruct n; [lia|done].
  - rewrite <- E. unfold fd_bytes. split; [|rewrite length_take; lia].
    destruct (drop n b) as [|d r] eqn:Ed; cbn.
    + by rewrite <- (take_drop n b) at 1; rewrite Ed, app_nil_r.
    + assert (take n b ++ d :: r = b) as E2 by (rewrite <- Ed; apply take_drop). rewrite <- E2 at 1. by rewrite <- app_assoc.
Qed.

(** A chunk fits one frame. *)
Lemma send_pieces_one b : (0 < length b <= 4096)%nat → send_pieces (length b) b = (sendFrame (input_frame b);; mret tt).
Proof.
  intros Hb. assert (4096 < piece_size)%nat as Hp by (apply Nat.ltb_lt; by vm_compute).
  destruct b as [|x b]; [cbn in Hb; lia|]. cbn [length send_pieces].
  rewrite take_ge, drop_ge by (cbn in *; lia). by destruct (length b).
Qed.

Section sent2.
Context (c0 : Client).
Abbreviation keeps := (preserves (sends c0)).

Lemma keeps_pump_input ready eof : keeps (pump_input ready eof).
Proof.
  unfold pump_input. intros c Hc. unfold get. rewrite (proc_bind_ok _ _ c c c) by done.
  destruct (c_input c) as [f|[|x rest]] eqn:Ei; [| done |].
  - destruct (ready && negb eof); [|done]. pose proof (sys_read_bytes 4096 f ltac:(lia)) as Hr.
    assert (Hmove : ∀ f', fd_bytes f = fd_bytes f' → sends c0 (set_input (FromFd f') c)).
    { intros f' E. destruct Hc as (pieces & H1 & H2). exists pieces. split; [done|]. cbn. by rewrite <- E, <- H2, Ei. }
    destruct (sys_read 4096 f) as [[b| | |] f']; try (by apply Hmove). destruct Hr as [E Hl].
    rewrite (proc_bind_ok _ _ c tt (set_input (FromFd f') c)) by done.
    destruct b as [|x b]; [by apply Hmove|]. rewrite send_pieces_one by (cbn in *; lia).
    assert (Hs : sends c0 (sendFrame (input_frame (x :: b)) (set_input (FromFd f') c)).2).
    { apply (send_input c0); [|done]. destruct Hc as (pieces & H1 & H2). exists pieces. split; [done|]. rewrite <- H2, Ei. cbn [typed c_input set_input].
      f_equal. by rewrite E. }
    unfold mbind, proc_bind. destruct (sendFrame _ _) as [[[]|e|w] c1]; exact Hs.
  - unfold pumpInputFromStream. destruct (4096 <? size (x :: rest)); [done|].
    assert (Hs : sends c0 (sendFrame (input_frame (x :: rest)) (set_input (FromStream []) c)).2).
    { apply (send_input c0); [|done]. destruct Hc as (pieces & H1 & H2). exists pieces. split; [done|]. by rewrite <- H2, Ei. }
    unfold mbind, proc_bind, modify. destruct (sendFrame _ _) as [[[]|e|w] c1]; exact Hs.
Qed.

Lemma keeps_stop b : keeps (modify (set_stop b)).
Proof. apply preserves_modify. intros c. by apply sends_same. Qed.

#[local] Hint Extern 1 (preserves (sends c0) flush_or_fail) => apply keeps_flush_or_fail, sends_same : preserves.
#[local] Hint Extern 1 (preserves (sends c0) (pump_frames _ _ _)) => apply keeps_frames, sends_same : preserves.
#[local] Hint Extern 1 (preserves (sends c0) (err_line _)) => apply keeps_err_line, sends_same : preserves.
#[local] Hint Resolve keeps_pump_input keeps_stop : preserves.

Lemma keeps_round p idle eof : keeps (pump_round p idle eof).
Proof. unfold pump_round. preserves. Qed.

Lemma keeps_loop events : ∀ idle eof, keeps (pump_loop events idle eof).
Proof.
  pose proof keeps_round. induction events as [|e events IH]; intros idle eof; cbn [pump_loop]; preserves.
Qed.
End sent2.

(** *** What is received *)

Lemma data_payload_bytes x : fits x → Forall is_byte (payload (data_frame x)).
Proof. intros [Hb _]. apply Forall_app. split; [apply writeU32_bytes|exact Hb]. Qed.

Lemma data_frame_valid x : fits x → valid_frame (data_frame x).
Proof.
  intros Hx. split; [done| |by apply data_payload_bytes|].
  - destruct x as [[] ?]; cbn; lia.
  - destruct Hx as [_ Hs]. cbn [data] in Hs. change (payload (data_frame x)) with (writeU32 (wrap32 (size x.2)) ++ x.2). rewrite size_app.
    change (size (writeU32 _)) with 4. unfold kDaemonIpcMaxSessionDataSize in Hs. lia.
Qed.

Lemma shown_app err l1 l2 : shown_on err (l1 ++ l2) = shown_on err l1 ++ shown_on err l2.
Proof. unfold shown_on. by rewrite omap_app, concat_app. Qed.

Lemma dispatch_data x c : fits x →
  dispatchIncomingFrame (data_frame x) c = (Ok tt, set_streams (c_out c ++ shown_on false [x]) (c_err c ++ shown_on true [x]) c).
Proof.
  intros Hx. pose proof (proj2 (session_data_codec _ (mkData x.2) (data_payload_bytes x Hx)) (conj Hx eq_refl)) as Hd.
  unfold dispatchIncomingFrame. rewrite Hd. destruct x as [[] d]; cbn; by rewrite !app_nil_r.
Qed.

Lemma stream_cons fr l : stream (fr :: l) = encodeDaemonIpcFrame fr ++ stream l.
Proof. done. Qed.

Lemma stream_nil_inv l : Forall valid_frame l → stream l = [] → l = [].
Proof.
  intros Hv E. destruct l as [|fr l]; [done|]. inversion_clear Hv as [|? ? Hfr _]. pose proof (size_encode fr Hfr) as Hs.
  rewrite stream_cons in E. apply app_nil in E as [E _]. rewrite E in Hs. change (size []) with 0 in Hs. pose proof (size_nonneg (payload fr)). lia.
Qed.

(** Data still to be shown, of which so much is in the buffer and [rest] is to come. *)
Definition due (todo : list (bool * bytes)) (rest : bytes) (c : Client) : Prop :=
  Forall fits todo ∧ readBuffer_ c ++ rest = stream (data_frame <$> todo) ∧ (rest = [] → todo = []).

(** What a client has shown since [c0]: the data of [seen]. *)
Definition shows (c0 : Client) (seen : list (bool * bytes)) (c : Client) : Prop :=
  c_out c = c_out c0 ++ shown_on false seen ∧ c_err c = c_err c0 ++ shown_on true seen.

Lemma valid_all todo : Forall fits todo → Forall valid_frame (data_frame <$> todo).
Proof. intros H. apply Forall_fmap. eapply Forall_impl; [done|]. apply data_frame_valid. Qed.

(** Reading frames until there is no whole one left. *)
Lemma frames_round fuel : ∀ reads got c0 seen todo rest chunks c,
  default [RAgain] (head reads) = poll chunks → tail reads = [] → Forall (λ b, b ≠ []) chunks →
  Forall fits todo → readBuffer_ c ++ concat chunks ++ rest = stream (data_frame <$> todo) →
  (length (readBuffer_ c) + length (concat chunks) < fuel)%nat → shows c0 seen c →
  ∃ got' c' now todo', pump_frames fuel reads got c = (Ok (Some got'), c') ∧ todo = now ++ todo' ∧ shows c0 (seen ++ now) c' ∧ due todo' rest c'.
Proof.
  induction fuel as [|fuel IH]; intros reads got c0 seen todo rest chunks c Hr Ht Hne Hf Hs Hfuel Hc; [lia|].
  cbn [pump_frames]. unfold get. rewrite (proc_bind_ok _ _ c c c) by done. rewrite Hr.
  destruct (tryRead_step chunks (readBuffer_ c) rest (data_frame <$> todo) Hne (valid_all _ Hf) Hs) as
    [(fr & frames' & E & buffer' & -> & Hb)|[-> Hend]].
  - destruct todo as [|x todo]; [done|]. injection E as <- <-. change (buffer' ++ rest = stream (data_frame <$> todo)) in Hb. inversion_clear Hf as [|? ? Hx Hf'].
    rewrite (proc_bind_ok _ _ c tt (set_read buffer' (c_waits c) c)) by done. cbn [status frame].
    rewrite (proc_bind_ok _ _ _ _ _ (dispatch_data x _ Hx)). cbn [c_out c_err set_read].
    set (c1 := set_streams _ _ _). rewrite Ht.
    destruct (IH [] true c0 (seen ++ [x]) todo rest [] c1) as (got' & c' & now & todo' & -> & -> & Hsh & Hdue);
      [done|done|constructor|done|exact Hb| | |].
    + apply (f_equal length) in Hs, Hb.
      change (stream (data_frame <$> x :: todo)) with (encodeDaemonIpcFrame (data_frame x) ++ stream (data_frame <$> todo)) in Hs.
      rewrite !length_app in Hs. rewrite length_app in Hb. pose proof (size_encode _ (data_frame_valid x Hx)) as He. unfold size in He.
      change (readBuffer_ c1) with buffer'. change (length (concat [])) with 0%nat. lia.
    + destruct Hc as [H1 H2]. split; cbn; rewrite ?H1, ?H2, shown_app, <- app_assoc; done.
    + exists got', c', (x :: now), todo'. rewrite <- app_assoc in Hsh. by split_and!.
  - rewrite (proc_bind_ok _ _ c tt (set_read (readBuffer_ c ++ concat chunks) (c_waits c) c)) by done. cbn [status frame].
    exists got, (set_read (readBuffer_ c ++ concat chunks) (c_waits c) c), [], todo. split_and!; [done|done|by rewrite app_nil_r|].
    split_and!; [done|cbn; by rewrite <- app_assoc|]. intros ->. destruct Hend as [E|]; [|done]. by apply fmap_nil_inv in E.
Qed.

(** *** Rounds *)

(** What sending does not touch. *)
Definition view (c : Client) : bytes * bytes * bytes := (readBuffer_ c, c_out c, c_err c).

Lemma send_spec fr c : ∃ r c', sendFrame fr c = (r, c') ∧ view c' = view c ∧ c_input c' = c_input c ∧ ∀ w, r ≠ Undefined w.
Proof.
  unfold sendFrame. set (c1 := set_pending (pendingWrite_ c ++ encodeDaemonIpcFrame fr) (c_writes c) (c_sent c) c). destruct (flush_spec c1) as (ok & rest & r & sent & E & _).
  rewrite (proc_bind_ok _ _ c tt c1) by done. rewrite (proc_bind_ok _ _ _ _ _ E). destruct ok; by eexists _, _.
Qed.

Lemma flush_or_fail_spec c : ∃ ok c' msg, flush_or_fail c = (Ok ok, c') ∧ readBuffer_ c' = readBuffer_ c ∧ c_out c' = c_out c ∧
  c_err c' = c_err c ++ msg ∧ c_input c' = c_input c ∧ (ok = true → msg = []).
Proof.
  unfold flush_or_fail. destruct (flush_spec c) as (ok & rest & r & sent & E & _). rewrite (proc_bind_ok _ _ _ _ _ E).
  destruct ok; [exists true, (set_pending rest r (c_sent c ++ sent) c), []|eexists false, _, _]; split_and!; try done. cbn. by rewrite app_nil_r.
Qed.

Lemma flush_if_spec m c : m = flush_or_fail ∨ m = mret true →
  ∃ ok c' msg, m c = (Ok ok, c') ∧ readBuffer_ c' = readBuffer_ c ∧ c_out c' = c_out c ∧ c_err c' = c_err c ++ msg ∧
    c_input c' = c_input c ∧ (ok = true → msg = []).
Proof. intros [->| ->]; [apply flush_or_fail_spec|]. exists true, c, []. rewrite app_nil_r. by split_and!. Qed.

Lemma pump_input_spec ready eof c f : c_input c = FromFd f →
  ∃ r c', pump_input ready eof c = (r, c') ∧ view c' = view c ∧ (∃ f', c_input c' = FromFd f') ∧ ∀ w, r ≠ Undefined w.
Proof.
  intros Ei. unfold pump_input, get. rewrite (proc_bind_ok _ _ c c c) by done. rewrite Ei. destruct (ready && negb eof); [|by eauto 10].
  pose proof (sys_read_bytes 4096 f ltac:(lia)) as Hr. destruct (sys_read 4096 f) as [[b| | |] f'];
    rewrite (proc_bind_ok _ _ c tt (set_input (FromFd f') c)) by done; try (eexists _, _; split_and!; [done|done|by exists f'|done]).
  destruct b as [|x b]; [eexists _, _; split_and!; [done|done|by exists f'|done]|]. destruct Hr as [_ Hl]. rewrite send_pieces_one by (cbn in *; lia).
  destruct (send_spec (input_frame (x :: b)) (set_input (FromFd f') c)) as (r & c' & E & Hv & Hi & Hu).
  unfold mbind, proc_bind. rewrite E. destruct r as [[]|e|w]; [| |by destruct (Hu w)]; (eexists _, _; split_and!; [done|done|by exists f'|done]).
Qed.

(** Polls without a hang-up; while the socket is ready, the first call finds what has arrived. *)
Definition usual (e : poll_event) : Prop :=
  match e with
  | Polls p => p_hup p = false ∧ if p_in p then ∃ chunks, p_reads p = [poll chunks] ∧ Forall (λ b, b ≠ []) chunks else p_reads p = []
  | _ => True
  end.

Definition arrives (e : poll_event) : bytes := match e with Polls p => concat (fd_bytes <$> p_reads p) | _ => [] end.

Lemma poll_bytes chunks : fd_bytes (poll chunks) = concat chunks.
Proof.
  unfold fd_bytes, poll. rewrite fmap_app, concat_app. cbn. rewrite app_nil_r. induction chunks as [|b chunks IH]; [done|]. cbn in *. by rewrite IH.
Qed.

Lemma poll_length chunks : (length (concat chunks) <= sum_list_with (sum_list_with event_size) [poll chunks])%nat.
Proof.
  unfold poll. cbn [sum_list_with]. rewrite sum_list_with_app. induction chunks as [|b chunks IH]; cbn in *; [lia|]. rewrite length_app. lia.
Qed.

(** Some more of the data was shown; what is due if the pump goes on. *)
Definition progress (c0 : Client) (seen todo : list (bool * bytes)) (rest : bytes) (going : bool) (c : Client) : Prop :=
  ∃ now todo' msg, todo = now ++ todo' ∧ c_out c = c_out c0 ++ shown_on false (seen ++ now) ∧
    c_err c = c_err c0 ++ shown_on true (seen ++ now) ++ msg ∧
    (going = true → msg = [] ∧ due todo' rest c ∧ ∃ f, c_input c = FromFd f).

Lemma progress_none c0 seen todo rest msg c : c_out c = c_out c0 ++ shown_on false seen → c_err c = c_err c0 ++ shown_on true seen ++ msg →
  progress c0 seen todo rest false c.
Proof. intros H1 H2. exists [], todo, msg. rewrite app_nil_r. by split_and!. Qed.

(** Reading, when the socket is ready. *)
Lemma reading_progress p c0 seen todo rest c : usual (Polls p) → due todo (arrives (Polls p) ++ rest) c → shows c0 seen c →
  ∃ got c' now todo', (if p_in p then pump_frames (pump_rounds c (p_reads p)) (p_reads p) false else mret (Some false)) c = (Ok (Some got), c') ∧
    todo = now ++ todo' ∧ shows c0 (seen ++ now) c' ∧ due todo' rest c' ∧ c_input c' = c_input c.
Proof.
  intros [_ Hin] (Hf & Hs & Hend) Hsh. cbn [arrives] in Hs, Hend. destruct (p_in p).
  - destruct Hin as (chunks & Er & Hne). rewrite Er in *. cbn [fmap list_fmap concat] in Hs. rewrite poll_bytes, app_nil_r in Hs.
    destruct (frames_round (pump_rounds c [poll chunks]) [poll chunks] false c0 seen todo rest chunks c) as (got & c2 & now & todo' & E & Et & H & D);
      [done..|unfold pump_rounds; pose proof (poll_length chunks); lia|done|].
    exists got, c2, now, todo'. split_and!; try done. pose proof (keeps_frames (λ c', c_input c' = c_input c)) as Hk.
    specialize (Hk ltac:(intros ? ? _ E' E''; cbn in *; congruence) (pump_rounds c [poll chunks]) [poll chunks] false c eq_refl). by rewrite E in Hk.
  - exists false, c, [], todo. rewrite Hin in Hs, Hend. by rewrite app_nil_r.
Qed.

Lemma round_progress p idle eof c0 seen todo rest c : usual (Polls p) → due todo (arrives (Polls p) ++ rest) c → shows c0 seen c →
  (∃ f, c_input c = FromFd f) →
  ∃ r c', pump_round p idle eof c = (r, c') ∧ (∀ w, r ≠ Undefined w) ∧
    progress c0 seen todo rest (match r with Ok (inr _) => true | _ => false end) c'.
Proof.
  intros Hp (Hf & Hs & Hend) [Ho He] [f Ei]. pose proof (proj1 Hp) as Hh. unfold pump_round. rewrite Hh. unfold get at 1. rewrite (proc_bind_ok _ _ c c c) by done.
  destruct (flush_if_spec (if p_out p || negb (bool_decide (pendingWrite_ c = [])) then flush_or_fail else mret true) c)
    as (ok & c1 & msg & E1 & B1 & O1 & R1 & I1 & M1); [destruct (_ || _); auto|].
  rewrite (proc_bind_ok _ _ _ _ _ E1). destruct ok; cbn [negb].
  2: { eexists _, _. split; [done|]. split; [done|]. apply (progress_none _ _ _ _ msg); [by rewrite O1|by rewrite R1, He, <- app_assoc]. }
  rewrite (M1 eq_refl), app_nil_r in R1. unfold get at 1. rewrite (proc_bind_ok _ _ c1 c1 c1) by done.
  destruct (reading_progress p c0 seen todo rest c1) as (got & c2 & now & todo' & E2 & -> & H2 & D2 & I2);
    [done|by split_and!; [|rewrite B1|]|by split; congruence|].
  rewrite (proc_bind_ok _ _ _ _ _ E2). rewrite I1 in I2.
  destruct (pump_input_spec (p_stdin p) eof c2 f) as (r & c3 & E3 & V3 & I3 & U3); [congruence|].
  assert (Hgo : ∀ going c', view c' = view c3 → c_input c' = c_input c3 → progress c0 seen (now ++ todo') rest going c').
  { intros going c' V Ic. injection V as B O R. injection V3 as B3 O3 R3. exists now, todo', []. destruct H2 as [H2o H2e], D2 as (D2a & D2b & D2c).
    split_and!; [done|congruence|rewrite app_nil_r; congruence|]. intros _. split; [done|]. split; [split_and!; [done|congruence|done]|]. destruct I3 as [f' I3]. exists f'. congruence. }
  unfold mbind at 1, proc_bind at 1. rewrite E3. destruct r as [eof'|e|w]; [|eexists _, _; split; [done|]; split; [done|by apply Hgo]|by destruct (U3 w)].
  set (c4 := if p_signal p then set_stop true c3 else c3).
  rewrite (proc_bind_ok _ _ c3 tt c4) by (unfold c4; by destruct (p_signal p)).
  assert (Hc4 : view c4 = view c3 ∧ c_input c4 = c_input c3) by (unfold c4; by destruct (p_signal p)). destruct Hc4.
  repeat case_match; try (unfold get; rewrite (proc_bind_ok _ _ c4 c4 c4) by done); (eexists _, _; split; [done|]; split; [done|by apply Hgo]).
Qed.

Lemma progress_more c0 seen now todo rest going c : progress c0 (seen ++ now) todo rest going c → progress c0 seen (now ++ todo) rest going c.
Proof.
  intros (now' & todo' & msg & -> & Ho & He & Hg). exists (now ++ now'), todo', msg. rewrite !app_assoc in *. by split_and!.
Qed.

Lemma loop_progress c0 later events : ∀ idle eof seen todo c,
  Forall usual events → due todo (concat (arrives <$> events) ++ later) c → shows c0 seen c → (∃ f, c_input c = FromFd f) →
  ∃ r c', pump_loop events idle eof c = (r, c') ∧ (∀ w, r ≠ Undefined w) ∧
    progress c0 seen todo later (match r with Ok None => true | _ => false end) c'.
Proof.
  induction events as [|e events IH]; intros idle eof seen todo c Hus Hdue [Ho He] [f Hin]; cbn [pump_loop]; unfold get; rewrite (proc_bind_ok _ _ c c c) by done.
  all: destruct (stopRequested_ c);
    [eexists _, _; split; [done|]; split; [done|]; by apply (progress_none _ _ _ _ []); rewrite ?app_nil_r|].
  all: destruct (flush_if_spec (if bool_decide (pendingWrite_ c = []) then mret true else flush_or_fail) c)
    as (ok & c1 & msg & E1 & B1 & O1 & R1 & I1 & M1); [destruct (bool_decide _); auto|].
  all: rewrite (proc_bind_ok _ _ _ _ _ E1); destruct ok; cbn [negb];
    [|eexists _, _; split; [done|]; split; [done|]; apply (progress_none _ _ _ _ msg); [by rewrite O1|by rewrite R1, He, <- app_assoc]].
  all: rewrite (M1 eq_refl), app_nil_r in R1; destruct Hdue as (Hf & Hs & Hend).
  - eexists _, _. split; [done|]. split; [done|]. exists [], todo, []. rewrite !app_nil_r. cbn [fmap list_fmap concat] in Hs, Hend.
    split_and!; [done|congruence|congruence|]. intros _. split; [done|]. split; [split_and!; [done|by rewrite B1|done]|exists f; congruence].
  - inversion_clear Hus as [|? ? He1 Hus']. cbn [fmap list_fmap concat] in Hs, Hend. rewrite <- app_assoc in Hs, Hend.
    assert (Hgo : ∀ p c2, usual (Polls p) → arrives (Polls p) = arrives e → view c2 = view c1 → c_input c2 = c_input c1 →
      ∃ r c', (r ← pump_round p idle eof; match r with inl rc => mret (Some rc) | inr (idle', eof') => pump_loop events idle' eof' end) c2 = (r, c') ∧
        (∀ w, r ≠ Undefined w) ∧ progress c0 seen todo later (match r with Ok None => true | _ => false end) c').
    { intros p c2 Hp Ea V Ii. injection V as B2 O2 R2.
      destruct (round_progress p idle eof c0 seen todo (concat (arrives <$> events) ++ later) c2) as (r & c3 & E3 & U3 & P3); [done| | |exists f; congruence|].
      { rewrite Ea. split_and!; [done|by rewrite B2, B1|done]. }
      { split; congruence. }
      unfold mbind, proc_bind. rewrite E3. destruct P3 as (now & todo' & m & -> & P1 & P2 & P3).
      destruct r as [[rc|[idle' eof']]|ex|w]; [eexists _, _; split; [done|]; split; [done|]; by exists now, todo', m| |
        eexists _, _; split; [done|]; split; [done|]; by exists now, todo', m|by destruct (U3 w)].
      destruct (P3 eq_refl) as (-> & Hd & Hi). rewrite app_nil_r in P2.
      destruct (IH idle' eof' (seen ++ now) todo' c3 Hus' Hd (conj P1 P2) Hi) as (r & c' & E & U & P). exists r, c'. split_and!; [done|done|by apply progress_more]. }
    destruct e as [| |p].
    + eexists _, _. split; [done|]. split; [done|]. set (m := string_bytes ("gemini-console: " +:+ "poll failed" +:+ String NL "")).
      apply (progress_none _ _ _ _ m); [exact (eq_trans O1 Ho)|]. change (c_err c1 ++ m = c_err c0 ++ shown_on true seen ++ m). by rewrite R1, He, <- app_assoc.
    + rewrite (proc_bind_ok _ _ c1 tt (set_stop true c1)) by done. by apply Hgo.
    + rewrite (proc_bind_ok _ _ c1 tt c1) by done. by apply Hgo.
Qed.

(** C11. The console is transparent.  Take an attached client on a terminal, polls that find no hang-up, and a socket on which the frames of a
    session's output and diagnostics arrive, cut into pieces of any size, spread over any number of polls, while
    writes take any number of bytes or none.  However the pump ends, it never runs into undefined behaviour; what it has sent
    or keeps to send is the frames of exactly the bytes that it read from the terminal, in order; it has
    shown the data of the first so many frames, each whole and once, in order, output and diagnostics apart, and its own
    messages at the end only; and when it is waiting, it has shown everything that has arrived. *)
Theorem console_transparent (c : Client) (f : fd) (data : list (bool * bytes)) (events : list poll_event) (later : bytes) :
  fd_ c = true → attachedPort_ c ≠ None → readBuffer_ c = [] → c_input c = FromFd f →
  Forall fits data → Forall usual events → concat (arrives <$> events) ++ later = stream (data_frame <$> data) →
  let '(r, c') := runIoPump events c in
  (∀ w, r ≠ Undefined w) ∧ sends c c' ∧
  ∃ shown unshown msg, data = shown ++ unshown ∧ c_out c' = c_out c ++ shown_on false shown ∧
    c_err c' = c_err c ++ shown_on true shown ++ msg ∧ (r = Ok None → msg = [] ∧ (later = [] → unshown = [])).
Proof.
  intros Hfd Hport Hbuf Hin Hfits Hus Hs. unfold runIoPump, get. rewrite (proc_bind_ok _ _ c c c) by done.
  rewrite Hfd, bool_decide_eq_false_2 by done. cbn [negb orb].
  assert (Hdue : due data (concat (arrives <$> events) ++ later) c).
  { split_and!; [done|by rewrite Hbuf|]. intros E. rewrite E in Hs. symmetry in Hs. apply stream_nil_inv in Hs; [|by apply valid_all].
    by apply fmap_nil_inv in Hs. }
  pose proof (keeps_loop c events 0 false c (sends_refl c)) as Hsent.
  destruct (loop_progress c later events 0 false [] data c Hus Hdue) as (r & c' & E & Hu & shown & unshown & msg & H1 & H2 & H3 & H4);
    [by split; cbn; rewrite app_nil_r|by eexists|].
  rewrite E in Hsent |- *. split; [done|]. split; [done|]. exists shown, unshown, msg. split_and!; [done..|].
  intros ->. destruct (H4 eq_refl) as (-> & (_ & _ & Hend) & _). split; [done|]. intros El. by apply Hend.
Qed.

Lemma ex_fits : Forall fits [(false, string_bytes "TCL> "); (true, [33])].
Proof.
  constructor; [split; [apply string_bytes_are_bytes|by vm_compute]|]. constructor; [|constructor].
  split; [|by vm_compute]. constructor; [unfold is_byte; lia|constructor].
Qed.

(** A frame cut in two, a line typed meanwhile, and a write that takes three bytes. *)
Definition ex_client (typed : fd) : Client := mkClient true [] [] (Some 1) false [WTook 3; WAgain] [] (FromFd typed) [] [] [].

Definition ex_data : list (bool * bytes) := [(false, string_bytes "TCL> "); (true, [33])].

Definition ex_polls : list poll_event :=
  let s := stream (data_frame <$> ex_data) in
  [Polls (mkPolled 1 false false true false [poll [take 7 s]] false);
   Polls (mkPolled 2 false false true true [poll [drop 7 s]] false); Polls (mkPolled 0 false false false false [] false)].

Lemma console_transparent_witness :
  let c := ex_client [RData (string_bytes "WHO")] in
  let '(r, c') := runIoPump ex_polls c in
  r = Ok None ∧ sends c c' ∧ c_out c' = string_bytes "TCL> " ∧ c_err c' = [33] ∧ c_sent c' ++ pendingWrite_ c' = encodeDaemonIpcFrame (input_frame (string_bytes "WHO")).
Proof.
  pose proof (console_transparent (ex_client [RData (string_bytes "WHO")]) [RData (string_bytes "WHO")] ex_data ex_polls []) as H. cbv zeta.
  destruct (runIoPump ex_polls (ex_client [RData (string_bytes "WHO")])) as [r c'] eqn:E.
  destruct H as (_ & Hs & shown & unshown & msg & H1 & H2 & H3 & H4); [done|done|done|done|..].
  { exact ex_fits. }
  { unfold ex_polls. cbv zeta. apply Forall_cons_2; [|apply Forall_cons_2; [|apply Forall_cons_2; [by split|apply Forall_nil_2]]].
    - split; [done|]. exists [take 7 (stream (data_frame <$> ex_data))]. split; [done|]. apply Forall_cons_2; [by vm_compute|apply Forall_nil_2].
    - split; [done|]. exists [drop 7 (stream (data_frame <$> ex_data))]. split; [done|]. apply Forall_cons_2; [by vm_compute|apply Forall_nil_2]. }
  { by vm_compute. }
  vm_compute in E. injection E as <- <-. destruct (H4 eq_refl) as [-> Hall]. rewrite (Hall eq_refl), app_nil_r in H1. subst shown. by split_and!.
Defined.

(** ** The console and the server agree *)

(** The first frame that arrives is received, however it is cut. *)
Lemma recv_delivers polls : ∀ buffer fr frames, Forall (Forall (λ b, b ≠ [])) polls → Forall valid_frame (fr :: frames) →
  buffer ++ concat (concat polls) = stream (fr :: frames) →
  ∃ buffer' w, recv_loop ((λ cs, (poll cs, WaitMore)) <$> polls) buffer = (Ok fr, buffer', w).
Proof.
  induction polls as [|cs polls IH]; intros buffer fr frames Hne Hv Hs; cbn [fmap list_fmap recv_loop head tail fst].
  - change (tryReadDaemonIpcFrame ?f buffer) with (tryReadDaemonIpcFrame (poll []) buffer).
    destruct (tryRead_step [] buffer [] (fr :: frames) (Forall_nil_2 _) Hv) as [(fr' & frames' & [= <- <-] & buffer' & -> & _)|[_ [|]]];
      [exact Hs|by eexists _, _|done|done].
  - inversion_clear Hne as [|? ? Hc Hne']. cbn [concat] in Hs. rewrite concat_app in Hs.
    change (tryReadDaemonIpcFrame ?f buffer) with (tryReadDaemonIpcFrame (poll cs) buffer).
    destruct (tryRead_step cs buffer (concat (concat polls)) (fr :: frames) Hc Hv Hs) as [(fr' & frames' & [= <- <-] & buffer' & -> & _)|[-> _]];
      [by eexists _, _|]. cbn [status frame]. apply (IH _ _ _ Hne' Hv). by rewrite <- app_assoc.
Qed.

(** A socket that takes every frame. *)
Definition takes_all (s : Channel.Socket) : Prop := ∀ fr, valid_frame fr → (send_frame fr s).1 = true.

Lemma send_all_whole b results : (send_all b results).1.1 = true → (send_all b results).1.2 = b.
Proof.
  revert b. induction results as [|n results IH]; intros [|x b]; try done. cbn [send_all]. destruct (n <=? 0); [done|].
  specialize (IH (drop (Z.to_nat n) (x :: b))). destruct (send_all _ _) as [[ok sent] rest]. cbn in *. intros ->. by rewrite IH, take_drop.
Qed.

Lemma write_whole fr k : takes_all (c_sock k) → valid_frame fr →
  ∃ s, write_frame fr k = (true, set_sock s k) ∧ s_sent s = s_sent (c_sock k) ++ encodeDaemonIpcFrame fr.
Proof.
  intros Ht Hv. specialize (Ht fr Hv). unfold write_frame, send_frame in *. pose proof (send_all_whole (encodeDaemonIpcFrame fr) (s_writes (c_sock k))) as Hw.
  destruct (send_all _ _) as [[ok sent] rest]. cbn in *. subst ok. rewrite Hw by done. by eexists.
Qed.

Definition error_frame (code : ErrorCode.DaemonIpcErrorCode) (text : string) : DaemonIpcFrame :=
  plain_frame MessageType.Error (encodeErrorPayload (mkError (ErrorCode.to_Z code) text)).

Definition short (text : string) : Prop := (String.length text < 100)%nat.

Lemma error_frame_ok code text : short text → valid_frame (error_frame code text) ∧ ∀ o, error_text (error_frame code text) o = text.
Proof.
  intros Hl. assert (Hsize : size (string_bytes text) < 100).
  { unfold size, string_bytes, short in *. rewrite length_fmap. assert (length (list_ascii_of_string text) = String.length text) as -> by (clear; induction text; cbn; congruence). lia. }
  assert (Hb : Forall is_byte (payload (error_frame code text))).
  { repeat apply Forall_app_2; try apply writeU32_bytes. apply string_bytes_are_bytes. }
  split.
  - split; [done|done|done|]. change (payload _) with (writeU32 (ErrorCode.to_Z code) ++ writeU32 (wrap32 (size (string_bytes text))) ++ string_bytes text).
    rewrite !size_app. assert (∀ v, size (writeU32 v) = 4) as Hw by done. rewrite !Hw. unfold kDaemonIpcMaxPayloadSize. lia.
  - intros o. unfold error_text. rewrite (proj2 (error_codec _ (mkError (ErrorCode.to_Z code) text) Hb)); [done|]. split; [|done].
    split; [by destruct code|]. change (size (string_bytes text) <= 65536). lia.
Qed.

(** What the client makes of the answer to a request. *)
Definition attach_answer (response : DaemonIpcFrame) : proc Client Z :=
  if is_type response MessageType.Error then client_error (error_text response "attach session failed")
  else if negb (is_type response MessageType.AttachSessionAck) then client_error "unexpected response to attach session"
  else match decodeAttachSessionAckPayload (payload response) with
       | None => client_error "invalid attach session ack payload"
       | Some ack => modify (set_port (Some (Ipc.attachedPort ack)));; mret (Ipc.attachedPort ack)
       end.

(** A client that is connected, with nothing under way, and what its reads will find. *)
Record ready_client (c : Client) (polls : list (list bytes)) : Prop := {
  rc_open : fd_ c = true;
  rc_free : attachedPort_ c = None;
  rc_buffer : readBuffer_ c = [];
  rc_writes : WError ∉ c_writes c;
  rc_waits : c_waits c = (λ cs, (poll cs, WaitMore)) <$> polls;
  rc_polls : Forall (Forall (λ b, b ≠ [])) polls
}.

Lemma flush_writes_ok results : ∀ b, WError ∉ results → (flush_writes results b).1.1.1 = true.
Proof.
  induction results as [|[n| |] results IH]; intros [|x b] Hr; try done.
  - cbn [flush_writes]. specialize (IH (drop n (x :: b))). destruct (flush_writes _ _) as [[[ok rest] sent] r]. apply IH.
    intros Hin. apply Hr. by right.
  - destruct Hr. by left.
Qed.

Lemma send_ok fr c : WError ∉ c_writes c → ∃ c', sendFrame fr c = (Ok tt, c') ∧ c_waits c' = c_waits c ∧ readBuffer_ c' = readBuffer_ c ∧ attachedPort_ c' = attachedPort_ c.
Proof.
  intros Hw. unfold sendFrame. set (c1 := set_pending (pendingWrite_ c ++ encodeDaemonIpcFrame fr) (c_writes c) (c_sent c) c).
  rewrite (proc_bind_ok _ _ c tt c1) by done. unfold flushPendingWrite. pose proof (flush_writes_ok (c_writes c1) (pendingWrite_ c1) Hw) as Hok.
  unfold mbind, proc_bind. destruct (flush_writes _ _) as [[[ok rest] sent] r]. cbn in Hok. subst ok. by eexists.
Qed.

Lemma attach_receives p c polls fr frames : ready_client c polls → Forall valid_frame (fr :: frames) →
  concat (concat polls) = stream (fr :: frames) → ∃ c1, attachSession p c = attach_answer fr c1 ∧ attachedPort_ c1 = None.
Proof.
  intros [Ho Hfree Hb Hw Hwaits Hne] Hv Hs. unfold attachSession, get. rewrite (proc_bind_ok _ _ c c c) by done. rewrite Ho, Hfree. cbn [negb].
  destruct (send_ok (client_frame MessageType.AttachSession (encodeAttachSessionPayload (mkAttach p))) c Hw) as (c1 & E & Ew & Er & Ep).
  rewrite (proc_bind_ok _ _ _ _ _ E). destruct (recv_delivers polls [] fr frames Hne Hv Hs) as (buffer & w & Erecv).
  rewrite <- Hwaits, <- Hb, <- Ew, <- Er in Erecv. exists (set_read buffer w c1). split; [|by rewrite <- Hfree].
  rewrite (proc_bind_ok _ _ c1 fr (set_read buffer w c1)); [done|].
  unfold recvFrameBlocking. by rewrite Erecv.
Qed.

Lemma attach_refused code text c : short text → (attach_answer (error_frame code text) c).1 = Throw (RuntimeError text).
Proof. intros Hl. unfold attach_answer. destruct (error_frame_ok code text Hl) as [_ He]. by rewrite He. Qed.

Definition ack_frame (port : Z) : DaemonIpcFrame := plain_frame MessageType.AttachSessionAck (encodeAttachSessionAckPayload (mkAttachAck port)).

Lemma ack_frame_valid port : valid_frame (ack_frame port).
Proof. split; [done|done|apply writeU32_bytes|by vm_compute]. Qed.

Lemma attach_accepted port c : is_u32 port → let '(r, c') := attach_answer (ack_frame port) c in r = Ok port ∧ attachedPort_ c' = Some port.
Proof.
  intros Hp. unfold attach_answer. change (is_type (ack_frame port) MessageType.Error) with false.
  change (is_type (ack_frame port) MessageType.AttachSessionAck) with true. cbn [negb].
  assert (decodeAttachSessionAckPayload (payload (ack_frame port)) = Some (mkAttachAck port)) as ->; [|done].
  pose proof payload_codecs as (_ & _ & _ & _ & Hc & _). apply Hc; [apply writeU32_bytes|done].
Qed.

(** What the server answers, on a socket that takes it: an error, or the port that the connection is attached to. *)
Lemma server_attach {W} (h : DaemonIpcHandlers W) config p k s o s' :
  handshaken k = true → attachedPort k = None → takes_all (c_sock k) →
  dispatchFrame h config (client_frame MessageType.AttachSession (encodeAttachSessionPayload (mkAttach p))) k s = (Ok o, s') →
  closeConnection o = false ∧
  ((∃ code text, short text ∧ attachedPort (after o) = None ∧ s_sent (c_sock (after o)) = s_sent (c_sock k) ++ encodeDaemonIpcFrame (error_frame code text)) ∨
   (∃ port, attachedPort (after o) = Some port ∧ s_sent (c_sock (after o)) = s_sent (c_sock k) ++ encodeDaemonIpcFrame (ack_frame port))).
Proof.
  intros Hh Hn Ht. unfold dispatchFrame. change (negb (version _ =? _)) with false. rewrite Hh. cbn [negb].
  repeat change (is_type (client_frame MessageType.AttachSession ?b) ?t) with (MessageType.to_Z MessageType.AttachSession =? MessageType.to_Z t).
  cbn [MessageType.to_Z Z.eqb Pos.eqb]. unfold dispatch_attach. rewrite Hn.
  assert (Hrefuse : ∀ code text, short text → ∀ s1, refuse_and go_on code text k s1 = (Ok o, s') → closeConnection o = false ∧
    ∃ code text, short text ∧ attachedPort (after o) = None ∧ s_sent (c_sock (after o)) = s_sent (c_sock k) ++ encodeDaemonIpcFrame (error_frame code text)).
  { intros code text Hl s1. unfold refuse_and, sendError, go_on. destruct (write_whole (error_frame code text) k Ht (proj1 (error_frame_ok code text Hl))) as (so & E & Es).
    unfold error_frame in E. rewrite E. cbn. intros [= <- _]. split; [done|]. exists code, text. by split_and!. }
  destruct (decodeAttachSessionPayload _) as [ap|]; [|intros H; apply Hrefuse in H as [? ?]; [by split; [|left]|unfold short; cbn; lia]].
  destruct (Server.attachSession h) as [attach|]; [|intros H; apply Hrefuse in H as [? ?]; [by split; [|left]|unfold short; cbn; lia]].
  intros (ch & s1 & _ & H)%proc_bind_inv. apply proc_bind_inv in H as ([st port] & s2 & _ & H).
  destruct (bool_decide (st = AttachOk)); cbn [negb] in H.
  - destruct (write_whole (ack_frame port) (set_session (Some port) (Some ch) k) Ht (ack_frame_valid port)) as (so & E & Es).
    unfold ack_frame in E. rewrite E in H. cbn in H. injection H as <- _. split; [done|]. right. by exists port.
  - apply proc_bind_inv in H as (u & s3 & _ & H). apply Hrefuse in H as [? ?]; [by split; [|left]|destruct st; unfold short; cbn; lia].
Qed.

(** C14. The console and the server agree on the session.  Take any server and handlers, a connection that has made its handshake, and the
    frame by which a client asks for a session.  If the server comes to the end of serving it, and the bytes of its answer
    reach the client, cut in any way and after any number of polls, then the connection stays open and either
    both sides hold that the client is attached, to the same port, or neither does and the client fails with the server's message. *)
Theorem attach_agrees {W} (h : DaemonIpcHandlers W) config p k s o s' c polls :
  handshaken k = true → attachedPort k = None → takes_all (c_sock k) →
  dispatchFrame h config (client_frame MessageType.AttachSession (encodeAttachSessionPayload (mkAttach p))) k s = (Ok o, s') →
  (∀ port, attachedPort (after o) = Some port → is_u32 port) →
  ready_client c polls → s_sent (c_sock (after o)) = s_sent (c_sock k) ++ concat (concat polls) →
  closeConnection o = false ∧
  let '(r, c') := attachSession p c in
  match attachedPort (after o) with
  | Some port => r = Ok port ∧ attachedPort_ c' = Some port
  | None => (∃ code text, r = Throw (RuntimeError text) ∧ concat (concat polls) = encodeDaemonIpcFrame (error_frame code text)) ∧ attachedPort_ c' = None
  end.
Proof.
  intros Hh Hn Ht Hserve Hport Hc Harrive. destruct (server_attach h config p k s o s' Hh Hn Ht Hserve) as [Hopen Hanswer]. split; [done|].
  assert (Hstream : ∀ fr, s_sent (c_sock (after o)) = s_sent (c_sock k) ++ encodeDaemonIpcFrame fr → concat (concat polls) = stream [fr]).
  { intros fr E. rewrite E in Harrive. apply app_inv_head in Harrive. unfold stream. cbn. by rewrite app_nil_r. }
  destruct Hanswer as [(code & text & Hl & En & Es)|(port & Ep & Es)].
  - rewrite En. destruct (error_frame_ok code text Hl) as [Hv _].
    destruct (attach_receives p c polls _ [] Hc (Forall_cons_2 _ _ _ Hv (Forall_nil_2 _)) (Hstream _ Es)) as (c1 & -> & E1).
    pose proof (attach_refused code text c1 Hl) as Hr. unfold attach_answer in *. change (is_type (error_frame code text) MessageType.Error) with true in *.
    cbn in Hr |- *. injection Hr as Hr. rewrite Hr. split; [|done]. exists code, text. split; [done|]. rewrite (Hstream _ Es). unfold stream. cbn. by rewrite app_nil_r.
  - rewrite Ep. destruct (attach_receives p c polls _ [] Hc (Forall_cons_2 _ _ _ (ack_frame_valid port) (Forall_nil_2 _)) (Hstream _ Es)) as (c1 & -> & E1).
    by apply attach_accepted, Hport.
Qed.

(** A server whose only free session has the port 7; the acknowledgement arrives in two pieces. *)
Definition ex_handlers : DaemonIpcHandlers unit := mkHandlers unit None (Some (λ _ _, mret (AttachOk, 7))) None None (λ _, mret tt).
Definition ex_connection : Connection := mkConnection 4 true [] None None (mkSocket [1000000] []).
Definition ex_ack : bytes := encodeDaemonIpcFrame (ack_frame 7).

Lemma ex_takes_all : takes_all (c_sock ex_connection).
Proof.
  intros fr Hv. unfold send_frame, ex_connection. cbn [c_sock s_writes]. pose proof (size_encode fr Hv) as Hs. destruct Hv as [_ _ _ Hp].
  unfold kDaemonIpcMaxPayloadSize, size in *. destruct (encodeDaemonIpcFrame fr) as [|x b]; [done|]. cbn [send_all].
  change (1000000 <=? 0) with false. cbv iota. rewrite drop_ge by (cbn [length] in *; lia). done.
Qed.

Lemma attach_agrees_witness :
  let c := mkClient true [] [] None false [] [(poll [take 5 ex_ack], WaitMore); (poll [drop 5 ex_ack], WaitMore)] (FromFd []) [] [] [] in
  let '(r, c') := attachSession 0 c in r = Ok 7 ∧ attachedPort_ c' = Some 7.
Proof.
  set (fr := client_frame MessageType.AttachSession (encodeAttachSessionPayload (mkAttach 0))). cbv zeta.
  set (c := mkClient _ _ _ _ _ _ _ _ _ _ _).
  destruct (dispatchFrame ex_handlers (mkServerConfig 4 "1.0") fr ex_connection (mkShared ∅ tt)) as [[o|e|w] s'] eqn:E; [|by vm_compute in E..].
  destruct (attach_agrees ex_handlers (mkServerConfig 4 "1.0") 0 ex_connection (mkShared ∅ tt) o s' c [[take 5 ex_ack]; [drop 5 ex_ack]]) as [_ H].
  - done.
  - done.
  - exact ex_takes_all.
  - exact E.
  - vm_compute in E. injection E as <- _. by intros port [= <-].
  - split; [done|done|done|by apply not_elem_of_nil|done|]. constructor; [constructor; [by vm_compute|constructor]|]. constructor; [constructor; [by vm_compute|constructor]|constructor].
  - vm_compute in E. injection E as <- _. by vm_compute.
  - destruct (attachSession 0 c) as [r c']. vm_compute in E. by injection E as <- _.
Defined.

(** ** What goes wrong

    More than 4096 characters of a stream that is not the terminal do not fit the array. *)
Example long_input : (pump_input false false (mkClient true [] [] (Some 1) false [] [] (FromStream (replicate 5000 65)) [] [] [])).1 =
  Undefined "write past the end of an array".
Proof. vm_compute. reflexivity. Qed.

(** Output that arrives together with the hang-up is not shown. *)
Example last_words_lost :
  let '(r, c') := runIoPump [Polls (mkPolled 1 true false true false [poll [stream (data_frame <$> ex_data)]] false)] (ex_client []) in
  r = Ok (Some 0) ∧ c_out c' = [].
Proof. vm_compute. done. Qed.

(** While a frame is awaited nothing is written: a request that did not fit is never sent. *)
Example request_stuck :
  (detachSession (mkClient true [] [] (Some 1) false [WTook 5; WAgain; WTook 100] [(poll [], WaitMore); (poll [], WaitMore)] (FromFd []) [] [] [])).1 =
  Undefined "blocked".
Proof. vm_compute. reflexivity. Qed.
