(* ===== verification/Modules.v ===== *)
(** * Language modules

    [LanguageModuleLoader.cpp], which opens the shared libraries of a directory and has them register their
    functions, and the modules, among them [gemini-hostfs], whose functions work on the streams of HostStreams.v.
    What [dlopen] and [dlsym] answer, and the calls on open files, are arguments. *)

From Stdlib Require Import Ascii String.
From S2P Require Import Prelude CLib Words HostStreams Dbl Bytecode Values Registry Session Help.
From stdpp Require Import options.
Local Open Scope Z_scope.

(** ** The loader *)

(** Opening a library: an error, no function [register_language], or what that function does. *)
Inductive module_file := NotOpened (detail : string) | NoSymbol (detail : string) | Registers (register : proc LanguageRegistry unit).

(** An entry of the directory: is it a regular file. *)
Record ModulesDir := mkModulesDir { md_is_directory : bool; md_entries : list (string * bool); md_open : string → module_file }.

(** [path::extension]: from the last dot; a dot at the beginning does not count. *)
Fixpoint last_dot (s : string) : option string :=
  match s with
  | "" => None
  | String c s' => match last_dot s' with Some e => Some e | None => if Ascii.eqb c "." then Some s else None end
  end.

Definition extension (name : string) : string :=
  match name with "" => "" | String _ rest => if String.eqb name ".." then "" else default "" (last_dot rest) end.

(* src/core/languages/LanguageModuleLoader.cpp:86-96 [isSharedLibraryFile] *)
Definition isSharedLibraryFile (name : string) : bool := let e := extension name in String.eqb e ".so" || String.eqb e ".dylib".

(* src/core/languages/LanguageModuleLoader.cpp:98-116 [listModuleFiles] *)
Definition listModuleFiles (d : ModulesDir) : list string :=
  merge_sort str_leq (filter (λ n, isSharedLibraryFile n = true) ((filter (λ e, e.2 = true) (md_entries d)).*1)).

(* src/core/languages/LanguageModuleLoader.h:11-15 [LanguageModuleLoadReport] *)
Record LanguageModuleLoadReport := mkLoadReport { l_attempted : Z; l_loaded : Z; l_failed : Z }.

(** The registry, the boot log, the report, the names of the libraries that stay open, and the log. *)
Record Loading := mkLoading {
  ld_registry : LanguageRegistry; ld_boot : LanguageModuleBootLog; ld_report : LanguageModuleLoadReport;
  ld_retained : list string; ld_log : list string }.

Definition log_line (line : string) (x : Loading) : Loading :=
  mkLoading (ld_registry x) (ld_boot x) (ld_report x) (ld_retained x) (ld_log x ++ [line]).

Definition module_failed (name detail : string) (x : Loading) : Loading :=
  let r := ld_report x in
  mkLoading (ld_registry x) (append_boot name false detail (ld_boot x)) (mkLoadReport (l_attempted r + 1) (l_loaded r) (l_failed r + 1))
    (ld_retained x) (ld_log x ++ ["MODULE " +:+ name +:+ ": (" +:+ detail +:+ ")"]).

Definition module_loaded (name : string) (x : Loading) : Loading :=
  let r := ld_report x in
  mkLoading (ld_registry x) (append_boot name true "" (ld_boot x)) (mkLoadReport (l_attempted r + 1) (l_loaded r + 1) (l_failed r))
    (ld_retained x ++ [name]) (ld_log x ++ ["MODULE " +:+ name +:+ ": OK"]).

Definition set_registry (r : LanguageRegistry) (x : Loading) : Loading :=
  mkLoading r (ld_boot x) (ld_report x) (ld_retained x) (ld_log x).

(** One file.  What it registered before it threw stays registered. *)
(* src/core/languages/LanguageModuleLoader.cpp:143-179 [loadLanguageModules] *)
Definition load_module (open : string → module_file) (name : string) : proc Loading unit := λ x,
  match open name with
  | NotOpened detail | NoSymbol detail => (Ok tt, module_failed name detail x)
  | Registers register =>
      let '(o, r) := register (ld_registry x) in
      let x := set_registry r x in
      match o with
      | Ok _ => (Ok tt, module_loaded name x)
      | Throw e => match what e with Some w => (Ok tt, module_failed name w x) | None => (Throw e, x) end
      | Undefined w => (Undefined w, x)
      end
  end.

Fixpoint load_all (open : string → module_file) (names : list string) : proc Loading unit :=
  match names with
  | [] => mret tt
  | n :: names' => load_module open n;; load_all open names'
  end.

(** The libraries retained by earlier calls are not part of the result. *)
(* src/core/languages/LanguageModuleLoader.cpp:124-189 [loadLanguageModules] *)
Definition loadLanguageModules (d : ModulesDir) (registry : LanguageRegistry) : outcome unit * Loading :=
  let x := mkLoading registry clear_boot_log (mkLoadReport 0 0 0) [] [] in
  if negb (md_is_directory d) then (Ok tt, set_registry (freeze registry) (log_line "MODULES: (skip — directory not present)" x))
  else
    (load_all (md_open d) (listModuleFiles d);;
     modify (λ x, let r := ld_report x in
       if 0 <? l_attempted r
       then log_line ("MODULES: " +:+ to_string (l_loaded r) +:+ " loaded, " +:+ to_string (l_failed r) +:+ " failed (" +:+
                      to_string (l_attempted r) +:+ " attempted)") x
       else x);;
     modify (λ x, set_registry (freeze (ld_registry x)) x))
    (log_line "LOADING LANGUAGE MODULES..." x).

(** ** The modules

    A module without functions; one whose function answers with a text. *)
Definition empty_module (id : Z) (name : string) : LanguageNamespaceDescriptor := mkDescriptor id (mkMeta name "1") [] None.

(* modules/gemini-pascal/PascalModule.cpp:7-13 [register_language] *)
Definition pascal_module : LanguageNamespaceDescriptor := empty_module 3 "pascal".
(* modules/gemini-comal/ComalModule.cpp:7-13 [register_language] *)
Definition comal_module : LanguageNamespaceDescriptor := empty_module 4 "comal".
(* modules/gemini-cobol/CobolModule.cpp:7-13 [register_language] *)
Definition cobol_module : LanguageNamespaceDescriptor := empty_module 5 "cobol".

(* modules/gemini-stub/StubModule.cpp:16-25 [register_language] *)
Definition stub_module : LanguageNamespaceDescriptor :=
  mkDescriptor 256 (mkMeta "stub" "1") [mkEntry_ 0 (Some (λ _, fpush (VStr "stub-ok")))] None.

(** *** Mathematics

    The square root is that of IEEE 754; [m_atan]: [std::atan]. *)
Section math.
Context (m_atan : double → double).

Definition d_sqrt : double → double := SpecFloat.SFsqrt prec64 emax64.

(* modules/gemini-math/MathModule.cpp:17-35 [coerceToDouble] *)
Definition mathCoerceToDouble (v : Value) : double :=
  match v with
  | VInt n => d_of_Z n
  | VDbl d => d
  | VStr s => if str_empty s then d_zero else match strtod s with Some (n, false, _) => n | _ => d_zero end
  end.

(* modules/gemini-math/MathModule.cpp:43-49 [handlerSqrt] *)
Definition mathSqrt : LanguageFunctionFn := λ _,
  v ← fpop;
  let x := mathCoerceToDouble v in
  if d_ltb x d_zero then ffail "MATH: SQRT domain" else fpush (VDbl (d_sqrt x)).

(* modules/gemini-math/MathModule.cpp:51-65 [handlerSin, handlerCos, handlerTan, handlerArctan] *)
Definition math_of (f : Platform → double → double) : LanguageFunctionFn := λ cx,
  v ← fpop; fpush (VDbl (f (hc_platform cx) (mathCoerceToDouble v))).

(* modules/gemini-math/MathModule.cpp:67-73 [handlerLn] *)
Definition mathLn : LanguageFunctionFn := λ cx,
  v ← fpop;
  let x := mathCoerceToDouble v in
  if d_leb x d_zero then ffail "MATH: LN domain" else fpush (VDbl (m_log (hc_platform cx) x)).

(* modules/gemini-math/MathModule.cpp:80-96 [register_language] *)
Definition math_module : LanguageNamespaceDescriptor :=
  mkDescriptor 6 (mkMeta "math" "1")
    (mkEntry_ 1 ∘ Some <$> [mathSqrt; math_of m_sin; math_of m_cos; math_of m_tan; math_of (λ _, m_atan); mathLn; math_of m_exp]) None.
End math.

(** ** The module of host files

    Its functions work on the machine's stack and on the streams that the machine was given, if any. *)

(** [requireHostFs] comes first in every one. *)
(* modules/gemini-hostfs/HostFsModule.cpp:26-32 [requireHostFs] *)
Definition requireHostFs : proc FnState unit :=
  m ← get; match o_files (fn_outside m) with Some _ => mret tt | None => throw (RuntimeError "HOSTFS: unbound") end.

Definition on_host_files {A} (f : proc HostFiles A) : proc FnState A := λ m,
  match o_files (fn_outside m) with
  | None => (Undefined "no host files", m)
  | Some x => let '(a, x') := f x in (a, mkFnState (fn_stack m) (mkOutside (o_rng (fn_outside m)) (Some x')))
  end.

(* modules/gemini-hostfs/HostFsModule.cpp:34-39 [requireString] *)
Definition requireString (v : Value) : proc FnState string :=
  match v with VStr s => mret s | _ => throw (RuntimeError "HOSTFS: invalid path") end.

(* modules/gemini-hostfs/HostFsModule.cpp:41-49 [requireInt] *)
Definition requireInt (v : Value) : proc FnState Z :=
  match v with VInt n => mret n | VDbl d => lift (d_to_int d) | VStr _ => throw (RuntimeError "HOSTFS: bad handle") end.

Definition handle_open (open : FileHost Z Z → string → proc HostFiles Z) : LanguageFunctionFn := λ cx,
  requireHostFs;; v ← fpop; path ← requireString v; h ← on_host_files (open (host_files (hc_platform cx)) path); fpush (VInt h).

(* modules/gemini-hostfs/HostFsModule.cpp:51-55 [handlerOpenRead] *)
Definition handlerOpenRead : LanguageFunctionFn := handle_open openRead.
(* modules/gemini-hostfs/HostFsModule.cpp:57-61 [handlerOpenWrite] *)
Definition handlerOpenWrite : LanguageFunctionFn := handle_open openWrite.
(* modules/gemini-hostfs/HostFsModule.cpp:63-67 [handlerOpenAppend] *)
Definition handlerOpenAppend : LanguageFunctionFn := handle_open openAppend.

(* modules/gemini-hostfs/HostFsModule.cpp:69-75 [handlerRead] *)
Definition handlerRead : LanguageFunctionFn := λ cx,
  requireHostFs;; v ← fpop; maxBytes ← requireInt v; v ← fpop; handle ← requireInt v;
  data ← on_host_files (HostStreams.read (host_files (hc_platform cx)) handle maxBytes); fpush (VStr data).

(* modules/gemini-hostfs/HostFsModule.cpp:77-86 [handlerWrite] *)
Definition handlerWrite : LanguageFunctionFn := λ cx,
  requireHostFs;; dataVal ← fpop; v ← fpop; handle ← requireInt v;
  match dataVal with
  | VStr data => n ← on_host_files (HostStreams.write (host_files (hc_platform cx)) handle data); fpush (VInt n)
  | _ => throw (RuntimeError "HOSTFS: write failed")
  end.

(* modules/gemini-hostfs/HostFsModule.cpp:88-93 [handlerClose] *)
Definition handlerClose : LanguageFunctionFn := λ cx,
  requireHostFs;; v ← fpop; handle ← requireInt v; on_host_files (HostStreams.close (host_files (hc_platform cx)) handle);; fpush (VInt 0).

(* modules/gemini-hostfs/HostFsModule.cpp:96-111 [register_language] *)
Definition hostfs_module : LanguageNamespaceDescriptor :=
  mkDescriptor 7 (mkMeta "hostfs" "1")
    [mkEntry_ 1 (Some handlerOpenRead); mkEntry_ 1 (Some handlerOpenWrite); mkEntry_ 1 (Some handlerOpenAppend);
     mkEntry_ 2 (Some handlerRead); mkEntry_ 2 (Some handlerWrite); mkEntry_ 1 (Some handlerClose)] None.

(** ** What the loader does *)

#[global] Instance str_leq_antisymm : AntiSymm (=) str_leq.
Proof.
  intros a b. rewrite !str_leq_lt. intros [H1| ->] [H2|E]; try done. exfalso. apply (str_lt_irrefl a). by eapply str_lt_trans.
Qed.

Lemma listModuleFiles_perm d d' : md_entries d ≡ₚ md_entries d' → listModuleFiles d = listModuleFiles d'.
Proof.
  intros H. unfold listModuleFiles. apply (StronglySorted_unique str_leq); try apply (StronglySorted_merge_sort _).
  rewrite !merge_sort_Permutation. by rewrite H.
Qed.

(** The log of the boot and the report agree, file by file. *)
Record consistent (x : Loading) : Prop := {
  c_attempted : attemptedCount (ld_boot x) = l_attempted (ld_report x);
  c_loaded : loadedCount (ld_boot x) = l_loaded (ld_report x);
  c_failed : failedCount (ld_boot x) = l_failed (ld_report x);
  c_entries : l_attempted (ld_report x) = Z.of_nat (length (entries (ld_boot x)));
  c_retained : b_fileName <$> filter (λ e, b_loaded e = true) (entries (ld_boot x)) = ld_retained x;
  c_sum : l_loaded (ld_report x) = Z.of_nat (length (ld_retained x)) ∧ l_attempted (ld_report x) = l_loaded (ld_report x) + l_failed (ld_report x)
}.

Lemma consistent_failed n detail x : consistent x → consistent (module_failed n detail x).
Proof.
  intros [H1 H2 H3 H4 H5 [H6 H7]]. split; cbn; rewrite ?filter_app, ?filter_cons_False, ?filter_nil, ?app_nil_r, ?length_app; cbn; try done; lia.
Qed.

Lemma consistent_loaded n x : consistent x → consistent (module_loaded n x).
Proof.
  intros [H1 H2 H3 H4 H5 [H6 H7]]. split; cbn; rewrite ?filter_app, ?filter_cons_True, ?filter_nil, ?fmap_app, ?length_app; cbn; try done; try lia.
  by rewrite H5.
Qed.

Section loading.
Context (open : string → module_file) (desc : string → option LanguageNamespaceDescriptor).

(** A library that can be opened registers one namespace, without a hook. *)
Definition described : Prop := ∀ n,
  match desc n with
  | Some d => open n = Registers (registerNamespace d) ∧ d_onInit d = None
  | None => ∃ t, open n = NotOpened t ∨ open n = NoSymbol t
  end.

Definition registered (d : LanguageNamespaceDescriptor) : RegisteredNamespace := mkRegistered (d_metadata d) (d_functions d).

(** The namespace [id] is what it was before, or that of the first file with one. *)
Definition first_of (before : gmap Z RegisteredNamespace) (files : list string) (id : Z) : option RegisteredNamespace :=
  match before !! id with
  | Some old => Some old
  | None => (λ p, registered p.2) <$> list_find (λ d, d_id d = id) (omap desc files)
  end.

(** The libraries that stay open are those whose namespace is in the registry. *)
Definition in_use (x : Loading) (n : string) : Prop :=
  ∃ d, desc n = Some d ∧ namespaces (ld_registry x) !! d_id d = Some (registered d).

Context (Hdesc : described).

(** One file. *)
Lemma load_step n x : frozen (ld_registry x) = false → consistent x → Forall (in_use x) (ld_retained x) →
  ∃ x', load_module open n x = (Ok tt, x') ∧ frozen (ld_registry x') = false ∧ consistent x' ∧ Forall (in_use x') (ld_retained x') ∧
    b_fileName <$> entries (ld_boot x') = (b_fileName <$> entries (ld_boot x)) ++ [n] ∧
    ∀ id, namespaces (ld_registry x') !! id = first_of (namespaces (ld_registry x)) [n] id.
Proof using Hdesc.
  intros Hf Hc Hu. specialize (Hdesc n). unfold load_module.
  assert (Hbad : ∀ detail, desc n = None ∨ (∃ d old, desc n = Some d ∧ namespaces (ld_registry x) !! d_id d = Some old) →
    ∃ x', (Ok tt, module_failed n detail x) = (Ok tt, x') ∧ frozen (ld_registry x') = false ∧ consistent x' ∧ Forall (in_use x') (ld_retained x') ∧
    b_fileName <$> entries (ld_boot x') = (b_fileName <$> entries (ld_boot x)) ++ [n] ∧
    ∀ id, namespaces (ld_registry x') !! id = first_of (namespaces (ld_registry x)) [n] id).
  { intros detail Hn. eexists. split; [reflexivity|]. split_and!; [done|by apply consistent_failed|done|cbn; by rewrite fmap_app|].
    intros id. unfold first_of. cbn. destruct (namespaces (ld_registry x) !! id) as [old|] eqn:E; [done|].
    destruct Hn as [-> |(d & old & -> & Ed)]; [done|]. cbn. rewrite decide_False; [done|]. intros <-. congruence. }
  destruct (desc n) as [d|] eqn:Ed; [|destruct Hdesc as [t [-> | ->]]; apply Hbad; by left].
  destruct Hdesc as [-> Hinit]. unfold registerNamespace. rewrite Hf. destruct (namespaces (ld_registry x) !! d_id d) as [old|] eqn:E.
  - cbn [what lang_error]. replace (set_registry (ld_registry x) x) with x by (by destruct x). apply Hbad. right. by eexists _, _.
  - rewrite Hinit. cbn [default]. set (r := mkRegistry _ false). eexists. split; [reflexivity|]. split_and!; [done| | |cbn; by rewrite fmap_app|].
    + apply consistent_loaded. destruct Hc. by split.
    + assert (Hmono : ∀ m, in_use x m → in_use (module_loaded n (set_registry r x)) m).
      { intros m (d' & Ed' & El). exists d'. split; [done|]. cbn. rewrite lookup_insert_ne; [done|]. congruence. }
      cbn. apply Forall_app_2; [by eapply Forall_impl|]. constructor; [|constructor]. exists d. split; [done|]. cbn. by rewrite lookup_insert_eq.
    + intros id. unfold first_of. cbn. rewrite Ed. cbn. destruct (decide (d_id d = id)) as [<-|Hne]; [by rewrite lookup_insert_eq, E|].
      rewrite lookup_insert_ne by done. by destruct (_ !! id).
Qed.

Lemma load_all_spec files : ∀ x, frozen (ld_registry x) = false → consistent x → Forall (in_use x) (ld_retained x) →
  ∃ x', load_all open files x = (Ok tt, x') ∧ frozen (ld_registry x') = false ∧ consistent x' ∧ Forall (in_use x') (ld_retained x') ∧
    b_fileName <$> entries (ld_boot x') = (b_fileName <$> entries (ld_boot x)) ++ files ∧
    ∀ id, namespaces (ld_registry x') !! id = first_of (namespaces (ld_registry x)) files id.
Proof using Hdesc.
  induction files as [|n files IH]; intros x Hf Hc Hu; cbn [load_all].
  - exists x. rewrite app_nil_r. split_and!; try done. intros id. unfold first_of. by destruct (_ !! id).
  - destruct (load_step n x Hf Hc Hu) as (x1 & E & F1 & C1 & U1 & N1 & L1). rewrite (proc_bind_ok _ _ _ _ _ E).
    destruct (IH x1 F1 C1 U1) as (x' & E' & F' & C' & U' & N' & L'). exists x'. split_and!; try done; [by rewrite N', N1, <- app_assoc|].
    intros id. rewrite L'. unfold first_of at 1. rewrite L1. unfold first_of. destruct (namespaces (ld_registry x) !! id) as [old|]; [done|].
    cbn. destruct (desc n) as [d|]; [|done]. cbn. destruct (decide (d_id d = id)) as [He|He]; [done|]. by destruct (list_find _ _) as [[]|].
Qed.
End loading.

(** C31. The loader takes the libraries of a directory in the order of their names, whatever order the directory lists them in, and the first to
    register a namespace has it.  When each library that can be opened registers one namespace, loading returns and leaves the registry frozen, with
    the namespaces it had before and, for every other number, that of the first file which registers it; a library that cannot be opened,
    has no entry point, or comes late is counted as failed and changes nothing.  Report and boot log agree with each other and with the
    list of files, and every library that stays open has its functions in the registry. *)
Theorem modules_load_in_order (d d' : ModulesDir) (desc : string → option LanguageNamespaceDescriptor) (r : LanguageRegistry) :
  described (md_open d) desc → frozen r = false → md_is_directory d = true →
  md_is_directory d' = true → md_open d' = md_open d → md_entries d' ≡ₚ md_entries d →
  let files := listModuleFiles d in
  let '(o, x) := loadLanguageModules d r in
  o = Ok tt ∧ frozen (ld_registry x) = true ∧ consistent x ∧ b_fileName <$> entries (ld_boot x) = files ∧
  (∀ id, namespaces (ld_registry x) !! id = first_of desc (namespaces r) files id) ∧
  Forall (in_use desc x) (ld_retained x) ∧
  loadLanguageModules d' r = loadLanguageModules d r.
Proof.
  intros Hdesc Hf Hd Hd' Ho Hp. cbv zeta. assert (Hperm : loadLanguageModules d' r = loadLanguageModules d r).
  { unfold loadLanguageModules. by rewrite Hd, Hd', Ho, (listModuleFiles_perm d' d Hp). }
  rewrite Hperm. clear Hperm. unfold loadLanguageModules. rewrite Hd. cbn [negb].
  set (x0 := log_line _ _). destruct (load_all_spec (md_open d) desc Hdesc (listModuleFiles d) x0 Hf) as (x1 & E & F & C & U & N & L);
    [by split|constructor|].
  rewrite (proc_bind_ok _ _ _ _ _ E). unfold mbind, proc_bind, modify. destruct C as [C1 C2 C3 C4 C5 C6].
  split_and!; try done; by destruct (0 <? _).
Qed.

(** Four files, one of which is no library; the second cannot be opened, and the third has the namespace of the first. *)
Definition ex_desc (n : string) : option LanguageNamespaceDescriptor :=
  if String.eqb n "a.so" then Some stub_module else if String.eqb n "c.so" then Some (empty_module 256 "late") else None.

Definition ex_open (n : string) : module_file :=
  match ex_desc n with Some d => Registers (registerNamespace d) | None => NotOpened "no such file" end.

Lemma modules_load_in_order_witness :
  let d := mkModulesDir true [("c.so", true); ("a.so", true); ("notes.txt", true); ("b.dylib", true)] ex_open in
  let x := (loadLanguageModules d emptyRegistry).2 in
  ld_report x = mkLoadReport 3 1 2 ∧ namespaces (ld_registry x) !! 256 = Some (registered stub_module) ∧
  ld_log x = ["LOADING LANGUAGE MODULES..."; "MODULE a.so: OK"; "MODULE b.dylib: (no such file)"; "MODULE c.so: (LANG: duplicate namespace (256))";
              "MODULES: 1 loaded, 2 failed (3 attempted)"].
Proof.
  cbv zeta. set (d := mkModulesDir _ _ _).
  pose proof (modules_load_in_order d d ex_desc emptyRegistry) as H. cbv zeta in H.
  assert (Hd : described ex_open ex_desc).
  { intros n. unfold ex_open. destruct (ex_desc n) as [k|] eqn:E; [|by exists "no such file"; left]. split; [done|].
    unfold ex_desc in E. repeat case_match; by simplify_eq. }
  specialize (H Hd eq_refl eq_refl eq_refl eq_refl (Permutation_refl _)).
  destruct (loadLanguageModules d emptyRegistry) as [o x] eqn:E. destruct H as (_ & _ & _ & _ & H & _). cbn [snd].
  rewrite (H 256). split; [|split; [by vm_compute|]]; apply (f_equal snd) in E; cbn [snd] in E; by rewrite <- E; vm_compute.
Defined.


(** ** Handles

    The calls on streams. *)
Inductive file_op := OpOpen (mode : open_mode) (path : string) | OpRead (handle n : Z) | OpWrite (handle : Z) (data : string) | OpClose (handle : Z).

Section handles.
Context {H B : Type} (host : FileHost H B).
Implicit Types x : @HostFiles H B.

Definition open_with (mode : open_mode) : string → proc HostFiles Z :=
  match mode with InMode => openRead host | OutMode => openWrite host | AppMode => openAppend host end.

Definition run_file_op (o : file_op) : proc HostFiles Value :=
  match o with
  | OpOpen mode p => h ← open_with mode p; mret (VInt h)
  | OpRead h n => s ← read host h n; mret (VStr s)
  | OpWrite h s => n ← write host h s; mret (VInt n)
  | OpClose h => close host h;; mret (VInt 0)
  end.

(** What a call may answer and change.  [on h]: the call names the handle [h]. *)
Definition op_handle (o : file_op) : option Z :=
  match o with OpOpen _ _ => None | OpRead h _ | OpWrite h _ | OpClose h => Some h end.

Definition others_kept (h : Z) x x' : Prop := ∀ h', h' ≠ h → slot_of h' x' = slot_of h' x.

Definition table_contract (o : file_op) x (r : outcome Value * HostFiles) : Prop :=
  match op_handle o with
  | None =>
      match r.1 with
      | Ok v => ∃ h b, v = VInt h ∧ 1 ≤ h ∧ slot_of h x = None ∧ slot_of h r.2 = Some (mkStream b false false false) ∧ others_kept h x r.2
      | Throw _ => slots_ r.2 = slots_ x
      | Undefined _ => False
      end
  | Some h =>
      match slot_of h x with
      | None => r = (Throw (RuntimeError "HOSTFS: bad handle"), x)
      | Some _ =>
          others_kept h x r.2 ∧ (slot_of h r.2 = None ↔ ∃ h', o = OpClose h') ∧
          match r.1 with Undefined _ => False | _ => True end
      end
  end.

Lemma slot_of_lookup (h : Z) x : slot_of h x = if decide (1 ≤ h) then mjoin (slots_ x !! Z.to_nat (h - 1)) else None.
Proof.
  unfold slot_of. destruct (Z.ltb_spec h 1); cbn; [by rewrite decide_False by lia|]. rewrite decide_True by lia.
  destruct (Z.ltb_spec (Z.of_nat (length (slots_ x))) h); [|done]. by rewrite lookup_ge_None_2 by lia.
Qed.

Lemma slot_of_bound (h : Z) x s : slot_of h x = Some s → 1 ≤ h ∧ (Z.to_nat (h - 1) < length (slots_ x))%nat.
Proof.
  rewrite slot_of_lookup. destruct (decide _); [|done]. destruct (slots_ x !! _) as [c|] eqn:E; [|done]. intros _.
  split; [done|]. by eapply lookup_lt_Some.
Qed.

Lemma set_slot_at (h : Z) (s : Stream) c hs x : slot_of h x = Some s → slot_of h (set_slot h c hs x) = c.
Proof.
  intros [? ?]%slot_of_bound. rewrite slot_of_lookup, decide_True by done. cbn. by rewrite list_lookup_insert_eq.
Qed.

Lemma set_slot_others (h : Z) c hs x : others_kept h x (set_slot h c hs x) ∨ h < 1.
Proof.
  destruct (decide (1 ≤ h)); [left|right; lia]. intros h' Hh. rewrite !slot_of_lookup. destruct (decide (1 ≤ h')); [|done]. cbn.
  by rewrite list_lookup_insert_ne by lia.
Qed.

Lemma set_slot_kept (h : Z) (s : Stream) c hs x : slot_of h x = Some s → others_kept h x (set_slot h c hs x).
Proof. intros [? _]%slot_of_bound. destruct (set_slot_others h c hs x); [done|lia]. Qed.

Lemma first_free_none (l : list (option (@Stream B))) : mjoin (l !! first_free l) = None ∧ (first_free l ≤ length l)%nat.
Proof. induction l as [|[s|] l [IH ?]]; cbn; try done; [split; [done|lia]..]. Qed.

Lemma allocateHandle_fresh (s : Stream) x : ∃ h x', allocateHandle s x = (Ok h, x') ∧ 1 ≤ h ∧ slot_of h x = None ∧ slot_of h x' = Some s ∧
  others_kept h x x'.
Proof.
  destruct (first_free_none (slots_ x)) as [E L]. set (i := first_free _) in *. unfold allocateHandle. fold i.
  eexists _, _. split; [reflexivity|]. split; [lia|]. rewrite !slot_of_lookup, !decide_True by lia.
  replace (Z.to_nat (Z.of_nat i + 1 - 1)) with i by lia. split; [done|]. destruct (bool_decide_reflect (i < length (slots_ x))%nat).
  - split; [by cbn; rewrite list_lookup_insert_eq|]. intros h' Hh. rewrite !slot_of_lookup. destruct (decide _); [|done].
    cbn. by rewrite list_lookup_insert_ne by lia.
  - assert (i = length (slots_ x)) as Hi by lia. split; [cbn; by rewrite Hi, list_lookup_middle|].
    intros h' Hh. rewrite !slot_of_lookup. destruct (decide (1 ≤ h')); [|done]. cbn.
    destruct (decide (Z.to_nat (h' - 1) < length (slots_ x))%nat); [by rewrite lookup_app_l|].
    rewrite !lookup_ge_None_2; [done|lia|]. rewrite length_app. cbn. lia.
Qed.

Lemma open_file_contract mode path x :
  let r := open_file host mode path x in
  match r.1 with
  | Ok h => ∃ b, 1 ≤ h ∧ slot_of h x = None ∧ slot_of h r.2 = Some (mkStream b false false false) ∧ others_kept h x r.2
  | Throw _ => slots_ r.2 = slots_ x
  | Undefined _ => False
  end.
Proof.
  cbv zeta. unfold open_file. destruct (fb_open host mode path (h_host x)) as [[b|] h]; [|done].
  destruct (allocateHandle_fresh (mkStream b false false false) (mkHostFiles (slots_ x) h)) as (i & x' & -> & H1 & H2 & H3 & H4).
  by exists b.
Qed.

Lemma open_contract mode path x :
  let r := open_with mode path x in
  match r.1 with
  | Ok h => ∃ b, 1 ≤ h ∧ slot_of h x = None ∧ slot_of h r.2 = Some (mkStream b false false false) ∧ others_kept h x r.2
  | Throw _ => slots_ r.2 = slots_ x
  | Undefined _ => False
  end.
Proof.
  cbv zeta. destruct mode; cbn [open_with]; unfold openRead, openWrite, openAppend; (destruct (str_empty path); [done|]); try apply open_file_contract.
  unfold mbind, proc_bind, get. destruct (negb _); [done|]. apply (open_file_contract InMode).
Qed.

(** The two ways a call on a handle changes the table: the slot gets its stream back, or nothing. *)
Lemma slot_kept (h : Z) (s s' : Stream) hs x : slot_of h x = Some s →
  others_kept h x (set_slot h (Some s') hs x) ∧ slot_of h (set_slot h (Some s') hs x) ≠ None.
Proof. intros E. split; [by eapply set_slot_kept|by erewrite set_slot_at]. Qed.

Lemma set_slot_twice (h : Z) c c' hs hs' x : set_slot h c hs (set_slot h c' hs' x) = set_slot h c hs x.
Proof. unfold set_slot. cbn. by rewrite list_insert_insert_eq. Qed.

Lemma read_contract h n (s : Stream) x : slot_of h x = Some s →
  let r := read host h n x in
  others_kept h x r.2 ∧ slot_of h r.2 ≠ None ∧ match r.1 with Undefined _ => False | _ => True end.
Proof.
  intros E. cbv zeta. unfold read, requireSlot, gets, mbind, proc_bind. rewrite E. destruct (n <=? 0); cbn; [by rewrite E|].
  destruct (stream_read _ _ _ _) as [[got s'] hs]. destruct (s_bad s'); cbn; (split_and!; [eapply slot_kept, E|eapply slot_kept, E|done]).
Qed.

Lemma write_contract h data (s : Stream) x : slot_of h x = Some s →
  let r := write host h data x in
  others_kept h x r.2 ∧ slot_of h r.2 ≠ None ∧ match r.1 with Undefined _ => False | _ => True end.
Proof.
  intros E. cbv zeta. unfold write, requireSlot, gets, mbind, proc_bind. rewrite E. destruct (str_empty data); cbn; [by rewrite E|].
  destruct (stream_write _ _ _ _) as [s' hs]. unfold modify. destruct (failed s'); cbn; [split_and!; [eapply slot_kept, E|eapply slot_kept, E|done]|].
  destruct (stream_flush _ _ _) as [s2 hs2]. destruct (failed s2); cbn; rewrite set_slot_twice; (split_and!; [eapply slot_kept, E|eapply slot_kept, E|done]).
Qed.

Lemma close_contract h (s : Stream) x : slot_of h x = Some s →
  let r := close host h x in
  others_kept h x r.2 ∧ slot_of h r.2 = None ∧ match r.1 with Undefined _ => False | _ => True end.
Proof.
  intros E. cbv zeta. unfold close, requireSlot, gets, mbind, proc_bind. rewrite E. cbn. destruct (fb_close _ _ _) as [ok hs].
  destruct (failed s || negb ok); cbn; split_and!; try done; by first [eapply set_slot_kept|eapply set_slot_at].
Qed.

Lemma require_bad {A} h x (k : Stream → proc HostFiles A) : slot_of h x = None →
  (s ← requireSlot h; k s) x = (Throw (RuntimeError "HOSTFS: bad handle"), x).
Proof. intros E. unfold requireSlot, gets, mbind, proc_bind. by rewrite E. Qed.

Lemma then_ret {A} (m : proc HostFiles A) (f : A → Value) x :
  (a ← m; mret (f a)) x = (match (m x).1 with Ok a => Ok (f a) | Throw e => Throw e | Undefined w => Undefined w end, (m x).2).
Proof. unfold mbind, proc_bind. by destruct (m x) as [[] ?]. Qed.

End handles.

(** C29. The table of host streams: whatever the host does, each call on streams keeps every stream but the one it names.  An open that
    succeeds answers a number from 1 that was free and now has a stream in good state; one that fails changes no slot.  Reading, writing
    or closing with a number that has no stream is the error "HOSTFS: bad handle" and changes nothing; otherwise the stream stays in its
    slot after a read or a write, whether they succeed or fail, and is gone after a close, even one that reports an error. *)
Theorem host_handles {H B : Type} (host : FileHost H B) (o : file_op) (x : HostFiles) :
  table_contract o x (run_file_op host o x).
Proof.
  unfold table_contract. destruct o as [mode p|h n|h d|h]; cbn [op_handle run_file_op].
  - pose proof (open_contract host mode p x) as Hc. cbv zeta in Hc. rewrite then_ret.
    destruct (open_with host mode p x) as [[h|e|w] x']; cbn in *; try done. destruct Hc as (b & ?). by exists h, b.
  - rewrite then_ret. destruct (slot_of h x) as [s|] eqn:E; [|unfold read; by rewrite require_bad].
    destruct (read_contract host h n s x E) as (? & ? & ?). split_and!; cbn; [done|split; [done|by intros [? ?]]|by destruct (read _ _ _ _).1].
  - rewrite then_ret. destruct (slot_of h x) as [s|] eqn:E; [|unfold write; by rewrite require_bad].
    destruct (write_contract host h d s x E) as (? & ? & ?). split_and!; cbn; [done|split; [done|by intros [? ?]]|by destruct (write _ _ _ _).1].
  - rewrite (then_ret _ (λ _, VInt 0)). destruct (slot_of h x) as [s|] eqn:E; [|unfold close; by rewrite require_bad].
    destruct (close_contract host h s x E) as (? & ? & ?). split_and!; cbn; [done|split; [by exists h|done]|by destruct (close _ _ _).1].
Qed.
