(* ===== verification/Boot.v ===== *)
(** * The cold start

    What the system does before the first session: the report of [BootMonitor] on the host's files, the catalogue and the
    language modules, the service daemon that prints it once, and what the host of sessions tells
    the system account.  The report on an account is compared with what a logon finds. *)

From Stdlib Require Import Ascii String.
From S2P Require Import Prelude CLib Words Ipc Channel Server Sched Records Locks FileSys Login Daemon Values Registry Session Help Tcl Config Modules.
From stdpp Require Import options.
Local Open Scope Z_scope.

(** [modules path]: the directory as the loader finds it. *)
Section boot.
Context (host : LoginHost) (version : string) (modules : string → ModulesDir).

(** The registry and the boot log of the modules, which the process has once, and what was printed. *)
Record Booting := mkBooting { bo_registry : LanguageRegistry; bo_log : LanguageModuleBootLog; bo_out : string }.

Definition say (line : string) : proc Booting unit := modify (λ b, mkBooting (bo_registry b) (bo_log b) (bo_out b +:+ line +:+ String NL "")).
Definition say_all (lines : list string) : proc Booting unit := foldr (λ l m, say l;; m) (mret tt) lines.

Definition attached (name root : string) : string := if is_directory host (path_join root name) then name +:+ " ATTACHED" else name +:+ ": (not present)".

(* src/core/boot/BootMonitor.cpp:20-37 [BootMonitor::runColdStart] *)
Definition system_files (paths : DefaultHostPaths) : list string :=
  match pickFilesystemRoot paths with
  | Some root => [attached "MD" root; attached "VOC" root]
  | None => ["MD: (skip — no Pick root)"; "VOC: (skip — no Pick root)"]
  end.

Definition incomplete (row : GeminiAccountRow) : bool := str_empty (a_name row) || str_empty (a_root row).

(* src/core/boot/BootMonitor.cpp:39-70 [BootMonitor::runColdStart] *)
Definition catalog_status (paths : DefaultHostPaths) : outcome string :=
  match geminiCatalogRoot paths with
  | None => Ok "CATALOG: (skip — no catalogue root)"
  | Some cat =>
      match loadUsers host (path_join cat "USERS.json") with
      | Some _ => Ok "USERS ATTACHED"
      | None =>
          there ← path_exists host (path_join cat "ACCOUNTS.json");
          if negb (there : bool) then Ok "CATALOG: (missing ACCOUNTS.json)"
          else match loadAccounts host (path_join cat "ACCOUNTS.json") with
               | Some rows => Ok (if existsb incomplete rows then "CATALOG: (invalid account rows)" else "CATALOG ATTACHED")
               | None => Ok "CATALOG: (malformed ACCOUNTS.json)"
               end
      end
  end.

(* src/core/boot/BootMonitor.cpp:78-92 [BootMonitor::runColdStart] *)
Definition account_status (cat : string) (row : GeminiAccountRow) : list string :=
  if incomplete row then []
  else
    let accountRoot := lexically_normal (path_join cat (a_root row)) in
    let report problem := "ACCOUNT " +:+ a_name row +:+ ": (" +:+ problem +:+ ")" in
    if negb (is_directory host accountRoot) then [report "root not present"]
    else (if is_directory host (path_join accountRoot "VOC") then [] else [report "VOC not present"]) ++
         (if is_directory host (path_join accountRoot "MD") then [] else [report "MD not present"]).

(* src/core/boot/BootMonitor.cpp:72-95 [BootMonitor::runColdStart] *)
Definition accounts_status (paths : DefaultHostPaths) : list string :=
  match geminiCatalogRoot paths with
  | None => []
  | Some cat => match loadAccounts host (path_join cat "ACCOUNTS.json") with Some rows => mjoin (account_status cat <$> rows) | None => [] end
  end.

(* src/core/boot/BootMonitor.cpp:97-103 [BootMonitor::runColdStart] *)
Definition boot_modules (paths : DefaultHostPaths) : proc Booting unit := λ b,
  match geminiModulesRoot paths with
  | Some path =>
      let '(r, l) := loadLanguageModules (modules path) (bo_registry b) in
      (r, mkBooting (ld_registry l) (ld_boot l) (bo_out b +:+ text_of (ld_log l)))
  | None =>
      let '(_, b) := say "MODULES: (skip — no modules path)" b in
      (Ok tt, mkBooting (freeze (bo_registry b)) (bo_log b) (bo_out b))
  end.

(* src/core/daemon/PortManager.cpp:40-42 [PortManager::formatBootStatus] *)
Definition formatBootStatus : string := "PORT MANAGER: READY".

(** [portManager]: whether the context has one. *)
(* src/core/boot/BootMonitor.cpp:14-112 [BootMonitor::runColdStart] *)
Definition runColdStart (paths : DefaultHostPaths) (portManager : bool) : proc Booting unit :=
  say_all [system_title +:+ " " +:+ version; "INITIALIZING SYSTEM..."; "MEMORY: (host n/a)"; "ATTACHING SYSTEM FILES..."];;
  say_all (system_files paths);;
  status ← lift (catalog_status paths);
  say status;;
  say_all (accounts_status paths);;
  boot_modules paths;;
  say (if portManager then formatBootStatus else "PORT MANAGER: (stub)");;
  say "SYSTEM READY";;
  say "".

(** ** The service daemon *)

(** The lock table is the world's. *)
(* src/core/daemon/GeminiServiceDaemon.h:48-53 [GeminiServiceDaemon] *)
Record GeminiServiceDaemon := mkService { gd_maxSessions : Z; gd_hostPaths : DefaultHostPaths; gd_portManager : PortManager; coldStarted_ : bool }.

(* src/core/daemon/GeminiServiceDaemon.cpp:12-18 [GeminiServiceDaemon::GeminiServiceDaemon] *)
Definition create (config : DaemonConfig) : GeminiServiceDaemon :=
  let max := if maxSessions config <? 1 then 1 else maxSessions config in
  mkService max (hostPaths config) (newPortManager max) false.

(* src/core/daemon/GeminiServiceDaemon.cpp:20-22 [GeminiServiceDaemon::createEmbedded] *)
Definition createEmbedded (h : ConfigHost) : outcome GeminiServiceDaemon := config ← embedded h; Ok (create config).

(* src/core/daemon/GeminiServiceDaemon.cpp:28-39 [GeminiServiceDaemon::coldStart] *)
Definition coldStart : proc (GeminiServiceDaemon * Booting) unit := λ '(d, b),
  if coldStarted_ d then (Ok tt, (d, b))
  else
    let '(r, b') := runColdStart (gd_hostPaths d) true b in
    match r with
    | Ok _ => (Ok tt, (mkService (gd_maxSessions d) (gd_hostPaths d) (gd_portManager d) true, b'))
    | Throw e => (Throw e, (d, b'))
    | Undefined w => (Undefined w, (d, b'))
    end.
End boot.

(** ** What the host of sessions tells *)

(** [consoleBound]: the query, if one is set; [who]: the session of a port. *)
(* src/userland/tcl/GeminiSessionHost.cpp:84-108 [GeminiSessionHost::listAdminSessions] *)
Definition listAdminSessions (consoleBound : option (Z → bool)) (who : Z → Identity) (h : Host) : list AdminSessionRow :=
  (λ id,
    let i := who id in
    mkAdminRow id (match consoleBound with Some f => f id | None => false end) (loggedIn i) (if loggedIn i then sessionUsername i else "")
      (if loggedIn i then sessionAccount i else "") (stateLocked id (runner_ h))) <$> merge_sort Z.le (elements (sessions_ h)).

(* src/userland/tcl/GeminiSessionHost.cpp:110-117 [GeminiSessionHost::adminStatus] *)
Definition adminStatus (socket version : string) (h : Host) : AdminDaemonStatus :=
  mkAdminStatus (maxSessions_ h) (Z.of_nat (base.size (sessions_ h))) socket version.

(** [who]: the other sessions, which the daemon's state has as ports only. *)
(* src/userland/tcl/GeminiDaemonRunner.cpp:46-55 [GeminiDaemonRunner::installAdminQueries] *)
Definition installAdminQueries (socket version : string) (who : Z → Identity) : ShellAdminQueries Daemon :=
  mkQueries Daemon
    (Some (λ d s, listAdminSessions (Some (λ id, bool_decide (id ∈ boundSessionPorts_ (hworld d))))
                    (λ id, if id =? whoPort (ident s) then ident s else who id) (hworld d)))
    (Some (λ d, adminStatus socket version (hworld d)))
    (Some (λ port, ok ← Daemon.killSession port; mret (if ok : bool then None else Some "session not found")))
    (Some requestShutdown_).

(** ** The report is what a logon finds *)

Section report.
Context (host : LoginHost).

(** The word that was typed is the account's, or it needs none. *)
Definition password_fits (acct : GeminiAccountRow) (password : string) : Prop :=
  match passwordHash acct with
  | None => True
  | Some hash => passwordPlaceholderSkipsVerify hash = true ∨ (hash ≠ "" ∧ password = hash)
  end.

(** What the report has on an account that can be used, in full. *)
Definition usable_report (row : GeminiAccountRow) (lines : list string) : Prop :=
  lines = [] ∨ lines = ["ACCOUNT " +:+ a_name row +:+ ": (MD not present)"].

Lemma complete_rows i rows : invalid_from i rows = None ↔ Forall (λ r, incomplete r = false) rows.
Proof.
  revert i. induction rows as [|r rows IH]; intros i; cbn; [by repeat constructor|]. rewrite Forall_cons. unfold incomplete at 1.
  destruct (a_name r) eqn:En; cbn; [naive_solver|]. destruct (a_root r) eqn:Er; cbn; [naive_solver|]. rewrite IH. naive_solver.
Qed.

Lemma find_row_in rows name acct : findAccountRow rows name = Some acct → acct ∈ rows.
Proof.
  induction rows as [|a rows IH]; cbn; [done|]. destruct (iequalsAscii _ _); [intros [= ->]; by left|]. intros H. right. by apply IH.
Qed.

(** Where the account is usable, the report is short; and the other way round. *)
Lemma account_report cat row : incomplete row = false →
  let root := lexically_normal (path_join cat (a_root row)) in
  usable_report row (account_status host cat row) ↔ is_directory host root = true ∧ is_directory host (path_join root "VOC") = true.
Proof.
  intros Hc. cbv zeta. unfold account_status, usable_report. rewrite Hc. set (root := lexically_normal _).
  destruct (is_directory host root); cbn [negb]; [|by split; [intros [[=]|[= H]]; by apply (inj (String.append _)) in H|intros []]].
  destruct (is_directory host (path_join root "VOC")); cbn [app].
  - split; [done|]. intros _. destruct (is_directory _ _); auto.
  - split; [|by intros []]. intros [[=]|H]. destruct (is_directory _ _); [|done]. injection H as H. by apply (inj (String.append _)) in H.
Qed.

Lemma usable_logon cat rows name acct password :
  path_exists host (path_join cat "ACCOUNTS.json") = Ok true → loadAccounts host (path_join cat "ACCOUNTS.json") = Some rows →
  findAccountRow rows name = Some acct → password_fits acct password →
  (∃ u, authenticateAccount host cat name password = Ok (inl u)) ↔
  existsb incomplete rows = false ∧ usable_report acct (account_status host cat acct).
Proof.
  intros Hex Hload Hfind Hpw. unfold authenticateAccount. rewrite Hex. unfold mbind, outcome_bind. cbn [negb]. rewrite Hload.
  unfold firstInvalidAccountRowReason. assert (existsb incomplete rows = false ↔ invalid_from 0 rows = None) as ->.
  { rewrite complete_rows. clear. induction rows as [|r rows IH]; cbn; [by repeat constructor|]. rewrite orb_false_iff, Forall_cons. naive_solver. }
  destruct (invalid_from 0 rows) as [e|] eqn:Einv; [by split; [intros [u [=]]|intros [[=] _]]|]. rewrite Hfind. apply complete_rows in Einv.
  pose proof (proj1 (Forall_forall _ _) Einv acct (find_row_in _ _ _ Hfind)) as Hc. cbn in Hc. rewrite (account_report cat acct Hc).
  set (root := lexically_normal _).
  set (finish := if negb (is_directory host root) then inr ("Account path not found: " +:+ root) else _).
  assert (Hfin : (∃ u, Ok finish = Ok (inl u)) ↔ None = @None string ∧ is_directory host root = true ∧ is_directory host (path_join root "VOC") = true).
  { unfold finish. destruct (is_directory host root); cbn [negb]; [|by split; [intros [u [=]]|intros (_ & [=] & _)]].
    destruct (is_directory host (path_join root "VOC")); cbn [negb]; [by split; [|eexists]|by split; [intros [u [=]]|intros (_ & _ & [=])]]. }
  rewrite <- Hfin. unfold password_fits in Hpw. destruct (passwordHash acct) as [hash|]; [|done].
  destruct Hpw as [->|[Hne ->]]; [done|]. destruct (passwordPlaceholderSkipsVerify hash); [done|].
  destruct hash; [done|]. cbn [str_empty]. by rewrite String.eqb_refl.
Qed.
End report.

(** *** What is printed *)

Section printed.
Context (host : LoginHost) (version : string) (modules : string → ModulesDir) (paths : DefaultHostPaths).

(** [m] ends, prints these lines, and leaves registry and boot log alone. *)
Definition prints (m : proc Booting unit) (lines : list string) : Prop :=
  ∀ b, m b = (Ok tt, mkBooting (bo_registry b) (bo_log b) (bo_out b +:+ text_of lines)).

Lemma prints_say line : prints (say line) [line].
Proof. by intros b. Qed.

Lemma text_of_app l1 l2 : text_of (l1 ++ l2) = text_of l1 +:+ text_of l2.
Proof. unfold text_of. induction l1 as [|x l1 IH]; cbn; [done|]. by rewrite IH, str_app_assoc. Qed.

Lemma prints_then m1 m2 l1 l2 : prints m1 l1 → prints m2 l2 → prints (m1;; m2) (l1 ++ l2).
Proof. intros H1 H2 b. unfold mbind, proc_bind. rewrite H1, H2. cbn [bo_registry bo_log bo_out]. by rewrite text_of_app, str_app_assoc. Qed.

Lemma prints_all lines : prints (say_all lines) lines.
Proof.
  induction lines as [|l lines IH]; cbn; [intros b; cbn; rewrite str_app_nil_r; by destruct b|]. apply (prints_then _ _ [l]); [apply prints_say|done].
Qed.

(** The registry that the modules leave. *)
Definition booted_registry (r : LanguageRegistry) : LanguageRegistry :=
  match geminiModulesRoot paths with Some path => ld_registry (loadLanguageModules (modules path) r).2 | None => freeze r end.

Lemma loader_freezes d r : (loadLanguageModules d r).1 = Ok tt → frozen (ld_registry (loadLanguageModules d r).2) = true.
Proof.
  unfold loadLanguageModules. cbv zeta. destruct (md_is_directory d); [|done]. cbn [negb]. unfold mbind, proc_bind, modify.
  by destruct (load_all _ _ _) as [[[]|e|w] x1].
Qed.

Lemma boot_modules_spec b : (∀ path, geminiModulesRoot paths = Some path → (loadLanguageModules (modules path) (bo_registry b)).1 = Ok tt) →
  ∃ log lines, boot_modules modules paths b = (Ok tt, mkBooting (booted_registry (bo_registry b)) log (bo_out b +:+ text_of lines)) ∧
    frozen (booted_registry (bo_registry b)) = true.
Proof.
  intros Hok. unfold boot_modules, booted_registry. destruct (geminiModulesRoot paths) as [path|].
  - specialize (Hok path eq_refl). pose proof (loader_freezes _ _ Hok) as Hf. destruct (loadLanguageModules _ _) as [r l]. cbn in *. subst r.
    by eexists _, _.
  - exists (bo_log b), ["MODULES: (skip — no modules path)"]. done.
Qed.

Definition first_lines : list string := [system_title +:+ " " +:+ version; "INITIALIZING SYSTEM..."; "MEMORY: (host n/a)"; "ATTACHING SYSTEM FILES..."].

Lemma runColdStart_spec b status : catalog_status host paths = Ok status →
  (∀ path, geminiModulesRoot paths = Some path → (loadLanguageModules (modules path) (bo_registry b)).1 = Ok tt) →
  ∃ log lines, runColdStart host version modules paths true b =
    (Ok tt, mkBooting (booted_registry (bo_registry b)) log
      (bo_out b +:+ text_of (first_lines ++ system_files host paths ++ [status] ++ accounts_status host paths ++ lines ++
                             [formatBootStatus; "SYSTEM READY"; ""]))) ∧
    frozen (booted_registry (bo_registry b)) = true.
Proof.
  intros Hs Hok. unfold runColdStart. fold first_lines.
  assert (Hstep : ∀ m l (k : proc Booting unit) c, prints m l → (m;; k) c = k (mkBooting (bo_registry c) (bo_log c) (bo_out c +:+ text_of l))).
  { intros m l k c H. unfold mbind, proc_bind. by rewrite H. }
  rewrite (Hstep _ _ _ _ (prints_all first_lines)), (Hstep _ _ _ _ (prints_all (system_files host paths))), Hs.
  unfold lift at 1, mbind at 1, proc_bind at 1.
  rewrite (Hstep _ _ _ _ (prints_say status)), (Hstep _ _ _ _ (prints_all (accounts_status host paths))). cbn [bo_registry bo_log bo_out].
  match goal with |- context [(boot_modules _ _ ≫= _) ?c] => destruct (boot_modules_spec c Hok) as (log & lines & Em & Hf) end.
  exists log, lines. split; [|exact Hf]. rewrite (proc_bind_ok _ _ _ _ _ Em).
  rewrite (Hstep _ _ _ _ (prints_say formatBootStatus)), (Hstep _ _ _ _ (prints_say "SYSTEM READY")), prints_say. cbn [bo_registry bo_log bo_out].
  do 2 f_equal. rewrite !text_of_app, !str_app_assoc. reflexivity.
Qed.
End printed.

Definition started (d : GeminiServiceDaemon) : GeminiServiceDaemon := mkService (gd_maxSessions d) (gd_hostPaths d) (gd_portManager d) true.

(** C28. A cold start ends, once.  When the host can tell whether the accounts' file is there and the modules' loader returns, the cold start of a new
    daemon prints the report on the system files, the catalogue and every account, then the modules and SYSTEM READY; the registry of functions is frozen, so
    that nothing can register functions any more; and a second cold start does nothing.  The report is what a logon finds: an account of the catalogue
    lets in whoever knows its password just when all rows of the catalogue are complete and the report on the account is empty, or that it has no MD. *)
Theorem cold_start_reports host version modules d b status :
  let paths := gd_hostPaths d in
  coldStarted_ d = false → catalog_status host paths = Ok status →
  (∀ path, geminiModulesRoot paths = Some path → (loadLanguageModules (modules path) (bo_registry b)).1 = Ok tt) →
  ∃ b' lines, coldStart host version modules (d, b) = (Ok tt, (started d, b')) ∧
    bo_out b' = bo_out b +:+ text_of (first_lines version ++ system_files host paths ++ [status] ++ accounts_status host paths ++ lines ++
                                      [formatBootStatus; "SYSTEM READY"; ""]) ∧
    coldStart host version modules (started d, b') = (Ok tt, (started d, b')) ∧
    (∀ ns, ∃ e, registerNamespace ns (bo_registry b') = (Throw e, bo_registry b')) ∧
    ∀ cat rows name acct password, geminiCatalogRoot paths = Some cat →
      path_exists host (path_join cat "ACCOUNTS.json") = Ok true → loadAccounts host (path_join cat "ACCOUNTS.json") = Some rows →
      findAccountRow rows name = Some acct → password_fits acct password →
      accounts_status host paths = mjoin (account_status host cat <$> rows) ∧
      ((∃ u, authenticateAccount host cat name password = Ok (inl u)) ↔
       existsb incomplete rows = false ∧ usable_report acct (account_status host cat acct)).
Proof.
  cbv zeta. intros Hn Hs Hm. destruct (runColdStart_spec host version modules (gd_hostPaths d) b status Hs Hm) as (log & lines & E & Hf).
  eexists _, lines. unfold coldStart at 1. rewrite Hn, E. split; [reflexivity|]. split; [done|]. split; [done|]. split.
  - intros ns. cbn [bo_registry]. unfold registerNamespace. rewrite Hf. by eexists.
  - intros cat rows name acct password Hc Hex Hl Hfind Hpw. split; [unfold accounts_status; by rewrite Hc, Hl|]. by eapply usable_logon.
Qed.

(** SYSPROG can be used, NOVOC cannot. *)
Definition ex_boot_accounts : json := JObject [("accounts", JArray
  [JObject [("name", JString "SYSPROG"); ("root", JString "accounts/SYSPROG"); ("passwordHash", JString "secret")];
   JObject [("name", JString "NOVOC"); ("root", JString "novoc"); ("passwordHash", JNull)]])].

Definition ex_boot_host : LoginHost :=
  mkLoginHost (λ p, if String.eqb p "/g/ACCOUNTS.json" then Some ex_boot_accounts else None) (λ _, Ok true)
    (λ p, bool_decide (p ∈ ["/g/accounts/SYSPROG"; "/g/accounts/SYSPROG/VOC"; "/g/novoc"; "/g/novoc/MD"; "/pick/VOC"])) (λ _, None) ex_host.

Definition ex_service : GeminiServiceDaemon := create (mkConfig "" 1 (mkPaths (Some "/pick") (Some "/g") None)).

Lemma cold_start_reports_witness :
  let r := coldStart ex_boot_host "1.0" (λ _, mkModulesDir false [] (λ _, NotOpened "")) (ex_service, mkBooting emptyRegistry clear_boot_log "") in
  r.1 = Ok tt ∧ bo_out r.2.2 = text_of ["Gemini System Developer Edition 1.0"; "INITIALIZING SYSTEM..."; "MEMORY: (host n/a)"; "ATTACHING SYSTEM FILES...";
    "MD: (not present)"; "VOC ATTACHED"; "CATALOG ATTACHED"; "ACCOUNT SYSPROG: (MD not present)"; "ACCOUNT NOVOC: (VOC not present)";
    "MODULES: (skip — no modules path)"; "PORT MANAGER: READY"; "SYSTEM READY"; ""] ∧
  ¬ (∃ u, authenticateAccount ex_boot_host "/g" "novoc" "" = Ok (inl u)).
Proof.
  cbv zeta. set (md := λ _ : string, _).
  destruct (cold_start_reports ex_boot_host "1.0" md ex_service (mkBooting emptyRegistry clear_boot_log "") "CATALOG ATTACHED")
    as (b' & lines & E & _ & _ & _ & H); [reflexivity|by vm_compute|done|].
  split; [by rewrite E|]. split; [by vm_compute|].
  destruct (H "/g" [mkAccount "SYSPROG" "accounts/SYSPROG" (Some "secret"); mkAccount "NOVOC" "novoc" None] "novoc" (mkAccount "NOVOC" "novoc" None) "")
    as [_ Hu]; [reflexivity|reflexivity|by vm_compute|by vm_compute|exact I|].
  rewrite Hu. intros [_ [Hl|Hl]]; vm_compute in Hl; discriminate.
Defined.
