(* ===== verification/System.v ===== *)
(** * The single-user system

    [src/Main.cpp]: one session on standard input and output, logged on from the catalogue, in a host of sessions whose scheduler
    and port table are those of the daemon.  From the first prompt to the end of the program: logons, the shell, LOGOFF and the next logon. *)

From Stdlib Require Import Ascii String.
From S2P Require Import Prelude CLib Words Ipc Channel Server Sched Records Locks FileSys Bytecode Dict Voc Login Daemon EnglishQuery EnglishFormat EnglishExec LineEditor Values Registry Vm BasicEmit Proc BasicProg Session TclFiles Help Tcl TclRun Assembler Shell ShellRun Input Authority Config Modules Boot.
From stdpp Require Import options.
Local Open Scope Z_scope.

(** The host of sessions, and the flag that SHUTDOWN sets.  The session itself is the shell's. *)
(* src/userland/tcl/GeminiSessionHost.h:54-58 [GeminiSessionHost] *)
Record Embedded := mkEmbedded { e_daemon : Daemon; e_shutdown : bool }.

Definition newEmbedded : Embedded := mkEmbedded (mkShared ∅ (newHost 1)) false.

Definition on_daemon {A} (m : proc Daemon A) : proc Embedded A := zoom e_daemon (λ d e, mkEmbedded d (e_shutdown e)) m.
Definition runner_of (t : Shell Embedded) : Runner := runner_ (hworld (e_daemon (ext t))).

(* src/core/vm/Runtime.cpp:311-313 [Runtime::Runtime] *)
Definition newRuntime : Runtime := mkRuntime [] [] [] [] [] ∅ ∅ ∅ 0 false 0 None "" "" (mkOutside 0 None) (mkWorld ∅ ∅ 0).

(** [input]: what will be typed. *)
(* src/userland/tcl/GeminiSession.cpp:14-19 [GeminiSession::GeminiSession] *)
Definition newSession (input : string) (w : World) : Session :=
  mkGemini (mkVmContext newRuntime None false ∅ false None) (mkIdentity false 0 false "" "" "0") (mkStore (mkFs "filesystem" false "") (∅, false) None false "")
    (mkVars ∅ None [] None 24) (mkIo input "" w).

Definition newShell (input : string) (w : World) (interrupts : list (option nat)) : Shell Embedded :=
  mkShell (newSession input w) false (false, mkProgram None []) ∅ None false 0 false interrupts newEmbedded.

Section system.
Context (x : ShellHost) (depth fuel : nat).

(* src/Main.cpp:20-36 [main] *)
Definition embedded_queries : ShellAdminQueries Embedded :=
  mkQueries Embedded
    (Some (λ e s, listAdminSessions None (λ _, ident s) (hworld (e_daemon e))))
    (Some (λ e, adminStatus "" (version x) (hworld (e_daemon e))))
    (Some (λ port, on_daemon (
      found ← session_exists port;
      if found : bool then host_retire port;; destroySession port;; mret None else mret (Some "session not found"))))
    (Some (modify (λ e, mkEmbedded (e_daemon e) true))).

(** There is one thread: what it waits for does not come. *)
(* src/userland/tcl/GeminiSessionHost.cpp:27-29 [GeminiSessionHost::runExclusive] *)
Definition runExclusive {A} (id : Z) (fn : proc (Shell Embedded) A) : proc (Shell Embedded) A :=
  t ← get;
  if negb (canAcquireLocked id (runner_of t)) then lift (Undefined "waits for ever")
  else
    on_ext (on_daemon (on_runner (grantAcquireLocked id)));;
    a ← fn;
    on_ext (on_daemon (on_runner (runExclusive_end id)));;
    mret a.

(* src/userland/tcl/GeminiSession.cpp:163-165 [GeminiSession::setGeminiCatalogRoot] *)
Definition setGeminiCatalogRoot (r : option string) (s : Session) : Session :=
  let y := store s in set_store (mkStore (fileSystem_ y) (voc_ y) r (lockTable_ y) (sessionLockId_ y)) s.

(* src/userland/tcl/DefaultFileSystemRoot.cpp:6-17 [applyHostPathsToShell, applyDefaultFileSystemRoot] *)
Definition applyHostPathsToShell (paths : DefaultHostPaths) : proc Session unit :=
  match pickFilesystemRoot paths with Some r => setFileSystemRoot (records x) r | None => mret tt end;;
  match Config.geminiCatalogRoot paths with Some r => modify (setGeminiCatalogRoot (Some r)) | None => mret tt end.

(** [destroyAllSessions] ends the one session that there is. *)
(* src/Main.cpp:40-43 [main] *)
Definition finish : proc (Shell Embedded) Z :=
  t ← get;
  if e_shutdown (ext t) then on_session (modify destroy);; on_ext (on_daemon destroyAllSessions);; mret 0 else mret 0.

(** The catalogue is read from the session on every round.  A round that is not the last reads a line. *)
(* src/Main.cpp:46-66 [main] *)
Fixpoint logons (rounds : nat) (id : Z) (loginPhase : CatalogLoginPhase) : proc (Shell Embedded) Z :=
  match rounds with
  | O => lift (Undefined "rounds")
  | S rounds' =>
      t ← get;
      match Session.geminiCatalogRoot (store (sess t)) with
      | None => lift (Undefined "value of an empty optional")
      | Some catalog =>
          userSession ← on_session (on_console (runCatalogLogin (login_host x) catalog (root (fileSystem_ (store (sess t)))) loginPhase));
          match userSession with
          | None => mret 0
          | Some u =>
              on_session (attach (records x) u);;
              r ← runExclusive id (runTclRepl x embedded_queries depth fuel);
              match r with ExitProcess => finish | EndSession => logons rounds' id InteractiveOnly end
          end
      end
  end.

(** From the creation of the session. *)
(* src/Main.cpp:16-47 [main] *)
Definition single_user (paths : DefaultHostPaths) : proc (Shell Embedded) Z :=
  created ← on_ext (on_daemon createSession);
  match created with
  | None => throw (RuntimeError "session table full")
  | Some id =>
      on_session (modify (λ s, setDaemonPort (to_int32 id) (setSharedLockTable s)));;
      on_session (applyHostPathsToShell paths);;
      t ← get;
      match Session.geminiCatalogRoot (store (sess t)) with
      | None => runExclusive id (runTclRepl x embedded_queries depth fuel);; finish
      | Some _ => logons (S (String.length (stdin t))) id ColdStartPortInit
      end
  end.
End system.

(** What the cold start leaves of the process's registry and boot log. *)
Definition booted (x : ShellHost) (b : Booting) : ShellHost :=
  mkShellHost (login_host x) (now x) (bo_registry b) (bo_log b) (platform x) (version x) (build_date x) (weakly_canonical x).

(** The cold start prints before the session is made; [t]: the process at the beginning. *)
(* src/Main.cpp:11-67 [main] *)
Definition gemini_main (h : ConfigHost) (x : ShellHost) (modules : string → ModulesDir) (depth fuel : nat) : proc (Shell Embedded) Z := λ t,
  match createEmbedded h with
  | Throw e => (Throw e, t)
  | Undefined w => (Undefined w, t)
  | Ok d =>
      let '(r, (_, b)) := coldStart (login_host x) (version x) modules (d, mkBooting (registry x) (boot_log x) "") in
      (on_session (print (bo_out b));;
       lift r;;
       paths ← lift (resolveDefaultHostPaths h);
       single_user (booted x b) depth fuel paths) t
  end.

(** ** From the first prompt to the end *)

(** *** The scheduler

    Between two runs of the shell nobody has the token, and session 1 can take it. *)
Definition idle (r : Runner) : Prop := r = newRunner ∨ r = mkRunner None 0 1 {[1 := Runnable]}.
Definition taken (r : Runner) : Runner := (grantAcquireLocked 1 r).2.

Lemma idle_free r : idle r → canAcquireLocked 1 r = true ∧ (grantAcquireLocked 1 r).1 = Ok tt ∧ idle (runExclusive_end 1 (taken r)).2 ∧ (runExclusive_end 1 (taken r)).1 = Ok tt.
Proof. intros [-> | ->]; (split_and!; [by vm_compute|by vm_compute|right; by vm_compute|by vm_compute]). Qed.

(** The one session is in the table, and no shutdown has been asked for. *)
Definition host_ok (e : Embedded) : Prop := e_shutdown e = false ∧ sessions_ (hworld (e_daemon e)) = {[1]}.
Definition host_idle (e : Embedded) : Prop := host_ok e ∧ idle (runner_ (hworld (e_daemon e))).

Section authority.
Context (x : ShellHost) (depth fuel : nat).
Context (Hset : sysprog_has_password (login_host x)).
#[local] Set Default Proof Using "Hset".

(** What holds between the runs, and what holds however they end. *)
Definition between (t : Shell Embedded) : Prop := stranger x (sess t) ∧ host_idle (ext t).
Definition at_end {A} (r : outcome A * Shell Embedded) : Prop := stranger x (sess r.2) ∧ host_ok (ext r.2) ∧ ∀ a, r.1 = Ok a → idle (runner_of r.2).

(** A method of the scheduler, on the shell. *)
Lemma on_scheduler {A} (m : proc Runner A) t :
  on_ext (on_daemon (on_runner m)) t =
  let '(a, r) := m (runner_of t) in
  (a, set_ext (mkEmbedded (mkShared (channels (e_daemon (ext t))) (set_runner r (hworld (e_daemon (ext t))))) (e_shutdown (ext t))) t).
Proof using. unfold on_ext, on_daemon, on_runner, zoom, runner_of. by destruct (m _). Qed.

Lemma run_shell t : between t → at_end (runExclusive 1 (runTclRepl x (embedded_queries x) depth fuel) t).
Proof.
  intros [Hs [Hh Hi]]. unfold runExclusive, get. rewrite (proc_bind_ok _ _ t t t) by done.
  destruct (idle_free _ Hi) as (Hfree & Hg & Hend & Hok). fold (runner_of t) in Hfree, Hg, Hend, Hok. rewrite Hfree. cbn [negb].
  destruct (grantAcquireLocked 1 (runner_of t)) as [o r1] eqn:Eg. cbn in Hg. subst o.
  assert (Ht : taken (runner_of t) = r1) by (unfold taken; by rewrite Eg). rewrite Ht in Hend, Hok.
  rewrite (proc_bind_ok _ _ t tt _ (eq_trans (on_scheduler _ t) (f_equal (λ p, let '(a, r) := p in (a, set_ext _ t)) Eg))).
  set (t1 := set_ext _ t).
  assert (Hout : outsider x (ext t1) t1) by (split; [exact Hs|done]).
  pose proof (outside_shell x (embedded_queries x) (ext t1) Hset depth fuel t1 Hout) as [Hs2 He2].
  unfold mbind at 1, proc_bind at 1. destruct (runTclRepl _ _ _ _ t1) as [[a|e|w] t2]; cbn [snd] in Hs2, He2.
  - unfold mbind, proc_bind. rewrite on_scheduler. unfold runner_of. rewrite He2.
    change (runner_ (hworld (e_daemon (ext t1)))) with r1. destruct (runExclusive_end 1 r1) as [o2 r2]. cbn in Hend, Hok. subst o2.
    split; [exact Hs2|]. split; [exact Hh|]. intros a' _. exact Hend.
  - split; [exact Hs2|]. split; [cbn [snd]; by rewrite He2|done].
  - split; [exact Hs2|]. split; [cbn [snd]; by rewrite He2|done].
Qed.

(** *** Logons *)

(** Whoever logs on with these lines is not SYSPROG. *)
Definition logs_on (m : proc Console (option UserSession)) : Prop := ∀ c, only (not_the_password (login_host x)) (c_in c) →
  only (not_the_password (login_host x)) (c_in (m c).2) ∧ ∀ u, (m c).1 = Ok (Some u) → accountName u ≠ "SYSPROG".

(** Steps before: the input stays innocent. *)
Definition innocent {A} (m : proc Console A) : Prop := preserves (λ c, only (not_the_password (login_host x)) (c_in c)) m.

Lemma logs_on_bind {A} (m : proc Console A) (k : A → proc Console (option UserSession)) : innocent m → (∀ a, logs_on (k a)) → logs_on (m ≫= k).
Proof. intros Hm Hk c Hc. specialize (Hm c Hc). unfold mbind, proc_bind. destruct (m c) as [[a|e|w] c1]; [by apply Hk|by split; [|intros ? [=]]..]. Qed.

Lemma logs_on_known {A} (m : proc Console A) (k : A → proc Console (option UserSession)) (R : A → Prop) :
  (∀ c, only (not_the_password (login_host x)) (c_in c) → only (not_the_password (login_host x)) (c_in (m c).2) ∧ ∀ a, (m c).1 = Ok a → R a) →
  (∀ a, R a → logs_on (k a)) → logs_on (m ≫= k).
Proof.
  intros Hm Hk c Hc. specialize (Hm c Hc). unfold mbind, proc_bind. destruct (m c) as [[a|e|w] c1]; cbn in Hm; destruct Hm as [H1 H2];
    [by apply Hk; [apply H2|]|by split; [|intros ? [=]]..].
Qed.

Lemma logs_on_none : logs_on (mret None).
Proof. intros c Hc. by split; [|intros ? [=]]. Qed.

Lemma innocent_print t : innocent (Login.print t).
Proof. by intros c Hc. Qed.

Lemma innocent_read_line : innocent Login.read_line.
Proof.
  intros c Hc. unfold Login.read_line. destruct (getline NL (c_in c)) as [[line rest]|] eqn:E; [|done]. cbn. by eapply only_getline.
Qed.

Lemma innocent_records {A} (m : proc World A) : innocent (on_records m).
Proof. intros c Hc. unfold on_records, zoom. by destruct (m _). Qed.

(** A password that was read, and the attempt with it. *)
Lemma logs_on_attempt (row : option GeminiAccountRow) catalog account (failed : proc Console (option UserSession)) :
  logs_on failed →
  logs_on (password ← readPasswordLineIfAccountRequires row;
           match password with
           | None => mret None
           | Some password =>
               sess ← authenticateAccountAndSealStdout (login_host x) catalog account password;
               match sess with None => failed | Some s => mret (Some s) end
           end).
Proof.
  intros Hf. apply (logs_on_known _ _ (λ o, ∀ p, o = Some p → is_password x p)).
  - intros c Hc. unfold readPasswordLineIfAccountRequires. destruct (row ≫= passwordHash) as [h|]; [|split; [done|]; intros ? [= <-] p [= <-]; by left].
    destruct (passwordPlaceholderSkipsVerify h); [split; [done|]; intros ? [= <-] p [= <-]; by left|].
    unfold mbind, proc_bind, Login.read_line. destruct (getline NL (c_in c)) as [[line rest]|] eqn:E; [|by split; [|intros ? [= <-]]].
    apply (only_getline (not_the_password (login_host x))) in E as [Hline Hrest]; [|done]. cbn. split; [done|].
    intros ? [= <-] p [= <-]. right. by exists line.
  - intros [p|] Hp; [|apply logs_on_none]. specialize (Hp p eq_refl).
    apply (logs_on_known _ _ (λ o, ∀ u, o = Some u → accountName u ≠ "SYSPROG")).
    + intros c Hc. unfold authenticateAccountAndSealStdout, mbind, proc_bind, lift.
      destruct (authenticateAccount (login_host x) catalog account p) as [[u|err]|e|w] eqn:Ea; cbn; (split; [done|]); intros ? [= <-]; [|done].
      intros u' [= <-]. by eapply (wrong_password (login_host x)).
    + intros [u|] Hu; [|done]. intros c Hc. split; [done|]. intros ? [= <-]. by apply Hu.
Qed.

Lemma logs_on_console rounds catalog : logs_on (console_login (login_host x) rounds catalog).
Proof.
  induction rounds as [|rounds IH]; cbn [console_login]; [intros c Hc; by split; [|intros ? [=]]|].
  assert (Hagain : logs_on (printLoginIncorrect;; console_login (login_host x) rounds catalog)) by (apply logs_on_bind; [apply innocent_print|done]).
  apply logs_on_bind; [apply innocent_print|]. intros _. apply logs_on_bind; [apply innocent_read_line|]. intros [line|]; [|apply logs_on_none].
  destruct (parseSingleUsernameLine _) as [account|]; [|done]. destruct (loadAccounts _ _) as [accounts|]; [|done].
  destruct (findAccountRow accounts account) as [acct|]; [|done]. by apply logs_on_attempt.
Qed.

Lemma logs_on_catalog catalog root phase : logs_on (runCatalogLogin (login_host x) catalog root phase).
Proof.
  unfold runCatalogLogin. apply logs_on_bind.
  - destruct phase; [|by intros c]. apply preserves_bind; [|intros md c Hc; exact Hc]. unfold readAutoLogonAccountIdFromMd.
    apply preserves_try; [apply preserves_bind; [apply innocent_records|by intros ? c Hc]|]. intros e k. destruct e; try done. by intros [= <-] c Hc.
  - intros auto. assert (Hcon : logs_on (runConsoleLogin (login_host x) catalog)) by (intros c Hc; by apply logs_on_console).
    destruct auto as [name|]; [|done]. apply logs_on_bind; [apply innocent_print|]. intros _. apply logs_on_bind; [apply innocent_print|]. intros _.
    apply logs_on_attempt. apply logs_on_bind; [apply innocent_print|done].
Qed.

(** *** The loop *)

Definition ends_well (m : proc (Shell Embedded) Z) : Prop := ∀ t, between t → at_end (m t) ∧ ∀ n, (m t).1 = Ok n → n = 0.

Lemma logons_then {A} (m : proc (Shell Embedded) A) (k : A → proc (Shell Embedded) Z) (R : A → Prop) :
  (∀ t, between t → at_end (m t) ∧ ∀ a, (m t).1 = Ok a → R a) → (∀ a, R a → ends_well (k a)) → ends_well (m ≫= k).
Proof using.
  intros Hm Hk t Ht. destruct (Hm t Ht) as [(H1 & H2 & H3) H4]. unfold mbind, proc_bind. destruct (m t) as [[a|e|w] t1]; cbn [fst snd] in *.
  - apply Hk; [by apply H4|]. split; [done|]. split; [done|]. by eapply H3.
  - split; [by split_and!|by intros ? [=]].
  - split; [by split_and!|by intros ? [=]].
Qed.

(** A step of the session alone. *)
Lemma session_step {A} (m : proc Session A) (R : A → Prop) :
  (∀ s, stranger x s → stranger x (m s).2 ∧ ∀ a, (m s).1 = Ok a → R a) →
  ∀ t, between t → at_end (on_session m t) ∧ ∀ a, (on_session m t).1 = Ok a → R a.
Proof using.
  intros Hm t (Hs & Hh & Hi). destruct (Hm _ Hs) as [H1 H2]. unfold on_session, zoom. cbn [fst snd]. split; [|done].
  split; [exact H1|]. split; [exact Hh|]. by intros _ _.
Qed.

Lemma ends_finish : ends_well finish.
Proof using. intros t (Hs & [Hd Hses] & Hi). unfold finish, get, mbind, proc_bind. rewrite Hd. split; [by split_and!|by intros ? [= <-]]. Qed.

Lemma ends_logons rounds : ∀ phase, ends_well (logons x depth fuel rounds 1 phase).
Proof.
  induction rounds as [|rounds IH]; intros phase t Ht; cbn [logons]; [destruct Ht as (? & ? & ?); split; [by split_and!|by intros ? [=]]|].
  unfold get. rewrite (proc_bind_ok _ _ t t t) by done. destruct (Session.geminiCatalogRoot _) as [catalog|];
    [|destruct Ht as (? & ? & ?); split; [by split_and!|by intros ? [=]]].
  revert t Ht. intros t0. generalize (root (fileSystem_ (store (sess t0)))) as rt. intros rt. revert t0.
  apply (logons_then _ _ (λ o, ∀ u, o = Some u → accountName u ≠ "SYSPROG")).
  - apply session_step. intros s [Hacc Hin]. unfold on_console.
    pose proof (logs_on_catalog catalog rt phase (mkConsole (s_in (io s)) (s_out (io s)) (s_world (io s))) Hin) as [H1 H2].
    destruct (runCatalogLogin _ _ _ _ _) as [o c1]. cbn in *. split; [by split|]. intros a -> u ->. by apply H2.
  - intros [u|] Hu; [|intros t (? & ? & ?); split; [by split_and!|by intros ? [= <-]]].
    apply (logons_then _ _ (λ _, True)).
    { apply session_step. intros s Hs. split; [by apply keeps_attach; [apply Hu|]|done]. }
    intros _ _. apply (logons_then _ _ (λ _, True)); [intros t Ht; split; [by apply run_shell|done]|].
    intros [|] _; [apply ends_finish|apply IH].
Qed.
End authority.

(** Before there is a session. *)
Definition host_new (e : Embedded) : Prop := e = newEmbedded.

Lemma first_session : ∃ e, (on_daemon createSession newEmbedded) = (Ok (Some 1), e) ∧ host_idle e.
Proof. eexists. split; [by vm_compute|]. split; [split; by vm_compute|left; by vm_compute]. Qed.

Lemma single_user_ends x depth fuel paths t : sysprog_has_password (login_host x) → stranger x (sess t) → ext t = newEmbedded →
  at_end x (single_user x depth fuel paths t) ∧ ∀ n, (single_user x depth fuel paths t).1 = Ok n → n = 0.
Proof.
  intros Hset Hs He. destruct first_session as (e1 & E & Hi). unfold single_user.
  assert (Ec : on_ext (on_daemon createSession) t = (Ok (Some 1), set_ext e1 t)) by (unfold on_ext, zoom; by rewrite He, E).
  rewrite (proc_bind_ok _ _ _ _ _ Ec). assert (Ht : between x (set_ext e1 t)) by (by split). revert Ht. generalize (set_ext e1 t).
  apply (logons_then x _ _ (λ _, True)); [apply session_step; by intros s []|]. intros _ _.
  apply (logons_then x _ _ (λ _, True)).
  { apply session_step. intros s Hs'. split; [|done]. revert s Hs'. unfold applyHostPathsToShell. apply preserves_bind.
    - destruct (pickFilesystemRoot paths) as [r|]; [|by intros ?]. unfold setFileSystemRoot, reloadMdDefaultDataFile.
      repeat first [apply preserves_bind; [|intros] | apply (keeps_on_files x) | apply keeps_invalidate | by intros ? []].
    - intros _. destruct (Config.geminiCatalogRoot paths); by intros ? []. }
  intros _ _ t1 Ht1. unfold get. rewrite (proc_bind_ok _ _ t1 t1 t1) by done. destruct (Session.geminiCatalogRoot _); [by apply (ends_logons x depth fuel Hset)|].
  revert t1 Ht1. apply (logons_then x _ _ (λ _, True)); [intros t1 Ht1; split; [by apply run_shell|done]|]. intros _ _. by apply ends_finish.
Qed.

(** C2. From power-on to power-off, where the accounts called SYSPROG have a password, only who knows it can stop the system.  Take the single-user program from its first line, on any host,
    configuration and records and any such catalogue, with any lines typed at its prompts and to its programs, none of which is that
    password, for as many logons as there are.  However it ends, no shutdown was requested, the host never had another session than the one it made, and that is not in
    the account SYSPROG; if it returns, it returns 0 and has given back the token that runs sessions.  The one condition is that
    the accounts called SYSPROG have a password. *)
Theorem power_on_to_off h x modules depth fuel input w ints :
  sysprog_has_password (login_host x) → only (not_the_password (login_host x)) input →
  let '(r, t) := gemini_main h x modules depth fuel (newShell input w ints) in
  e_shutdown (ext t) = false ∧ sessions_ (hworld (e_daemon (ext t))) ⊆ {[1]} ∧ sessionAccount (ident (sess t)) ≠ "SYSPROG" ∧
  ∀ n, r = Ok n → n = 0 ∧ idle (runner_of t).
Proof.
  intros Hset Hin. unfold gemini_main. destruct (createEmbedded h) as [d|e|u]; [|done..].
  destruct (coldStart _ _ _ _) as [r [d' b]].
  assert (H : ∀ p, at_end x (single_user (booted x b) depth fuel p (set_sess (set_io (mkIo input (bo_out b) w) (newSession input w)) (newShell input w ints))) ∧
    ∀ n, (single_user (booted x b) depth fuel p (set_sess (set_io (mkIo input (bo_out b) w) (newSession input w)) (newShell input w ints))).1 = Ok n → n = 0).
  { intros p. by apply (single_user_ends (booted x b)). }
  unfold mbind, proc_bind. cbn [on_session zoom].
  destruct r as [[]|e|u]; cbn; try done. destruct (resolveDefaultHostPaths h) as [p|e|u]; cbn; try done.
  destruct (H p) as [(Hs & [Hd Hses] & Hid) H0]. destruct (single_user _ _ _ _ _) as [r t]. cbn in *.
  split_and!; [done|by rewrite Hses|by destruct Hs|]. intros n ->. split; [by apply H0|by eapply Hid].
Qed.

Definition ex_power_host : ConfigHost :=
  mkConfigHost (λ n, if String.eqb n "GEMINI_CATALOG_ROOT" then Some "/g" else if String.eqb n "GEMINI_FILESYSTEM_ROOT" then Some "/pick" else None)
    (Ok "/home/pick") (λ _, false) (λ _, None).

Definition ex_typed : list string :=
  ["sysprog"; "guess"; "demo"; "WHO"; "SHUTDOWN"; "LOGTO SYSPROG"; "again"; "LOGOFF"; "nobody"; "DEMO"; "KILLSESSION 1"; "QUIT"].

Definition ex_power (typed : list string) : outcome Z * Shell Embedded :=
  gemini_main ex_power_host ex_shell_host (λ _, mkModulesDir false [] (λ _, NotOpened "")) 4 200 (newShell (str_join NL typed) ex_world []).

Lemma power_on_to_off_witness : e_shutdown (ext (ex_power ex_typed).2) = false ∧ (ex_power ex_typed).1 = Ok 0.
Proof.
  pose proof (power_on_to_off ex_power_host ex_shell_host (λ _, mkModulesDir false [] (λ _, NotOpened "")) 4 200 (str_join NL ex_typed) ex_world []
    ex_has_password) as H.
  assert (Hin : only (not_the_password (login_host ex_shell_host)) (str_join NL ex_typed)).
  { unfold only. vm_compute getlines. repeat constructor; by apply ex_not_secret. }
  specialize (H Hin). split; [|vm_compute; reflexivity].
  unfold ex_power. revert H. destruct (gemini_main _ _ _ _ _ _) as [r t]. by intros [? _].
Defined.

(** What is printed after the start; and with the password the system is stopped. *)
Example two_logons : drop 12 (getlines NL (stdout (ex_power ex_typed).2)) =
  [""; "LOGON PLEASE: Login incorrect"; "LOGON PLEASE: "; "Gemini/TCL Developer Shell"; "Type HELP for usage; HELP-LIST lists HELP topics.";
   "TCL> 1 DEMO DEMO"; "TCL> SHUTDOWN requires SYSPROG"; "TCL> Login failed."; "TCL> Logged off."; "LOGON PLEASE: Login incorrect"; "LOGON PLEASE: ";
   "Gemini/TCL Developer Shell"; "Type HELP for usage; HELP-LIST lists HELP topics."; "TCL> KILLSESSION requires SYSPROG"; "TCL> Exiting shell"].
Proof. vm_compute. reflexivity. Qed.

Example stopped : e_shutdown (ext (ex_power ["sysprog"; "secret"; "SHUTDOWN"; "WHO"]).2) = true.
Proof. vm_compute. reflexivity. Qed.
