(* ===== verification/DaemonMain.v ===== *)
(** * The daemon's main program

    [src/daemon/Main.cpp]: the settings, the cold start, the listening socket ([DaemonIpcServer::start], [stop]) and
    [GeminiDaemonRunner::run], from the command line to the exit code.  The rounds of the loop are Daemon.v's. *)

From Stdlib Require Import Ascii String.
From S2P Require Import Prelude CLib Words Ipc Channel Server Sched Records Locks FileSys Login Daemon Values Registry Session Help Tcl Config Modules Boot.
From stdpp Require Import options.
Local Open Scope Z_scope.

(** ** The socket in the file system *)

(** What a path can be to these calls.  [exists] follows links, so it does not see a link to nothing. *)
Inductive Node := NFile | NDirectory | NDangling | NSocket (mode : Z) (listening : bool).

(** What the calls answer.  [h_socket]: the new descriptor.  [h_mkdir], [h_bind], [h_chmod], [h_listen]: whether the call succeeds
    when nothing that is modelled is in its way.  [h_remove]: whether [remove] takes away what is there. *)
Record SocketHost := mkSocketHost {
  h_socket : option Z;
  h_mkdir : bool;
  h_remove : Node → bool;
  h_bind : bool;
  h_mode : Z;
  h_chmod : bool;
  h_listen : bool
}.

(** [listenFd_] with the process's descriptors, the directory the socket is to be in, and the socket's path. *)
(* src/core/daemon/DaemonIpcServer.h:76-77 [DaemonIpcServer] *)
Record SocketState := mkSocketState { listenFd_ : Z; fds : gset Z; directory : bool; node : option Node }.

Definition set_fd (fd : Z) (open : gset Z) (s : SocketState) : SocketState := mkSocketState fd open (directory s) (node s).
Definition set_directory (b : bool) (s : SocketState) : SocketState := mkSocketState (listenFd_ s) (fds s) b (node s).
Definition set_node (n : option Node) (s : SocketState) : SocketState := mkSocketState (listenFd_ s) (fds s) (directory s) n.

(** [sizeof(sockaddr_un::sun_path)]. *)
Definition sun_path_size : Z := 108.

Section socket.
Context (host : SocketHost) (socketPath : string).

(* src/core/daemon/DaemonIpcServer.h:47-47 [DaemonIpcServer::isListening] *)
Definition isListening (s : SocketState) : bool := 0 <=? listenFd_ s.

(* src/core/daemon/DaemonIpcServer.cpp:16-21 [closeFd] *)
Definition closeFd (s : SocketState) : SocketState := if 0 <=? listenFd_ s then set_fd (-1) (fds s ∖ {[listenFd_ s]}) s else s.

(** The empty name is no path. *)
Definition at_path (s : SocketState) : option Node := if str_empty socketPath then None else node s.

(** [std::filesystem::exists]. *)
Definition path_seen (s : SocketState) : bool := match at_path s with None | Some NDangling => false | Some _ => true end.

(** [std::filesystem::remove]; what it answers is not looked at. *)
Definition remove_path (s : SocketState) : SocketState :=
  match at_path s with Some n => if h_remove host n then set_node None s else s | None => s end.

(** The socket appears at the path, when the directory is there and the path is free; an empty name gives a socket outside the file system. *)
Definition bind_socket (s : SocketState) : bool * SocketState :=
  if str_empty socketPath then (h_bind host, s)
  else if directory s && h_bind host && negb (bool_decide (is_Some (node s))) then (true, set_node (Some (NSocket (h_mode host) false)) s)
  else (false, s).

(** The socket's own path; [S_IRUSR | S_IWUSR] is 0600. *)
Definition chmod_socket (s : SocketState) : bool * SocketState :=
  match at_path s with
  | Some (NSocket _ l) => if h_chmod host then (true, set_node (Some (NSocket (Z.lor 256 128) l)) s) else (false, s)
  | _ => (false, s)
  end.

Definition listen_socket (s : SocketState) : bool * SocketState :=
  match node s with
  | Some (NSocket m _) => if h_listen host then (true, set_node (Some (NSocket m true)) s) else (false, s)
  | _ => (h_listen host, s)
  end.

(** [if (call() != 0) { clean up; throw }]. *)
Definition or_throw (call : SocketState → bool * SocketState) (clean_up : SocketState → SocketState) (what : string) : proc SocketState unit := λ s,
  let '(ok, s') := call s in if ok : bool then (Ok tt, s') else (Throw (RuntimeError what), clean_up s').

(** [remove] after a failure does not ask whether the path exists. *)
Definition give_up_path (s : SocketState) : SocketState := remove_path (closeFd s).

(* src/core/daemon/DaemonIpcServer.cpp:73-76 [DaemonIpcServer::start] *)
Definition open_socket (s : SocketState) : bool * SocketState :=
  match h_socket host with Some fd => (true, set_fd fd ({[fd]} ∪ fds s) s) | None => (false, set_fd (-1) (fds s) s) end.

(* src/core/daemon/DaemonIpcServer.cpp:78-84 [DaemonIpcServer::start] *)
Definition clear_path (s : SocketState) : SocketState :=
  let s := if str_contains "/" socketPath && negb (directory s) && h_mkdir host then set_directory true s else s in
  if path_seen s then remove_path s else s.

(* src/core/daemon/DaemonIpcServer.cpp:68-113 [DaemonIpcServer::start] *)
Definition start_listening : proc SocketState unit :=
  running ← gets isListening;
  if running : bool then mret tt
  else
    or_throw open_socket id "IPC server: failed to create socket";;
    modify clear_path;;
    or_throw (λ s, (Z.of_nat (String.length socketPath) <? sun_path_size, s)) closeFd "IPC server: socket path too long";;
    or_throw bind_socket closeFd "IPC server: bind failed";;
    or_throw chmod_socket give_up_path "IPC server: failed to set socket permissions";;
    or_throw listen_socket give_up_path "IPC server: listen failed".

(** The last call of [start] makes the descriptor non-blocking, which [Server.acceptPendingConnections] relies on.

    The rest of [stop] is [Server.stop]. *)
(* src/core/daemon/DaemonIpcServer.cpp:115-123 [DaemonIpcServer::stop] *)
Definition stop_listening (s : SocketState) : SocketState :=
  let s := closeFd s in if path_seen s then remove_path s else s.
End socket.

(** ** The program *)

(** What the process has: what it prints and the function registry, the socket, the sessions, standard error. *)
Record Process := mkProcess { p_boot : Booting; p_socket : SocketState; p_daemon : Daemon; p_err : string }.

Definition on_boot {A} (m : proc Booting A) : proc Process A := zoom p_boot (λ b p, mkProcess b (p_socket p) (p_daemon p) (p_err p)) m.
Definition on_socket {A} (m : proc SocketState A) : proc Process A := zoom p_socket (λ s p, mkProcess (p_boot p) s (p_daemon p) (p_err p)) m.
Definition on_sessions {A} (m : proc Daemon A) : proc Process A := zoom p_daemon (λ d p, mkProcess (p_boot p) (p_socket p) d (p_err p)) m.
Definition prints_err (text : string) : proc Process unit := modify (λ p, mkProcess (p_boot p) (p_socket p) (p_daemon p) (p_err p +:+ text)).
Definition prints_out (text : string) : proc Booting unit := modify (λ b, mkBooting (bo_registry b) (bo_log b) (bo_out b +:+ text)).

Section program.
Context (h : ConfigHost) (host : LoginHost) (sh : SocketHost) (version : string) (modules : string → ModulesDir).

(** [es]: what happens in the loop; [ws]: what the threads do while it waits for one of them; [meanwhile]: what is at the socket's path when it ends.  [Daemon.run] is the loop and the
    shutdown, which stops listening just before the last sessions go. *)
(* src/userland/tcl/GeminiDaemonRunner.cpp:319-364 [GeminiDaemonRunner::run] *)
Definition runner_run (config : DaemonConfig) (es : list daemon_event) (meanwhile : option Node → option Node) : proc Process Z :=
  on_boot (zoom (λ b, (create config, b)) (λ r _, r.2) (coldStart host version modules));;
  on_socket (start_listening sh (c_socketPath config));;
  on_boot (say ("IPC LISTENING: " +:+ c_socketPath config));;
  on_sessions (Daemon.run (mkServerConfig (Config.maxSessions config) version) es);;
  on_socket (modify (λ s, stop_listening sh (c_socketPath config) (set_node (meanwhile (node s)) s)));;
  mret 0.

(** An exception that reaches the end of [main] terminates the process; so does one that leaves a session's thread ([Daemon.thread_step]). *)
(* src/daemon/Main.cpp:9-30 [main] *)
Definition daemon_main (argv : list string) (es : list daemon_event) (ws : list Wait) (meanwhile : option Node → option Node) : proc Process Z :=
  resolution ← lift (resolveDaemonConfig h (tail argv));
  if showHelp resolution then on_boot (prints_out (printDaemonUsage (default "gemini-daemon" (head argv))));; mret 0
  else match error resolution with
       | Some m => prints_err ("gemini-daemon: " +:+ m +:+ String NL "");; mret 1
       | None =>
           let c := config resolution in
           on_sessions (modify (λ _, fresh_host (Config.maxSessions c) ws));;
           runner_run c es meanwhile
       end.
End program.

(** ** Listening *)

Section listening.
Context (sh : SocketHost) (path : string).















End listening.



(** ** The whole program *)

Section whole.
Context (h : ConfigHost) (host : LoginHost) (sh : SocketHost) (version : string) (modules : string → ModulesDir).





End whole.

(** *** Executions *)

Definition ex_sockets : SocketHost := mkSocketHost (Some 3) true (λ n, match n with NDirectory => false | _ => true end) true 493 true true.

Definition ex_settings : ConfigHost := mkConfigHost (λ _, None) (Ok "/home/pick") (λ _, false) (λ _, None).

Definition ex_process (n : option Node) : Process :=
  mkProcess (mkBooting emptyRegistry clear_boot_log "") (mkSocketState (-1) {[0; 1; 2]} false n) (mkShared ∅ (newHost 1)) "".

Definition ex_main (args : list string) (es : list daemon_event) (ws : list Wait) (meanwhile : option Node → option Node) (n : option Node) : outcome Z * Process :=
  daemon_main ex_settings ex_boot_host ex_sockets "1.0" (λ _, mkModulesDir false [] (λ _, NotOpened "")) ("gemini-daemon" :: args) es ws meanwhile (ex_process n).

(** Two clients are served; a stale socket was in the way. *)
Definition ex_args : list string := ["--socket"; "/run/gemini/gemini.sock"; "--max-sessions"; "4"].



Definition outcome_of (r : outcome Z * Process) : outcome Z * option Node := (r.1, node (p_socket r.2)).

(** An exception that leaves a session's thread, here that of CHAIN, terminates the daemon. *)
Example chain_terminates :
  (ex_main ex_args [connects 5; sends 5 [shakes; attaches 0]; EThread (TEscapes (ChainRequest "NEXT.ONE"))] [] id None).1 = Undefined "terminate".
Proof. by vm_compute. Qed.

(** A directory that cannot be removed is in the way; a link to nothing is not seen; a name of 108 characters; what another process listens on is taken
    away even when the name is too long. *)
Example no_path_to_listen_on :
  outcome_of (ex_main ex_args [] [] id (Some NDirectory)) = (Throw (RuntimeError "IPC server: bind failed"), Some NDirectory) ∧
  outcome_of (ex_main ex_args [] [] id (Some NDangling)) = (Throw (RuntimeError "IPC server: bind failed"), Some NDangling) ∧
  outcome_of (ex_main ["--socket"; String.concat "" (repeat "/r" 54)] [] [] id (Some (NSocket 384 true))) = (Throw (RuntimeError "IPC server: socket path too long"), None).
Proof. by vm_compute. Qed.

(** A second daemon with the same path takes it from the first, which is still running; when the first ends, it removes the socket of the second. *)
Example second_daemon_takes_over :
  let first := start_listening ex_sockets "/run/g" (mkSocketState (-1) ∅ true None) in
  let second := start_listening ex_sockets "/run/g" (mkSocketState (-1) ∅ true (node first.2)) in
  first.1 = Ok tt ∧ second.1 = Ok tt ∧ node (stop_listening ex_sockets "/run/g" (set_node (node second.2) first.2)) = None.
Proof. by vm_compute. Qed.

(** The path of a plain file is cleared for the socket. *)
Example file_is_lost : node (start_listening ex_sockets "notes.txt" (mkSocketState (-1) ∅ true (Some NFile))).2 = Some (NSocket 384 true).
Proof. by vm_compute. Qed.
