(* ===== verification/VmMain.v ===== *)
(** * The standalone machine

    [src/vm/Main.cpp], the program [gemini-vm]: its command line, the language modules, and one run of a file of bytecode text, without
    record store, locks or session, but with the streams on the host's files.  What it prints on standard output is the machine's output. *)

From Stdlib Require Import Ascii String.
From S2P Require Import Prelude CLib Words Dbl HostStreams Records Locks FileSys Login Bytecode Values Registry Vm VmProps BasicExpr BasicStmt BasicEmit BasicLayout BasicControl BasicSaved Session Help Config Modules System.
From stdpp Require Import options.
Local Open Scope Z_scope.

(** ** The program *)

(* src/core/vm/Runtime.cpp:371-373 [Runtime::setHostFilesystem] *)
Definition setHostFilesystem (files : option HostFiles) (r : Runtime) : Runtime :=
  set_fn (mkFnState (r_stack r) (mkOutside (o_rng (r_outside r)) files)) r.

(** [files]: what the host's files hold when the program starts. *)
Section program.
Context (host : ConfigHost) (files : Z) (fs_host : HostFs) (plat : Platform) (modules : string → ModulesDir) (before : LanguageRegistry) (fuel : nat).

(** No stream is open. *)
(* src/vm/Main.cpp:90-90 [main] *)
Definition hostFs : @HostFiles Z Z := mkHostFiles [] files.

(* src/vm/Main.cpp:14-30 [printUsage] *)
Definition printUsage (name : string) : proc Runtime unit := write_out (text_of
  ["Usage: " +:+ name +:+ " [--modules PATH] [-h|--help] <program.tbc>";
   "";
   "Run a Gemini text bytecode (.tbc) file with console I/O.";
   "Does not attach Pick catalogue, Tcl, session table, or Pick filesystem.";
   "Host-path stream I/O is available via CALL_FUNC hostfs when that module is loaded.";
   "";
   "Options:";
   "  --modules PATH   Directory of language modules (shared libraries)";
   "  -h, --help       Show this help and exit";
   "";
   "Modules path resolution (first match wins):";
   "  1. --modules PATH";
   "  2. GEMINI_MODULES_PATH environment variable";
   "  3. ./gemini/modules (relative to current working directory)"]).

(* src/vm/Main.cpp:32-41 [resolveModulesDir] *)
Definition resolveModulesDir (modulesFlag : string) : string :=
  if negb (str_empty modulesFlag) then modulesFlag
  else match env host "GEMINI_MODULES_PATH" with Some v => v | None => path_join "gemini" "modules" end.

(* src/core/vm/Parser.cpp:649-654 [Parser::parseFile] *)
Definition parseFile (filename : string) : outcome LoadedBytecode :=
  match contents host filename with
  | None => Throw (RuntimeError ("Cannot open bytecode file: " +:+ filename))
  | Some text => parse text
  end.

(** The settings of the command line, or what is wrong with it. *)
Inductive vm_args := VmArgs (modulesFlag programPath : string) (showHelp : bool) | VmError (message : string).

(* src/vm/Main.cpp:49-72 [main] *)
Fixpoint scan_vm_args (args : list string) (modulesFlag programPath : string) (showHelp : bool) : vm_args :=
  match args with
  | [] => VmArgs modulesFlag programPath showHelp
  | arg :: rest =>
      if String.eqb arg "-h" || String.eqb arg "--help" then scan_vm_args rest modulesFlag programPath true
      else if String.eqb arg "--modules" then
        match rest with
        | v :: rest' => if str_empty v then VmError "--modules requires a path argument" else scan_vm_args rest' v programPath showHelp
        | [] => VmError "--modules requires a path argument"
        end
      else if match arg with String c _ => Ascii.eqb c "-" | "" => false end then VmError ("unknown option: " +:+ arg)
      else if negb (str_empty programPath) then VmError ("unexpected argument: " +:+ arg)
      else scan_vm_args rest modulesFlag arg showHelp
  end.

(** Nothing calls [interrupt] in this program; [None]: the fuel ran out. *)
(* src/vm/Main.cpp:85-98 [main] *)
Definition vm_program (modulesFlag programPath : string) : proc Runtime (option unit) :=
  let '(r, l) := loadLanguageModules (modules (resolveModulesDir modulesFlag)) before in
  lift r;;
  modify (setHostFilesystem (Some hostFs));;
  loaded ← lift (parseFile programPath);
  modify (loadProgram (program loaded) (sourceLines loaded));;
  run (mkEnv fs_host None None None (Some (ld_registry l)) plat) fuel (λ _, false).

(** The exit code, and what is written to standard error. *)
Abbreviation Exit := (Z * string)%type.

(* src/vm/Main.cpp:99-114 [main] *)
Definition vm_caught (e : exn) : Exit :=
  match e with
  | UserInterrupt => (130, text_of ["gemini-vm: interrupted"])
  | ChainRequest programName =>
      (1, text_of ["gemini-vm: CHAIN not supported in standalone runner" +:+
                   (if str_empty programName then "" else " (requested: " +:+ programName +:+ ")")])
  | RuntimeError w | FileSystemError w | InvalidArgument w | OutOfRange w | LogicError w => (1, text_of ["gemini-vm: " +:+ w])
  end.

(* src/vm/Main.cpp:44-114 [main] *)
Definition vm_main (argv : list string) : proc Runtime (option Exit) :=
  let name := default "gemini-vm" (head argv) in
  match scan_vm_args (tail argv) "" "" false with
  | VmError message => mret (Some (1, text_of ["gemini-vm: " +:+ message]))
  | VmArgs modulesFlag programPath showHelp =>
      if showHelp then printUsage name;; mret (Some (0, ""))
      else if str_empty programPath then printUsage name;; mret (Some (1, text_of ["gemini-vm: missing program path"]))
      else try_catch
             (o ← vm_program modulesFlag programPath; mret (match o with Some _ => Some (0, "") | None => None end))
             (λ e, Some (mret (Some (vm_caught e))))
  end.
End program.

(** ** Without a record store

    A machine that was given none has no way to one: the records and locks stay as they are.  What is outside -- the
    host's files and the streams on them, the random engine -- is changed by the functions of the registry only. *)

(** [Q] holds after every function that is registered when it holds before. *)
Definition functions_keep (Q : Outside → Prop) (reg : LanguageRegistry) : Prop := ∀ k ns e f,
  namespaces reg !! k = Some ns → e ∈ functions ns → fn e = Some f → ∀ cx st, Q (fn_outside st) → Q (fn_outside (f cx st).2).

Section no_records.
Context (env : Env) (Hfs : e_fs env = None) (w : World) (Q : Outside → Prop).
Context (Hkeep : ∀ reg, e_registry env = Some reg → functions_keep Q reg).

#[local] Abbreviation untouched := (preserves (λ r, r_world r = w ∧ Q (r_outside r))).

Lemma untouched_catch {A} (m : proc Runtime A) h : untouched m → (∀ e m', h e = Some m' → untouched m') → untouched (try_catch m h).
Proof. intros Hm Hh r Hr. specialize (Hm r Hr). unfold try_catch. destruct (m r) as [[a|e|u] r1]; [done| |done]. destruct (h e) eqn:E; [by eapply Hh|done]. Qed.

Lemma untouched_with_file {A} op fileVar (k : FileSystem → FileHandle → proc Runtime A) : untouched (with_file env op fileVar k).
Proof using Hfs Hkeep. intros r Hr. unfold with_file, gets, mbind, proc_bind. rewrite Hfs. by destruct (_ !! _). Qed.

Lemma untouched_with_file_else {A} fileVar m (k : FileSystem → FileHandle → proc Runtime A) : untouched m → untouched (with_file_else env fileVar m k).
Proof using Hfs Hkeep. intros Hm r Hr. unfold with_file_else, gets, mbind, proc_bind. rewrite Hfs. destruct (_ !! _); by apply Hm. Qed.

Lemma dispatch_untouched reg ns id n cx st : e_registry env = Some reg → Q (fn_outside st) → Q (fn_outside (dispatch reg ns id n cx st).2).
Proof using Hkeep.
  intros Hreg HQ. unfold dispatch. destruct (namespaces reg !! ns) as [nsp|] eqn:En; [|done].
  destruct (functions nsp !! Z.to_nat id) as [e|] eqn:Ee; [|done]. destruct (fn e) as [f|] eqn:Ef; [|done].
  repeat (case_match; [done|]). eapply Hkeep; eauto. by eapply list_elem_of_lookup_2.
Qed.

Lemma untouched_dispatch reg ns id n : e_registry env = Some reg → untouched (on_functions env (dispatch reg ns id n)).
Proof using Hkeep.
  intros Hreg r [Hw HQ]. unfold on_functions. pose proof (dispatch_untouched reg ns id n (context_of env r) (mkFnState (r_stack r) (r_outside r)) Hreg HQ) as H.
  by destruct (dispatch _ _ _ _ _ _) as [o f].
Qed.

Lemma untouched_shim name : untouched (on_functions env (λ cx, invokeBuiltinShim name cx (e_registry env))).
Proof using Hkeep.
  intros r [Hw HQ]. unfold on_functions, invokeBuiltinShim. case_eq (e_registry env); [intros reg Hreg|done].
  assert (Hd : ∀ n k, let '(o, f) := dispatch reg kNamespaceId n k (context_of env r) (mkFnState (r_stack r) (r_outside r)) in
    r_world (set_fn f r) = w ∧ Q (r_outside (set_fn f r))).
  { intros n k. pose proof (dispatch_untouched reg kNamespaceId n k (context_of env r) (mkFnState (r_stack r) (r_outside r)) Hreg HQ) as H.
    by destruct (dispatch _ _ _ _ _ _) as [o f]. }
  cbv zeta. destruct (functionIdForBuiltinName _ _); [|done]. repeat case_match; try done; simplify_eq;
    first [done | match goal with H : dispatch _ _ ?n ?k _ _ = _ |- _ => specialize (Hd n k); rewrite H in Hd; exact Hd end].
Qed.

Lemma untouched_call i : untouched (exec_call_func env i).
Proof using Hkeep.
  unfold exec_call_func, next. apply preserves_bind; [|intros ?; auto with preserves].
  case_eq (e_registry env); [intros reg Hreg|by intros _ r Hr]. cbv zeta.
  apply preserves_bind; [apply preserves_gets|]. intros st. destruct (_ <? _); [by intros r Hr|by apply untouched_dispatch].
Qed.

Lemma untouched_pop : untouched pop.
Proof. intros r Hr. unfold pop. by destruct (r_stack r). Qed.

Lemma untouched_input : untouched readInputLine.
Proof. intros r Hr. unfold readInputLine. by destruct (getline NL (r_in r)) as [[]|]. Qed.

Lemma untouched_return : untouched exec_return.
Proof. intros r Hr. unfold exec_return. by destruct (r_calls r). Qed.

Lemma untouched_dup : untouched exec_dup.
Proof. intros r Hr. unfold exec_dup. by destruct (r_stack r). Qed.

#[local] Hint Resolve untouched_with_file untouched_with_file_else untouched_shim untouched_call untouched_pop untouched_input untouched_return untouched_dup : preserves.

Ltac untouched :=
  cbv zeta;
  repeat (lazymatch goal with
  | |- untouched (next _) => apply preserves_bind; [|intros ?]
  | |- untouched (push _) => by apply preserves_modify
  | |- untouched (modify _) => by apply preserves_modify
  | |- untouched (write_out _) => by apply preserves_modify
  | |- untouched (try_catch _ _) => apply untouched_catch; [|intros ? ? ?; repeat case_match; simplify_eq]
  | |- untouched (fail _) => apply preserves_throw
  | |- untouched (string_operand _) => by intros ?
  | |- untouched (int_operand _) => by intros ?
  | |- untouched (float_operand _) => by intros ?
  | |- untouched (with_file_else _ _ _ _) => apply untouched_with_file_else
  | |- untouched (with_file _ _ _ _) => apply untouched_with_file
  | |- untouched (name_operand _) => unfold name_operand
  | |- untouched (jump_to _) => unfold jump_to
  | |- untouched (pop_int _) => unfold pop_int
  | |- untouched (pop_string _) => unfold pop_string
  | |- untouched pop_coerced => unfold pop_coerced
  | |- untouched pop_text => unfold pop_text
  | |- untouched (push_some _) => unfold push_some
  | |- untouched push_none => unfold push_none
  | |- untouched (read_only _ _) => unfold read_only
  | |- untouched (put_array _ _) => unfold put_array
  | |- untouched (_ ≫= _) => apply preserves_bind; [|intros ?]
  | |- untouched (if ?b then _ else _) => destruct b
  | |- untouched (match ?x with _ => _ end) => destruct x
  | |- untouched _ => solve [auto with preserves]
  end; cbv zeta).

Lemma untouched_exec i : untouched (exec env i).
Proof using Hfs Hkeep.
  destruct i as [o v c]. unfold exec. cbn [op].
  destruct o; unfold exec_push, exec_arith, exec_div, exec_mod, exec_compare, exec_concat, exec_print, exec_coerce, exec_input, exec_jump, exec_call,
    exec_for_setup, exec_for_next, exec_dim, exec_load_arr, exec_store_arr, exec_mat_init, exec_mat_copy, exec_mat_load, exec_mat_store, exec_clear,
    exec_number, exec_store_var, exec_chain, exec_set_handler, exec_builtin, exec_open, exec_open_try, exec_read_u, exec_read_u_try,
    exec_read, exec_read_try, exec_write_u, exec_write_u_try, exec_write, exec_write_try, exec_release, exec_read_next, exec_read_next_try, exec_read_v,
    exec_read_v_try, exec_extract, exec_resolve_dict, exec_write_v, exec_write_v_try, exec_close, exec_load_var; rewrite ?Hfs; untouched.
Qed.

Lemma untouched_step : untouched (step env).
Proof using Hfs Hkeep.
  intros r Hr. unfold step. destruct (psize r <=? r_ip r); [done|]. destruct (r_program r !! _) as [i|]; [|done].
  refine (preserves_bind _ (exec env i) _ (untouched_exec i) _ r Hr). intros [| |]; untouched.
Qed.

Lemma untouched_run fuel : ∀ signal, untouched (run env fuel signal).
Proof using Hfs Hkeep.
  induction fuel as [|fuel IH]; intros signal; cbn [run]; [auto with preserves|]. apply preserves_bind; [apply untouched_step|]. intros [|]; untouched.
Qed.
End no_records.

(** ** What the program may do *)

Section contract.
Context (host : ConfigHost) (files : Z) (fs_host : HostFs) (plat : Platform) (modules : string → ModulesDir) (before : LanguageRegistry) (fuel : nat).

#[local] Abbreviation vm_main' := (vm_main host files fs_host plat modules before fuel).
#[local] Abbreviation vm_program' := (vm_program host files fs_host plat modules before fuel).

Lemma program_untouched flag path w (Q : Outside → Prop) :
  functions_keep Q (ld_registry (loadLanguageModules (modules (resolveModulesDir host flag)) before).2) →
  (∀ e, Q (mkOutside e (Some (hostFs files)))) → ∀ r, r_world r = w → Q (r_outside r) →
  r_world (vm_program' flag path r).2 = w ∧ Q (r_outside (vm_program' flag path r).2).
Proof.
  intros Hk H0 r Hw HQ. apply (λ H : preserves (λ r, r_world r = w ∧ Q (r_outside r)) (vm_program' flag path), H r (conj Hw HQ)).
  unfold vm_program. revert Hk. destruct (loadLanguageModules _ _) as [o l]. intros Hk. apply preserves_bind; [apply preserves_lift|intros ?].
  apply preserves_bind; [apply preserves_modify; intros r' [? _]; split; [done|apply H0]|intros _].
  apply preserves_bind; [apply preserves_lift|intros ?].
  apply preserves_bind; [by apply preserves_modify|]. intros _. apply untouched_run; [done|]. by intros reg [= <-].
Qed.

(** C24. How the standalone machine ends, and what it can reach.  For every command line, every file, every directory of modules and
    whatever their functions do: the exit code is 0, 1 or 130; it is 0 exactly when nothing was written to
    standard error; and then either help was asked for, and that is all there was, or the file was loaded and its program ran to its end.
    No instruction reaches a record store or its locks.  What is outside the machine, the host's files and the streams on them, starts with no stream open and is
    changed by the functions of the loaded modules only: whatever each of them keeps true of it holds at the end.  (A function of
    [gemini-hostfs] may well write to a file that is a record's: [hostfs_writes].) *)
Theorem standalone_contract (Q : Outside → Prop) argv r code err :
  (∀ flag, functions_keep Q (ld_registry (loadLanguageModules (modules (resolveModulesDir host flag)) before).2)) →
  (∀ e, Q (mkOutside e (Some (hostFs files)))) → Q (r_outside r) →
  let '(o, r') := vm_main' argv r in
  r_world r' = r_world r ∧ Q (r_outside r') ∧
  (o = Ok (Some (code, err)) →
    (code = 0 ∨ code = 1 ∨ code = 130) ∧ (code = 0 ↔ err = "") ∧
    (code = 0 → ∃ flag path help, scan_vm_args (tail argv) "" "" false = VmArgs flag path help ∧
      if help : bool then r' = set_out (r_out r') r
      else path ≠ "" ∧ (∃ loaded, parseFile host path = Ok loaded) ∧ vm_program' flag path r = (Ok (Some tt), r'))).
Proof.
  intros Hk H0 HQ. unfold vm_main.
  destruct (scan_vm_args _ _ _ _) as [flag path help|message]; [|by split; [|split; [|intros [= <- <-]; split_and!; [auto|done|done]]]].
  destruct help; [split; [done|]; split; [done|]; intros [= <- <-]; split_and!; [auto|done|]; intros _; by exists flag, path, true|].
  destruct (str_empty path) eqn:Ep; [by split; [|split; [|intros [= <- <-]; split_and!; [auto|done|done]]]|].
  assert (path ≠ "") as Hne by (by intros ->).
  destruct (program_untouched flag path (r_world r) Q (Hk flag) H0 r eq_refl HQ) as [Hw HQ']. unfold try_catch, mbind, proc_bind.
  destruct (vm_program' flag path r) as [[[[]|]|e|u] r'] eqn:E; cbn in Hw, HQ' |- *; (split; [exact Hw|]; split; [exact HQ'|]).
  - intros [= <- <-]. split_and!; [auto|done|]. intros _. exists flag, path, false. split_and!; [done|done| |done].
    revert E. unfold vm_program. destruct (loadLanguageModules _ _) as [o l]. unfold mbind, proc_bind, lift, modify. destruct o; [|done..].
    destruct (parseFile host path) as [loaded| |]; [|done..]. by exists loaded.
  - done.
  - destruct e; intros [= <- <-]; (split_and!; [auto|done|done]).
  - done.
Qed.

(** C20. A compiled program that was saved runs in the standalone machine as it would where it was compiled.  Take any program text that the
    compiler accepts, under the conditions of saving, and a file with the saved bytecode: [gemini-vm] with that file's name prints, reads and computes what
    the machine does on the compiled program, instruction by instruction, with the loaded modules' functions and the same streams on the host's files; its exit code is 0 when the
    program ends and else names what it threw. *)
Theorem standalone_runs_compiled name path lines text r : let p := compile lines in
  c_success p = true → end_is_last (plines (parse_program lines)) → next_named (plines (parse_program lines)) →
  Forall float_kept (c_program p) → Z.of_nat (length (c_program p)) <= INT_MAX → Forall (λ l, 0 <= l.1 <= INT_MAX) lines →
  serializeBytecodeText (c_program p) (c_source p) = Ok text → contents host path = Some text →
  match path with "" => False | String c _ => c ≠ "-"%char end →
  let l := loadLanguageModules (modules (resolveModulesDir host "")) before in
  l.1 = Ok tt →
  let '(o, r') := run (mkEnv fs_host None None None (Some (ld_registry l.2)) plat) fuel (λ _, false)
    (loadProgram (c_program p) (c_source p) (setHostFilesystem (Some (hostFs files)) r)) in
  vm_main' [name; path] r =
    (match o with
     | Ok (Some _) => Ok (Some (0, ""))
     | Ok None => Ok None
     | Throw e => Ok (Some (vm_caught e))
     | Undefined u => Undefined u
     end, r').
Proof.
  cbv zeta. intros Hs Hend Hnext Hf Hsz Hn Ht Hc Hpath Hl. destruct (compiled_reloads lines Hs Hend Hnext Hf Hsz Hn) as (text' & Et & Eparse).
  rewrite Ht in Et. injection Et as <-.
  assert (Hscan : scan_vm_args [path] "" "" false = VmArgs "" path false).
  { destruct path as [|c path]; [done|]. cbn. apply Ascii.eqb_neq in Hpath. by rewrite Hpath. }
  unfold vm_main. cbn [tail head default]. rewrite Hscan. destruct path as [|c path]; [done|]. cbn [str_empty]. unfold vm_program, parseFile.
  rewrite Hc, Eparse. destruct (loadLanguageModules _ _) as [o l]. cbn in Hl. subst o. unfold try_catch, mbind, proc_bind, lift, modify. cbn [program sourceLines fst snd].
  by destruct (run _ _ _ _) as [[[]| |] r'].
Qed.
End contract.

Definition ex_standalone : list (Z * string) :=
  [(10, "FOR I = 1 TO 3"); (20, "IF I = 2 THEN PRINT " +:+ quote "two" +:+ " ELSE PRINT I"); (30, "NEXT I"); (40, "CHAIN " +:+ quote "NEXT.ONE")].

Definition ex_text : string :=
  match serializeBytecodeText (c_program (compile ex_standalone)) (c_source (compile ex_standalone)) with Ok t => t | _ => "" end.

Definition ex_vm_host : ConfigHost :=
  mkConfigHost (λ _, None) (Ok "/home/pick") (λ _, false) (λ p, if String.eqb p "a.tbc" then Some ex_text else None).

Definition ex_vm (argv : list string) : outcome (option (Z * string)) * Runtime :=
  vm_main ex_vm_host 0 ex_host ex_platform (λ _, mkModulesDir false [] (λ _, NotOpened "")) emptyRegistry 200 argv newRuntime.

Lemma standalone_runs_compiled_witness : (ex_vm ["gemini-vm"; "a.tbc"]).1 = Ok (Some (1, text_of ["gemini-vm: CHAIN not supported in standalone runner (requested: NEXT.ONE)"])) ∧
  r_out (ex_vm ["gemini-vm"; "a.tbc"]).2 = text_of ["1"; "two"; "3"].
Proof.
  assert (H1 : c_success (compile ex_standalone) = true) by (vm_compute; reflexivity).
  assert (H2 : end_is_last (plines (parse_program ex_standalone))).
  { intros k l. vm_compute plines. do 4 (destruct k as [|k]; [by intros [= <-]|]). done. }
  assert (H3 : next_named (plines (parse_program ex_standalone))) by (unfold next_named; vm_compute plines; by repeat constructor).
  assert (H4 : Forall float_kept (c_program (compile ex_standalone))) by (vm_compute c_program; repeat constructor).
  assert (H5 : Z.of_nat (length (c_program (compile ex_standalone))) <= INT_MAX) by (vm_compute; discriminate).
  assert (H6 : Forall (λ l, 0 <= l.1 <= INT_MAX) ex_standalone) by (unfold ex_standalone, INT_MAX; repeat constructor; cbn; lia).
  assert (H7 : serializeBytecodeText (c_program (compile ex_standalone)) (c_source (compile ex_standalone)) = Ok ex_text) by (vm_compute; reflexivity).
  assert (H8 : contents ex_vm_host "a.tbc" = Some ex_text) by reflexivity.
  pose proof (standalone_runs_compiled ex_vm_host 0 ex_host ex_platform (λ _, mkModulesDir false [] (λ _, NotOpened "")) emptyRegistry 200 "gemini-vm" "a.tbc"
    ex_standalone ex_text newRuntime H1 H2 H3 H4 H5 H6 H7 H8 ltac:(discriminate) eq_refl) as H.
  unfold ex_vm. revert H. destruct (run _ _ _ _) as [o r'] eqn:E. intros ->.
  pose proof (f_equal (λ q, r_out q.2) E) as Hout. apply (f_equal fst) in E. vm_compute in E. subst o.
  split; [reflexivity|]. cbn [snd] in *. rewrite <- Hout. vm_compute. reflexivity.
Defined.

(** The command line. *)
Example vm_commands :
  (λ a, (ex_vm ("vm" :: a)).1) <$> [["x.tbc"]; ["--modules"]; ["-v"]; ["a.tbc"; "b.tbc"]; []] =
  (λ m, Ok (Some (1, text_of ["gemini-vm: " +:+ m]))) <$>
    ["Cannot open bytecode file: x.tbc"; "--modules requires a path argument"; "unknown option: -v"; "unexpected argument: b.tbc"; "missing program path"].
Proof. vm_compute. reflexivity. Qed.

(** *** Modules and the host's files

    A host whose one file is known by its length. *)
Definition ex_file_host : FileHost Z Z :=
  mkFileHost Z Z (λ _ _, true) (λ m _ h, (Some 0, match m with OutMode => 0 | _ => h end)) (λ _ x, (("", true), x))
    (λ s x, (true, (x.1, x.2 + str_size s))) (λ x, (true, x)) (λ _ h, (true, h)).

Definition ex_module (d : LanguageNamespaceDescriptor) : string → ModulesDir :=
  λ _, mkModulesDir true [("m.so", true)] (λ _, Registers (registerNamespace d)).

Definition ex_module_host (text : list string) : ConfigHost :=
  mkConfigHost (λ _, None) (Ok "/home/pick") (λ _, false) (λ p, if String.eqb p "a.tbc" then Some (text_of text) else None).

Definition ex_run (d : LanguageNamespaceDescriptor) (text : list string) : outcome (option (Z * string)) * Runtime :=
  vm_main (ex_module_host text) 9 ex_host (mkPlatform id id id id id (λ a _, a) id (λ e, (d_zero, e)) ex_file_host)
    (ex_module d) emptyRegistry 50 ["gemini-vm"; "a.tbc"] newRuntime.

Definition file_length (r : Runtime) : option Z := h_host <$> o_files (r_outside r).

(** With [gemini-hostfs], a program empties a file, and writes to it: any file, so that of a record too. *)
Example hostfs_writes :
  let r := ex_run hostfs_module ["PUSH_STR " +:+ quote "/pick/BP/T"; "CALL_FUNC 7, 1, 1"; "PUSH_STR " +:+ quote "hello"; "CALL_FUNC 7, 4, 2"; "PRINT_VAL"; "PRINT_EOL"; "HALT"] in
  r.1 = Ok (Some (0, "")) ∧ r_out r.2 = text_of ["5"] ∧ file_length r.2 = Some 5.
Proof. vm_compute. by split_and!. Qed.

(** With a module that does not use them, the host's files stay as they were, here after an error. *)
Lemma standalone_contract_witness :
  let r := ex_run stub_module ["CALL_FUNC 256, 0, 0"; "PRINT_VAL"; "PRINT_EOL"; "CALL_FUNC 7, 1, 1"; "HALT"] in
  r.1 = Ok (Some (1, text_of ["gemini-vm: LANG: arity mismatch"])) ∧ r_out r.2 = text_of ["stub-ok"] ∧
  (∀ n, file_length r.2 = Some n → n = 9) ∧ (1 = 0 ∨ 1 = 1 ∨ 1 = 130).
Proof.
  cbv zeta. set (text := [_; _; _; _; _]).
  assert (Hk : ∀ flag, functions_keep (λ o, ∀ n, h_host <$> o_files o = Some n → n = 9)
    (ld_registry (loadLanguageModules (ex_module stub_module (resolveModulesDir (ex_module_host text) flag)) emptyRegistry).2)).
  { intros flag k ns e f Hns He Hf cx st HQ. change (ex_module _ _) with (ex_module stub_module "") in Hns.
    assert (E : namespaces (ld_registry (loadLanguageModules (ex_module stub_module "") emptyRegistry).2) =
      {[256 := mkRegistered (mkMeta "stub" "1") (d_functions stub_module)]}) by (vm_compute; reflexivity).
    rewrite E in Hns. apply lookup_singleton_Some in Hns as [_ <-]. cbn in He. apply list_elem_of_singleton in He as ->. injection Hf as <-. exact HQ. }
  assert (E : (ex_run stub_module text).1 = Ok (Some (1, text_of ["gemini-vm: LANG: arity mismatch"]))) by (vm_compute; reflexivity).
  pose proof (standalone_contract (ex_module_host text) 9 ex_host (mkPlatform id id id id id (λ a _, a) id (λ e, (d_zero, e)) ex_file_host)
    (ex_module stub_module) emptyRegistry 50 _ ["gemini-vm"; "a.tbc"] newRuntime 1 (text_of ["gemini-vm: LANG: arity mismatch"]) Hk) as H.
  specialize (H ltac:(intros e n; cbn; intros [= <-]; reflexivity) ltac:(intros n; cbn; discriminate)).
  split; [exact E|]. split; [vm_compute; reflexivity|]. revert H E. unfold ex_run, file_length.
  destruct (vm_main _ _ _ _ _ _ _ _ _) as [o r']. cbn [fst snd]. intros (_ & HQ & Hc) E. split; [exact HQ|]. exact (proj1 (Hc E)).
Defined.
